(* ===== verification/_CoqProject ===== *)
-Q . S2P
Prelude.v
ListHead.v
RingQueue.v
QueueTest.v
KvStore.v
KvMain.v
Bitwise.v
BitwiseTests.v
RingBuf.v
Producer.v
CircularList.v
Buddy.v
BuddyTree.v
BuddyAlloc.v
BuddyClient.v
BuddyMain.v
EventLoop.v
EvTests.v
XorList.v
XorTests.v
SwapPairs.v
XString.v
XsTests.v
XVec.v
XVecTests.v
Coroutine.v
SortTask.v
TaskSched.v
Proxy.v
ProxyMain.v
MmapAlloc.v
Defer.v
MutexPerf.v
MutexReport.v
Utime.v
Logfs.v
LogfsUser.v
Loader.v
Timer.v
