(* ===== verification/Prelude.v ===== *)
(** * Verification of the sysprog21 programs

    The repository is a collection of C programs about systems programming, each in
    a directory of its own under src/.  This library models them one by one, a file
    (or a few) per program, in a shared style, and proves that they do what they are
    for.  Two of them share a component, list.h, which is proved once.

    ** Style

    Every program is translated function by function, with the names of the source.
    Code that changes memory is a computation of the monad [M] below: a state that is
    a record of the program's objects, and a result that is a value or a [fault].
    Undefined behaviour of C (a pointer to no object, an access outside of one) is
    the fault [Undefined], so that a theorem whose conclusion is [... = Ok ...] also
    says that there is none.  Machine integers are integers that are wrapped where
    the code can overflow.  What the C library and the kernel answer is an argument:
    an oracle, a list of answers in the state, or a function with the contract that
    the manual page gives, about which a theorem says what it assumes.  Concurrent
    code is a step relation or a step function over the interleavings, a step being
    the code between two places where threads can meet.

    A loop gets fuel where its end is not structural: the size of the heap that it
    walks, the bytes that are left to move, the width of the integer that it shifts.
    The theorems have the result [Ok], so that they also say that the fuel is enough;
    [Exhausted] is never the answer of a program that they are about.

    ** The files

    - Prelude (this file): machine integers, little-endian bytes, the monad with its
      lemmas, automation, lemmas on lists, addresses.
    - CircularList: what a client may assume of a circular doubly linked list, as a
      class of an implementation with its laws, and families of such lists.
    - ListHead (user-level-thread/list.h, the same file as proxy/list.h): all
      functions and the loops over the list; every sequence of calls does in the heap
      what it does on a family of abstract lists.  An instance of CircularList.
    - RingQueue (ring-buffer/queue.h): the byte queue in a memory file that is mapped
      twice, and any number of threads that put and get: FIFO in every interleaving,
      the wake-up that can be lost, and the release of the queue.
    - QueueTest (ring-buffer/unittest.c, over RingQueue): the publisher and the eight
      consumers of the test never all wait, and end with every message received, for
      every page size whose 16-fold is an [int]; a larger one overflows.
    - RingBuf (producer/producer.c): the lock-free ring of one producer and one
      consumer: FIFO and no access outside of the buffer in every interleaving of
      their loads and stores; delivery; the limits of a request.
    - Producer (the test program of producer/producer.c, over RingBuf): its two
      threads pass their assertions in every interleaving and for every sequence of
      random numbers, and can always finish; the shared-memory object.
    - KvStore (key-value/kv.c): the store in shared memory; what was written is what is
      read, by each of the two ways to read; its limits on keys and values.
    - KvMain (the program of key-value/kv.c, over KvStore): what it prints, and that
      its loop of reads ends.
    - Bitwise (the five programs of bitwise-1): asr, remainder and divisibility, hexadecimal digits,
      character classes eight bytes at a time, counting bits modulo k, each equal to
      its reference definition for all inputs.
    - BitwiseTests (the testers and main functions of bitwise-1, over Bitwise): the
      programs return 0; printing and parsing hexadecimal numbers; the SSE version of
      is_alphabet, over a parameter for its instruction, and how it differs.
    - Buddy, BuddyTree, BuddyAlloc, BuddyClient, BuddyMain (buddy-alloc/alloc.c): the code; the
      abstract tree of blocks with the invariant; the operations; the specification
      that clients see, refined by every schedule of calls and answers of the kernel
      (a refusal of the first 16 bytes is not noticed), complete merging, and
      refusals only when no block is free.  Buddy is the other instance of
      CircularList: its free lists.
    - EventLoop (event-loop/ev.c): entries, timers and the loop over epoll, with
      callbacks as a parameter, under a contract that clients fulfil: no freed entry
      is used and each timer is called as often as it should be.
    - EvTests (the tests of event-loop/ev.c, over EventLoop): the callbacks of the
      tests fulfil the contract with invariants of their own, so that the timer and
      raw tests pass whatever the kernel reports, or exit before their loop with the
      message of what could not be created; the test that is not safe.
    - XorList (xor-linkedlist/xor-linkedlist.c): insertion, deletion, insertion sort and merge sort of
      a list whose nodes hold one combined address; the check of the test program,
      whose comparison can overflow.
    - XorTests (the test program of xor-linkedlist, over XorList): it returns 0 for all
      random numbers, also with lists of 65536 nodes.
    - SwapPairs (swap-pairs/link-list.c): the same for a singly linked list with
      pointers to pointers, swapping, reversing, and the shuffle.
    - XString (xstring/xs.h, xs.c, a test of xs-unittest.c): strings that are short,
      on the heap, or shared until they are written; they refine independent strings.
    - XsTests (the test program of xstring, over XString): its three tests and its
      benchmarks pass for every allocator and leave no block.
    - XVec (xvector/xvec.h, xvec.c): the vector with a buffer of its own, for both ways
      to choose capacities, against an interface; it refines a dynamic array that
      announces a capacity of its own; reservations with [POW_FACTOR].
    - XVecTests (xvector/xvec-unittest.c, over XVec): what the test program prints for
      both ways, and that it frees every block.
    - Utime (utime.c of xvector, the same in xstring and xor-linkedlist): elapsed
      nanoseconds, with the rounding of [double].
    - Coroutine (coroutine/coroutine.c): subroutines as continuations; what producer
      and consumer exchange, and what the program prints.
    - SortTask, TaskSched (user-level-thread/task_sched.c): the task, and the
      preemptive scheduler with its signal handler and context switches over the rings
      of ListHead; it refines a round-robin scheduler, runs and releases each task
      once, and gives each its turn.
    - Proxy (proxy/proxy.c): connections, pipes and the expiry list of ListHead: bytes
      are forwarded in order whatever the kernel answers; closing what has expired; the
      faults of connected pairs and of accepted connections.
    - ProxyMain ([resolve], [listen_socket] and [main] of proxy.c, over Proxy): the
      program ends with 1, or it listens and waits.
    - MmapAlloc (mmap-alloc/alloc.c): the allocator that maps pages for each request,
      against any client and any kernel, and its own tests, which pass.
    - Defer (cdefer/defer.h, defer.c): the macros as flow graphs with label values; they
      run what is deferred as a structured semantics says.
    - MutexPerf (mutex-perf/mutexperf.c): four threads on a ring of five mutexes behind
      a barrier: ownership, the absence of deadlock, and the end of every schedule.
    - MutexReport ([measure] and [main] of mutexperf.c, over MutexPerf): ten such runs
      and the two numbers that are printed.
    - Logfs (simple-logfs/logfs.c): what the kernel module holds after loading and
      unloading with each error, its mmap, its sysfs file.
    - LogfsUser (simple-logfs/user.c, over Logfs): the program prints a string into a
      page of the device, and the sysfs file shows it.
    - Loader (embedded-payload/loader.c): the search for the ELF file appended to the
      program, when it finds it, and where it leaves the memory of the file.
    - Timer (timerfd/timer.c): the timer that is armed again, and its read.

    ** How the components meet

    CircularList is the interface between the code that keeps lists and its clients;
    ListHead and Buddy implement it.  TaskSched and Proxy use the functions of ListHead
    on a part of their state, through [on_links] and [on_nodes].  [EventLoop.Client] is
    the interface between the event loop and its callbacks; EvTests has instances.  SortTask is what the
    tasks of TaskSched run; Producer and QueueTest run the operations of RingBuf and
    RingQueue, whose invariants carry those of the tests.  The other programs share the prelude only, as in the
    source, where they share nothing.

    ** Groups of theorems

    Refinements come first: [list_calls_refine], [buddy_refines], [sched_refines],
    [xs_refines], [vec_refines], [list_program_refines], [naive_refines] and
    [defer_refines] relate every run of the code to a run of a specification on
    abstract data.  [queue_fifo], [ringbuf_fifo], [ev_loop_client_safe], [contention_safe] and
    [tasks_run_once] are invariants of all interleavings.  Functional theorems give
    results for all inputs ([kv_write_read_all], [xor_sort_and_delete],
    [is_alphabet_spec], [proxy_forwards] and others), liveness and termination
    theorems say that the result comes ([contention_ends], [sched_round_robin],
    [ringbuf_send_receive], [bmalloc_null_means_full]).  The theorems about errors
    state what the code does where it does not do what it means to; each belongs to
    an input that the program can meet.

    ** Not modelled

    Code that only calls the system: payload.c of embedded-payload.  The clock that the
    benchmarks read, and their statistics, which are sums of floating-point numbers
    that nothing depends on.  [lock_unlock] of mutexperf.c,
    which is never called.  In producer.c, the fork of
    [test_shared] and the seed of [rand].  Output, unless it is the point of the
    program.  Weak memory: the atomic accesses of producer.c are sequentially
    consistent steps. *)
From Stdlib Require Import ZArith Lia.
From Stdlib Require String.
From stdpp Require Import gmap list numbers option.

#[global] Open Scope Z_scope.

(** ** Machine integers

    A w-bit integer is a [Z]; [wrapu] and [wraps] are the conversions to the
    unsigned and to the two's-complement signed range. *)

Definition wrapu (w z : Z) : Z := z mod 2 ^ w.
Definition wraps (w z : Z) : Z := (z + 2 ^ (w - 1)) mod 2 ^ w - 2 ^ (w - 1).
Abbreviation u8 := (wrapu 8).
Abbreviation u32 := (wrapu 32).
Abbreviation u64 := (wrapu 64).
Abbreviation i8 := (wraps 8).
Abbreviation i32 := (wraps 32).

(** The C truth value of an integer, and the integer of a truth value. *)
Definition truthy (z : Z) : bool := negb (z =? 0).
Definition of_bool (b : bool) : Z := if b then 1 else 0.

(** Little-endian encoding of the low [8 * n] bits of [z], and its inverse. *)
Fixpoint le_encode (n : nat) (z : Z) : list Z :=
  match n with
  | O => []
  | S n => z mod 256 :: le_encode n (z / 256)
  end.

Fixpoint le_decode (bs : list Z) : Z :=
  match bs with
  | [] => 0
  | b :: bs => b + 256 * le_decode bs
  end.

(** ** Faults and the state-and-fault monad

    [Undefined] is undefined behaviour of the C abstract machine (a dereference
    of an address that holds no object, an access outside an array),
    [AssertFailed] a failed [assert], or a call of [abort] or [exit] where the
    program has no other way to fail; where it has, [Aborted] is a call of
    [abort] and [Exited] a call of [exit] with its status and the message printed
    before it; [Blocked] is a wait for another thread or process, and [Exhausted]
    the fuel of a loop running out, which the theorems exclude. *)

Inductive fault :=
| Undefined
| AssertFailed
| Aborted
| Exited (status : Z) (message : String.string)
| Blocked
| Exhausted.

Inductive result (A : Type) :=
| Ok (a : A)
| Err (e : fault).
Arguments Ok {A} a.
Arguments Err {A} e.

Definition M (S A : Type) : Type := S → result (A * S).

Definition ret {S A} (a : A) : M S A := λ s, Ok (a, s).
Definition bind {S A B} (m : M S A) (f : A → M S B) : M S B := λ s,
  match m s with Ok (a, s') => f a s' | Err e => Err e end.

(** The same for results without a state. *)
Definition rbind {A B} (x : result A) (f : A → result B) : result B :=
  match x with Ok a => f a | Err e => Err e end.

(** The result of an operation on [int64_t], whose overflow is undefined. *)
Definition int64 (z : Z) : result Z := if bool_decide (- 2 ^ 63 ≤ z < 2 ^ 63) then Ok z else Err Undefined.

Declare Scope c_scope.
Delimit Scope c_scope with c.
Notation "x ← y ; z" := (bind y (λ x, z))
  (at level 20, y at level 100, z at level 200, only parsing) : c_scope.
Notation "' x ← y ; z" := (bind y (λ x : _, z))
  (at level 20, x pattern, y at level 100, z at level 200, only parsing) : c_scope.
Notation "x ;; z" := (bind x (λ _, z))
  (at level 100, z at level 200, only parsing, right associativity) : c_scope.

Definition fail {S A} (e : fault) : M S A := λ _, Err e.
Definition gets {S A} (f : S → A) : M S A := λ s, Ok (f s, s).
Definition modify {S} (f : S → S) : M S unit := λ s, Ok (tt, f s).
(** Reads a partial projection; a missing object is undefined behaviour. *)
Definition gets_some {S A} (f : S → option A) : M S A := λ s,
  match f s with Some a => Ok (a, s) | None => Err Undefined end.
Definition massert {S} (b : bool) : M S unit :=
  if b then ret tt else fail AssertFailed.

#[export] Instance fault_eq_dec : EqDecision fault.
Proof. solve_decision. Defined.

(** ** Automation *)

Create HintDb sysprog.
Create Rewrite HintDb mrun.

(** [bool_to_prop] turns the boolean tests of the code into propositions. *)
Ltac bool_to_prop :=
  repeat match goal with
  | H : (_ && _)%bool = true |- _ => apply andb_true_iff in H as [??]
  | H : (_ || _)%bool = false |- _ => apply orb_false_iff in H as [??]
  | H : negb _ = true |- _ => apply negb_true_iff in H
  | H : negb _ = false |- _ => apply negb_false_iff in H
  | H : (_ =? _) = true |- _ => apply Z.eqb_eq in H
  | H : (_ =? _) = false |- _ => apply Z.eqb_neq in H
  | H : (_ <? _) = true |- _ => apply Z.ltb_lt in H
  | H : (_ <? _) = false |- _ => apply Z.ltb_ge in H
  | H : (_ <=? _) = true |- _ => apply Z.leb_le in H
  | H : (_ <=? _) = false |- _ => apply Z.leb_gt in H
  end.

(** [case_bool b as H] splits on a boolean test and reflects it. *)
Tactic Notation "case_bool" constr(b) "as" ident(H) :=
  destruct b eqn:H; bool_to_prop.

(** ** Lemmas on the monad *)

Section monad.
Context {S A B : Type}.
Implicit Types (s : S).

Lemma bind_ok (m : M S A) (f : A → M S B) s a s' :
  m s = Ok (a, s') → bind m f s = f a s'.
Proof. intros H. unfold bind. by rewrite H. Qed.

Lemma bind_err (m : M S A) (f : A → M S B) s e :
  m s = Err e → bind m f s = Err e.
Proof. intros H. unfold bind. by rewrite H. Qed.

Lemma bind_inv (m : M S A) (f : A → M S B) s r :
  bind m f s = Ok r → ∃ a s', m s = Ok (a, s') ∧ f a s' = Ok r.
Proof. unfold bind. destruct (m s) as [[a s']|]; [eauto|done]. Qed.

Lemma gets_some_ok (f : S → option A) s a :
  f s = Some a → gets_some f s = Ok (a, s).
Proof. intros H. unfold gets_some. by rewrite H. Qed.

Lemma bind_assoc {C} (m : M S A) (f : A → M S B) (g : B → M S C) s :
  bind (bind m f) g s = bind m (λ a, bind (f a) g) s.
Proof. unfold bind. by destruct (m s) as [[]|]. Qed.

Lemma ret_run (a : A) s : (ret a : M S A) s = Ok (a, s).
Proof. done. Qed.

Lemma gets_run (f : S → A) s : gets f s = Ok (f s, s).
Proof. done. Qed.

Lemma modify_run (f : S → S) s : modify f s = Ok (tt, f s).
Proof. done. Qed.

Lemma massert_true s : massert true s = Ok (tt, s).
Proof. done. Qed.
End monad.

#[export] Hint Rewrite @ret_run @gets_run @modify_run @massert_true : mrun.

(** ** Frames

    [keeps f m]: the computation [m] leaves the part [f] of the state alone. *)
Definition keeps {S B A} (f : S → B) (m : M S A) : Prop := ∀ s a s', m s = Ok (a, s') → f s' = f s.

Section keeps.
Context {S B A : Type} (f : S → B).

Lemma keeps_ret (a : A) : keeps f (ret a).
Proof. intros s a' s' H. by injection H as _ <-. Qed.

Lemma keeps_fail e : keeps f (fail e : M S A).
Proof. by intros s a' s'. Qed.

Lemma keeps_gets (g : S → A) : keeps f (gets g).
Proof. intros s a' s' H. by injection H as _ <-. Qed.

Lemma keeps_gets_some (g : S → option A) : keeps f (gets_some g).
Proof. intros s a' s'. unfold gets_some. destruct (g s); [intros H; by injection H as _ <-|done]. Qed.

Lemma keeps_modify (g : S → S) : (∀ s, f (g s) = f s) → keeps f (modify g).
Proof. intros Hg s a' s' H. injection H as _ <-. apply Hg. Qed.

Lemma keeps_seq {C} (m : M S C) (k : C → M S A) : keeps f m → (∀ c, keeps f (k c)) → keeps f (bind m k).
Proof.
  intros Hm Hk s a s' H. apply bind_inv in H as (c&s1&H1&H2). by rewrite (Hk c _ _ _ H2), (Hm _ _ _ H1).
Qed.
End keeps.

#[export] Hint Resolve keeps_ret keeps_fail keeps_gets keeps_gets_some : sysprog.

(** Decomposes a computation into the steps of the monad. *)
Ltac solve_keeps :=
  repeat first
    [ progress auto with sysprog
    | apply keeps_modify; intros; reflexivity
    | apply keeps_seq; [|intros]
    | match goal with |- keeps _ (match ?x with _ => _ end) => destruct x end ].

(** ** Lemmas on machine integers *)

Lemma wrapu_small w z : 0 ≤ z < 2 ^ w → wrapu w z = z.
Proof. apply Z.mod_small. Qed.

Lemma wrapu_bound w z : 0 ≤ w → 0 ≤ wrapu w z < 2 ^ w.
Proof. intros. apply Z.mod_pos_bound. lia. Qed.

Lemma wraps_small w z : 0 < w → - 2 ^ (w - 1) ≤ z < 2 ^ (w - 1) → wraps w z = z.
Proof.
  intros Hw Hz. unfold wraps.
  replace (2 ^ w) with (2 * 2 ^ (w - 1))
    by (rewrite <- Z.pow_succ_r by lia; f_equal; lia).
  rewrite Z.mod_small; lia.
Qed.

Lemma int64_ok z : - 2 ^ 63 ≤ z < 2 ^ 63 → int64 z = Ok z.
Proof. intros H. unfold int64. by rewrite bool_decide_true. Qed.

Lemma wraps_bound w z : 0 < w → - 2 ^ (w - 1) ≤ wraps w z < 2 ^ (w - 1).
Proof.
  intros Hw. unfold wraps.
  pose proof (Z.mod_pos_bound (z + 2 ^ (w - 1)) (2 ^ w) ltac:(lia)).
  replace (2 ^ w) with (2 * 2 ^ (w - 1)) in *
    by (rewrite <- Z.pow_succ_r by lia; f_equal; lia).
  lia.
Qed.

Lemma wrapu_succ_ne w z : 0 < w → wrapu w (z + 1) ≠ z.
Proof.
  intros Hw Heq. unfold wrapu in Heq. assert (1 < 2 ^ w) by (apply Z.pow_gt_1; lia).
  pose proof (Z.mod_pos_bound (z + 1) (2 ^ w) ltac:(lia)) as Hb. rewrite Heq in Hb.
  pose proof (Z.div_mod (z + 1) (2 ^ w) ltac:(lia)) as Hd. rewrite Heq in Hd.
  assert (2 ^ w * ((z + 1) / 2 ^ w) = 1) as Hq by lia.
  assert (2 ^ w = 1 ∨ 2 ^ w = -1) as [?|?]; [|lia..].
  apply Z.mul_eq_1 with ((z + 1) / 2 ^ w). exact Hq.
Qed.

Lemma length_le_encode n z : length (le_encode n z) = n.
Proof. revert z. induction n; intros z; simpl; auto. Qed.

Lemma le_decode_encode n z :
  le_decode (le_encode n z) = z mod 256 ^ Z.of_nat n.
Proof.
  revert z. induction n as [|n IH]; intros z.
  - change (256 ^ Z.of_nat 0) with 1. by rewrite Z.mod_1_r.
  - cbn [le_encode le_decode]. rewrite IH.
    rewrite Nat2Z.inj_succ, Z.pow_succ_r by lia.
    rewrite Z.rem_mul_r by lia. lia.
Qed.

Lemma le_decode_encode_id n z :
  0 ≤ z < 256 ^ Z.of_nat n → le_decode (le_encode n z) = z.
Proof. intros. rewrite le_decode_encode. by apply Z.mod_small. Qed.

Lemma lor_disjoint a x k : 0 ≤ k → 0 ≤ a < 2 ^ k → Z.lor a (Z.shiftl x k) = a + x * 2 ^ k.
Proof.
  intros Hk Ha. pose proof (Z.add_lor_land a (Z.shiftl x k)) as H.
  assert (Z.land a (Z.shiftl x k) = 0) as H0.
  { apply Z.bits_inj'. intros n Hn. rewrite Z.land_spec, Z.bits_0, Z.shiftl_spec by done.
    destruct (Z.ltb_spec n k); [by rewrite (Z.testbit_neg_r _ (n - k)), andb_false_r by lia|].
    rewrite <- (Z.mod_small a (2 ^ k)) by done. by rewrite Z.mod_pow2_bits_high by lia. }
  rewrite Z.shiftl_mul_pow2 in * by done. lia.
Qed.

Lemma land_shiftl x m k : 0 ≤ k → Z.land x (Z.shiftl m k) = Z.shiftl (Z.land (Z.shiftr x k) m) k.
Proof.
  intros Hk. apply Z.bits_inj'. intros n Hn. rewrite Z.land_spec, !Z.shiftl_spec by done.
  destruct (Z.ltb_spec n k); [by rewrite !(Z.testbit_neg_r _ (n - k)), andb_false_r by lia|].
  rewrite Z.land_spec, Z.shiftr_spec by lia. do 2 f_equal. lia.
Qed.

Lemma le_decode_app bs ds :
  le_decode (bs ++ ds) = le_decode bs + 256 ^ Z.of_nat (length bs) * le_decode ds.
Proof.
  induction bs as [|b bs IH]; [by rewrite Z.mul_1_l|]. cbn [app le_decode length].
  rewrite IH, Nat2Z.inj_succ, Z.pow_succ_r by lia. lia.
Qed.

(** ** Lemmas on lists *)

Lemma exists_last_or_nil {A} (l : list A) : l = [] ∨ ∃ l' a, l = l' ++ [a].
Proof. destruct l as [|a l _] using rev_ind; eauto. Qed.

Lemma forallb_reverse {A} (f : A → bool) l : forallb f (reverse l) = forallb f l.
Proof.
  induction l as [|a l IH]; [done|]. rewrite reverse_cons, forallb_app, IH. simpl.
  by rewrite andb_true_r, andb_comm.
Qed.

Lemma filter_fmap {A B} (P : B → Prop) `{∀ b, Decision (P b)} (f : A → B) (l : list A) :
  filter P (f <$> l) = f <$> filter (λ a, P (f a)) l.
Proof.
  induction l as [|a l IH]; [done|]. rewrite fmap_cons, !filter_cons.
  case_decide; simpl; by rewrite IH.
Qed.

Lemma length_le_size {A} (l : list Z) (m : gmap Z A) : NoDup l → (∀ x, x ∈ l → is_Some (m !! x)) → (length l ≤ size m)%nat.
Proof.
  intros Hnd Hm. rewrite <- size_dom, <- (size_list_to_set (C := gset Z) l) by done. apply subseteq_size.
  intros x Hx. apply elem_of_dom, Hm. by apply elem_of_list_to_set in Hx.
Qed.

(** ** Lists of addresses *)

(** The first address of [l], or [n] behind it. *)
Definition first (n : Z) (l : list Z) : Z := match l with [] => n | x :: _ => x end.

Section addresses.
Implicit Types (l : list Z).

Lemma first_app n l1 l2 : first n (l1 ++ l2) = first (first n l2) l1.
Proof. by destruct l1. Qed.

(** A list: nodes with addresses that are not NULL and all different. *)
Definition proper (l : list Z) : Prop := NoDup l ∧ 0 ∉ l.

Lemma proper_app l1 l2 : proper (l1 ++ l2) ↔ proper l1 ∧ proper l2 ∧ (∀ x, x ∈ l1 → x ∉ l2).
Proof. unfold proper. rewrite list.NoDup_app, elem_of_app. naive_solver. Qed.
Lemma proper_cons x l : proper (x :: l) ↔ x ≠ 0 ∧ x ∉ l ∧ proper l.
Proof. unfold proper. rewrite list.NoDup_cons, elem_of_cons. naive_solver. Qed.
Lemma proper_perm l l' : l ≡ₚ l' → proper l → proper l'.
Proof.
  intros Hp [H1 H2]. split; [by apply (NoDup_Permutation_proper _ _ Hp)|].
  intros H. apply H2. by apply (elem_of_Permutation_proper 0 _ _ Hp).
Qed.

Lemma first_0 l : proper l → first 0 l = 0 ↔ l = [].
Proof. intros [_ H]. destruct l as [|x l]; [done|]. split; [|done]. cbn. intros ->. destruct H. by left. Qed.
End addresses.
