(* ===== verification/ListHead.v ===== *)
(** * The circular doubly linked list of list.h

    The kernel-style list shared by the port forwarder and by the user-level
    thread scheduler ([src/user-level-thread/list.h], which is the same file as
    [src/proxy/list.h]).  A heap maps the address of every live [struct
    list_head] to its two links; each function of the header is a program of
    the state-and-fault monad over that heap, so that following a link to an
    address without a node is undefined behaviour.  [dlist h head l] says that
    the heap [h] holds the well-formed circular list with head [head] and
    nodes [l]; the theorems give the effect of every operation on [l] and what
    it leaves unchanged. *)
From S2P Require Import Prelude.
From stdpp Require Import gmap list.
#[local] Open Scope Z_scope.
#[local] Open Scope c_scope.

(** struct list_head *)
Record list_head := mk_list_head { prev : Z; next : Z }.

Abbreviation heap := (gmap Z list_head).

(** Loads and stores of one member of the node at address [p]. *)
Definition prev_of (h : heap) (p : Z) : option Z := prev <$> h !! p.
Definition next_of (h : heap) (p : Z) : option Z := next <$> h !! p.
Definition upd_prev (p v : Z) (h : heap) : heap :=
  alter (λ n, mk_list_head v (next n)) p h.
Definition upd_next (p v : Z) (h : heap) : heap :=
  alter (λ n, mk_list_head (prev n) v) p h.

Definition get_prev (p : Z) : M heap Z := gets_some (λ h, prev_of h p).
Definition get_next (p : Z) : M heap Z := gets_some (λ h, next_of h p).
Definition set_prev (p v : Z) : M heap unit :=
  gets_some (λ h, h !! p) ;; modify (upd_prev p v).
Definition set_next (p v : Z) : M heap unit :=
  gets_some (λ h, h !! p) ;; modify (upd_next p v).

Definition INIT_LIST_HEAD (head : Z) : M heap unit :=
  set_next head head ;;
  set_prev head head.

(** The static initializer [struct list_head head = {&(head), &(head)}]. *)
Definition LIST_HEAD (head : Z) : M heap unit :=
  modify (<[head := mk_list_head head head]>).

Definition list_add (node head : Z) : M heap unit :=
  nxt ← get_next head;
  set_prev nxt node ;;
  set_next node nxt ;;
  set_prev node head ;;
  set_next head node.

Definition list_add_tail (node head : Z) : M heap unit :=
  prv ← get_prev head;
  set_next prv node ;;
  set_next node head ;;
  set_prev node prv ;;
  set_prev head node.

Definition list_del (node : Z) : M heap unit :=
  nxt ← get_next node;
  prv ← get_prev node;
  set_prev nxt prv ;;
  set_next prv nxt.

Definition list_del_init (node : Z) : M heap unit :=
  list_del node ;;
  INIT_LIST_HEAD node.

Definition list_empty (head : Z) : M heap bool :=
  nxt ← get_next head;
  ret (nxt =? head).

Definition list_is_singular (head : Z) : M heap bool :=
  e ← list_empty head;
  if e then ret false
  else
    prv ← get_prev head;
    nxt ← get_next head;
    ret (prv =? nxt).

Definition list_splice (list head : Z) : M heap unit :=
  head_first ← get_next head;
  list_first ← get_next list;
  list_last ← get_prev list;
  e ← list_empty list;
  if e then ret tt
  else
    set_next head list_first ;;
    set_prev list_first head ;;
    set_next list_last head_first ;;
    set_prev head_first list_last.

Definition list_splice_tail (list head : Z) : M heap unit :=
  head_last ← get_prev head;
  list_first ← get_next list;
  list_last ← get_prev list;
  e ← list_empty list;
  if e then ret tt
  else
    set_prev head list_last ;;
    set_next list_last head ;;
    set_prev list_first head_last ;;
    set_next head_last list_first.

Definition list_splice_init (list head : Z) : M heap unit :=
  list_splice list head ;;
  INIT_LIST_HEAD list.

Definition list_splice_tail_init (list head : Z) : M heap unit :=
  list_splice_tail list head ;;
  INIT_LIST_HEAD list.

Definition list_cut_position (head_to head_from node : Z) : M heap unit :=
  head_from_first ← get_next head_from;
  e ← list_empty head_from;
  if e then ret tt
  else if head_from =? node then INIT_LIST_HEAD head_to
  else
    node_next ← get_next node;
    set_next head_from node_next ;;
    from_next ← get_next head_from;
    set_prev from_next head_from ;;
    set_prev head_to node ;;
    set_next node head_to ;;
    set_next head_to head_from_first ;;
    to_next ← get_next head_to;
    set_prev to_next head_to.

Definition list_move (node head : Z) : M heap unit :=
  list_del node ;;
  list_add node head.

Definition list_move_tail (node head : Z) : M heap unit :=
  list_del node ;;
  list_add_tail node head.

(** [list_for_each]: the addresses the loop visits, in order, when its body
    leaves the links unchanged; [fuel] bounds the number of iterations. *)
Fixpoint list_for_each_loop (fuel : nat) (node head : Z) : M heap (list Z) :=
  if node =? head then ret []
  else match fuel with
  | O => fail Exhausted
  | S fuel =>
      nxt ← get_next node;
      rest ← list_for_each_loop fuel nxt head;
      ret (node :: rest)
  end.

Definition list_for_each (fuel : nat) (head : Z) : M heap (list Z) :=
  node ← get_next head;
  list_for_each_loop fuel node head.

(** [list_for_each_safe]: [safe] is loaded before the body runs, so that the
    body may unlink (and release) the current node. *)
Fixpoint list_for_each_safe_loop (fuel : nat) (body : Z → M heap unit)
    (node safe head : Z) : M heap unit :=
  if node =? head then ret tt
  else match fuel with
  | O => fail Exhausted
  | S fuel =>
      body node ;;
      safe' ← get_next safe;
      list_for_each_safe_loop fuel body safe safe' head
  end.

Definition list_for_each_safe (fuel : nat) (body : Z → M heap unit) (head : Z) : M heap unit :=
  node ← get_next head;
  safe ← get_next node;
  list_for_each_safe_loop fuel body node safe head.

(** ** Representation of a list in the heap *)

Definition live (h : heap) (p : Z) : Prop := is_Some (h !! p).

(** [links h a l z]: the chain from [a] through the nodes [l] to [z] is linked
    in both directions. *)
Fixpoint links (h : heap) (a : Z) (l : list Z) (z : Z) : Prop :=
  match l with
  | [] => next_of h a = Some z ∧ prev_of h z = Some a
  | b :: l => next_of h a = Some b ∧ prev_of h b = Some a ∧ links h b l z
  end.

Definition dlist (h : heap) (head : Z) (l : list Z) : Prop :=
  NoDup (head :: l) ∧ links h head l head.

(** Only nodes of [ps] may differ between [h] and [h'], and no node appears or
    disappears. *)
Definition frame (ps : list Z) (h h' : heap) : Prop :=
  (∀ p, p ∉ ps → h' !! p = h !! p) ∧ (∀ p, live h' p ↔ live h p).

(** ** The abstract lists and the calls on them

    A world is the lists of the heap, each with its head, and the nodes that
    are allocated and in no list. *)
Record world := mk_world { lists : list (Z * list Z); unlinked : list Z }.

Definition world_equiv (w w' : world) : Prop :=
  lists w ≡ₚ lists w' ∧ unlinked w ≡ₚ unlinked w'.

Definition addrs (w : world) : list Z :=
  ((λ '(head, l), head :: l) <$> lists w) ≫= id.
Definition all_addrs (w : world) : list Z := addrs w ++ unlinked w.

Definition rep (h : heap) (w : world) : Prop :=
  NoDup (all_addrs w) ∧
  Forall (λ '(head, l), dlist h head l) (lists w) ∧
  Forall (live h) (unlinked w).

Inductive call :=
| CInit (head : Z)
| CAdd (node head : Z)
| CAddTail (node head : Z)
| CDel (node : Z)
| CDelInit (node : Z)
| CSplice (list head : Z)
| CSpliceTail (list head : Z)
| CSpliceInit (list head : Z)
| CSpliceTailInit (list head : Z)
| CCut (head_to head_from node : Z)
| CMove (node head : Z)
| CMoveTail (node head : Z).

Definition run_call (c : call) : M heap unit :=
  match c with
  | CInit head => INIT_LIST_HEAD head
  | CAdd node head => list_add node head
  | CAddTail node head => list_add_tail node head
  | CDel node => list_del node
  | CDelInit node => list_del_init node
  | CSplice list head => list_splice list head
  | CSpliceTail list head => list_splice_tail list head
  | CSpliceInit list head => list_splice_init list head
  | CSpliceTailInit list head => list_splice_tail_init list head
  | CCut head_to head_from node => list_cut_position head_to head_from node
  | CMove node head => list_move node head
  | CMoveTail node head => list_move_tail node head
  end.

Fixpoint run_calls (cs : list call) : M heap unit :=
  match cs with
  | [] => ret tt
  | c :: cs => run_call c ;; run_calls cs
  end.

(** What each call does to the lists; the calls the header composes from two
    others are the composition of their effects. *)
Inductive abs_call : world → call → world → Prop :=
| abs_equiv w1 w1' c w2' w2 :
    world_equiv w1 w1' → abs_call w1' c w2' → world_equiv w2' w2 →
    abs_call w1 c w2
| abs_init ls us head :
    abs_call (mk_world ls (head :: us)) (CInit head) (mk_world ((head, []) :: ls) us)
| abs_add ls us node head l :
    abs_call (mk_world ((head, l) :: ls) (node :: us)) (CAdd node head)
             (mk_world ((head, node :: l) :: ls) us)
| abs_add_tail ls us node head l :
    abs_call (mk_world ((head, l) :: ls) (node :: us)) (CAddTail node head)
             (mk_world ((head, l ++ [node]) :: ls) us)
| abs_del ls us head l1 node l2 :
    abs_call (mk_world ((head, l1 ++ node :: l2) :: ls) us) (CDel node)
             (mk_world ((head, l1 ++ l2) :: ls) (node :: us))
| abs_splice ls us lh l head k :
    abs_call (mk_world ((lh, l) :: (head, k) :: ls) us) (CSplice lh head)
             (mk_world ((head, l ++ k) :: ls) (lh :: us))
| abs_splice_tail ls us lh l head k :
    abs_call (mk_world ((lh, l) :: (head, k) :: ls) us) (CSpliceTail lh head)
             (mk_world ((head, k ++ l) :: ls) (lh :: us))
| abs_cut ls us from l1 node l2 to :
    abs_call (mk_world ((from, l1 ++ node :: l2) :: ls) (to :: us)) (CCut to from node)
             (mk_world ((to, l1 ++ [node]) :: (from, l2) :: ls) us)
| abs_cut_empty ls us from node to :
    abs_call (mk_world ((from, []) :: ls) us) (CCut to from node)
             (mk_world ((from, []) :: ls) us)
| abs_cut_head ls us from b l to :
    abs_call (mk_world ((from, b :: l) :: ls) (to :: us)) (CCut to from from)
             (mk_world ((to, []) :: (from, b :: l) :: ls) us)
| abs_del_init w1 w2 w3 node :
    abs_call w1 (CDel node) w2 → abs_call w2 (CInit node) w3 →
    abs_call w1 (CDelInit node) w3
| abs_splice_init w1 w2 w3 lh head :
    abs_call w1 (CSplice lh head) w2 → abs_call w2 (CInit lh) w3 →
    abs_call w1 (CSpliceInit lh head) w3
| abs_splice_tail_init w1 w2 w3 lh head :
    abs_call w1 (CSpliceTail lh head) w2 → abs_call w2 (CInit lh) w3 →
    abs_call w1 (CSpliceTailInit lh head) w3
| abs_move w1 w2 w3 node head :
    abs_call w1 (CDel node) w2 → abs_call w2 (CAdd node head) w3 →
    abs_call w1 (CMove node head) w3
| abs_move_tail w1 w2 w3 node head :
    abs_call w1 (CDel node) w2 → abs_call w2 (CAddTail node head) w3 →
    abs_call w1 (CMoveTail node head) w3.

Inductive abs_calls : world → list call → world → Prop :=
| abs_calls_nil w : abs_calls w [] w
| abs_calls_cons w1 c w2 cs w3 :
    abs_call w1 c w2 → abs_calls w2 cs w3 → abs_calls w1 (c :: cs) w3.

(** ** Lemmas on loads and stores *)

Section fields.
Implicit Types (h : heap) (p q v : Z).

Lemma next_of_upd_next h p q v :
  next_of (upd_next p v h) q = if decide (p = q) then const v <$> h !! q else next_of h q.
Proof.
  unfold next_of, upd_next. rewrite lookup_alter.
  case_decide; [subst|done]. by destruct (h !! q).
Qed.

Lemma prev_of_upd_prev h p q v :
  prev_of (upd_prev p v h) q = if decide (p = q) then const v <$> h !! q else prev_of h q.
Proof.
  unfold prev_of, upd_prev. rewrite lookup_alter.
  case_decide; [subst|done]. by destruct (h !! q).
Qed.

Lemma next_of_upd_prev h p q v : next_of (upd_prev p v h) q = next_of h q.
Proof.
  unfold next_of, upd_prev. rewrite lookup_alter.
  case_decide; [subst|done]. by destruct (h !! q).
Qed.

Lemma prev_of_upd_next h p q v : prev_of (upd_next p v h) q = prev_of h q.
Proof.
  unfold prev_of, upd_next. rewrite lookup_alter.
  case_decide; [subst|done]. by destruct (h !! q).
Qed.

Lemma live_upd_next h p q v : live (upd_next p v h) q ↔ live h q.
Proof.
  unfold live, upd_next. rewrite lookup_alter.
  case_decide; [subst|done]. by rewrite fmap_is_Some.
Qed.

Lemma live_upd_prev h p q v : live (upd_prev p v h) q ↔ live h q.
Proof.
  unfold live, upd_prev. rewrite lookup_alter.
  case_decide; [subst|done]. by rewrite fmap_is_Some.
Qed.

Lemma next_of_live h p v : next_of h p = Some v → live h p.
Proof. unfold next_of, live. by destruct (h !! p). Qed.

Lemma prev_of_live h p v : prev_of h p = Some v → live h p.
Proof. unfold prev_of, live. by destruct (h !! p). Qed.

Lemma live_const h p v : live h p → const v <$> h !! p = Some v.
Proof. by intros [n ->]. Qed.

Lemma frame_refl ps h : frame ps h h.
Proof. done. Qed.

Lemma frame_upd_next ps h h' p v :
  p ∈ ps → frame ps h h' → frame ps h (upd_next p v h').
Proof.
  intros Hp [H1 H2]. split; intros q.
  - intros Hq. unfold upd_next. rewrite lookup_alter_ne by set_solver. auto.
  - by rewrite live_upd_next.
Qed.

Lemma frame_upd_prev ps h h' p v :
  p ∈ ps → frame ps h h' → frame ps h (upd_prev p v h').
Proof.
  intros Hp [H1 H2]. split; intros q.
  - intros Hq. unfold upd_prev. rewrite lookup_alter_ne by set_solver. auto.
  - by rewrite live_upd_prev.
Qed.

Lemma frame_mono ps qs h h' : ps ⊆ qs → frame ps h h' → frame qs h h'.
Proof. intros Hs [H1 H2]. split; [|done]. intros p Hp. apply H1. set_solver. Qed.

Lemma frame_trans ps h h' h'' : frame ps h h' → frame ps h' h'' → frame ps h h''.
Proof.
  intros [H1 H2] [H3 H4]. split; intros p.
  - intros Hp. by rewrite H3, H1.
  - by rewrite H4, H2.
Qed.

Lemma get_next_run {B} (f : Z → M heap B) h p v :
  next_of h p = Some v → bind (get_next p) f h = f v h.
Proof. intros H. apply bind_ok. by apply gets_some_ok. Qed.

Lemma get_prev_run {B} (f : Z → M heap B) h p v :
  prev_of h p = Some v → bind (get_prev p) f h = f v h.
Proof. intros H. apply bind_ok. by apply gets_some_ok. Qed.

Lemma set_next_ok h p v : live h p → set_next p v h = Ok (tt, upd_next p v h).
Proof. intros [n Hn]. unfold set_next. erewrite bind_ok; [done|]. by apply gets_some_ok. Qed.

Lemma set_prev_ok h p v : live h p → set_prev p v h = Ok (tt, upd_prev p v h).
Proof. intros [n Hn]. unfold set_prev. erewrite bind_ok; [done|]. by apply gets_some_ok. Qed.

Lemma set_next_run {B} (f : unit → M heap B) h p v :
  live h p → bind (set_next p v) f h = f tt (upd_next p v h).
Proof. intros H. apply bind_ok. by apply set_next_ok. Qed.

Lemma set_prev_run {B} (f : unit → M heap B) h p v :
  live h p → bind (set_prev p v) f h = f tt (upd_prev p v h).
Proof. intros H. apply bind_ok. by apply set_prev_ok. Qed.
End fields.

#[export] Hint Resolve next_of_live prev_of_live live_const frame_refl
  frame_upd_next frame_upd_prev : sysprog.

(** [fields] decides a load through a stack of stores; [live_tac] proves that
    an address still holds a node; [hrun] executes one statement. *)
Ltac live_tac :=
  repeat first [rewrite live_upd_next | rewrite live_upd_prev]; eauto with sysprog.

Ltac load_rw :=
  repeat first [rewrite next_of_upd_next | rewrite prev_of_upd_prev
    | rewrite next_of_upd_prev | rewrite prev_of_upd_next].

Ltac fields :=
  load_rw; repeat (case_decide; subst; load_rw);
  first [done | congruence | by apply live_const; live_tac | exfalso; set_solver | idtac].

Ltac hrun :=
  lazymatch goal with
  | |- context [bind (get_next _) _ _] => erewrite get_next_run by (fields; eauto; fail)
  | |- context [bind (get_prev _) _ _] => erewrite get_prev_run by (fields; eauto; fail)
  | |- context [bind (set_next _ _) _ _] => rewrite set_next_run by live_tac
  | |- context [bind (set_prev _ _) _ _] => rewrite set_prev_run by live_tac
  | |- context [set_next _ _ _] => rewrite set_next_ok by live_tac
  | |- context [set_prev _ _ _] => rewrite set_prev_ok by live_tac
  end.

(** ** Lemmas on [links] and [dlist] *)

Section links.
Implicit Types (h : heap) (a b p z head node : Z) (l : list Z).

Lemma links_ext h h' a l z :
  (∀ p, p ∈ a :: l → next_of h' p = next_of h p) →
  (∀ p, p ∈ l ++ [z] → prev_of h' p = prev_of h p) →
  links h a l z → links h' a l z.
Proof.
  revert a. induction l as [|b l IH]; intros a Hn Hp; simpl.
  - intros [??]. rewrite Hn, Hp by set_solver. done.
  - intros (?&?&?). rewrite Hn, Hp by set_solver. split_and!; [done..|].
    apply IH; [set_solver..|done].
Qed.

Lemma links_app h a l1 b l2 z :
  links h a (l1 ++ b :: l2) z ↔ links h a l1 b ∧ links h b l2 z.
Proof.
  revert a. induction l1 as [|c l1 IH]; intros a; simpl.
  - tauto.
  - rewrite IH. tauto.
Qed.

Lemma links_snoc h a l b z :
  links h a (l ++ [b]) z ↔ links h a l b ∧ next_of h b = Some z ∧ prev_of h z = Some b.
Proof. by rewrite links_app. Qed.

Lemma links_live h a l z p : links h a l z → p ∈ a :: l ++ [z] → live h p.
Proof.
  revert a. induction l as [|b l IH]; intros a; simpl.
  - intros [??] Hp. assert (p = a ∨ p = z) as [-> | ->] by set_solver;
      eauto with sysprog.
  - intros (?&?&?) [-> | Hp]%elem_of_cons; [eauto with sysprog|].
    eapply IH; [done|]. set_solver.
Qed.

(** The first and the last link of a chain, as the loads return them. *)
Lemma links_first h a l z :
  links h a l z → next_of h a = Some (hd z l).
Proof. destruct l; simpl; tauto. Qed.

Lemma links_last h a l z :
  links h a l z → prev_of h z = Some (List.last l a).
Proof.
  induction l as [|b l _] using rev_ind; [simpl; tauto|].
  rewrite links_snoc, last_last. tauto.
Qed.

Lemma dlist_live h head l p : dlist h head l → p ∈ head :: l → live h p.
Proof. intros [? ?] Hp. eapply links_live; [done|]. set_solver. Qed.

Lemma dlist_frame h h' ps head l :
  frame ps h h' → (∀ p, p ∈ head :: l → p ∉ ps) → dlist h head l → dlist h' head l.
Proof.
  intros [Hf _] Hps [Hnd Hl]. split; [done|].
  eapply links_ext; [| |exact Hl]; intros p Hp; unfold next_of, prev_of;
    rewrite Hf; [done|set_solver..].
Qed.
End links.

(** Splits the [NoDup] facts of a representation so that [set_solver] can use
    them. *)
Ltac nodup :=
  repeat match goal with
  | H : dlist _ _ _ |- _ => destruct H
  | H : NoDup (_ :: _) |- _ => apply NoDup_cons in H as [??]
  | H : NoDup (_ ++ _) |- _ => apply NoDup_app in H as (?&?&?)
  end.

(** Proves that a chain is unaffected by stores to other fields. *)
Ltac keep_links :=
  eapply links_ext; [| |eassumption]; intros; fields.

(** Proves that a heap reached by stores differs only at the given nodes. *)
Ltac frame_tac :=
  repeat first [apply frame_upd_prev | apply frame_upd_next]; [set_solver..|done].

(** Proves [NoDup] of a rearranged list. *)
Ltac nodup_tac := rewrite ?NoDup_cons, ?NoDup_app, ?NoDup_cons; set_solver.

(** ** Effect of each operation *)

Section operations.
Implicit Types (h : heap) (a b p z head node : Z) (l : list Z).

Lemma init_list_head_spec h head :
  live h head →
  ∃ h', INIT_LIST_HEAD head h = Ok (tt, h') ∧ dlist h' head [] ∧ frame [head] h h'.
Proof.
  intros Hh. unfold INIT_LIST_HEAD. repeat hrun. eexists; split_and!; [done| |].
  - split; [apply NoDup_singleton|]. simpl; split; fields.
  - frame_tac.
Qed.

Lemma list_add_spec h head l node :
  dlist h head l → live h node → node ∉ head :: l →
  ∃ h', list_add node head h = Ok (tt, h') ∧ dlist h' head (node :: l) ∧
        frame (node :: head :: l) h h'.
Proof.
  intros Hd Hnode Hin. pose proof (dlist_live _ _ _ head Hd ltac:(set_solver)).
  destruct Hd as [Hnd Hl]. unfold list_add.
  destruct l as [|b l]; simpl in Hl; destruct_and!; nodup;
    repeat hrun; (eexists; split_and!; [done| |]).
  - split; [nodup_tac|]. simpl; split_and!; fields.
  - frame_tac.
  - split; [nodup_tac|]. simpl; split_and!; [fields..|keep_links].
  - frame_tac.
Qed.

Lemma list_add_tail_spec h head l node :
  dlist h head l → live h node → node ∉ head :: l →
  ∃ h', list_add_tail node head h = Ok (tt, h') ∧ dlist h' head (l ++ [node]) ∧
        frame (node :: head :: l) h h'.
Proof.
  intros Hd Hnode Hin. pose proof (dlist_live _ _ _ head Hd ltac:(set_solver)).
  destruct Hd as [Hnd Hl]. unfold list_add_tail.
  destruct l as [|b l _] using rev_ind; [simpl in Hl|rewrite links_snoc in Hl];
    destruct_and!; nodup; repeat hrun; (eexists; split_and!; [done| |]).
  - split; [nodup_tac|]. simpl; split_and!; fields.
  - frame_tac.
  - split; [nodup_tac|]. rewrite !links_snoc; split_and!; [keep_links|fields..].
  - frame_tac.
Qed.

Lemma list_del_spec h head l1 node l2 :
  dlist h head (l1 ++ node :: l2) →
  ∃ h', list_del node h = Ok (tt, h') ∧ dlist h' head (l1 ++ l2) ∧
        frame (head :: l1 ++ l2) h h'.
Proof.
  intros [Hnd Hl]. unfold list_del. rewrite links_app in Hl.
  destruct l1 as [|a l1 _] using rev_ind; [|rewrite links_snoc in Hl];
    (destruct l2 as [|b l2]; simpl in *; destruct_and!; nodup;
     repeat hrun; (eexists; split_and!; [done| |frame_tac]); (split; [nodup_tac|])).
  - simpl; split_and!; fields.
  - simpl; split_and!; [fields..|keep_links].
  - rewrite app_nil_r, links_snoc. split_and!; [keep_links|fields..].
  - rewrite links_app, links_snoc. split_and!; [keep_links|fields..|keep_links].
Qed.

Lemma list_empty_run {B} (f : bool → M heap B) h head l :
  dlist h head l → bind (list_empty head) f h = f (bool_decide (l = [])) h.
Proof.
  intros [Hnd Hl]. apply bind_ok. unfold list_empty. destruct l as [|b l]; simpl in Hl;
    destruct_and!; nodup; hrun; unfold ret; do 3 f_equal;
    [apply Z.eqb_refl|apply Z.eqb_neq; set_solver].
Qed.

Lemma list_is_singular_spec h head l :
  dlist h head l →
  list_is_singular head h = Ok (bool_decide (length l = 1%nat), h).
Proof.
  intros Hd. unfold list_is_singular. erewrite list_empty_run by done.
  destruct Hd as [Hnd Hl]. destruct l as [|b l]; [done|].
  pose proof (links_first _ _ _ _ Hl). pose proof (links_last _ _ _ _ Hl).
  rewrite bool_decide_eq_false_2 by done. repeat hrun. unfold ret. do 2 f_equal.
  destruct l as [|c l _] using rev_ind.
  - rewrite bool_decide_eq_true_2 by done. apply Z.eqb_refl.
  - rewrite app_comm_cons, last_last. nodup.
    rewrite bool_decide_eq_false_2 by (simpl; rewrite length_app; simpl; lia).
    apply Z.eqb_neq. simpl. set_solver.
Qed.

(** Re-attaching the front, or the back, of a chain to another node: the two
    stores every splice and cut is made of. *)
Lemma links_front h a l z a' :
  links h a l z → live h a' → a' ∉ l → NoDup (l ++ [z]) →
  links (upd_prev (hd z l) a' (upd_next a' (hd z l) h)) a' l z.
Proof.
  intros Hl Ha' Hin Hnd. destruct l as [|c l]; simpl in *; destruct_and!.
  - split; fields.
  - nodup. split_and!; [fields..|keep_links].
Qed.

Lemma links_back h a l z z' :
  links h a l z → live h z' → z' ∉ l → NoDup (a :: l) →
  links (upd_prev z' (List.last l a) (upd_next (List.last l a) z' h)) a l z'.
Proof.
  intros Hl Hz' Hin Hnd. destruct l as [|b l _] using rev_ind.
  - simpl in *. destruct_and!. split; fields.
  - rewrite last_last. rewrite links_snoc in *. destruct_and!. nodup.
    split_and!; [keep_links|fields..].
Qed.

Lemma upd_next_prev h p v q w :
  upd_next p v (upd_prev q w h) = upd_prev q w (upd_next p v h).
Proof.
  unfold upd_next, upd_prev. destruct (decide (p = q)) as [<-|Hne].
  - rewrite !alter_alter_eq. done.
  - by rewrite alter_alter_ne.
Qed.

Lemma last_in a l : List.last l a ∈ a :: l.
Proof. destruct l as [|b l _] using rev_ind; [|rewrite last_last]; set_solver. Qed.

Lemma hd_in z l : hd z l ∈ z :: l.
Proof. destruct l; simpl; set_solver. Qed.

(** Two lists without a common address. *)
Definition disjoint_lists (head : Z) (l : list Z) (head' : Z) (l' : list Z) : Prop :=
  NoDup (head :: l ++ head' :: l').

Lemma splice_heap h lh l head k d b c :
  links h lh l lh → links h head k head → disjoint_lists lh l head k →
  l ≠ [] → c = hd lh l → b = List.last l lh → d = hd head k →
  ∀ h', h' = upd_prev d b (upd_next b d (upd_prev c head (upd_next head c h))) →
  dlist h' head (l ++ k) ∧ frame (head :: l ++ k) h h'.
Proof.
  intros Hl Hk Hdisj Hne Hc Hb Hd h' ->. unfold disjoint_lists in Hdisj.
  assert (live h head) by (eapply links_live; [exact Hk|set_solver]).
  assert (live h d) by (eapply links_live; [exact Hk|];
    pose proof (hd_in head k); subst; set_solver).
  assert (c ∈ l) by (destruct l; [done|simpl in Hc; set_solver]).
  assert (b ∈ l) by (destruct l as [|x l _] using rev_ind; [done|];
    rewrite last_last in Hb; set_solver).
  pose proof (hd_in head k) as Hdin. rewrite <- Hd in Hdin.
  apply NoDup_cons in Hdisj as [Hlh Hdisj]. apply NoDup_app in Hdisj as (Hndl&Hlk&Hndk).
  assert (Hb' : List.last l head = b) by (subst; by destruct l as [|x l _] using rev_ind;
    [|rewrite !last_last]).
  split; [split|].
  - apply NoDup_cons in Hndk as [??]. rewrite NoDup_cons, NoDup_app.
    split_and!; [set_solver|done|set_solver|done].
  - set (h1 := upd_prev c head (upd_next head c h)).
    assert (Hl1 : links h1 head l lh) by (unfold h1; rewrite Hc; eapply links_front;
      [done..|set_solver|apply NoDup_app; split_and!; [done|set_solver|apply NoDup_singleton]]).
    apply (links_back h1 head l lh d) in Hl1;
      [|unfold h1; live_tac|set_solver|apply NoDup_cons; split; [set_solver|done]].
    rewrite Hb' in Hl1. destruct k as [|e k]; simpl in *; subst d; [by rewrite app_nil_r|].
    rewrite links_app. split; [exact Hl1|]. destruct_and!. nodup.
    unfold h1. keep_links.
  - frame_tac.
Qed.

Lemma dlist_head_live h head l : dlist h head l → live h head.
Proof. intros Hd. eapply dlist_live; [done|set_solver]. Qed.

Lemma dlist_hd_live h head l : dlist h head l → live h (hd head l).
Proof. intros Hd. eapply dlist_live; [done|apply hd_in]. Qed.

Lemma dlist_last_live h head l : dlist h head l → live h (List.last l head).
Proof. intros Hd. eapply dlist_live; [done|apply last_in]. Qed.

Lemma dlist_first h head l : dlist h head l → next_of h head = Some (hd head l).
Proof. intros [_ Hl]. by apply links_first in Hl. Qed.

Lemma dlist_last h head l : dlist h head l → prev_of h head = Some (List.last l head).
Proof. intros [_ Hl]. by apply links_last in Hl. Qed.

#[local] Hint Resolve dlist_head_live dlist_hd_live dlist_last_live
  dlist_first dlist_last : sysprog.

Lemma list_splice_spec h lh l head k :
  dlist h lh l → dlist h head k → disjoint_lists lh l head k →
  ∃ h', list_splice lh head h = Ok (tt, h') ∧ dlist h' head (l ++ k) ∧
        frame (head :: l ++ k) h h'.
Proof.
  intros Hd Hd' Hdisj. unfold list_splice.
  erewrite get_next_run, get_next_run, get_prev_run by eauto with sysprog.
  erewrite list_empty_run by done. case_bool_decide as Hl; subst.
  { eexists; split_and!; [done|done|done]. }
  repeat hrun. eexists; split; [done|].
  eapply splice_heap; [apply Hd|apply Hd'|done..].
Qed.

Lemma splice_tail_heap h lh l head k :
  dlist h lh l → dlist h head k → disjoint_lists lh l head k → l ≠ [] →
  ∀ p c b, p = List.last k head → c = hd lh l → b = List.last l lh →
  ∀ h', h' = upd_prev c p (upd_next p c (upd_prev head b (upd_next b head h))) →
  dlist h' head (k ++ l) ∧ frame (head :: k ++ l) h h'.
Proof.
  intros Hdl Hdk Hdisj Hne p c b Hp Hc Hb h' ->. unfold disjoint_lists in Hdisj.
  assert (live h head) by eauto with sysprog.
  assert (live h p) by (subst; eauto with sysprog).
  assert (c ∈ l) by (destruct l; [done|simpl in Hc; set_solver]).
  assert (b ∈ l) by (destruct l as [|x l _] using rev_ind; [done|];
    rewrite last_last in Hb; set_solver).
  pose proof (last_in head k) as Hpin. rewrite <- Hp in Hpin.
  apply NoDup_cons in Hdisj as [Hlh Hdisj]. apply NoDup_app in Hdisj as (Hndl&Hlk&Hndk).
  assert (c = hd head l) as Hc' by (subst; by destruct l).
  split; [split|].
  - apply NoDup_cons in Hndk as [??]. rewrite NoDup_cons, NoDup_app.
    split_and!; [set_solver|done|set_solver|done].
  - set (h1 := upd_prev head b (upd_next b head h)).
    assert (Hl1 : links h1 lh l head) by (unfold h1; rewrite Hb; eapply links_back;
      [apply Hdl|done|set_solver|apply NoDup_cons; split; [set_solver|done]]).
    apply (links_front h1 lh l head p) in Hl1;
      [|unfold h1; live_tac|set_solver
       |apply NoDup_app; split_and!; [done|set_solver|apply NoDup_singleton]].
    rewrite <- Hc' in Hl1. destruct Hdk as [Hnd Hk].
    destruct k as [|e k _] using rev_ind; [simpl in *; by subst p|].
    rewrite last_last in Hp. subst e. rewrite links_snoc in Hk. destruct_and!.
    rewrite <- app_assoc. simpl. rewrite links_app. split; [|exact Hl1].
    nodup. unfold h1. keep_links.
  - frame_tac.
Qed.

Lemma list_splice_tail_spec h lh l head k :
  dlist h lh l → dlist h head k → disjoint_lists lh l head k →
  ∃ h', list_splice_tail lh head h = Ok (tt, h') ∧ dlist h' head (k ++ l) ∧
        frame (head :: k ++ l) h h'.
Proof.
  intros Hd Hd' Hdisj. unfold list_splice_tail.
  erewrite get_prev_run, get_next_run, get_prev_run by eauto with sysprog.
  erewrite list_empty_run by done. case_bool_decide as Hl; subst.
  { eexists; split_and!; [done|by rewrite app_nil_r|done]. }
  repeat hrun. eexists; split; [done|].
  eapply splice_tail_heap; [exact Hd|exact Hd'|done..|by rewrite !upd_next_prev].
Qed.

(** [list_cut_position] with the cutting point inside the list. *)
Lemma list_cut_position_spec h to head l1 node l2 :
  dlist h head (l1 ++ node :: l2) → live h to → to ∉ head :: l1 ++ node :: l2 →
  ∃ h', list_cut_position to head node h = Ok (tt, h') ∧
        dlist h' to (l1 ++ [node]) ∧ dlist h' head l2 ∧
        frame (to :: head :: l1 ++ node :: l2) h h'.
Proof.
  intros Hd Hto Hin. unfold list_cut_position.
  erewrite get_next_run by eauto with sysprog. erewrite list_empty_run by done.
  rewrite bool_decide_eq_false_2 by (by destruct l1).
  pose proof (dlist_live _ _ _ node Hd ltac:(set_solver)).
  pose proof (dlist_hd_live _ _ _ Hd). pose proof (dlist_head_live _ _ _ Hd).
  destruct Hd as [Hnd Hl]. pose proof Hl as Hl'. rewrite links_app in Hl. destruct Hl as [Hl1 Hl2].
  pose proof (links_first _ _ _ _ Hl2) as Hnext.
  assert (live h (hd head l2)) by (eapply links_live; [exact Hl2|];
    pose proof (hd_in head l2); set_solver).
  apply NoDup_cons in Hnd as [Hhd Hnd]. apply NoDup_app in Hnd as (Hnd1&Hnd12&Hnd2).
  apply NoDup_cons in Hnd2 as [Hn2 Hnd2].
  destruct (Z.eqb_spec head node) as [->|Hne]; [set_solver|].
  repeat hrun. eexists; split; [done|]. rewrite !(upd_next_prev _ node).
  assert (Hh2 : links (upd_prev (hd head l2) head (upd_next head (hd head l2) h)) head l2 head).
  { eapply links_front; [exact Hl2|done|set_solver|].
    apply NoDup_app; split_and!; [done|set_solver|apply NoDup_singleton]. }
  assert (Hsep : ∀ p, p ∈ head :: l2 → p ≠ node ∧ p ≠ to ∧ p ∉ l1).
  { clear - Hne Hn2 Hhd Hin Hnd12.
    rewrite ?not_elem_of_cons, ?not_elem_of_app, ?not_elem_of_cons in *. destruct_and!.
    intros n [->|Hn]%elem_of_cons; [done|]. split_and!; [congruence|congruence|].
    intros Hn1. apply (Hnd12 n Hn1). apply elem_of_cons; by right. }
  destruct (Hsep _ (hd_in head l2)) as (?&?&?). clear Hl' Hnext Hl2.
  split_and!; [split|split|]; [| |nodup_tac| |].
  - rewrite NoDup_cons, NoDup_app. split_and!;
      [set_solver|done|set_solver|apply NoDup_singleton].
  - clear Hh2. destruct l1 as [|f l1]; simpl in *; rewrite ?links_snoc; destruct_and!; nodup.
    + split_and!; fields.
    + split_and!; [fields|fields|keep_links|fields|fields].
  - eapply links_ext; [| |exact Hh2]; intros p Hp;
      (assert (p ∈ head :: l2) as Hp' by (clear - Hp; set_solver));
      destruct (Hsep p Hp') as (?&?&?);
      destruct l1 as [|f l1]; simpl in *; rewrite ?not_elem_of_cons in *; destruct_and?;
      load_rw; repeat (case_decide; subst; load_rw);
      first [congruence | by rewrite !live_const by live_tac].
  - assert (hd head l2 ∈ to :: head :: l1 ++ node :: l2).
    { pose proof (hd_in head l2) as Hx. clear - Hx. set_solver. }
    destruct l1 as [|f l1]; simpl in *;
      repeat first [apply frame_upd_prev | apply frame_upd_next];
      first [done | clear; set_solver].
Qed.
End operations.

(** ** Refinement of the abstract lists *)

#[export] Instance world_equiv_equivalence : Equivalence world_equiv.
Proof.
  split.
  - done.
  - by intros ?? [? ?].
  - intros ??? [? ?] [? ?]. split; by etrans.
Qed.

#[export] Instance rep_proper h : Proper (world_equiv ==> iff) (rep h).
Proof.
  intros w w' [Hl Hu]. unfold rep, all_addrs, addrs. by rewrite Hl, Hu.
Qed.

Section refinement.
Implicit Types (h : heap) (w : world) (c : call).

(** The part of the heap outside the nodes a call touches keeps its lists. *)
Lemma rep_frame h h' act ls us :
  NoDup (act ++ all_addrs (mk_world ls us)) → frame act h h' →
  Forall (λ '(head, l), dlist h head l) ls → Forall (live h) us →
  Forall (λ '(head, l), dlist h' head l) ls ∧ Forall (live h') us.
Proof.
  intros (_&Hnd&_)%NoDup_app Hf Hls Hus. unfold all_addrs, addrs in Hnd. simpl in Hnd.
  split.
  - apply Forall_forall. intros [head l] Hin.
    rewrite Forall_forall in Hls. specialize (Hls _ Hin). simpl in Hls.
    eapply dlist_frame; [done| |done]. intros p Hp Hact. apply (Hnd p Hact).
    apply elem_of_app. left. apply list_elem_of_bind. exists (head :: l). split; [done|].
    apply list_elem_of_fmap. by exists (head, l).
  - eapply Forall_impl; [done|]. intros p. by apply Hf.
Qed.

(** Assembles the representation after a call on the lists [new] and [nus]. *)
Lemma rep_intro h h' act new nus ls us :
  NoDup (act ++ all_addrs (mk_world ls us)) → frame act h h' →
  Forall (λ '(head, l), dlist h head l) ls → Forall (live h) us →
  act ≡ₚ all_addrs (mk_world new nus) →
  Forall (λ '(head, l), dlist h' head l) new → Forall (live h') nus →
  rep h' (mk_world (new ++ ls) (nus ++ us)).
Proof.
  intros Hnd Hf Hls Hus Hact Hnew Hnus.
  destruct (rep_frame _ _ _ _ _ Hnd Hf Hls Hus) as [??].
  split; [|split; by apply Forall_app]. eapply NoDup_Permutation_proper; [|exact Hnd].
  rewrite Hact. unfold all_addrs, addrs. simpl. rewrite fmap_app, bind_app.
  solve_Permutation.
Qed.

(** The hypotheses of [rep_intro] read off a representation. *)
Lemma rep_elim h act old ous ls us :
  rep h (mk_world (old ++ ls) (ous ++ us)) →
  act ≡ₚ all_addrs (mk_world old ous) →
  NoDup (act ++ all_addrs (mk_world ls us)) ∧ NoDup act ∧
  Forall (λ '(head, l), dlist h head l) ls ∧ Forall (live h) us ∧
  Forall (λ '(head, l), dlist h head l) old ∧ Forall (live h) ous.
Proof.
  intros (Hnd&Hls&Hus) Hact. simpl in *. apply Forall_app in Hls as [??].
  apply Forall_app in Hus as [??].
  assert (NoDup (act ++ all_addrs (mk_world ls us))) as Hnd'.
  { eapply NoDup_Permutation_proper; [|exact Hnd]. rewrite Hact.
    unfold all_addrs, addrs. simpl. rewrite fmap_app, bind_app. solve_Permutation. }
  split_and!; [done| |done..]. by apply NoDup_app in Hnd' as [? _].
Qed.

(** One call on the lists [old] and the nodes [ous] yields [new] and [nus]. *)
Definition local_step (c : call) (old : list (Z * list Z)) (ous : list Z)
    (new : list (Z * list Z)) (nus : list Z) : Prop :=
  ∀ h, NoDup (all_addrs (mk_world old ous)) →
  Forall (λ '(head, l), dlist h head l) old → Forall (live h) ous →
  ∃ h', run_call c h = Ok (tt, h') ∧ frame (all_addrs (mk_world old ous)) h h' ∧
    all_addrs (mk_world old ous) ≡ₚ all_addrs (mk_world new nus) ∧
    Forall (λ '(head, l), dlist h' head l) new ∧ Forall (live h') nus.

Lemma local_step_rep c old ous new nus ls us h :
  local_step c old ous new nus →
  rep h (mk_world (old ++ ls) (ous ++ us)) →
  ∃ h', run_call c h = Ok (tt, h') ∧ rep h' (mk_world (new ++ ls) (nus ++ us)).
Proof.
  intros Hstep Hrep.
  destruct (rep_elim _ _ _ _ _ _ Hrep (Permutation_refl _)) as (?&?&?&?&?&?).
  destruct (Hstep h) as (h'&?&?&?&?&?); [done..|].
  exists h'. split; [done|]. by eapply rep_intro.
Qed.
End refinement.

(** Unfolds the addresses of a concrete world. *)
Ltac world_simpl :=
  unfold all_addrs, addrs in *; simpl in *;
  repeat match goal with
  | H : Forall _ (_ :: _) |- _ => apply Forall_cons in H as [??]
  end; rewrite ?app_nil_r in *.

(** Splits a [Forall] over an explicit list. *)
Ltac forall_tac := repeat (apply Forall_cons; split); try apply Forall_nil; try done.

Section local_steps.
Lemma init_local head : local_step (CInit head) [] [head] [(head, [])] [].
Proof.
  intros h Hnd Hls Hus. world_simpl.
  destruct (init_list_head_spec h head) as (h'&?&?&?); [done|].
  exists h'. split_and!; [done|done|done|by forall_tac|done].
Qed.

Lemma add_local node head l :
  local_step (CAdd node head) [(head, l)] [node] [(head, node :: l)] [].
Proof.
  intros h Hnd Hls Hus. world_simpl.
  destruct (list_add_spec h head l node) as (h'&?&?&?); [done|done|nodup; set_solver|].
  exists h'. split_and!; [done| |solve_Permutation|by forall_tac|done].
  eapply frame_mono; [|done]. set_solver.
Qed.

Lemma add_tail_local node head l :
  local_step (CAddTail node head) [(head, l)] [node] [(head, l ++ [node])] [].
Proof.
  intros h Hnd Hls Hus. world_simpl.
  destruct (list_add_tail_spec h head l node) as (h'&?&?&?); [done|done|nodup; set_solver|].
  exists h'. split_and!; [done| |solve_Permutation|by forall_tac|done].
  eapply frame_mono; [|done]. set_solver.
Qed.

Lemma del_local head l1 node l2 :
  local_step (CDel node) [(head, l1 ++ node :: l2)] [] [(head, l1 ++ l2)] [node].
Proof.
  intros h Hnd Hls Hus. world_simpl.
  destruct (list_del_spec h head l1 node l2) as (h'&?&?&Hf); [done|].
  exists h'. split_and!; [done| |solve_Permutation|by forall_tac|].
  - eapply frame_mono; [|done]. set_solver.
  - forall_tac. apply Hf. eapply dlist_live; [done|set_solver].
Qed.

Lemma splice_local lh l head k :
  local_step (CSplice lh head) [(lh, l); (head, k)] [] [(head, l ++ k)] [lh].
Proof.
  intros h Hnd Hls Hus. world_simpl.
  destruct (list_splice_spec h lh l head k) as (h'&?&?&Hf); [done..|].
  exists h'. split_and!; [done| |solve_Permutation|by forall_tac|].
  - eapply frame_mono; [|done]. set_solver.
  - forall_tac. apply Hf. by eapply dlist_head_live.
Qed.

Lemma splice_tail_local lh l head k :
  local_step (CSpliceTail lh head) [(lh, l); (head, k)] [] [(head, k ++ l)] [lh].
Proof.
  intros h Hnd Hls Hus. world_simpl.
  destruct (list_splice_tail_spec h lh l head k) as (h'&?&?&Hf); [done..|].
  exists h'. split_and!; [done| |solve_Permutation|by forall_tac|].
  - eapply frame_mono; [|done]. set_solver.
  - forall_tac. apply Hf. by eapply dlist_head_live.
Qed.

Lemma cut_local from l1 node l2 to :
  local_step (CCut to from node) [(from, l1 ++ node :: l2)] [to]
    [(to, l1 ++ [node]); (from, l2)] [].
Proof.
  intros h Hnd Hls Hus. world_simpl.
  destruct (list_cut_position_spec h to from l1 node l2) as (h'&?&?&?&?);
    [done|done|nodup; set_solver|].
  exists h'. split_and!; [done| |solve_Permutation|by forall_tac|done].
  eapply frame_mono; [|done]. set_solver.
Qed.

Lemma cut_empty_local from node to :
  local_step (CCut to from node) [(from, [])] [] [(from, [])] [].
Proof.
  intros h Hnd Hls Hus. world_simpl. exists h.
  split_and!; [|done|done|by forall_tac|done].
  unfold list_cut_position. erewrite get_next_run by (by eapply dlist_first).
  by erewrite list_empty_run by done.
Qed.

Lemma cut_head_local from b l to :
  local_step (CCut to from from) [(from, b :: l)] [to] [(to, []); (from, b :: l)] [].
Proof.
  intros h Hnd Hls Hus. world_simpl.
  destruct (init_list_head_spec h to) as (h'&Hrun&?&Hf); [done|].
  exists h'. split_and!; [| |solve_Permutation| |done].
  - unfold list_cut_position. erewrite get_next_run by (by eapply dlist_first).
    erewrite list_empty_run by done. simpl. by rewrite Z.eqb_refl.
  - eapply frame_mono; [|done]. set_solver.
  - forall_tac. eapply dlist_frame; [done| |done]. nodup. set_solver.
Qed.
End local_steps.

Section simulation.
Implicit Types (h : heap) (w : world).

(** A call whose abstract effect is defined runs without a fault and ends in
    a heap that holds its result. *)
Lemma run_call_refines w c w' h :
  abs_call w c w' → rep h w → ∃ h', run_call c h = Ok (tt, h') ∧ rep h' w'.
Proof.
  intros Hstep. revert h.
  induction Hstep as [w1 w1' c w2' w2 Heq _ IH Heq'| | | | | | | | | |w1 w2 w3 ? _ IH1 _ IH2
    |w1 w2 w3 ?? _ IH1 _ IH2|w1 w2 w3 ?? _ IH1 _ IH2|w1 w2 w3 ?? _ IH1 _ IH2
    |w1 w2 w3 ?? _ IH1 _ IH2]; intros h Hrep.
  11-15: destruct (IH1 h Hrep) as (h1&Hr1&Hrep1), (IH2 h1 Hrep1) as (h2&Hr2&Hrep2);
    exists h2; split; [cbn; unfold list_del_init, list_splice_init, list_splice_tail_init,
      list_move, list_move_tail; erewrite bind_ok by exact Hr1; exact Hr2|done].
  - destruct (IH h) as (h'&?&Hrep'); [by apply (rep_proper h _ _ Heq)|].
    exists h'. split; [done|]. by apply (rep_proper h' _ _ Heq').
  - by apply (local_step_rep _ _ _ _ _ ls us h (init_local head)).
  - by apply (local_step_rep _ _ _ _ _ ls us h (add_local node head l)).
  - by apply (local_step_rep _ _ _ _ _ ls us h (add_tail_local node head l)).
  - by apply (local_step_rep _ _ _ _ _ ls us h (del_local head l1 node l2)).
  - by apply (local_step_rep _ _ _ _ _ ls us h (splice_local lh l head k)).
  - by apply (local_step_rep _ _ _ _ _ ls us h (splice_tail_local lh l head k)).
  - by apply (local_step_rep _ _ _ _ _ ls us h (cut_local from l1 node l2 to)).
  - by apply (local_step_rep _ _ _ _ _ ls us h (cut_empty_local from node to)).
  - by apply (local_step_rep _ _ _ _ _ ls us h (cut_head_local from b l to)).
Qed.

Lemma run_calls_refines w cs w' h :
  abs_calls w cs w' → rep h w → ∃ h', run_calls cs h = Ok (tt, h') ∧ rep h' w'.
Proof.
  intros Hs. revert h. induction Hs as [w|w1 c w2 cs w3 Hc _ IH]; intros h Hrep.
  - by exists h.
  - destruct (run_call_refines _ _ _ _ Hc Hrep) as (h1&Hr1&Hrep1).
    destruct (IH h1 Hrep1) as (h2&Hr2&Hrep2). exists h2. split; [|done].
    cbn. by erewrite bind_ok by exact Hr1.
Qed.

(** ** Iteration *)

Lemma list_for_each_loop_spec h a l z fuel :
  links h a l z → NoDup (l ++ [z]) → (length l ≤ fuel)%nat →
  list_for_each_loop fuel (hd z l) z h = Ok (l, h).
Proof.
  revert a fuel. induction l as [|b l IH]; intros a fuel Hl Hnd Hf.
  - destruct fuel; simpl; by rewrite Z.eqb_refl.
  - destruct fuel as [|fuel]; [simpl in Hf; lia|]. simpl in *. destruct_and!.
    apply NoDup_cons in Hnd as [Hb Hnd].
    rewrite (proj2 (Z.eqb_neq b z)) by set_solver.
    erewrite get_next_run by (by eapply links_first).
    erewrite bind_ok; [done|]. eapply IH; [done|done|lia].
Qed.

Lemma list_for_each_spec h head l fuel :
  dlist h head l → (length l ≤ fuel)%nat → list_for_each fuel head h = Ok (l, h).
Proof.
  intros Hd Hf. unfold list_for_each. erewrite get_next_run by (by eapply dlist_first).
  destruct Hd as [Hnd Hl]. eapply list_for_each_loop_spec; [done| |done].
  apply NoDup_cons in Hnd as [??]. apply NoDup_app; split_and!;
    [done|set_solver|apply NoDup_singleton].
Qed.

(** A circular list seen from its next node. *)
Lemma dlist_rotate h a l1 b l2 : dlist h a (l1 ++ b :: l2) → dlist h b (l2 ++ a :: l1).
Proof.
  intros [Hnd Hl]. split.
  - eapply NoDup_Permutation_proper; [|exact Hnd]. rewrite (Permutation_app_comm l2). cbn.
    rewrite <- (Permutation_middle l1). apply perm_swap.
  - rewrite links_app in *. tauto.
Qed.

(** The safe loop loads the link of the node after the current one. *)
Lemma dlist_second h head l : dlist h head l → get_next (hd head l) h = Ok (hd head (tail l), h).
Proof.
  intros [_ Hl]. apply gets_some_ok. destruct l as [|b l]; cbn in *; [by destruct Hl|].
  destruct Hl as (_&_&Hl). by apply links_first in Hl.
Qed.

(** A list depends on its own nodes only. *)
Lemma dlist_agree h h' head l : (∀ p, p ∈ head :: l → h' !! p = h !! p) → dlist h head l → dlist h' head l.
Proof.
  intros Hp [Hnd Hl]. split; [done|]. eapply links_ext; [| |exact Hl]; intros q Hq; unfold next_of, prev_of;
    rewrite Hp; [done|set_solver..].
Qed.

(** The safe loop with a body that unlinks the current node visits every node
    and ends with the empty list: the way the reaped tasks and the expired
    connections are released. *)
Lemma list_for_each_safe_del_loop h head l fuel :
  dlist h head l → (length l ≤ fuel)%nat → ∀ safe, safe = hd head (tail l) →
  ∃ h', list_for_each_safe_loop fuel list_del (hd head l) safe head h = Ok (tt, h') ∧
        dlist h' head [] ∧ frame (head :: l) h h'.
Proof.
  revert h fuel. induction l as [|b l IH]; intros h fuel Hd Hf safe ->.
  - exists h. destruct fuel; simpl; by rewrite Z.eqb_refl.
  - destruct fuel as [|fuel]; [simpl in Hf; lia|]. simpl.
    destruct (list_del_spec h head [] b l Hd) as (h1&Hr1&Hd1&Hf1). simpl in Hd1.
    destruct Hd as [Hnd Hl]. apply NoDup_cons in Hnd as [Hin Hnd].
    rewrite (proj2 (Z.eqb_neq b head)) by set_solver.
    erewrite bind_ok by exact Hr1.
    assert (next_of h1 (hd head l) = Some (hd head (tail l)) ∨ l = []) as [Hn|Hn].
    { destruct Hd1 as [_ Hl1]. destruct l as [|c l]; [by right|left].
      simpl in *. destruct_and!. by eapply links_first. }
    + erewrite get_next_run by exact Hn.
      destruct (IH h1 fuel Hd1 ltac:(simpl in Hf; lia) _ eq_refl) as (h2&Hr2&Hd2&Hf2).
      exists h2. split_and!; [done|done|]. eapply frame_trans; eapply frame_mono; 
        [|exact Hf1| |exact Hf2]; set_solver.
    + subst l. simpl in *. erewrite get_next_run by (by eapply dlist_first).
      destruct fuel; simpl; rewrite Z.eqb_refl; (exists h1; split_and!; [done|done|]);
        (eapply frame_mono; [|exact Hf1]; set_solver).
Qed.
End simulation.

(** ** Properties *)

(** C1: every sequence of calls of list.h whose effect on the abstract lists is
    defined (nodes that are added are in no list, nodes that are removed are in
    one, a splice joins two different lists) runs on the pointer structure
    without undefined behaviour and leaves exactly the abstract result: all
    lists stay well-formed circular lists over disjoint nodes, and traversing,
    testing for emptiness or for a single entry report their contents. *)
Theorem list_calls_refine (w w' : world) (cs : list call) (h : heap) :
  abs_calls w cs w' → rep h w →
  ∃ h', run_calls cs h = Ok (tt, h') ∧ rep h' w' ∧
    ∀ head l, (head, l) ∈ lists w' →
      list_for_each (length l) head h' = Ok (l, h') ∧
      list_empty head h' = Ok (bool_decide (l = []), h') ∧
      list_is_singular head h' = Ok (bool_decide (length l = 1%nat), h').
Proof.
  intros Hs Hrep. destruct (run_calls_refines _ _ _ _ Hs Hrep) as (h'&Hr&Hrep').
  exists h'. split_and!; [done|done|]. intros head l Hin.
  destruct Hrep' as (_&Hls&_). rewrite Forall_forall in Hls. specialize (Hls _ Hin).
  simpl in Hls. split_and!.
  - by apply list_for_each_spec.
  - apply (list_empty_run ret) in Hls. unfold bind, ret in Hls.
    by destruct (list_empty head h') as [[]|].
  - by apply list_is_singular_spec.
Qed.

Definition sample_heap : heap :=
  list_to_map ((λ p, (p, mk_list_head 0 0)) <$> [100; 1; 2; 200]).

Lemma list_calls_refine_witness :
  ∃ h', run_calls [CInit 100; CAddTail 1 100; CAdd 2 100; CCut 200 100 2;
                   CSpliceTailInit 200 100] sample_heap = Ok (tt, h') ∧
    rep h' (mk_world [(200, []); (100, [1; 2])] []) ∧
    ∀ head l, (head, l) ∈ [(200, []); (100, [1; 2])] →
      list_for_each (length l) head h' = Ok (l, h') ∧
      list_empty head h' = Ok (bool_decide (l = []), h') ∧
      list_is_singular head h' = Ok (bool_decide (length l = 1%nat), h').
Proof.
  apply (list_calls_refine (mk_world [] [100; 1; 2; 200])
           (mk_world [(200, []); (100, [1; 2])] [])).
  - eapply abs_calls_cons; [apply abs_init|].
    eapply abs_calls_cons; [apply abs_add_tail|].
    eapply abs_calls_cons; [apply abs_add|].
    eapply abs_calls_cons; [apply (abs_cut [] [] 100 [] 2 [1] 200)|].
    eapply abs_calls_cons; [|apply abs_calls_nil].
    eapply abs_splice_tail_init; [apply abs_splice_tail|apply abs_init].
  - split_and!.
    + apply (bool_decide_unpack _). vm_compute. exact I.
    + apply Forall_nil. exact I.
    + repeat (apply Forall_cons; split; [eexists; reflexivity|]). by apply Forall_nil.
Defined.

(** [list_for_each_safe] with a body that unlinks the current node visits
    every node of the list exactly once, stops, and leaves the empty list,
    without touching any node outside the list. *)
Theorem list_for_each_safe_unlinks_all (h : heap) (head : Z) (l : list Z) :
  dlist h head l →
  ∃ h', list_for_each_safe (length l) list_del head h = Ok (tt, h') ∧
        dlist h' head [] ∧ frame (head :: l) h h'.
Proof.
  intros Hd. unfold list_for_each_safe.
  erewrite get_next_run by (by eapply dlist_first).
  assert (next_of h (hd head l) = Some (hd head (tail l))) as Hn.
  { destruct l as [|b l]; [by eapply (dlist_first _ _ [])|].
    destruct Hd as [_ Hl]. simpl in Hl. destruct_and!. by eapply links_first. }
  erewrite get_next_run by exact Hn. by apply list_for_each_safe_del_loop.
Qed.

Definition sample_ring : heap :=
  {[ 10 := mk_list_head 30 20; 20 := mk_list_head 10 30; 30 := mk_list_head 20 10 ]}.

Lemma list_for_each_safe_unlinks_all_witness :
  ∃ h', list_for_each_safe 2 list_del 10 sample_ring = Ok (tt, h') ∧
        dlist h' 10 [] ∧ frame [10; 20; 30] sample_ring h'.
Proof.
  apply (list_for_each_safe_unlinks_all sample_ring 10 [20; 30]).
  split; [apply (bool_decide_unpack _); vm_compute; exact I|].
  simpl. split_and!; reflexivity.
Defined.
