(* ===== verification/RingQueue.v ===== *)
(** * The blocking message queue of ring-buffer/queue.h

    A byte queue in a memory file that is mapped twice, at two adjacent
    addresses, so that a message never has to be split at the end of the
    buffer.  The model keeps the file, the two mapped regions with their
    address translation, and the indices as 64-bit integers.  [queue_put] and
    [queue_get] are the critical sections of the two operations; the waits on
    the condition variables are the outcomes [false], [GetWaitReadable] and
    [GetWaitSeq].  The second part puts them into a system of threads with the
    two wait sets, where a step is one critical section up to its next wait or
    its end, and shows that every interleaving delivers the messages in FIFO
    order without losing, duplicating or changing one. *)
From S2P Require Import Prelude.
From stdpp Require Import gmap list.
#[local] Open Scope Z_scope.
#[local] Open Scope c_scope.

(** ** Memory file and mappings *)

(** One [mmap] of [r_len] bytes of the file at [r_off], placed at offset
    [r_start] from [q->buffer]. *)
Record region := mk_region { r_start : Z; r_len : Z; r_off : Z }.

Record queue_t := mk_queue {
  file : list Z;
  regions : list region;
  size : Z;
  fd : Z;
  head : Z;
  tail : Z;
  head_seq : Z;
  tail_seq : Z
}.

Definition set_file (f : list Z) (q : queue_t) : queue_t :=
  mk_queue f (regions q) (size q) (fd q) (head q) (tail q) (head_seq q) (tail_seq q).
Definition set_head (v : Z) (q : queue_t) : queue_t :=
  mk_queue (file q) (regions q) (size q) (fd q) v (tail q) (head_seq q) (tail_seq q).
Definition set_tail (v : Z) (q : queue_t) : queue_t :=
  mk_queue (file q) (regions q) (size q) (fd q) (head q) v (head_seq q) (tail_seq q).
Definition set_head_seq (v : Z) (q : queue_t) : queue_t :=
  mk_queue (file q) (regions q) (size q) (fd q) (head q) (tail q) v (tail_seq q).
Definition set_tail_seq (v : Z) (q : queue_t) : queue_t :=
  mk_queue (file q) (regions q) (size q) (fd q) (head q) (tail q) (head_seq q) v.

(** The file offset behind the address [q->buffer + o]. *)
Fixpoint translate (rs : list region) (o : Z) : option Z :=
  match rs with
  | [] => None
  | r :: rs =>
      if (r_start r <=? o) && (o <? r_start r + r_len r)
      then Some (r_off r + (o - r_start r)) else translate rs o
  end.

(** The index in [file q] of [q->buffer[o]], when that byte exists. *)
Definition byte_index (q : queue_t) (o : Z) : option nat :=
  match translate (regions q) o with
  | Some x =>
      if (0 <=? x) && (x <? Z.of_nat (length (file q))) then Some (Z.to_nat x) else None
  | None => None
  end.

Definition load_byte (o : Z) : M queue_t Z :=
  gets_some (λ q, match byte_index q o with Some i => file q !! i | None => None end).
Definition store_byte (o b : Z) : M queue_t unit :=
  i ← gets_some (λ q, byte_index q o);
  modify (λ q, set_file (<[i := b]> (file q)) q).

(** [memcpy] from and to the mapped buffer. *)
Fixpoint memcpy_out (o : Z) (n : nat) : M queue_t (list Z) :=
  match n with
  | O => ret []
  | S n => b ← load_byte o; bs ← memcpy_out (o + 1) n; ret (b :: bs)
  end.
Fixpoint memcpy_in (o : Z) (bs : list Z) : M queue_t unit :=
  match bs with
  | [] => ret tt
  | b :: bs => store_byte o b ;; memcpy_in (o + 1) bs
  end.

(** ** Message header *)

Record message_t := mk_message { len : Z; seq : Z }.
Definition sizeof_message_t : Z := 16.
Definition message_bytes (m : message_t) : list Z :=
  le_encode 8 (len m) ++ le_encode 8 (seq m).
Definition message_of_bytes (bs : list Z) : message_t :=
  mk_message (le_decode (take 8 bs)) (le_decode (drop 8 bs)).

(** ** Operations *)

(** What the system calls of [queue_init] return. *)
Record init_env := mk_init_env {
  getpagesize : Z;
  memfd_create : Z;
  ftruncate : Z;
  mmap_reserve : option unit;
  mmap_first : option unit;
  mmap_second : option unit;
  pthread_mutex_init : Z;
  pthread_cond_init_readable : Z;
  pthread_cond_init_writeable : Z
}.

(** [queue_error] and [queue_error_errno] print and call [abort]. *)
Definition queue_error {A} : result A := Err AssertFailed.

Definition queue_init (e : init_env) (s : Z) : result queue_t :=
  if truthy (s mod getpagesize e) then queue_error
  else if memfd_create e =? -1 then queue_error
  else if truthy (ftruncate e) then queue_error
  else match mmap_reserve e, mmap_first e, mmap_second e with
  | Some _, Some _, Some _ =>
      if truthy (pthread_mutex_init e) then queue_error
      else if truthy (pthread_cond_init_readable e) then queue_error
      else if truthy (pthread_cond_init_writeable e) then queue_error
      else Ok (mk_queue (replicate (Z.to_nat s) 0) [mk_region 0 s 0; mk_region s s 0]
                 s (memfd_create e) 0 0 0 0)
  | _, _, _ => queue_error
  end.

(** What the system calls of [queue_destroy] return. *)
Record destroy_env := mk_destroy_env {
  munmap_second : Z;
  munmap_first : Z;
  close : Z;
  pthread_mutex_destroy : Z;
  pthread_cond_destroy_readable : Z;
  pthread_cond_destroy_writeable : Z
}.

(** [munmap] of whole regions. *)
Definition munmap (start n : Z) (q : queue_t) : queue_t :=
  mk_queue (file q)
    (filter (λ r, (start <=? r_start r) && (r_start r + r_len r <=? start + n) = false) (regions q))
    (size q) (fd q) (head q) (tail q) (head_seq q) (tail_seq q).

(** The queue that remains: the structure is the caller's, its buffer is gone. *)
Definition queue_destroy (e : destroy_env) (q : queue_t) : result queue_t :=
  if truthy (munmap_second e) then queue_error
  else
    let q := munmap (size q) (size q) q in
    if truthy (munmap_first e) then queue_error
    else
      let q := munmap 0 (size q) q in
      if truthy (close e) then queue_error
      else if truthy (pthread_mutex_destroy e) then queue_error
      else if truthy (pthread_cond_destroy_readable e) then queue_error
      else if truthy (pthread_cond_destroy_writeable e) then queue_error
      else Ok q.

(** [false]: the caller has to wait on [writeable] and try again. *)
Definition queue_put (buffer : list Z) : M queue_t bool :=
  let n := Z.of_nat (length buffer) in
  q ← gets id;
  if u64 (size q - u64 (tail q - head q)) <? u64 (n + sizeof_message_t) then ret false
  else
    let m := mk_message n (tail_seq q) in
    modify (set_tail_seq (u64 (tail_seq q + 1))) ;;
    memcpy_in (tail q) (message_bytes m) ;;
    memcpy_in (tail q + sizeof_message_t) buffer ;;
    modify (set_tail (u64 (tail q + (sizeof_message_t + n)))) ;;
    ret true.

Inductive get_outcome :=
| GetWaitReadable
| GetWaitSeq (s : Z)
| GetDone (bs : list Z).

(** [while (q->head_seq == m.seq)] waits for a message that is too long to be
    taken; were its number another one, the outer loop would read the same header
    again and again. *)
Definition queue_get (max : Z) : M queue_t get_outcome :=
  q ← gets id;
  if u64 (tail q - head q) =? 0 then ret GetWaitReadable
  else
    hdr ← memcpy_out (head q) 16;
    let m := message_of_bytes hdr in
    if max <? len m then
      (if head_seq q =? seq m then ret (GetWaitSeq (seq m)) else fail Exhausted)
    else
      body ← memcpy_out (head q + sizeof_message_t) (Z.to_nat (len m));
      modify (set_head (u64 (head q + (len m + sizeof_message_t)))) ;;
      modify (set_head_seq (u64 (head_seq q + 1))) ;;
      q ← gets id;
      (if size q <=? head q then
        modify (set_head (u64 (head q - size q))) ;;
        modify (set_tail (u64 (tail q - size q)))
      else ret tt) ;;
      ret (GetDone body).

(** ** Contents of the queue *)

(** The bytes of consecutive messages, the first one with sequence number [s]. *)
Fixpoint frames (s : Z) (msgs : list (list Z)) : list Z :=
  match msgs with
  | [] => []
  | m :: msgs =>
      message_bytes (mk_message (Z.of_nat (length m)) s) ++ m ++ frames (u64 (s + 1)) msgs
  end.

(** The byte of the file that every mapped address [q->buffer + o] shows. *)
Definition view (q : queue_t) (o : Z) : option Z := file q !! Z.to_nat (o mod size q).

Definition shows (q : queue_t) (o : Z) (bs : list Z) : Prop :=
  ∀ i b, bs !! i = Some b → view q (o + Z.of_nat i) = Some b.

(** The shape [queue_init] establishes. *)
Definition mapped (q : queue_t) : Prop :=
  0 < size q ∧ 2 * size q < 2 ^ 64 ∧ length (file q) = Z.to_nat (size q) ∧
  regions q = [mk_region 0 (size q) 0; mk_region (size q) (size q) 0].

(** [holds q msgs]: [q] is well formed and stores exactly [msgs], oldest first. *)
Definition holds (q : queue_t) (msgs : list (list Z)) : Prop :=
  let fr := frames (head_seq q) msgs in
  mapped q ∧ 0 ≤ head q < size q ∧ Z.of_nat (length fr) ≤ size q ∧
  tail q = head q + Z.of_nat (length fr) ∧
  0 ≤ head_seq q < 2 ^ 64 ∧ tail_seq q = u64 (head_seq q + Z.of_nat (length msgs)) ∧
  shows q (head q) fr.

(** ** Threads *)

Inductive thread :=
| PutReady (buffer : list Z)
| PutWaiting (buffer : list Z)
| GetReady (max : Z)
| GetSeqReady (max s : Z)
| GetWaitingReadable (max : Z)
| GetWaitingWriteable (max s : Z)
| Finished.

Record config := mk_config {
  queue : queue_t;
  threads : list thread;
  sent : list (list Z);      (* payloads put so far, oldest first *)
  received : list (list Z)   (* payloads taken so far, oldest first *)
}.

(** A getter that wakes up inside [while (q->head_seq == m.seq)] waits again
    as long as the message it saw is still the next one. *)
Definition queue_get_resume (max s : Z) : M queue_t get_outcome :=
  q ← gets id;
  if head_seq q =? s then ret (GetWaitSeq s) else queue_get max.

(** [pthread_cond_signal]: wakes one thread of the wait set, if there is one. *)
Definition waits_readable (th : thread) : option thread :=
  match th with GetWaitingReadable max => Some (GetReady max) | _ => None end.
Definition waits_writeable (th : thread) : option thread :=
  match th with
  | PutWaiting buffer => Some (PutReady buffer)
  | GetWaitingWriteable max s => Some (GetSeqReady max s)
  | _ => None
  end.

Inductive signal (waits : thread → option thread) : list thread → list thread → Prop :=
| signal_one ths t th th' :
    ths !! t = Some th → waits th = Some th' → signal waits ths (<[t := th']> ths)
| signal_none ths :
    Forall (λ th, waits th = None) ths → signal waits ths ths.

Definition run_get (th : thread) : option (Z * M queue_t get_outcome) :=
  match th with
  | GetReady max => Some (max, queue_get max)
  | GetSeqReady max s => Some (max, queue_get_resume max s)
  | _ => None
  end.

Definition get_blocked (max : Z) (o : get_outcome) : option thread :=
  match o with
  | GetWaitReadable => Some (GetWaitingReadable max)
  | GetWaitSeq s => Some (GetWaitingWriteable max s)
  | GetDone _ => None
  end.

Inductive step : config → config → Prop :=
| step_put_wait c t buffer q' :
    threads c !! t = Some (PutReady buffer) →
    queue_put buffer (queue c) = Ok (false, q') →
    step c (mk_config q' (<[t := PutWaiting buffer]> (threads c)) (sent c) (received c))
| step_put c t buffer q' ths' :
    threads c !! t = Some (PutReady buffer) →
    queue_put buffer (queue c) = Ok (true, q') →
    signal waits_readable (<[t := Finished]> (threads c)) ths' →
    step c (mk_config q' ths' (sent c ++ [buffer]) (received c))
| step_get_wait c t th max get o th' q' :
    threads c !! t = Some th → run_get th = Some (max, get) →
    get (queue c) = Ok (o, q') → get_blocked max o = Some th' →
    step c (mk_config q' (<[t := th']> (threads c)) (sent c) (received c))
| step_get c t th max get bs q' ths' :
    threads c !! t = Some th → run_get th = Some (max, get) →
    get (queue c) = Ok (GetDone bs, q') →
    signal waits_writeable (<[t := Finished]> (threads c)) ths' →
    step c (mk_config q' ths' (sent c) (received c ++ [bs])).

(** POSIX also lets a waiting thread wake up without a signal. *)
Inductive spurious : config → config → Prop :=
| spurious_wakeup c t th th' :
    threads c !! t = Some th →
    waits_readable th = Some th' ∨ waits_writeable th = Some th' →
    spurious c (mk_config (queue c) (<[t := th']> (threads c)) (sent c) (received c)).

Definition any_step (c c' : config) : Prop := step c c' ∨ spurious c c'.

(** A put whose message length does not overflow [size + sizeof(message_t)];
    no object of a 64-bit process is larger. *)
Definition sane_thread (th : thread) : Prop :=
  match th with
  | PutReady buffer | PutWaiting buffer =>
      Z.of_nat (length buffer) + sizeof_message_t < 2 ^ 64
  | _ => True
  end.

Definition initial (q : queue_t) (ths : list thread) : config := mk_config q ths [] [].

(** The invariant: what was sent is what was received followed by what the
    queue still holds. *)
Definition config_ok (c : config) : Prop :=
  ∃ msgs, holds (queue c) msgs ∧ sent c = received c ++ msgs ∧
    Forall sane_thread (threads c).

(** ** Lemmas on the mirrored buffer *)

Section buffer.
Implicit Types (q : queue_t) (o b : Z) (bs : list Z).

Lemma byte_index_mapped q o :
  mapped q → 0 ≤ o < 2 * size q → byte_index q o = Some (Z.to_nat (o mod size q)).
Proof.
  intros (Hs&_&Hf&Hr) Ho. unfold byte_index. rewrite Hr, Hf.
  cbn [translate r_start r_len r_off].
  assert (o mod size q = if o <? size q then o else o - size q) as ->.
  { case_bool (o <? size q) as Hlt; [by apply Z.mod_small; lia|].
    symmetry. apply Z.mod_unique with 1; lia. }
  destruct (Z.ltb_spec o (size q)), (Z.leb_spec 0 o), (Z.ltb_spec o (0 + size q)),
    (Z.leb_spec (size q) o), (Z.ltb_spec o (size q + size q)); try lia; cbn [andb];
    (rewrite (proj2 (Z.leb_le 0 _)), (proj2 (Z.ltb_lt _ _)) by lia);
    cbn [andb]; do 2 f_equal; lia.
Qed.

Lemma load_byte_ok q o b :
  mapped q → 0 ≤ o < 2 * size q → view q o = Some b → load_byte o q = Ok (b, q).
Proof.
  intros Hm Ho Hv. apply gets_some_ok. by rewrite byte_index_mapped.
Qed.

Lemma shows_cons q o b bs :
  shows q o (b :: bs) ↔ view q o = Some b ∧ shows q (o + 1) bs.
Proof.
  unfold shows. split.
  - intros H. split.
    + specialize (H 0%nat b eq_refl). by rewrite Z.add_0_r in H.
    + intros i b' Hb'. specialize (H (S i) b' Hb').
      by replace (o + 1 + Z.of_nat i) with (o + Z.of_nat (S i)) by lia.
  - intros [H1 H2] [|i] b' Hb'; simpl in *.
    + rewrite Z.add_0_r. congruence.
    + replace (o + Z.of_nat (S i)) with (o + 1 + Z.of_nat i) by lia. by apply H2.
Qed.

Lemma shows_app q o bs bs' :
  shows q o (bs ++ bs') ↔ shows q o bs ∧ shows q (o + Z.of_nat (length bs)) bs'.
Proof.
  revert o. induction bs as [|b bs IH]; intros o; simpl.
  - rewrite Z.add_0_r. split; [|tauto]. intros H. by split.
  - rewrite !shows_cons, IH.
    replace (o + 1 + Z.of_nat (length bs)) with (o + Z.of_nat (S (length bs))) by lia. tauto.
Qed.

Lemma memcpy_out_ok q o bs :
  mapped q → 0 ≤ o → o + Z.of_nat (length bs) ≤ 2 * size q → shows q o bs →
  memcpy_out o (length bs) q = Ok (bs, q).
Proof.
  intros Hm. revert o. induction bs as [|b bs IH]; intros o Ho Hlen Hs; [done|].
  apply shows_cons in Hs as [Hb Hs]. simpl in *.
  erewrite bind_ok by (apply load_byte_ok; [done|lia|done]).
  erewrite bind_ok by (apply IH; [lia|lia|done]). done.
Qed.

(** The queue after a store keeps everything but the file. *)
Lemma store_byte_ok q o b :
  mapped q → 0 ≤ o < 2 * size q →
  ∃ f, store_byte o b q = Ok (tt, set_file f q) ∧ mapped (set_file f q) ∧
    ∀ x, view (set_file f q) x =
         if decide (x mod size q = o mod size q) then Some b else view q x.
Proof.
  intros Hm Ho. pose proof Hm as (Hs&Hb&Hf&Hr).
  exists (<[Z.to_nat (o mod size q) := b]> (file q)). split_and!.
  - unfold store_byte. erewrite bind_ok; [done|]. apply gets_some_ok.
    by apply byte_index_mapped.
  - split_and!; simpl; [done|done| |done]. by rewrite length_insert.
  - intros x. unfold view. simpl.
    pose proof (Z.mod_pos_bound x (size q) Hs). pose proof (Z.mod_pos_bound o (size q) Hs).
    case_decide as Hx; [rewrite Hx; apply list_lookup_insert_eq; lia|].
    apply list_lookup_insert_ne. lia.
Qed.

Lemma view_mod q x y : x mod size q = y mod size q → view q x = view q y.
Proof. unfold view. by intros ->. Qed.

Lemma mod_offset_ne q o i :
  0 < size q → 0 < i < size q → (o + i) mod size q ≠ o mod size q.
Proof.
  intros Hs Hi Heq. assert (i mod size q = 0) as H.
  { replace i with ((o + i) - o) by lia. rewrite Zminus_mod, Heq, Z.sub_diag.
    by apply Z.mod_0_l; lia. }
  rewrite Z.mod_small in H; lia.
Qed.

Lemma memcpy_in_ok q o bs :
  mapped q → 0 ≤ o → o + Z.of_nat (length bs) ≤ 2 * size q →
  Z.of_nat (length bs) ≤ size q →
  ∃ f, memcpy_in o bs q = Ok (tt, set_file f q) ∧ mapped (set_file f q) ∧
    shows (set_file f q) o bs ∧
    ∀ i, Z.of_nat (length bs) ≤ i < size q →
      view (set_file f q) (o + i) = view q (o + i).
Proof.
  intros Hm. revert q o Hm. induction bs as [|b bs IH]; intros q o Hm Ho Hlen Hsz.
  { exists (file q). destruct q; split_and!; try done. }
  simpl in *. pose proof Hm as (Hs&_).
  destruct (store_byte_ok q o b Hm ltac:(lia)) as (f1&Hr1&Hm1&Hv1).
  destruct (IH (set_file f1 q) (o + 1) Hm1) as (f2&Hr2&Hm2&Hsh2&Hv2);
    [lia|simpl; lia|simpl; lia|].
  exists f2. simpl in *. erewrite bind_ok by exact Hr1.
  assert (Hkeep : ∀ i, Z.of_nat (length bs) ≤ i < size q →
    view (set_file f2 q) (o + 1 + i) = view (set_file f1 q) (o + 1 + i)) by exact Hv2.
  split_and!; [exact Hr2|exact Hm2|apply shows_cons; split|].
  - rewrite (view_mod _ o (o + 1 + (size q - 1))).
    + rewrite Hkeep by lia. rewrite Hv1, decide_True; [done|].
      replace (o + 1 + (size q - 1)) with (o + 1 * size q) by lia. by rewrite Z_mod_plus_full.
    + simpl. replace (o + 1 + (size q - 1)) with (o + 1 * size q) by lia.
      by rewrite Z_mod_plus_full.
  - exact Hsh2.
  - intros i Hi. replace (o + i) with (o + 1 + (i - 1)) by lia. rewrite Hkeep by lia.
    rewrite Hv1, decide_False; [done|].
    replace (o + 1 + (i - 1)) with (o + i) by lia. apply mod_offset_ne; lia.
Qed.

(** Storing right behind the bytes [old] appends to them, as long as the whole
    does not exceed the physical buffer: the mirror image of the end of the
    store does not reach [old]. *)
Lemma memcpy_in_append q o old bs :
  mapped q → 0 ≤ o → o + Z.of_nat (length (old ++ bs)) ≤ 2 * size q →
  Z.of_nat (length (old ++ bs)) ≤ size q → shows q o old →
  ∃ f, memcpy_in (o + Z.of_nat (length old)) bs q = Ok (tt, set_file f q) ∧
    mapped (set_file f q) ∧ shows (set_file f q) o (old ++ bs).
Proof.
  intros Hm Ho Hlen Hsz Hold. rewrite length_app in *. pose proof Hm as (Hs&_).
  destruct (memcpy_in_ok q (o + Z.of_nat (length old)) bs Hm) as (f&Hr&Hm'&Hsh&Hk); [lia..|].
  exists f. split_and!; [done|done|]. apply shows_app. split; [|done].
  intros i b Hi. pose proof (lookup_lt_Some _ _ _ Hi).
  assert (Hwrap : (o + Z.of_nat i) mod size q =
    (o + Z.of_nat (length old) + (size q - Z.of_nat (length old) + Z.of_nat i)) mod size q).
  { match goal with |- ?x mod _ = ?y mod _ => replace y with (x + 1 * size q) by lia end.
    by rewrite Z_mod_plus_full. }
  rewrite (view_mod (set_file f q) _ _ Hwrap), Hk by lia. rewrite <- (view_mod q _ _ Hwrap). by apply Hold.
Qed.
End buffer.

(** ** Lemmas on frames *)

Lemma length_message_bytes m : length (message_bytes m) = 16%nat.
Proof. unfold message_bytes. by rewrite length_app, !length_le_encode. Qed.

Lemma message_roundtrip m :
  0 ≤ len m < 2 ^ 64 → 0 ≤ seq m < 2 ^ 64 → message_of_bytes (message_bytes m) = m.
Proof.
  intros Hl Hs. unfold message_of_bytes, message_bytes.
  rewrite take_app_length', drop_app_length' by (by rewrite length_le_encode).
  rewrite !le_decode_encode_id by (change (256 ^ Z.of_nat 8) with (2 ^ 64); lia).
  by destruct m.
Qed.

Lemma frames_snoc s msgs m :
  0 ≤ s < 2 ^ 64 →
  frames s (msgs ++ [m]) = frames s msgs ++
    message_bytes (mk_message (Z.of_nat (length m)) (u64 (s + Z.of_nat (length msgs)))) ++ m.
Proof.
  revert s. induction msgs as [|m' msgs IH]; intros s Hs; cbn [frames app length].
  - rewrite Z.add_0_r, wrapu_small by lia. by rewrite app_nil_r.
  - rewrite IH by (apply wrapu_bound; lia). rewrite <- !app_assoc. do 4 f_equal.
    unfold wrapu. do 2 f_equal. rewrite Zplus_mod_idemp_l. f_equal. lia.
Qed.

Lemma length_frames_cons s m msgs :
  length (frames s (m :: msgs)) = (16 + length m + length (frames (u64 (s + 1)) msgs))%nat.
Proof. cbn [frames]. rewrite !length_app, length_message_bytes. lia. Qed.

(** ** The operations on the contents *)

Section operations.
Implicit Types (q : queue_t) (msgs : list (list Z)) (buffer : list Z).

Definition used q msgs : Z := Z.of_nat (length (frames (head_seq q) msgs)).

Lemma holds_space q msgs :
  holds q msgs → u64 (tail q - head q) = used q msgs ∧
    u64 (size q - u64 (tail q - head q)) = size q - used q msgs.
Proof.
  intros ((Hs&Hb&_)&Hh&Hl&Ht&_). unfold used. rewrite Ht.
  replace (head q + Z.of_nat (length (frames (head_seq q) msgs)) - head q)
    with (Z.of_nat (length (frames (head_seq q) msgs))) by lia.
  rewrite !wrapu_small; lia.
Qed.

Lemma set_file_fields f q :
  head (set_file f q) = head q ∧ tail (set_file f q) = tail q ∧
  size (set_file f q) = size q ∧ head_seq (set_file f q) = head_seq q ∧
  tail_seq (set_file f q) = tail_seq q.
Proof. done. Qed.

Lemma queue_put_waits q msgs buffer :
  holds q msgs → Z.of_nat (length buffer) + sizeof_message_t < 2 ^ 64 →
  size q - used q msgs < Z.of_nat (length buffer) + sizeof_message_t →
  queue_put buffer q = Ok (false, q).
Proof.
  intros Hq Hn Hfull. unfold queue_put.
  erewrite bind_ok by done. unfold id. rewrite (proj2 (holds_space _ _ Hq)).
  unfold sizeof_message_t in *. rewrite (wrapu_small 64 (_ + _)) by lia.
  by rewrite (proj2 (Z.ltb_lt _ _)) by lia.
Qed.

Lemma queue_put_stores q msgs buffer :
  holds q msgs → Z.of_nat (length buffer) + sizeof_message_t < 2 ^ 64 →
  Z.of_nat (length buffer) + sizeof_message_t ≤ size q - used q msgs →
  ∃ q', queue_put buffer q = Ok (true, q') ∧ holds q' (msgs ++ [buffer]) ∧
    size q' = size q ∧ head_seq q' = head_seq q.
Proof.
  intros Hq Hn Hfree. unfold queue_put. erewrite bind_ok by done.
  unfold id. rewrite (proj2 (holds_space _ _ Hq)). unfold sizeof_message_t in *.
  rewrite (wrapu_small 64 (Z.of_nat (length buffer) + 16)) by lia.
  rewrite (proj2 (Z.ltb_ge _ _)) by lia. cbv zeta.
  destruct Hq as (Hm&Hh&Hlen&Ht&Hsq&Htsq&Hsh). unfold used in Hfree.
  set (fr := frames (head_seq q) msgs) in *. set (n := Z.of_nat (length buffer)) in *.
  erewrite bind_ok by done.
  set (q0 := set_tail_seq (u64 (tail_seq q + 1)) q). set (m := mk_message n (tail_seq q)).
  pose proof Hm as (Hs&Hb&_). pose proof (length_message_bytes m) as Hlm.
  destruct (memcpy_in_append q0 (head q) fr (message_bytes m)) as (f1&Hr1&Hm1&Hs1);
    [done|lia|simpl; rewrite length_app; lia..|done|].
  rewrite Ht. erewrite bind_ok by exact Hr1.
  destruct (memcpy_in_append (set_file f1 q0) (head q) (fr ++ message_bytes m) buffer)
    as (f2&Hr2&Hm2&Hs2); [done|lia|simpl; rewrite !length_app; lia..|done|].
  rewrite length_app, Hlm, Nat2Z.inj_add, Z.add_assoc in Hr2.
  erewrite bind_ok by exact Hr2. erewrite bind_ok by done.
  eexists; split; [done|]. split; [|done]. unfold holds. cbn -[Z.pow frames message_bytes].
  rewrite frames_snoc, <- Htsq by done. fold fr n m. rewrite !length_app, Hlm.
  rewrite (wrapu_small 64 (head q + _ + _)) by lia.
  split_and!; [exact Hm2|lia..| |by rewrite app_assoc].
  rewrite Htsq. unfold wrapu. rewrite Zplus_mod_idemp_l. f_equal. simpl. lia.
Qed.

Lemma queue_get_empty q max : holds q [] → queue_get max q = Ok (GetWaitReadable, q).
Proof.
  intros Hq. unfold queue_get. erewrite bind_ok by done. unfold id.
  by rewrite (proj1 (holds_space _ _ Hq)).
Qed.

(** Reading the header at the front of a non-empty queue. *)
Lemma queue_get_front q m msgs :
  holds q (m :: msgs) →
  (u64 (tail q - head q) =? 0) = false ∧
  memcpy_out (head q) 16 q =
    Ok (message_bytes (mk_message (Z.of_nat (length m)) (head_seq q)), q) ∧
  message_of_bytes (message_bytes (mk_message (Z.of_nat (length m)) (head_seq q))) =
    mk_message (Z.of_nat (length m)) (head_seq q).
Proof.
  intros Hq. rewrite (proj1 (holds_space _ _ Hq)). unfold used.
  destruct Hq as (Hm&Hh&Hlen&Ht&Hsq&_&Hsh). rewrite length_frames_cons in *.
  pose proof Hm as (_&?&_). split_and!.
  - apply Z.eqb_neq. lia.
  - apply shows_app in Hsh as [Hsh _].
    rewrite <- (length_message_bytes (mk_message (Z.of_nat (length m)) (head_seq q))) at 1.
    apply memcpy_out_ok; [done|lia|rewrite length_message_bytes; lia|done].
  - apply message_roundtrip; cbn [len seq]; lia.
Qed.

Lemma queue_get_too_long q m msgs max :
  holds q (m :: msgs) → max < Z.of_nat (length m) →
  queue_get max q = Ok (GetWaitSeq (head_seq q), q).
Proof.
  intros Hq Hmax. destruct (queue_get_front _ _ _ Hq) as (H1&H2&H3).
  unfold queue_get. erewrite bind_ok by done. unfold id. rewrite H1.
  erewrite bind_ok by exact H2. cbv zeta. rewrite H3. cbn [len seq].
  by rewrite (proj2 (Z.ltb_lt _ _)), Z.eqb_refl.
Qed.

Lemma queue_get_takes q m msgs max :
  holds q (m :: msgs) → Z.of_nat (length m) ≤ max →
  ∃ q', queue_get max q = Ok (GetDone m, q') ∧ holds q' msgs ∧
    size q' = size q ∧ head_seq q' = u64 (head_seq q + 1).
Proof.
  intros Hq Hmax. destruct (queue_get_front _ _ _ Hq) as (H1&H2&H3).
  unfold queue_get. erewrite bind_ok by done. unfold id. rewrite H1.
  erewrite bind_ok by exact H2. cbv zeta. rewrite H3. cbn [len seq].
  rewrite (proj2 (Z.ltb_ge _ _)) by done. clear H1 H2 H3.
  destruct Hq as (Hm&Hh&Hlen&Ht&Hsq&Htsq&Hsh). rewrite length_frames_cons in *.
  pose proof Hm as (Hs&Hb&_). cbn [frames] in Hsh.
  apply shows_app in Hsh as [_ Hsh]. apply shows_app in Hsh as [Hbody Hrest].
  rewrite length_message_bytes in *. rewrite Nat2Z.id.
  erewrite bind_ok by (apply memcpy_out_ok; [done|unfold sizeof_message_t; lia..|exact Hbody]).
  unfold sizeof_message_t. rewrite (wrapu_small 64 (head q + _)) by lia.
  erewrite bind_ok by done. erewrite bind_ok by done. erewrite bind_ok by done.
  set (fr := frames _ msgs) in *.
  assert (Hseq : tail_seq q = u64 (u64 (head_seq q + 1) + Z.of_nat (length msgs))).
  { rewrite Htsq. unfold wrapu. rewrite Zplus_mod_idemp_l. f_equal. simpl. lia. }
  pose proof (wrapu_bound 64 (head_seq q + 1) ltac:(lia)).
  replace (head q + Z.of_nat 16 + Z.of_nat (length m))
    with (head q + (Z.of_nat (length m) + 16)) in Hrest by lia.
  unfold id, bind, ret, modify. cbn -[Z.pow frames].
  case_bool (size q <=? head q + (Z.of_nat (length m) + 16)) as Hwrap;
    (eexists; split; [reflexivity|]); (split; [|done]); unfold holds; cbn -[Z.pow frames]; fold fr;
    [rewrite (wrapu_small 64 (head q + _ - _)), (wrapu_small 64 (tail q - _)) by lia|];
    (split_and!; [exact Hm|lia..|exact Hseq|]); [|exact Hrest].
  intros i b Hi. rewrite <- (Hrest i b Hi).
  match goal with |- view _ ?x = ?v => change (view q x = v) end. apply view_mod.
  match goal with |- ?x mod ?s = ?y mod _ => replace y with (x + 1 * size q) by lia end.
  by rewrite Z_mod_plus_full.
Qed.
End operations.

(** ** Invariant of the system of threads *)

Section threads.
Implicit Types (c : config) (ths : list thread).

Lemma signal_sane waits ths ths' :
  (∀ th th', waits th = Some th' → sane_thread th → sane_thread th') →
  signal waits ths ths' → Forall sane_thread ths → Forall sane_thread ths'.
Proof.
  intros Hw [ths0 t th th' Hth Hth'|ths0 _] Hs; [|done].
  apply Forall_insert; [done|]. eapply Hw; [done|]. by eapply Forall_lookup_1.
Qed.

Lemma waits_readable_sane th th' :
  waits_readable th = Some th' → sane_thread th → sane_thread th'.
Proof. destruct th; simpl; naive_solver. Qed.

Lemma waits_writeable_sane th th' :
  waits_writeable th = Some th' → sane_thread th → sane_thread th'.
Proof. destruct th; simpl; naive_solver. Qed.

(** Outcome of one critical section of a getter, woken or not. *)
Lemma run_get_spec th max get q msgs :
  run_get th = Some (max, get) → holds q msgs →
  (∃ m rest q', msgs = m :: rest ∧ get q = Ok (GetDone m, q') ∧ holds q' rest) ∨
  (∃ o th', get q = Ok (o, q) ∧ get_blocked max o = Some th').
Proof.
  assert (Hget : ∀ max, holds q msgs →
    (∃ m rest q', msgs = m :: rest ∧ queue_get max q = Ok (GetDone m, q') ∧ holds q' rest) ∨
    (∃ o th', queue_get max q = Ok (o, q) ∧ get_blocked max o = Some th')).
  { intros max' Hq. destruct msgs as [|m rest].
    - right. exists GetWaitReadable. eexists. split; [by apply queue_get_empty|done].
    - destruct (Z.lt_ge_cases max' (Z.of_nat (length m))).
      + right. exists (GetWaitSeq (head_seq q)). eexists.
        split; [by eapply queue_get_too_long|done].
      + left. destruct (queue_get_takes q m rest max') as (q'&?&?&_); [done..|].
        by exists m, rest, q'. }
  destruct th; simpl; intros [= <- <-] Hq; try by apply Hget.
  unfold queue_get_resume, bind, gets, id. case_bool (head_seq q =? s) as Hs; [|by apply Hget].
  right. exists (GetWaitSeq s). by eexists.
Qed.

Lemma put_cases q msgs buffer :
  holds q msgs → sane_thread (PutReady buffer) →
  queue_put buffer q = Ok (false, q) ∨
  ∃ q', queue_put buffer q = Ok (true, q') ∧ holds q' (msgs ++ [buffer]).
Proof.
  intros Hq Hb. destruct (Z.lt_ge_cases (size q - used q msgs)
    (Z.of_nat (length buffer) + sizeof_message_t)).
  - left. by eapply queue_put_waits.
  - right. destruct (queue_put_stores q msgs buffer) as (q'&?&?&_); [done..|]. by exists q'.
Qed.

Lemma any_step_ok c c' : config_ok c → any_step c c' → config_ok c'.
Proof.
  intros (msgs&Hq&Hlog&Hths) [Hstep|Hstep].
  - destruct Hstep as [c t buffer q' Ht Hput|c t buffer q' ths' Ht Hput Hsig
      |c t th max get o th' q' Ht Hrun Hget Hb|c t th max get bs q' ths' Ht Hrun Hget Hsig];
      pose proof (Forall_lookup_1 _ _ _ _ Hths Ht) as Hsane.
    + destruct (put_cases _ _ _ Hq Hsane) as [Hr|(q1&Hr&_)]; [|congruence].
      rewrite Hput in Hr. injection Hr as ->. exists msgs. split_and!; [done|done|].
      by apply Forall_insert.
    + destruct (put_cases _ _ _ Hq Hsane) as [Hr|(q1&Hr&Hq1)]; [congruence|].
      rewrite Hput in Hr. injection Hr as ->. exists (msgs ++ [buffer]).
      split_and!; [done|simpl; by rewrite Hlog, app_assoc|].
      eapply signal_sane; [apply waits_readable_sane|exact Hsig|by apply Forall_insert].
    + destruct (run_get_spec _ _ _ _ _ Hrun Hq) as [(m&rest&q1&->&Hr&Hq1)|(o'&th''&Hr&Hb')].
      * rewrite Hget in Hr. by injection Hr as -> ->.
      * rewrite Hget in Hr. injection Hr as -> ->. exists msgs. split_and!; [done|done|].
        apply Forall_insert; [done|]. destruct o'; by simplify_eq/=.
    + destruct (run_get_spec _ _ _ _ _ Hrun Hq) as [(m&rest&q1&->&Hr&Hq1)|(o'&th''&Hr&Hb')].
      * rewrite Hget in Hr. injection Hr as -> ->. exists rest.
        split_and!; [done|simpl; by rewrite Hlog, <- app_assoc|].
        eapply signal_sane; [apply waits_writeable_sane|exact Hsig|by apply Forall_insert].
      * rewrite Hget in Hr. by simplify_eq.
  - destruct Hstep as [c t th th' Ht Hw]. exists msgs. split_and!; [done|done|].
    apply Forall_insert; [done|]. pose proof (Forall_lookup_1 _ _ _ _ Hths Ht).
    destruct Hw; eauto using waits_readable_sane, waits_writeable_sane.
Qed.

Lemma reachable_ok c c' : config_ok c → rtc any_step c c' → config_ok c'.
Proof. intros Hc Hs. induction Hs; eauto using any_step_ok. Qed.

(** A thread that is not waiting can always take its step. *)
Lemma signal_total waits ths : ∃ ths', signal waits ths ths'.
Proof.
  destruct (decide (Exists (λ th, is_Some (waits th)) ths)) as [He|Hn].
  - apply Exists_exists in He as (th&Hin&th'&Hw). apply list_elem_of_lookup in Hin as [t Ht].
    eexists. by eapply signal_one.
  - exists ths. apply signal_none. apply not_Exists_Forall in Hn; [|apply _].
    eapply Forall_impl; [exact Hn|]. intros th. apply eq_None_not_Some.
Qed.

Definition runnable (th : thread) : Prop :=
  match th with PutReady _ | GetReady _ | GetSeqReady _ _ => True | _ => False end.

Lemma runnable_progress c t th :
  config_ok c → threads c !! t = Some th → runnable th → ∃ c', step c c'.
Proof.
  intros (msgs&Hq&Hlog&Hths) Ht Hrun. pose proof (Forall_lookup_1 _ _ _ _ Hths Ht) as Hs.
  assert (∀ max get, run_get th = Some (max, get) → ∃ c', step c c') as Hget.
  { intros max get Hr.
    destruct (run_get_spec _ _ _ _ _ Hr Hq) as [(m&rest&q1&->&Hg&Hq1)|(o&th'&Hg&Hb)].
    - destruct (signal_total waits_writeable (<[t := Finished]> (threads c))) as [ths' Hsig].
      eexists. by eapply step_get.
    - eexists. by eapply step_get_wait. }
  destruct th; try done; [|by eapply Hget..].
  destruct (put_cases _ _ _ Hq Hs) as [Hr|(q1&Hr&_)].
  - eexists. by eapply step_put_wait.
  - destruct (signal_total waits_readable (<[t := Finished]> (threads c))) as [ths' Hsig].
    eexists. by eapply step_put.
Qed.
End threads.

(** ** Initialization *)

Lemma queue_init_holds e s q :
  queue_init e s = Ok q → 0 < s → 2 * s < 2 ^ 64 → holds q [] ∧ size q = s.
Proof.
  unfold queue_init. intros Hi Hs Hb. repeat case_match; simplify_eq.
  split; [|done]. unfold holds, mapped. cbn -[Z.pow]. rewrite length_replicate.
  split_and!; try done; lia.
Qed.

(** The calls of [queue_init] that must succeed for it to return at all. *)
Definition init_succeeds (e : init_env) (s : Z) : bool :=
  (s mod getpagesize e =? 0) && negb (memfd_create e =? -1) && (ftruncate e =? 0) &&
  bool_decide (is_Some (mmap_reserve e)) && bool_decide (is_Some (mmap_first e)) &&
  bool_decide (is_Some (mmap_second e)) && (pthread_mutex_init e =? 0) &&
  (pthread_cond_init_readable e =? 0) && (pthread_cond_init_writeable e =? 0).

(** [queue_destroy] unmaps all that [queue_init] mapped, or aborts when one of its
    calls fails; whatever is read from or written to the buffer afterwards is
    undefined. *)
Theorem queue_destroy_releases (e : destroy_env) (q : queue_t) :
  mapped q →
  if forallb (λ f, f e =? 0) [munmap_second; munmap_first; close; pthread_mutex_destroy;
       pthread_cond_destroy_readable; pthread_cond_destroy_writeable]
  then ∃ q', queue_destroy e q = Ok q' ∧ regions q' = [] ∧
    (∀ o, load_byte o q' = Err Undefined) ∧ (∀ o b, store_byte o b q' = Err Undefined)
  else queue_destroy e q = Err AssertFailed.
Proof.
  intros (Hs&_&_&Hr). unfold queue_destroy, truthy. simpl.
  destruct (munmap_second e =? 0), (munmap_first e =? 0), (close e =? 0), (pthread_mutex_destroy e =? 0),
    (pthread_cond_destroy_readable e =? 0), (pthread_cond_destroy_writeable e =? 0); try done. simpl.
  set (q' := munmap _ _ _). assert (regions q' = []) as Hq'.
  { apply elem_of_nil_inv. intros r. cbn. rewrite Hr, !list_elem_of_filter, !elem_of_cons, elem_of_nil.
    intros (H1&H2&[->|[->|[]]]); cbn [r_start r_len] in *; [clear H2|clear H1]; rewrite !(proj2 (Z.leb_le _ _)) in * by lia; done. }
  exists q'. split_and!; [done|done|intros o|intros o b].
  - unfold load_byte, gets_some, byte_index. by rewrite Hq'.
  - unfold store_byte, bind, gets_some, byte_index. by rewrite Hq'.
Qed.

Lemma queue_destroy_releases_witness :
  ∃ q', queue_destroy (mk_destroy_env 0 0 0 0 0 0)
          (mk_queue (replicate 4096 0) [mk_region 0 4096 0; mk_region 4096 4096 0] 4096 3 0 0 0 0) = Ok q' ∧
    regions q' = [] ∧ (∀ o, load_byte o q' = Err Undefined) ∧ (∀ o b, store_byte o b q' = Err Undefined).
Proof.
  refine (queue_destroy_releases (mk_destroy_env 0 0 0 0 0 0)
    (mk_queue (replicate 4096 0) [mk_region 0 4096 0; mk_region 4096 4096 0] 4096 3 0 0 0 0) _).
  by split_and!.
Defined.

(** ** Properties *)

(** C12: after a successful [queue_init], under every interleaving of any number
    of [queue_put] and [queue_get] calls (with spurious wakeups and an arbitrary
    choice of the signalled thread), the payloads received so far followed by
    those stored in the queue are exactly the payloads put so far, in order;
    the indices stay in range, and no runnable thread ever meets undefined
    behaviour. *)
Theorem queue_fifo (e : init_env) (s : Z) (q : queue_t) (ths : list thread) (c : config) :
  queue_init e s = Ok q → 0 < s → 2 * s < 2 ^ 64 → Forall sane_thread ths →
  rtc any_step (initial q ths) c →
  (∃ msgs, holds (queue c) msgs ∧ sent c = received c ++ msgs) ∧
  (∀ t th, threads c !! t = Some th → runnable th → ∃ c', step c c').
Proof.
  intros Hi Hs Hb Hths Hc. destruct (queue_init_holds _ _ _ Hi Hs Hb) as [Hq _].
  assert (config_ok c) as Hok.
  { eapply reachable_ok; [|exact Hc]. by exists []. }
  split; [|by intros; eapply runnable_progress]. destruct Hok as (msgs&?&?&_). eauto.
Qed.

Definition sample_env : init_env :=
  mk_init_env 4096 3 0 (Some tt) (Some tt) (Some tt) 0 0 0.

Lemma queue_fifo_witness :
  (∃ msgs, holds (mk_queue (replicate 4096 0) [mk_region 0 4096 0; mk_region 4096 4096 0]
                   4096 3 0 0 0 0) msgs ∧ ([] : list (list Z)) = [] ++ msgs) ∧
  (∀ t th, [PutReady [1; 2; 3]; GetReady 8] !! t = Some th → runnable th →
     ∃ c', step (initial (mk_queue (replicate 4096 0)
       [mk_region 0 4096 0; mk_region 4096 4096 0] 4096 3 0 0 0 0)
       [PutReady [1; 2; 3]; GetReady 8]) c').
Proof.
  eapply (queue_fifo sample_env 4096 _ [PutReady [1; 2; 3]; GetReady 8]
    (mk_config _ [PutReady [1; 2; 3]; GetReady 8] [] [])).
  - vm_compute. reflexivity.
  - reflexivity.
  - reflexivity.
  - apply Forall_cons. split; [reflexivity|]. apply Forall_cons. split; [exact I|].
    by apply Forall_nil.
  - apply rtc_refl.
Defined.

(** [queue_put] stores the message exactly when the free space holds its
    header and its bytes and otherwise waits without changing the queue;
    [queue_get] waits on an empty queue, waits without changing it when the
    next message is longer than the caller's buffer, and otherwise returns that
    message and removes it. *)
Theorem queue_operations (q : queue_t) (msgs : list (list Z)) (buffer : list Z) (max : Z) :
  holds q msgs → Z.of_nat (length buffer) + sizeof_message_t < 2 ^ 64 →
  (if Z.of_nat (length buffer) + sizeof_message_t <=? size q - used q msgs
   then ∃ q', queue_put buffer q = Ok (true, q') ∧ holds q' (msgs ++ [buffer])
   else queue_put buffer q = Ok (false, q)) ∧
  match msgs with
  | [] => queue_get max q = Ok (GetWaitReadable, q)
  | m :: rest =>
      if Z.of_nat (length m) <=? max
      then ∃ q', queue_get max q = Ok (GetDone m, q') ∧ holds q' rest
      else queue_get max q = Ok (GetWaitSeq (head_seq q), q)
  end.
Proof.
  intros Hq Hb. split.
  - case_bool (Z.of_nat (length buffer) + sizeof_message_t <=? size q - used q msgs) as H.
    + destruct (queue_put_stores q msgs buffer) as (q'&?&?&_); [done..|]. by exists q'.
    + by eapply queue_put_waits.
  - destruct msgs as [|m rest]; [by apply queue_get_empty|].
    case_bool (Z.of_nat (length m) <=? max) as H.
    + destruct (queue_get_takes q m rest max) as (q'&?&?&_); [done..|]. by exists q'.
    + by eapply queue_get_too_long.
Qed.

Lemma queue_operations_witness :
  let q := mk_queue (replicate 64 0) [mk_region 0 64 0; mk_region 64 64 0] 64 3 0 0 0 0 in
  (∃ q', queue_put [1; 2] q = Ok (true, q') ∧ holds q' [[1; 2]]) ∧
  queue_get 8 q = Ok (GetWaitReadable, q).
Proof.
  intros q. assert (holds q []) as Hq.
  { unfold holds, mapped. split_and!; try reflexivity; try (simpl; discriminate). }
  exact (queue_operations q [] [1; 2] 8 Hq eq_refl).
Defined.

(** C23: a wakeup can get lost, for every buffer size: the wait set [writeable]
    is shared by writers waiting for space and by readers waiting for someone
    else to take a long message, and [queue_get] signals only one of them.  The
    system below reaches a state in which the queue is empty, a writer whose
    message fits still waits for space, a reader that could take that message
    waits for data, and without spurious wakeups no thread can ever run
    again. *)
Theorem queue_lost_wakeup (e : init_env) (s : Z) (q : queue_t) (A B : list Z) :
  queue_init e s = Ok q → 0 < s → 2 * s < 2 ^ 64 →
  Z.of_nat (length A) + sizeof_message_t = s → (length B < length A)%nat →
  ∃ c, rtc step (initial q [PutReady A; PutReady B; GetReady (Z.of_nat (length B));
                            GetReady (Z.of_nat (length A))]) c ∧
    threads c = [Finished; PutWaiting B; GetWaitingReadable (Z.of_nat (length B)); Finished] ∧
    holds (queue c) [] ∧ ∀ c', ¬ step c c'.
Proof.
  intros Hi Hs Hb HA HB. destruct (queue_init_holds _ _ _ Hi Hs Hb) as [Hq Hsz].
  unfold sizeof_message_t in HA.
  destruct (queue_put_stores q [] A Hq) as (q1&Hput&Hq1&Hsz1&Hseq1);
    [unfold sizeof_message_t; lia|unfold sizeof_message_t, used; simpl; lia|].
  assert (Hwait : queue_put B q1 = Ok (false, q1)).
  { apply (queue_put_waits q1 [A]); [done|unfold sizeof_message_t; lia|].
    unfold used, sizeof_message_t. rewrite length_frames_cons. simpl. lia. }
  pose proof (queue_get_too_long q1 A [] (Z.of_nat (length B)) Hq1 ltac:(lia)) as Hlong.
  destruct (queue_get_takes q1 A [] (Z.of_nat (length A)) Hq1) as (q2&Hget&Hq2&_&Hseq2); [lia|].
  assert (Hres : queue_get_resume (Z.of_nat (length B)) (head_seq q1) q2 =
    Ok (GetWaitReadable, q2)).
  { unfold queue_get_resume, bind, gets, id. rewrite (proj2 (Z.eqb_neq _ _)).
    - by apply queue_get_empty.
    - rewrite Hseq2. by apply wrapu_succ_ne. }
  exists (mk_config q2 [Finished; PutWaiting B; GetWaitingReadable (Z.of_nat (length B));
    Finished] [A] [A]).
  split_and!; [|done|done|].
  - eapply rtc_l; [eapply (step_put _ 0 A); [done|exact Hput|]|].
    { apply signal_none. repeat constructor. }
    eapply rtc_l; [eapply (step_put_wait _ 1 B); [done|exact Hwait]|].
    eapply rtc_l; [eapply (step_get_wait _ 2); [done|done|exact Hlong|done]|].
    eapply rtc_l; [eapply (step_get _ 3); [done|done|exact Hget|]|].
    { eapply (signal_one _ _ 2); done. }
    eapply rtc_l; [eapply (step_get_wait _ 2); [done|done|exact Hres|done]|].
    apply rtc_refl.
  - intros c' Hc'. inversion Hc' as [? t ?? Ht|? t ??? Ht|? t ?????? Ht Hr|? t ?????? Ht Hr];
      subst; simpl in Ht; destruct t as [|[|[|[|t]]]]; simplify_eq/=.
Qed.

Lemma queue_lost_wakeup_witness :
  let q := mk_queue (replicate 64 0) [mk_region 0 64 0; mk_region 64 64 0] 64 3 0 0 0 0 in
  ∃ c, rtc step (initial q [PutReady (replicate 48 7); PutReady [1; 2; 3];
                            GetReady 3; GetReady 48]) c ∧
    threads c = [Finished; PutWaiting [1; 2; 3]; GetWaitingReadable 3; Finished] ∧
    holds (queue c) [] ∧ ∀ c', ¬ step c c'.
Proof.
  apply (queue_lost_wakeup (mk_init_env 64 3 0 (Some tt) (Some tt) (Some tt) 0 0 0) 64 _
           (replicate 48 7) [1; 2; 3]); [vm_compute; reflexivity|reflexivity..|].
  vm_compute. repeat constructor.
Defined.
