(* ===== verification/QueueTest.v ===== *)
(** * The test program of ring-buffer/unittest.c

    One publisher puts numbered messages into the queue, eight consumers get as many
    of them as they were promised, and [main] joins all of them.  A step of the test
    is a step of the queue's threads ([RingQueue.step]), or the return of a call
    into the loop of its thread, which goes on with the next call or ends. *)
From stdpp Require Import list relations.
From S2P Require Import Prelude RingQueue.
#[local] Open Scope Z_scope.

Definition NUM_THREADS : nat := 8.

Section program.
Context (getpagesize : nat).

(** A product in [int]. *)
Definition int_mul (a b : Z) : result Z :=
  if bool_decide (- 2 ^ 31 ≤ a * b < 2 ^ 31) then Ok (a * b) else Err Undefined.

Definition MESSAGES_PER_THREAD : result Z := int_mul (Z.of_nat getpagesize) 2.

(** The bytes of the [size_t] that is sent. *)
Definition message (i : nat) : list Z := le_encode 8 (Z.of_nat i).
Definition sizeof_size_t : Z := 8.

(** Thread 0 is the publisher: the bound of its loop, which is computed before
    every round, and the call of round [i]. *)
Definition bound (t : nat) : result Z :=
  match t with
  | O => rbind MESSAGES_PER_THREAD (int_mul (Z.of_nat NUM_THREADS))
  | S _ => MESSAGES_PER_THREAD
  end.
Definition loop_body (t i : nat) : thread :=
  match t with O => PutReady (message i) | S _ => GetReady sizeof_size_t end.

(** [(int) i < ...] in [publisher_loop] and [consumer_loop], and what follows. *)
Definition continues (t i : nat) : result bool := rbind (bound t) (λ b, Ok (i32 (Z.of_nat i) <? b)).
Definition loop_round (t i : nat) : result thread :=
  rbind (continues t i) (λ b, Ok (if b : bool then loop_body t i else Finished)).

(** After round [i]. *)
Definition loop_next (t i : nat) : result thread := loop_round t (S i).

(** The threads in their calls, and the loop variables. *)
Record test := mk_test { core : config; counts : list nat }.

(** A thread whose call has returned, in a round that its loop has entered, goes
    on with the next one. *)
Inductive test_step : test → test → Prop :=
| call_step c c' d : step c c' → test_step (mk_test c d) (mk_test c' d)
| return_step c d t i th :
    threads c !! t = Some Finished → d !! t = Some i → continues t i = Ok true → loop_next t i = Ok th →
    test_step (mk_test c d)
      (mk_test (mk_config (queue c) (<[t := th]> (threads c)) (sent c) (received c))
         (<[t := S i]> d)).

(** Waiting threads may also wake up without a signal. *)
Inductive test_spurious : test → test → Prop :=
| wakeup_step c c' d : spurious c c' → test_spurious (mk_test c d) (mk_test c' d).

Definition any_test_step (x x' : test) : Prop := test_step x x' ∨ test_spurious x x'.

(** [main] after the threads are created, each in its first round. *)
Definition started (q : queue_t) : result test :=
  rbind (loop_round 0 0) (λ publisher,
    rbind (loop_round 1 0) (λ consumer,
      Ok (mk_test (initial q (publisher :: replicate NUM_THREADS consumer)) (replicate (S NUM_THREADS) 0%nat)))).

(** The numbers of rounds the loops are meant to have. *)
Definition per_thread : nat := getpagesize * 2.
Definition limit (t : nat) : nat := match t with O => NUM_THREADS * per_thread | S _ => per_thread end.

(** All threads have returned: the publisher the number of messages it has sent,
    every consumer the number it has received. *)
Definition joined (x : test) : Prop :=
  threads (core x) = replicate (S NUM_THREADS) Finished ∧
  counts x = limit 0 :: replicate NUM_THREADS per_thread.

(** The loops with these numbers. *)
Definition next_call (t i : nat) : thread :=
  if decide (S i < limit t)%nat then loop_body t (S i) else Finished.

(** The bounds fit an [int]. *)
Definition fits : Prop := 16 * Z.of_nat getpagesize < 2 ^ 31.

Lemma bound_limit t : fits → bound t = Ok (Z.of_nat (limit t)) ∧ Z.of_nat (limit t) < 2 ^ 31.
Proof using Type.
  unfold fits. intros Hf. assert (Hm : MESSAGES_PER_THREAD = Ok (Z.of_nat per_thread)).
  { unfold MESSAGES_PER_THREAD, int_mul, per_thread. rewrite bool_decide_eq_true_2 by lia. f_equal. lia. }
  destruct t; unfold bound, limit, NUM_THREADS; rewrite Hm; [|split; [done|unfold per_thread; lia]].
  cbn [rbind]. unfold int_mul, per_thread. rewrite bool_decide_eq_true_2 by lia. split; [f_equal|]; lia.
Qed.

Lemma continues_spec t i : fits → (i ≤ limit t)%nat → continues t i = Ok (bool_decide (i < limit t)%nat).
Proof using Type.
  intros Hf Hi. destruct (bound_limit t Hf) as [Hb Hl]. unfold continues. rewrite Hb. cbn [rbind].
  rewrite wraps_small by lia. f_equal. destruct (Z.ltb_spec (Z.of_nat i) (Z.of_nat (limit t))); case_bool_decide; done || lia.
Qed.

Lemma loop_next_spec t i : fits → (i < limit t)%nat → loop_next t i = Ok (next_call t i).
Proof using Type.
  intros Hf Hi. unfold loop_next, loop_round, next_call. rewrite continues_spec by (done || lia). cbn [rbind].
  case_bool_decide; case_decide; done.
Qed.

(** The round a thread is in is at most the last one. *)
Lemma started_spec q :
  fits → (0 < getpagesize)%nat →
  started q = Ok (mk_test (initial q (PutReady (message 0) :: replicate NUM_THREADS (GetReady sizeof_size_t)))
    (replicate (S NUM_THREADS) 0%nat)).
Proof using Type.
  intros Hf Hp. unfold started, loop_round. rewrite !continues_spec by (done || lia). cbn [rbind].
  by rewrite !bool_decide_eq_true_2 by (unfold limit, NUM_THREADS, per_thread; lia).
Qed.

Lemma started_overflow q : ¬ fits → started q = Err Undefined.
Proof using Type.
  unfold fits. intros Hf. unfold started, loop_round, continues, bound, MESSAGES_PER_THREAD, int_mul, NUM_THREADS.
  case_bool_decide; cbn [rbind]; [|done]. by rewrite bool_decide_eq_false_2 by lia.
Qed.
End program.

(** ** The invariant *)

Lemma sum_insert {A} (f : A → nat) l t x y :
  l !! t = Some x → (sum_list_with f (<[t := y]> l) + f x = sum_list_with f l + f y)%nat.
Proof.
  revert t. induction l as [|z l IH]; intros [|t] H; simplify_eq/=; [lia|].
  specialize (IH _ H). lia.
Qed.

Lemma zip_insert {A B} (l : list A) (k : list B) i x y :
  zip (<[i := x]> l) (<[i := y]> k) = <[i := (x, y)]> (zip l k).
Proof. symmetry. apply insert_zip_with. Qed.

Lemma zip_insert_l {A B} (l : list A) (k : list B) i x y :
  k !! i = Some y → zip (<[i := x]> l) k = <[i := (x, y)]> (zip l k).
Proof. intros H. rewrite <- (list_insert_id k i y H) at 1. apply zip_insert. Qed.

Lemma zip_lookup {A B} (l : list A) (k : list B) i x y :
  zip l k !! i = Some (x, y) ↔ l !! i = Some x ∧ k !! i = Some y.
Proof. rewrite lookup_zip_with. destruct (l !! i), (k !! i); naive_solver. Qed.

Section test.
Context (page : nat).
Notation M := (per_thread page).
Notation max := sizeof_size_t.

(** The calls a thread has completed. *)
Definition completed (n : nat) (s : thread * nat) : nat :=
  match s.1 with Finished => Nat.min (S s.2) n | _ => s.2 end.
Definition is_ready (s : thread * nat) : nat :=
  match s.1 with PutReady _ | GetReady _ | GetSeqReady _ _ => 1 | _ => 0 end.
Definition is_returning (n : nat) (s : thread * nat) : nat :=
  match s.1 with Finished => if decide (s.2 < n)%nat then 1 else 0 | _ => 0 end.

Definition publisher_ok (th : thread) (i : nat) : Prop :=
  match th with
  | PutReady b | PutWaiting b => b = message i ∧ (i < limit page 0)%nat
  | Finished => (i ≤ limit page 0)%nat
  | _ => False
  end.
Definition consumer_ok (s : thread * nat) : Prop :=
  match s.1 with
  | GetReady m | GetWaitingReadable m => m = max ∧ (s.2 < M)%nat
  | Finished => (s.2 ≤ M)%nat
  | _ => False
  end.
Definition no_waiter (s : thread * nat) : Prop := waits_readable s.1 = None.

(** A waiting publisher has found the queue full; and as long as consumers wait,
    enough others are on their way to get everything that is stored. *)
Record test_ok (x : test) (msgs : list (list Z)) (th0 : thread) (d0 : nat) (ths : list thread) (ds : list nat) : Prop := {
  k_threads : threads (core x) = th0 :: ths;
  k_counts : counts x = d0 :: ds;
  k_lengths : length ths = NUM_THREADS ∧ length ds = NUM_THREADS;
  k_holds : holds (queue (core x)) msgs;
  k_size : size (queue (core x)) = Z.of_nat page;
  k_log : sent (core x) = received (core x) ++ msgs;
  k_short : Forall (λ m, length m = 8%nat) msgs;
  k_publisher : publisher_ok th0 d0;
  k_consumers : Forall consumer_ok (zip ths ds);
  k_sent : length (sent (core x)) = completed (limit page 0) (th0, d0);
  k_received : length (received (core x)) = sum_list_with (completed M) (zip ths ds);
  k_numbers : sent (core x) = message <$> List.seq 0 (length (sent (core x)));
  k_full : ∀ b, th0 = PutWaiting b → msgs ≠ [];
  k_wakeups : (length msgs ≤ sum_list_with is_ready (zip ths ds))%nat ∨ Forall no_waiter (zip ths ds)
}.

(** What a thread has yet to do: calls, the step of the call it is in, returns. *)
Definition work (n : nat) (s : thread * nat) : nat :=
  4 * (n - completed n s) + is_ready s + 2 * is_returning n s.
Definition measure (th0 : thread) (d0 : nat) (ths : list thread) (ds : list nat) : nat :=
  work (limit page 0) (th0, d0) + sum_list_with (work M) (zip ths ds).

Definition leads_to (x' : test) (P : nat → Prop) : Prop :=
  ∃ msgs th0 d0 ths ds, test_ok x' msgs th0 d0 ths ds ∧ P (measure th0 d0 ths ds).

Definition good (x : test) : Prop := leads_to x (λ _, True).

Context (Hpage : (24 ≤ page)%nat) (Hfits : fits page).
Implicit Types (q : queue_t) (msgs : list (list Z)) (ths : list thread) (ds : list nat).

Lemma put_cases_test q msgs b :
  holds q msgs → length b = 8%nat → size q = Z.of_nat page →
  queue_put b q = Ok (false, q) ∧ msgs ≠ [] ∨
  ∃ q', queue_put b q = Ok (true, q') ∧ holds q' (msgs ++ [b]) ∧ size q' = size q.
Proof.
  intros Hq Hb Hs. destruct (Z.lt_ge_cases (size q - used q msgs) (Z.of_nat (length b) + sizeof_message_t)) as [Hl|Hl].
  - left. split; [apply (queue_put_waits q msgs); [done|unfold sizeof_message_t; lia|done]|].
    intros ->. unfold used, sizeof_message_t in Hl. simpl in Hl. lia.
  - right. destruct (queue_put_stores q msgs b Hq) as (q'&?&?&?&_); [unfold sizeof_message_t; lia|done|]. by exists q'.
Qed.

Lemma get_cases_test q msgs :
  holds q msgs → Forall (λ m, length m = 8%nat) msgs →
  msgs = [] ∧ queue_get max q = Ok (GetWaitReadable, q) ∨
  ∃ m rest q', msgs = m :: rest ∧ queue_get max q = Ok (GetDone m, q') ∧ holds q' rest ∧ size q' = size q.
Proof.
  intros Hq Hsh. destruct msgs as [|m rest]; [left; split; [done|by apply queue_get_empty]|right].
  apply Forall_cons in Hsh as [Hm _]. destruct (queue_get_takes q m rest max Hq) as (q'&?&?&?&_);
    [rewrite Hm; done|]. by exists m, rest, q'.
Qed.

(** The slot of one consumer changes. *)
Lemma consumers_insert ths ds k th i th' i' :
  Forall consumer_ok (zip ths ds) → ths !! k = Some th → ds !! k = Some i → consumer_ok (th', i') →
  zip (<[k := th']> ths) (<[k := i']> ds) = <[k := (th', i')]> (zip ths ds) ∧
  zip ths ds !! k = Some (th, i) ∧
  Forall consumer_ok (<[k := (th', i')]> (zip ths ds)) ∧ consumer_ok (th, i).
Proof.
  intros Hok Ht Hi Hn. pose proof (proj2 (zip_lookup _ _ _ _ _) (conj Ht Hi)) as Hz. split_and!; [apply zip_insert|done| |].
  - by apply Forall_insert.
  - by apply (Forall_lookup_1 _ _ _ _ Hok Hz).
Qed.

(** Signals of the two condition variables. *)
Lemma signal_readers th0 ths ths' ds :
  length ths = length ds → Forall consumer_ok (zip ths ds) → waits_readable th0 = None →
  signal waits_readable (th0 :: ths) ths' →
  (∃ k i, ths' = th0 :: <[k := GetReady max]> ths ∧ ths !! k = Some (GetWaitingReadable max) ∧
     ds !! k = Some i ∧ (i < M)%nat) ∨
  (ths' = th0 :: ths ∧ Forall no_waiter (zip ths ds)).
Proof.
  intros Hl Hok H0 Hs. remember (th0 :: ths) as l eqn:El. destruct Hs as [l t th th' Ht Hw|l Hn]; subst l.
  - left. destruct t as [|k]; simpl in Ht; simplify_eq. destruct (lookup_lt_is_Some_2 ds k) as [i Hi].
    { rewrite <- Hl. by eapply lookup_lt_Some. }
    pose proof (Forall_lookup_1 _ _ _ _ Hok (proj2 (zip_lookup _ _ _ _ _) (conj Ht Hi))) as Hc.
    destruct th; try done. destruct Hc as [Hm Hlt]. cbn in Hm, Hlt. subst. simpl in Hw. injection Hw as <-. by exists k, i.
  - right. split; [done|]. apply Forall_cons in Hn as [_ Hn]. apply Forall_lookup_2. intros k [th i] Hk.
    apply zip_lookup in Hk as [Ht _].
    unfold no_waiter. cbn. by apply (Forall_lookup_1 _ _ _ _ Hn Ht).
Qed.

Lemma signal_writers th0 d0 ths ths' ds :
  length ths = length ds → Forall consumer_ok (zip ths ds) → publisher_ok th0 d0 →
  signal waits_writeable (th0 :: ths) ths' →
  ths' = (match th0 with PutWaiting b => PutReady b | _ => th0 end) :: ths.
Proof.
  intros Hl Hok H0 Hs. remember (th0 :: ths) as l eqn:El. destruct Hs as [l t th th' Ht Hw|l Hn]; subst l.
  - destruct t as [|k]; simpl in Ht; simplify_eq/=.
    + by destruct th; simplify_eq/=.
    + destruct (lookup_lt_is_Some_2 ds k) as [i Hi]; [rewrite <- Hl; by eapply lookup_lt_Some|].
      pose proof (Forall_lookup_1 _ _ _ _ Hok (proj2 (zip_lookup _ _ _ _ _) (conj Ht Hi))) as Hc. by destruct th.
  - apply Forall_cons in Hn as [Hn _]. by destruct th0.
Qed.

(** The steps of the publisher. *)
Lemma publisher_waits x msgs th0 d0 ths ds b q' :
  test_ok x msgs th0 d0 ths ds → th0 = PutReady b → queue_put b (queue (core x)) = Ok (false, q') →
  leads_to (mk_test (mk_config q' (<[0%nat := PutWaiting b]> (threads (core x))) (sent (core x)) (received (core x)))
    (counts x)) (λ n, n < measure th0 d0 ths ds)%nat.
Proof.
  intros K -> Hput. destruct K as [Ht Hc [Hl1 Hl2] Hq Hsz Hlog Hsh [Hb Hlt] Hcs Hs Hr Hn Hf Hw].
  destruct (put_cases_test (queue (core x)) msgs b Hq) as [[Hrun Hne]|(q1&Hrun&_)]; [by subst b|done| |congruence].
  rewrite Hput in Hrun. injection Hrun as ->.
  exists msgs, (PutWaiting b), d0, ths, ds. split; [|unfold measure, work, completed, is_ready, is_returning; cbn [fst snd]; lia].
  split; cbn [core counts threads queue sent received]; try done. by rewrite Ht.
Qed.

Lemma publisher_puts x msgs th0 d0 ths ds b q' ths' :
  test_ok x msgs th0 d0 ths ds → th0 = PutReady b → queue_put b (queue (core x)) = Ok (true, q') →
  signal waits_readable (<[0%nat := Finished]> (threads (core x))) ths' →
  leads_to (mk_test (mk_config q' ths' (sent (core x) ++ [b]) (received (core x))) (counts x))
    (λ n, n < measure th0 d0 ths ds)%nat.
Proof.
  intros K -> Hput Hsig. destruct K as [Ht Hc [Hl1 Hl2] Hq Hsz Hlog Hsh [Hb Hlt] Hcs Hs Hr Hn Hf Hw].
  destruct (put_cases_test (queue (core x)) msgs b Hq) as [[Hrun Hne]|(q1&Hrun&Hq1&Hs1)]; [by subst b|done|congruence|].
  rewrite Hput in Hrun. injection Hrun as <-. rewrite Ht in Hsig. cbn in Hs.
  assert (sent (core x) ++ [b] = message <$> List.seq 0 (length (sent (core x) ++ [b]))) as Hn'.
  { rewrite length_app, Hs, Nat.add_1_r, seq_S, fmap_app, <- Hs, <- Hn, Hs. cbn. by rewrite Hb. }
  assert (completed (limit page 0) (Finished, d0) = S d0) as Hd by (unfold completed; cbn [fst snd]; lia).
  assert (length (sent (core x) ++ [b]) = completed (limit page 0) (Finished, d0)) as Hs'
    by (rewrite length_app, Hs, Hd; simpl; lia).
  assert (work (limit page 0) (Finished, d0) + 2 ≤ work (limit page 0) (PutReady b, d0))%nat as Hwork.
  { unfold work. rewrite Hd. unfold completed, is_ready, is_returning. cbn [fst snd]. case_decide; lia. }
  destruct (signal_readers Finished ths ths' ds) as [(k&i&->&Hk&Hi&Hlt')|[-> Hnw]]; [congruence|done..| |].
  - destruct (consumers_insert ths ds k (GetWaitingReadable max) i (GetReady max) i Hcs Hk Hi) as (Hz&Hzk&Hok&_); [by split|].
    rewrite (list_insert_id ds k i Hi) in Hz.
    pose proof (sum_insert (completed M) _ _ _ (GetReady max, i) Hzk) as E1. cbn in E1.
    pose proof (sum_insert is_ready _ _ _ (GetReady max, i) Hzk) as E2. cbn in E2.
    pose proof (sum_insert (work M) _ _ _ (GetReady max, i) Hzk) as E3. unfold work in E3 at 2 4. cbn in E3.
    exists (msgs ++ [b]), Finished, d0, (<[k := GetReady max]> ths), ds.
    split; [|unfold measure; rewrite Hz; lia].
    split; cbn [core counts threads queue sent received]; rewrite ?Hz, ?length_insert; try done.
    + by rewrite Hs1.
    + by rewrite Hlog, app_assoc.
    + apply Forall_app. split; [done|]. apply Forall_singleton. by subst b.
    + by apply Nat.lt_le_incl.
    + lia.
    + destruct Hw as [Hw|Hw].
      * left. rewrite length_app. simpl. lia.
      * exfalso. pose proof (Forall_lookup_1 _ _ _ _ Hw Hzk). done.
  - exists (msgs ++ [b]), Finished, d0, ths, ds. split; [|unfold measure; lia].
    split; cbn [core counts threads queue sent received]; try done.
    + by rewrite Hs1.
    + by rewrite Hlog, app_assoc.
    + apply Forall_app. split; [done|]. apply Forall_singleton. by subst b.
    + by apply Nat.lt_le_incl.
    + by right.
Qed.

Lemma publisher_returns x msgs th0 d0 ths ds :
  test_ok x msgs th0 d0 ths ds → th0 = Finished → (d0 < limit page 0)%nat →
  leads_to (mk_test (mk_config (queue (core x)) (<[0%nat := next_call page 0 d0]> (threads (core x)))
      (sent (core x)) (received (core x))) (<[0%nat := S d0]> (counts x)))
    (λ n, n < measure th0 d0 ths ds)%nat.
Proof.
  intros K -> Hlt. destruct K as [Ht Hc Hl Hq Hsz Hlog Hsh Hp Hcs Hs Hr Hn Hf Hw].
  assert (completed (limit page 0) (next_call page 0 d0, S d0) = completed (limit page 0) (Finished, d0)) as Hd.
  { unfold next_call, completed. case_decide; cbn [fst snd]; [unfold loop_body; lia|lia]. }
  exists msgs, (next_call page 0 d0), (S d0), ths, ds. split.
  - split; cbn [core counts threads queue sent received]; try done.
    + by rewrite Ht.
    + by rewrite Hc.
    + unfold next_call. case_decide; [by split|done].
    + by rewrite Hs, Hd.
    + unfold next_call. case_decide; done.
  - unfold measure, work. rewrite Hd. unfold next_call, is_ready, is_returning. cbn [fst snd].
    unfold loop_body. repeat case_decide; lia.
Qed.

(** The steps of a consumer. *)
Lemma consumer_waits x msgs th0 d0 ths ds k i q' :
  test_ok x msgs th0 d0 ths ds → ths !! k = Some (GetReady max) → ds !! k = Some i →
  queue_get max (queue (core x)) = Ok (GetWaitReadable, q') →
  leads_to (mk_test (mk_config q' (<[S k := GetWaitingReadable max]> (threads (core x))) (sent (core x)) (received (core x)))
    (counts x)) (λ n, n < measure th0 d0 ths ds)%nat.
Proof.
  intros K Hk Hi Hget. destruct K as [Ht Hc Hl Hq Hsz Hlog Hsh Hp Hcs Hs Hr Hn Hf Hw].
  destruct (get_cases_test _ _ Hq Hsh) as [[-> Hrun]|(m&rest&q1&->&Hrun&_)]; [|congruence].
  rewrite Hget in Hrun. injection Hrun as ->.
  pose proof (Forall_lookup_1 _ _ _ _ Hcs (proj2 (zip_lookup _ _ _ _ _) (conj Hk Hi))) as [_ Hlt]. cbn in Hlt.
  destruct (consumers_insert ths ds k (GetReady max) i (GetWaitingReadable max) i Hcs Hk Hi) as (Hz&Hzk&Hok&_); [by split|].
  rewrite (list_insert_id ds k i Hi) in Hz.
  pose proof (sum_insert (completed M) _ _ _ (GetWaitingReadable max, i) Hzk) as E1. cbn in E1.
  pose proof (sum_insert (work M) _ _ _ (GetWaitingReadable max, i) Hzk) as E3. unfold work in E3 at 2 4.
  unfold completed, is_ready, is_returning in E3. cbn [fst snd] in E3.
  exists [], th0, d0, (<[k := GetWaitingReadable max]> ths), ds. split; [|unfold measure; rewrite Hz; lia].
  split; cbn [core counts threads queue sent received]; rewrite ?Hz, ?length_insert; try done.
  - by rewrite Ht.
  - lia.
  - left. simpl. lia.
Qed.

Lemma consumer_gets x msgs th0 d0 ths ds k i m q' ths' :
  test_ok x msgs th0 d0 ths ds → ths !! k = Some (GetReady max) → ds !! k = Some i →
  queue_get max (queue (core x)) = Ok (GetDone m, q') →
  signal waits_writeable (<[S k := Finished]> (threads (core x))) ths' →
  leads_to (mk_test (mk_config q' ths' (sent (core x)) (received (core x) ++ [m])) (counts x))
    (λ n, n < measure th0 d0 ths ds)%nat.
Proof.
  intros K Hk Hi Hget Hsig. destruct K as [Ht Hc [Hl1 Hl2] Hq Hsz Hlog Hsh Hp Hcs Hs Hr Hn Hf Hw].
  destruct (get_cases_test _ _ Hq Hsh) as [[-> Hrun]|(m'&rest&q1&->&Hrun&Hq1&Hs1)]; [congruence|].
  rewrite Hget in Hrun. injection Hrun as <- <-.
  pose proof (Forall_lookup_1 _ _ _ _ Hcs (proj2 (zip_lookup _ _ _ _ _) (conj Hk Hi))) as [_ Hlt]. cbn [snd] in Hlt.
  destruct (consumers_insert ths ds k (GetReady max) i Finished i Hcs Hk Hi) as (Hz&Hzk&Hok&_); [by apply Nat.lt_le_incl|].
  rewrite (list_insert_id ds k i Hi) in Hz. rewrite Ht in Hsig.
  assert (length (<[k := Finished]> ths) = length ds) as Hl by (rewrite length_insert; congruence).
  assert (Forall consumer_ok (zip (<[k := Finished]> ths) ds)) as Hok' by (by rewrite Hz).
  pose proof (signal_writers th0 d0 _ ths' ds Hl Hok' Hp Hsig) as ->.
  pose proof (sum_insert (completed M) _ _ _ (Finished, i) Hzk) as E1. unfold completed at 2 4 in E1. cbn [fst snd] in E1.
  pose proof (sum_insert is_ready _ _ _ (Finished, i) Hzk) as E2. unfold is_ready at 2 4 in E2. cbn [fst snd] in E2.
  pose proof (sum_insert (work M) _ _ _ (Finished, i) Hzk) as E3. unfold work in E3 at 2 4.
  unfold completed, is_ready, is_returning in E3. cbn [fst snd] in E3. rewrite decide_True in E3 by done.
  set (th0' := match th0 with PutWaiting b => PutReady b | _ => th0 end).
  assert (completed (limit page 0) (th0', d0) = completed (limit page 0) (th0, d0)) as Hd by (by destruct th0).
  assert (work (limit page 0) (th0', d0) ≤ work (limit page 0) (th0, d0) + 1)%nat as Hwork.
  { unfold work. rewrite Hd. destruct th0; unfold is_ready, is_returning; cbn [fst snd th0']; lia. }
  exists rest, th0', d0, (<[k := Finished]> ths), ds. split; [|unfold measure; rewrite Hz; lia].
  split; cbn [core counts threads queue sent received]; rewrite ?Hz, ?length_insert; try done.
  - by rewrite Hs1.
  - by rewrite Hlog, <- app_assoc.
  - by apply Forall_cons in Hsh as [_ ?].
  - by destruct th0.
  - by rewrite Hd.
  - rewrite length_app. simpl. lia.
  - intros b Hb. by destruct th0.
  - destruct Hw as [Hw|Hw]; [left; simpl in Hw; lia|right]. by apply Forall_insert.
Qed.

Lemma consumer_returns x msgs th0 d0 ths ds k i :
  test_ok x msgs th0 d0 ths ds → ths !! k = Some Finished → ds !! k = Some i → (i < M)%nat →
  leads_to (mk_test (mk_config (queue (core x)) (<[S k := next_call page (S k) i]> (threads (core x)))
      (sent (core x)) (received (core x))) (<[S k := S i]> (counts x)))
    (λ n, n < measure th0 d0 ths ds)%nat.
Proof.
  intros K Hk Hi Hlt. destruct K as [Ht Hc [Hl1 Hl2] Hq Hsz Hlog Hsh Hp Hcs Hs Hr Hn Hf Hw].
  set (th' := next_call page (S k) i).
  assert (consumer_ok (th', S i)) as Hok'.
  { unfold th', next_call. case_decide; [by split|done]. }
  destruct (consumers_insert ths ds k Finished i th' (S i) Hcs Hk Hi Hok') as (Hz&Hzk&Hok&_).
  assert (completed M (th', S i) = completed M (Finished, i)) as Hd.
  { unfold th', next_call, completed. cbn [limit] in *. case_decide; cbn [fst snd loop_body]; lia. }
  assert (work M (th', S i) < work M (Finished, i))%nat as Hwork.
  { unfold work. rewrite Hd. unfold th', next_call, is_ready, is_returning. cbn [fst snd limit].
    unfold loop_body. repeat case_decide; lia. }
  pose proof (sum_insert (completed M) _ _ _ (th', S i) Hzk) as E1.
  pose proof (sum_insert is_ready _ _ _ (th', S i) Hzk) as E2. unfold is_ready at 2 in E2. cbn [fst] in E2.
  pose proof (sum_insert (work M) _ _ _ (th', S i) Hzk) as E3.
  exists msgs, th0, d0, (<[k := th']> ths), (<[k := S i]> ds). split; [|unfold measure; rewrite Hz; lia].
  split; cbn [core counts threads queue sent received]; rewrite ?Hz, ?length_insert; try done.
  - by rewrite Ht.
  - by rewrite Hc.
  - lia.
  - destruct Hw as [Hw|Hw]; [left; lia|right]. apply Forall_insert; [done|].
    unfold no_waiter, th', next_call. by case_decide.
Qed.

Lemma consumer_slot x msgs th0 d0 ths ds k th :
  test_ok x msgs th0 d0 ths ds → ths !! k = Some th → ∃ i, ds !! k = Some i ∧ consumer_ok (th, i).
Proof.
  intros [_ _ [Hl1 Hl2] _ _ _ _ _ Hcs _ _ _ _ _] Hk.
  destruct (lookup_lt_is_Some_2 ds k) as [i Hi]; [rewrite Hl2, <- Hl1; by eapply lookup_lt_Some|].
  exists i. split; [done|]. apply (Forall_lookup_1 _ _ _ _ Hcs (proj2 (zip_lookup _ _ _ _ _) (conj Hk Hi))).
Qed.

Lemma call_step_ok c c' d msgs th0 d0 ths ds :
  test_ok (mk_test c d) msgs th0 d0 ths ds → step c c' →
  leads_to (mk_test c' d) (λ n, n < measure th0 d0 ths ds)%nat.
Proof.
  intros K Hs. pose proof K as [Ht Hc [Hl1 Hl2] Hq _ _ Hsh Hp Hcs _ _ _ _ _]. cbn [core counts] in *.
  pose proof (λ k th, consumer_slot _ _ _ _ _ _ k th K) as Hcons.
  destruct Hs as [c t b q' Hth Hput|c t b q' ths' Hth Hput Hsig
    |c t th m get o th' q' Hth Hrun Hget Hb|c t th m get bs q' ths' Hth Hrun Hget Hsig];
    rewrite Ht in Hth; destruct t as [|k]; simpl in Hth.
  - injection Hth as ->. by apply (publisher_waits _ _ _ _ _ _ _ _ K).
  - destruct (Hcons k _ Hth) as (i&_&[]).
  - injection Hth as ->. by apply (publisher_puts _ _ _ _ _ _ _ _ _ K).
  - destruct (Hcons k _ Hth) as (i&_&[]).
  - injection Hth as ->. by destruct th.
  - destruct (Hcons k _ Hth) as (i&Hi&Hok). destruct th; try done. destruct Hok as [Hm _]. cbn [fst] in Hm. subst.
    injection Hrun as <- <-. destruct (get_cases_test _ _ Hq Hsh) as [[_ Hr]|(m'&rest&q1&_&Hr&_)];
      rewrite Hget in Hr; injection Hr as -> ->; [|done]. injection Hb as <-.
    by apply (consumer_waits _ _ _ _ _ _ _ _ _ K Hth Hi).
  - injection Hth as ->. by destruct th.
  - destruct (Hcons k _ Hth) as (i&Hi&Hok). destruct th; try done. destruct Hok as [Hm _]. cbn [fst] in Hm. subst.
    injection Hrun as <- <-. by apply (consumer_gets _ _ _ _ _ _ _ _ _ _ _ K Hth Hi Hget).
Qed.

Lemma round_le x msgs th0 d0 ths ds t i :
  test_ok x msgs th0 d0 ths ds → threads (core x) !! t = Some Finished → counts x !! t = Some i → (i ≤ limit page t)%nat.
Proof.
  intros K. destruct K as [Ht Hc _ _ _ _ _ Hp Hcs _ _ _ _ _]. rewrite Ht, Hc. destruct t as [|k]; simpl.
  - by intros [= ->] [= ->].
  - intros Hth Hi. apply (Forall_lookup_1 _ _ _ _ Hcs (proj2 (zip_lookup _ _ _ _ _) (conj Hth Hi))).
Qed.

Lemma test_step_ok x x' msgs th0 d0 ths ds :
  test_ok x msgs th0 d0 ths ds → test_step page x x' →
  leads_to x' (λ n, n < measure th0 d0 ths ds)%nat.
Proof.
  intros K Hs. destruct Hs as [c c' d Hs|c d t i th Hth Hi Hgo Hnext]; [by apply (call_step_ok c _ _ _ _ _ _ _ K)|].
  pose proof (round_le _ _ _ _ _ _ t i K Hth Hi) as Hle. rewrite continues_spec in Hgo by done.
  injection Hgo as Hlt%bool_decide_eq_true. rewrite loop_next_spec in Hnext by done. injection Hnext as <-.
  pose proof K as [Ht Hc _ _ _ _ _ _ _ _ _ _ _ _]. cbn [core counts] in *. rewrite Ht in Hth. rewrite Hc in Hi.
  destruct t as [|k]; simpl in Hth, Hi; simplify_eq.
  - by apply (publisher_returns _ _ _ _ _ _ K).
  - by apply (consumer_returns _ _ _ _ _ _ _ _ K).
Qed.

Lemma spurious_ok x x' msgs th0 d0 ths ds :
  test_ok x msgs th0 d0 ths ds → test_spurious x x' → leads_to x' (λ _, True).
Proof.
  intros K Hs. destruct Hs as [c c' d Hs]. destruct Hs as [c t th th' Hth Hw].
  destruct K as [Ht Hc [Hl1 Hl2] Hq Hsz Hlog Hsh Hp Hcs Hs Hr Hn Hf Hwk]. cbn [core counts] in *.
  rewrite Ht in Hth. destruct t as [|k]; simpl in Hth.
  - injection Hth as ->. destruct th as [|b| | | | |]; try done; [by destruct Hw| |by destruct Hw].
    destruct Hw as [Hw|Hw]; [done|]. injection Hw as <-.
    exists msgs, (PutReady b), d0, ths, ds. split; [|done].
    split; cbn [core counts threads queue sent received]; try done. by rewrite Ht.
  - destruct (lookup_lt_is_Some_2 ds k) as [i Hi]; [rewrite Hl2, <- Hl1; by eapply lookup_lt_Some|].
    pose proof (Forall_lookup_1 _ _ _ _ Hcs (proj2 (zip_lookup _ _ _ _ _) (conj Hth Hi))) as Hok.
    destruct th as [| |m| |m| |]; try done; [by destruct Hw| |by destruct Hw].
    destruct Hw as [Hw|Hw]; [|done]. injection Hw as <-. destruct Hok as [Hm Hlt]. cbn [fst snd] in Hm, Hlt. subst m.
    destruct (consumers_insert ths ds k (GetWaitingReadable max) i (GetReady max) i Hcs Hth Hi) as (Hz&Hzk&Hok&_); [by split|].
    rewrite (list_insert_id ds k i Hi) in Hz.
    pose proof (sum_insert (completed M) _ _ _ (GetReady max, i) Hzk) as E1. cbn in E1.
    pose proof (sum_insert is_ready _ _ _ (GetReady max, i) Hzk) as E2. cbn in E2.
    exists msgs, th0, d0, (<[k := GetReady max]> ths), ds. split; [|done].
    split; cbn [core counts threads queue sent received]; rewrite ?Hz, ?length_insert; try done.
    + by rewrite Ht.
    + lia.
    + destruct Hwk as [Hwk|Hwk]; [left; lia|]. pose proof (Forall_lookup_1 _ _ _ _ Hwk Hzk). done.
Qed.

Lemma any_test_step_ok x x' : good x → any_test_step page x x' → good x'.
Proof.
  intros (msgs&th0&d0&ths&ds&K&_) [Hs|Hs].
  - destruct (test_step_ok _ _ _ _ _ _ _ K Hs) as (msgs'&th0'&d0'&ths'&ds'&K'&_).
    by exists msgs', th0', d0', ths', ds'.
  - destruct (spurious_ok _ _ _ _ _ _ _ K Hs) as (msgs'&th0'&d0'&ths'&ds'&K'&_).
    by exists msgs', th0', d0', ths', ds'.
Qed.

(** A sum of counts that are bounded is bounded, and one below its limit leaves
    the sum below. *)
Lemma sum_bounded {A} (f : A → nat) n l :
  Forall (λ a, f a ≤ n)%nat l → (sum_list_with f l ≤ length l * n)%nat.
Proof. induction 1; simpl; lia. Qed.

Lemma sum_full {A} (f : A → nat) n l :
  Forall (λ a, f a ≤ n)%nat l → sum_list_with f l = (length l * n)%nat → Forall (λ a, f a = n) l.
Proof.
  induction 1 as [|a l Ha Hl IH]; intros Hs; [done|]. simpl in Hs. pose proof (sum_bounded f n l Hl).
  constructor; [lia|]. apply IH. lia.
Qed.

Lemma completed_le ths ds : Forall consumer_ok (zip ths ds) → Forall (λ s, completed M s ≤ M)%nat (zip ths ds).
Proof.
  intros Hcs. eapply Forall_impl; [exact Hcs|]. intros [th i] Hok.
  unfold completed, consumer_ok in *. cbn [fst snd] in *. destruct th; try done; lia.
Qed.

(** A thread whose call has returned goes on. *)
Definition goes_on (x : test) (t : nat) : Prop :=
  match threads (core x) !! t, counts x !! t with
  | Some Finished, Some i => (i < limit page t)%nat
  | _, _ => False
  end.
#[local] Instance goes_on_dec x t : Decision (goes_on x t).
Proof. unfold goes_on. destruct (threads (core x) !! t) as [[]|]; try apply _. destruct (counts x !! t); apply _. Defined.
#[local] Instance runnable_dec th : Decision (runnable th).
Proof. destruct th; apply _. Defined.

Lemma runnable_steps x msgs th0 d0 ths ds t th :
  test_ok x msgs th0 d0 ths ds → threads (core x) !! t = Some th → runnable th → ∃ x', test_step page x x'.
Proof.
  intros K Hth Hrn. pose proof (λ k th, consumer_slot _ _ _ _ _ _ k th K) as Hslot. destruct x as [c d].
  destruct K as [Ht Hc _ Hq _ Hlog _ Hp _ _ _ _ _ _]. cbn [core counts] in *.
  destruct (runnable_progress c t th) as [c' Hs']; [|done..|by eexists; apply call_step].
  exists msgs. split_and!; [done..|]. rewrite Ht. apply Forall_cons. split.
  - destruct th0; try done; by destruct Hp as [-> _].
  - apply Forall_lookup_2. intros k th' Hk. destruct (Hslot k th' Hk) as (i&_&Hok). by destruct th'.
Qed.

(** When no thread is in a call that can go on, all threads have returned. *)
Lemma idle_joined x msgs th0 d0 ths ds :
  test_ok x msgs th0 d0 ths ds → ¬ Exists runnable (threads (core x)) →
  ¬ Exists (goes_on x) (List.seq 0 (S NUM_THREADS)) → joined page x ∧ msgs = [].
Proof.
  intros K Hrn Hgo. pose proof (λ k th, consumer_slot _ _ _ _ _ _ k th K) as Hslot. destruct x as [c d]. pose proof K as [Ht Hc [Hl1 Hl2] Hq Hsz Hlog Hsh Hp Hcs Hs Hr Hn Hf Hw]. cbn [core counts] in *.
  assert (∀ t th, threads c !! t = Some th → ¬ runnable th) as Hrun.
  { intros t th Hth Hr'. apply Hrn, Exists_exists. exists th. split; [by eapply list_elem_of_lookup_2|done]. }
  assert (∀ t i, threads c !! t = Some Finished → d !! t = Some i → (limit page t ≤ i)%nat) as Hret.
  { intros t i Hth Hi. destruct (Nat.lt_ge_cases i (limit page t)) as [Hlt|]; [|done]. exfalso.
    apply Hgo, Exists_exists. exists t. split; [|unfold goes_on; cbn [core counts]; by rewrite Hth, Hi].
    apply elem_of_seq. apply lookup_lt_Some in Hi. rewrite Hc in Hi. simpl in Hi. lia. }
  assert (Forall (λ s, is_ready s = 0%nat) (zip ths ds)) as Hidle.
  { apply Forall_lookup_2. intros k [th i] Hk. apply zip_lookup in Hk as [Hth Hi].
    specialize (Hrun (S k) th). rewrite Ht in Hrun. specialize (Hrun Hth). by destruct th; try (destruct Hrun; exact I). }
  assert (sum_list_with is_ready (zip ths ds) = 0%nat) as Hready.
  { clear -Hidle. induction Hidle as [|s l Hs _ IH]; simpl; lia. }
  assert (Forall no_waiter (zip ths ds) → Forall (λ s, s.1 = Finished) (zip ths ds)) as Hfin.
  { intros Hnw. apply Forall_lookup_2. intros k [th i] Hk.
    pose proof (Forall_lookup_1 _ _ _ _ Hnw Hk) as H1. pose proof (Forall_lookup_1 _ _ _ _ Hcs Hk) as H2.
    pose proof (Forall_lookup_1 _ _ _ _ Hidle Hk) as H3. by destruct th. }
  assert (Forall (λ s, s.1 = Finished) (zip ths ds) → Forall (λ s, completed M s = M) (zip ths ds)) as Hall.
  { intros Hfi. apply Forall_lookup_2. intros k [th i] Hk. pose proof (Forall_lookup_1 _ _ _ _ Hfi Hk) as H1.
    apply zip_lookup in Hk as [Hth Hi]. cbn in H1. subst th.
    specialize (Hret (S k) i). rewrite Ht, Hc in Hret. specialize (Hret Hth Hi). cbn [limit] in Hret.
    unfold completed. cbn [fst snd]. lia. }
  assert (length (zip ths ds) = NUM_THREADS) as Hlz by (rewrite length_zip_with; lia).
  assert (Forall (λ s, completed M s = M) (zip ths ds) → length (received c) = limit page 0) as Hrec.
  { intros Ha. rewrite Hr. clear -Ha Hlz. change (limit page 0) with (NUM_THREADS * M)%nat. rewrite <- Hlz. clear Hlz.
    induction Ha as [|s l Hs _ IH]; simpl; [done|]. rewrite Hs. lia. }
  assert (length (sent c) = (length (received c) + length msgs)%nat) as Hsl by (rewrite Hlog; apply length_app).
  assert (d0 = limit page 0 ∧ th0 = Finished) as [-> ->].
  { specialize (Hrun 0%nat th0). rewrite Ht in Hrun. specialize (Hrun eq_refl).
    destruct th0 as [b|b| | | | |]; try done.
    - exfalso. destruct Hp as [_ Hlt]. cbn in Hs. specialize (Hf b eq_refl).
      destruct Hw as [Hw|Hw]; [rewrite Hready in Hw; destruct msgs; [done|simpl in Hw; lia]|].
      specialize (Hrec (Hall (Hfin Hw))). lia.
    - split; [|done]. specialize (Hret 0%nat d0). rewrite Ht, Hc in Hret. specialize (Hret eq_refl eq_refl).
      unfold publisher_ok in Hp. lia. }
  assert (length (sent c) = limit page 0) as Hsent by (rewrite Hs; unfold completed; cbn [fst snd]; lia).
  assert (msgs = []) as ->.
  { destruct Hw as [Hw|Hw]; [rewrite Hready in Hw; by destruct msgs; [|simpl in Hw; lia]|].
    specialize (Hrec (Hall (Hfin Hw))). apply nil_length_inv. lia. }
  assert (Forall (λ s, completed M s = M) (zip ths ds)) as Hfull.
  { apply sum_full; [by apply completed_le|]. rewrite <- Hr, Hlz. cbn [length] in Hsl. rewrite Nat.add_0_r in Hsl. by rewrite <- Hsl, Hsent. }
  assert (∀ k, (k < NUM_THREADS)%nat → ths !! k = Some Finished ∧ ds !! k = Some M) as Hk.
  { intros k Hk. destruct (lookup_lt_is_Some_2 ths k) as [th Hth]; [lia|]. destruct (Hslot k th Hth) as (i&Hi&Hok).
    pose proof (proj2 (zip_lookup _ _ _ _ _) (conj Hth Hi)) as Hz. pose proof (Forall_lookup_1 _ _ _ _ Hfull Hz) as H1.
    pose proof (Forall_lookup_1 _ _ _ _ Hidle Hz) as H2. specialize (Hret (S k) i). rewrite Ht, Hc in Hret.
    destruct th; try done; cbn in H1; [destruct Hok as [_ Hlt]; cbn in Hlt; lia|].
    specialize (Hret Hth Hi). cbn [limit] in Hret. unfold consumer_ok in Hok. cbn [fst snd] in Hok.
    assert (i = M) as -> by lia. done. }
  split; [|done]. unfold joined. cbn [core counts]. rewrite Ht, Hc. cbn [replicate].
  split; f_equal; apply list_eq; intros k; destruct (decide (k < NUM_THREADS)%nat) as [Hlt|Hge].
  1,3: destruct (Hk k Hlt) as [H1 H2]; rewrite ?H1, ?H2; by rewrite lookup_replicate_2.
  all: rewrite !lookup_ge_None_2; rewrite ?length_replicate; done || lia.
Qed.

(** Nothing can happen only when all threads have returned. *)
Lemma stuck_joined x msgs th0 d0 ths ds :
  test_ok x msgs th0 d0 ths ds → (∃ x', test_step page x x') ∨ joined page x ∧ msgs = [].
Proof.
  intros K. destruct (decide (Exists runnable (threads (core x)))) as [He|Hrn].
  { left. apply Exists_exists in He as (th&Hin&Hrn). apply list_elem_of_lookup in Hin as [t Hth].
    by apply (runnable_steps _ _ _ _ _ _ _ _ K Hth). }
  destruct (decide (Exists (goes_on x) (List.seq 0 (S NUM_THREADS)))) as [He|Hgo].
  { left. apply Exists_exists in He as (t&_&Hg). unfold goes_on in Hg. destruct x as [c d]. cbn [core counts] in Hg.
    destruct (threads c !! t) as [[]|] eqn:Hth; try done. destruct (d !! t) as [i|] eqn:Hi; [|done].
    eexists. apply (return_step page c d t i (next_call page t i)); [done|done| |by apply loop_next_spec].
    rewrite continues_spec by (done || lia). by rewrite bool_decide_eq_true_2. }
  right. revert K Hrn Hgo. apply idle_joined.
Qed.

Lemma steps_bounded n x y msgs th0 d0 ths ds :
  test_ok x msgs th0 d0 ths ds → nsteps (test_step page) n x y → (n ≤ measure th0 d0 ths ds)%nat.
Proof.
  intros K Hx. revert msgs th0 d0 ths ds K.
  induction Hx as [x|n x y z Hxy Hyz IH]; intros msgs th0 d0 ths ds K; [lia|].
  destruct (test_step_ok _ _ _ _ _ _ _ K Hxy) as (msgs'&th0'&d0'&ths'&ds'&K'&Hlt).
  specialize (IH _ _ _ _ _ K'). lia.
Qed.
End test.

(** ** Properties *)

Lemma started_ok page q :
  (24 ≤ page)%nat → fits page → holds q [] → size q = Z.of_nat page →
  ∃ x ths ds, started page q = Ok x ∧ test_ok page x [] (PutReady (message 0)) 0 ths ds ∧
    measure page (PutReady (message 0)) 0 ths ds = (64 * per_thread page + 9)%nat.
Proof.
  intros Hp Hf Hq Hs. exists (mk_test (initial q (PutReady (message 0) :: replicate NUM_THREADS (GetReady sizeof_size_t)))
    (replicate (S NUM_THREADS) 0%nat)), (replicate NUM_THREADS (GetReady sizeof_size_t)), (replicate NUM_THREADS 0%nat).
  assert (0 < per_thread page)%nat by (unfold per_thread; lia). split; [apply started_spec; [done|lia]|].
  split; [|unfold measure, work, completed, is_ready, is_returning, limit, NUM_THREADS; cbn -[per_thread Nat.mul]; lia].
  split; cbn [core counts threads queue sent received initial]; try done.
  - split; [done|]. unfold limit, NUM_THREADS. lia.
  - unfold NUM_THREADS. repeat constructor; cbn; lia.
  - left. simpl. lia.
Qed.

(** C13: (the test of queue.h passes) on a queue of one page, in every interleaving
    of the publisher and the eight consumers, with any choice of the threads that
    are woken and with wakeups without a signal, the threads never all wait; when
    none can go on, they have all returned, the publisher having sent its messages
    0, 1, 2, ..., which the consumers have received, each the number it was
    promised, in this order, and the queue is empty; and without wakeups that
    nobody has signalled this is so after a bounded number of steps.  All this is
    for a page whose 16-fold is an [int]; the bound of the publisher's loop
    overflows for a larger one, which is undefined behaviour in the first round. *)
Theorem queue_test_passes (page : nat) (e : init_env) (q : queue_t) :
  (24 ≤ page)%nat → Z.of_nat page < 2 ^ 31 → queue_init e (Z.of_nat page) = Ok q →
  (fits page → ∃ x0, started page q = Ok x0 ∧
     (∀ x, rtc (any_test_step page) x0 x →
        (∃ x', test_step page x x') ∨
        joined page x ∧ holds (queue (core x)) [] ∧
        sent (core x) = message <$> List.seq 0 (NUM_THREADS * per_thread page) ∧
        received (core x) = sent (core x)) ∧
     (∀ n x, nsteps (test_step page) n x0 x → (n ≤ 64 * per_thread page + 9)%nat)) ∧
  (¬ fits page → started page q = Err Undefined).
Proof.
  intros Hp Hb Hi. split; [intros Hf|apply started_overflow].
  destruct (queue_init_holds _ _ _ Hi) as [Hq Hs]; [lia..|].
  destruct (started_ok page q Hp Hf Hq Hs) as (x0&ths&ds&Hst&K&Hm). exists x0. split; [done|]. split.
  - intros x Hx. assert (good page x) as (msgs&th0&d0&ths'&ds'&K'&_).
    { assert (good page x0) as Hg by (by eexists _, _, _, _, _).
      clear -Hp Hf Hx Hg. induction Hx; [done|]. apply IHHx. by eapply any_test_step_ok. }
    destruct (stuck_joined page Hp Hf x msgs th0 d0 ths' ds' K') as [?|[Hj ->]]; [by left|right].
    split; [done|]. split; [apply K'|]. destruct Hj as [Hth Hc]. destruct K' as [Ht Hd _ _ _ Hlog _ _ _ Hsent _ Hn _ _].
    rewrite Ht in Hth. rewrite Hd in Hc. injection Hth as -> _. injection Hc as -> _.
    rewrite app_nil_r in Hlog. split; [|done]. rewrite Hn, Hsent. f_equal. unfold completed. cbn [fst snd]. f_equal. apply Nat.min_r. unfold NUM_THREADS. lia.
  - intros n x Hx. rewrite <- Hm. by eapply steps_bounded.
Qed.

Definition sample_env (page : nat) : init_env := mk_init_env (Z.of_nat page) 3 0 (Some tt) (Some tt) (Some tt) 0 0 0.
Definition sample_queue (page : nat) : queue_t :=
  mk_queue (replicate page 0) [mk_region 0 (Z.of_nat page) 0; mk_region (Z.of_nat page) (Z.of_nat page) 0] (Z.of_nat page) 3 0 0 0 0.

Lemma queue_test_passes_witness :
  ∃ x0, started 64 (sample_queue 64) = Ok x0 ∧
    (∀ x, rtc (any_test_step 64) x0 x →
       (∃ x', test_step 64 x x') ∨
       joined 64 x ∧ holds (queue (core x)) [] ∧ sent (core x) = message <$> List.seq 0 1024 ∧
       received (core x) = sent (core x)) ∧
    (∀ n x, nsteps (test_step 64) n x0 x → (n ≤ 8201)%nat).
Proof.
  refine (proj1 (queue_test_passes 64 (sample_env 64) (sample_queue 64) _ _ _) _);
    [lia|reflexivity|vm_compute; reflexivity|reflexivity].
Defined.
