(* ===== verification/KvStore.v ===== *)
(** * The shared-memory key-value store of key-value/kv.c

    A store is 256 buckets of 512 slots in shared memory; a slot holds a key of
    at most 15 and a value of at most 31 characters in fixed arrays.  A write
    shifts the bucket by one slot, so that the oldest of 512 values is dropped;
    [kv_store_read_all] returns the values of a key oldest first and
    [kv_store_read] cycles through them with a per-process cache of *pointers*
    into the bucket, which the model keeps as pointers: reading through one
    reads the current contents of the slot.  The state [kv] is one process (its
    static variables) together with the mapped store; what the shared-memory
    calls of the C library return is a record of arguments ([shm_env]). *)
From S2P Require Import Prelude.
From stdpp Require Import gmap list.
#[local] Open Scope Z_scope.
#[local] Open Scope c_scope.

Definition BUCKET_COUNT : nat := 256.
Definition BUCKET_SIZE : nat := 512.
Definition KEY_COUNT : nat := 16.
Definition KEY_SIZE : nat := 32.
Definition NAME_MAX : nat := 255.

Definition KV_OK : Z := 0.
Definition KV_ERR : Z := -1.
Definition KV_ERR_ARG : Z := -2.

(** ** C strings

    A string argument is the list of its characters (signed, non-zero) without
    the terminator; an array is the list of all its characters.  Reading past
    the end of the list reads the terminator. *)

Fixpoint until_nul (a : list Z) : list Z :=
  match a with
  | [] => []
  | c :: a => if c =? 0 then [] else c :: until_nul a
  end.

(** The array [dst] of [n] characters after [strncpy(dst, src, n)]. *)
Definition strncpy (n : nat) (src : list Z) : list Z := resize n 0 (until_nul src).

(** [strncmp(a, b, n) == 0]. *)
Fixpoint strncmp_eq (n : nat) (a b : list Z) : bool :=
  match n with
  | O => true
  | S n =>
      let x := hd 0 a in
      let y := hd 0 b in
      if negb (x =? y) then false
      else if x =? 0 then true else strncmp_eq n (tail a) (tail b)
  end.

Definition strndup (a : list Z) (n : nat) : list Z := until_nul (take n a).

(** ** Data *)

Record bucket_t := mk_bucket {
  keys : list (list Z);
  values : list (list Z);
  b_cache_valid : bool;
  b_protect : Z
}.

Record store_t := mk_store {
  buckets : list bucket_t;
  s_protect : Z;
  clients : Z;
  name : list Z
}.

(** The address of [store->buckets[b].keys[i]] or [.values[i]]. *)
Abbreviation slot := (nat * nat)%type.

Record kv := mk_kv {
  store : option store_t;
  g_fd : Z;
  cache_valid : bool;
  cache_idx : nat;
  cache_data : list (option slot);
  cache_key : option slot
}.

Definition set_store (s : option store_t) (x : kv) : kv :=
  mk_kv s (g_fd x) (cache_valid x) (cache_idx x) (cache_data x) (cache_key x).
Definition set_g_fd (fd : Z) (x : kv) : kv :=
  mk_kv (store x) fd (cache_valid x) (cache_idx x) (cache_data x) (cache_key x).
Definition set_cache (v : bool) (i : nat) (d : list (option slot)) (k : option slot) (x : kv) : kv :=
  mk_kv (store x) (g_fd x) v i d k.
Definition set_cache_idx (i : nat) (x : kv) : kv :=
  set_cache (cache_valid x) i (cache_data x) (cache_key x) x.

Definition empty_cache_data : list (option slot) := replicate (BUCKET_SIZE + 1) None.
Definition reset_cache (x : kv) : kv := set_cache false 0 empty_cache_data None x.

Definition upd_bucket (b : nat) (f : bucket_t → bucket_t) (s : store_t) : store_t :=
  mk_store (alter f b (buckets s)) (s_protect s) (clients s) (name s).
Definition set_b_protect (v : Z) (p : bucket_t) : bucket_t :=
  mk_bucket (keys p) (values p) (b_cache_valid p) v.
Definition set_b_cache_valid (v : bool) (p : bucket_t) : bucket_t :=
  mk_bucket (keys p) (values p) v (b_protect p).
Definition set_s_protect (v : Z) (s : store_t) : store_t :=
  mk_store (buckets s) v (clients s) (name s).
Definition set_clients (v : Z) (s : store_t) : store_t :=
  mk_store (buckets s) (s_protect s) v (name s).

(** Accesses through the static pointer [store]: undefined when it is NULL. *)
Definition get_store : M kv store_t := gets_some store.
Definition modify_store (f : store_t → store_t) : M kv unit :=
  s ← get_store; modify (set_store (Some (f s))).
Definition get_bucket (b : nat) : M kv bucket_t :=
  gets_some (λ x, match store x with Some s => buckets s !! b | None => None end).
Definition modify_bucket (b : nat) (f : bucket_t → bucket_t) : M kv unit :=
  get_bucket b ;; modify_store (upd_bucket b f).
Definition load_value (p : slot) : M kv (list Z) :=
  bk ← get_bucket p.1; gets_some (λ _, values bk !! p.2).
Definition load_key (p : slot) : M kv (list Z) :=
  bk ← get_bucket p.1; gets_some (λ _, keys bk !! p.2).

(** [sem_wait] and [sem_post] on the semaphores in the store. *)
Definition sem_wait_bucket (b : nat) : M kv unit :=
  p ← get_bucket b;
  if b_protect p <=? 0 then fail Blocked
  else modify_bucket b (set_b_protect (b_protect p - 1)).
Definition sem_post_bucket (b : nat) : M kv unit :=
  p ← get_bucket b;
  modify_bucket b (set_b_protect (b_protect p + 1)).
Definition sem_wait_store : M kv unit :=
  s ← get_store;
  if s_protect s <=? 0 then fail Blocked
  else modify_store (set_s_protect (s_protect s - 1)).
Definition sem_post_store : M kv unit :=
  s ← get_store;
  modify_store (set_s_protect (s_protect s + 1)).

(** ** hash *)

Definition hash_step (val c : Z) : Z :=
  let val := Z.rem val (2 ^ 24) in
  i32 (i32 (i32 (Z.shiftl val 5) + val) + c).

Definition hash (word : list Z) (max : Z) : Z :=
  let val := fold_left hash_step (until_nul word) 5381 in
  if Z.rem val max <? 0 then Z.rem (i32 (- val)) max else Z.rem val max.

Definition bucket_index (key : list Z) : nat := Z.to_nat (hash key (Z.of_nat BUCKET_COUNT)).

(** ** kv_store_write *)

(** The two copy loops: all slots into local arrays, then back one slot up. *)
Definition shift_array (n : nat) (a : list (list Z)) (new : list Z) : list (list Z) :=
  let local := strncpy n <$> take BUCKET_SIZE a in
  let shifted := take 1 a ++ (strncpy n <$> take (BUCKET_SIZE - 1) local) in
  <[0%nat := <[(n - 1)%nat := 0]> (strncpy n new)]> shifted.

Definition write_bucket (key value : list Z) (p : bucket_t) : bucket_t :=
  mk_bucket (shift_array KEY_COUNT (keys p) key) (shift_array KEY_SIZE (values p) value)
    (b_cache_valid p) (b_protect p).

Definition kv_store_write (key value : option (list Z)) : M kv Z :=
  x ← gets id;
  match key, value, store x with
  | Some key, Some value, Some _ =>
      if (length (until_nul key) <? 1)%nat then ret (-1)
      else
        let i := bucket_index key in
        sem_wait_bucket i ;;
        modify_bucket i (set_b_cache_valid false) ;;
        modify (set_cache false 0 empty_cache_data None) ;;
        modify_bucket i (write_bucket key value) ;;
        sem_post_bucket i ;;
        ret 0
  | _, _, _ => ret (-1)
  end.

(** ** kv_store_read and kv_store_read_all *)

(** The slots whose key matches, oldest first:
    [for (i = 0; i < BUCKET_SIZE; i++) if (!strncmp(p->keys[BUCKET_SIZE - i - 1], ...))]. *)
Definition matching_slots (p : bucket_t) (key : list Z) : list nat :=
  filter (λ j, strncmp_eq KEY_COUNT (default [] (keys p !! j)) key = true)
    (reverse (seq 0 BUCKET_SIZE)).

(** [cache_data[l++] = ...] for the slots [js]. *)
Definition fill_cache (b : nat) (js : list nat) (d : list (option slot)) : list (option slot) :=
  let filled := ((λ j, Some (b, j)) <$> js) ++ drop (length js) d in
  <[length js := None]> filled.

Definition kv_store_read (key : option (list Z)) : M kv (option (list Z)) :=
  x ← gets id;
  match key, store x with
  | Some key, Some _ =>
      let k := bucket_index key in
      sem_wait_bucket k ;;
      p ← get_bucket k;
      x ← gets id;
      hit ← (if b_cache_valid p && cache_valid x then
               ck ← gets_some cache_key;
               ckey ← load_key ck;
               ret (strncmp_eq KEY_COUNT ckey key)
             else ret false);
      r ← (if hit : bool then
             d ← gets_some (λ x, cache_data x !! cache_idx x);
             match d with
             | None => modify (set_cache_idx 0) ;; ret None
             | Some v =>
                 modify (set_cache_idx (cache_idx x + 1)) ;;
                 a ← load_value v;
                 ret (Some (strndup a KEY_SIZE))
             end
           else
             modify_bucket k (set_b_cache_valid true) ;;
             let js := matching_slots p key in
             let ck := match last js with Some j => Some (k, j) | None => cache_key x end in
             modify (set_cache true 0 (fill_cache k js (cache_data x)) ck) ;;
             match js with
             | [] => ret None
             | _ :: _ =>
                 modify (set_cache_idx 1) ;;
                 d ← gets_some (λ x, match cache_data x !! 0%nat with
                                     | Some (Some v) => Some v | _ => None end);
                 a ← load_value d;
                 ret (Some (strndup a KEY_SIZE))
             end);
      sem_post_bucket k ;;
      ret r
  | _, _ => ret None
  end.

Definition kv_store_read_all (key : option (list Z)) : M kv (option (list (list Z))) :=
  x ← gets id;
  match key, store x with
  | Some key, Some _ =>
      let k := bucket_index key in
      sem_wait_bucket k ;;
      p ← get_bucket k;
      let js := matching_slots p key in
      let vs := (λ j, strndup (default [] (values p !! j)) KEY_SIZE) <$> js in
      sem_post_bucket k ;;
      match vs with [] => ret None | _ => ret (Some vs) end
  | _, _ => ret None
  end.

(** ** Creating, attaching and destroying a store *)

(** What the calls of the C library return: [shm_open] for the existence test
    and for the store, [ftruncate], the object [mmap] finds ([None] for
    MAP_FAILED), [fstat] with the size it reports, [munmap] and [shm_unlink];
    and [sizeof(store_t)]. *)
Record shm_env := mk_shm_env {
  open_exists : Z;
  open_store : Z;
  ftruncate : Z;
  mmap : option store_t;
  fstat : Z;
  st_size : Z;
  munmap : Z;
  shm_unlink : Z;
  sizeof_store_t : Z
}.

(** Returns the status and the descriptor stored into [*fd], if it is. *)
Definition sm_create (nm : option (list Z)) (shm_open : Z) (clear : bool) (ftruncate : Z)
  : Z * option Z :=
  match nm with
  | None => (KV_ERR_ARG, None)
  | Some _ =>
      if shm_open =? -1 then (KV_ERR, Some (-1))
      else if clear && (ftruncate =? -1) then (KV_ERR, Some shm_open)
      else (KV_OK, Some shm_open)
  end.

Definition sm_exists (nm : option (list Z)) (e : shm_env) : Z :=
  fst (sm_create nm (open_exists e) false (ftruncate e)).

Definition sm_attach (e : shm_env) : M kv Z :=
  modify (set_store (mmap e)) ;;
  match mmap e with None => ret KV_ERR | Some _ => ret KV_OK end.

Definition sm_detach (e : shm_env) : M kv Z :=
  if munmap e =? -1 then ret KV_ERR
  else modify (set_store None) ;; ret KV_OK.

Definition sm_close (nm : list Z) (e : shm_env) : M kv Z :=
  if shm_unlink e =? -1 then ret KV_ERR else ret KV_OK.

(** The body of the loop of [kv_store_create] for one bucket. *)
Definition clear_bucket (p : bucket_t) : bucket_t :=
  mk_bucket (const (replicate KEY_COUNT 0) <$> keys p)
            (const (replicate KEY_SIZE 0) <$> values p) false 1.

Definition kv_store_create (nm : option (list Z)) (e : shm_env) : M kv Z :=
  x ← gets id;
  match store x with
  | Some _ => ret 0
  | None =>
      let clear := negb (sm_exists nm e =? KV_OK) in
      let (r, fd) := sm_create nm (open_store e) clear (ftruncate e) in
      modify (set_g_fd (default (g_fd x) fd)) ;;
      if negb (r =? KV_OK) then ret (-1)
      else
        r ← sm_attach e;
        if negb (r =? KV_OK) then ret (-1)
        else
          (if clear then
             modify_store (set_s_protect 1) ;;
             modify_store (λ s, mk_store (buckets s) (s_protect s) (clients s)
               (<[(NAME_MAX - 1)%nat := 0]> (strncpy NAME_MAX (default [] nm)))) ;;
             modify_store (set_clients 0) ;;
             modify_store (λ s, mk_store (clear_bucket <$> buckets s) (s_protect s)
                                  (clients s) (name s)) ;;
             modify reset_cache
           else ret tt) ;;
          sem_wait_store ;;
          massert (negb (fstat e =? 0) || (st_size e =? sizeof_store_t e)) ;;
          s ← get_store;
          modify_store (set_clients (clients s + 1)) ;;
          sem_post_store ;;
          ret 0
  end.

Definition kv_store_destroy (nm : option (list Z)) (e : shm_env) : M kv Z :=
  x ← gets id;
  match store x, nm with
  | Some _, Some nm =>
      modify reset_cache ;;
      sem_wait_store ;;
      s ← get_store;
      if negb (strncmp_eq (NAME_MAX - 1) (name s) nm) then
        sem_post_store ;;
        ret (-1)
      else
        modify_store (set_clients (clients s - 1)) ;;
        let cl := clients s - 1 in
        sem_post_store ;;
        (* cl < 1: the semaphores are destroyed; nobody uses them afterwards *)
        r ← sm_detach e;
        if negb (r =? KV_OK) then ret (-1)
        else
          modify (set_store None) ;;
          if cl <? 1 then
            r ← sm_close nm e;
            if negb (r =? KV_OK) then ret (-1) else ret 0
          else ret 0
  | _, _ => ret (-1)
  end.

Definition kv_delete_db (e : shm_env) : M kv Z :=
  x ← gets id;
  match store x with
  | None => ret (-1)
  | Some _ =>
      sem_wait_store ;;
      s ← get_store;
      let n := strncpy NAME_MAX (name s) in
      sem_post_store ;;
      kv_store_destroy (Some n) e
  end.

(** ** Abstract contents

    A history is the list of all writes, newest first.  [chars n s] is what an
    array of [n] characters keeps of the string [s]. *)

Abbreviation entry := (list Z * list Z)%type.

Definition chars (n : nat) (s : list Z) : list Z := take (n - 1) (until_nul s).
Definition pad (n : nat) (s : list Z) : list Z := resize n 0 (chars n s).

(** The entries of one bucket, padded with empty ones to its 512 slots. *)
Definition slots_of (h : list entry) : list entry := resize BUCKET_SIZE ([], []) h.

Definition bucket_holds (p : bucket_t) (h : list entry) : Prop :=
  keys p = (λ e, pad KEY_COUNT e.1) <$> slots_of h ∧
  values p = (λ e, pad KEY_SIZE e.2) <$> slots_of h ∧ b_protect p = 1.

Definition bucket_history (b : nat) (hist : list entry) : list entry :=
  filter (λ e, bucket_index e.1 = b) hist.

Definition store_holds (s : store_t) (hist : list entry) : Prop :=
  s_protect s = 1 ∧ length (buckets s) = BUCKET_COUNT ∧
  ∀ b p, buckets s !! b = Some p → bucket_holds p (bucket_history b hist).

Definition kv_holds (x : kv) (hist : list entry) : Prop :=
  (∃ s, store x = Some s ∧ store_holds s hist) ∧
  length (cache_data x) = S BUCKET_SIZE.

(** Whether the key kept in a slot compares equal to the argument [key]. *)
Definition entry_matches (key : list Z) (e : entry) : Prop :=
  chars KEY_COUNT e.1 = take KEY_COUNT (until_nul key).

#[export] Instance entry_matches_dec key e : Decision (entry_matches key e).
Proof. unfold entry_matches. apply _. Defined.

(** The values the store keeps for [key], oldest first: those of the last 512
    writes to its bucket that carry the key. *)
Definition stored_values (hist : list entry) (key : list Z) : list (list Z) :=
  (λ e, chars KEY_SIZE e.2) <$>
    reverse (filter (entry_matches key) (take BUCKET_SIZE (bucket_history (bucket_index key) hist))).

(** Sequences of calls. *)
Fixpoint kv_writes (ws : list entry) : M kv unit :=
  match ws with
  | [] => ret tt
  | (k, v) :: ws => r ← kv_store_write (Some k) (Some v); massert (r =? 0) ;; kv_writes ws
  end.

Fixpoint kv_reads (n : nat) (key : list Z) : M kv (list (option (list Z))) :=
  match n with
  | O => ret []
  | S n => r ← kv_store_read (Some key); rs ← kv_reads n key; ret (r :: rs)
  end.

(** The array sizes stay folded in the proofs. *)
Lemma BUCKET_SIZE_eq : BUCKET_SIZE = 512%nat.
Proof. done. Qed.
Lemma KEY_COUNT_eq : KEY_COUNT = 16%nat.
Proof. done. Qed.
Lemma KEY_SIZE_eq : KEY_SIZE = 32%nat.
Proof. done. Qed.

#[local] Opaque BUCKET_SIZE BUCKET_COUNT KEY_COUNT KEY_SIZE NAME_MAX.

(** ** Lemmas on strings *)

Section strings.
Implicit Types (s t : list Z) (n : nat).

Definition no_nul s : Prop := Forall (λ c, c ≠ 0) s.

Lemma until_nul_no_nul s : no_nul (until_nul s).
Proof.
  induction s as [|c s IH]; simpl; [by apply Forall_nil|].
  case_bool (c =? 0) as Hc; [by apply Forall_nil|]. by apply Forall_cons.
Qed.

Lemma until_nul_app_nul s t : no_nul s → until_nul (s ++ 0 :: t) = s.
Proof.
  induction 1 as [|c s Hc _ IH]; simpl; [done|].
  rewrite (proj2 (Z.eqb_neq _ _)) by done. by rewrite IH.
Qed.

Lemma until_nul_id s : no_nul s → until_nul s = s.
Proof.
  induction 1 as [|c s Hc _ IH]; simpl; [done|].
  rewrite (proj2 (Z.eqb_neq _ _)) by done. by rewrite IH.
Qed.

Lemma no_nul_take n s : no_nul s → no_nul (take n s).
Proof. apply Forall_take. Qed.

Lemma until_nul_resize n s : no_nul s → until_nul (resize n 0 s) = take n s.
Proof.
  intros Hs. destruct (decide (length s < n)%nat) as [Hlt|Hge].
  - rewrite resize_ge, take_ge by lia.
    destruct (n - length s)%nat as [|k] eqn:Hk; [lia|]. simpl. by apply until_nul_app_nul.
  - rewrite resize_le by lia. apply until_nul_id. by apply no_nul_take.
Qed.

Lemma chars_no_nul n s : no_nul (chars n s).
Proof. apply no_nul_take, until_nul_no_nul. Qed.

Lemma chars_length n s : (length (chars n s) ≤ n - 1)%nat.
Proof. unfold chars. rewrite length_take. lia. Qed.

Lemma until_nul_pad n s : until_nul (pad n s) = chars n s.
Proof.
  unfold pad. rewrite until_nul_resize by apply chars_no_nul.
  apply take_ge. pose proof (chars_length n s). lia.
Qed.

Lemma strncpy_pad n s : strncpy n (pad n s) = pad n s.
Proof. unfold strncpy. by rewrite until_nul_pad. Qed.

Lemma strncpy_terminated n s : (0 < n)%nat → <[(n - 1)%nat := 0]> (strncpy n s) = pad n s.
Proof.
  intros Hn. unfold strncpy, pad, chars. set (t := until_nul s). apply list_eq. intros i.
  destruct (decide (i = n - 1)%nat) as [->|Hi].
  - rewrite list_lookup_insert_eq by (rewrite length_resize; lia).
    by rewrite lookup_resize_new by (rewrite ?length_take; lia).
  - rewrite list_lookup_insert_ne by lia.
    destruct (decide (i < n)%nat); [|by rewrite !lookup_resize_old by lia].
    destruct (decide (i < length t)%nat).
    + rewrite !lookup_resize by (rewrite ?length_take; lia). by rewrite lookup_take_lt by lia.
    + by rewrite !lookup_resize_new by (rewrite ?length_take; lia).
Qed.

Lemma strncmp_eq_spec n s t :
  strncmp_eq n s t = bool_decide (take n (until_nul s) = take n (until_nul t)).
Proof.
  revert s t. induction n as [|n IH]; intros s t; cbn [strncmp_eq]; [done|].
  assert (Hcons : ∀ (c : Z) (u v : list Z), bool_decide (c :: u = c :: v) = bool_decide (u = v))
    by (intros; apply bool_decide_ext; naive_solver).
  destruct s as [|c s], t as [|d t]; cbn [hd tail until_nul].
  - done.
  - rewrite Z.eqb_sym. case_bool (d =? 0) as Hd; simpl; done.
  - case_bool (c =? 0) as Hc; simpl; done.
  - case_bool (c =? d) as Hcd; [subst d|]; simpl.
    + case_bool (c =? 0) as Hc; [done|]. simpl. by rewrite Hcons, IH.
    + case_bool (c =? 0) as Hc; case_bool (d =? 0) as Hd; simpl;
        first [congruence | symmetry; apply bool_decide_eq_false; naive_solver].
Qed.

Lemma strncmp_pad e key :
  strncmp_eq KEY_COUNT (pad KEY_COUNT e) key = bool_decide (chars KEY_COUNT e = take KEY_COUNT (until_nul key)).
Proof.
  pose proof (chars_length KEY_COUNT e).
  rewrite strncmp_eq_spec, until_nul_pad, (take_ge (chars _ _)) by lia. done.
Qed.

Lemma strndup_pad s : strndup (pad KEY_SIZE s) KEY_SIZE = chars KEY_SIZE s.
Proof.
  unfold strndup. rewrite take_ge; [apply until_nul_pad|].
  unfold pad. by rewrite length_resize.
Qed.
End strings.

(** ** Lemmas on buckets *)

(** Selecting list elements by index, oldest first, is filtering the reversed
    list. *)
Lemma filter_indices {A} (P : A → Prop) `{∀ a, Decision (P a)} (d : A) (l : list A) :
  (λ j, default d (l !! j)) <$> filter (λ j, P (default d (l !! j))) (reverse (seq 0 (length l)))
  = reverse (filter P l).
Proof.
  rewrite filter_reverse, fmap_reverse. f_equal. induction l as [|a l IH]; [done|].
  cbn [length seq]. rewrite <- fmap_S_seq, filter_cons, filter_cons. simpl.
  assert (filter (λ j, P (default d ((a :: l) !! j))) (S <$> seq 0 (length l)) =
    S <$> filter (λ j, P (default d (l !! j))) (seq 0 (length l))) as Hs
    by (rewrite filter_fmap; done).
  destruct (decide (P a)); simpl; rewrite Hs, <- list_fmap_compose; [f_equal|]; exact IH.
Qed.

Section bucket.
Implicit Types (p : bucket_t) (h : list entry) (key value : list Z).

Lemma length_slots h : length (slots_of h) = BUCKET_SIZE.
Proof. apply length_resize. Qed.

Lemma slots_cons e h : slots_of (e :: h) = e :: take (BUCKET_SIZE - 1) (slots_of h).
Proof.
  unfold slots_of. pose proof BUCKET_SIZE_eq. rewrite take_resize_le by lia.
  destruct BUCKET_SIZE; [lia|]. simpl. by rewrite Nat.sub_0_r.
Qed.

Lemma shift_array_pad n (f : entry → list Z) h s :
  (0 < n)%nat →
  shift_array n ((λ e, pad n (f e)) <$> slots_of h) s =
  pad n s :: ((λ e, pad n (f e)) <$> take (BUCKET_SIZE - 1) (slots_of h)).
Proof.
  intros Hn. unfold shift_array. rewrite strncpy_terminated by done.
  rewrite <- (fmap_take (strncpy n)), take_take, <- !fmap_take, <- !list_fmap_compose.
  rewrite (list_fmap_ext (_ ∘ _) (λ e, pad n (f e))) by (intros; simpl; by rewrite !strncpy_pad).
  rewrite (Nat.min_l (BUCKET_SIZE - 1)) by lia.
  destruct (slots_of h) as [|e l] eqn:Hl; [|done].
  pose proof (length_slots h) as H. by rewrite Hl, BUCKET_SIZE_eq in H.
Qed.

Lemma write_bucket_holds p h key value :
  bucket_holds p h → bucket_holds (write_bucket key value p) ((key, value) :: h).
Proof.
  intros (Hk&Hv&Hp). unfold bucket_holds. rewrite slots_cons. simpl.
  rewrite Hk, Hv, (shift_array_pad _ fst), (shift_array_pad _ snd) by (rewrite ?KEY_COUNT_eq, ?KEY_SIZE_eq; lia).
  done.
Qed.

(** A non-empty key matches no padding entry. *)
Lemma filter_slots key h :
  until_nul key ≠ [] →
  filter (entry_matches key) (slots_of h) = filter (entry_matches key) (take BUCKET_SIZE h).
Proof.
  intros Hkey. unfold slots_of.
  destruct (decide (length h < BUCKET_SIZE)%nat) as [Hlt|Hge].
  - rewrite resize_ge, take_ge, filter_app by lia.
    assert (filter (entry_matches key) (replicate (BUCKET_SIZE - length h) ([], [])) = []) as ->;
      [|by rewrite app_nil_r].
    induction (BUCKET_SIZE - length h)%nat as [|m IH]; [done|]. simpl.
    rewrite filter_cons_False; [done|]. unfold entry_matches. simpl. intros Heq.
    destruct (until_nul key); [done|]. by rewrite KEY_COUNT_eq in Heq.
  - by rewrite resize_le by lia.
Qed.

(** The slots [kv_store_read] and [kv_store_read_all] select. *)
Lemma matching_entries p h key :
  bucket_holds p h →
  matching_slots p key =
    filter (λ j, entry_matches key (default ([], []) (slots_of h !! j))) (reverse (seq 0 BUCKET_SIZE)).
Proof.
  intros (Hk&_). unfold matching_slots. apply list_filter_iff. intros j.
  rewrite Hk, list_lookup_fmap. destruct (slots_of h !! j) as [e|]; simpl.
  - by rewrite strncmp_pad, bool_decide_eq_true.
  - by rewrite strncmp_eq_spec, bool_decide_eq_true.
Qed.

Lemma matching_values p h key :
  bucket_holds p h → until_nul key ≠ [] →
  (λ j, strndup (default [] (values p !! j)) KEY_SIZE) <$> matching_slots p key =
  (λ e, chars KEY_SIZE e.2) <$> reverse (filter (entry_matches key) (take BUCKET_SIZE h)).
Proof.
  intros Hp Hkey. rewrite (matching_entries p h key Hp), <- (filter_slots key h Hkey).
  rewrite <- (filter_indices (entry_matches key) ([], []) (slots_of h)), length_slots.
  rewrite <- list_fmap_compose. apply list_fmap_ext. intros _ j _. simpl.
  destruct Hp as (_&Hv&_). rewrite Hv, list_lookup_fmap.
  by destruct (slots_of h !! j) as [e|]; simpl; rewrite ?strndup_pad.
Qed.

Lemma matching_slots_lt p key j : j ∈ matching_slots p key → (j < BUCKET_SIZE)%nat.
Proof.
  unfold matching_slots. rewrite list_elem_of_filter, elem_of_reverse, elem_of_seq. lia.
Qed.
End bucket.

(** ** The hash function *)

Section hashing.
Implicit Types (val c max : Z) (word : list Z).

(** The step over the integers, without any wrap-around. *)
Definition hash_step_exact (val c : Z) : Z := 33 * Z.rem val (2 ^ 24) + c.

Definition is_char (c : Z) : Prop := -128 ≤ c ≤ 127.

Lemma hash_step_no_overflow val c :
  is_char c → hash_step val c = hash_step_exact val c ∧
    - (34 * 2 ^ 24) < hash_step_exact val c < 34 * 2 ^ 24.
Proof.
  intros Hc. unfold hash_step, hash_step_exact, is_char in *. cbv zeta.
  pose proof (Z.rem_bound_abs val (2 ^ 24) ltac:(lia)) as Hr.
  rewrite Z.shiftl_mul_pow2 by lia. set (r := Z.rem val (2 ^ 24)) in *. clearbody r.
  rewrite (wraps_small 32 (r * 2 ^ 5)), (wraps_small 32 (_ + r)), wraps_small by lia. lia.
Qed.

Lemma fold_left_cons (f : Z → Z → Z) c word val :
  fold_left f (c :: word) val = fold_left f word (f val c).
Proof. done. Qed.

Lemma hash_fold word val :
  Forall is_char word → - (34 * 2 ^ 24) < val < 34 * 2 ^ 24 →
  fold_left hash_step word val = fold_left hash_step_exact word val ∧
  - (34 * 2 ^ 24) < fold_left hash_step word val < 34 * 2 ^ 24.
Proof.
  intros Hw. revert val. induction Hw as [|c word Hc _ IH]; intros val Hv; rewrite ?fold_left_cons; [done|].
  destruct (hash_step_no_overflow val c Hc) as [-> Hb]. by apply IH.
Qed.

Lemma rem_fold_range v max :
  0 < max → - 2 ^ 31 < v < 2 ^ 31 →
  0 ≤ (if Z.rem v max <? 0 then Z.rem (i32 (- v)) max else Z.rem v max) < max.
Proof.
  intros Hm Hv. pose proof (Z.rem_bound_abs v max ltac:(lia)).
  case_bool (Z.rem v max <? 0) as Hlt; [|lia].
  rewrite wraps_small by lia. rewrite Z.rem_opp_l by lia. lia.
Qed.

Lemma until_nul_chars word : Forall is_char word → Forall is_char (until_nul word).
Proof.
  induction 1 as [|c word Hc _ IH]; simpl; [by apply Forall_nil|].
  case_match; [by apply Forall_nil|by apply Forall_cons].
Qed.

Lemma i32_fold_range word val :
  - 2 ^ 31 ≤ val < 2 ^ 31 → - 2 ^ 31 ≤ fold_left hash_step word val < 2 ^ 31.
Proof.
  revert val. induction word as [|c word IH]; intros val Hv; rewrite ?fold_left_cons; [done|].
  apply IH. unfold hash_step. cbv zeta. set (z := (_ + c)). clearbody z.
  pose proof (wraps_bound 32 z ltac:(lia)). lia.
Qed.

(** The index is in the bucket array even for arguments that are no characters. *)
Lemma bucket_index_lt key : (bucket_index key < BUCKET_COUNT)%nat.
Proof.
  unfold bucket_index, hash. change (Z.of_nat BUCKET_COUNT) with 256.
  pose proof (i32_fold_range (until_nul key) 5381 ltac:(lia)) as Hv.
  set (v := fold_left _ _ _) in *. clearbody v. change BUCKET_COUNT with 256%nat.
  destruct (decide (v = - 2 ^ 31)) as [->|Hne]; [vm_compute; lia|].
  pose proof (rem_fold_range v 256). cbv zeta in *. lia.
Qed.
End hashing.

(** ** Executing the handlers *)

Definition put_bucket (b : nat) (p : bucket_t) (s : store_t) : store_t :=
  mk_store (<[b := p]> (buckets s)) (s_protect s) (clients s) (name s).

Section execution.
Implicit Types (s : store_t) (p : bucket_t) (x : kv).
Context {B : Type}.

Lemma put_bucket_id b p s : buckets s !! b = Some p → put_bucket b p s = s.
Proof. intros H. unfold put_bucket. rewrite list_insert_id by done. by destruct s. Qed.

Lemma put_bucket_lookup b p s :
  (b < length (buckets s))%nat → buckets (put_bucket b p s) !! b = Some p.
Proof. intros H. by apply list_lookup_insert_eq. Qed.

Lemma upd_put_bucket b f p s :
  (b < length (buckets s))%nat → upd_bucket b f (put_bucket b p s) = put_bucket b (f p) s.
Proof.
  intros H. unfold upd_bucket, put_bucket. simpl. f_equal.
  apply list_eq. intros i. destruct (decide (i = b)) as [->|Hne].
  - by rewrite list_lookup_alter_eq, !list_lookup_insert_eq.
  - by rewrite list_lookup_alter_ne, !list_lookup_insert_ne by done.
Qed.

Variables (b : nat) (p : bucket_t) (s : store_t).
Variables (fd : Z) (v : bool) (i : nat) (d : list (option slot)) (k : option slot).
Hypothesis Hb : (b < length (buckets s))%nat.
Let x := mk_kv (Some (put_bucket b p s)) fd v i d k.

Lemma get_bucket_run (f : bucket_t → M kv B) : bind (get_bucket b) f x = f p x.
Proof. apply bind_ok, gets_some_ok. by apply put_bucket_lookup. Qed.

Lemma modify_bucket_ok g :
  modify_bucket b g x = Ok (tt, mk_kv (Some (put_bucket b (g p) s)) fd v i d k).
Proof.
  unfold modify_bucket, get_bucket, bind. rewrite (gets_some_ok _ x p) by (by apply put_bucket_lookup).
  cbn. by rewrite upd_put_bucket.
Qed.

Lemma modify_bucket_run g (f : unit → M kv B) :
  bind (modify_bucket b g) f x = f tt (mk_kv (Some (put_bucket b (g p) s)) fd v i d k).
Proof. apply bind_ok, modify_bucket_ok. Qed.

Lemma sem_wait_run (f : unit → M kv B) :
  b_protect p = 1 →
  bind (sem_wait_bucket b) f x =
  f tt (mk_kv (Some (put_bucket b (set_b_protect 0 p) s)) fd v i d k).
Proof.
  intros Hp. apply bind_ok. unfold sem_wait_bucket, get_bucket, bind.
  rewrite (gets_some_ok _ x p) by (by apply put_bucket_lookup). rewrite Hp. simpl.
  by rewrite modify_bucket_ok.
Qed.

Lemma sem_post_run (f : unit → M kv B) :
  b_protect p = 0 →
  bind (sem_post_bucket b) f x =
  f tt (mk_kv (Some (put_bucket b (set_b_protect 1 p) s)) fd v i d k).
Proof.
  intros Hp. apply bind_ok. unfold sem_post_bucket, get_bucket, bind.
  rewrite (gets_some_ok _ x p) by (by apply put_bucket_lookup). rewrite Hp. simpl.
  by rewrite modify_bucket_ok.
Qed.
End execution.


Section contents.
Implicit Types (s : store_t) (p : bucket_t) (x : kv) (hist : list entry) (key value : list Z).

Lemma kv_bucket s hist key :
  store_holds s hist →
  (bucket_index key < length (buckets s))%nat ∧
  ∃ p, buckets s !! bucket_index key = Some p ∧
       bucket_holds p (bucket_history (bucket_index key) hist) ∧
       s = put_bucket (bucket_index key) p s.
Proof.
  intros (_&Hlen&Hb). pose proof (bucket_index_lt key). split; [lia|].
  destruct (lookup_lt_is_Some_2 (buckets s) (bucket_index key)) as [p Hp]; [lia|].
  exists p. split_and!; [done|by apply Hb|]. by rewrite put_bucket_id.
Qed.

Lemma store_holds_put s hist hist' b p :
  store_holds s hist → bucket_holds p (bucket_history b hist') →
  (∀ c, c ≠ b → bucket_history c hist' = bucket_history c hist) →
  store_holds (put_bucket b p s) hist'.
Proof.
  intros (Hs&Hlen&Hb) Hp Hother. split_and!; [done|by simpl; rewrite length_insert|].
  intros c q. simpl. intros [(<-&<-&_)|[Hne Hq]]%list_lookup_insert_Some; [done|].
  rewrite Hother by done. by apply Hb.
Qed.

Lemma bucket_history_cons b key value hist :
  bucket_history b ((key, value) :: hist) =
  if decide (bucket_index key = b) then (key, value) :: bucket_history b hist
  else bucket_history b hist.
Proof. unfold bucket_history. by rewrite filter_cons. Qed.

Lemma set_b_protect_holds p h : bucket_holds p h → set_b_protect 1 (set_b_protect 0 p) = p.
Proof. intros (_&_&Hp). destruct p. simpl in *. by subst. Qed.

Lemma until_nul_length key : until_nul key ≠ [] → (length (until_nul key) <? 1)%nat = false.
Proof. intros H. apply Nat.ltb_ge. destruct (until_nul key); simpl; [done|lia]. Qed.

Lemma kv_store_write_ok key value x hist :
  until_nul key ≠ [] → kv_holds x hist →
  ∃ x', kv_store_write (Some key) (Some value) x = Ok (0, x') ∧
    kv_holds x' ((key, value) :: hist) ∧
    cache_valid x' = false ∧ cache_key x' = None ∧ g_fd x' = g_fd x.
Proof.
  intros Hkey [(s&Hx&Hs) Hd]. destruct x as [st fd v i d k]. simpl in *. subst st.
  destruct (kv_bucket s hist key Hs) as (Hlt&p&Hp&Hh&Heq).
  unfold kv_store_write. rewrite (bind_ok _ _ _ _ _ (gets_run _ _)). cbn [id store].
  rewrite until_nul_length by done. set (b := bucket_index key) in *.
  assert (mk_kv (Some s) fd v i d k = mk_kv (Some (put_bucket b p s)) fd v i d k) as -> by congruence.
  rewrite sem_wait_run by (done || apply Hh). rewrite modify_bucket_run by done.
  rewrite (bind_ok _ _ _ _ _ (modify_run _ _)). unfold set_cache. cbn [store g_fd].
  rewrite modify_bucket_run by done. rewrite sem_post_run by done.
  eexists. split; [reflexivity|]. split_and!; [|done..]. split; simpl.
  - eexists. split; [done|]. apply (store_holds_put s hist); [done| |].
    + rewrite bucket_history_cons, decide_True by done.
      destruct (write_bucket_holds p _ key value Hh) as (?&?&_). by split_and!.
    + intros c Hc. by rewrite bucket_history_cons, decide_False.
  - unfold empty_cache_data. rewrite length_replicate. lia.
Qed.

Lemma kv_writes_ok ws x hist :
  Forall (λ e, until_nul e.1 ≠ []) ws → kv_holds x hist →
  ∃ x', kv_writes ws x = Ok (tt, x') ∧ kv_holds x' (reverse ws ++ hist) ∧
    (ws ≠ [] → cache_valid x' = false).
Proof.
  intros Hws. revert x hist. induction Hws as [|[key value] ws Hk _ IH]; intros x hist Hx.
  - exists x. split_and!; done.
  - destruct (kv_store_write_ok key value x hist Hk Hx) as (x1&Hr&Hx1&Hv&_).
    destruct (IH x1 _ Hx1) as (x2&Hr2&Hx2&Hv2). exists x2. split_and!.
    + cbn [kv_writes]. by rewrite (bind_ok _ _ _ _ _ Hr).
    + by rewrite reverse_cons, <- app_assoc.
    + intros _. destruct ws; [|by apply Hv2]. simpl in Hr2. by injection Hr2 as <-.
Qed.

Lemma kv_store_read_all_ok key x hist :
  until_nul key ≠ [] → kv_holds x hist →
  kv_store_read_all (Some key) x =
    Ok (match stored_values hist key with [] => None | vs => Some vs end, x).
Proof.
  intros Hkey [(s&Hx&Hs) Hd]. destruct x as [st fd v i d k]. simpl in *. subst st.
  destruct (kv_bucket s hist key Hs) as (Hlt&p&Hp&Hh&Heq).
  unfold kv_store_read_all. rewrite (bind_ok _ _ _ _ _ (gets_run _ _)). cbn [id store].
  unfold stored_values. rewrite <- (matching_values p _ key Hh Hkey).
  set (b := bucket_index key) in *.
  assert (mk_kv (Some s) fd v i d k = mk_kv (Some (put_bucket b p s)) fd v i d k) as -> by congruence.
  rewrite sem_wait_run by (done || apply Hh). rewrite get_bucket_run by done.
  rewrite sem_post_run by done.
  rewrite (set_b_protect_holds p _ Hh), <- Heq. by destruct (fmap _ _).
Qed.
End contents.


(** ** The read cache *)

(** What consecutive reads of a key return: its values, then NULL, and again. *)
Definition read_cycle (hist : list entry) (key : list Z) : list (option (list Z)) :=
  (Some <$> stored_values hist key) ++ [None].

(** The cache has been filled for [key] and stands at its entry [c]. *)
Definition reading (hist : list entry) (key : list Z) (c : nat) (x : kv) : Prop :=
  ∃ s p d fd, let b := bucket_index key in let js := matching_slots p key in
    store_holds s hist ∧ buckets s !! b = Some p ∧
    bucket_holds p (bucket_history b hist) ∧ b_cache_valid p = true ∧
    length d = S BUCKET_SIZE ∧ js ≠ [] ∧ (c ≤ length js)%nat ∧
    x = mk_kv (Some s) fd true c (fill_cache b js d) ((λ j, (b, j)) <$> last js).

Section reading.
Implicit Types (s : store_t) (p : bucket_t) (x : kv) (hist : list entry) (key : list Z).

Lemma matching_slots_length p key : (length (matching_slots p key) ≤ BUCKET_SIZE)%nat.
Proof.
  unfold matching_slots. etrans; [apply length_filter|].
  by rewrite length_reverse, length_seq.
Qed.

Lemma fill_cache_lookup b js d c :
  (length js < length d)%nat → (c ≤ length js)%nat →
  fill_cache b js d !! c = Some ((λ j, (b, j)) <$> js !! c).
Proof.
  intros Hd Hc. unfold fill_cache. destruct (decide (c = length js)) as [->|Hne].
  - rewrite list_lookup_insert_eq by (rewrite length_app, length_fmap, length_drop; lia).
    by rewrite lookup_ge_None_2.
  - rewrite list_lookup_insert_ne, lookup_app_l by (rewrite ?length_fmap; lia).
    rewrite list_lookup_fmap. destruct (lookup_lt_is_Some_2 js c) as [j ->]; [lia|done].
Qed.

Lemma fill_cache_length b js d :
  (length js ≤ length d)%nat → length (fill_cache b js d) = length d.
Proof.
  intros H. unfold fill_cache. rewrite length_insert, length_app, length_fmap, length_drop. lia.
Qed.

Lemma cycle_lookup p hist key c :
  bucket_holds p (bucket_history (bucket_index key) hist) → until_nul key ≠ [] →
  (c ≤ length (matching_slots p key))%nat →
  read_cycle hist key !! c =
    Some ((λ j, strndup (default [] (values p !! j)) KEY_SIZE) <$> matching_slots p key !! c).
Proof.
  intros Hh Hkey Hc. unfold read_cycle, stored_values.
  rewrite <- (matching_values p _ key Hh Hkey). set (js := matching_slots p key) in *.
  destruct (decide (c = length js)) as [->|Hne].
  - rewrite lookup_app_r, !length_fmap by (by rewrite !length_fmap).
    by rewrite Nat.sub_diag, (lookup_ge_None_2 js).
  - rewrite lookup_app_l, !list_lookup_fmap by (rewrite !length_fmap; lia).
    by destruct (lookup_lt_is_Some_2 js c) as [j ->]; [lia|].
Qed.

Lemma bucket_values p h j :
  bucket_holds p h → (j < BUCKET_SIZE)%nat → values p !! j = Some (default [] (values p !! j)).
Proof.
  intros (_&Hv&_) Hj. destruct (lookup_lt_is_Some_2 (values p) j) as [a ->]; [|done].
  by rewrite Hv, length_fmap, length_slots.
Qed.

Lemma matching_slot_key p h key j :
  bucket_holds p h → j ∈ matching_slots p key →
  ∃ a, keys p !! j = Some a ∧ strncmp_eq KEY_COUNT a key = true.
Proof.
  intros (Hk&_) Hj. pose proof (matching_slots_lt p key j Hj) as Hlt.
  apply list_elem_of_filter in Hj as [Hm _].
  destruct (lookup_lt_is_Some_2 (keys p) j) as [a Ha];
    [by rewrite Hk, length_fmap, length_slots|].
  exists a. by rewrite Ha in *.
Qed.

Lemma store_holds_valid s hist b p v :
  store_holds s hist → buckets s !! b = Some p →
  store_holds (put_bucket b (set_b_cache_valid v p) s) hist.
Proof.
  intros Hs Hp. apply (store_holds_put s hist); [done| |done].
  destruct Hs as (_&_&Hb). destruct (Hb b p Hp) as (?&?&?). by split_and!.
Qed.
End reading.


Section read_steps.
Implicit Types (s : store_t) (p : bucket_t) (x : kv) (hist : list entry) (key : list Z).

Lemma last_in_list {A} (l : list A) : l ≠ [] → ∃ a, last l = Some a ∧ a ∈ l.
Proof.
  intros H. destruct (last l) as [a|] eqn:Ha; [|by apply last_None in Ha].
  exists a. split; [done|]. apply last_Some in Ha as [l' ->]. set_solver.
Qed.

(** A load through a pointer into the bucket. *)
Lemma load_value_run {B} b p s fd v i d k j a (f : list Z → M kv B) :
  (b < length (buckets s))%nat → values p !! j = Some a →
  bind (load_value (b, j)) f (mk_kv (Some (put_bucket b p s)) fd v i d k) =
  f a (mk_kv (Some (put_bucket b p s)) fd v i d k).
Proof.
  intros Hb Ha. apply bind_ok. unfold load_value. cbn [fst snd].
  rewrite get_bucket_run by done. by apply gets_some_ok.
Qed.

Lemma load_key_run {B} b p s fd v i d k j a (f : list Z → M kv B) :
  (b < length (buckets s))%nat → keys p !! j = Some a →
  bind (load_key (b, j)) f (mk_kv (Some (put_bucket b p s)) fd v i d k) =
  f a (mk_kv (Some (put_bucket b p s)) fd v i d k).
Proof.
  intros Hb Ha. apply bind_ok. unfold load_key. cbn [fst snd].
  rewrite get_bucket_run by done. by apply gets_some_ok.
Qed.

(** The branches of [kv_store_read] on the unlocked bucket: a hit of entry [c]
    of the cache, and the rebuilding of the cache. *)
Definition cached_at (b c : nat) (j : nat) (fd : Z) (d : list (option slot)) (s : store_t) : kv :=
  mk_kv (Some s) fd true c d (Some (b, j)).

Lemma reading_intro hist key c s p d fd j :
  let b := bucket_index key in
  store_holds s hist → buckets s !! b = Some p → bucket_holds p (bucket_history b hist) →
  length d = S BUCKET_SIZE → last (matching_slots p key) = Some j →
  (c ≤ length (matching_slots p key))%nat →
  reading hist key c (cached_at b c j fd (fill_cache b (matching_slots p key) d)
    (put_bucket b (set_b_cache_valid true p) s)).
Proof.
  intros b Hs Hp Hh Hd Hj Hc. exists (put_bucket b (set_b_cache_valid true p) s), (set_b_cache_valid true p), d, fd.
  destruct (kv_bucket s hist key Hs) as (Hlt&_). split_and!.
  - by apply store_holds_valid.
  - by apply put_bucket_lookup.
  - exact Hh.
  - reflexivity.
  - exact Hd.
  - intros Hnil. change (matching_slots p key = []) in Hnil. rewrite Hnil in Hj. discriminate.
  - exact Hc.
  - change (matching_slots (set_b_cache_valid true p) key) with (matching_slots p key).
    unfold cached_at. by rewrite Hj.
Qed.

Lemma set_b_cache_valid_id p v : b_cache_valid p = v → set_b_cache_valid v p = p.
Proof. intros <-. by destruct p. Qed.

Lemma read_hit hist key c x :
  until_nul key ≠ [] → reading hist key c x →
  ∃ r x', kv_store_read (Some key) x = Ok (r, x') ∧ read_cycle hist key !! c = Some r ∧
    reading hist key (if (c <? length (stored_values hist key))%nat then S c else 0) x'.
Proof.
  intros Hkey (s&p&d&fd&Hs&Hp&Hh&Hv&Hd&Hjs&Hc&->).
  destruct (last_in_list _ Hjs) as (j&Hj&Hin).
  destruct (matching_slot_key p _ key j Hh Hin) as (a&Ha&Hm).
  destruct (kv_bucket s hist key Hs) as (Hlt&_).
  pose proof (matching_slots_length p key) as Hn.
  rewrite (cycle_lookup p hist key c Hh Hkey Hc).
  assert (length (stored_values hist key) = length (matching_slots p key)) as ->.
  { unfold stored_values. rewrite <- (matching_values p _ key Hh Hkey). by rewrite length_fmap. }
  set (b := bucket_index key) in *. set (js := matching_slots p key) in *.
  assert (mk_kv (Some s) fd true c (fill_cache b js d) ((λ j, (b, j)) <$> last js) =
    mk_kv (Some (put_bucket b p s)) fd true c (fill_cache b js d) (Some (b, j))) as ->
    by (rewrite Hj, (put_bucket_id b p s Hp); done).
  unfold kv_store_read. rewrite (bind_ok _ _ _ _ _ (gets_run _ _)). cbn [id store].
  fold b. rewrite sem_wait_run by (done || apply Hh). rewrite get_bucket_run by done.
  rewrite (bind_ok _ _ _ _ _ (gets_run _ _)).
  cbn [id cache_valid b_cache_valid set_b_protect]. rewrite Hv. cbn [andb].
  rewrite bind_assoc, (bind_ok _ _ _ _ _ (gets_some_ok cache_key (mk_kv _ _ _ _ _ (Some (b, j))) _ eq_refl)).
  rewrite bind_assoc, (load_key_run b _ s _ _ _ _ _ _ a) by done. rewrite Hm.
  rewrite (bind_ok _ _ _ _ _ (ret_run _ _)). cbn iota.
  rewrite bind_assoc, (bind_ok _ _ _ ((λ j, (b, j)) <$> js !! c) _
    (gets_some_ok (λ x, cache_data x !! cache_idx x) (mk_kv _ _ _ _ _ _) _ (fill_cache_lookup b js d c ltac:(lia) Hc))).
  pose proof (λ c', reading_intro hist key c' s p d fd j Hs Hp Hh Hd Hj) as Hnext.
  cbn zeta in Hnext. fold b js in Hnext.
  rewrite (set_b_cache_valid_id p true Hv) in Hnext. unfold cached_at in Hnext.
  destruct (decide (c < length js)%nat) as [Hlt'|Hge].
  - destruct (lookup_lt_is_Some_2 js c Hlt') as [e He]. rewrite He. cbn [fmap option_fmap option_map].
    rewrite bind_assoc, (bind_ok _ _ _ _ _ (modify_run _ _)).
    unfold set_cache_idx, set_cache. cbn [cache_idx store g_fd cache_valid cache_data cache_key].
    rewrite bind_assoc, (load_value_run b _ s _ _ _ _ _ _ (default [] (values p !! e)))
      by (exact Hlt || exact (bucket_values p _ e Hh (matching_slots_lt p key e (list_elem_of_lookup_2 _ _ _ He)))).
    rewrite (bind_ok _ _ _ _ _ (ret_run _ _)). rewrite sem_post_run by done.
    rewrite (set_b_protect_holds p _ Hh). do 2 eexists. split; [reflexivity|]. split; [done|].
    rewrite (proj2 (Nat.ltb_lt _ _)) by done. rewrite Nat.add_1_r. apply Hnext. lia.
  - rewrite (lookup_ge_None_2 js) by lia. cbn [fmap option_fmap option_map].
    rewrite bind_assoc, (bind_ok _ _ _ _ _ (modify_run _ _)).
    unfold set_cache_idx, set_cache. cbn [cache_idx store g_fd cache_valid cache_data cache_key].
    rewrite (bind_ok _ _ _ _ _ (ret_run _ _)). rewrite sem_post_run by done.
    rewrite (set_b_protect_holds p _ Hh). do 2 eexists. split; [reflexivity|]. split; [done|].
    rewrite (proj2 (Nat.ltb_ge _ _)) by lia. apply Hnext. lia.
Qed.

Lemma stored_matching hist key p :
  bucket_holds p (bucket_history (bucket_index key) hist) → until_nul key ≠ [] →
  stored_values hist key = [] ↔ matching_slots p key = [].
Proof.
  intros Hh Hkey. unfold stored_values. rewrite <- (matching_values p _ key Hh Hkey).
  by destruct (matching_slots p key).
Qed.

(** Rebuilding the cache when some slot carries the key. *)
Lemma read_miss hist key x :
  until_nul key ≠ [] → kv_holds x hist → cache_valid x = false →
  stored_values hist key ≠ [] →
  ∃ r x', kv_store_read (Some key) x = Ok (r, x') ∧ read_cycle hist key !! 0%nat = Some r ∧
    reading hist key 1 x'.
Proof.
  intros Hkey [(s&Hx&Hs) Hd] Hinv Hval. destruct x as [st fd v i d k]. simpl in *. subst st v.
  destruct (kv_bucket s hist key Hs) as (Hlt&p&Hp&Hh&_).
  rewrite (stored_matching hist key p Hh Hkey) in Hval.
  rewrite (cycle_lookup p hist key 0 Hh Hkey) by lia.
  destruct (last_in_list _ Hval) as (j&Hj&_). pose proof (matching_slots_length p key) as Hn.
  pose proof (reading_intro hist key 1 s p d fd j Hs Hp Hh Hd Hj) as Hnext.
  cbn zeta in Hnext. set (b := bucket_index key) in *. unfold cached_at in Hnext.
  set (js := matching_slots p key) in *.
  assert (mk_kv (Some s) fd false i d k = mk_kv (Some (put_bucket b p s)) fd false i d k) as ->
    by (rewrite (put_bucket_id b p s Hp); done).
  unfold kv_store_read. rewrite (bind_ok _ _ _ _ _ (gets_run _ _)). cbn [id store].
  fold b. rewrite sem_wait_run by (done || apply Hh). rewrite get_bucket_run by done.
  rewrite (bind_ok _ _ _ _ _ (gets_run _ _)).
  cbn [id cache_valid b_cache_valid set_b_protect]. rewrite andb_false_r.
  rewrite (bind_ok _ _ _ _ _ (ret_run _ _)). cbn iota.
  rewrite bind_assoc, modify_bucket_run by done.
  change (matching_slots (set_b_protect 0 p) key) with js. cbn zeta.
  rewrite bind_assoc, (bind_ok _ _ _ _ _ (modify_run _ _)), Hj.
  unfold set_cache. cbn [cache_idx store g_fd cache_valid cache_data cache_key].
  destruct js as [|j0 js'] eqn:Hjs; [done|].
  rewrite bind_assoc, (bind_ok _ _ _ _ _ (modify_run _ _)).
  unfold set_cache_idx, set_cache. cbn [cache_idx store g_fd cache_valid cache_data cache_key].
  assert (fill_cache b (j0 :: js') d !! 0%nat = Some (Some (b, j0))) as Hfill
    by (rewrite fill_cache_lookup by lia; done).
  erewrite bind_assoc, bind_ok by (apply gets_some_ok; cbn [cache_data]; rewrite Hfill; reflexivity).
  assert (j0 < BUCKET_SIZE)%nat as Hj0
    by (apply (matching_slots_lt p key); subst js; rewrite Hjs; apply list_elem_of_here).
  rewrite bind_assoc, (load_value_run b _ s _ _ _ _ _ _ (default [] (values p !! j0)))
    by (exact Hlt || exact (bucket_values p _ j0 Hh Hj0)).
  rewrite (bind_ok _ _ _ _ _ (ret_run _ _)). rewrite sem_post_run by done.
  assert (set_b_protect 1 (set_b_cache_valid true (set_b_protect 0 p)) = set_b_cache_valid true p) as ->.
  { destruct Hh as (_&_&Hp1). destruct p. simpl in *. by subst. }
  do 2 eexists. split; [reflexivity|]. split; [done|]. apply Hnext. simpl. lia.
Qed.
End read_steps.

(** ** A fresh store *)

(** The object [mmap] finds has the layout of [store_t]. *)
Definition store_layout (s : store_t) : Prop :=
  length (buckets s) = BUCKET_COUNT ∧
  Forall (λ p, length (keys p) = BUCKET_SIZE ∧ length (values p) = BUCKET_SIZE) (buckets s).

(** The environment of a first creation: the object does not exist yet, and
    every call succeeds. *)
Definition first_creation (e : shm_env) (s : store_t) : Prop :=
  open_exists e = -1 ∧ open_store e ≠ -1 ∧ ftruncate e ≠ -1 ∧
  mmap e = Some s ∧ store_layout s ∧ st_size e = sizeof_store_t e.

Section fresh.
Implicit Types (s : store_t) (p : bucket_t) (x : kv) (nm : list Z).

Lemma const_fmap {A B} (b : B) (l : list A) : (λ _, b) <$> l = replicate (length l) b.
Proof. induction l as [|a l IH]; [done|]. rewrite fmap_cons, IH. done. Qed.

Lemma pad_nil n : pad n [] = replicate n 0.
Proof.
  unfold pad, chars. simpl. rewrite take_nil. by rewrite resize_nil.
Qed.

Lemma clear_bucket_holds p :
  length (keys p) = BUCKET_SIZE → length (values p) = BUCKET_SIZE →
  bucket_holds (clear_bucket p) [].
Proof.
  intros Hk Hv. unfold bucket_holds, clear_bucket, slots_of. cbn [keys values b_protect].
  unfold const. rewrite !const_fmap, Hk, Hv, resize_nil, !fmap_replicate. cbn [fst snd].
  by rewrite !pad_nil.
Qed.

(** The contents of a freshly created store. *)
Definition fresh_store nm s : store_t :=
  mk_store (clear_bucket <$> buckets s) 1 1 (<[(NAME_MAX - 1)%nat := 0]> (strncpy NAME_MAX nm)).

Lemma fresh_store_holds nm s : store_layout s → store_holds (fresh_store nm s) [].
Proof.
  intros (Hlen&Hb). split_and!; [done|by simpl; rewrite length_fmap|].
  intros b p. cbn [fresh_store buckets]. rewrite list_lookup_fmap, fmap_Some.
  intros (q&Hq&->). destruct (Forall_lookup_1 _ _ _ _ Hb Hq). by apply clear_bucket_holds.
Qed.

Lemma modify_store_run {B} f s fd v i d k (g : unit → M kv B) :
  bind (modify_store f) g (mk_kv (Some s) fd v i d k) = g tt (mk_kv (Some (f s)) fd v i d k).
Proof. done. Qed.

Lemma kv_store_create_ok x nm e s :
  store x = None → first_creation e s →
  kv_store_create (Some nm) e x =
    Ok (0, mk_kv (Some (fresh_store nm s)) (open_store e) false 0 empty_cache_data None).
Proof.
  intros Hx (Hex&Ho&Hf&Hm&_&Hsz). destruct x as [st fd v i d k]. simpl in Hx. subst st.
  unfold kv_store_create, sm_exists, sm_attach, bind, modify, gets, sm_create.
  rewrite Hex, Hm, Hsz, !(proj2 (Z.eqb_neq _ _) Ho), !(proj2 (Z.eqb_neq _ _) Hf). cbn.
  rewrite Z.eqb_refl, orb_true_r. reflexivity.
Qed.

Lemma fresh_holds nm s fd e :
  first_creation e s →
  kv_holds (mk_kv (Some (fresh_store nm s)) fd false 0 empty_cache_data None) [].
Proof.
  intros (_&_&_&_&Hs&_). split; [eexists; split; [done|]; by apply fresh_store_holds|].
  cbn. unfold empty_cache_data. rewrite length_replicate. lia.
Qed.
End fresh.

Section reads.
Implicit Types (s : store_t) (p : bucket_t) (x : kv) (hist : list entry) (key : list Z).

Lemma length_read_cycle hist key : length (read_cycle hist key) = S (length (stored_values hist key)).
Proof. unfold read_cycle. rewrite length_app, length_fmap. simpl. lia. Qed.

Lemma succ_mod c m :
  (if (c mod S m <? m)%nat then S (c mod S m) else 0%nat) = (S c mod S m)%nat.
Proof.
  pose proof (Nat.mod_upper_bound c (S m) ltac:(lia)) as Hb.
  pose proof (Nat.div_mod_eq c (S m)) as Hd.
  set (q := (c / S m)%nat) in *. set (r := (c mod S m)%nat) in *. clearbody q r.
  destruct (Nat.ltb_spec r m).
  - apply (Nat.mod_unique (S c) (S m) q); lia.
  - apply (Nat.mod_unique (S c) (S m) (S q)); lia.
Qed.

(** Entry [i] of the endless walk around the cycle. *)
Definition nth_read (hist : list entry) (key : list Z) (i : nat) : option (list Z) :=
  default None (read_cycle hist key !! (i mod length (read_cycle hist key))%nat).

Lemma reads_around hist key n c x :
  until_nul key ≠ [] → reading hist key (c mod length (read_cycle hist key)) x →
  ∃ x', kv_reads n key x = Ok (nth_read hist key <$> seq c n, x').
Proof.
  intros Hkey. rewrite length_read_cycle.
  revert c x. induction n as [|n IH]; intros c x Hr; [by exists x|].
  destruct (read_hit hist key _ x Hkey Hr) as (r&x1&Hread&Hcyc&Hr1). rewrite succ_mod in Hr1.
  destruct (IH _ x1 Hr1) as (x2&Hx2).
  exists x2. cbn [kv_reads]. rewrite (bind_ok _ _ _ _ _ Hread), (bind_ok _ _ _ _ _ Hx2).
  unfold ret. cbn [seq]. rewrite fmap_cons. do 3 f_equal.
  unfold nth_read. by rewrite length_read_cycle, Hcyc.
Qed.

Lemma reads_after_miss hist key n x :
  until_nul key ≠ [] → kv_holds x hist → cache_valid x = false → stored_values hist key ≠ [] →
  ∃ x', kv_reads n key x = Ok (nth_read hist key <$> seq 0 n, x').
Proof.
  intros Hkey Hx Hv Hval. destruct n as [|n]; [by exists x|].
  destruct (read_miss hist key x Hkey Hx Hv Hval) as (r&x1&Hread&Hcyc&Hr1).
  destruct (reads_around hist key n 1 x1 Hkey) as (x2&Hx2).
  { rewrite length_read_cycle. destruct (stored_values hist key); [done|].
    by rewrite Nat.mod_small by (simpl; lia). }
  exists x2. cbn [kv_reads]. rewrite (bind_ok _ _ _ _ _ Hread), (bind_ok _ _ _ _ _ Hx2).
  unfold ret. cbn [seq]. rewrite fmap_cons. do 3 f_equal.
  unfold nth_read. by rewrite length_read_cycle, Nat.mod_0_l, Hcyc by lia.
Qed.

(** A read that finds nothing leaves the caches valid and [cache_key] alone. *)
Lemma read_missing hist key x :
  until_nul key ≠ [] → kv_holds x hist → cache_valid x = false → stored_values hist key = [] →
  ∃ s p d, kv_store_read (Some key) x = Ok (None, mk_kv (Some s) (g_fd x) true 0 d (cache_key x)) ∧
    store_holds s hist ∧ buckets s !! bucket_index key = Some p ∧
    bucket_holds p (bucket_history (bucket_index key) hist) ∧ b_cache_valid p = true.
Proof.
  intros Hkey [(s&Hx&Hs) Hd] Hinv Hval. destruct x as [st fd v i d k]. simpl in *. subst st v.
  destruct (kv_bucket s hist key Hs) as (Hlt&p&Hp&Hh&_).
  rewrite (stored_matching hist key p Hh Hkey) in Hval. set (b := bucket_index key) in *.
  exists (put_bucket b (set_b_cache_valid true p) s), (set_b_cache_valid true p), (fill_cache b [] d).
  split; [|split_and!; [by apply store_holds_valid|by apply put_bucket_lookup|exact Hh|reflexivity]].
  assert (mk_kv (Some s) fd false i d k = mk_kv (Some (put_bucket b p s)) fd false i d k) as ->
    by (rewrite (put_bucket_id b p s Hp); done).
  unfold kv_store_read. rewrite (bind_ok _ _ _ _ _ (gets_run _ _)). cbn [id store].
  fold b. rewrite sem_wait_run by (done || apply Hh). rewrite get_bucket_run by done.
  rewrite (bind_ok _ _ _ _ _ (gets_run _ _)).
  cbn [id cache_valid b_cache_valid set_b_protect]. rewrite andb_false_r.
  rewrite (bind_ok _ _ _ _ _ (ret_run _ _)). cbn iota.
  rewrite bind_assoc, modify_bucket_run by done.
  change (matching_slots (set_b_protect 0 p) key) with (matching_slots p key).
  rewrite Hval. cbn zeta. rewrite bind_assoc, (bind_ok _ _ _ _ _ (modify_run _ _)).
  unfold set_cache. cbn [last cache_idx store g_fd cache_valid cache_data cache_key].
  rewrite (bind_ok _ _ _ _ _ (ret_run _ _)). rewrite sem_post_run by done.
  do 3 f_equal. do 2 f_equal. destruct Hh as (_&_&Hp1). destruct p. simpl in *. by subst.
Qed.
End reads.

(** ** Properties *)

(** [hash] is computed without any 32-bit overflow for arguments made of
    C characters: the loop is the exact integer fold, and the result is an index
    below [max] — for any word, also one with negative characters. *)
Theorem hash_in_range word max :
  Forall is_char word → 0 < max →
  0 ≤ hash word max < max ∧
  fold_left hash_step (until_nul word) 5381 = fold_left hash_step_exact (until_nul word) 5381.
Proof.
  intros Hw Hmax. destruct (hash_fold (until_nul word) 5381) as [He Hb];
    [by apply until_nul_chars|lia|].
  split; [|done]. unfold hash. cbv zeta. apply rem_fold_range; [done|].
  set (v := fold_left hash_step _ _) in *. clearbody v. lia.
Qed.

Lemma hash_in_range_witness : 0 ≤ hash [77; -40; 75] 256 < 256.
Proof.
  refine (proj1 (hash_in_range [77; -40; 75] 256 _ _)); [|lia].
  repeat constructor; unfold is_char; lia.
Defined.

(** C2: the store keeps, for every key, the values of the last 512 writes to
    the key's bucket: after creating the shared object and any sequence of
    writes of non-empty keys (each of which returns 0),
    [kv_store_read_all] returns exactly the values that a history of the writes
    prescribes, oldest first and cut to 31 characters, or NULL when there are
    none, and leaves the process state as it was. *)
Theorem kv_write_read_all x nm e s ws key :
  store x = None → first_creation e s →
  Forall (λ w, until_nul w.1 ≠ []) ws → until_nul key ≠ [] →
  ∃ x1 x2, kv_store_create (Some nm) e x = Ok (0, x1) ∧ kv_writes ws x1 = Ok (tt, x2) ∧
    kv_store_read_all (Some key) x2 =
      Ok (match stored_values (reverse ws) key with [] => None | vs => Some vs end, x2).
Proof.
  intros Hx He Hws Hkey.
  destruct (kv_writes_ok ws _ [] Hws (fresh_holds nm s (open_store e) e He)) as (x2&Hw&Hh&_).
  rewrite app_nil_r in Hh. eexists _, x2.
  split_and!; [by apply kv_store_create_ok|exact Hw|by apply kv_store_read_all_ok].
Qed.

(** Consecutive [kv_store_read]s of a key cycle through its values: from a
    store holding any history, a write followed by [n] reads of a key that has
    values returns them oldest first, then NULL once, and starts over; the write
    resets the position. *)
Theorem kv_reads_cycle x hist w key n :
  kv_holds x hist → until_nul w.1 ≠ [] → until_nul key ≠ [] →
  stored_values (w :: hist) key ≠ [] →
  ∃ x1 x2, kv_store_write (Some w.1) (Some w.2) x = Ok (0, x1) ∧
    kv_reads n key x1 = Ok (nth_read (w :: hist) key <$> seq 0 n, x2).
Proof.
  intros Hx Hw Hkey Hval. destruct w as [k v]. simpl in *.
  destruct (kv_store_write_ok k v x hist Hw Hx) as (x1&Hr&Hx1&Hv&_).
  destruct (reads_after_miss _ key n x1 Hkey Hx1 Hv Hval) as (x2&Hr2). eauto.
Qed.

(** A write truncates the key to 15 characters but a lookup compares 16,
    so that a value written under a key of 16 or more characters can never be
    read back under that key, whatever was written. *)
Theorem kv_long_key_lost x hist key :
  kv_holds x hist → (KEY_COUNT ≤ length (until_nul key))%nat →
  kv_store_read_all (Some key) x = Ok (None, x).
Proof.
  intros Hx Hlen. assert (until_nul key ≠ []) as Hkey.
  { intros Heq. rewrite Heq, KEY_COUNT_eq in Hlen. simpl in Hlen. lia. }
  rewrite (kv_store_read_all_ok key x hist Hkey Hx). unfold stored_values.
  assert (∀ h, filter (entry_matches key) h = []) as ->; [|done].
  intros h. induction h as [|w h IH]; [done|]. rewrite filter_cons_False; [done|].
  unfold entry_matches. intros Heq. apply (f_equal length) in Heq.
  pose proof (chars_length KEY_COUNT w.1) as Hc.
  rewrite Heq, length_take_le, KEY_COUNT_eq in * by done. lia.
Qed.

(** Reading a key that has no value twice in a row after a write is
    undefined: the first read returns NULL and marks both caches valid while
    [cache_key] is still NULL, and the second passes it to [strncmp]. *)
Theorem kv_read_missing_twice x hist w key :
  kv_holds x hist → until_nul w.1 ≠ [] → until_nul key ≠ [] →
  stored_values (w :: hist) key = [] →
  ∃ x1 x2, kv_store_write (Some w.1) (Some w.2) x = Ok (0, x1) ∧
    kv_store_read (Some key) x1 = Ok (None, x2) ∧
    kv_store_read (Some key) x2 = Err Undefined.
Proof.
  intros Hx Hw Hkey Hval. destruct w as [k v]. simpl in *.
  destruct (kv_store_write_ok k v x hist Hw Hx) as (x1&Hr&Hx1&Hv&Hck&_).
  destruct (read_missing _ key x1 Hkey Hx1 Hv Hval) as (s&p&d&Hr1&Hs&Hp&Hh&Hval1).
  eexists x1, _. split_and!; [exact Hr|exact Hr1|]. rewrite Hck.
  destruct (kv_bucket s _ key Hs) as (Hlt&_). set (b := bucket_index key) in *.
  rewrite <- (put_bucket_id b p s Hp).
  unfold kv_store_read. rewrite (bind_ok _ _ _ _ _ (gets_run _ _)). cbn [id store].
  fold b. rewrite sem_wait_run by (done || apply Hh). rewrite get_bucket_run by done.
  rewrite (bind_ok _ _ _ _ _ (gets_run _ _)).
  cbn [id cache_valid b_cache_valid set_b_protect]. by rewrite Hval1.
Qed.

(** [kv_delete_db] always passes the name check of [kv_store_destroy]: it
    drops this process' reference, forgets the cache, unmaps the store, and
    unlinks the object exactly when it was the last client. *)
Theorem kv_delete_db_detaches x s e :
  store x = Some s → 0 < s_protect s → munmap e ≠ -1 →
  kv_delete_db e x =
    Ok (if (clients s - 1 <? 1) && (shm_unlink e =? -1) then -1 else 0,
        mk_kv None (g_fd x) false 0 empty_cache_data None).
Proof.
  intros Hx Hp Hm. destruct x as [st fd v i d k]. simpl in *. subst st.
  assert (Hname : strncmp_eq (NAME_MAX - 1) (name s) (strncpy NAME_MAX (name s)) = true).
  { rewrite strncmp_eq_spec. apply bool_decide_eq_true. unfold strncpy.
    rewrite until_nul_resize by apply until_nul_no_nul. rewrite take_take. by replace (_ `min` _)%nat with (NAME_MAX - 1)%nat by lia. }
  unfold kv_delete_db, kv_store_destroy, sem_wait_store, sem_post_store, modify_store, get_store,
    sm_detach, sm_close, bind, modify, gets, gets_some, ret, reset_cache, set_cache, set_store,
    set_s_protect, set_clients. cbn.
  rewrite (proj2 (Z.leb_gt _ _) Hp). cbn.
  rewrite (proj2 (Z.leb_gt _ _)) by lia. cbn. rewrite Hname. cbn.
  rewrite (proj2 (Z.eqb_neq _ _) Hm). cbn.
  by destruct (clients s - 1 <? 1), (shm_unlink e =? -1).
Qed.

(** ** The properties at concrete inputs *)

(** An object of zero pages, the environment of a creation that succeeds, and the
    process before and after it. *)
Definition zero_store : store_t :=
  mk_store (replicate BUCKET_COUNT (mk_bucket (replicate BUCKET_SIZE (replicate KEY_COUNT 0))
    (replicate BUCKET_SIZE (replicate KEY_SIZE 0)) false 0)) 0 0 (replicate NAME_MAX 0).
Definition env0 : shm_env := mk_shm_env (-1) 3 0 (Some zero_store) 0 4096 0 0 4096.
Definition process0 : kv := mk_kv None (-1) false 0 empty_cache_data None.
Definition attached0 : kv := mk_kv (Some (fresh_store [47] zero_store)) 3 false 0 empty_cache_data None.

Lemma env0_first : first_creation env0 zero_store.
Proof.
  do 4 (split; [done|]). split; [|done]. split; [by cbn; rewrite length_replicate|].
  apply Forall_replicate. cbn. by rewrite !length_replicate.
Qed.

Lemma attached0_holds : kv_holds attached0 [].
Proof. exact (fresh_holds [47] zero_store 3 env0 env0_first). Qed.

Definition k1 : list Z := [107; 49].
Definition k2 : list Z := [107; 50].
Definition va : list Z := [65].
Definition vb : list Z := [66].

Lemma kv_write_read_all_witness :
  ∃ x1 x2, kv_store_create (Some [47]) env0 process0 = Ok (0, x1) ∧
    kv_writes [(k1, va); (k2, vb); (k1, vb)] x1 = Ok (tt, x2) ∧
    kv_store_read_all (Some k1) x2 = Ok (Some [va; vb], x2).
Proof.
  refine (kv_write_read_all process0 [47] env0 zero_store [(k1, va); (k2, vb); (k1, vb)] k1
    eq_refl env0_first _ _); [by repeat constructor|done].
Defined.

Lemma kv_reads_cycle_witness :
  ∃ x1 x2, kv_store_write (Some k1) (Some va) attached0 = Ok (0, x1) ∧
    kv_reads 4 k1 x1 = Ok ([Some va; None; Some va; None], x2).
Proof.
  refine (kv_reads_cycle attached0 [] (k1, va) k1 4 attached0_holds _ _ _); by vm_compute.
Defined.

Lemma kv_long_key_lost_witness :
  kv_store_read_all (Some (replicate 16 65)) attached0 = Ok (None, attached0).
Proof.
  refine (kv_long_key_lost attached0 [] (replicate 16 65) attached0_holds _).
  rewrite KEY_COUNT_eq. vm_compute. lia.
Defined.

Lemma kv_read_missing_twice_witness :
  ∃ x1 x2, kv_store_write (Some k1) (Some va) attached0 = Ok (0, x1) ∧
    kv_store_read (Some k2) x1 = Ok (None, x2) ∧ kv_store_read (Some k2) x2 = Err Undefined.
Proof.
  refine (kv_read_missing_twice attached0 [] (k1, va) k2 attached0_holds _ _ _); by vm_compute.
Defined.

Lemma kv_delete_db_detaches_witness :
  kv_delete_db env0 attached0 = Ok (0, mk_kv None 3 false 0 empty_cache_data None).
Proof.
  refine (kv_delete_db_detaches attached0 (fresh_store [47] zero_store) env0 eq_refl _ _);
    vm_compute; done.
Defined.
