(* ===== verification/KvMain.v ===== *)
(** * The program of key-value/kv.c

    [main] over the store of KvStore, in the process that creates the store: two
    values and then seventeen, read one by one until NULL and all at once.  Its
    result is what it prints. *)
From S2P Require Import Prelude KvStore.
From stdpp Require Import list.
#[local] Open Scope Z_scope.
#[local] Open Scope c_scope.

(** The strings "/STORE", "MyKey", "content [A]" and "content [B]". *)
Definition STORE : list Z := [47; 83; 84; 79; 82; 69].
Definition MyKey : list Z := [77; 121; 75; 101; 121].
Definition content (c : Z) : list Z := [99; 111; 110; 116; 101; 110; 116; 32; 91; c; 93].

(** [sprintf(str, "[%zu]", k)] for a number below 100, and the array [char str[5]]. *)
Definition sprintf (k : Z) : list Z :=
  91 :: (if k <? 10 then [48 + k] else [48 + k / 10; 48 + k mod 10]) ++ [93; 0].
Definition sizeof_str : nat := 5.

Section main.
Context (e : shm_env).

(** The handler of three signals, which exits with 0. *)
Definition sig_handler : M kv Z := kv_delete_db e ;; ret 0.

(** [for (size_t k = 0; k < 17; k++)]. *)
Fixpoint write_loop (n : nat) (k : Z) : M kv unit :=
  match n with
  | O => ret tt
  | S n =>
      if (sizeof_str <? length (sprintf k))%nat then fail Undefined
      else kv_store_write (Some MyKey) (Some (sprintf k)) ;; write_loop n (k + 1)
  end.

Fixpoint read_loop (fuel : nat) : M kv unit :=
  match fuel with
  | O => fail Exhausted
  | S fuel =>
      p ← kv_store_read (Some MyKey);
      match p with None => ret tt | Some _ => read_loop fuel end
  end.

Definition main (fuel : nat) : M kv (Z * list (list Z)) :=
  kv_store_create (Some STORE) e ;;
  kv_store_write (Some MyKey) (Some (content 65)) ;;
  kv_store_write (Some MyKey) (Some (content 66)) ;;
  write_loop 17 0 ;;
  read_loop fuel ;;
  v ← kv_store_read_all (Some MyKey);
  match v with
  | None => fail Undefined
  | Some v =>
      kv_store_destroy (Some STORE) e ;;
      ret (0, v)
  end.
End main.

(** ** What reads and writes leave alone *)

Definition identity (x : kv) : option (list Z * Z) := (λ s, (name s, clients s)) <$> store x.

Section frames.
Lemma keeps_modify_bucket b f : keeps identity (modify_bucket b f).
Proof.
  unfold modify_bucket. apply keeps_seq; [apply keeps_gets_some|]. intros _ x u x'. unfold modify_store, get_store.
  intros H. apply bind_inv in H as (s&x1&Hs&H). unfold gets_some in Hs. destruct (store x) as [s0|] eqn:Hx; [|done].
  injection Hs as <- <-. injection H as _ <-. unfold identity. by rewrite Hx.
Qed.

Lemma keeps_get_bucket b : keeps identity (get_bucket b).
Proof. apply keeps_gets_some. Qed.

#[local] Hint Resolve keeps_modify_bucket keeps_get_bucket : sysprog.

Lemma keeps_wait b : keeps identity (sem_wait_bucket b).
Proof. unfold sem_wait_bucket. solve_keeps. Qed.
Lemma keeps_post b : keeps identity (sem_post_bucket b).
Proof. unfold sem_post_bucket. solve_keeps. Qed.
#[local] Hint Resolve keeps_wait keeps_post : sysprog.

Lemma keeps_write k v : keeps identity (kv_store_write k v).
Proof. unfold kv_store_write. solve_keeps. Qed.
Lemma keeps_read k : keeps identity (kv_store_read k).
Proof. unfold kv_store_read, load_key, load_value. solve_keeps. Qed.
#[local] Hint Resolve keeps_write keeps_read : sysprog.

Lemma keeps_write_loop n k : keeps identity (write_loop n k).
Proof. revert k. induction n as [|n IH]; intros k; cbn [write_loop]; solve_keeps. Qed.
Lemma keeps_read_loop fuel : keeps identity (read_loop fuel).
Proof. induction fuel as [|fuel IH]; cbn [read_loop]; solve_keeps. Qed.
End frames.

(** ** The loops *)

Definition numbers (n : nat) (k : Z) : list entry := (λ i, (MyKey, sprintf (k + Z.of_nat i))) <$> seq 0 n.

Lemma sprintf_fits k : 0 ≤ k < 100 → (length (sprintf k) ≤ sizeof_str)%nat.
Proof. intros Hk. unfold sprintf, sizeof_str. destruct (k <? 10); cbn; lia. Qed.

Lemma MyKey_ok : until_nul MyKey ≠ [].
Proof. discriminate. Qed.

Lemma write_loop_ok n k x hist :
  0 ≤ k → k + Z.of_nat n ≤ 100 → kv_holds x hist →
  ∃ x', write_loop n k x = Ok (tt, x') ∧ kv_holds x' (reverse (numbers n k) ++ hist) ∧
    (cache_valid x = false → cache_valid x' = false).
Proof.
  revert k x hist. induction n as [|n IH]; intros k x hist Hk Hn Hx; cbn [write_loop].
  { exists x. split; [reflexivity|]. split; [exact Hx|]. intros Hv. exact Hv. }
  rewrite (proj2 (Nat.ltb_ge _ _)) by (apply sprintf_fits; lia).
  destruct (kv_store_write_ok MyKey (sprintf k) x hist) as (x1&Hr&Hx1&Hv&_); [exact MyKey_ok|exact Hx|].
  rewrite (bind_ok _ _ _ _ _ Hr). destruct (IH (k + 1) x1 _ ltac:(lia) ltac:(lia) Hx1) as (x2&Hr2&Hx2&Hv2).
  exists x2. split; [done|]. split; [|intros _; by apply Hv2].
  assert (numbers (S n) k = (MyKey, sprintf k) :: numbers n (k + 1)) as ->.
  { unfold numbers. cbn [seq]. rewrite fmap_cons, Z.add_0_r, <- fmap_S_seq, <- list_fmap_compose. f_equal.
    apply list_fmap_ext. intros _ i _. cbn. do 2 f_equal. lia. }
  by rewrite reverse_cons, <- app_assoc.
Qed.

(** The state in the middle of reading is one that holds the history. *)
Lemma reading_holds hist key c x : reading hist key c x → kv_holds x hist.
Proof.
  intros (s&p&d&fd&Hs&Hp&Hh&Hv&Hd&Hjs&Hc&->). split; [by exists s|]. cbn [cache_data].
  rewrite fill_cache_length; [done|]. pose proof (matching_slots_length p key). lia.
Qed.

Lemma read_loop_hits hist fuel c x :
  reading hist MyKey c x → (c ≤ length (stored_values hist MyKey))%nat →
  (length (stored_values hist MyKey) < c + fuel)%nat →
  ∃ x', read_loop fuel x = Ok (tt, x') ∧ kv_holds x' hist.
Proof.
  revert c x. induction fuel as [|fuel IH]; intros c x Hr Hc Hf; [lia|]. cbn [read_loop].
  destruct (read_hit hist MyKey c x) as (r&x1&Hrun&Hcyc&Hr1); [exact MyKey_ok|exact Hr|]. rewrite (bind_ok _ _ _ _ _ Hrun).
  unfold read_cycle in Hcyc. destruct r as [v|].
  - assert (c < length (stored_values hist MyKey))%nat as Hlt.
    { destruct (decide (c = length (stored_values hist MyKey))) as [->|]; [|lia].
      rewrite lookup_app_r, length_fmap, Nat.sub_diag in Hcyc by (by rewrite length_fmap). done. }
    rewrite (proj2 (Nat.ltb_lt _ _)) in Hr1 by done. apply (IH (S c)); [done|lia|lia].
  - exists x1. split; [done|]. by eapply reading_holds.
Qed.

Lemma read_loop_ok hist fuel x :
  kv_holds x hist → cache_valid x = false → stored_values hist MyKey ≠ [] →
  (length (stored_values hist MyKey) < fuel)%nat →
  ∃ x', read_loop fuel x = Ok (tt, x') ∧ kv_holds x' hist.
Proof.
  intros Hx Hv Hne Hf. destruct fuel as [|fuel]; [lia|]. cbn [read_loop].
  destruct (read_miss hist MyKey x) as (r&x1&Hrun&Hcyc&Hr1); [exact MyKey_ok|exact Hx|exact Hv|exact Hne|]. rewrite (bind_ok _ _ _ _ _ Hrun).
  destruct r as [v|].
  - apply (read_loop_hits hist fuel 1); [done| |lia]. destruct (stored_values hist MyKey); [done|cbn; lia].
  - exists x1. split; [done|]. by eapply reading_holds.
Qed.

(** ** The program *)

(** Detaching from a store that has the name of the argument. *)
Lemma kv_store_destroy_ok nm s fd v i d k e :
  0 < s_protect s → strncmp_eq (NAME_MAX - 1) (name s) nm = true → munmap e ≠ -1 →
  ∃ r, kv_store_destroy (Some nm) e (mk_kv (Some s) fd v i d k) = Ok (r, mk_kv None fd false 0 empty_cache_data None).
Proof.
  intros Hp Hname Hm.
  unfold kv_store_destroy, sem_wait_store, sem_post_store, modify_store, get_store,
    sm_detach, sm_close, bind, modify, gets, gets_some, ret, reset_cache, set_cache, set_store,
    set_s_protect, set_clients. cbn [id store g_fd cache_valid cache_idx cache_data cache_key].
  rewrite (proj2 (Z.leb_gt _ _) Hp). cbn [store g_fd cache_valid cache_idx cache_data cache_key name clients s_protect buckets].
  rewrite Hname. cbn [negb].
  rewrite (proj2 (Z.eqb_neq _ _) Hm). cbn [negb Z.eqb KV_OK store g_fd cache_valid cache_idx cache_data cache_key].
  destruct (clients s - 1 <? 1), (shm_unlink e =? -1); by eexists.
Qed.

Definition printed : list (list Z) := content 65 :: content 66 :: ((λ k, until_nul (sprintf (Z.of_nat k))) <$> seq 0 17).
Definition written : list entry := reverse (numbers 17 0) ++ [(MyKey, content 66); (MyKey, content 65)].

Lemma written_stored : stored_values written MyKey = printed.
Proof. vm_compute. reflexivity. Qed.

Lemma created_name s : strncmp_eq (NAME_MAX - 1) (name (fresh_store STORE s)) STORE = true.
Proof. cbn [fresh_store name]. vm_compute. reflexivity. Qed.

(** C24: (the program of kv.c) when the object does not exist yet and the calls of the
    system succeed, [main] prints the nineteen values in the order in which they were
    written and returns 0, with the store unmapped: its loop of reads ends, after
    each value has been read once. *)
Theorem kv_main_prints e x s fuel :
  store x = None → first_creation e s → munmap e ≠ -1 → (19 < fuel)%nat →
  ∃ x', main e fuel x = Ok ((0, printed), x') ∧ store x' = None.
Proof.
  intros Hx He Hmu Hf. unfold main. rewrite (bind_ok _ _ _ _ _ (kv_store_create_ok x STORE e s Hx He)).
  pose proof (fresh_holds STORE s (open_store e) e He) as H0. set (x0 := mk_kv _ _ _ _ _ _) in *.
  assert (Hid : identity x0 = Some (name (fresh_store STORE s), 1)) by reflexivity. clearbody x0.
  destruct (kv_store_write_ok MyKey (content 65) x0 []) as (x1&Hr1&H1&_); [exact MyKey_ok|exact H0|].
  destruct (kv_store_write_ok MyKey (content 66) x1 [(MyKey, content 65)]) as (x2&Hr2&H2&Hv2&_); [exact MyKey_ok|exact H1|].
  destruct (write_loop_ok 17 0 x2 [(MyKey, content 66); (MyKey, content 65)]) as (x3&Hr3&H3&Hv3); [lia|lia|exact H2|].
  fold written in H3.
  destruct (read_loop_ok written fuel x3) as (x4&Hr4&H4);
    [exact H3|by apply Hv3|rewrite written_stored; discriminate|rewrite written_stored; exact Hf|].
  pose proof (kv_store_read_all_ok MyKey x4 written MyKey_ok H4) as Hr5. rewrite written_stored in Hr5.
  rewrite (bind_ok _ _ _ _ _ Hr1), (bind_ok _ _ _ _ _ Hr2), (bind_ok _ _ _ _ _ Hr3), (bind_ok _ _ _ _ _ Hr4),
    (bind_ok _ _ _ _ _ Hr5).
  assert (Hid4 : identity x4 = identity x0).
  { rewrite (keeps_read_loop _ _ _ _ Hr4), (keeps_write_loop _ _ _ _ _ Hr3), (keeps_write _ _ _ _ _ Hr2).
    apply (keeps_write _ _ _ _ _ Hr1). }
  destruct H4 as [(s4&Hs4&Hp4&_) _]. destruct x4 as [st fd v i d k]. cbn [store] in Hs4. subst st.
  rewrite Hid in Hid4. unfold identity in Hid4. cbn [store fmap option_fmap option_map] in Hid4. injection Hid4 as Hname _.
  destruct (kv_store_destroy_ok STORE s4 fd v i d k e) as [r Hr6];
    [lia|rewrite Hname; apply (created_name s)|exact Hmu|].
  eexists. cbn match. unfold printed at 1. rewrite (bind_ok _ _ _ _ _ Hr6). split; [reflexivity|reflexivity].
Qed.

(** When the object cannot be opened or mapped, [main] goes on without a store and
    dereferences the NULL of [kv_store_read_all]. *)
Theorem kv_main_without_store e x fuel :
  store x = None → open_store e = -1 ∨ mmap e = None → (0 < fuel)%nat → main e fuel x = Err Undefined.
Proof.
  intros Hx Hfail Hf. assert (∃ x1, kv_store_create (Some STORE) e x = Ok (-1, x1) ∧ store x1 = None) as (x1&Hr&Hx1).
  { unfold kv_store_create, sm_exists, sm_attach, bind, modify, gets, sm_create, ret, id. rewrite Hx.
    destruct Hfail as [-> | ->]; [by eexists|].
    repeat (match goal with |- context [if ?b then _ else _] => destruct b end; cbn); by eexists. }
  unfold main. rewrite (bind_ok _ _ _ _ _ Hr). clear Hr Hfail.
  assert (Hw : ∀ k v, kv_store_write k v x1 = Ok (-1, x1)).
  { intros [k|] [v|]; unfold kv_store_write, bind, gets, id; by rewrite ?Hx1. }
  assert (Hwl : ∀ n k, 0 ≤ k → k + Z.of_nat n ≤ 100 → write_loop n k x1 = Ok (tt, x1)).
  { induction n as [|n IH]; intros k Hk Hn; cbn [write_loop]; [done|].
    rewrite (proj2 (Nat.ltb_ge _ _)) by (apply sprintf_fits; lia). rewrite (bind_ok _ _ _ _ _ (Hw _ _)). apply IH; lia. }
  rewrite (bind_ok _ _ _ _ _ (Hw _ _)), (bind_ok _ _ _ _ _ (Hw _ _)), (bind_ok _ _ _ _ _ (Hwl 17%nat 0 ltac:(lia) ltac:(lia))).
  destruct fuel as [|fuel]; [lia|]. cbn [read_loop].
  assert (Hrd : kv_store_read (Some MyKey) x1 = Ok (None, x1)) by (unfold kv_store_read, bind, gets, id; by rewrite Hx1).
  rewrite bind_assoc, (bind_ok _ _ _ _ _ Hrd). cbn match. rewrite (bind_ok _ _ _ _ _ (ret_run _ _)).
  assert (Hra : kv_store_read_all (Some MyKey) x1 = Ok (None, x1)) by (unfold kv_store_read_all, bind, gets, id; by rewrite Hx1).
  by rewrite (bind_ok _ _ _ _ _ Hra).
Qed.

Lemma kv_main_prints_witness : ∃ x', main env0 20 process0 = Ok ((0, printed), x') ∧ store x' = None.
Proof. apply (kv_main_prints env0 process0 zero_store 20); [reflexivity|apply env0_first|discriminate|lia]. Defined.

Definition env_failing : shm_env := mk_shm_env (-1) (-1) 0 None 0 4096 0 0 4096.
Lemma kv_main_without_store_witness : main env_failing 20 process0 = Err Undefined.
Proof. apply (kv_main_without_store env_failing process0 20); [reflexivity|by left|lia]. Defined.
