(* ===== verification/Bitwise.v ===== *)
(** * The bit manipulation routines of bitwise-1

    asr.c (a portable arithmetic shift), div.c (remainder by a constant without
    division), hex.c (hexadecimal digits, eight at a time in a word), ascii.c
    (classifying eight characters at a time) and single-num.c (counting every
    bit position modulo [k] in parallel).  Words are integers; where the C code
    works on the eight bytes of a word at once, the section on lanes relates the
    word operations to the operations on each byte. *)
From S2P Require Import Prelude.
From stdpp Require Import list.
#[local] Open Scope Z_scope.
#[local] Open Scope c_scope.

(** ** asr.c *)

(** [>>] on a signed int is the implementation's choice: an arithmetic shift,
    or a logical shift of the representation. *)
Definition int_shr (arithmetic : bool) (m n : Z) : Z :=
  if arithmetic then Z.shiftr m n else i32 (Z.shiftr (u32 m) n).

Definition asr_i (arithmetic : bool) (m n : Z) : Z :=
  let shr := int_shr arithmetic in
  let logical := of_bool (0 <? shr (-1) 1) in
  let fixu := u32 (- Z.land logical (of_bool (m <? 0))) in
  let fix_ := i32 fixu in
  Z.lor (shr m n) (Z.lxor fix_ (shr fix_ n)).

(** ** div.c *)

Definition D : Z := 3.
Definition M_ : Z := u64 (0xFFFFFFFFFFFFFFFF / D + 1).

Definition quickmod (n : Z) : Z :=
  let quotient := u64 (Z.shiftr (wrapu 128 (M_ * n)) 64) in
  u32 (u64 (n - u64 (quotient * D))).

Definition divisible (n : Z) : bool := u64 (n * M_) <=? u64 (M_ - 1).

(** ** hex.c *)

Definition hexchar2val (in_ : Z) : Z :=
  let letter := Z.land in_ 0x40 in
  let shift := Z.lor (Z.shiftr letter 3) (Z.shiftr letter 6) in
  u8 (Z.land (in_ + shift) 0xf).

Definition PACKED_BYTE (b : Z) : Z := u64 (Z.land (u64 b) 0xff * 0x0101010101010101).

(** [hex |= (uint64_t) str[i] << ((size - i - 1) << 3)], for the characters from
    the [i]-th on. *)
Fixpoint pack_chars (size i : Z) (str : list Z) (hex : Z) : Z :=
  match str with
  | [] => hex
  | c :: str =>
      pack_chars size (i + 1) str
        (Z.lor hex (u64 (Z.shiftl (u64 (i8 c)) (Z.shiftl (size - i - 1) 3))))
  end.

(** [hex |= (raw >> (i << 2)) & (0xF << (i << 2))], where [0xF << (i << 2)] is an
    int and is converted to 64 bits with its sign. *)
Fixpoint pack_nibbles (raw i : Z) (n : nat) (hex : Z) : Z :=
  match n with
  | O => hex
  | S n =>
      let mask := u64 (i32 (Z.shiftl 0xF (Z.shiftl i 2))) in
      pack_nibbles raw (i + 1) n (Z.lor hex (Z.land (Z.shiftr raw (Z.shiftl i 2)) mask))
  end.

Definition hexstr2val (str : list Z) (size : nat) : result Z :=
  if negb ((0 <? size) && (size <=? 8))%nat then Err AssertFailed
  else
    let hex := pack_chars (Z.of_nat size) 0 (take size str) 0 in
    let letter := Z.land hex (PACKED_BYTE 0x40) in
    let shift := Z.lor (Z.shiftr letter 3) (Z.shiftr letter 6) in
    let raw := Z.land (u64 (hex + shift)) (PACKED_BYTE 0x0F) in
    Ok (pack_nibbles raw 0 size 0).

(** ** ascii.c *)

(** [memcpy(&payload, str + i, 8)]. *)
Definition load_word (str : list Z) (i : Z) : result Z :=
  let bs := take 8 (drop (Z.to_nat i) str) in
  if (length bs =? 8)%nat then Ok (le_decode bs) else Err Undefined.
Definition load_char (str : list Z) (i : Z) : result Z :=
  match str !! Z.to_nat i with Some b => Ok (i8 b) | None => Err Undefined end.

(** The two loops of a classification: words while [i + 8 <= size], then
    characters.  [width] is the width of the index variable. *)
Fixpoint scan_words (width : Z) (word_ok : Z → bool) (fuel : nat) (str : list Z) (size i : Z)
  : result (option Z) :=
  match fuel with
  | O => Err Exhausted
  | S fuel =>
      if wrapu width (i + 8) <=? size then
        match load_word str i with
        | Ok payload =>
            if word_ok payload then scan_words width word_ok fuel str size (wrapu width (i + 8))
            else Ok None
        | Err e => Err e
        end
      else Ok (Some i)
  end.

Fixpoint scan_chars (width : Z) (char_ok : Z → bool) (fuel : nat) (str : list Z) (size i : Z)
  : result bool :=
  match fuel with
  | O => Err Exhausted
  | S fuel =>
      if i <? size then
        match load_char str i with
        | Ok c =>
            if char_ok c then scan_chars width char_ok fuel str size (wrapu width (i + 1))
            else Ok false
        | Err e => Err e
        end
      else Ok true
  end.

Definition scan (width : Z) (word_ok char_ok : Z → bool) (fuel : nat) (str : list Z) (size : Z)
  : result bool :=
  if size =? 0 then Ok false
  else match scan_words width word_ok fuel str size 0 with
       | Ok (Some i) => scan_chars width char_ok fuel str size i
       | Ok None => Ok false
       | Err e => Err e
       end.

Definition is_ascii_word (payload : Z) : bool := negb (truthy (Z.land payload 0x8080808080808080)).
Definition is_ascii_char (c : Z) : bool := negb (truthy (Z.land c 0x80)).
Definition is_ascii := scan 32 is_ascii_word is_ascii_char.

Definition is_alphabet_word (chunk : Z) : bool :=
  if Z.land chunk (PACKED_BYTE 128) =? 0 then
    let chunk := Z.lor chunk (PACKED_BYTE 0x20) in
    let a := u64 (chunk + PACKED_BYTE (128 - 97)) in
    let z := u64 (chunk + PACKED_BYTE (128 - 122 - 1)) in
    PACKED_BYTE 128 =? Z.land (Z.lxor a z) (PACKED_BYTE 128)
  else false.
Definition is_alphabet_char (c : Z) : bool :=
  if Z.land c 128 =? 0 then
    let c := i8 (Z.lor c 0x20) in
    let a := i8 (c + (128 - 97)) in
    let z := i8 (c + (128 - 122 - 1)) in
    128 =? Z.land (Z.lxor a z) 128
  else false.
Definition is_alphabet := scan 64 is_alphabet_word is_alphabet_char.

(** ** single-num.c *)

Fixpoint singleNumber_loop (nums : list Z) (lower higher : Z) : Z :=
  match nums with
  | [] => lower
  | n :: nums =>
      let lower := Z.lxor lower n in
      let lower := Z.land lower (Z.lnot higher) in
      let higher := Z.lxor higher n in
      let higher := Z.land higher (Z.lnot lower) in
      singleNumber_loop nums lower higher
  end.
Definition singleNumber (nums : list Z) : Z := singleNumber_loop nums 0 0.

(** [msb = 32 - __builtin_clz(k)] and [op[i]], lowest index first. *)
Definition msb (k : Z) : nat := Z.to_nat (Z.log2 k + 1).
Definition op (k : Z) : list Z :=
  (λ i, i32 (0xFFFFFFFF * of_bool (negb (truthy (Z.land (Z.shiftl 1 (Z.of_nat i)) k)))))
    <$> seq 0 (msb k).

(** [for (i = msb - 1; i >= 0; --i) { carry = num; for (j = i - 1; ...) carry &= x[j]; x[i] ^= carry; }]:
    the entries below [i] are still unchanged when [x[i]] is updated. *)
Fixpoint add_num (i : nat) (num : Z) (x : list Z) : list Z :=
  match i with
  | O => x
  | S i =>
      let carry := fold_left Z.land (reverse (take i x)) num in
      add_num i num (alter (λ v, Z.lxor v carry) i x)
  end.

Definition reset_full (k : Z) (x : list Z) : list Z :=
  let mask := Z.lnot (fold_left Z.land (reverse (zip_with Z.lxor x (op k))) (i32 0xFFFFFFFF)) in
  (λ v, Z.land v mask) <$> x.

Fixpoint general_loop (k : Z) (nums : list Z) (x : list Z) : list Z :=
  match nums with
  | [] => x
  | n :: nums => general_loop k nums (reset_full k (add_num (msb k) n x))
  end.

Definition generalSingleNumber (k : Z) (nums : list Z) : result Z :=
  if negb (0 <? k) then Err AssertFailed
  else match general_loop k nums (replicate (msb k) 0) !! 0%nat with
       | Some r => Ok r
       | None => Err Undefined
       end.

(** ** Counting bits modulo k *)

(** Bit [b] of every entry of a list, the number such a column spells, and the
    number of elements that have bit [b]. *)
Definition column (b : Z) (x : list Z) : list bool := (λ v, Z.testbit v b) <$> x.
Fixpoint bits_value (l : list bool) : Z :=
  match l with [] => 0 | a :: l => Z.b2z a + 2 * bits_value l end.
Definition count_bit (b : Z) (nums : list Z) : Z :=
  foldr (λ n acc, Z.b2z (Z.testbit n b) + acc) 0 nums.

Section counting.
Implicit Types (x nums : list Z) (b c n k : Z) (l : list bool).

Fixpoint increment (c : Z) (x : list Z) : list Z :=
  match x with
  | [] => []
  | v :: x => Z.lxor v c :: increment (Z.land c v) x
  end.

Lemma testbit_fold_land x c b :
  Z.testbit (fold_left Z.land x c) b = Z.testbit c b && forallb (λ v, Z.testbit v b) x.
Proof.
  revert c. induction x as [|v x IH]; intros c; simpl; [by rewrite andb_true_r|].
  by rewrite IH, Z.land_spec, andb_assoc.
Qed.

Lemma fold_land_reverse x c : fold_left Z.land (reverse x) c = fold_left Z.land x c.
Proof.
  apply Z.bits_inj. intros b. rewrite !testbit_fold_land. f_equal.
  apply forallb_reverse.
Qed.

Lemma increment_lookup x c j :
  increment c x !! j = (λ v, Z.lxor v (fold_left Z.land (take j x) c)) <$> x !! j.
Proof. revert c j. by induction x as [|v x IH]; intros c [|j]; simpl; [..|rewrite IH]. Qed.

Lemma add_num_lookup i n x j :
  add_num i n x !! j =
  if decide (j < i)%nat then (λ v, Z.lxor v (fold_left Z.land (take j x) n)) <$> x !! j
  else x !! j.
Proof.
  revert x. induction i as [|i IH]; intros x; simpl; [done|].
  rewrite IH, fold_land_reverse. destruct (decide (j = i)) as [->|Hne].
  - rewrite decide_False, decide_True by lia. by rewrite list_lookup_alter_eq.
  - rewrite list_lookup_alter_ne by done. repeat case_decide; try lia; [|done].
    by rewrite take_alter_ge by lia.
Qed.

Lemma add_num_increment n x : add_num (length x) n x = increment n x.
Proof.
  apply list_eq. intros j. rewrite add_num_lookup, increment_lookup.
  case_decide; [done|]. by rewrite lookup_ge_None_2 by lia.
Qed.

Lemma bits_value_bound l : 0 ≤ bits_value l < 2 ^ Z.of_nat (length l).
Proof.
  induction l as [|a l IH]; cbn [bits_value length]; [done|].
  rewrite Nat2Z.inj_succ, Z.pow_succ_r by lia. destruct a; simpl; lia.
Qed.

Lemma bits_value_inj l l' :
  length l = length l' → bits_value l = bits_value l' → l = l'.
Proof.
  revert l'. induction l as [|a l IH]; intros [|a' l'] Hlen Heq; try done.
  cbn [bits_value] in Heq. assert (a = a') as -> by (destruct a, a'; simpl in Heq; [done|lia|lia|done]).
  f_equal. apply IH; [by injection Hlen|lia].
Qed.

(** The ripple-carry increment of every column by its bit of [c]. *)
Lemma increment_value b c x :
  bits_value (column b x) + Z.b2z (Z.testbit c b) < 2 ^ Z.of_nat (length x) →
  bits_value (column b (increment c x)) = bits_value (column b x) + Z.b2z (Z.testbit c b).
Proof.
  revert c. induction x as [|v x IH]; intros c.
  - simpl. destruct (Z.testbit c b); simpl; [lia|done].
  - cbn [column fmap list_fmap bits_value increment length].
    rewrite Nat2Z.inj_succ, Z.pow_succ_r by lia. intros Hlt.
    change (list_fmap _ _ ?f ?y) with (f <$> y) in *.
    fold (column b x) in *. fold (column b (increment (Z.land c v) x)).
    specialize (IH (Z.land c v)). rewrite Z.lxor_spec, Z.land_spec in *.
    destruct (Z.testbit v b), (Z.testbit c b); simpl in *; lia.
Qed.
End counting.
Section modulo.
Implicit Types (x nums : list Z) (b c n k : Z) (l : list bool).

(** The lowest [n] bits of [k]. *)
Definition low_bits (k : Z) (n : nat) : list bool := (λ i, Z.testbit k (Z.of_nat i)) <$> seq 0 n.

Lemma low_bits_value k (n : nat) : bits_value (low_bits k n) = k mod 2 ^ Z.of_nat n.
Proof.
  revert k. induction n as [|n IH]; intros k; [by rewrite Z.mod_1_r|].
  unfold low_bits. cbn [seq]. rewrite fmap_cons, <- fmap_S_seq, <- list_fmap_compose.
  rewrite (list_fmap_ext _ (λ i, Z.testbit (Z.div2 k) (Z.of_nat i)))
    by (intros; unfold compose; rewrite Z.div2_spec, Z.shiftr_spec by lia; f_equal; lia).
  cbn [bits_value]. fold (low_bits (Z.div2 k) n). rewrite IH.
  rewrite Nat2Z.inj_succ, Z.pow_succ_r, Z.div2_div, Z.rem_mul_r by lia.
  change (Z.of_nat 0) with 0. by rewrite Z.bit0_mod.
Qed.

Lemma low_bits_msb k : 0 < k → bits_value (low_bits k (msb k)) = k.
Proof.
  intros Hk. rewrite low_bits_value. apply Z.mod_small. unfold msb.
  pose proof (Z.log2_nonneg k). rewrite Z2Nat.id, Z.add_1_r by lia.
  pose proof (Z.log2_spec k Hk). lia.
Qed.

Lemma length_op k : length (op k) = msb k.
Proof. unfold op. by rewrite length_fmap, length_seq. Qed.

Lemma op_entry k i b :
  0 ≤ b →
  Z.testbit (i32 (0xFFFFFFFF * of_bool (negb (truthy (Z.land (Z.shiftl 1 (Z.of_nat i)) k))))) b =
  negb (Z.testbit k (Z.of_nat i)).
Proof.
  intros Hb.
  assert (truthy (Z.land (Z.shiftl 1 (Z.of_nat i)) k) = Z.testbit k (Z.of_nat i)) as ->.
  { rewrite Z.land_comm, Z.shiftl_1_l. unfold truthy.
    destruct (Z.testbit k (Z.of_nat i)) eqn:Hk.
    - apply negb_true_iff, Z.eqb_neq. intros H0.
      assert (Z.testbit (Z.land k (2 ^ Z.of_nat i)) (Z.of_nat i) = true) as H1
        by (by rewrite Z.land_spec, Hk, Z.pow2_bits_true by lia).
      by rewrite H0, Z.bits_0 in H1.
    - apply negb_false_iff, Z.eqb_eq. apply Z.bits_inj'. intros j Hj.
      rewrite Z.land_spec, Z.bits_0, Z.pow2_bits_eqb by lia.
      destruct (Z.eqb_spec (Z.of_nat i) j) as [<-|?]; [by rewrite Hk|by rewrite andb_false_r]. }
  destruct (Z.testbit k (Z.of_nat i)); [by rewrite Z.bits_0|].
  change (i32 (0xFFFFFFFF * of_bool (negb false))) with (-1). by rewrite Z.bits_m1 by lia.
Qed.

(** The mask has bit [b] exactly when column [b] spells [k]. *)
Lemma full_column k x b :
  0 ≤ b → 0 < k → length x = msb k →
  Z.testbit (fold_left Z.land (reverse (zip_with Z.lxor x (op k))) (i32 0xFFFFFFFF)) b =
  (bits_value (column b x) =? k).
Proof.
  intros Hb Hk Hlen. rewrite fold_land_reverse, testbit_fold_land.
  change (i32 0xFFFFFFFF) with (-1). rewrite Z.bits_m1 by lia. rewrite andb_true_l.
  transitivity (forallb (λ p, eqb p.1 p.2) (zip (column b x) (low_bits k (msb k)))).
  - unfold column, low_bits, op. rewrite <- Hlen. clear Hlen. generalize 0%nat at 1 2.
    induction x as [|v x IH]; intros m; [done|]. cbn. rewrite Z.lxor_spec, op_entry by done.
    fold (seq (S m) (length x)). f_equal; [|apply IH].
    by destruct (Z.testbit v b), (Z.testbit k (Z.of_nat m)).
  - assert (length (column b x) = length (low_bits k (msb k))) as Hl
      by (unfold column, low_bits; rewrite !length_fmap, length_seq; done).
    pose proof (low_bits_msb k Hk) as Hv. set (l := low_bits k (msb k)) in *.
    rewrite <- Hv. clear Hv. clearbody l. revert l Hl. generalize (column b x).
    intros l. induction l as [|a l IH]; intros [|a' l'] Hl; try done.
    cbn. rewrite (IH l') by (by injection Hl). cbn [bits_value].
    pose proof (bits_value_bound l). pose proof (bits_value_bound l').
    destruct a, a'; cbn [eqb Z.b2z andb];
      repeat destruct (Z.eqb_spec _ _); try done; lia.
Qed.

Lemma length_increment c x : length (increment c x) = length x.
Proof. revert c. induction x as [|v x IH]; intros c; simpl; [done|by rewrite IH]. Qed.

Lemma length_reset k x : length (reset_full k x) = length x.
Proof. apply length_fmap. Qed.

Lemma reset_column k x b :
  0 ≤ b → 0 < k → length x = msb k →
  bits_value (column b (reset_full k x)) =
  if bits_value (column b x) =? k then 0 else bits_value (column b x).
Proof.
  intros Hb Hk Hlen. pose proof (full_column k x b Hb Hk Hlen) as Hm.
  unfold reset_full. set (mask := fold_left _ _ _) in *. clearbody mask.
  rewrite <- Hm. unfold column. rewrite <- list_fmap_compose.
  rewrite (list_fmap_ext _ (λ v, Z.testbit v b && negb (Z.testbit mask b)))
    by (intros; unfold compose; by rewrite Z.land_spec, Z.lnot_spec).
  destruct (Z.testbit mask b); simpl.
  - clear. induction x as [|v x IH]; [done|]. rewrite fmap_cons, andb_false_r. cbn. by rewrite IH.
  - f_equal. apply list_fmap_ext. intros. by rewrite andb_true_r.
Qed.

(** Every column counts the numbers with its bit, modulo [k]. *)
Lemma general_loop_counts k nums x b :
  0 ≤ b → 0 < k → length x = msb k → bits_value (column b x) < k →
  length (general_loop k nums x) = msb k ∧
  bits_value (column b (general_loop k nums x)) = (bits_value (column b x) + count_bit b nums) mod k.
Proof.
  intros Hb Hk. revert x. induction nums as [|n nums IH]; intros x Hlen Hlt; cbn [general_loop].
  - split; [done|]. simpl. pose proof (bits_value_bound (column b x)).
    rewrite Z.add_0_r, Z.mod_small; lia.
  - pose proof (bits_value_bound (column b x)) as Hv0.
    assert (k < 2 ^ Z.of_nat (length x)) as Hpow.
    { pose proof (bits_value_bound (low_bits k (msb k))) as H.
      rewrite low_bits_msb in H by done. unfold low_bits in H.
      rewrite length_fmap, length_seq in H. rewrite Hlen. lia. }
    pose proof (increment_value b n x ltac:(destruct (Z.testbit n b); simpl; lia)) as Hinc.
    rewrite <- Hlen, add_num_increment. set (y := increment n x) in *.
    assert (length y = msb k) as Hy by (unfold y; by rewrite length_increment).
    pose proof (reset_column k y b Hb Hk Hy) as Hr. rewrite Hinc in Hr.
    specialize (IH (reset_full k y)). rewrite length_reset, Hr in IH.
    destruct IH as [Hl Hc]; [done|destruct (Z.eqb_spec (bits_value (column b x) + Z.b2z (Z.testbit n b)) k);
      destruct (Z.testbit n b); simpl in *; lia|].
    rewrite Hlen. split; [done|]. rewrite Hc. cbn [count_bit foldr]. fold (count_bit b nums).
    destruct (Z.eqb_spec (bits_value (column b x) + Z.b2z (Z.testbit n b)) k) as [Heq|]; [|f_equal; lia].
    rewrite Z.add_assoc, Heq, Z.add_0_l. rewrite <- (Z.mod_add _ 1 k) by lia. f_equal. lia.
Qed.

Lemma count_bit_nonneg b nums : 0 ≤ count_bit b nums.
Proof. induction nums; cbn [count_bit foldr]; [done|]. unfold count_bit in *. destruct (Z.testbit _ _); simpl; lia. Qed.

Lemma general_counts k nums :
  0 < k → ∃ r, generalSingleNumber k nums = Ok r ∧
    ∀ b, 0 ≤ b → Z.testbit r b = Z.odd (count_bit b nums mod k).
Proof.
  intros Hk. unfold generalSingleNumber. rewrite (proj2 (Z.ltb_lt _ _) Hk). simpl.
  assert (Hz : ∀ b (n : nat), bits_value (column b (replicate n 0)) = 0).
  { intros b n. induction n as [|n IHn]; [done|]. unfold column in *. cbn [replicate].
    rewrite fmap_cons, Z.bits_0. cbn [bits_value]. by rewrite IHn. }
  assert (Hl : ∀ b, 0 ≤ b → let y := general_loop k nums (replicate (msb k) 0) in
    length y = msb k ∧ bits_value (column b y) = count_bit b nums mod k).
  { intros b Hb y. destruct (general_loop_counts k nums (replicate (msb k) 0) b Hb Hk) as [H1 H2].
    - apply length_replicate.
    - rewrite Hz. lia.
    - by rewrite Hz, Z.add_0_l in H2. }
  cbn zeta in Hl. set (y := general_loop _ _ _) in *. clearbody y.
  destruct (Hl 0 ltac:(lia)) as [Hlen _]. pose proof (Z.log2_nonneg k).
  destruct y as [|r y]; [simpl in Hlen; unfold msb in Hlen; lia|].
  exists r. split; [done|]. intros b Hb. destruct (Hl b Hb) as [_ <-].
  unfold column. rewrite fmap_cons. cbn [bits_value]. rewrite Z.odd_add_mul_2. by destruct (Z.testbit r b).
Qed.

(** The two counters of [singleNumber], for one bit position. *)
Lemma single_counts nums lower higher b c :
  0 ≤ b → Z.testbit lower b = (c =? 1) → Z.testbit higher b = (c =? 2) → 0 ≤ c < 3 →
  Z.testbit (singleNumber_loop nums lower higher) b = Z.odd ((c + count_bit b nums) mod 3).
Proof.
  intros Hb. revert lower higher c. induction nums as [|n nums IH]; intros lower higher c Hlo Hhi Hc.
  - simpl. rewrite Z.add_0_r, Z.mod_small, Hlo by lia.
    assert (c = 0 ∨ c = 1 ∨ c = 2) as [->|[->| ->]] by lia; done.
  - cbn [singleNumber_loop]. set (a := Z.b2z (Z.testbit n b)).
    rewrite (IH _ _ ((c + a) mod 3)).
    + rewrite Z.add_mod_idemp_l by lia. cbn [count_bit foldr]. by rewrite <- Z.add_assoc.
    + rewrite Z.land_spec, Z.lxor_spec, Z.lnot_spec, Hlo, Hhi by done. unfold a.
      assert (c = 0 ∨ c = 1 ∨ c = 2) as [->|[->| ->]] by lia; by destruct (Z.testbit n b).
    + rewrite !Z.land_spec, !Z.lxor_spec, !Z.lnot_spec, !Z.land_spec, Z.lxor_spec, Z.lnot_spec, Hlo, Hhi by done.
      unfold a. assert (c = 0 ∨ c = 1 ∨ c = 2) as [->|[->| ->]] by lia; by destruct (Z.testbit n b).
    + apply Z.mod_pos_bound. lia.
Qed.

Lemma count_bit_app b xs ys : count_bit b (xs ++ ys) = count_bit b xs + count_bit b ys.
Proof. induction xs as [|v xs IH]; cbn in *; [done|]. unfold count_bit in *. lia. Qed.

Lemma count_bit_perm b xs ys : xs ≡ₚ ys → count_bit b xs = count_bit b ys.
Proof. unfold count_bit. induction 1; simpl; lia. Qed.

Lemma count_bit_repeat b (n : nat) xs :
  count_bit b (concat (replicate n xs)) = Z.of_nat n * count_bit b xs.
Proof.
  induction n as [|n IH]; [done|]. cbn [replicate concat]. rewrite count_bit_app, IH. lia.
Qed.
End modulo.

(** ** Bytes and lanes *)

Definition is_byte (b : Z) : Prop := 0 ≤ b < 256.

Section lanes.
Implicit Types (bs cs : list Z).

(** A decidable fact about bytes holds for every byte when it evaluates so. *)
Lemma forall_bytes (P : Z → bool) b :
  forallb P (seqZ 0 256) = true → is_byte b → P b = true.
Proof. intros HP Hb. rewrite forallb_forall in HP. apply HP, list_elem_of_In, elem_of_seqZ. unfold is_byte in Hb. lia. Qed.

Lemma Forall_ascii (P : Z → bool) bs :
  Forall (λ c, 0 ≤ c < 128) bs → forallb P (seqZ 0 128) = true → Forall (λ b, P b = true) bs.
Proof.
  intros Hbs HP. apply (Forall_impl _ _ _ Hbs). intros b Hb. rewrite forallb_forall in HP.
  apply HP, list_elem_of_In, elem_of_seqZ. cbn beta in Hb. lia.
Qed.

Lemma testbit_byte b n : is_byte b → 8 ≤ n → Z.testbit b n = false.
Proof.
  intros [Hb0 Hb] Hn. destruct (Z.eq_dec b 0) as [->|]; [apply Z.bits_0|].
  apply Z.bits_above_log2; [done|]. assert (Z.log2 b < 8); [|lia]. apply Z.log2_lt_pow2; lia.
Qed.

Lemma testbit_cons b x n :
  is_byte b → 0 ≤ n →
  Z.testbit (b + 256 * x) n = if n <? 8 then Z.testbit b n else Z.testbit x (n - 8).
Proof.
  intros Hb Hn. change 256 with (2 ^ 8). destruct (Z.ltb_spec n 8).
  - rewrite <- (Z.mod_pow2_bits_low _ 8) by lia. rewrite (Z.mul_comm (2 ^ 8)), Z.mod_add by lia.
    unfold is_byte in Hb. rewrite Z.mod_small by lia. done.
  - replace n with ((n - 8) + 8) at 1 by lia. rewrite <- Z.div_pow2_bits by lia.
    rewrite (Z.mul_comm (2 ^ 8)), Z.div_add by lia. unfold is_byte in Hb.
    rewrite (Z.div_small b) by lia. done.
Qed.

(** A bitwise operation on words works on each byte. *)
Definition bitwise (op : Z → Z → Z) : Prop :=
  ∃ f, f false false = false ∧
    ∀ x y n, Z.testbit (op x y) n = f (Z.testbit x n) (Z.testbit y n).

Lemma bitwise_land : bitwise Z.land.
Proof. exists andb. split; [done|apply Z.land_spec]. Qed.
Lemma bitwise_lor : bitwise Z.lor.
Proof. exists orb. split; [done|apply Z.lor_spec]. Qed.
Lemma bitwise_lxor : bitwise Z.lxor.
Proof. exists xorb. split; [done|apply Z.lxor_spec]. Qed.

Lemma bitwise_byte op a b : bitwise op → is_byte a → is_byte b → is_byte (op a b).
Proof.
  intros (f&Hf&Hop) Ha Hb. assert (op a b = op a b mod 2 ^ 8) as ->; [|apply Z.mod_pos_bound; lia].
  apply Z.bits_inj'. intros n Hn. destruct (Z.ltb_spec n 8).
  - by rewrite Z.mod_pow2_bits_low by lia.
  - rewrite Z.mod_pow2_bits_high by lia. by rewrite Hop, !testbit_byte by (done || lia).
Qed.

Lemma bitwise_cons op a b x y :
  bitwise op → is_byte a → is_byte b → op (a + 256 * x) (b + 256 * y) = op a b + 256 * op x y.
Proof.
  intros Hop Ha Hb. pose proof (bitwise_byte op a b Hop Ha Hb) as Hab.
  destruct Hop as (f&Hf&Hop). apply Z.bits_inj'. intros n Hn.
  rewrite Hop, !testbit_cons by done. destruct (n <? 8); by rewrite Hop.
Qed.

Lemma lanes op bs cs :
  bitwise op → Forall is_byte bs → Forall is_byte cs → length bs = length cs →
  op (le_decode bs) (le_decode cs) = le_decode (zip_with op bs cs).
Proof.
  intros Hop Hbs. revert cs. induction Hbs as [|b bs Hb _ IH]; intros [|c cs] Hcs Hlen; try done.
  - destruct Hop as (f&Hf&Hop). apply Z.bits_inj. intros n. cbn. by rewrite Hop, Z.bits_0.
  - apply Forall_cons in Hcs as [Hc Hcs]. cbn. rewrite bitwise_cons, IH; auto.
Qed.

Lemma lanes_add bs cs :
  length bs = length cs → le_decode bs + le_decode cs = le_decode (zip_with Z.add bs cs).
Proof.
  revert cs. induction bs as [|b bs IH]; intros [|c cs] Hlen; try done.
  cbn. rewrite <- IH by (by injection Hlen). lia.
Qed.

Lemma le_decode_bound bs : Forall is_byte bs → 0 ≤ le_decode bs < 256 ^ Z.of_nat (length bs).
Proof.
  unfold is_byte. induction 1 as [|b bs Hb _ IH]; [done|]. cbn [le_decode length].
  rewrite Nat2Z.inj_succ, Z.pow_succ_r by lia. lia.
Qed.

Lemma le_decode_inj bs cs :
  Forall is_byte bs → Forall is_byte cs → length bs = length cs →
  le_decode bs = le_decode cs → bs = cs.
Proof.
  unfold is_byte. intros Hbs. revert cs. induction Hbs as [|b bs Hb _ IH]; intros [|c cs] Hcs Hlen Heq; try done.
  apply Forall_cons in Hcs as [Hc Hcs]. cbn in Heq. assert (b = c) as -> by lia.
  f_equal. apply IH; [done|by injection Hlen|lia].
Qed.

Lemma packed b : is_byte b → PACKED_BYTE b = le_decode (replicate 8 b).
Proof.
  intros Hb. unfold PACKED_BYTE, is_byte in *. rewrite (wrapu_small 64 b) by lia.
  change 0xff with (Z.ones 8). rewrite Z.land_ones, (Z.mod_small b) by lia. rewrite wrapu_small by lia. cbn. lia.
Qed.

Lemma zip_replicate {A B C} (f : A → B → C) (l : list A) b :
  zip_with f l (replicate (length l) b) = (λ a, f a b) <$> l.
Proof. induction l as [|a l IH]; [done|]. cbn. by rewrite IH. Qed.

(** Operations of a whole word with one byte in every lane. *)
Lemma lanes_packed op bs b :
  bitwise op → Forall is_byte bs → is_byte b → length bs = 8%nat →
  op (le_decode bs) (PACKED_BYTE b) = le_decode ((λ a, op a b) <$> bs).
Proof.
  intros Hop Hbs Hb Hlen. rewrite packed by done.
  rewrite lanes by (done || by apply Forall_replicate || by rewrite length_replicate).
  by rewrite <- Hlen, zip_replicate.
Qed.

Lemma lanes_add_packed bs b :
  Forall (λ a, is_byte (a + b)) bs → is_byte b → length bs = 8%nat →
  u64 (le_decode bs + PACKED_BYTE b) = le_decode ((λ a, a + b) <$> bs).
Proof.
  intros Hbs Hb Hlen. rewrite packed by done.
  rewrite lanes_add by (by rewrite length_replicate).
  rewrite <- Hlen at 1. rewrite zip_replicate. apply wrapu_small.
  pose proof (le_decode_bound ((λ a, a + b) <$> bs)) as Hd.
  rewrite length_fmap, Hlen in Hd. apply Hd. by apply Forall_fmap.
Qed.

Lemma le_decode_0 bs : Forall is_byte bs → (le_decode bs =? 0) = forallb (λ b, b =? 0) bs.
Proof.
  unfold is_byte. induction 1 as [|b bs Hb Hbs IH]; [done|]. cbn [le_decode forallb].
  rewrite <- IH. pose proof (le_decode_bound bs Hbs).
  repeat destruct (Z.eqb_spec _ _); simpl; lia || done.
Qed.
End lanes.

(** ** Scanning a string eight characters at a time *)

Section scanning.
Variables (width : Z) (word_ok char_ok byte_ok : Z → bool) (str : list Z).
Hypothesis Hbytes : Forall is_byte str.
Hypothesis Hwidth : 0 ≤ width.
Hypothesis Hlen : Z.of_nat (length str) + 8 < 2 ^ width.
Hypothesis Hword : ∀ bs, Forall is_byte bs → length bs = 8%nat →
  word_ok (le_decode bs) = forallb byte_ok bs.
Hypothesis Hchar : ∀ b, is_byte b → char_ok (i8 b) = byte_ok b.

Let size := Z.of_nat (length str).

Lemma scan_words_ok fuel (i : nat) :
  (i ≤ length str)%nat → (length str - i < fuel)%nat →
  ∃ r, scan_words width word_ok fuel str size (Z.of_nat i) = Ok r ∧
    match r with
    | Some j => ∃ j', j = Z.of_nat j' ∧ (j' ≤ length str)%nat ∧
        forallb byte_ok (drop i str) = forallb byte_ok (drop j' str)
    | None => forallb byte_ok (drop i str) = false
    end.
Proof.
  revert i. induction fuel as [|fuel IH]; intros i Hi Hf; [lia|]. cbn [scan_words].
  unfold size in *. destruct (decide (i + 8 ≤ length str)%nat) as [Hle|Hgt].
  - rewrite wrapu_small by lia. rewrite (proj2 (Z.leb_le _ _)) by lia.
    unfold load_word. rewrite Nat2Z.id, length_take_le by (rewrite length_drop; lia).
    cbn [Nat.eqb]. set (bs := take 8 (drop i str)).
    assert (drop i str = bs ++ drop (i + 8) str) as -> by (unfold bs; by rewrite <- drop_drop, take_drop).
    rewrite Hword by (unfold bs; first [by apply Forall_take, Forall_drop | rewrite length_take_le; [done|rewrite length_drop; lia]]).
    rewrite forallb_app. destruct (forallb byte_ok bs); [|by exists None].
    replace (Z.of_nat i + 8) with (Z.of_nat (i + 8)) by lia. apply IH; lia.
  - exists (Some (Z.of_nat i)). split; [|eauto].
    by rewrite wrapu_small, (proj2 (Z.leb_gt _ _)) by lia.
Qed.

Lemma scan_chars_ok fuel (i : nat) :
  (i ≤ length str)%nat → (length str - i < fuel)%nat →
  scan_chars width char_ok fuel str size (Z.of_nat i) = Ok (forallb byte_ok (drop i str)).
Proof.
  revert i. induction fuel as [|fuel IH]; intros i Hi Hf; [lia|]. cbn [scan_chars].
  unfold size in *. destruct (decide (i < length str)%nat) as [Hlt|Hge].
  - rewrite (proj2 (Z.ltb_lt _ _)) by lia. unfold load_char. rewrite Nat2Z.id.
    destruct (lookup_lt_is_Some_2 str i Hlt) as [b Hb]. rewrite Hb.
    rewrite (drop_S str b i Hb), Hchar by (by eapply Forall_lookup_1). cbn [forallb].
    destruct (byte_ok b); [|done]. rewrite wrapu_small by lia.
    replace (Z.of_nat i + 1) with (Z.of_nat (S i)) by lia. apply IH; lia.
  - rewrite (proj2 (Z.ltb_ge _ _)) by lia. by rewrite drop_ge by lia.
Qed.

Lemma scan_ok :
  scan width word_ok char_ok (S (length str)) str size =
  Ok (match str with [] => false | _ => forallb byte_ok str end).
Proof.
  unfold scan. destruct (Z.eqb_spec size 0) as [H0|Hne]; [by destruct str|].
  destruct (scan_words_ok (S (length str)) 0) as (r&Hr&Hres); [lia..|].
  change (Z.of_nat 0) with 0 in Hr. rewrite Hr.
  assert (match str with [] => false | _ => forallb byte_ok str end = forallb byte_ok str) as ->
    by (by destruct str).
  rewrite drop_0 in Hres. destruct r as [j|]; [|by rewrite Hres].
  destruct Hres as (j'&->&Hj&->). apply scan_chars_ok; lia.
Qed.
End scanning.

(** ** Hexadecimal words *)

Section hexadecimal.
Implicit Types (bs ds : list Z).

Lemma pack_chars_ok size i (str : list Z) h :
  Forall (λ c, 0 ≤ c < 128) str → size - i = Z.of_nat (length str) → (length str ≤ 8)%nat →
  pack_chars size i str (256 ^ Z.of_nat (length str) * h) =
    256 ^ Z.of_nat (length str) * h + le_decode (reverse str).
Proof.
  intros Hstr. revert i h. induction Hstr as [|c str Hc _ IH]; intros i h Hsize Hlen.
  - cbn. lia.
  - cbn [pack_chars length] in *. set (n := length str) in *.
    rewrite (wraps_small 8) by lia. rewrite (wrapu_small 64 c) by lia.
    rewrite (Z.shiftl_mul_pow2 _ 3), !Z.shiftl_mul_pow2 by lia.
    replace ((size - i - 1) * 2 ^ 3) with (8 * Z.of_nat n) by lia.
    rewrite Z.pow_mul_r by lia. change (2 ^ 8) with 256.
    assert (256 ^ Z.of_nat n ≤ 256 ^ 7) by (apply Z.pow_le_mono_r; lia).
    rewrite wrapu_small by nia.
    assert (Z.lor (256 ^ Z.of_nat (S n) * h) (c * 256 ^ Z.of_nat n) = 256 ^ Z.of_nat n * (c + 256 * h)) as ->.
    { rewrite Nat2Z.inj_succ, Z.pow_succ_r by lia. change 256 with (2 ^ 8) at 2 3.
      rewrite <- Z.pow_mul_r by lia. rewrite Z.lor_comm.
      replace (256 * 2 ^ (8 * Z.of_nat n) * h) with (Z.shiftl (Z.shiftl h 8) (8 * Z.of_nat n))
        by (rewrite !Z.shiftl_mul_pow2 by lia; lia).
      rewrite <- (Z.shiftl_mul_pow2 c) by lia. rewrite <- Z.shiftl_lor, lor_disjoint by lia.
      rewrite Z.shiftl_mul_pow2, Z.pow_mul_r by lia. change (2 ^ 8) with 256. ring. }
    rewrite IH by lia. rewrite reverse_cons, le_decode_app, length_reverse. fold n.
    rewrite Nat2Z.inj_succ, Z.pow_succ_r by lia. cbn [le_decode]. lia.
Qed.

Lemma lanes_shiftr k bs :
  0 ≤ k → Forall (λ b, b mod 2 ^ k = 0) bs →
  Z.shiftr (le_decode bs) k = le_decode ((λ b, Z.shiftr b k) <$> bs).
Proof.
  intros Hk Hbs. rewrite Z.shiftr_div_pow2 by done.
  assert (le_decode bs = le_decode ((λ b, Z.shiftr b k) <$> bs) * 2 ^ k) as ->;
    [|by apply Z.div_mul; lia].
  induction Hbs as [|b bs Hb _ IH]; [done|]. cbn [fmap list_fmap le_decode].
  change (list_fmap _ _ ?f ?y) with (f <$> y) in *. rewrite IH, Z.shiftr_div_pow2 by done.
  pose proof (Z.div_mod b (2 ^ k) ltac:(lia)). lia.
Qed.

Lemma zip_fmap_same (f g : Z → Z) (op : Z → Z → Z) bs :
  zip_with op (f <$> bs) (g <$> bs) = (λ b, op (f b) (g b)) <$> bs.
Proof. induction bs as [|b bs IH]; [done|]. cbn in *. by rewrite IH. Qed.

(** The conversion of eight characters in parallel. *)
Lemma convert_lanes bs :
  Forall (λ c, 0 ≤ c < 128) bs → length bs = 8%nat →
  let hex := le_decode bs in
  let letter := Z.land hex (PACKED_BYTE 0x40) in
  let shift := Z.lor (Z.shiftr letter 3) (Z.shiftr letter 6) in
  Z.land (u64 (hex + shift)) (PACKED_BYTE 0x0F) = le_decode (hexchar2val <$> bs).
Proof.
  intros Hbs Hlen hex letter shift.
  assert (Forall is_byte bs) as Hb by (eapply Forall_impl; [done|]; unfold is_byte; lia).
  pose proof (λ P, Forall_ascii P bs Hbs) as Hall.
  unfold shift, letter, hex. rewrite lanes_packed by (done || apply bitwise_land).
  set (let1 := λ a, Z.land a 0x40).
  assert (∀ k, k = 3 ∨ k = 6 → Forall (λ b, b mod 2 ^ k = 0) (let1 <$> bs)) as Hm.
  { intros k Hk. apply Forall_fmap. eapply Forall_impl;
      [apply (Hall (λ b, (let1 b mod 2 ^ 3 =? 0) && (let1 b mod 2 ^ 6 =? 0))); by vm_compute|].
    intros b H. cbn beta in H. bool_to_prop. by destruct Hk as [-> | ->]. }
  rewrite !lanes_shiftr by first [done | apply Hm; auto]. rewrite <- !list_fmap_compose.
  rewrite lanes, zip_fmap_same; [|apply bitwise_lor| | |by rewrite !length_fmap].
  2,3: apply Forall_fmap; eapply Forall_impl;
    [apply (Hall (λ b, (0 <=? Z.shiftr (let1 b) 3) && (Z.shiftr (let1 b) 3 <? 256)
       && (0 <=? Z.shiftr (let1 b) 6) && (Z.shiftr (let1 b) 6 <? 256))); by vm_compute|];
    intros b H; cbn beta in H; unfold is_byte, compose; bool_to_prop; lia.
  rewrite lanes_add by (by rewrite length_fmap).
  set (shift1 := λ b, _). rewrite <- (list_fmap_id bs) at 1. rewrite zip_fmap_same.
  set (sum := λ b, _).
  assert (Forall is_byte (sum <$> bs)) as Hsum.
  { apply Forall_fmap. eapply Forall_impl;
      [apply (Hall (λ b, (0 <=? sum b) && (sum b <? 256))); by vm_compute|].
    intros b H. cbn beta in H. unfold is_byte, compose. bool_to_prop. lia. }
  pose proof (le_decode_bound _ Hsum) as Hd. rewrite length_fmap, Hlen in Hd.
  rewrite wrapu_small by exact Hd.
  rewrite lanes_packed by (done || apply bitwise_land || by rewrite length_fmap).
  f_equal. rewrite <- list_fmap_compose. apply list_fmap_ext. intros i b Hi.
  assert (∀ x y, (x =? y) = true → x = y) as Heq by (intros; bool_to_prop; done). apply Heq.
  revert i b Hi. apply Forall_lookup. apply (Hall (λ b, Z.land (sum b) 15 =? hexchar2val b)).
  by vm_compute.
Qed.

Definition is_nibble (d : Z) : Prop := 0 ≤ d < 16.

Fixpoint nibbles_decode (ds : list Z) : Z :=
  match ds with [] => 0 | d :: ds => d + 16 * nibbles_decode ds end.

(** The mask of step [i]: one nibble, sign-extended to the top at [i = 7]. *)
Lemma mask_shape i :
  0 ≤ i < 8 → u64 (i32 (Z.shiftl 0xF (Z.shiftl i 2))) = Z.shiftl (if i =? 7 then Z.ones 36 else 15) (4 * i).
Proof.
  intros Hi.
  assert (i = 0 ∨ i = 1 ∨ i = 2 ∨ i = 3 ∨ i = 4 ∨ i = 5 ∨ i = 6 ∨ i = 7) as H by lia.
  repeat destruct H as [->|H]; [by vm_compute..|]. subst i. by vm_compute.
Qed.

Lemma nibble_step ds d ds' i :
  Forall is_nibble ds → length ds = 8%nat → drop (Z.to_nat i) ds = d :: ds' → 0 ≤ i < 8 →
  Z.land (Z.shiftr (le_decode ds) (Z.shiftl i 2)) (u64 (i32 (Z.shiftl 0xF (Z.shiftl i 2)))) =
  Z.shiftl d (4 * i).
Proof.
  intros Hds Hlen Hd Hi. rewrite mask_shape by done.
  rewrite (Z.shiftl_mul_pow2 i 2), Z.mul_comm by lia. change (2 ^ 2) with 4.
  rewrite land_shiftl, Z.shiftr_shiftr by lia. f_equal.
  assert (Z.shiftr (le_decode ds) (4 * i + 4 * i) = d + 256 * le_decode ds') as ->.
  { rewrite Z.shiftr_div_pow2 by lia. replace (4 * i + 4 * i) with (8 * i) by lia.
    rewrite Z.pow_mul_r by lia. change (2 ^ 8) with 256.
    rewrite <- (take_drop (Z.to_nat i) ds), le_decode_app, Hd, length_take_le, Z2Nat.id by lia.
    rewrite Z.mul_comm, Z.div_add by lia. rewrite Z.div_small; [done|].
    pose proof (le_decode_bound (take (Z.to_nat i) ds)) as Hb.
    rewrite length_take_le, Z2Nat.id in Hb by lia. apply Hb, Forall_take.
    eapply Forall_impl; [done|]. unfold is_nibble, is_byte. lia. }
  assert (Forall is_nibble (d :: ds')) as [Hdn Hds']%Forall_cons
    by (rewrite <- Hd; by apply Forall_drop).
  unfold is_nibble in Hdn. destruct (Z.eqb_spec i 7) as [->|].
  - apply (f_equal length) in Hd. rewrite length_drop, Hlen in Hd. destruct ds'; [|simpl in Hd; lia].
    rewrite Z.land_ones by lia. cbn. rewrite Z.add_0_r, Z.mod_small; lia.
  - change 15 with (Z.ones 4). rewrite Z.land_ones by lia. change 256 with (16 * 2 ^ 4).
    rewrite (Z.mul_comm _ (2 ^ 4)), <- Z.mul_assoc, (Z.mul_comm (2 ^ 4)), Z.mod_add by lia.
    apply Z.mod_small. lia.
Qed.

Lemma pack_nibbles_ok ds (i n : nat) hex :
  Forall is_nibble ds → length ds = 8%nat → (i + n ≤ 8)%nat → 0 ≤ hex < 16 ^ Z.of_nat i →
  pack_nibbles (le_decode ds) (Z.of_nat i) n hex =
    hex + 16 ^ Z.of_nat i * nibbles_decode (take n (drop i ds)).
Proof.
  intros Hds Hlen. revert i hex. induction n as [|n IH]; intros i hex Hn Hhex; [rewrite take_0; cbn [pack_nibbles nibbles_decode]; ring|].
  cbn [pack_nibbles]. destruct (drop i ds) as [|d ds'] eqn:Hd.
  { apply (f_equal length) in Hd. rewrite length_drop, Hlen in Hd. simpl in Hd. lia. }
  rewrite (nibble_step ds d ds') by (done || lia || by rewrite Nat2Z.id).
  assert (Forall is_nibble (d :: ds')) as [Hdn _]%Forall_cons
    by (rewrite <- Hd; by apply Forall_drop). unfold is_nibble in Hdn.
  assert (2 ^ (4 * Z.of_nat i) = 16 ^ Z.of_nat i) as Hpow by (by rewrite Z.pow_mul_r by lia).
  rewrite lor_disjoint by lia. rewrite Hpow.
  replace (Z.of_nat i + 1) with (Z.of_nat (S i)) by lia.
  assert (drop (S i) ds = ds') as Hd' by (rewrite <- Nat.add_1_r, <- drop_drop, Hd; done).
  rewrite IH, Hd', Nat2Z.inj_succ, Z.pow_succ_r by first [lia | rewrite Nat2Z.inj_succ, Z.pow_succ_r; nia].
  cbn [take nibbles_decode]. ring.
Qed.

(** Most significant digit first. *)
Definition digits_value (ds : list Z) : Z := fold_left (λ acc d, 16 * acc + d) ds 0.

Lemma nibbles_digits ds acc :
  fold_left (λ acc d, 16 * acc + d) ds acc =
    16 ^ Z.of_nat (length ds) * acc + nibbles_decode (reverse ds).
Proof.
  assert (∀ xs x, nibbles_decode (xs ++ [x]) = nibbles_decode xs + 16 ^ Z.of_nat (length xs) * x) as Hsnoc.
  { induction xs as [|y xs IH]; intros x; cbn [app nibbles_decode length]; [cbn; lia|].
    rewrite IH, Nat2Z.inj_succ, Z.pow_succ_r by lia. lia. }
  revert acc. induction ds as [|d ds IH]; intros acc; [cbn; lia|]. cbn [fold_left length].
  rewrite IH, reverse_cons, Hsnoc, length_reverse, Nat2Z.inj_succ, Z.pow_succ_r by lia. ring.
Qed.
End hexadecimal.

(** ** Reference definitions *)

Definition is_letter (b : Z) : bool := (65 <=? b) && (b <=? 90) || (97 <=? b) && (b <=? 122).

Definition hex_digit (c : Z) : option Z :=
  if (48 <=? c) && (c <=? 57) then Some (c - 48)
  else if (65 <=? c) && (c <=? 70) then Some (c - 55)
  else if (97 <=? c) && (c <=? 102) then Some (c - 87)
  else None.

Section reference.
Implicit Types (bs : list Z).

Lemma forallb_ext {A} (f g : A → bool) l : Forall (λ a, f a = g a) l → forallb f l = forallb g l.
Proof. induction 1 as [|a l Ha _ IH]; [done|]. cbn. by rewrite Ha, IH. Qed.

Lemma forallb_fmap {A B} (f : A → B) (g : B → bool) l : forallb g (f <$> l) = forallb (λ a, g (f a)) l.
Proof. induction l as [|a l IH]; [done|]. cbn in *. by rewrite IH. Qed.

Lemma Forall_bytes (P : Z → Prop) bs : (∀ b, is_byte b → P b) → Forall is_byte bs → Forall P bs.
Proof. intros HP H. eapply Forall_impl; eauto. Qed.

Lemma byte_land_bound b m : is_byte b → is_byte m → is_byte (Z.land b m).
Proof. apply bitwise_byte, bitwise_land. Qed.

Lemma ascii_word bs :
  Forall is_byte bs → length bs = 8%nat →
  is_ascii_word (le_decode bs) = forallb (λ b, b <? 128) bs.
Proof.
  intros Hbs Hlen. unfold is_ascii_word. change 0x8080808080808080 with (PACKED_BYTE 128).
  rewrite lanes_packed by (done || apply bitwise_land). unfold truthy. rewrite negb_involutive.
  rewrite le_decode_0, forallb_fmap
    by (apply Forall_fmap; eapply Forall_bytes; [|done]; intros b Hb; by apply byte_land_bound).
  apply forallb_ext. eapply Forall_bytes; [|done]. intros b Hb. apply eqb_prop.
  by apply (forall_bytes (λ b, eqb (Z.land b 128 =? 0) (b <? 128))).
Qed.

(** The word test of [is_alphabet] on one byte. *)
Definition alphabet_lane (b : Z) : bool :=
  (Z.land b 128 =? 0) &&
  (128 =? Z.land (Z.lxor (Z.lor b 32 + 31) (Z.lor b 32 + 5)) 128).

Lemma packed_lanes bs :
  Forall (λ b, b = 0 ∨ b = 128) bs → length bs = 8%nat →
  (PACKED_BYTE 128 =? le_decode bs) = forallb (λ b, 128 =? b) bs.
Proof.
  intros Hbs Hlen. rewrite packed by done.
  destruct (forallb (λ b, 128 =? b) bs) eqn:Hall.
  - apply Z.eqb_eq. f_equal. rewrite forallb_forall in Hall. rewrite <- Hlen.
    apply replicate_as_elem_of. split; [done|]. intros x Hx.
    apply list_elem_of_In, Hall in Hx. bool_to_prop. done.
  - apply Z.eqb_neq. intros Heq. apply le_decode_inj in Heq; [subst bs; done| | |done].
    + by apply Forall_replicate.
    + eapply Forall_impl; [done|]. unfold is_byte. cbn beta. lia.
Qed.

Lemma alphabet_word bs :
  Forall is_byte bs → length bs = 8%nat →
  is_alphabet_word (le_decode bs) = forallb is_letter bs.
Proof.
  intros Hbs Hlen. unfold is_alphabet_word.
  change (PACKED_BYTE (128 - 97)) with (PACKED_BYTE 31).
  change (PACKED_BYTE (128 - 122 - 1)) with (PACKED_BYTE 5).
  rewrite lanes_packed by (done || apply bitwise_land).
  rewrite le_decode_0, forallb_fmap
    by (apply Forall_fmap; eapply Forall_bytes; [|done]; intros b Hb; by apply byte_land_bound).
  transitivity (forallb alphabet_lane bs).
  2: { apply forallb_ext. eapply Forall_bytes; [|done]. intros b Hb. apply eqb_prop.
       by apply (forall_bytes (λ b, eqb (alphabet_lane b) (is_letter b))). }
  destruct (forallb (λ b, Z.land b 128 =? 0) bs) eqn:Hasc.
  - assert (Forall (λ b, 0 ≤ b < 128) bs) as Ha.
    { rewrite forallb_forall in Hasc. apply Forall_forall. intros b Hb.
      pose proof (proj1 (Forall_forall _ _) Hbs b Hb) as Hbyte.
      pose proof (Hasc b (proj1 (list_elem_of_In _ _) Hb)) as H0.
      pose proof (forall_bytes (λ b, implb (Z.land b 128 =? 0) (b <? 128)) b ltac:(by vm_compute) Hbyte) as H1.
      cbn beta in *. rewrite H0 in H1. simpl in H1. bool_to_prop. unfold is_byte in Hbyte. lia. }
    pose proof (λ P, Forall_ascii P bs Ha) as Hall.
    rewrite lanes_packed by (done || apply bitwise_lor).
    rewrite !lanes_add_packed; [|..]; try done; try by rewrite length_fmap.
    2,3: apply Forall_fmap; eapply Forall_impl;
      [apply (Hall (λ b, (Z.lor b 32 + 31 <? 256) && (0 <=? Z.lor b 32))); by vm_compute|];
      intros b H; cbn beta in H; unfold is_byte, compose; bool_to_prop; lia.
    rewrite <- !list_fmap_compose.
    assert (∀ f : Z → Z, forallb (λ b, (0 <=? f b) && (f b <? 256)) (seqZ 0 128) = true →
      Forall is_byte (f <$> bs)) as Hmap.
    { intros f Hf. apply Forall_fmap. eapply Forall_impl; [exact (Hall _ Hf)|].
      intros b H. cbn beta in H. unfold is_byte, compose. bool_to_prop. lia. }
    rewrite lanes; [|apply bitwise_lxor|apply Hmap; by vm_compute..|by rewrite !length_fmap].
    rewrite zip_fmap_same, lanes_packed;
      [|apply bitwise_land|apply Hmap; by vm_compute|done|by rewrite length_fmap].
    rewrite <- list_fmap_compose, packed_lanes; [| |by rewrite length_fmap].
    2: { apply Forall_fmap. eapply Forall_impl; [apply (Hall (λ b, let x := Z.land (Z.lxor (Z.lor b 32 + 31) (Z.lor b 32 + 5)) 128 in (x =? 0) || (x =? 128))); by vm_compute|].
         intros b H. cbn beta zeta in H. unfold compose. cbn beta. apply orb_true_iff in H as [H|H]; apply Z.eqb_eq in H; auto. }
    rewrite forallb_fmap. apply forallb_ext. eapply Forall_impl; [exact (Hall (λ b, Z.land b 128 =? 0) ltac:(by vm_compute))|].
    intros b H. cbn beta in H. unfold alphabet_lane, compose. by rewrite H.
  - symmetry. apply not_true_iff_false. intros Hall. apply not_true_iff_false in Hasc. apply Hasc.
    rewrite forallb_forall in *. intros b Hb. apply Hall in Hb. unfold alphabet_lane in Hb. by apply andb_true_iff in Hb as [? _].
Qed.
End reference.

Lemma le_decode_zeros n : le_decode (replicate n 0) = 0.
Proof. induction n as [|n IH]; [done|]. cbn. lia. Qed.

Lemma hex_digit_spec c d :
  hex_digit c = Some d → 0 ≤ c < 128 ∧ hexchar2val c = d ∧ is_nibble d.
Proof.
  intros Hc. assert (is_byte c) as Hb.
  { unfold hex_digit in Hc. unfold is_byte. repeat case_match; try done; bool_to_prop; lia. }
  pose proof (forall_bytes (λ c, match hex_digit c with Some d =>
    (0 <=? d) && (d <? 16) && (c <? 128) && (hexchar2val c =? d) | None => true end) c
    ltac:(by vm_compute) Hb) as H. cbn beta in H. rewrite Hc in H. bool_to_prop.
  unfold is_nibble, is_byte in *. split_and!; lia.
Qed.

Lemma hex_digits_spec str ds :
  mapM hex_digit str = Some ds →
  Forall (λ c, 0 ≤ c < 128) str ∧ hexchar2val <$> str = ds ∧ Forall is_nibble ds.
Proof.
  intros Hds%mapM_Some. induction Hds as [|c d str ds Hc _ (IH1&IH2&IH3)]; [done|].
  destruct (hex_digit_spec c d Hc) as (?&?&?).
  split_and!; [by constructor|by rewrite fmap_cons; f_equal|by constructor].
Qed.

(** [asr_i] where [>>] shifts the representation, for negative numbers. *)
Lemma asr_logical m n :
  - 2 ^ 31 ≤ m < 0 → 0 ≤ n < 32 →
  Z.lor (int_shr false m n) (Z.lxor (-1) (int_shr false (-1) n)) = m / 2 ^ n.
Proof.
  intros Hm Hn. cbn [int_shr]. change (u32 (-1)) with (Z.ones 32).
  assert (u32 m = m + 2 ^ 32) as ->
    by (unfold wrapu; rewrite <- (Z.mod_add _ 1) by lia; apply Z.mod_small; lia).
  destruct (Z.eq_dec n 0) as [->|Hn0].
  { rewrite !Z.shiftr_0_r. change (i32 (Z.ones 32)) with (-1).
    rewrite Z.lxor_nilpotent, Z.lor_0_r. change (2 ^ 0) with 1. rewrite Z.div_1_r. unfold wraps.
    replace (m + 2 ^ 32 + 2 ^ (32 - 1)) with (m + 2 ^ 31 + 1 * 2 ^ 32) by lia.
    rewrite Z.mod_add, Z.mod_small; lia. }
  assert (2 ^ 32 = 2 ^ (32 - n) * 2 ^ n) as Hsplit by (rewrite <- Z.pow_add_r by lia; f_equal; lia).
  assert (2 ^ (32 - n) ≤ 2 ^ 31) as Hle by (apply Z.pow_le_mono_r; lia).
  rewrite !Z.shiftr_div_pow2 by lia.
  assert ((m + 2 ^ 32) / 2 ^ n = m / 2 ^ n + 2 ^ (32 - n)) as Hdiv
    by (rewrite Hsplit, Z.div_add by lia; done).
  assert (0 ≤ (m + 2 ^ 32) / 2 ^ n < 2 ^ (32 - n)) as Hb
    by (split; [apply Z.div_pos; lia|apply Z.div_lt_upper_bound; lia]).
  assert (Z.ones 32 / 2 ^ n = 2 ^ (32 - n) - 1) as ->
    by (rewrite Z.ones_div_pow2, Z.ones_equiv by lia; lia).
  rewrite !wraps_small by lia. rewrite Z.lxor_m1_l.
  replace (Z.lnot (2 ^ (32 - n) - 1)) with (Z.shiftl (-1) (32 - n))
    by (rewrite Z.shiftl_mul_pow2 by lia; unfold Z.lnot; lia).
  rewrite lor_disjoint by lia. lia.
Qed.

(** ** Properties *)

(** [is_ascii] decides that a string is non-empty and all of its bytes are
    below 128, although it tests eight of them at once; its [unsigned int] index
    restricts it to strings shorter than 2^32 - 8. *)
Theorem is_ascii_spec (str : list Z) :
  Forall is_byte str → Z.of_nat (length str) + 8 < 2 ^ 32 →
  is_ascii (S (length str)) str (Z.of_nat (length str)) =
  Ok (match str with [] => false | _ => forallb (λ b, b <? 128) str end).
Proof.
  intros Hstr Hlen. apply scan_ok; [done..|apply ascii_word|].
  intros b Hb. apply eqb_prop. by apply (forall_bytes (λ b, eqb (is_ascii_char (i8 b)) (b <? 128))).
Qed.

Lemma is_ascii_spec_witness :
  is_ascii 10 [72; 101; 108; 108; 111; 32; 119; 200; 33] 9 = Ok false.
Proof.
  refine (is_ascii_spec [72; 101; 108; 108; 111; 32; 119; 200; 33] _ _); [|done].
  repeat constructor; done.
Defined.

Lemma is_alphabet_letters (str : list Z) :
  Forall is_byte str → Z.of_nat (length str) + 8 < 2 ^ 64 →
  is_alphabet (S (length str)) str (Z.of_nat (length str)) =
  Ok (match str with [] => false | _ => forallb is_letter str end).
Proof.
  intros Hstr Hlen. apply scan_ok; [done..|apply alphabet_word|].
  intros b Hb. apply eqb_prop. by apply (forall_bytes (λ b, eqb (is_alphabet_char (i8 b)) (is_letter b))).
Qed.

(** C21: [is_alphabet] decides that a string is non-empty and consists of ASCII
    letters only: the additions that compare a whole word of characters with
    'a' and 'z' never carry from one character into the next. *)
Theorem is_alphabet_spec (str : list Z) :
  Forall is_byte str → Z.of_nat (length str) + 8 < 2 ^ 64 →
  is_alphabet (S (length str)) str (Z.of_nat (length str)) =
  Ok (match str with [] => false | _ => forallb is_letter str end).
Proof. apply is_alphabet_letters. Qed.

Lemma is_alphabet_spec_witness :
  is_alphabet 10 [72; 101; 108; 108; 111; 87; 119; 122; 90] 9 = Ok true.
Proof.
  refine (is_alphabet_spec [72; 101; 108; 108; 111; 87; 119; 122; 90] _ _); [|done].
  repeat constructor; done.
Defined.

Lemma hexstr2val_digits (str ds : list Z) :
  mapM hex_digit str = Some ds → (0 < length str ≤ 8)%nat →
  hexstr2val str (length str) = Ok (digits_value ds).
Proof.
  intros Hds Hlen. unfold hexstr2val.
  rewrite (proj2 (Nat.ltb_lt _ _)), (proj2 (Nat.leb_le _ _)) by lia. cbn [andb negb].
  destruct (hex_digits_spec str ds Hds) as (Hs&<-&Hn). rewrite firstn_all.
  pose proof (pack_chars_ok (Z.of_nat (length str)) 0 str 0 Hs ltac:(lia) ltac:(lia)) as Hpack.
  rewrite Z.mul_0_r, Z.add_0_l in Hpack. rewrite Hpack.
  set (pad := replicate (8 - length str) 0).
  assert (le_decode (reverse str) = le_decode (reverse str ++ pad)) as ->.
  { rewrite le_decode_app. unfold pad. rewrite le_decode_zeros. lia. }
  rewrite convert_lanes.
  2: { apply Forall_app_2; [by apply Forall_reverse|by apply Forall_replicate]. }
  2: { unfold pad. rewrite length_app, length_reverse, length_replicate. lia. }
  rewrite fmap_app, fmap_reverse. set (rs := reverse (hexchar2val <$> str)).
  assert (length rs = length str) as Hrs by (unfold rs; by rewrite length_reverse, length_fmap).
  rewrite (pack_nibbles_ok _ 0) by (lia || (cbn; lia) ||
    (unfold pad; rewrite length_app, length_fmap, length_replicate; lia) ||
    (apply Forall_app_2; [by apply Forall_reverse|]; unfold pad; rewrite fmap_replicate; by apply Forall_replicate)).
  rewrite drop_0, <- Hrs, take_app_length. unfold digits_value. rewrite nibbles_digits.
  f_equal. fold rs. change (Z.of_nat 0) with 0. lia.
Qed.

(** [hexstr2val] returns the number that one to eight hexadecimal digits of
    either case spell, most significant first. *)
Theorem hexstr2val_parses (str ds : list Z) :
  mapM hex_digit str = Some ds → (0 < length str ≤ 8)%nat →
  hexstr2val str (length str) = Ok (digits_value ds).
Proof. apply hexstr2val_digits. Qed.

Lemma hexstr2val_parses_witness : hexstr2val [100; 69; 65; 68; 98; 101; 101; 70] 8 = Ok 0xdeadbeef.
Proof.
  refine (hexstr2val_parses [100; 69; 65; 68; 98; 101; 101; 70] [13; 14; 10; 13; 11; 14; 14; 15] _ _);
    [done|cbn; lia].
Defined.

(** For every 32-bit [n], [quickmod] is the remainder of the division by 3
    and [divisible] says whether it is 0, both without a division and without
    losing a bit of the 128- and 64-bit products. *)
Theorem quickmod_divisible_exact (n : Z) :
  0 ≤ n < 2 ^ 32 → quickmod n = n mod 3 ∧ divisible n = (n mod 3 =? 0).
Proof.
  intros Hn. change M_ with 0x5555555555555556.
  pose proof (Z.div_mod n 3 ltac:(lia)) as Hd. pose proof (Z.mod_pos_bound n 3 ltac:(lia)) as Hr.
  set (q := n / 3) in *. set (r := n mod 3) in *. clearbody q r.
  assert (0x5555555555555556 * n = q * 2 ^ 64 + (2 * q + 0x5555555555555556 * r)) as Hprod by lia.
  unfold quickmod, divisible. change M_ with 0x5555555555555556. cbn zeta. split.
  - rewrite (wrapu_small 128) by lia. rewrite Z.shiftr_div_pow2, Hprod by lia.
    rewrite Z.div_add_l, Z.div_small by lia. rewrite Z.add_0_r.
    unfold D. rewrite (wrapu_small 64 q), (wrapu_small 64 (q * 3)), (wrapu_small 64), (wrapu_small 32) by lia. lia.
  - rewrite Z.mul_comm, Hprod. unfold wrapu at 1. rewrite Z.add_comm, Z.mod_add, Z.mod_small by lia.
    rewrite wrapu_small by lia. destruct (Z.eqb_spec r 0); [apply Z.leb_le|apply Z.leb_gt]; lia.
Qed.

Lemma quickmod_divisible_exact_witness :
  quickmod 4294967294 = 2 ∧ divisible 4294967294 = false.
Proof. refine (quickmod_divisible_exact 4294967294 _). lia. Defined.

(** [asr_i] is the arithmetic shift (division by [2^n] rounded down) for
    every 32-bit [m] and every [n] below 32, whichever way the implementation
    shifts negative numbers. *)
Theorem asr_i_floor (arithmetic : bool) (m n : Z) :
  - 2 ^ 31 ≤ m < 2 ^ 31 → 0 ≤ n < 32 → asr_i arithmetic m n = m / 2 ^ n.
Proof.
  intros Hm Hn. unfold asr_i. destruct arithmetic; cbn [int_shr].
  - change (of_bool (0 <? Z.shiftr (-1) 1)) with 0. rewrite Z.land_0_l.
    change (i32 (u32 (- 0))) with 0. rewrite Z.shiftr_0_l, Z.lxor_0_l, Z.lor_0_r. apply Z.shiftr_div_pow2. lia.
  - change (of_bool (0 <? i32 (Z.shiftr (u32 (-1)) 1))) with 1.
    destruct (Z.ltb_spec m 0).
    + change (i32 (u32 (- Z.land 1 (of_bool true)))) with (-1). apply asr_logical; lia.
    + change (i32 (u32 (- Z.land 1 (of_bool false)))) with 0. change (u32 0) with 0.
      rewrite Z.shiftr_0_l. change (i32 0) with 0. rewrite Z.lxor_0_l, Z.lor_0_r.
      rewrite wrapu_small, Z.shiftr_div_pow2 by lia. apply wraps_small; [lia|].
      pose proof (Z.div_pos m (2 ^ n) ltac:(lia) ltac:(lia)).
      pose proof (Z.div_le_upper_bound m (2 ^ n) m ltac:(lia) ltac:(nia)). lia.
Qed.

Lemma asr_i_floor_witness : asr_i false (-20) 3 = -3.
Proof. refine (asr_i_floor false (-20) 3 _ _); lia. Defined.

(** C25: in a list where one number occurs once and every other one [k] times,
    [generalSingleNumber] finds the single one, for every [k] from 2 on; it
    counts the occurrences of each bit modulo [k]. *)
Theorem generalSingleNumber_finds (k x : Z) (xs nums : list Z) :
  2 ≤ k → nums ≡ₚ x :: concat (replicate (Z.to_nat k) xs) →
  generalSingleNumber k nums = Ok x.
Proof.
  intros Hk Hp. destruct (general_counts k nums ltac:(lia)) as (r&->&Hr). f_equal.
  apply Z.bits_inj'. intros b Hb. rewrite Hr by done. rewrite (count_bit_perm b _ _ Hp).
  cbn [count_bit foldr]. fold (count_bit b (concat (replicate (Z.to_nat k) xs))).
  rewrite count_bit_repeat, Z2Nat.id, (Z.mul_comm k), Z.mod_add by lia.
  destruct (Z.testbit x b); cbn [Z.b2z]; by rewrite Z.mod_small by lia.
Qed.

Lemma generalSingleNumber_finds_witness : generalSingleNumber 3 [2; 1; -7; 2; 1; 2; 1] = Ok (-7).
Proof.
  refine (generalSingleNumber_finds 3 (-7) [2; 1] [2; 1; -7; 2; 1; 2; 1] _ _); [lia|].
  symmetry. exact (Permutation_middle [2; 1] [2; 1; 2; 1] (-7)).
Defined.

(** The two-word [singleNumber] computes the same as the general routine
    for three occurrences, for every list of numbers. *)
Theorem singleNumber_general (nums : list Z) :
  generalSingleNumber 3 nums = Ok (singleNumber nums).
Proof.
  destruct (general_counts 3 nums ltac:(lia)) as (r&->&Hr). f_equal.
  apply Z.bits_inj'. intros b Hb. rewrite Hr by done. unfold singleNumber.
  rewrite (single_counts nums 0 0 b 0); [done|done|by rewrite Z.bits_0..|lia].
Qed.
