(* ===== verification/BitwiseTests.v ===== *)
(** * The test programs of bitwise-1

    The testers and main functions of asr.c, div.c, hex.c, ascii.c and single-num.c,
    over the functions of Bitwise, and [is_alphabet_sse], whose instruction PCMPISTRI
    is a parameter with its documented result.  A tester is a computation on its
    local array; a failed check ends the program. *)
From S2P Require Import Prelude Bitwise.
From stdpp Require Import list.
#[local] Open Scope Z_scope.
#[local] Open Scope c_scope.

(** [for (i = lo; i < hi; ++i)]. *)
Fixpoint for_loop {St} (n : nat) (i : Z) (body : Z → M St unit) : M St unit :=
  match n with
  | O => ret tt
  | S n => body i ;; for_loop n (i + 1) body
  end.
Definition for_range {St} (lo hi : Z) (body : Z → M St unit) : M St unit :=
  for_loop (Z.to_nat (hi - lo)) lo body.

(** The value of a function that may fault. *)
Definition lift {St A} (r : result A) : M St A := λ s,
  match r with Ok a => Ok (a, s) | Err e => Err e end.

(** ** asr.c *)

Section programs.
Context {St : Type}.

Definition asr_checker (arithmetic : bool) (m n ans : Z) : M St unit := massert (ans =? asr_i arithmetic m n).

Definition asr_main (arithmetic : bool) : M St Z :=
  asr_checker arithmetic (-5) 1 (-3) ;;
  asr_checker arithmetic 5 2 (int_shr arithmetic 5 2) ;;
  asr_checker arithmetic 0xFFFFF 0xF (int_shr arithmetic 0xFFFFF 0xF) ;;
  asr_checker arithmetic (-20) 3 (-3) ;;
  ret 0.

(** ** div.c *)

Definition mod_checker (ans x : Z) : M St unit := massert (ans =? quickmod x).
Definition div_checker (ans : bool) (x : Z) : M St unit := massert (Bool.eqb ans (divisible x)).

Definition quickmod_tester : M St unit :=
  for_range 0 0xFFFFFFFF (λ i, mod_checker (i mod D) i) ;;
  mod_checker (0xFFFFFFFF mod D) 0xFFFFFFFF.

Definition divisible_tester : M St unit :=
  for_range 0 0xFFFFFFFF (λ i, div_checker (negb (truthy (i mod D))) i) ;;
  div_checker (negb (truthy (0xFFFFFFFF mod D))) 0xFFFFFFFF.

Definition div_main : M St Z := quickmod_tester ;; divisible_tester ;; ret 0.

(** ** hex.c *)

Definition hexchar_checker (num c : Z) : M St unit := massert (num =? hexchar2val (u8 c)).

Definition hexchar2val_tester : M St unit :=
  for_range 48 58 (λ i, hexchar_checker (i - 48) (i8 i)) ;;
  for_range 97 103 (λ i, hexchar_checker (i - 97 + 10) (i8 i)) ;;
  for_range 65 71 (λ i, hexchar_checker (i - 65 + 10) (i8 i)).

Definition hexstr_checker (num : Z) (s : list Z) : M St unit :=
  ans ← lift (hexstr2val s (length s));
  massert (num =? u32 ans).

(** The format [%0fX]: upper-case digits, padded with zeros to the width [f]. *)
Definition digit_char (d : Z) : Z := if d <? 10 then 48 + d else 55 + d.
Fixpoint digits_of (fuel : nat) (n : Z) (acc : list Z) : list Z :=
  match fuel with
  | O => acc
  | S fuel => if n <? 16 then n :: acc else digits_of fuel (n / 16) (n mod 16 :: acc)
  end.
Definition snprintf_0X (f : nat) (i : Z) : list Z :=
  let ds := digits_of 8 i [] in
  digit_char <$> replicate (f - length ds) 0 ++ ds.

Definition hexstr2val_tester : M St unit :=
  hexstr_checker 0 [48] ;;
  hexstr_checker 0 [48; 48] ;;
  hexstr_checker 0 [48; 48; 48; 48; 48; 48; 48; 48] ;;
  hexstr_checker 0xF [102] ;;
  hexstr_checker 0xF [48; 102] ;;
  hexstr_checker 0xF [48; 48; 48; 48; 48; 48; 48; 70] ;;
  hexstr_checker 0xFFFFFFFF [70; 70; 70; 70; 70; 70; 70; 70] ;;
  for_range 0 0xFFFFFFFF (λ i,
    for_range 1 9 (λ f, hexstr_checker i (snprintf_0X (Z.to_nat f) i))).

Definition hex_main : M St Z := hexchar2val_tester ;; hexstr2val_tester ;; ret 0.

(** ** single-num.c *)

Definition checker (ans : Z) (nums : list Z) : M St unit := massert (ans =? singleNumber nums).
Definition generalChecker (k ans : Z) (nums : list Z) : M St unit :=
  r ← lift (generalSingleNumber k nums);
  massert (ans =? r).

Definition threeNumChecker : M St unit :=
  let x1 := [0; 1; 0; 1; 0; 1; 3] in
  let x2 := [2; 1; 2; 2] in
  let x3 := [999] in
  checker 3 x1 ;; checker 1 x2 ;; checker 999 x3 ;;
  generalChecker 3 3 x1 ;; generalChecker 3 1 x2 ;; generalChecker 3 999 x3.

Definition fourNumChecker : M St unit :=
  let x1 := [0; 1; 0; 1; 0; 1; 0; 1; 3] in
  let x2 := [2; 1; 2; 2; 2] in
  let x3 := [999] in
  let x4 := [0xF; 0xF; 0xFF; 0xF; 0xF] in
  let x5 := [2; 0; 2; 2; 2] in
  generalChecker 4 3 x1 ;; generalChecker 4 1 x2 ;; generalChecker 4 999 x3 ;;
  generalChecker 4 0xFF x4 ;; generalChecker 4 0 x5.

Definition fiveNumChecker : M St unit :=
  let x1 := [0; 1; 0; 1; 0; 1; 0; 0; 1; 1; 3] in
  let x2 := [2; 1; 2; 2; 2; 2] in
  let x3 := [999] in
  let x4 := [0xF; 0xF; 0xF; 0xFF; 0xF; 0xF] in
  let x5 := [2; 0; 2; 2; 2; 2] in
  generalChecker 5 3 x1 ;; generalChecker 5 1 x2 ;; generalChecker 5 999 x3 ;;
  generalChecker 5 0xFF x4 ;; generalChecker 5 0 x5.

Definition sevenNumChecker : M St unit :=
  let x1 := [0; 1; 0; 1; 0; 1; 0; 0; 1; 1; 3; 0; 0; 1; 1] in
  let x2 := [2; 1; 2; 2; 2; 2; 2; 2] in
  let x3 := [999] in
  let x4 := [0xF; 0xF; 0xF; 0xFF; 0xF; 0xF; 0xF; 0xF] in
  let x5 := [2; 0; 2; 2; 2; 2; 2; 2] in
  generalChecker 7 3 x1 ;; generalChecker 7 1 x2 ;; generalChecker 7 999 x3 ;;
  generalChecker 7 0xFF x4 ;; generalChecker 7 0 x5.

Definition single_num_main : M St Z :=
  threeNumChecker ;; fourNumChecker ;; fiveNumChecker ;; sevenNumChecker ;; ret 0.
End programs.

(** ** ascii.c *)

(** The array [char str[135]]. *)
Definition ARRAY : nat := 135.
Definition set_char (i c : Z) : M (list Z) unit :=
  s ← gets id;
  if (0 <=? i) && (i <? Z.of_nat (length s)) then modify (λ s, <[Z.to_nat i := u8 c]> s) else fail Undefined.
Definition ascii_checker (flag : bool) (fp : list Z → Z → result bool) : M (list Z) unit :=
  s ← gets id;
  r ← lift (fp s (Z.of_nat ARRAY));
  massert (Bool.eqb flag r).

Definition is_ascii_tester : M (list Z) unit :=
  let is_ascii := is_ascii (S ARRAY) in
  modify (λ _, replicate ARRAY 0) ;;
  for_range 0 128 (λ i, set_char i i) ;;
  ascii_checker true is_ascii ;;
  for_range 0 16 (λ i, set_char i (128 + i) ;; ascii_checker false is_ascii ;; set_char i 0) ;;
  for_range 128 135 (λ i, set_char i 128 ;; ascii_checker false is_ascii ;; set_char i 0).

(** The body of the last three loops: no position of the first two blocks or of the
    last seven bytes may hold the character. *)
Definition refuse (func : list Z → Z → result bool) (c i : Z) : M (list Z) unit :=
  set_char i c ;; ascii_checker false func ;; set_char i 65.

Definition is_aphabet_tester (func : list Z → Z → result bool) : M (list Z) unit :=
  modify (λ _, replicate ARRAY 0) ;;
  for_range 65 91 (λ c, for_range 0 135 (λ i, set_char i c) ;; ascii_checker true func) ;;
  for_range 97 123 (λ c, for_range 0 135 (λ i, set_char i c) ;; ascii_checker true func) ;;
  for_range 0 65 (λ c, for_range 0 16 (refuse func c) ;; for_range 128 135 (refuse func c)) ;;
  ascii_checker true func ;;
  for_range 91 97 (λ c, for_range 0 16 (refuse func c) ;; for_range 128 135 (refuse func c)) ;;
  ascii_checker true func ;;
  for_range 123 256 (λ c, for_range 0 16 (refuse func c) ;; for_range 128 135 (refuse func c)) ;;
  ascii_checker true func.

(** [_mm_cmpistri] with _SIDD_CMP_RANGES and _SIDD_NEGATIVE_POLARITY. *)
Section sse.
Context (cmpistri : list Z → list Z → Z).

Definition range : list Z := [97; 122; 65; 90; 0; 0; 0; 0; 0; 0; 0; 0; 0; 0; 0; 0].

(** [_mm_loadu_si128]: the bytes from [str] on that can be read are [mem]. *)
Definition load_block (mem : list Z) (i : Z) : result (list Z) :=
  let bs := take 16 (drop (Z.to_nat i) mem) in
  if (length bs =? 16)%nat then Ok bs else Err Undefined.

Fixpoint sse_blocks (fuel : nat) (mem : list Z) (size i : Z) : result (option Z) :=
  match fuel with
  | O => Err Exhausted
  | S fuel =>
      if u64 (i + 16) <=? size then
        match load_block mem i with
        | Ok m =>
            if negb (16 =? cmpistri range m) then Ok None
            else sse_blocks fuel mem size (u64 (i + 16))
        | Err e => Err e
        end
      else Ok (Some i)
  end.

Definition is_alphabet_sse (fuel : nat) (mem : list Z) (size : Z) : result bool :=
  match sse_blocks fuel mem size 0 with
  | Ok (Some i) =>
      let size := u64 (size - i) in
      if truthy size then
        match load_block mem i with
        | Ok m => if negb (size =? u64 (cmpistri range m)) then Ok false else Ok true
        | Err e => Err e
        end
      else Ok true
  | Ok None => Ok false
  | Err e => Err e
  end.

(** [after] are the bytes behind the array of the tester. *)
Definition ascii_main (after : list Z) : M (list Z) Z :=
  is_ascii_tester ;;
  is_aphabet_tester (is_alphabet (S ARRAY)) ;;
  is_aphabet_tester (λ str, is_alphabet_sse ARRAY (str ++ after)) ;;
  ret 0.
End sse.

(** ** The instruction

    PCMPISTRI in this mode returns the index of the first byte of its second operand
    that is 0 or in none of the ranges, and 16 if there is none.  The ranges are the
    pairs of bytes of the first operand up to its first 0. *)
Fixpoint in_ranges (r : list Z) (b : Z) : bool :=
  match r with
  | lo :: hi :: r =>
      if (lo =? 0) || (hi =? 0) then false
      else (lo <=? b) && (b <=? hi) || in_ranges r b
  | _ => false
  end.
Fixpoint run_length (p : Z → bool) (m : list Z) : nat :=
  match m with
  | [] => 0
  | b :: m => if p b then S (run_length p m) else 0
  end.

Class Pcmpistri (f : list Z → list Z → Z) : Prop := {
  pcmpistri_spec r m : length r = 16%nat → length m = 16%nat →
    f r m = Z.of_nat (run_length (λ b, negb (b =? 0) && in_ranges r b) m)
}.

(** ** Loops *)

Lemma for_loop_inv {St} (P : Z → St → Prop) n i body s :
  (∀ j s, i ≤ j < i + Z.of_nat n → P j s → ∃ s', body j s = Ok (tt, s') ∧ P (j + 1) s') →
  P i s → ∃ s', for_loop n i body s = Ok (tt, s') ∧ P (i + Z.of_nat n) s'.
Proof.
  revert i s. induction n as [|n IH]; intros i s Hb Hp; cbn [for_loop].
  - exists s. split; [done|]. by rewrite Z.add_0_r.
  - destruct (Hb i s ltac:(lia) Hp) as (s1&Hr&Hp1). rewrite (bind_ok _ _ _ _ _ Hr).
    replace (i + Z.of_nat (S n)) with (i + 1 + Z.of_nat n) by lia. apply IH; [|done].
    intros j s2 Hj. apply Hb. lia.
Qed.

Lemma for_range_inv {St} (P : Z → St → Prop) lo hi body s :
  lo ≤ hi → (∀ j s, lo ≤ j < hi → P j s → ∃ s', body j s = Ok (tt, s') ∧ P (j + 1) s') →
  P lo s → ∃ s', for_range lo hi body s = Ok (tt, s') ∧ P hi s'.
Proof.
  intros Hle Hb Hp. destruct (for_loop_inv P (Z.to_nat (hi - lo)) lo body s) as (s'&Hr&Hp'); [|done|].
  - intros j s' Hj. apply Hb. lia.
  - exists s'. split; [done|]. by replace hi with (lo + Z.of_nat (Z.to_nat (hi - lo))) by lia.
Qed.

Lemma for_range_err {St} lo hi body (s : St) e :
  lo < hi → body lo s = Err e → for_range lo hi body s = Err e.
Proof.
  intros Hlt He. unfold for_range. destruct (Z.to_nat (hi - lo)) eqn:Hn; [lia|]. cbn [for_loop]. by apply bind_err.
Qed.

(** A loop whose rounds leave the state alone. *)
Lemma for_range_id {St} lo hi body (s : St) :
  lo ≤ hi → (∀ j, lo ≤ j < hi → body j s = Ok (tt, s)) → for_range lo hi body s = Ok (tt, s).
Proof.
  intros Hle Hb. destruct (for_range_inv (λ _ s', s' = s) lo hi body s Hle) as (s'&Hr& ->); [|done..].
  intros j s' Hj ->. exists s. split; [by apply Hb|done].
Qed.

Lemma massert_run {St} b (s : St) : b = true → massert b s = Ok (tt, s).
Proof. by intros ->. Qed.

(** ** The SSE version *)

Lemma run_length_ext p q m : Forall (λ b, p b = q b) m → run_length p m = run_length q m.
Proof. induction 1 as [|b m Hb _ IH]; cbn; [done|]. by rewrite Hb, IH. Qed.

Lemma run_length_all p m : run_length p m = length m ↔ forallb p m = true.
Proof. induction m as [|b m IH]; cbn; [done|]. destruct (p b); cbn; [rewrite <- IH; lia|split; [lia|done]]. Qed.

Lemma run_length_app p l b m :
  run_length p (l ++ b :: m) = length l ↔ forallb p l = true ∧ p b = false.
Proof.
  induction l as [|a l IH]; cbn.
  - destruct (p b); split; intros; naive_solver lia.
  - destruct (p a); cbn; [rewrite <- IH; lia|]. split; [lia|by intros []].
Qed.

Lemma run_length_bound p m : (run_length p m ≤ length m)%nat.
Proof. induction m as [|b m IH]; cbn; [lia|]. destruct (p b); lia. Qed.

Section sse_spec.
Context (cmpistri : list Z → list Z → Z) `{!Pcmpistri cmpistri}.

Lemma cmpistri_letters m :
  length m = 16%nat → Forall is_byte m → cmpistri range m = Z.of_nat (run_length is_letter m).
Proof using Type*.
  intros Hm Hb. rewrite pcmpistri_spec by done. f_equal. apply run_length_ext.
  eapply Forall_impl; [exact Hb|]. intros b Hb'. apply eqb_prop.
  by apply (forall_bytes (λ b, eqb (negb (b =? 0) && in_ranges range b) (is_letter b))).
Qed.

Lemma load_block_app pre m post :
  length m = 16%nat → load_block (pre ++ m ++ post) (Z.of_nat (length pre)) = Ok m.
Proof using Type.
  intros Hm. unfold load_block. by rewrite Nat2Z.id, drop_app_length, <- Hm, take_app_length, Nat.eqb_refl.
Qed.

(** The blocks of [rest], of which [pre] has been read. *)
Lemma sse_blocks_ok n : ∀ fuel pre rest after,
  Z.of_nat (length rest) `div` 16 = Z.of_nat n → (n < fuel)%nat → Forall is_byte rest →
  Z.of_nat (length pre + length rest) + 16 < 2 ^ 64 →
  sse_blocks cmpistri fuel (pre ++ rest ++ after) (Z.of_nat (length pre + length rest)) (Z.of_nat (length pre)) =
  Ok (if forallb is_letter (take (16 * n) rest) then Some (Z.of_nat (length pre + 16 * n)) else None).
Proof using Type*.
  induction n as [|n IH]; intros [|fuel] pre rest after Hn Hfuel Hb Hlen; try lia; cbn [sse_blocks];
    rewrite wrapu_small by lia.
  - rewrite (proj2 (Z.leb_gt _ _)); [cbn; by rewrite Nat.add_0_r|]. apply Z.div_small_iff in Hn; lia.
  - assert (16 ≤ length rest)%nat as Hge.
    { destruct (decide (16 ≤ length rest)%nat); [done|]. rewrite Z.div_small in Hn by lia. lia. }
    rewrite (proj2 (Z.leb_le _ _)) by lia.
    rewrite <- (take_drop 16 rest) at 1. rewrite <- app_assoc, load_block_app by (rewrite length_take; lia).
    pose proof Hb as Hb'. rewrite <- (take_drop 16 rest), Forall_app in Hb'. destruct Hb' as [Hb1 Hb2].
    rewrite cmpistri_letters by (done || (rewrite length_take; lia)).
    replace (16 * S n)%nat with (16 + 16 * n)%nat by lia. rewrite <- (take_drop 16 (take (16 + 16 * n) rest)).
    rewrite take_take, Nat.min_l, skipn_firstn_comm by lia. replace (16 + 16 * n - 16)%nat with (16 * n)%nat by lia.
    rewrite forallb_app. destruct (Z.eqb_spec 16 (Z.of_nat (run_length is_letter (take 16 rest)))) as [H16|H16]; cbn [negb].
    + assert (forallb is_letter (take 16 rest) = true) as ->.
      { apply run_length_all. rewrite length_take. lia. }
      cbn [andb].
      assert (length (pre ++ take 16 rest) = (length pre + 16)%nat) as Hpre by (rewrite length_app, length_take; lia).
      specialize (IH fuel (pre ++ take 16 rest) (drop 16 rest) after). rewrite Hpre, length_drop in IH.
      replace (Z.of_nat (length pre) + 16) with (Z.of_nat (length pre + 16)) by lia.
      replace (Z.of_nat (length pre + length rest)) with (Z.of_nat (length pre + 16 + (length rest - 16))) by lia.
      rewrite <- app_assoc, (app_assoc (take 16 rest)), take_drop in IH. rewrite IH.
      * by rewrite Nat.add_assoc.
      * replace (Z.of_nat (length rest - 16)) with (Z.of_nat (length rest) + (-1) * 16) by lia.
        rewrite Z.div_add by lia. lia.
      * lia.
      * done.
      * lia.
    + destruct (forallb is_letter (take 16 rest)) eqn:Hf; [|done].
      apply run_length_all in Hf. rewrite length_take in Hf. lia.
Qed.

Lemma load_block_short mem i : (length mem < Z.to_nat i + 16)%nat → load_block mem i = Err Undefined.
Proof using Type.
  intros Hl. unfold load_block. rewrite (proj2 (Nat.eqb_neq _ _)); [done|]. rewrite length_take, length_drop. lia.
Qed.

(** Both loops together: the string is followed by the bytes [after]. *)
Lemma is_alphabet_sse_ok fuel str after :
  Forall is_byte (str ++ after) → Z.of_nat (length str) + 16 < 2 ^ 64 → Z.of_nat (length str) `div` 16 < Z.of_nat fuel →
  let n := Z.to_nat (Z.of_nat (length str) / 16) in
  is_alphabet_sse cmpistri fuel (str ++ after) (Z.of_nat (length str)) =
  if negb (forallb is_letter (take (16 * n) str)) then Ok false
  else if Z.of_nat (length str) mod 16 =? 0 then Ok true
  else if (length (drop (16 * n) str ++ after) <? 16)%nat then Err Undefined
  else Ok (forallb is_letter (drop (16 * n) str) && negb (is_letter (hd 0 after))).
Proof using Type*.
  intros Hb Hlen Hfuel n. apply Forall_app in Hb as [Hb Hba].
  assert (Hn : Z.of_nat (length str) `div` 16 = Z.of_nat n) by (unfold n; rewrite Z2Nat.id; [done|apply Z.div_pos; lia]).
  pose proof (Z.div_mod (Z.of_nat (length str)) 16 ltac:(lia)) as Hdm.
  pose proof (Z.mod_pos_bound (Z.of_nat (length str)) 16 ltac:(lia)) as Hmod.
  unfold is_alphabet_sse. pose proof (sse_blocks_ok n fuel [] str after Hn ltac:(lia) Hb Hlen) as Hs.
  cbn [app length Nat.add] in Hs. change (Z.of_nat 0) with 0 in Hs. rewrite Hs. clear Hs. destruct (forallb is_letter (take (16 * n) str)); [|done].
  cbn [negb]. rewrite wrapu_small by lia.
  replace (Z.of_nat (length str) - Z.of_nat (16 * n)) with (Z.of_nat (length str) mod 16) by lia.
  unfold truthy. destruct (Z.eqb_spec (Z.of_nat (length str) mod 16) 0) as [|Hne]; [done|]. cbn [negb].
  destruct (Nat.ltb_spec (length (drop (16 * n) str ++ after)) 16) as [Hshort|Hge]; rewrite length_app, length_drop in *.
  { rewrite load_block_short; [done|]. rewrite length_app. lia. }
  rewrite <- (take_drop (16 * n) str) at 1. set (tl := drop (16 * n) str).
  assert (Htl : length tl = Z.to_nat (Z.of_nat (length str) mod 16)) by (unfold tl; rewrite length_drop; lia).
  assert (Htk : length (take (16 * n) str) = (16 * n)%nat) by (rewrite length_take; lia).
  destruct after as [|a after]; [cbn in Hge; lia|].
  replace ((take (16 * n) str ++ tl) ++ a :: after)
    with (take (16 * n) str ++ (tl ++ a :: take (15 - length tl) after) ++ drop (15 - length tl) after)
    by (rewrite <- !app_assoc; cbn [app]; by rewrite take_drop).
  cbn [length] in Hge. rewrite <- Htk at 2.
  assert (Hm : length (tl ++ a :: take (15 - length tl) after) = 16%nat) by (rewrite length_app; cbn [length]; rewrite length_take; lia).
  rewrite load_block_app by done.
  rewrite cmpistri_letters; [|done|].
  2: { apply Forall_cons in Hba as [Ha Hba]. apply Forall_app. split; [by apply Forall_drop|].
    constructor; [done|]. by apply Forall_take. }
  pose proof (run_length_bound is_letter (tl ++ a :: take (15 - length tl) after)) as Hbound. rewrite Hm in Hbound.
  rewrite wrapu_small by lia. cbn [hd].
  pose proof (run_length_app is_letter tl a (take (15 - length tl) after)) as Hrun.
  destruct (Z.eqb_spec (Z.of_nat (length str) mod 16)
    (Z.of_nat (run_length is_letter (tl ++ a :: take (15 - length tl) after)))) as [Heq|Hneq]; cbn [negb].
  - destruct (proj1 Hrun) as [-> ->]; [lia|done].
  - destruct (forallb is_letter tl) eqn:Hf; [|done]. destruct (is_letter a) eqn:Ha; [done|].
    exfalso. apply Hneq. rewrite (proj2 Hrun) by done. lia.
Qed.
End sse_spec.

(** ** The testers of ascii.c *)

Lemma set_char_run i c s :
  0 ≤ i < Z.of_nat (length s) → set_char i c s = Ok (tt, <[Z.to_nat i := u8 c]> s).
Proof.
  intros Hi. unfold set_char. rewrite (bind_ok _ _ _ _ _ (gets_run _ _)). cbn [id].
  by rewrite (proj2 (Z.leb_le _ _)), (proj2 (Z.ltb_lt _ _)) by lia.
Qed.

Lemma ascii_checker_run flag fp s :
  fp s (Z.of_nat ARRAY) = Ok flag → ascii_checker flag fp s = Ok (tt, s).
Proof.
  intros Hf. unfold ascii_checker. rewrite (bind_ok _ _ _ _ _ (gets_run _ _)). cbn [id].
  rewrite (bind_ok _ _ _ flag s) by (unfold lift; by rewrite Hf). apply massert_run, eqb_reflx.
Qed.

Section alphabet_tester.
Context (func : list Z → Z → result bool).
Context (Hfunc : ∀ str, length str = ARRAY → Forall is_byte str → func str (Z.of_nat ARRAY) = Ok (forallb is_letter str)).

Lemma fill_array c s :
  length s = ARRAY → for_range 0 135 (λ i, set_char i c) s = Ok (tt, replicate ARRAY (u8 c)).
Proof using Type.
  intros Hs. destruct (for_range_inv (λ j s, length s = ARRAY ∧ take (Z.to_nat j) s = replicate (Z.to_nat j) (u8 c))
    0 135 (λ i, set_char i c) s) as (s'&Hr&Hl&Ht); [done| |done|].
  - intros j s1 Hj [Hl Ht]. rewrite set_char_run by (rewrite Hl; unfold ARRAY; lia). eexists. split; [done|].
    rewrite length_insert. split; [done|]. replace (Z.to_nat (j + 1)) with (S (Z.to_nat j)) by lia.
    erewrite take_S_r by (apply list_lookup_insert_eq; rewrite Hl; unfold ARRAY; lia).
    rewrite take_insert_ge, Ht by lia. by rewrite replicate_S_end.
  - rewrite Hr. f_equal. f_equal. change (Z.to_nat 135) with ARRAY in Ht. rewrite <- Ht. by rewrite <- Hl, firstn_all.
Qed.

(** The array holds letters. *)
Definition letters (s : list Z) : Prop := length s = ARRAY ∧ Forall (λ b, is_letter b = true) s.

Lemma letter_byte b : is_letter b = true → is_byte b.
Proof using Type. unfold is_letter, is_byte. lia. Qed.

Lemma accept_run s : letters s → ascii_checker true func s = Ok (tt, s).
Proof using Hfunc.
  intros [Hl Hs]. apply ascii_checker_run. rewrite Hfunc; [|done|eapply Forall_impl; [exact Hs|exact letter_byte]].
  f_equal. apply forallb_forall. intros b Hb%list_elem_of_In. by apply (proj1 (Forall_forall _ _) Hs).
Qed.

Lemma refuse_run c i s :
  letters s → is_byte c → is_letter c = false → 0 ≤ i < 135 →
  ∃ s', refuse func c i s = Ok (tt, s') ∧ letters s'.
Proof using Hfunc.
  intros [Hl Hs] Hc Hlet Hi. unfold refuse, is_byte in *.
  assert (Hi' : 0 ≤ i < Z.of_nat (length s)) by (rewrite Hl; unfold ARRAY; lia).
  rewrite (bind_ok _ _ _ _ _ (set_char_run i c s Hi')), wrapu_small by lia.
  assert (Hf : func (<[Z.to_nat i:=c]> s) (Z.of_nat ARRAY) = Ok false).
  { rewrite Hfunc.
    - f_equal. apply not_true_iff_false. rewrite forallb_forall. intros Hall.
      specialize (Hall c). rewrite Hlet in Hall. enough (In c (<[Z.to_nat i:=c]> s)) as Hin by (by specialize (Hall Hin)).
      apply list_elem_of_In, list_elem_of_lookup. exists (Z.to_nat i). apply list_lookup_insert_eq. lia.
    - by rewrite length_insert.
    - apply Forall_insert; [eapply Forall_impl; [exact Hs|exact letter_byte]|done]. }
  rewrite (bind_ok _ _ _ _ _ (ascii_checker_run _ _ _ Hf)).
  rewrite set_char_run by (by rewrite length_insert). eexists. split; [done|].
  rewrite list_insert_insert_eq. split; [by rewrite length_insert|]. by apply Forall_insert.
Qed.

Lemma letters_pass lo hi s :
  0 ≤ lo < hi → hi ≤ 256 → (∀ c, lo ≤ c < hi → is_letter c = true) → length s = ARRAY →
  ∃ s', for_range lo hi (λ c, for_range 0 135 (λ i, set_char i c) ;; ascii_checker true func) s = Ok (tt, s') ∧ letters s'.
Proof using Hfunc.
  intros Hlo Hhi Hl Hs.
  destruct (for_range_inv (λ j s, length s = ARRAY ∧ (lo < j → letters s)) lo hi
    (λ c, for_range 0 135 (λ i, set_char i c) ;; ascii_checker true func) s) as (s'&Hr&_&Hs');
    [lia| |split; [done|lia]|exists s'; split; [done|apply Hs'; lia]].
  intros j s1 Hj [Hl1 _]. rewrite (bind_ok _ _ _ _ _ (fill_array j s1 Hl1)).
  assert (letters (replicate ARRAY (u8 j))) as Hlet.
  { split; [apply length_replicate|]. apply Forall_replicate. rewrite wrapu_small by lia. by apply Hl. }
  eexists. split; [by apply accept_run|]. split; [apply Hlet|done].
Qed.

Lemma refusals lo hi s :
  0 ≤ lo ≤ hi → hi ≤ 256 → (∀ c, lo ≤ c < hi → is_letter c = false) → letters s →
  ∃ s', for_range lo hi (λ c, for_range 0 16 (refuse func c) ;; for_range 128 135 (refuse func c)) s = Ok (tt, s') ∧ letters s'.
Proof using Hfunc.
  intros Hlo Hhi Hl Hs. apply (for_range_inv (λ _, letters)); [lia| |done]. intros c s1 Hc Hs1.
  assert (∀ i s, 0 ≤ i < 135 → letters s → ∃ s', refuse func c i s = Ok (tt, s') ∧ letters s') as Hr.
  { intros i s2 Hi Hs2. apply refuse_run; [done|unfold is_byte; lia|by apply Hl|done]. }
  destruct (for_range_inv (λ _, letters) 0 16 (refuse func c) s1) as (s2&Hr2&Hs2); [lia| |done|].
  { intros i s2 Hi. apply Hr. lia. }
  rewrite (bind_ok _ _ _ _ _ Hr2). apply (for_range_inv (λ _, letters)); [lia| |done].
  intros i s3 Hi. apply Hr. lia.
Qed.

Lemma is_aphabet_tester_ok s : ∃ s', is_aphabet_tester func s = Ok (tt, s').
Proof using Hfunc.
  unfold is_aphabet_tester. rewrite (bind_ok _ _ _ _ _ (modify_run _ _)).
  destruct (letters_pass 65 91 (replicate ARRAY 0)) as (s1&Hr1&Hl1); [lia|lia| |by rewrite length_replicate|].
  { intros c Hc. unfold is_letter. lia. }
  rewrite (bind_ok _ _ _ _ _ Hr1).
  destruct (letters_pass 97 123 s1) as (s2&Hr2&Hl2); [lia|lia| |apply Hl1|].
  { intros c Hc. unfold is_letter. lia. }
  rewrite (bind_ok _ _ _ _ _ Hr2).
  destruct (refusals 0 65 s2) as (s3&Hr3&Hl3); [lia|lia|intros c Hc; unfold is_letter; lia|done|].
  rewrite (bind_ok _ _ _ _ _ Hr3), (bind_ok _ _ _ _ _ (accept_run _ Hl3)).
  destruct (refusals 91 97 s3) as (s4&Hr4&Hl4); [lia|lia|intros c Hc; unfold is_letter; lia|done|].
  rewrite (bind_ok _ _ _ _ _ Hr4), (bind_ok _ _ _ _ _ (accept_run _ Hl4)).
  destruct (refusals 123 256 s4) as (s5&Hr5&Hl5); [lia|lia|intros c Hc; unfold is_letter; lia|done|].
  rewrite (bind_ok _ _ _ _ _ Hr5). exists s5. by apply accept_run.
Qed.
End alphabet_tester.

(** Without a letter behind the array the SSE version passes, with one it fails. *)
Lemma is_ascii_tester_ok s : ∃ s', is_ascii_tester s = Ok (tt, s').
Proof. clear. eexists. vm_compute. reflexivity. Qed.

(** ** Printing in hexadecimal *)

Lemma digits_of_spec fuel : ∀ n acc,
  0 ≤ n < 16 ^ Z.of_nat fuel → (0 < fuel)%nat → Forall is_nibble acc →
  Forall is_nibble (digits_of fuel n acc) ∧ (length (digits_of fuel n acc) ≤ fuel + length acc)%nat ∧
  (0 < length (digits_of fuel n acc))%nat ∧
  fold_left (λ a d, 16 * a + d) (digits_of fuel n acc) 0 = fold_left (λ a d, 16 * a + d) acc n.
Proof.
  induction fuel as [|fuel IH]; intros n acc Hn Hf Hacc; [lia|]. cbn [digits_of].
  destruct (Z.ltb_spec n 16) as [Hlt|Hge].
  - split; [constructor; [unfold is_nibble; lia|done]|]. split; [cbn; lia|]. split; [cbn; lia|]. cbn [fold_left]. done.
  - rewrite Nat2Z.inj_succ, Z.pow_succ_r in Hn by lia.
    destruct fuel as [|fuel]; [change (16 ^ Z.of_nat 0) with 1 in Hn; lia|].
    pose proof (Z.div_mod n 16 ltac:(lia)) as Hd. pose proof (Z.mod_pos_bound n 16 ltac:(lia)) as Hm.
    destruct (IH (n / 16) (n mod 16 :: acc)) as (H1&H2&H3&H4); [|lia|by constructor; [unfold is_nibble; lia|]|].
    { split; [apply Z.div_pos; lia|apply Z.div_lt_upper_bound; lia]. }
    split_and!; [done|cbn [length] in H2; lia|done|]. rewrite H4. cbn [fold_left]. f_equal. lia.
Qed.

Lemma hex_digit_char ds : Forall is_nibble ds → mapM hex_digit (digit_char <$> ds) = Some ds.
Proof.
  induction 1 as [|d ds Hd _ IH]; [done|]. rewrite fmap_cons. cbn [mapM].
  assert (hex_digit (digit_char d) = Some d) as ->.
  { unfold is_nibble in Hd. assert (is_byte d) as Hb by (unfold is_byte; lia).
    pose proof (forall_bytes (λ d, (16 <=? d) || bool_decide (hex_digit (digit_char d) = Some d)) d ltac:(by vm_compute) Hb) as H.
    cbn beta in H. apply orb_true_iff in H as [H|H%bool_decide_eq_true]; [lia|done]. }
  cbn [mbind option_bind]. by rewrite IH.
Qed.

Lemma snprintf_parsed f i :
  0 ≤ i < 2 ^ 32 → (1 ≤ f ≤ 8)%nat →
  hexstr2val (snprintf_0X f i) (length (snprintf_0X f i)) = Ok i.
Proof.
  intros Hi Hf. unfold snprintf_0X. set (ds := digits_of 8 i []).
  destruct (digits_of_spec 8 i []) as (Hn&Hl&Hpos&Hv); [change (16 ^ Z.of_nat 8) with (2 ^ 32); lia|lia|constructor|].
  fold ds in Hn, Hl, Hpos, Hv. cbn [length] in Hl.
  assert (Hz : ∀ k, fold_left (λ a d, 16 * a + d) (replicate k 0 ++ ds) 0 = fold_left (λ a d, 16 * a + d) ds 0).
  { intros k. induction k as [|k IH]; [done|]. exact IH. }
  rewrite (hexstr2val_digits _ (replicate (f - length ds) 0 ++ ds)).
  - unfold digits_value. by rewrite Hz, Hv.
  - apply hex_digit_char, Forall_app. split; [|done]. apply Forall_replicate. unfold is_nibble. lia.
  - rewrite length_fmap, length_app, length_replicate. lia.
Qed.

(** ** The programs *)

#[local] Opaque for_range.

Lemma quickmod_tester_ok {St} (s : St) : quickmod_tester s = Ok (tt, s).
Proof.
  unfold quickmod_tester, mod_checker. rewrite (bind_ok _ _ _ tt s).
  - apply massert_run. by vm_compute.
  - apply for_range_id; [lia|]. intros j Hj. apply massert_run, Z.eqb_eq.
    symmetry. apply quickmod_divisible_exact. lia.
Qed.

Lemma divisible_tester_ok {St} (s : St) : divisible_tester s = Ok (tt, s).
Proof.
  unfold divisible_tester, div_checker. rewrite (bind_ok _ _ _ tt s).
  - apply massert_run. by vm_compute.
  - apply for_range_id; [lia|]. intros j Hj. apply massert_run.
    rewrite (proj2 (quickmod_divisible_exact j ltac:(lia))). unfold truthy. rewrite negb_involutive. apply eqb_reflx.
Qed.

Lemma hexstr_checker_run {St} (s : St) str i :
  0 ≤ i < 2 ^ 32 → hexstr2val str (length str) = Ok i → hexstr_checker i str s = Ok (tt, s).
Proof.
  intros Hi Hr. unfold hexstr_checker. rewrite (bind_ok _ _ _ i s) by (unfold lift; by rewrite Hr).
  apply massert_run, Z.eqb_eq. by rewrite wrapu_small.
Qed.

Lemma hexstr2val_tester_ok {St} (s : St) : hexstr2val_tester s = Ok (tt, s).
Proof.
  unfold hexstr2val_tester.
  do 7 (rewrite (bind_ok _ _ _ tt s) by (apply hexstr_checker_run; [lia|by vm_compute])).
  apply for_range_id; [lia|]. intros i Hi. apply for_range_id; [lia|]. intros f Hf.
  apply hexstr_checker_run; [lia|]. apply snprintf_parsed; lia.
Qed.

(** (the test programs pass) the programs of asr.c, div.c, hex.c and single-num.c
    return 0: in particular the remainder by 3 and the test of divisibility are
    checked for all 2^32 numbers, and every number below 2^32 - 1 is read back from
    its hexadecimal digits in every width, whichever way [>>] shifts. *)
Theorem bitwise_tests_pass {St} (arithmetic : bool) (s : St) :
  asr_main arithmetic s = Ok (0, s) ∧ div_main s = Ok (0, s) ∧ hex_main s = Ok (0, s) ∧ single_num_main s = Ok (0, s).
Proof.
  split_and!.
  - destruct arithmetic; by vm_compute.
  - unfold div_main. rewrite (bind_ok _ _ _ tt s) by apply quickmod_tester_ok.
    rewrite (bind_ok _ _ _ tt s) by apply divisible_tester_ok. reflexivity.
  - unfold hex_main. rewrite (bind_ok _ _ _ tt s) by (vm_compute; reflexivity).
    rewrite (bind_ok _ _ _ tt s) by apply hexstr2val_tester_ok. reflexivity.
  - by vm_compute.
Qed.

(** (printing and parsing) for every 32-bit number, [hexstr2val] reads back what
    [printf] with an upper-case hexadecimal format of width one to eight writes. *)
Theorem hex_print_roundtrip (f : nat) (i : Z) :
  0 ≤ i < 2 ^ 32 → (1 ≤ f ≤ 8)%nat →
  hexstr2val (snprintf_0X f i) (length (snprintf_0X f i)) = Ok i.
Proof. apply snprintf_parsed. Qed.

Section ascii.
Context (cmpistri : list Z → list Z → Z) `{!Pcmpistri cmpistri}.

(** C26: (the SSE version) [is_alphabet_sse] compares sixteen bytes at a time: for a
    string whose length is a multiple of 16 it decides that there are only letters,
    also for the empty one; for any other length it reads up to 15 bytes behind the
    string, which may not exist, and takes a string of letters for something else
    when a letter follows. *)
Theorem is_alphabet_sse_spec str after :
  Forall is_byte (str ++ after) → Z.of_nat (length str) + 16 < 2 ^ 64 →
  is_alphabet_sse cmpistri (S (length str)) (str ++ after) (Z.of_nat (length str)) =
    let n := (16 * Z.to_nat (Z.of_nat (length str) / 16))%nat in
    if negb (forallb is_letter (take n str)) then Ok false
    else if Z.of_nat (length str) mod 16 =? 0 then Ok true
    else if (length (drop n str ++ after) <? 16)%nat then Err Undefined
    else Ok (forallb is_letter (drop n str) && negb (is_letter (hd 0 after))).
Proof using Type*.
  intros Hb Hlen. pose proof (is_alphabet_sse_ok cmpistri (S (length str)) str after Hb Hlen) as Hs.
  apply Hs. apply Z.div_lt_upper_bound; lia.
Qed.

(** The function on the array of the tester. *)
Lemma sse_array str after :
  length str = ARRAY → Forall is_byte str → Forall is_byte after → (9 ≤ length after)%nat → is_letter (hd 0 after) = false →
  is_alphabet_sse cmpistri ARRAY (str ++ after) (Z.of_nat ARRAY) = Ok (forallb is_letter str).
Proof using Type*.
  intros Hl Hb Hba Ha Hhd. pose proof (is_alphabet_sse_ok cmpistri ARRAY str after) as Hs.
  rewrite Hl in Hs. specialize (Hs ltac:(by apply Forall_app) eq_refl eq_refl).
  cbv zeta in Hs. rewrite Hs.
  assert (forallb is_letter str = forallb is_letter (take 128 str) && forallb is_letter (drop 128 str)) as ->.
  { by rewrite <- forallb_app, take_drop. }
  change (16 * Z.to_nat (Z.of_nat ARRAY `div` 16))%nat with 128%nat.
  destruct (forallb is_letter (take 128 str)); [cbn [negb andb]|done].
  change (Z.of_nat ARRAY mod 16 =? 0) with false. cbn match.
  rewrite (proj2 (Nat.ltb_ge _ _)) by (rewrite length_app, length_drop, Hl; unfold ARRAY; lia).
  by rewrite Hhd, andb_true_r.
Qed.

(** The tester ends with its first check when that does not hold. *)
Lemma tester_fails func e s :
  (∀ s, ascii_checker true func s = Err e ∨ s ≠ replicate ARRAY 65) → is_aphabet_tester func s = Err e.
Proof using Type.
  intros Hc. unfold is_aphabet_tester. rewrite (bind_ok _ _ _ _ _ (modify_run _ _)).
  apply bind_err, for_range_err; [lia|]. rewrite (bind_ok _ _ _ _ _ (fill_array 65 _ (length_replicate _ _))).
  by destruct (Hc (replicate ARRAY (u8 65))).
Qed.

(** The first check, of an array of letters. *)
Lemma sse_first str after :
  length str = ARRAY → Forall (λ b, is_letter b = true) str → Forall is_byte after →
  (length after < 9)%nat ∨ is_letter (hd 0 after) = true →
  ascii_checker true (λ str, is_alphabet_sse cmpistri ARRAY (str ++ after)) str =
  Err (if (length after <? 9)%nat then Undefined else AssertFailed).
Proof using Type*.
  intros Hl Hlet Ha Hcase.
  assert (Hf : ∀ l, Forall (λ b, is_letter b = true) l → forallb is_letter l = true).
  { intros l Hs. apply forallb_forall. intros b Hb%list_elem_of_In. by apply (proj1 (Forall_forall _ _) Hs). }
  assert (Hb : Forall is_byte (str ++ after)).
  { apply Forall_app. split; [|done]. eapply Forall_impl; [exact Hlet|exact letter_byte]. }
  pose proof (is_alphabet_sse_ok cmpistri ARRAY str after Hb) as Hs.
  rewrite Hl in Hs. specialize (Hs eq_refl eq_refl). cbv zeta in Hs.
  change (16 * Z.to_nat (Z.of_nat ARRAY `div` 16))%nat with 128%nat in Hs.
  change (Z.of_nat ARRAY mod 16 =? 0) with false in Hs.
  rewrite (Hf _ (Forall_take _ _ _ Hlet)), (Hf _ (Forall_drop _ _ _ Hlet)), length_app, length_drop, Hl in Hs.
  unfold ascii_checker. rewrite (bind_ok _ _ _ _ _ (gets_run _ _)). cbn [id].
  set (r := is_alphabet_sse _ _ _ _) in *. clearbody r. subst r.
  replace (ARRAY - 128 + length after <? 16)%nat with (length after <? 9)%nat.
  2: { unfold ARRAY. destruct (Nat.ltb_spec (length after) 9); symmetry; [apply Nat.ltb_lt|apply Nat.ltb_ge]; lia. }
  destruct (Nat.ltb_spec (length after) 9) as [|Hge]; [done|]. destruct Hcase as [|Hhd]; [lia|]. by rewrite Hhd.
Qed.

#[local] Opaque is_ascii_tester is_aphabet_tester.

(** (the program of ascii.c) its testers find no error if at least nine bytes
    can be read behind the array of a tester and the first of them is not a letter;
    with a letter the tester of the SSE version ends the program, and without nine
    bytes it reads outside of the stack. *)
Theorem ascii_main_depends after s :
  Forall is_byte after →
  if (length after <? 9)%nat then ascii_main cmpistri after s = Err Undefined
  else if is_letter (hd 0 after) then ascii_main cmpistri after s = Err AssertFailed
  else ∃ s', ascii_main cmpistri after s = Ok (0, s').
Proof using Type*.
  intros Ha. unfold ascii_main. destruct (is_ascii_tester_ok s) as [s1 Hr1]. rewrite (bind_ok _ _ _ _ _ Hr1).
  destruct (is_aphabet_tester_ok (is_alphabet (S ARRAY))) with (s := s1) as [s2 Hr2].
  { intros str Hl Hb. pose proof (is_alphabet_letters str Hb) as Hs. rewrite Hl in Hs. rewrite (Hs eq_refl).
    destruct str; [discriminate|reflexivity]. }
  set (tester := is_aphabet_tester (is_alphabet (S ARRAY))) in *. clearbody tester. rewrite (bind_ok _ _ _ _ _ Hr2).
  destruct (Nat.ltb_spec (length after) 9) as [Hshort|Hlong]; [|destruct (is_letter (hd 0 after)) eqn:Hhd].
  3: { destruct (is_aphabet_tester_ok (λ str, is_alphabet_sse cmpistri ARRAY (str ++ after))) with (s := s2) as [s3 Hr3].
    { intros str Hl Hb. by apply sse_array. }
    rewrite (bind_ok _ _ _ _ _ Hr3). by exists s3. }
  (* the first check is on an array of 'A' *)
  all: apply bind_err, tester_fails; intros s3; destruct (decide (s3 = replicate ARRAY 65)) as [->|]; [left|by right].
  all: rewrite sse_first; [|apply length_replicate|by apply Forall_replicate|done|auto].
  - by rewrite (proj2 (Nat.ltb_lt _ _)) by done.
  - by rewrite (proj2 (Nat.ltb_ge _ _)) by done.
Qed.
End ascii.

(** ** Witnesses *)

Lemma hex_print_roundtrip_witness : hexstr2val (snprintf_0X 3 0xBEEF) (length (snprintf_0X 3 0xBEEF)) = Ok 0xBEEF.
Proof. apply (hex_print_roundtrip 3 0xBEEF); lia. Defined.

Definition pcmpistri (r m : list Z) : Z := Z.of_nat (run_length (λ b, negb (b =? 0) && in_ranges r b) m).
#[local] Instance pcmpistri_documented : Pcmpistri pcmpistri.
Proof. by split. Qed.

(** Two letters followed by a digit, and by a letter. *)
Lemma is_alphabet_sse_spec_witness :
  is_alphabet_sse pcmpistri 3 ([72; 105] ++ replicate 14 48) 2 = Ok true ∧
  is_alphabet_sse pcmpistri 3 ([72; 105] ++ replicate 14 65) 2 = Ok false.
Proof.
  split.
  - refine (is_alphabet_sse_spec pcmpistri [72; 105] (replicate 14 48) _ _); [|done].
    apply Forall_app. split; [repeat constructor; done|by apply Forall_replicate].
  - refine (is_alphabet_sse_spec pcmpistri [72; 105] (replicate 14 65) _ _); [|done].
    apply Forall_app. split; [repeat constructor; done|by apply Forall_replicate].
Defined.

Lemma ascii_main_depends_witness :
  (∃ s', ascii_main pcmpistri (replicate 9 0) [] = Ok (0, s')) ∧
  ascii_main pcmpistri (replicate 9 97) [] = Err AssertFailed.
Proof.
  split.
  - refine (ascii_main_depends pcmpistri (replicate 9 0) [] _). by apply Forall_replicate.
  - refine (ascii_main_depends pcmpistri (replicate 9 97) [] _). by apply Forall_replicate.
Defined.
