(* ===== verification/RingBuf.v ===== *)
(** * The lock-free ring buffer of producer/producer.c

    One producer and one consumer share a buffer of a power-of-two size without
    locks: the producer only moves [head], the consumer only moves [tail], and
    elements are contiguous, with a gap element in front of the end of the buffer
    where the next one would not fit.  The state is the [ringbuf_t] with its
    bytes; pointers into [buf] are offsets.  The interleavings of producer and
    consumer are a step relation in which each function of the buffer, each byte
    the producer stores and each reading of a message is one step; the two
    threads touch disjoint bytes between their atomic accesses, which is part of
    what the invariant says. *)
From S2P Require Import Prelude.
From stdpp Require Import list.
#[local] Open Scope Z_scope.
#[local] Open Scope c_scope.

Record ringbuf_t := mk_ringbuf {
  size : Z;
  mask : Z;
  rsvd : Z;
  gapd : Z;
  head : Z;
  tail : Z;
  buf : list Z
}.

Definition set_rsvd (rs gap : Z) (r : ringbuf_t) : ringbuf_t :=
  mk_ringbuf (size r) (mask r) rs gap (head r) (tail r) (buf r).
Definition set_head (v : Z) (r : ringbuf_t) : ringbuf_t :=
  mk_ringbuf (size r) (mask r) (rsvd r) (gapd r) v (tail r) (buf r).
Definition set_tail (v : Z) (r : ringbuf_t) : ringbuf_t :=
  mk_ringbuf (size r) (mask r) (rsvd r) (gapd r) (head r) v (buf r).
Definition set_buf (b : list Z) (r : ringbuf_t) : ringbuf_t :=
  mk_ringbuf (size r) (mask r) (rsvd r) (gapd r) (head r) (tail r) b.

(** Accesses to the bytes of [buf]; outside of it they are undefined. *)
Definition in_buf (o : Z) (n : nat) (r : ringbuf_t) : bool :=
  (0 <=? o) && (o + Z.of_nat n <=? Z.of_nat (length (buf r))).
Definition load (o : Z) (n : nat) : M ringbuf_t (list Z) :=
  gets_some (λ r, if in_buf o n r then Some (take n (drop (Z.to_nat o) (buf r))) else None).
Definition store (o : Z) (bs : list Z) : M ringbuf_t unit :=
  r ← gets_some (λ r, if in_buf o (length bs) r then Some r else None);
  modify (set_buf (list_inserts (Z.to_nat o) bs (buf r))).

(** [ringbuf_element_t]: [size] and [gap], 32 bits each. *)
Definition sizeof_element : Z := 8.
Definition element_bytes (sz gap : Z) : list Z := le_encode 4 sz ++ le_encode 4 gap.
Definition load_element (o : Z) : M ringbuf_t (Z * Z) :=
  bs ← load o 8;
  ret (le_decode (take 4 bs), le_decode (drop 4 bs)).

(** [~7U] is a 32-bit constant: the mask also clears the upper 32 bits. *)
Definition RINGBUF_PAD (n : Z) : Z := Z.land (u64 (n + 7)) (u32 (Z.lnot 7)).

Fixpoint body_size_loop (fuel : nat) (sz minimum : Z) : option Z :=
  match fuel with
  | O => None
  | S fuel =>
      if sz <? minimum then body_size_loop fuel (u64 (Z.shiftl sz 1)) minimum else Some sz
  end.
Definition ringbuf_body_size (minimum : Z) : option Z := body_size_loop 64 1 minimum.

(** The buffer [ringbuf_new] and [ringbuf_shm_init] set up over some memory. *)
Definition ringbuf_init (body_size : Z) (memory : list Z) : ringbuf_t :=
  mk_ringbuf body_size (u64 (body_size - 1)) 0 0 0 0 memory.

(** Returns the pointer and [*maximum]. *)
Definition ringbuf_write_request_max (minimum : Z) : M ringbuf_t (option Z * Z) :=
  head ← gets head;
  tail ← gets tail;
  size ← gets size;
  mask ← gets mask;
  let padded := u64 (2 * sizeof_element + RINGBUF_PAD minimum) in
  let space :=
    if tail <? head then u64 (Z.land (u64 (tail - head + size)) mask - 1)
    else if head <? tail then u64 (tail - head - 1)
    else u64 (size - 1) in
  let end_ := u64 (head + space) in
  if size <? end_ then
    let len1 := u64 (size - head) in
    if len1 <? padded then
      let len2 := Z.land end_ mask in
      if len2 <? padded then modify (set_rsvd 0 0) ;; ret (None, 0)
      else modify (set_rsvd len2 len1) ;; ret (Some sizeof_element, len2)
    else modify (set_rsvd len1 0) ;; ret (Some (head + sizeof_element), len1)
  else if space <? padded then modify (set_rsvd 0 0) ;; ret (None, 0)
  else modify (set_rsvd space 0) ;; ret (Some (head + sizeof_element), space).

Definition ringbuf_write_advance_raw (head written : Z) : M ringbuf_t unit :=
  mask ← gets mask;
  modify (set_head (Z.land (u64 (head + written)) mask)).

Definition ringbuf_write_advance (written : Z) : M ringbuf_t unit :=
  rsvd ← gets rsvd;
  massert (written <=? rsvd) ;;
  head ← gets head;
  gapd ← gets gapd;
  (if 0 <? gapd then
     store head (element_bytes (u32 (gapd - sizeof_element)) 1) ;;
     store 0 (element_bytes (u32 written) 0)
   else store head (element_bytes (u32 written) 0)) ;;
  ringbuf_write_advance_raw head (u64 (gapd + sizeof_element + RINGBUF_PAD written)).

Definition ringbuf_read_advance_raw (tail read : Z) : M ringbuf_t unit :=
  mask ← gets mask;
  modify (set_tail (Z.land (u64 (tail + read)) mask)).

(** Returns the pointer and [*toread]. *)
Definition ringbuf_read_request : M ringbuf_t (option Z * Z) :=
  tail ← gets tail;
  head ← gets head;
  size ← gets size;
  mask ← gets mask;
  let space :=
    if tail <? head then u64 (head - tail)
    else Z.land (u64 (head - tail + size)) mask in
  if 0 <? space then
    let end_ := u64 (tail + space) in
    if size <? end_ then
      let len1 := u64 (size - tail) in
      e ← load_element tail;
      if truthy e.2 then
        ringbuf_read_advance_raw tail len1 ;;
        e ← load_element 0;
        ret (Some sizeof_element, e.1)
      else ret (Some (tail + sizeof_element), e.1)
    else
      e ← load_element tail;
      ret (Some (tail + sizeof_element), e.1)
  else ret (None, 0).

Definition ringbuf_read_advance : M ringbuf_t unit :=
  tail ← gets tail;
  e ← load_element tail;
  ringbuf_read_advance_raw tail (u64 (sizeof_element + RINGBUF_PAD e.1)).

(** ** The two threads *)

(** The producer asks for [minimum] bytes, stores bytes among them and publishes
    [written] of them; the consumer asks for a message, reads it and releases
    it. *)
Inductive producer_state :=
| PIdle
| PFilling (minimum ptr : Z).

Inductive consumer_state :=
| CIdle
| CReading (ptr n : Z).

(** [put] and [got] record the published and the read messages. *)
Record config := mk_config {
  ring : ringbuf_t;
  producer : producer_state;
  consumer : consumer_state;
  put : list (list Z);
  got : list (list Z)
}.

Inductive action :=
| WriteRequest (minimum : Z)
| StoreByte (i b : Z)
| WriteAdvance (written : Z)
| ReadRequest
| ReadMessage
| ReadAdvance.

(** Whether a thread does the action in its state: requests are below 4 GiB, and
    the producer touches and publishes what it asked for. *)
Definition allowed (c : config) (a : action) : bool :=
  match a, producer c, consumer c with
  | WriteRequest minimum, PIdle, _ => (0 <=? minimum) && (minimum <? 2 ^ 32 - 8)
  | StoreByte i b, PFilling minimum _, _ =>
      (0 <=? i) && (i <? minimum) && (0 <=? b) && (b <? 256)
  | WriteAdvance written, PFilling minimum _, _ => (0 <=? written) && (written <=? minimum)
  | ReadRequest, _, CIdle => true
  | ReadMessage, _, CReading _ _ => true
  | ReadAdvance, _, CReading _ _ => true
  | _, _, _ => false
  end.

(** Reading stores nothing in the configuration: a message counts as read when it
    is released, with the bytes it has then. *)
Definition exec (a : action) (c : config) : result config :=
  let '(mk_config r p k pu go) := c in
  match a, p, k with
  | WriteRequest minimum, PIdle, _ =>
      match ringbuf_write_request_max minimum r with
      | Ok ((ptr, _), r) =>
          Ok (mk_config r (match ptr with Some o => PFilling minimum o | None => PIdle end) k pu go)
      | Err e => Err e
      end
  | StoreByte i b, PFilling minimum o, _ =>
      match store (o + i) [b] r with
      | Ok (_, r) => Ok (mk_config r p k pu go)
      | Err e => Err e
      end
  | WriteAdvance written, PFilling minimum o, _ =>
      match (m ← load o (Z.to_nat written); ringbuf_write_advance written ;; ret m) r with
      | Ok (m, r) => Ok (mk_config r PIdle k (pu ++ [m]) go)
      | Err e => Err e
      end
  | ReadRequest, _, CIdle =>
      match ringbuf_read_request r with
      | Ok ((Some o, n), r) => Ok (mk_config r p (CReading o n) pu go)
      | Ok ((None, _), r) => Ok (mk_config r p CIdle pu go)
      | Err e => Err e
      end
  | ReadMessage, _, CReading o n =>
      match load o (Z.to_nat n) r with
      | Ok (_, r) => Ok (mk_config r p k pu go)
      | Err e => Err e
      end
  | ReadAdvance, _, CReading o n =>
      match (m ← load o (Z.to_nat n); ringbuf_read_advance ;; ret m) r with
      | Ok (m, r) => Ok (mk_config r p CIdle pu (go ++ [m]))
      | Err e => Err e
      end
  | _, _, _ => Err Blocked
  end.

(** A schedule: the actions of both threads in the order they happen; an action
    its thread is not ready for is skipped. *)
Fixpoint run (acts : list action) (c : config) : result config :=
  match acts with
  | [] => Ok c
  | a :: acts =>
      if allowed c a then
        match exec a c with Ok c => run acts c | Err e => Err e end
      else run acts c
  end.

Definition start (r : ringbuf_t) : config := mk_config r PIdle CIdle [] [].


(** ** The contents of the buffer

    Positions are counted without wrapping around: position [o] is the byte
    [o mod size]. *)

Definition cell (r : ringbuf_t) (o : Z) : option Z := buf r !! Z.to_nat (o mod size r).
Definition shows (r : ringbuf_t) (o : Z) (bs : list Z) : Prop :=
  ∀ i b, bs !! i = Some b → cell r (o + Z.of_nat i) = Some b.

Record wf (r : ringbuf_t) : Prop := {
  wf_size : ∃ k, 3 ≤ k ≤ 32 ∧ size r = 2 ^ k;
  wf_mask : mask r = size r - 1;
  wf_buf : Z.of_nat (length (buf r)) = size r
}.

Inductive item :=
| Elem (p : list Z)
| Gap (n : Z).

Definition len (p : list Z) : Z := Z.of_nat (length p).

(** The items between two positions: elements lie inside the buffer, and a gap
    fills it up to its end and is followed by an element. *)
Fixpoint stored (r : ringbuf_t) (o : Z) (items : list item) (o' : Z) : Prop :=
  match items with
  | [] => o = o'
  | Elem p :: items =>
      len p < 2 ^ 32 - 8 ∧ shows r o (element_bytes (len p) 0 ++ p) ∧
      o mod size r + 8 + RINGBUF_PAD (len p) ≤ size r ∧
      stored r (o + 8 + RINGBUF_PAD (len p)) items o'
  | Gap n :: items =>
      8 ≤ n ∧ shows r o (element_bytes (n - 8) 1) ∧ o mod size r + n = size r ∧
      items ≠ [] ∧ stored r (o + n) items o'
  end.

Fixpoint messages (items : list item) : list (list Z) :=
  match items with
  | [] => []
  | Elem p :: items => p :: messages items
  | Gap _ :: items => messages items
  end.

(** A granted request for [minimum] bytes at [ptr]: behind the gap, if one is
    needed, and in front of the unread items. *)
Definition granted (r : ringbuf_t) (T H minimum ptr : Z) : Prop :=
  0 ≤ minimum < 2 ^ 32 - 8 ∧ (gapd r = 0 ∨ gapd r = size r - head r) ∧
  ptr = (H + gapd r) mod size r + 8 ∧
  (H + gapd r) mod size r + 8 + RINGBUF_PAD minimum ≤ size r ∧
  H + gapd r + 8 + RINGBUF_PAD minimum < T + size r ∧ minimum ≤ rsvd r.

Definition producer_ok (r : ringbuf_t) (T H : Z) (p : producer_state) : Prop :=
  match p with PIdle => True | PFilling minimum ptr => granted r T H minimum ptr end.
Definition consumer_ok (r : ringbuf_t) (items : list item) (k : consumer_state) : Prop :=
  match k with
  | CIdle => True
  | CReading ptr n => ∃ p rest, items = Elem p :: rest ∧ ptr = tail r + 8 ∧ n = len p
  end.

Record inv_at (T H : Z) (items : list item) (c : config) : Prop := {
  i_wf : wf (ring c);
  i_tail : tail (ring c) = T mod size (ring c);
  i_head : head (ring c) = H mod size (ring c);
  i_T8 : T mod 8 = 0;
  i_H8 : H mod 8 = 0;
  i_room : H < T + size (ring c);
  i_stored : stored (ring c) T items H;
  i_fifo : put c = got c ++ messages items;
  i_producer : producer_ok (ring c) T H (producer c);
  i_consumer : consumer_ok (ring c) items (consumer c)
}.
Definition inv (c : config) : Prop := ∃ T H items, inv_at T H items c.

(** ** Lemmas on the buffer *)

Section buffer.
Implicit Types (r : ringbuf_t) (bs p : list Z) (o a n : Z).

Lemma pad_spec n :
  0 ≤ n < 2 ^ 32 - 8 → n ≤ RINGBUF_PAD n < n + 8 ∧ RINGBUF_PAD n mod 8 = 0.
Proof.
  intros Hn. unfold RINGBUF_PAD. rewrite wrapu_small by lia.
  change (u32 (Z.lnot 7)) with (Z.shiftl (Z.ones 29) 3).
  rewrite land_shiftl, Z.land_ones, Z.shiftl_mul_pow2, Z.shiftr_div_pow2 by lia.
  change (2 ^ 3) with 8.
  rewrite (Z.mod_small ((n + 7) / 8)) by (Z.to_euclidean_division_equations; lia).
  rewrite Z.mod_mul by lia. Z.to_euclidean_division_equations; lia.
Qed.

Lemma pad_mono m n : 0 ≤ m ≤ n → n < 2 ^ 32 - 8 → RINGBUF_PAD m ≤ RINGBUF_PAD n.
Proof. intros Hm Hn. pose proof (pad_spec m ltac:(lia)). pose proof (pad_spec n ltac:(lia)).
  Z.to_euclidean_division_equations; lia.
Qed.

Lemma size_facts r : wf r → 8 ≤ size r ≤ 2 ^ 32 ∧ size r mod 8 = 0.
Proof.
  intros [(k&Hk&->) _ _]. assert (2 ^ 3 ≤ 2 ^ k ≤ 2 ^ 32) by (split; apply Z.pow_le_mono_r; lia).
  split; [lia|]. replace k with (k - 3 + 3) by lia. rewrite Z.pow_add_r by lia. by apply Z.mod_mul.
Qed.

Lemma land_mask r o : wf r → Z.land o (mask r) = o mod size r.
Proof.
  intros [(k&Hk&Hs) Hm _]. rewrite Hm, Hs, <- Z.land_ones, Z.ones_equiv by lia. done.
Qed.

Lemma mod_8 r o : wf r → o mod 8 = 0 → (o mod size r) mod 8 = 0.
Proof.
  intros Hwf Ho. destruct (size_facts r Hwf) as [_ H8].
  pose proof (Z.div_mod o (size r) ltac:(destruct (size_facts r Hwf); lia)) as Hd.
  pose proof (Z.div_mod (size r) 8 ltac:(lia)) as Hs. rewrite H8 in Hs.
  replace (o mod size r) with (o + 8 * (- (size r / 8) * (o / size r))) by lia.
  by rewrite Z.mul_comm, Z.mod_add by lia.
Qed.

(** Bytes that do not cross the end of the buffer. *)
Lemma mod_inside r o n i :
  wf r → o mod size r + n ≤ size r → 0 ≤ i < n → (o + i) mod size r = o mod size r + i.
Proof.
  intros Hwf Ho Hi. destruct (size_facts r Hwf). rewrite <- Z.add_mod_idemp_l by lia.
  apply Z.mod_small. pose proof (Z.mod_pos_bound o (size r) ltac:(lia)). lia.
Qed.

Lemma mod_ne r a o : wf r → o < a < o + size r → a mod size r ≠ o mod size r.
Proof.
  intros Hwf Ha Heq. destruct (size_facts r Hwf) as [Hs _].
  pose proof (Z.div_mod a (size r) ltac:(lia)) as H1. pose proof (Z.div_mod o (size r) ltac:(lia)) as H2.
  rewrite Heq in H1. assert (a - o = size r * (a / size r - o / size r)) as H3 by lia.
  destruct (Z.le_gt_cases (a / size r - o / size r) 0); nia.
Qed.

Lemma load_shows r o bs :
  wf r → shows r o bs → o mod size r + len bs ≤ size r →
  load (o mod size r) (length bs) r = Ok (bs, r).
Proof.
  intros Hwf Hbs Hin. destruct (size_facts r Hwf). pose proof (wf_buf r Hwf) as Hlen.
  pose proof (Z.mod_pos_bound o (size r) ltac:(lia)). unfold len in Hin.
  apply gets_some_ok. unfold in_buf.
  rewrite (proj2 (Z.leb_le _ _)), (proj2 (Z.leb_le _ _)) by lia. simpl. f_equal. apply list_eq. intros i.
  destruct (decide (i < length bs)%nat) as [Hi|Hi].
  - destruct (lookup_lt_is_Some_2 bs i Hi) as [b Hb]. rewrite Hb.
    rewrite lookup_take_lt, lookup_drop by done.
    specialize (Hbs i b Hb). unfold cell in Hbs. rewrite (mod_inside r o (len bs)) in Hbs by (unfold len; done || lia).
    rewrite <- Hbs. f_equal. lia.
  - rewrite lookup_take_ge, (lookup_ge_None_2 bs) by lia. done.
Qed.

Lemma shows_range_app r o bs p : shows r o (bs ++ p) ↔ shows r o bs ∧ shows r (o + len bs) p.
Proof.
  unfold shows, len. split.
  - intros H. split; intros i b Hb.
    + apply H. by apply lookup_app_l_Some.
    + rewrite <- Z.add_assoc, <- Nat2Z.inj_add. apply H. rewrite lookup_app_r by lia. by rewrite Nat.add_comm, Nat.add_sub.
  - intros [H1 H2] i b [Hb|[Hi Hb]]%lookup_app_Some; [by apply H1|].
    specialize (H2 _ _ Hb). rewrite <- H2. f_equal. lia.
Qed.

(** [agree r r' lo hi]: the bytes of the positions from [lo] to [hi] are unchanged. *)
Definition agree r r' (lo hi : Z) : Prop :=
  size r' = size r ∧ ∀ o, lo ≤ o < hi → cell r' o = cell r o.

Lemma store_ok r o bs :
  wf r → o mod size r + len bs ≤ size r →
  ∃ b', store (o mod size r) bs r = Ok (tt, set_buf b' r) ∧ wf (set_buf b' r) ∧
    shows (set_buf b' r) o bs ∧
    ∀ lo hi, (hi ≤ o ∧ o + len bs ≤ lo + size r) ∨ (o + len bs ≤ lo ∧ hi ≤ o + size r) →
      agree r (set_buf b' r) lo hi.
Proof.
  intros Hwf Hin. destruct (size_facts r Hwf). pose proof (wf_buf r Hwf) as Hlen.
  pose proof (Z.mod_pos_bound o (size r) ltac:(lia)). unfold len in *.
  exists (list_inserts (Z.to_nat (o mod size r)) bs (buf r)). split_and!.
  - unfold store. erewrite bind_ok; [reflexivity|]. apply gets_some_ok. unfold in_buf.
    by rewrite (proj2 (Z.leb_le _ _)), (proj2 (Z.leb_le _ _)) by lia.
  - destruct Hwf as [Hw1 Hw2 Hw3]. split; simpl; [done..|]. by rewrite length_inserts.
  - intros i b Hb. pose proof (lookup_lt_Some _ _ _ Hb) as Hi. unfold cell. cbn [buf size set_buf].
    rewrite (mod_inside r o (Z.of_nat (length bs))) by (done || lia).
    rewrite list_lookup_inserts by lia. rewrite <- Hb. f_equal. lia.
  - intros lo hi Hlo. split; [done|]. intros x Hx. unfold cell. cbn [buf size set_buf].
    destruct (decide (Z.to_nat (o mod size r) ≤ Z.to_nat (x mod size r) < Z.to_nat (o mod size r) + length bs)%nat) as [Hc|Hc].
    + exfalso. pose proof (Z.mod_pos_bound x (size r) ltac:(lia)).
      set (i := x mod size r - o mod size r) in *. assert (0 ≤ i < Z.of_nat (length bs)) by lia.
      assert (x mod size r = (o + i) mod size r) as Heq
        by (rewrite (mod_inside r o (Z.of_nat (length bs))) by (done || lia); lia).
      destruct Hlo; [apply (mod_ne r (o + i) x)|apply (mod_ne r x (o + i))]; done || lia.
    + destruct (decide (Z.to_nat (o mod size r) ≤ Z.to_nat (x mod size r))%nat).
      * rewrite list_lookup_inserts_ge by lia. done.
      * rewrite list_lookup_inserts_lt by lia. done.
Qed.
End buffer.
Section items.
Implicit Types (r : ringbuf_t) (bs p : list Z) (o a n T H : Z) (items : list item).

Lemma len_nonneg p : 0 ≤ len p.
Proof. unfold len. lia. Qed.

Lemma stored_le r o items o' :
  stored r o items o' → (items = [] ∧ o = o') ∨ (items ≠ [] ∧ o + 8 ≤ o').
Proof.
  revert o. induction items as [|[p|n] items IH]; intros o; cbn [stored]; [by left|..];
    intros H; right; split; try done.
  - destruct H as (Hp&_&_&Hr). pose proof (pad_spec (len p)). pose proof (len_nonneg p).
    destruct (IH _ Hr) as [[_ ?]|[_ ?]]; lia.
  - destruct H as (Hn&_&_&_&Hr). destruct (IH _ Hr) as [[_ ?]|[_ ?]]; lia.
Qed.

Lemma stored_mod8 r o items o' :
  wf r → stored r o items o' → o mod 8 = 0 → o' mod 8 = 0.
Proof.
  intros Hwf. revert o. induction items as [|[p|n] items IH]; intros o; cbn [stored]; [by intros <-|..];
    intros H Ho.
  - destruct H as (Hp&_&_&Hr). apply (IH _ Hr). pose proof (len_nonneg p).
    destruct (pad_spec (len p)) as [_ H8]; [lia|]. Z.to_euclidean_division_equations; lia.
  - destruct H as (Hn&_&Hend&_&Hr). apply (IH _ Hr). pose proof (mod_8 r o Hwf Ho).
    destruct (size_facts r Hwf) as [_ H8]. replace n with (size r - o mod size r) by lia.
    set (m := o mod size r) in *. clearbody m. Z.to_euclidean_division_equations; lia.
Qed.

Lemma shows_agree r r' o bs :
  agree r r' o (o + len bs) → shows r o bs → shows r' o bs.
Proof.
  intros [_ Hag] Hbs i b Hb. pose proof (lookup_lt_Some _ _ _ Hb). rewrite Hag by (unfold len; lia).
  by apply Hbs.
Qed.

Lemma agree_mono r r' lo hi lo' hi' : agree r r' lo hi → lo ≤ lo' → hi' ≤ hi → agree r r' lo' hi'.
Proof. intros [Hs Hc] ??. split; [done|]. intros. apply Hc. lia. Qed.

Lemma length_element n m : len (element_bytes n m) = 8.
Proof. unfold len, element_bytes. by rewrite length_app, !length_le_encode. Qed.

Lemma len_app bs p : len (bs ++ p) = len bs + len p.
Proof. unfold len. rewrite length_app. lia. Qed.

Lemma stored_agree r r' o items o' :
  agree r r' o o' → stored r o items o' → stored r' o items o'.
Proof.
  revert o. induction items as [|[p|n] items IH]; intros o Hag; cbn [stored]; [done|..].
  - intros (Hp&Hs&He&Hr). pose proof (pad_spec (len p)). pose proof (len_nonneg p).
    pose proof (stored_le _ _ _ _ Hr) as Hle. pose proof Hag as [Hsz _]. rewrite Hsz.
    split_and!; [done| |done|].
    + apply (shows_agree r); [|done]. rewrite len_app, length_element.
      eapply agree_mono; [exact Hag|lia..].
    + apply IH; [|done]. eapply agree_mono; [exact Hag|lia..].
  - intros (Hn&Hs&He&Hne&Hr). pose proof (stored_le _ _ _ _ Hr) as Hle.
    pose proof Hag as [Hsz _]. rewrite Hsz. split_and!; [done| |done|done|].
    + apply (shows_agree r); [|done]. rewrite length_element.
      eapply agree_mono; [exact Hag|lia..].
    + apply IH; [|done]. eapply agree_mono; [exact Hag|lia..].
Qed.

Lemma stored_app r o items m items' o' :
  stored r o items m → stored r m items' o' → stored r o (items ++ items') o'.
Proof.
  revert o. induction items as [|[p|n] items IH]; intros o; cbn [stored app]; [by intros ->|..].
  - intros (?&?&?&?) ?. split_and!; auto.
  - intros (?&?&?&Hne&?) ?. split_and!; auto. by destruct items.
Qed.

Lemma messages_app items items' : messages (items ++ items') = messages items ++ messages items'.
Proof. induction items as [|[p|n] items IH]; cbn; [done|by f_equal|done]. Qed.

Lemma load_element_ok r o n m bs :
  wf r → 0 ≤ n < 2 ^ 32 → 0 ≤ m < 2 ^ 32 → shows r o (element_bytes n m ++ bs) →
  o mod size r + 8 ≤ size r →
  load_element (o mod size r) r = Ok ((n, m), r).
Proof.
  intros Hwf Hn Hm Hs Ho. apply shows_range_app in Hs as [Hs _].
  unfold load_element. erewrite bind_ok by (apply (load_shows r o (element_bytes n m)); [done..|];
    by rewrite length_element).
  unfold ret, element_bytes. rewrite take_app_length', drop_app_length' by (by rewrite length_le_encode).
  by rewrite !le_decode_encode_id.
Qed.

(** The size of an element fits the 32-bit field. *)
Lemma element_fits n : 0 ≤ n < 2 ^ 32 - 8 → u32 n = n.
Proof. intros. apply wrapu_small. lia. Qed.

Lemma head_tail r T H :
  wf r → T ≤ H < T + size r →
  H mod size r = T mod size r + (H - T) ∨ H mod size r = T mod size r + (H - T) - size r.
Proof.
  intros Hwf HT. destruct (size_facts r Hwf) as [Hs _].
  pose proof (Z.mod_pos_bound T (size r) ltac:(lia)). pose proof (Z.mod_pos_bound H (size r) ltac:(lia)).
  pose proof (Z.div_mod T (size r) ltac:(lia)). pose proof (Z.div_mod H (size r) ltac:(lia)).
  assert (H / size r = T / size r ∨ H / size r = T / size r + 1) as [Hq|Hq]; [nia|rewrite Hq in *; lia..].
Qed.
End items.
(** ** The operations *)

Section operations.
Implicit Types (r : ringbuf_t) (bs p : list Z) (o a n T H : Z) (items : list item).

(** The free space the producer computes from [head] and [tail]. *)
Lemma write_space r T H :
  wf r → tail r = T mod size r → head r = H mod size r → T ≤ H < T + size r →
  (if tail r <? head r then u64 (Z.land (u64 (tail r - head r + size r)) (mask r) - 1)
   else if head r <? tail r then u64 (tail r - head r - 1)
   else u64 (size r - 1)) = T + size r - 1 - H.
Proof.
  intros Hwf Ht Hh HT. destruct (size_facts r Hwf) as [Hs _].
  pose proof (Z.mod_pos_bound T (size r) ltac:(lia)). pose proof (Z.mod_pos_bound H (size r) ltac:(lia)).
  rewrite land_mask by done. pose proof (head_tail r T H Hwf HT) as Hd. rewrite <- Ht, <- Hh in *.
  destruct (Z.ltb_spec (tail r) (head r)).
  - rewrite (wrapu_small 64 (_ + _)), Z.mod_small, wrapu_small by lia. lia.
  - destruct (Z.ltb_spec (head r) (tail r)); rewrite wrapu_small by lia; lia.
Qed.

Lemma write_request_ok r T H minimum :
  wf r → tail r = T mod size r → head r = H mod size r → T ≤ H < T + size r →
  H mod 8 = 0 → 0 ≤ minimum < 2 ^ 32 - 8 →
  ∃ res rs gp, ringbuf_write_request_max minimum r = Ok ((res, rs), set_rsvd rs gp r) ∧
    match res with
    | Some ptr => granted (set_rsvd rs gp r) T H minimum ptr
    | None => H ≠ T ∨ size r < 2 * (16 + RINGBUF_PAD minimum)
    end.
Proof.
  intros Hwf Ht Hh HT H8 Hmin. destruct (size_facts r Hwf) as [Hs Hs8].
  pose proof (pad_spec minimum Hmin) as [Hpad Hpad8].
  unfold ringbuf_write_request_max, bind, gets. rewrite (write_space r T H Hwf Ht Hh HT).
  set (space := T + size r - 1 - H) in *.
  pose proof (Z.mod_pos_bound H (size r) ltac:(lia)) as Hhb. rewrite <- Hh in Hhb.
  pose proof (mod_8 r H Hwf H8) as Hh8. rewrite <- Hh in Hh8.
  unfold sizeof_element. rewrite (wrapu_small 64 (2 * 8 + _)), (wrapu_small 64 (head r + space)), (wrapu_small 64 (size r - head r)) by lia.
  rewrite land_mask by done.
  assert (Hin : ∀ g, H + g < T + size r → (g = 0 ∨ g = size r - head r) →
    (H + g) mod size r = if decide (g = 0) then head r else 0).
  { intros g Hg [->| ->]; [rewrite Z.add_0_r; by rewrite decide_True|].
    rewrite decide_False by lia. rewrite Hh. rewrite <- Z.add_mod_idemp_l by lia.
    replace (H mod size r + (size r - H mod size r)) with (size r) by lia. apply Z.mod_same. lia. }
  destruct (Z.ltb_spec (size r) (head r + space)) as [Hwrap|Hflat].
  - destruct (Z.ltb_spec (size r - head r) (2 * 8 + RINGBUF_PAD minimum)) as [Hl1|Hl1].
    + assert ((head r + space) mod size r = head r + space - size r) as ->.
      { symmetry. apply (Z.mod_unique_pos _ _ 1); lia. }
      destruct (Z.ltb_spec (head r + space - size r) (2 * 8 + RINGBUF_PAD minimum)) as [Hl2|Hl2].
      * exists None, 0, 0. split; [done|]. lia.
      * exists (Some 8), (head r + space - size r), (size r - head r). split; [done|].
        unfold granted. cbn [gapd head rsvd size set_rsvd]. rewrite Hin by lia.
        rewrite decide_False by lia. split_and!; lia || auto.
    + exists (Some (head r + 8)), (size r - head r), 0. split; [done|].
      unfold granted. cbn [gapd head rsvd size set_rsvd]. rewrite Hin by lia.
      rewrite decide_True by done. split_and!; lia || auto.
  - destruct (Z.ltb_spec space (2 * 8 + RINGBUF_PAD minimum)) as [Hl|Hl].
    + exists None, 0, 0. split; [done|]. lia.
    + exists (Some (head r + 8)), space, 0. split; [done|].
      unfold granted. cbn [gapd head rsvd size set_rsvd]. rewrite Hin by lia.
      rewrite decide_True by done. split_and!; lia || auto.
Qed.

(** Any bytes inside the buffer can be read. *)
Lemma load_any r o (n : nat) :
  wf r → o mod size r + Z.of_nat n ≤ size r →
  ∃ m, load (o mod size r) n r = Ok (m, r) ∧ length m = n ∧ shows r o m.
Proof.
  intros Hwf Hn. destruct (size_facts r Hwf). pose proof (wf_buf r Hwf) as Hlen.
  pose proof (Z.mod_pos_bound o (size r) ltac:(lia)).
  exists (take n (drop (Z.to_nat (o mod size r)) (buf r))).
  assert (length (take n (drop (Z.to_nat (o mod size r)) (buf r))) = n) as Hl
    by (rewrite length_take_le; [done|rewrite length_drop; lia]).
  split_and!; [|done|].
  - apply gets_some_ok. unfold in_buf. by rewrite (proj2 (Z.leb_le _ _)), (proj2 (Z.leb_le _ _)) by lia.
  - intros i b Hb. pose proof (lookup_lt_Some _ _ _ Hb) as Hi. rewrite Hl in Hi.
    rewrite lookup_take_lt, lookup_drop in Hb by done. unfold cell.
    rewrite (mod_inside r o (Z.of_nat n)) by (done || lia). rewrite <- Hb. f_equal. lia.
Qed.

(** The payload behind the header at [o], which may be empty and then ends the
    buffer. *)
Lemma load_payload r o p :
  wf r → shows r (o + 8) p → o mod size r + 8 + len p ≤ size r →
  load (o mod size r + 8) (length p) r = Ok (p, r).
Proof.
  intros Hwf Hsh Hfit. destruct (size_facts r Hwf). pose proof (wf_buf r Hwf).
  pose proof (Z.mod_pos_bound o (size r) ltac:(lia)). destruct p as [|b p].
  - apply gets_some_ok. unfold in_buf, len in *. simpl in *.
    by rewrite (proj2 (Z.leb_le _ _)), (proj2 (Z.leb_le _ _)) by lia.
  - pose proof (mod_inside r o (8 + len (b :: p)) 8 Hwf ltac:(lia) ltac:(unfold len; simpl; lia)) as Hm.
    rewrite <- Hm. apply load_shows; [done..|lia].
Qed.

Lemma load_any_payload r o (n : nat) :
  wf r → o mod size r + 8 + Z.of_nat n ≤ size r →
  ∃ m, load (o mod size r + 8) n r = Ok (m, r) ∧ length m = n ∧ shows r (o + 8) m.
Proof.
  intros Hwf Hfit. destruct (load_any r o (8 + n) Hwf) as (m&_&Hlen&Hsh); [lia|].
  rewrite <- (take_drop 8 m) in Hsh. apply shows_range_app in Hsh as [_ Hsh]. unfold len in Hsh.
  rewrite length_take_le in Hsh by lia. exists (drop 8 m).
  assert (length (drop 8 m) = n) as Hl by (rewrite length_drop; lia).
  split_and!; [|done|done]. rewrite <- Hl at 1. apply load_payload; [done..|unfold len; lia].
Qed.

Lemma agree_refl_buf r r' lo hi : size r' = size r → buf r' = buf r → agree r r' lo hi.
Proof. intros Hs Hb. split; [done|]. intros. unfold cell. by rewrite Hs, Hb. Qed.

Lemma wf_set_head v r : wf r → wf (set_head v r).
Proof. by intros [H1 H2 H3]. Qed.
Lemma wf_set_tail v r : wf r → wf (set_tail v r).
Proof. by intros [H1 H2 H3]. Qed.

Lemma granted_gap r T H minimum ptr :
  wf r → head r = H mod size r → H mod 8 = 0 → granted r T H minimum ptr →
  gapd r = 0 ∨ 8 ≤ gapd r ∧ H mod size r + gapd r = size r ∧ (H + gapd r) mod size r = 0.
Proof.
  intros Hwf Hh H8 (_&Hg&_). destruct (size_facts r Hwf) as [Hs Hs8].
  pose proof (mod_8 r H Hwf H8). pose proof (Z.mod_pos_bound H (size r) ltac:(lia)).
  destruct Hg as [Hg|Hg]; [by left|right]. split_and!.
  - Z.to_euclidean_division_equations; lia.
  - lia.
  - rewrite <- Z.add_mod_idemp_l by lia. replace (H mod size r + gapd r) with (size r) by lia.
    apply Z.mod_same. lia.
Qed.

(** The header of the element, and of the gap in front of it. *)
Lemma write_headers_ok r T H items minimum ptr m :
  wf r → head r = H mod size r → H mod 8 = 0 → T ≤ H → stored r T items H →
  granted r T H minimum ptr → len m ≤ minimum → shows r (H + gapd r + 8) m →
  ∃ b' new, (if 0 <? gapd r then
       store (head r) (element_bytes (u32 (gapd r - sizeof_element)) 1) ;;
       store 0 (element_bytes (u32 (len m)) 0)
     else store (head r) (element_bytes (u32 (len m)) 0)) r = Ok (tt, set_buf b' r) ∧
    wf (set_buf b' r) ∧ messages new = [m] ∧
    stored (set_buf b' r) T (items ++ new) (H + gapd r + 8 + RINGBUF_PAD (len m)).
Proof.
  intros Hwf Hh H8 HTH Hst Hgr Hm Hpay. pose proof (granted_gap r T H minimum ptr Hwf Hh H8 Hgr) as Hgap.
  destruct Hgr as (Hmin&_&_&Hfit&Hroom&_). pose proof (pad_spec minimum Hmin) as [Hpad _].
  pose proof (len_nonneg m) as Hm0. pose proof (pad_mono (len m) minimum ltac:(lia) ltac:(lia)) as Hpm.
  pose proof (pad_spec (len m) ltac:(lia)) as [Hpadm _].
  destruct (size_facts r Hwf) as [Hs _]. rewrite (element_fits (len m)), Hh by lia.
  unfold sizeof_element. destruct Hgap as [Hg|(Hg&Hend&Hzero)].
  - rewrite Hg in *. rewrite Z.add_0_r in *. cbn [Z.ltb Z.compare].
    destruct (store_ok r H (element_bytes (len m) 0) Hwf) as (b'&Hrun&Hwf'&Hsh&Hag); [rewrite length_element; lia|].
    rewrite length_element in Hag. exists b', [Elem m]. split_and!; [done|done|done|].
    apply (stored_app _ _ _ H); [apply (stored_agree r); [apply Hag; lia|done]|].
    cbn [stored]. cbn [size set_buf]. split_and!; [lia| |lia|done].
    apply shows_range_app. rewrite length_element. split; [done|].
    apply (shows_agree r); [apply Hag; lia|done].
  - rewrite (proj2 (Z.ltb_lt _ _)) by lia. rewrite (element_fits (gapd r - 8)) by lia.
    destruct (store_ok r H (element_bytes (gapd r - 8) 1) Hwf) as (b1&Hrun1&Hwf1&Hsh1&Hag1); [rewrite length_element; lia|].
    rewrite length_element in Hag1. set (r1 := set_buf b1 r) in *.
    destruct (store_ok r1 (H + gapd r) (element_bytes (len m) 0) Hwf1) as (b2&Hrun2&Hwf2&Hsh2&Hag2);
      [rewrite length_element; cbn [size set_buf r1]; lia|].
    rewrite length_element in Hag2. cbn [size set_buf r1] in Hag2, Hrun2. rewrite Hzero in Hrun2.
    exists b2, [Gap (gapd r); Elem m]. split_and!.
    + erewrite bind_ok by exact Hrun1. exact Hrun2.
    + exact Hwf2.
    + done.
    + assert (agree r (set_buf b2 r) T H) as Hag.
      { destruct (Hag1 T H) as [_ Ha1]; [lia|]. destruct (Hag2 T H) as [_ Ha2]; [lia|]. split; [done|].
        intros x Hx. etrans; [by apply Ha2|by apply Ha1]. }
      apply (stored_app _ _ _ H); [by apply (stored_agree r)|]. cbn [stored]. cbn [size set_buf].
      split_and!; [lia| |done|done|lia| |lia|done].
      * apply (shows_agree r1); [rewrite length_element; apply Hag2; lia|done].
      * apply shows_range_app. rewrite length_element. split; [done|].
        apply (shows_agree r1); [apply Hag2; lia|]. apply (shows_agree r); [apply Hag1; lia|done].
Qed.

Lemma write_advance_ok r T H items minimum ptr m :
  wf r → head r = H mod size r → H mod 8 = 0 → T ≤ H → stored r T items H →
  granted r T H minimum ptr → len m ≤ minimum → shows r (H + gapd r + 8) m →
  let H' := H + gapd r + 8 + RINGBUF_PAD (len m) in
  ∃ b' new, ringbuf_write_advance (len m) r = Ok (tt, set_head (H' mod size r) (set_buf b' r)) ∧
    wf (set_buf b' r) ∧ messages new = [m] ∧ H' < T + size r ∧
    stored (set_head (H' mod size r) (set_buf b' r)) T (items ++ new) H'.
Proof.
  intros Hwf Hh H8 HTH Hst Hgr Hm Hpay H'.
  destruct (write_headers_ok r T H items minimum ptr m) as (b'&new&Hrun&Hwf'&Hnew&Hst'); [done..|].
  pose proof (granted_gap r T H minimum ptr Hwf Hh H8 Hgr) as Hgap.
  destruct Hgr as (Hmin&_&_&Hfit&Hroom&Hrsvd).
  pose proof (len_nonneg m) as Hm0. pose proof (pad_mono (len m) minimum ltac:(lia) ltac:(lia)) as Hpm.
  pose proof (pad_spec (len m) ltac:(lia)) as [Hpadm _]. destruct (size_facts r Hwf) as [Hs _].
  exists b', new. split_and!; [|done|done|lia|].
  - unfold ringbuf_write_advance. rewrite (bind_ok _ _ _ _ _ (gets_run _ _)).
    rewrite (proj2 (Z.leb_le _ _)) by lia. rewrite (bind_ok _ _ _ _ _ (massert_true _)).
    rewrite !(bind_ok _ _ _ _ _ (gets_run _ _)). erewrite bind_ok by exact Hrun.
    unfold ringbuf_write_advance_raw. rewrite (bind_ok _ _ _ _ _ (gets_run _ _)), modify_run.
    cbn [mask set_buf]. rewrite land_mask by done. pose proof (Z.mod_pos_bound H (size r) ltac:(lia)).
    unfold sizeof_element. rewrite !wrapu_small by (rewrite ?wrapu_small; lia).
    rewrite Hh, Z.add_mod_idemp_l by lia. do 4 f_equal. unfold H'. lia.
  - apply (stored_agree (set_buf b' r)); [by apply agree_refl_buf|done].
Qed.

(** The unread space the consumer computes. *)
Lemma read_space r T H :
  wf r → tail r = T mod size r → head r = H mod size r → T ≤ H < T + size r →
  (if tail r <? head r then u64 (head r - tail r)
   else Z.land (u64 (head r - tail r + size r)) (mask r)) = H - T.
Proof.
  intros Hwf Ht Hh HT. destruct (size_facts r Hwf) as [Hs _].
  pose proof (Z.mod_pos_bound T (size r) ltac:(lia)). pose proof (Z.mod_pos_bound H (size r) ltac:(lia)).
  rewrite land_mask by done. pose proof (head_tail r T H Hwf HT) as Hd. rewrite <- Ht, <- Hh in *.
  destruct (Z.ltb_spec (tail r) (head r)); rewrite wrapu_small by lia; [lia|].
  destruct (Z.eq_dec H T) as [->|].
  - replace (head r - tail r + size r) with (size r) by lia. rewrite Z.mod_same; lia.
  - rewrite Z.mod_small; lia.
Qed.

Lemma load_elem_front r o p items o' :
  wf r → stored r o (Elem p :: items) o' → load_element (o mod size r) r = Ok ((len p, 0), r).
Proof.
  intros Hwf (Hp&Hsh&Hfit&_). pose proof (len_nonneg p). pose proof (pad_spec (len p) ltac:(lia)).
  apply (load_element_ok r o (len p) 0 p); (lia || done).
Qed.

(** What [ringbuf_read_request] finds in front of the unread items. *)
Lemma read_request_ok r T H items :
  wf r → tail r = T mod size r → head r = H mod size r → T ≤ H < T + size r →
  stored r T items H →
  match items with
  | [] => ringbuf_read_request r = Ok ((None, 0), r)
  | Elem p :: _ => ringbuf_read_request r = Ok ((Some (tail r + 8), len p), r)
  | Gap n :: rest => ∃ p rest', rest = Elem p :: rest' ∧ (T + n) mod size r = 0 ∧
      ringbuf_read_request r = Ok ((Some 8, len p), set_tail 0 r)
  end.
Proof.
  intros Hwf Ht Hh HT Hst. destruct (size_facts r Hwf) as [Hs _].
  pose proof (Z.mod_pos_bound T (size r) ltac:(lia)) as Hb.
  unfold ringbuf_read_request. rewrite !(bind_ok _ _ _ _ _ (gets_run _ _)).
  rewrite (read_space r T H Hwf Ht Hh HT). rewrite (wrapu_small 64 (tail r + _)), (wrapu_small 64 (size r - _)) by lia.
  pose proof (stored_le _ _ _ _ Hst) as Hle. unfold sizeof_element. rewrite Ht.
  destruct items as [|[p|n] rest].
  - destruct Hle as [[_ ->]|[? _]]; [|done]. rewrite Z.sub_diag. done.
  - destruct Hle as [[? _]|[_ ?]]; [done|]. rewrite (proj2 (Z.ltb_lt _ _)) by lia.
    destruct (size r <? _); by rewrite (bind_ok _ _ _ _ _ (load_elem_front r T p rest H Hwf Hst)).
  - destruct Hle as [[? _]|[_ ?]]; [done|]. rewrite (proj2 (Z.ltb_lt _ _)) by lia.
    destruct Hst as (Hn&Hsh&Hend&Hne&Hst). pose proof (stored_le _ _ _ _ Hst) as [[? _]|[_ ?]]; [done|].
    rewrite (proj2 (Z.ltb_lt _ _)) by lia.
    assert ((T + n) mod size r = 0) as Hz.
    { rewrite <- Z.add_mod_idemp_l by lia. rewrite Hend. apply Z.mod_same. lia. }
    assert (∃ p rest', rest = Elem p :: rest') as (p&rest'&->).
    { destruct rest as [|[p|n'] rest']; [done|eauto|]. destruct Hst as (Hn'&_&Hend'&_&Hst).
      rewrite Hz in Hend'. destruct (stored_le _ _ _ _ Hst) as [[_ ?]|[_ ?]]; lia. }
    exists p, rest'. split_and!; [done|done|].
    rewrite (bind_ok _ _ _ _ _ (load_element_ok r T (n - 8) 1 [] Hwf ltac:(lia) ltac:(lia) ltac:(by rewrite app_nil_r) ltac:(lia))).
    cbn [snd truthy Z.eqb negb]. unfold ringbuf_read_advance_raw.
    rewrite bind_assoc, (bind_ok _ _ _ _ _ (gets_run _ _)), (bind_ok _ _ _ _ _ (modify_run _ _)).
    rewrite land_mask by done. replace (T mod size r + (size r - T mod size r)) with (size r) by lia.
    rewrite (wrapu_small 64 (size r)), Z.mod_same by lia.
    assert (stored (set_tail 0 r) (T + n) (Elem p :: rest') H) as Hst'
      by (apply (stored_agree r); [by apply agree_refl_buf|done]).
    pose proof (load_elem_front _ _ _ _ _ (wf_set_tail 0 r Hwf) Hst') as Hload.
    cbn [size set_tail] in Hload. rewrite Hz in Hload. by rewrite (bind_ok _ _ _ _ _ Hload).
Qed.

Lemma read_advance_ok r T H p items :
  wf r → tail r = T mod size r → stored r T (Elem p :: items) H →
  ringbuf_read_advance r = Ok (tt, set_tail ((T + 8 + RINGBUF_PAD (len p)) mod size r) r).
Proof.
  intros Hwf Ht Hst. pose proof (load_elem_front r T p items H Hwf Hst) as Hload.
  destruct Hst as (Hp&_&Hfit&_). pose proof (len_nonneg p). pose proof (pad_spec (len p) ltac:(lia)).
  destruct (size_facts r Hwf) as [Hs _]. pose proof (Z.mod_pos_bound T (size r) ltac:(lia)).
  unfold ringbuf_read_advance, ringbuf_read_advance_raw.
  rewrite (bind_ok _ _ _ _ _ (gets_run _ _)), Ht, (bind_ok _ _ _ _ _ Hload).
  rewrite (bind_ok _ _ _ _ _ (gets_run _ _)), modify_run. cbn [fst]. unfold sizeof_element.
  rewrite land_mask, !wrapu_small by (done || (rewrite ?wrapu_small; lia)).
  rewrite Z.add_mod_idemp_l by lia. do 4 f_equal. lia.
Qed.
End operations.

(** ** The invariant of the two threads *)

(** Reduces the projections of a configuration and the dispatch of [exec]. *)
Ltac config_cbn := cbn [exec allowed ring producer consumer put got producer_ok consumer_ok] in *.

Section threads.
Implicit Types (c : config).

Lemma granted_tail v r T T' H minimum ptr :
  T ≤ T' → granted r T H minimum ptr → granted (set_tail v r) T' H minimum ptr.
Proof. intros HT (?&?&?&?&?&?). unfold granted. cbn [size gapd head rsvd set_tail]. split_and!; done || lia. Qed.

(** Moving [tail] over the first items. *)
Lemma release_ok r T T' H k pr pu go go' items items' :
  inv_at T H items (mk_config r pr k pu go) →
  T ≤ T' → T' mod 8 = 0 → stored r T' items' H → pu = go' ++ messages items' →
  ∀ k', consumer_ok (set_tail (T' mod size r) r) items' k' →
  inv (mk_config (set_tail (T' mod size r) r) pr k' pu go').
Proof.
  intros [Hwf Ht Hh HT8 HH8 Hroom Hst Hff Hp Hc] HT HT' Hst' Hff' k' Hk'. cbn in *.
  exists T', H, items'. split; cbn; try done.
  - by apply wf_set_tail.
  - lia.
  - apply (stored_agree r); [by apply agree_refl_buf|done].
  - destruct pr; [done|]. by apply (granted_tail _ r T).
Qed.

Lemma inv_bounds T H items c : inv_at T H items c → T ≤ H < T + size (ring c).
Proof. intros I. pose proof (stored_le _ _ _ _ (i_stored _ _ _ _ I)). pose proof (i_room _ _ _ _ I). lia. Qed.

(** Requests keep the invariant, and are only refused when something is unread or
    the buffer is small. *)
Lemma request_inv T H items r k pu go minimum :
  inv_at T H items (mk_config r PIdle k pu go) → 0 ≤ minimum < 2 ^ 32 - 8 →
  ∃ res rs gp, ringbuf_write_request_max minimum r = Ok ((res, rs), set_rsvd rs gp r) ∧
    inv_at T H items (mk_config (set_rsvd rs gp r)
      (match res with Some o => PFilling minimum o | None => PIdle end) k pu go) ∧
    (res = None → H ≠ T ∨ size r < 2 * (16 + RINGBUF_PAD minimum)).
Proof.
  intros I Hmin. pose proof (inv_bounds _ _ _ _ I) as HT.
  destruct I as [Hwf Ht Hh HT8 HH8 Hroom Hst Hff Hp Hc]. config_cbn.
  destruct (write_request_ok r T H minimum) as (res&rs&gp&Hrun&Hres); [done..|].
  exists res, rs, gp. split_and!; [done| |by intros ->]. split; cbn; try done.
  - by destruct Hwf.
  - apply (stored_agree r); [by apply agree_refl_buf|done].
  - by destruct res.
Qed.

Lemma empty_positions T H items c : inv_at T H items c → put c = got c → H = T.
Proof.
  intros I Hput. pose proof (inv_bounds _ _ _ _ I) as HT. pose proof (i_fifo _ _ _ _ I) as Hff.
  rewrite Hput in Hff. rewrite <- (app_nil_r (got c)) in Hff at 1. apply app_inv_head in Hff.
  destruct I as [Hwf Ht Hh _ _ _ Hst _ _ _].
  pose proof (read_request_ok _ T H items Hwf Ht Hh HT Hst) as Hread.
  destruct items as [|[p|n] items]; [by symmetry|done|]. by destruct Hread as (p&rest&->&_).
Qed.

Lemma exec_write_request c minimum :
  inv c → allowed c (WriteRequest minimum) = true →
  ∃ c', exec (WriteRequest minimum) c = Ok c' ∧ inv c'.
Proof.
  intros (T&H&items&I) Hall. destruct c as [r pr k pu go]. config_cbn.
  destruct pr as [|min' ptr']; [|by destruct k]. bool_to_prop.
  destruct (request_inv _ _ _ _ _ _ _ minimum I ltac:(lia)) as (res&rs&gp&Hrun&I'&_).
  rewrite Hrun. eexists. split; [reflexivity|]. by exists T, H, items.
Qed.

(** Storing bytes behind those already in place, inside the granted range. *)
Lemma store_payload T H items r k pu go minimum ptr done bs :
  inv_at T H items (mk_config r (PFilling minimum ptr) k pu go) →
  shows r (H + gapd r + 8) done → bs ≠ [] → len done + len bs ≤ minimum →
  ∃ b', store (ptr + len done) bs r = Ok (tt, set_buf b' r) ∧
    inv_at T H items (mk_config (set_buf b' r) (PFilling minimum ptr) k pu go) ∧
    shows (set_buf b' r) (H + gapd r + 8) (done ++ bs).
Proof.
  intros I Hsh Hne Hlen. pose proof (inv_bounds _ _ _ _ I) as HT.
  destruct I as [Hwf Ht Hh HT8 HH8 Hroom Hst Hff Hp Hc]. config_cbn.
  pose proof Hp as (Hmin&_&->&Hfit&Hlim&Hrs). pose proof (len_nonneg done).
  assert (0 < len bs) by (destruct bs; [done|unfold len; simpl; lia]).
  pose proof (pad_spec minimum Hmin) as [Hpad _].
  pose proof (mod_inside r (H + gapd r) (8 + minimum) (8 + len done) Hwf ltac:(lia) ltac:(lia)) as Hmod.
  destruct (store_ok r (H + gapd r + (8 + len done)) bs Hwf) as (b'&Hrun&Hwf'&Hsh'&Hag); [lia|].
  rewrite Hmod, Z.add_assoc in Hrun.
  assert (Hg : 0 ≤ gapd r) by (destruct (granted_gap r T H _ _ Hwf Hh HH8 Hp) as [?|(?&_)]; lia).
  exists b'. split_and!; [done| |].
  - split; cbn; try done. apply (stored_agree r); [|done]. apply Hag. lia.
  - apply shows_range_app. split.
    + apply (shows_agree r); [apply Hag; lia|done].
    + by replace (H + gapd r + 8 + len done) with (H + gapd r + (8 + len done)) by lia.
Qed.

Lemma exec_store_byte c i b :
  inv c → allowed c (StoreByte i b) = true → ∃ c', exec (StoreByte i b) c = Ok c' ∧ inv c'.
Proof.
  intros (T&H&items&I) Hall. pose proof (inv_bounds _ _ _ _ I) as HT.
  destruct c as [r pr k pu go]. pose proof I as [Hwf Ht Hh HT8 HH8 Hroom Hst Hff Hp Hc].
  config_cbn. destruct pr as [|minimum ptr]; [by destruct k|].
  assert (0 ≤ i < minimum) as Hi by (destruct k; bool_to_prop; lia). clear Hall.
  pose proof Hp as (Hmin&_&_&Hfit&_). pose proof (pad_spec minimum Hmin) as [Hpad _].
  destruct (load_any_payload r (H + gapd r) (Z.to_nat i) Hwf) as (m&_&Hlen&Hpay); [lia|].
  assert (i = len m) as -> by (unfold len; lia).
  destruct (store_payload _ _ _ _ _ _ _ _ _ m [b] I Hpay) as (b'&Hrun&I'&_); [done|unfold len in *; simpl; lia|].
  rewrite Hrun. eexists. split; [by destruct k|]. by exists T, H, items.
Qed.

Lemma exec_write_advance c written :
  inv c → allowed c (WriteAdvance written) = true →
  ∃ c', exec (WriteAdvance written) c = Ok c' ∧ inv c'.
Proof.
  intros (T&H&items&I) Hall. pose proof (inv_bounds _ _ _ _ I) as HT.
  destruct c as [r pr k pu go]. destruct I as [Hwf Ht Hh HT8 HH8 Hroom Hst Hff Hp Hc].
  config_cbn. destruct pr as [|minimum ptr]; [by destruct k|].
  assert (0 ≤ written ≤ minimum) as Hw by (destruct k; bool_to_prop; lia). clear Hall.
  pose proof Hp as (Hmin&_&->&Hfit&Hlim&_). pose proof (pad_spec minimum Hmin) as [Hpad _].
  destruct (load_any_payload r (H + gapd r) (Z.to_nat written) Hwf) as (m&Hload&Hlen&Hpay); [lia|].
  assert (written = len m) as -> by (unfold len; lia).
  destruct (write_advance_ok r T H items minimum _ m Hwf Hh HH8 ltac:(lia) Hst Hp ltac:(lia) Hpay)
    as (b'&new&Hrun&Hwf'&Hnew&Hlim'&Hst').
  set (H' := H + gapd r + 8 + RINGBUF_PAD (len m)) in *.
  rewrite (bind_ok _ _ _ _ _ Hload), (bind_ok _ _ _ _ _ Hrun). unfold ret.
  assert (inv (mk_config (set_head (H' mod size r) (set_buf b' r)) PIdle k (pu ++ [m]) go)) as Hinv.
  { exists T, H', (items ++ new). split; cbn; try done.
    - by apply wf_set_head.
    - by apply (stored_mod8 _ T _ _ (wf_set_head _ _ Hwf') Hst').
    - by rewrite messages_app, Hnew, Hff, app_assoc.
    - destruct k as [|ptr n]; [done|]. destruct Hc as (p&rest&->&->&->). by exists p, (rest ++ new). }
  destruct k; eauto.
Qed.

Lemma exec_read_request c :
  inv c → allowed c ReadRequest = true → ∃ c', exec ReadRequest c = Ok c' ∧ inv c'.
Proof.
  intros (T&H&items&I) Hall. pose proof (inv_bounds _ _ _ _ I) as HT.
  destruct c as [r pr k pu go]. pose proof I as [Hwf Ht Hh HT8 HH8 Hroom Hst Hff Hp Hc].
  config_cbn. destruct k as [|ptr n]; [|by destruct pr]. clear Hall.
  pose proof (read_request_ok r T H items Hwf Ht Hh HT Hst) as Hread.
  destruct items as [|[p|n] rest].
  - rewrite Hread. eexists. split; [by destruct pr|]. by exists T, H, [].
  - rewrite Hread. eexists. split; [by destruct pr|].
    exists T, H, (Elem p :: rest). split; cbn; try done. by exists p, rest.
  - destruct Hread as (p&rest'&->&Hz&Hread). rewrite Hread.
    eexists. split; [by destruct pr|]. rewrite <- Hz.
    destruct Hst as (Hn&_&Hend&_&Hst). eapply release_ok; [exact I|lia| |exact Hst|exact Hff|].
    + pose proof (mod_8 r T Hwf HT8) as Hm8. destruct (size_facts r Hwf) as [_ H8].
      set (m := T mod size r) in *. clearbody m. Z.to_euclidean_division_equations; lia.
    + exists p, rest'. split_and!; [done|cbn; lia|done].
Qed.

Lemma exec_read_message c :
  inv c → allowed c ReadMessage = true → ∃ c', exec ReadMessage c = Ok c' ∧ inv c'.
Proof.
  intros (T&H&items&I) Hall. destruct c as [r pr k pu go].
  pose proof I as [Hwf Ht Hh HT8 HH8 Hroom Hst Hff Hp Hc]. config_cbn.
  destruct k as [|ptr n]; [by destruct pr|]. destruct Hc as (p&rest&->&->&->).
  destruct Hst as (Hlen&Hsh&Hfit&_). pose proof (pad_spec (len p) ltac:(unfold len in *; lia)).
  apply shows_range_app in Hsh as [_ Hsh]. rewrite length_element in Hsh.
  pose proof (load_payload r T p Hwf Hsh ltac:(lia)) as Hload.
  unfold len. rewrite Nat2Z.id, Ht, Hload. eexists. split; [by destruct pr|].
  exists T, H, (Elem p :: rest). rewrite <- Ht. destruct I; by split.
Qed.

Lemma exec_read_advance c :
  inv c → allowed c ReadAdvance = true → ∃ c', exec ReadAdvance c = Ok c' ∧ inv c'.
Proof.
  intros (T&H&items&I) Hall. destruct c as [r pr k pu go].
  pose proof I as [Hwf Ht Hh HT8 HH8 Hroom Hst Hff Hp Hc]. config_cbn.
  destruct k as [|ptr n]; [by destruct pr|]. destruct Hc as (p&rest&->&->&->).
  pose proof (read_advance_ok r T H p rest Hwf Ht Hst) as Hadv.
  pose proof Hst as (Hlen&Hsh&Hfit&Hrest). pose proof (pad_spec (len p) ltac:(unfold len in *; lia)) as [Hpad Hp8].
  apply shows_range_app in Hsh as [_ Hsh]. rewrite length_element in Hsh.
  pose proof (load_payload r T p Hwf Hsh ltac:(lia)) as Hload. pose proof (len_nonneg p).
  unfold len at 1. rewrite Nat2Z.id, Ht. rewrite (bind_ok _ _ _ _ _ Hload), (bind_ok _ _ _ _ _ Hadv). unfold ret.
  eexists. split; [by destruct pr|]. eapply release_ok; [exact I|lia| |exact Hrest| |done].
  - Z.to_euclidean_division_equations; lia.
  - by rewrite Hff, <- app_assoc.
Qed.

Lemma exec_ok c a : inv c → allowed c a = true → ∃ c', exec a c = Ok c' ∧ inv c'.
Proof.
  destruct a; eauto using exec_write_request, exec_store_byte, exec_write_advance,
    exec_read_request, exec_read_message, exec_read_advance.
Qed.

Lemma run_ok acts c : inv c → ∃ c', run acts c = Ok c' ∧ inv c'.
Proof.
  revert c. induction acts as [|a acts IH]; intros c Hc; cbn [run]; [eauto|].
  destruct (allowed c a) eqn:Ha; [|by apply IH].
  destruct (exec_ok c a Hc Ha) as (c'&->&Hc'). by apply IH.
Qed.

Lemma start_inv k memory :
  3 ≤ k ≤ 32 → Z.of_nat (length memory) = 2 ^ k → inv (start (ringbuf_init (2 ^ k) memory)).
Proof.
  intros Hk Hmem. assert (2 ^ 3 ≤ 2 ^ k ≤ 2 ^ 32) by (split; apply Z.pow_le_mono_r; lia).
  exists 0, 0, []. split; cbn; try done; [|lia]. split; cbn; [by exists k| |done].
  apply wrapu_small. lia.
Qed.
End threads.
(** ** Sending and receiving *)

(** The producer's loop over the bytes of a message, from byte [i] on. *)
Fixpoint fill (i : Z) (bs : list Z) : list action :=
  match bs with
  | [] => []
  | b :: bs => StoreByte i b :: fill (i + 1) bs
  end.

Definition is_byte (b : Z) : Prop := 0 ≤ b < 256.

Section messages.
Implicit Types (c : config) (m : list Z).

Lemma run_app acts acts' c c' :
  run acts c = Ok c' → run (acts ++ acts') c = run acts' c'.
Proof.
  revert c. induction acts as [|a acts IH]; intros c; cbn [run app]; [by intros [= ->]|].
  destruct (allowed c a); [|apply IH]. destruct (exec a c); [apply IH|done].
Qed.

Lemma run_step a acts c c' : allowed c a = true → exec a c = Ok c' → run (a :: acts) c = run acts c'.
Proof. intros Ha He. cbn [run]. by rewrite Ha, He. Qed.

(** The bytes stored so far are in place behind the header. *)
Definition filling (c : config) (m done : list Z) : Prop :=
  ∃ T H items, inv_at T H items c ∧ shows (ring c) (H + gapd (ring c) + 8) done ∧
    ∃ ptr, producer c = PFilling (len m) ptr.

Lemma fill_step m done b rest c :
  m = done ++ b :: rest → Forall is_byte m → filling c m done →
  ∃ c', run [StoreByte (len done) b] c = Ok c' ∧ filling c' m (done ++ [b]) ∧
    put c' = put c ∧ got c' = got c ∧ consumer c' = consumer c.
Proof.
  intros Hm Hbs (T&H&items&I&Hsh&ptr&Hpr). destruct c as [r pr k pu go]. cbn [ring producer] in *. subst pr.
  assert (len m = len done + 1 + len rest) as Hl by (rewrite Hm, len_app; unfold len; simpl; lia).
  pose proof (len_nonneg done). pose proof (len_nonneg rest).
  assert (is_byte b) as Hb by (rewrite Hm in Hbs; by apply Forall_app in Hbs as [_ [? _]%Forall_cons]).
  unfold is_byte in Hb. destruct (store_payload _ _ _ _ _ _ _ _ _ done [b] I Hsh) as (b'&Hrun&I'&Hsh');
    [done|unfold len in *; simpl; lia|].
  cbn [run allowed producer consumer].
  replace ((0 <=? len done) && (len done <? len m) && (0 <=? b) && (b <? 256)) with true
    by (symmetry; rewrite !andb_true_iff, !Z.leb_le, !Z.ltb_lt; lia).
  unfold exec. rewrite Hrun. eexists. split; [destruct k; reflexivity|]. split_and!; [|done..].
  exists T, H, items. split; [done|]. split; [done|]. by exists ptr.
Qed.

Lemma fill_ok m done rest c :
  m = done ++ rest → Forall is_byte m → filling c m done →
  ∃ c', run (fill (len done) rest) c = Ok c' ∧ filling c' m m ∧
    put c' = put c ∧ got c' = got c ∧ consumer c' = consumer c.
Proof.
  intros Hm Hbs. revert done c Hm. induction rest as [|b rest IH]; intros done c Hm Hf.
  - rewrite app_nil_r in Hm. subst done. by exists c.
  - destruct (fill_step m done b rest c Hm Hbs Hf) as (c1&Hr1&Hf1&Hp1&Hg1&Hk1).
    destruct (IH (done ++ [b]) c1) as (c2&Hr2&Hf2&Hp2&Hg2&Hk2); [by rewrite <- app_assoc|done|].
    exists c2. split_and!; [|done|congruence..]. cbn [fill]. change (StoreByte ?i ?x :: ?l) with ([StoreByte i x] ++ l).
    rewrite (run_app _ _ _ _ Hr1). rewrite <- Hr2. do 2 f_equal. by rewrite len_app.
Qed.

(** Publishing a filled message. *)
Lemma publish_ok m c :
  filling c m m → ∃ c', run [WriteAdvance (len m)] c = Ok c' ∧ inv c' ∧
    producer c' = PIdle ∧ consumer c' = consumer c ∧ put c' = put c ++ [m] ∧ got c' = got c ∧
    ringbuf_write_advance (len m) (ring c) = Ok (tt, ring c') ∧ size (ring c') = size (ring c).
Proof.
  intros (T&H&items&I&Hsh&ptr&Hpr). pose proof (inv_bounds _ _ _ _ I) as HT.
  assert (inv c) as Hinv by (by exists T, H, items).
  assert (allowed c (WriteAdvance (len m)) = true) as Hall.
  { destruct c as [r pr k pu go]. config_cbn. subst pr. pose proof (len_nonneg m).
    destruct k; rewrite andb_true_iff, !Z.leb_le; lia. }
  destruct (exec_write_advance c (len m) Hinv Hall) as (c'&He&Hinv').
  exists c'. split; [cbn [run]; by rewrite Hall, He|]. split; [done|].
  destruct c as [r pr k pu go]. destruct I as [Hwf Ht Hh HT8 HH8 Hroom Hst Hff Hp Hc].
  config_cbn. subst pr. config_cbn. pose proof Hp as (Hmin&_&->&Hfit&Hlim&Hrs). pose proof (pad_spec (len m) Hmin) as [Hpad _].
  pose proof (load_payload r (H + gapd r) m Hwf Hsh ltac:(lia)) as Hload.
  destruct (write_advance_ok r T H items (len m) _ m Hwf Hh HH8 ltac:(lia) Hst Hp ltac:(lia) Hsh)
    as (b'&new&Hrun&_).
  unfold len at 1 in He. rewrite Nat2Z.id, (bind_ok _ _ _ _ _ Hload), (bind_ok _ _ _ _ _ Hrun) in He.
  unfold ret in He. destruct k; injection He as <-; done.
Qed.

(** The consumer has been handed [m], which it reads next. *)
Definition handed (c : config) (m : list Z) : Prop :=
  ∃ T H items, inv_at T H (Elem m :: items) c ∧ consumer c = CReading (tail (ring c) + 8) (len m).

Lemma request_next c T H items m rest :
  inv_at T H items c → consumer c = CIdle → messages items = m :: rest →
  ∃ c', exec ReadRequest c = Ok c' ∧ handed c' m ∧
    producer c' = producer c ∧ put c' = put c ∧ got c' = got c ∧
    (∃ v, ring c' = set_tail v (ring c)) ∧
    ringbuf_read_request (ring c) = Ok ((Some (tail (ring c') + 8), len m), ring c').
Proof.
  intros I Hk Hmsg. pose proof (inv_bounds _ _ _ _ I) as HT.
  destruct c as [r pr k pu go]. pose proof I as [Hwf Ht Hh HT8 HH8 Hroom Hst Hff Hp Hc].
  config_cbn. subst k. pose proof (read_request_ok r T H items Hwf Ht Hh HT Hst) as Hread.
  destruct items as [|[p|n] items]; [done|..].
  - injection Hmsg as -> _. rewrite Hread. eexists. split; [by destruct pr|].
    split_and!; [|done..|by exists (tail r); destruct r|done].
    exists T, H, items. split; [|done]. split; cbn; try done. by exists m, items.
  - destruct Hread as (p&rest'&->&Hz&Hread). cbn [messages] in Hmsg. injection Hmsg as -> _.
    rewrite Hread. eexists. split; [by destruct pr|]. split_and!; [|done..|by eexists|done].
    exists (T + n), H, rest'. split; [|done]. rewrite <- Hz.
    destruct Hst as (Hn&_&Hend&_&Hst). split; cbn; try done.
    + by apply wf_set_tail.
    + pose proof (mod_8 r T Hwf HT8) as Hm8. destruct (size_facts r Hwf) as [_ H8].
      set (q := T mod size r) in *. clearbody q. Z.to_euclidean_division_equations; lia.
    + lia.
    + by apply (stored_agree r (set_tail ((T + n) mod size r) r) _ (Elem m :: rest')); [apply agree_refl_buf|].
    + destruct pr; [done|]. apply (granted_tail _ r T); [lia|done].
    + exists m, rest'. split_and!; [done|cbn; lia|done].
Qed.

(** Nothing unread is seen as an empty buffer. *)
Lemma request_empty c T H items :
  inv_at T H items c → messages items = [] →
  ringbuf_read_request (ring c) = Ok ((None, 0), ring c).
Proof.
  intros I Hmsg. pose proof (inv_bounds _ _ _ _ I) as HT.
  destruct I as [Hwf Ht Hh HT8 HH8 Hroom Hst Hff Hp Hc].
  pose proof (read_request_ok _ T H items Hwf Ht Hh HT Hst) as Hread.
  destruct items as [|[p|n] items]; [done..|]. by destruct Hread as (p&rest&->&_).
Qed.

Lemma take_handed c m :
  handed c m → ∃ c', run [ReadMessage; ReadAdvance] c = Ok c' ∧ inv c' ∧
    producer c' = producer c ∧ consumer c' = CIdle ∧ put c' = put c ∧ got c' = got c ++ [m] ∧
    (∃ v, ring c' = set_tail v (ring c)) ∧ ringbuf_read_advance (ring c) = Ok (tt, ring c').
Proof.
  intros (T&H&items&I&Hk). assert (inv c) as Hinv by (by exists T, H, (Elem m :: items)).
  destruct c as [r pr k pu go]. pose proof I as [Hwf Ht Hh HT8 HH8 Hroom Hst Hff Hp Hc].
  config_cbn. subst k.
  assert (allowed (mk_config r pr (CReading (tail r + 8) (len m)) pu go) ReadAdvance = true) as Hall
    by (by destruct pr).
  destruct (exec_read_advance _ Hinv Hall) as (c'&He&Hinv').
  pose proof Hst as (Hlen&Hsh&Hfit&Hrest). pose proof (pad_spec (len m) ltac:(unfold len in *; lia)) as [Hpad Hp8].
  apply shows_range_app in Hsh as [_ Hsh]. rewrite length_element in Hsh.
  pose proof (load_payload r T m Hwf Hsh ltac:(lia)) as Hload. rewrite <- Ht in Hload.
  exists c'. split.
  - rewrite (run_step _ _ _ (mk_config r pr (CReading (tail r + 8) (len m)) pu go));
      [by rewrite (run_step _ _ _ c' Hall He)|by destruct pr|].
    unfold len. destruct pr; cbn [exec]; by rewrite Nat2Z.id, Hload.
  - split; [done|]. pose proof (read_advance_ok r T H m items Hwf Ht Hst) as Hadv.
    config_cbn. unfold len at 1 in He. rewrite Nat2Z.id, (bind_ok _ _ _ _ _ Hload), (bind_ok _ _ _ _ _ Hadv) in He.
    unfold ret in He. destruct pr; injection He as <-; split_and!; eauto.
Qed.

(** An idle consumer gets the next message. *)
Lemma receive_ok m rest c :
  inv c → consumer c = CIdle → put c = got c ++ m :: rest →
  ∃ c', run [ReadRequest; ReadMessage; ReadAdvance] c = Ok c' ∧ inv c' ∧
    producer c' = producer c ∧ consumer c' = CIdle ∧ put c' = put c ∧ got c' = got c ++ [m].
Proof.
  intros (T&H&items&I) Hk Hput. rewrite (i_fifo _ _ _ _ I) in Hput. apply app_inv_head in Hput.
  destruct (request_next c T H items m rest I Hk Hput) as (c1&He&Hh&Hp1&Hu1&Hg1&_).
  destruct (take_handed c1 m Hh) as (c2&Hr2&Hi2&Hp2&Hk2&Hu2&Hg2&_).
  exists c2. split_and!; [|done|congruence..]. rewrite <- Hr2. apply run_step; [|done].
  destruct c as [r pr k pu go]. simpl in *. subst k. by destruct pr.
Qed.

(** An empty buffer grants every request up to half of its size. *)
Lemma request_granted c minimum :
  inv c → producer c = PIdle → put c = got c → 0 ≤ minimum < 2 ^ 32 - 8 →
  2 * (16 + RINGBUF_PAD minimum) ≤ size (ring c) →
  ∃ c' ptr, run [WriteRequest minimum] c = Ok c' ∧ inv c' ∧ producer c' = PFilling minimum ptr ∧
    consumer c' = consumer c ∧ put c' = put c ∧ got c' = got c.
Proof.
  intros (T&H&items&I) Hpr Hput Hmin Hsize. pose proof (empty_positions _ _ _ _ I Hput) as ->.
  destruct c as [r pr k pu go]. config_cbn. subst pr.
  destruct (request_inv _ _ _ _ _ _ _ minimum I Hmin) as (res&rs&gp&Hrun&I'&Hres).
  destruct res as [ptr|]; [|destruct (Hres eq_refl); [done|lia]].
  eexists _, ptr. split; [|split; [by exists T, T, items|by split_and!]].
  cbn [run allowed producer consumer]. rewrite (proj2 (Z.leb_le _ _)), (proj2 (Z.ltb_lt _ _)) by lia.
  unfold exec. rewrite Hrun. by destruct k.
Qed.
End messages.

(** ** Properties *)

Lemma body_size_loop_ok fuel (i : Z) minimum :
  0 ≤ i → i + Z.of_nat fuel = 64 → minimum ≤ 2 ^ 63 → (0 < i → 2 ^ (i - 1) < minimum) → (i < 64) →
  ∃ k, i ≤ k < 64 ∧ body_size_loop fuel (2 ^ i) minimum = Some (2 ^ k) ∧ minimum ≤ 2 ^ k ∧
    (0 < k → 2 ^ (k - 1) < minimum).
Proof.
  revert i. induction fuel as [|fuel IH]; intros i Hi Hf Hmin Hlow Hi64; [lia|]. cbn [body_size_loop].
  destruct (Z.ltb_spec (2 ^ i) minimum) as [Hlt|Hge].
  - assert (i < 63) as Hi63 by (apply (Z.pow_lt_mono_r_iff 2); lia).
    assert (2 ^ (i + 1) < 2 ^ 64) by (apply Z.pow_lt_mono_r; lia).
    rewrite Z.shiftl_mul_pow2 by lia. rewrite <- Z.pow_add_r by lia. rewrite wrapu_small by lia.
    destruct (IH (i + 1)) as (k&Hk&Hrun&Hle&Hlo); [lia..| |lia|].
    + intros _. by replace (i + 1 - 1) with i by lia.
    + exists k. split_and!; done || lia.
  - exists i. split_and!; done || lia.
Qed.

(** The size the constructors choose is a power of two that fits the protocol. *)
Lemma body_size_ok minimum :
  8 ≤ minimum ≤ 2 ^ 32 →
  ∃ k, 3 ≤ k ≤ 32 ∧ ringbuf_body_size minimum = Some (2 ^ k) ∧ minimum ≤ 2 ^ k.
Proof.
  intros Hmin. destruct (body_size_loop_ok 64 0 minimum) as (k&Hk&Hrun&Hle&Hlo); [lia..|].
  exists k. split_and!; [| |done|done].
  - destruct (Z.lt_ge_cases k 3) as [Hk3|]; [|done].
    assert (2 ^ k < 2 ^ 3) by (apply Z.pow_lt_mono_r; lia). lia.
  - destruct (Z.le_gt_cases k 32) as [|Hk32]; [done|].
    assert (2 ^ 32 ≤ 2 ^ (k - 1)) by (apply Z.pow_le_mono_r; lia). lia.
Qed.

Lemma reachable_inv minimum memory sz acts c :
  8 ≤ minimum ≤ 2 ^ 32 → ringbuf_body_size minimum = Some sz → Z.of_nat (length memory) = sz →
  run acts (start (ringbuf_init sz memory)) = Ok c → inv c.
Proof.
  intros Hmin Hsz Hmem Hrun. destruct (body_size_ok minimum Hmin) as (k&Hk&Hs&_).
  rewrite Hs in Hsz. injection Hsz as <-.
  destruct (run_ok acts _ (start_inv k memory Hk Hmem)) as (c'&Hc'&Hinv). congruence.
Qed.

(** C3: the ring buffer is a queue for one producer and one consumer, in every
    interleaving of their actions: for a requested size from 8 bytes to 4 GiB
    the constructor's loop ends with a power of two, and from there every
    schedule of the two threads runs without an access outside of the buffer or
    a failed assertion, and the messages read are a prefix of the messages
    published, with the bytes they had when they were published. *)
Theorem ringbuf_fifo (minimum : Z) (memory : list Z) (acts : list action) :
  8 ≤ minimum ≤ 2 ^ 32 → ringbuf_body_size minimum = Some (Z.of_nat (length memory)) →
  ∃ c, run acts (start (ringbuf_init (Z.of_nat (length memory)) memory)) = Ok c ∧
    got c `prefix_of` put c.
Proof.
  intros Hmin Hsz. destruct (body_size_ok minimum Hmin) as (k&Hk&Hs&_). rewrite Hs in Hsz.
  injection Hsz as Hmem. rewrite <- Hmem.
  destruct (run_ok acts _ (start_inv k memory Hk ltac:(lia))) as (c&Hc&T&H&items&I).
  exists c. split; [done|]. exists (messages items). by apply (i_fifo _ _ _ _ I).
Qed.

Definition sample_schedule : list action :=
  [WriteRequest 9; ReadRequest] ++ fill 0 [1; 2; 3; 4; 5; 6; 7; 8; 9] ++
  [WriteAdvance 9; WriteRequest 3; ReadRequest; StoreByte 0 7; ReadMessage; WriteAdvance 1; ReadAdvance].

Lemma ringbuf_fifo_witness :
  ∃ c, run sample_schedule (start (ringbuf_init 64 (replicate 64 0))) = Ok c ∧
    got c `prefix_of` put c.
Proof. refine (ringbuf_fifo 50 (replicate 64 0) sample_schedule _ _); [lia|done]. Defined.

(** A message goes through: in every reachable state in which both threads
    are idle and everything published has been read, any message whose padded
    size is at most half of the buffer minus 16 bytes is granted, stored,
    published, and then delivered to the consumer byte for byte. *)
Theorem ringbuf_send_receive (minimum : Z) (memory m : list Z) (acts : list action) (c : config) :
  8 ≤ minimum ≤ 2 ^ 32 → ringbuf_body_size minimum = Some (Z.of_nat (length memory)) →
  run acts (start (ringbuf_init (Z.of_nat (length memory)) memory)) = Ok c →
  producer c = PIdle → consumer c = CIdle → got c = put c →
  Forall is_byte m → len m < 2 ^ 32 - 8 → 2 * (16 + RINGBUF_PAD (len m)) ≤ size (ring c) →
  ∃ c', run (WriteRequest (len m) :: fill 0 m ++
             [WriteAdvance (len m); ReadRequest; ReadMessage; ReadAdvance]) c = Ok c' ∧
    put c' = put c ++ [m] ∧ got c' = put c ++ [m].
Proof.
  intros Hmin Hsz Hreach Hp Hk Hgot Hm Hlen Hhalf. pose proof (len_nonneg m).
  pose proof (reachable_inv _ _ _ _ _ Hmin Hsz eq_refl Hreach) as Hinv.
  destruct (request_granted c (len m) Hinv Hp ltac:(done) ltac:(lia) Hhalf)
    as (c1&ptr&Hr1&(T&H'&items&I)&Hp1&Hk1&Hu1&Hg1).
  destruct (fill_ok m [] m c1 eq_refl Hm) as (c2&Hr2&Hf2&Hu2&Hg2&Hk2).
  { exists T, H', items. split; [done|]. split; [by intros i b|]. by exists ptr. }
  destruct (publish_ok m c2 Hf2) as (c3&Hr3&Hi3&Hp3&Hk3&Hu3&Hg3&_).
  destruct (receive_ok m [] c3 Hi3) as (c4&Hr4&Hi4&Hp4&Hk4&Hu4&Hg4); [congruence..|].
  exists c4. split_and!; [|congruence..].
  change (WriteRequest (len m) :: ?l) with ([WriteRequest (len m)] ++ l).
  rewrite (run_app _ _ _ _ Hr1). change 0 with (len []). rewrite (run_app _ _ _ _ Hr2).
  change (WriteAdvance (len m) :: ?l) with ([WriteAdvance (len m)] ++ l).
  by rewrite (run_app _ _ _ _ Hr3).
Qed.

Lemma ringbuf_send_receive_witness :
  ∃ c', run (WriteRequest 5 :: fill 0 [1; 2; 3; 4; 5] ++
             [WriteAdvance 5; ReadRequest; ReadMessage; ReadAdvance])
            (start (ringbuf_init 64 (replicate 64 0))) = Ok c' ∧
    put c' = [[1; 2; 3; 4; 5]] ∧ got c' = [[1; 2; 3; 4; 5]].
Proof.
  refine (ringbuf_send_receive 50 (replicate 64 0) [1; 2; 3; 4; 5] []
    (start (ringbuf_init 64 (replicate 64 0))) _ _ _ _ _ _ _ _ _);
    [lia|done..| |done|done]. repeat constructor; done.
Defined.

(** What the interface promises beyond that does not hold: on a new buffer of
    [2^k] bytes, a request for 4 GiB is granted (the padding drops the upper 32
    bits of the size) with a maximum of less than that, and writing up to the
    [maximum] that [ringbuf_write_request_max] reports stores past the end of
    the buffer, although the assertion of [ringbuf_write_advance] allows it,
    because the maximum includes the header. *)
Theorem ringbuf_request_limits (k : Z) (memory : list Z) (b : Z) :
  5 ≤ k ≤ 32 → Z.of_nat (length memory) = 2 ^ k →
  let r := ringbuf_init (2 ^ k) memory in
  let r' := set_rsvd (2 ^ k - 1) 0 r in
  ringbuf_write_request_max (2 ^ 32) r = Ok ((Some 8, 2 ^ k - 1), r') ∧
  store (8 + (rsvd r' - 1)) [b] r' = Err Undefined ∧ (rsvd r' <=? rsvd r') = true.
Proof.
  intros Hk Hmem r r'. assert (2 ^ 5 ≤ 2 ^ k ≤ 2 ^ 32) as Hb by (split; apply Z.pow_le_mono_r; lia).
  split_and!; [| |by apply Z.leb_refl].
  - unfold ringbuf_write_request_max, bind, gets, r, ringbuf_init. cbn [head tail size mask].
    change (0 <? 0) with false. cbn iota. change (u64 (2 * sizeof_element + RINGBUF_PAD (2 ^ 32))) with 16.
    rewrite Z.add_0_l. rewrite (wrapu_small 64 (2 ^ k - 1)), wrapu_small by lia.
    rewrite (proj2 (Z.ltb_ge _ _)), (proj2 (Z.ltb_ge _ _)) by lia.
    unfold r', r, ringbuf_init. by rewrite (wrapu_small 64 (2 ^ k - 1)) by lia.
  - unfold store, bind, gets_some, in_buf, r', r. cbn. rewrite Hmem.
    rewrite (proj2 (Z.leb_gt (8 + (2 ^ k - 1 - 1) + 1) _)) by lia. by rewrite andb_false_r.
Qed.

Lemma ringbuf_request_limits_witness :
  store (8 + 62) [0] (set_rsvd 63 0 (ringbuf_init 64 (replicate 64 0))) = Err Undefined.
Proof.
  refine (proj1 (proj2 (ringbuf_request_limits 6 (replicate 64 0) 0 _ _))); [lia|done].
Defined.
