(* ===== verification/Producer.v ===== *)
(** * The test program of producer/producer.c

    Two threads, [producer_main] and [consumer_main], share a ring buffer: the
    producer sends messages of random sizes whose words all hold its running
    count, the consumer asserts that every word of the message it receives equals
    its own count.  One step of a thread is one call of the buffer's functions or
    one word it stores or checks; [RingBuf] is the buffer.  [rand] is the C
    library's function, given as the sequence of the numbers it returns; its calls
    by the two threads are numbered in the order they happen. *)
From stdpp Require Import list.
From S2P Require Import Prelude RingBuf.
#[local] Open Scope Z_scope.
#[local] Open Scope c_scope.

Definition RAND_MAX : Z := 2 ^ 31 - 1.
Definition iterations : Z := 10000.

(** The conversion of a non-negative [int] to [float]: 24 significant bits, the
    nearest value, and of two equally near ones the even one. *)
Definition float_of_int (z : Z) : Z :=
  let u := 2 ^ (Z.log2 z - 23) in
  if z <? 2 ^ 24 then z
  else
    let q := z / u in
    let m := z mod u in
    if (2 * m <? u) || ((2 * m =? u) && Z.even q) then q * u else (q + 1) * u.

(** [rand() * 1024.f / RAND_MAX] as a [size_t]: [RAND_MAX] becomes [2^31], so
    that the product and the quotient are exact. *)
Definition message_size (r : Z) : Z := float_of_int r * 1024 / float_of_int RAND_MAX.

(** [producer_main]: at the head of its loop, or in the loop that stores the words
    from [src] to [end_]. *)
Inductive writer_pc :=
| WLoop
| WStore (src end_ written : Z).

(** [consumer_main], likewise. *)
Inductive reader_pc :=
| RLoop
| RCheck (src end_ : Z).

Record test := mk_test {
  t_ring : ringbuf_t;
  t_calls : nat;
  w_cnt : Z;
  w_pc : writer_pc;
  r_cnt : Z;
  r_pc : reader_pc
}.

Definition set_ring (r : ringbuf_t) (t : test) : test :=
  mk_test r (t_calls t) (w_cnt t) (w_pc t) (r_cnt t) (r_pc t).
Definition set_writer (n : Z) (pc : writer_pc) (t : test) : test :=
  mk_test (t_ring t) (t_calls t) n pc (r_cnt t) (r_pc t).
Definition set_reader (n : Z) (pc : reader_pc) (t : test) : test :=
  mk_test (t_ring t) (t_calls t) (w_cnt t) (w_pc t) n pc.

(** A function of the ring buffer, called by a thread of the test. *)
Definition on_ring {A} (m : M ringbuf_t A) : M test A := λ t,
  match m (t_ring t) with Ok (a, r) => Ok (a, set_ring r t) | Err e => Err e end.

Section program.
Context (rand : nat → Z).

Definition call_rand : M test Z :=
  i ← gets t_calls;
  modify (λ t, mk_test (t_ring t) (S i) (w_cnt t) (w_pc t) (r_cnt t) (r_pc t)) ;;
  ret (rand i).

(** The first call of [rand] only decides whether the thread sleeps. *)
Definition producer_main : M test unit :=
  cnt ← gets w_cnt;
  pc ← gets w_pc;
  match pc with
  | WLoop =>
      if cnt <? iterations then
        call_rand ;;
        x ← call_rand;
        let written := RINGBUF_PAD (message_size x) in
        '(ptr, maximum) ← on_ring (ringbuf_write_request_max written);
        match ptr with
        | Some ptr =>
            massert (written <=? maximum) ;;
            modify (set_writer cnt (WStore ptr (u64 (ptr + written)) written))
        | None => ret tt
        end
      else ret tt
  | WStore src end_ written =>
      if src <? end_ then
        on_ring (store src (le_encode 8 cnt)) ;;
        w ← on_ring (load src 8);
        massert (le_decode w =? cnt) ;;
        modify (set_writer cnt (WStore (u64 (src + 8)) end_ written))
      else
        on_ring (ringbuf_write_advance written) ;;
        modify (set_writer (u64 (cnt + 1)) WLoop)
  end.

Definition consumer_main : M test unit :=
  cnt ← gets r_cnt;
  pc ← gets r_pc;
  match pc with
  | RLoop =>
      if cnt <? iterations then
        call_rand ;;
        '(ptr, toread) ← on_ring ringbuf_read_request;
        match ptr with
        | Some ptr => modify (set_reader cnt (RCheck ptr (u64 (ptr + toread))))
        | None => ret tt
        end
      else ret tt
  | RCheck src end_ =>
      if src <? end_ then
        w ← on_ring (load src 8);
        massert (le_decode w =? cnt) ;;
        modify (set_reader cnt (RCheck (u64 (src + 8)) end_))
      else
        on_ring ringbuf_read_advance ;;
        modify (set_reader (u64 (cnt + 1)) RLoop)
  end.

Inductive thread := Producer | Consumer.

Definition step (i : thread) : M test unit :=
  match i with Producer => producer_main | Consumer => consumer_main end.

Fixpoint steps (sched : list thread) : M test unit :=
  match sched with
  | [] => ret tt
  | i :: sched => step i ;; steps sched
  end.
End program.

(** [ringbuf_new] over what [posix_memalign] returns; its argument is the size of
    [buf], the header is the record. *)
Definition ringbuf_new (alloc : Z → option (list Z)) (minimum : Z) : option ringbuf_t :=
  match ringbuf_body_size minimum with
  | Some body_size => ringbuf_init body_size <$> alloc body_size
  | None => None
  end.

(** [test_threaded] up to the joins: the buffer, and the threads' steps in the
    order [sched]. *)
Definition test_threaded (rand : nat → Z) (alloc : Z → option (list Z)) (sched : list thread)
    : result (unit * test) :=
  match ringbuf_new alloc 8192 with
  | Some r => steps rand sched (mk_test r 0 0 WLoop 0 RLoop)
  | None => Err AssertFailed
  end.

(** Both threads have returned. *)
Definition finished (t : test) : bool :=
  match w_pc t, r_pc t with
  | WLoop, RLoop => negb (w_cnt t <? iterations) && negb (r_cnt t <? iterations)
  | _, _ => false
  end.

(** ** The invariant

    The steps of the test are steps of the configurations of [RingBuf], whose
    invariant says where the unread messages are.  The test adds what they say:
    message number [i] consists of words that hold [i]. *)

Definition words (n : nat) (i : Z) : list Z := concat (replicate n (le_encode 8 i)).
Definition stamped (i : nat) (m : list Z) : Prop := ∃ n, m = words n (Z.of_nat i).

Definition writer_ok (c : config) (pc : writer_pc) (cnt : Z) : Prop :=
  match pc with
  | WLoop => producer c = PIdle
  | WStore src end_ written => ∃ ptr (n k : nat),
      producer c = PFilling written ptr ∧ 0 ≤ ptr ∧ ptr + written ≤ 8192 ∧ written = 8 * Z.of_nat k ∧ (n ≤ k)%nat ∧
      src = ptr + 8 * Z.of_nat n ∧ end_ = ptr + written ∧ cnt < iterations ∧
      shows (ring c) (head (ring c) + gapd (ring c) + 8) (words n cnt)
  end.

Definition reader_ok (c : config) (pc : reader_pc) (cnt : Z) : Prop :=
  match pc with
  | RLoop => consumer c = CIdle
  | RCheck src end_ => ∃ ptr (n k : nat),
      consumer c = CReading ptr (8 * Z.of_nat k) ∧ 0 ≤ ptr ∧ ptr + 8 * Z.of_nat k ≤ 8192 ∧ (n ≤ k)%nat ∧
      src = ptr + 8 * Z.of_nat n ∧ end_ = ptr + 8 * Z.of_nat k ∧ cnt < iterations
  end.

Record test_ok (c : config) (t : test) : Prop := {
  k_inv : inv c;
  k_ring : ring c = t_ring t;
  k_size : size (ring c) = 8192;
  k_stamps : ∀ i m, put c !! i = Some m → stamped i m;
  k_put : w_cnt t = Z.of_nat (length (put c));
  k_got : r_cnt t = Z.of_nat (length (got c));
  k_limit : 0 ≤ r_cnt t ≤ w_cnt t ∧ w_cnt t ≤ iterations;
  k_writer : writer_ok c (w_pc t) (w_cnt t);
  k_reader : reader_ok c (r_pc t) (r_cnt t)
}.

Lemma le_word (n : Z) : le_decode (le_encode 8 n) = n mod 2 ^ 64.
Proof. by rewrite le_decode_encode. Qed.

Lemma length_words n i : len (words n i) = 8 * Z.of_nat n.
Proof.
  unfold words. induction n as [|n IH]; [done|]. cbn [replicate concat].
  rewrite len_app, IH. unfold len. rewrite length_le_encode. lia.
Qed.

Lemma words_app n m i : words (n + m) i = words n i ++ words m i.
Proof. unfold words. by rewrite replicate_add, concat_app. Qed.

Lemma words_1 i : words 1 i = le_encode 8 i.
Proof. apply app_nil_r. Qed.

(** The producer never asks for more than 1 KiB. *)
Lemma float_of_int_bound z : 0 ≤ z ≤ RAND_MAX → 0 ≤ float_of_int z ≤ 2 ^ 31.
Proof.
  intros Hz. unfold float_of_int, RAND_MAX in *. destruct (Z.ltb_spec z (2 ^ 24)) as [|Hge]; [lia|].
  assert (Z.log2 (2 ^ 24) ≤ Z.log2 z) as Hl by (by apply Z.log2_le_mono).
  assert (Z.log2 z ≤ Z.log2 (2 ^ 31 - 1)) as Hl' by (apply Z.log2_le_mono; lia).
  change (Z.log2 (2 ^ 24)) with 24 in Hl. change (Z.log2 (2 ^ 31 - 1)) with 30 in Hl'.
  set (e := Z.log2 z - 23) in *. assert (0 < 2 ^ e) as Hp by (apply Z.pow_pos_nonneg; lia).
  assert (2 ^ 31 = 2 ^ (31 - e) * 2 ^ e) as Hsplit by (rewrite <- Z.pow_add_r by lia; f_equal; lia).
  pose proof (Z.div_mod z (2 ^ e) ltac:(lia)). pose proof (Z.mod_pos_bound z (2 ^ e) Hp).
  assert (z / 2 ^ e < 2 ^ (31 - e)) by (apply Z.div_lt_upper_bound; lia).
  pose proof (Z.div_pos z (2 ^ e) ltac:(lia) Hp). rewrite Hsplit. destruct (_ || _); nia.
Qed.

Lemma message_size_bound r : 0 ≤ r ≤ RAND_MAX → 0 ≤ message_size r ≤ 1024.
Proof.
  intros Hr. pose proof (float_of_int_bound r Hr). unfold message_size.
  replace (float_of_int RAND_MAX) with (2 ^ 31) by (vm_compute; reflexivity).
  Z.to_euclidean_division_equations; lia.
Qed.

Lemma message_pad r :
  0 ≤ r ≤ RAND_MAX → ∃ k : nat, RINGBUF_PAD (message_size r) = 8 * Z.of_nat k ∧ Z.of_nat k ≤ 128.
Proof.
  intros Hr. pose proof (message_size_bound r Hr) as Hb. destruct (pad_spec (message_size r)) as [Hp H8]; [lia|].
  exists (Z.to_nat (RINGBUF_PAD (message_size r) / 8)). Z.to_euclidean_division_equations; lia.
Qed.

(** A loop over the words ends where its pointer has reached the end. *)
Lemma src_test ptr n k :
  (n ≤ k)%nat → (ptr + 8 * Z.of_nat n <? ptr + 8 * Z.of_nat k) = bool_decide (n ≠ k).
Proof. intros Hn. case_bool_decide; [apply Z.ltb_lt|apply Z.ltb_ge]; lia. Qed.

Section steps.
Context (rand : nat → Z) (Hrand : ∀ i, 0 ≤ rand i ≤ RAND_MAX).
Implicit Types (c : config) (t : test).

Lemma on_ring_ok {A} (m : M ringbuf_t A) t a r :
  m (t_ring t) = Ok (a, r) → on_ring m t = Ok (a, set_ring r t).
Proof. intros H. unfold on_ring. by rewrite H. Qed.

(** Accesses to the count of a message. *)
Lemma cnt_word n : 0 ≤ n ≤ iterations → le_decode (le_encode 8 n) = n.
Proof. intros Hn. rewrite le_word. apply Z.mod_small. unfold iterations in Hn. lia. Qed.

Lemma granted_inside c T H items minimum ptr :
  inv_at T H items c → producer c = PFilling minimum ptr →
  0 ≤ ptr ∧ ptr + minimum ≤ size (ring c) ∧
  ptr = (H + gapd (ring c)) mod size (ring c) + 8 ∧ 0 ≤ minimum < 2 ^ 32 - 8.
Proof.
  intros I Hpr. pose proof (i_producer _ _ _ _ I) as Hp. rewrite Hpr in Hp.
  destruct Hp as (Hm&_&Hptr&Hfit&_). pose proof (pad_spec minimum Hm) as [? _].
  destruct (size_facts _ (i_wf _ _ _ _ I)).
  pose proof (Z.mod_pos_bound (H + gapd (ring c)) (size (ring c)) ltac:(lia)). lia.
Qed.

(** Positions that are equal modulo the size show the same bytes. *)
Lemma shows_mod r o o' bs :
  wf r → o mod size r = o' mod size r → shows r o bs ↔ shows r o' bs.
Proof.
  intros Hwf Ho. destruct (size_facts r Hwf).
  assert (∀ i, cell r (o + i) = cell r (o' + i)) as Hc.
  { intros i. unfold cell. by rewrite <- (Z.add_mod_idemp_l o), Ho, Z.add_mod_idemp_l by lia. }
  unfold shows. by setoid_rewrite Hc.
Qed.

Lemma writer_shows c T H items bs :
  inv_at T H items c →
  shows (ring c) (head (ring c) + gapd (ring c) + 8) bs ↔ shows (ring c) (H + gapd (ring c) + 8) bs.
Proof.
  intros I. apply shows_mod; [apply I|]. rewrite (i_head _ _ _ _ I).
  destruct (size_facts _ (i_wf _ _ _ _ I)).
  by rewrite <- !Z.add_assoc, Z.add_mod_idemp_l by lia.
Qed.

(** A word of a message that is in place. *)
Lemma load_word r o n k i :
  wf r → shows r (o + 8) (words k i) → (n < k)%nat →
  o mod size r + 8 + 8 * Z.of_nat k ≤ size r →
  load (o mod size r + 8 + 8 * Z.of_nat n) 8 r = Ok (le_encode 8 i, r).
Proof.
  intros Hwf Hsh Hn Hfit. replace k with (n + (1 + (k - n - 1)))%nat in Hsh by lia.
  rewrite !words_app in Hsh. apply shows_range_app in Hsh as [_ [Hsh _]%shows_range_app].
  rewrite length_words, words_1 in Hsh.
  pose proof (mod_inside r o (8 + 8 * Z.of_nat k) (8 + 8 * Z.of_nat n) Hwf ltac:(lia) ltac:(lia)) as Hm.
  rewrite !Z.add_assoc in Hm. rewrite <- Hm. apply (load_shows r _ (le_encode 8 i)); [done..|].
  rewrite Hm. change (len (le_encode 8 i)) with 8. lia.
Qed.

Lemma all_read c t : test_ok c t → r_cnt t = w_cnt t → put c = got c.
Proof.
  intros [(T&H&items&I) _ _ _ Hput Hgot _ _ _] Heq. pose proof (i_fifo _ _ _ _ I) as Hff.
  assert (length (put c) = length (got c)) as Hl by lia. rewrite Hff, length_app in Hl.
  rewrite Hff, (nil_length_inv (messages items)) by lia. apply app_nil_r.
Qed.

(** What one step of the producer does. *)
Definition writer_steps t t' : Prop :=
  r_cnt t' = r_cnt t ∧ r_pc t' = r_pc t ∧
  match w_pc t with
  | WLoop => w_cnt t' = w_cnt t ∧
      (w_cnt t < iterations → r_cnt t = w_cnt t → w_pc t' ≠ WLoop)
  | WStore src end_ written =>
      if src <? end_ then w_cnt t' = w_cnt t ∧ w_pc t' = WStore (src + 8) end_ written
      else w_cnt t' = w_cnt t + 1 ∧ w_pc t' = WLoop
  end.

Lemma writer_request c t :
  test_ok c t → w_pc t = WLoop →
  ∃ c' t', producer_main rand t = Ok (tt, t') ∧ test_ok c' t' ∧ writer_steps t t'.
Proof.
  intros K Hpc. pose proof K as [(T&H&items&I) Hr Hsz Hst Hput Hgot Hlim Hw Hrd].
  unfold writer_steps. rewrite Hpc in *. unfold producer_main.
  rewrite !(bind_ok _ _ _ _ _ (gets_run _ _)), Hpc.
  destruct (Z.ltb_spec (w_cnt t) iterations) as [Hlt|Hge]; [|exists c, t; split_and!; done || lia].
  unfold call_rand. rewrite !bind_assoc, !(bind_ok _ _ _ _ _ (gets_run _ _)).
  rewrite !bind_assoc, !(bind_ok _ _ _ _ _ (modify_run _ _)), !(bind_ok _ _ _ _ _ (ret_run _ _)).
  rewrite !bind_assoc, !(bind_ok _ _ _ _ _ (gets_run _ _)).
  rewrite !bind_assoc, !(bind_ok _ _ _ _ _ (modify_run _ _)), !(bind_ok _ _ _ _ _ (ret_run _ _)).
  cbn [t_calls t_ring w_cnt w_pc r_cnt r_pc].
  destruct (message_pad (rand (S (t_calls t))) (Hrand _)) as (k&Hk&Hk128). rewrite Hk.
  set (t1 := mk_test _ _ _ _ _ _).
  destruct c as [r pr kc pu go]. cbn in Hr, Hw. subst r pr. pose proof I as [Hwf Ht Hh HT8 HH8 Hroom Hstd Hff Hp Hc].
  config_cbn.
  destruct (request_inv _ _ _ _ _ _ _ (8 * Z.of_nat k) I) as (res&rs&gp&Hrun&I'&Hres); [lia|].
  rewrite (bind_ok _ _ _ _ _ (on_ring_ok _ t1 _ _ Hrun)). cbn iota.
  destruct res as [ptr|].
  - destruct (granted_inside _ _ _ _ _ _ I' eq_refl) as (H0&H1&_&_). cbn [ring size set_rsvd] in H1.
    pose proof (i_producer _ _ _ _ I') as (_&_&_&_&_&Hrs). cbn [ring rsvd set_rsvd] in Hrs.
    rewrite (proj2 (Z.leb_le _ _)) by done. rewrite (bind_ok _ _ _ _ _ (massert_true _)), modify_run.
    eexists (mk_config _ _ _ _ _), _. split; [reflexivity|]. split; [|by split_and!].
    split; cbn; [by exists T, H, items|done..| |done]. exists ptr, 0%nat, k. rewrite wrapu_small by lia.
    split_and!; [done|lia..|]. by intros i b.
  - eexists (mk_config _ _ _ _ _), _. split; [reflexivity|].
    split; [split; cbn; rewrite ?Hpc; [by exists T, H, items|done..]|].
    split_and!; [done..|]. intros _ Heq _. destruct (Hres eq_refl) as [Hne|Hsmall].
    + apply Hne. apply (empty_positions _ _ _ _ I), (all_read _ t K Heq).
    + pose proof (pad_spec (8 * Z.of_nat k)). lia.
Qed.

Lemma writer_store c t src end_ written :
  test_ok c t → w_pc t = WStore src end_ written → src < end_ →
  ∃ c' t', producer_main rand t = Ok (tt, t') ∧ test_ok c' t' ∧ writer_steps t t'.
Proof.
  intros K Hpc Hsrc. pose proof K as [(T&H&items&I) Hr Hsz Hst Hput Hgot Hlim Hw Hrd].
  unfold writer_steps. rewrite Hpc in *. destruct Hw as (ptr&n&k&Hpr&Hp0&Hp1&->&Hn&->&->&Hlt&Hsh).
  unfold producer_main. rewrite !(bind_ok _ _ _ _ _ (gets_run _ _)), Hpc, (proj2 (Z.ltb_lt _ _)) by done.
  rewrite (writer_shows _ _ _ _ _ I) in Hsh. destruct c as [r pr kc pu go]. config_cbn. subst r pr.
  destruct (store_payload _ _ _ _ _ _ _ _ _ _ (le_encode 8 (w_cnt t)) I Hsh)
    as (b'&Hrun&I'&Hsh'); [done| |].
  { rewrite length_words. unfold len. rewrite length_le_encode. lia. }
  rewrite length_words in Hrun. rewrite (bind_ok _ _ _ _ _ (on_ring_ok _ t _ _ Hrun)).
  change (le_encode 8 (w_cnt t)) with (words 1 (w_cnt t)) in Hsh'.
  destruct (granted_inside _ _ _ _ _ _ I' eq_refl) as (_&Hin&Hptr&_).
  rewrite <- words_app in Hsh'. cbn [ring gapd size set_buf] in Hin, Hptr.
  pose proof (load_word (set_buf b' (t_ring t)) _ n _ _ (i_wf _ _ _ _ I') Hsh' ltac:(lia)
    ltac:(cbn [size set_buf]; lia)) as Hload. cbn [size set_buf] in Hload.
  rewrite <- Hptr in Hload. rewrite (bind_ok _ _ _ _ _ (on_ring_ok _ (set_ring _ t) _ _ Hload)).
  rewrite cnt_word by lia. rewrite Z.eqb_refl, (bind_ok _ _ _ _ _ (massert_true _)), modify_run.
  rewrite wrapu_small by lia.
  eexists (mk_config _ _ _ _ _), _. split; [reflexivity|]. split; [|by split_and!].
  split; cbn; [by exists T, H, items|done..| |done]. exists ptr, (S n), k. split_and!; try done; try lia.
  rewrite <- Nat.add_1_r. by apply (writer_shows _ _ _ _ _ I').
Qed.

Lemma writer_publish c t src end_ written :
  test_ok c t → w_pc t = WStore src end_ written → end_ ≤ src →
  ∃ c' t', producer_main rand t = Ok (tt, t') ∧ test_ok c' t' ∧ writer_steps t t'.
Proof.
  intros K Hpc Hsrc. pose proof K as [(T&H&items&I) Hr Hsz Hst Hput Hgot Hlim Hw Hrd].
  unfold writer_steps. rewrite Hpc in *. destruct Hw as (ptr&n&k&Hpr&Hp0&Hp1&->&Hn&->&->&Hlt&Hsh).
  unfold producer_main. rewrite !(bind_ok _ _ _ _ _ (gets_run _ _)), Hpc, (proj2 (Z.ltb_ge _ _)) by done.
  assert (n = k) as -> by lia. rewrite (writer_shows _ _ _ _ _ I) in Hsh.
  set (m := words k (w_cnt t)) in *.
  assert (len m = 8 * Z.of_nat k) as Hlen by apply length_words.
  destruct (publish_ok m c) as (c'&_&Hinv&Hpr'&Hco&Hpu&Hgo&Hrun&Hsz').
  { exists T, H, items. split; [done|]. split; [done|]. exists ptr. by rewrite Hlen. }
  rewrite Hlen, Hr in Hrun. rewrite (bind_ok _ _ _ _ _ (on_ring_ok _ t _ _ Hrun)), modify_run.
  rewrite wrapu_small by (unfold iterations in *; lia).
  exists c'. eexists. split; [reflexivity|]. split; [|by split_and!].
  split; cbn; [done|done|by rewrite Hsz'| | |by rewrite Hgo|lia|done|].
  - intros i m'. rewrite Hpu, lookup_app_Some. intros [?|[Hi Hm]]; [by apply Hst|].
    apply list_lookup_singleton_Some in Hm as [Hi' <-]. exists k. unfold m. f_equal. lia.
  - rewrite Hpu, length_app. simpl. lia.
  - unfold reader_ok in *. by rewrite Hco.
Qed.

Lemma writer_step c t :
  test_ok c t → ∃ c' t', producer_main rand t = Ok (tt, t') ∧ test_ok c' t' ∧ writer_steps t t'.
Proof.
  intros K. destruct (w_pc t) as [|src end_ written] eqn:Hpc; [by apply (writer_request c)|].
  destruct (Z.lt_ge_cases src end_); [eapply writer_store|eapply writer_publish]; done.
Qed.

(** What one step of the consumer does. *)
Definition reader_steps t t' : Prop :=
  w_cnt t' = w_cnt t ∧ w_pc t' = w_pc t ∧
  match r_pc t with
  | RLoop => r_cnt t' = r_cnt t ∧ (r_cnt t < w_cnt t → r_pc t' ≠ RLoop)
  | RCheck src end_ =>
      if src <? end_ then r_cnt t' = r_cnt t ∧ r_pc t' = RCheck (src + 8) end_
      else r_cnt t' = r_cnt t + 1 ∧ r_pc t' = RLoop
  end.

(** The consumer leaves alone what the producer stores. *)
Lemma writer_set_tail c c' v pc n :
  ring c' = set_tail v (ring c) → producer c' = producer c → writer_ok c pc n → writer_ok c' pc n.
Proof.
  intros Hr Hp. destruct pc as [|src end_ written]; cbn; [by rewrite Hp|].
  by rewrite Hr, Hp.
Qed.

(** The number of the first unread message. *)
Lemma unread_stamped c t T H items m rest :
  test_ok c t → inv_at T H items c → messages items = m :: rest →
  ∃ k : nat, m = words k (r_cnt t) ∧ r_cnt t < w_cnt t.
Proof.
  intros [_ _ _ Hst Hput Hgot _ _ _] I Hm. pose proof (i_fifo _ _ _ _ I) as Hff. rewrite Hm in Hff.
  destruct (Hst (length (got c)) m) as [k Hk]; [rewrite Hff; by apply list_lookup_middle|].
  exists k. split; [by rewrite Hgot|]. rewrite Hput, Hgot, Hff, length_app. simpl. lia.
Qed.

(** The unread message the consumer was handed. *)
Lemma reading_inside c T H p items :
  inv_at T H (Elem p :: items) c →
  tail (ring c) = T mod size (ring c) ∧ 0 ≤ tail (ring c) ∧
  tail (ring c) + 8 + len p ≤ size (ring c) ∧ shows (ring c) (T + 8) p.
Proof.
  intros [Hwf Ht _ _ _ _ (Hp&Hsh&Hfit&_) _ _ _]. apply shows_range_app in Hsh as [_ Hsh].
  rewrite length_element in Hsh. destruct (size_facts _ Hwf). pose proof (len_nonneg p).
  pose proof (pad_spec (len p) ltac:(lia)) as [? _].
  pose proof (Z.mod_pos_bound T (size (ring c)) ltac:(lia)). split_and!; done || lia.
Qed.

(** What the consumer reads is the message it was handed, with its count. *)
Lemma reading_words c t src end_ :
  test_ok c t → r_pc t = RCheck src end_ →
  ∃ T H items (n k : nat), inv_at T H (Elem (words k (r_cnt t)) :: items) c ∧
    consumer c = CReading (tail (ring c) + 8) (8 * Z.of_nat k) ∧ (n ≤ k)%nat ∧
    src = tail (ring c) + 8 + 8 * Z.of_nat n ∧ end_ = tail (ring c) + 8 + 8 * Z.of_nat k ∧
    r_cnt t < iterations ∧ r_cnt t < w_cnt t.
Proof.
  intros K Hpc. pose proof K as [(T&H&items&I) _ _ _ _ _ _ _ Hrd]. rewrite Hpc in Hrd.
  destruct Hrd as (ptr&n&k&Hco&_&_&Hn&->&->&Hlt). pose proof (i_consumer _ _ _ _ I) as Hc.
  rewrite Hco in Hc. destruct Hc as (p&rest&->&->&Hk).
  destruct (unread_stamped _ _ _ _ _ _ _ K I eq_refl) as (k'&->&Hlt').
  rewrite length_words in Hk. assert (k' = k) as -> by lia.
  exists T, H, rest, n, k. split_and!; done.
Qed.

Lemma reader_request c t :
  test_ok c t → r_pc t = RLoop →
  ∃ c' t', consumer_main rand t = Ok (tt, t') ∧ test_ok c' t' ∧ reader_steps t t'.
Proof.
  intros K Hpc. pose proof K as [(T&H&items&I) Hr Hsz Hst Hput Hgot Hlim Hw Hrd].
  unfold reader_steps. rewrite Hpc in *. unfold consumer_main.
  rewrite !(bind_ok _ _ _ _ _ (gets_run _ _)), Hpc.
  destruct (Z.ltb_spec (r_cnt t) iterations) as [Hlt|Hge]; [|exists c, t; split_and!; done || lia].
  unfold call_rand. rewrite !bind_assoc, !(bind_ok _ _ _ _ _ (gets_run _ _)).
  rewrite !bind_assoc, !(bind_ok _ _ _ _ _ (modify_run _ _)), !(bind_ok _ _ _ _ _ (ret_run _ _)).
  set (t1 := mk_test _ _ _ _ _ _).
  destruct (messages items) as [|m rest] eqn:Hm.
  - pose proof (request_empty _ _ _ _ I Hm) as Hrun. rewrite Hr in Hrun.
    rewrite (bind_ok _ _ _ _ _ (on_ring_ok _ t1 _ _ Hrun)).
    exists c. eexists. split; [reflexivity|]. split; [split; cbn; rewrite ?Hpc; eauto; by exists T, H, items|].
    split_and!; [done..|]. intros Hlt'. pose proof (i_fifo _ _ _ _ I) as Hff. rewrite Hm, app_nil_r in Hff.
    rewrite Hput, Hgot, Hff in Hlt'. lia.
  - destruct (unread_stamped _ _ _ _ _ _ _ K I Hm) as (k&->&_).
    destruct (request_next c T H items _ rest I Hrd Hm) as (c'&_&(T'&H'&items'&I'&Hk)&Hpr&Hpu&Hgo&[v Hv]&Hrun).
    rewrite Hr in Hrun. rewrite (bind_ok _ _ _ _ _ (on_ring_ok _ t1 _ _ Hrun)). cbn iota. rewrite modify_run.
    rewrite length_words in *.
    exists c'. eexists. split; [reflexivity|].
    destruct (reading_inside _ _ _ _ _ I') as (Ht'&Hb&Hb'&_).
    rewrite Hv in Hb'. cbn [size set_tail] in Hb'. rewrite <- Hv, length_words in Hb'.
    rewrite wrapu_small by lia. split; [|by split_and!].
    split; cbn; [by exists T', H', (Elem (words k (r_cnt t)) :: items')|done|by rewrite Hv|by rewrite Hpu|by rewrite Hpu|by rewrite Hgo|done|by apply (writer_set_tail c _ v)|].
    exists (tail (ring c') + 8), 0%nat, k. split_and!; try done; lia.
Qed.

Lemma reader_check c t src end_ :
  test_ok c t → r_pc t = RCheck src end_ → src < end_ →
  ∃ c' t', consumer_main rand t = Ok (tt, t') ∧ test_ok c' t' ∧ reader_steps t t'.
Proof.
  intros K Hpc Hsrc. destruct (reading_words _ _ _ _ K Hpc) as (T&H&items&n&k&I&Hco&Hn&->&->&Hlt&_).
  pose proof K as [Hinv Hr Hsz Hst Hput Hgot Hlim Hw _]. unfold reader_steps. rewrite Hpc.
  unfold consumer_main. rewrite !(bind_ok _ _ _ _ _ (gets_run _ _)), Hpc, (proj2 (Z.ltb_lt _ _)) by done.
  destruct (reading_inside _ _ _ _ _ I) as (Ht&Hb&Hb'&Hsh). rewrite length_words in Hb'.
  pose proof (load_word (ring c) T n k _ (i_wf _ _ _ _ I) Hsh ltac:(lia) ltac:(lia)) as Hload.
  rewrite <- Ht, Hr in Hload. rewrite <- Hr in Hload at 1. rewrite (bind_ok _ _ _ _ _ (on_ring_ok _ t _ _ Hload)).
  rewrite cnt_word by lia. rewrite Z.eqb_refl, (bind_ok _ _ _ _ _ (massert_true _)), modify_run.
  rewrite wrapu_small by lia. exists c. eexists. split; [reflexivity|]. split; [|by split_and!].
  split; cbn; try done. exists (tail (ring c) + 8), (S n), k. split_and!; try done; lia.
Qed.

Lemma reader_release c t src end_ :
  test_ok c t → r_pc t = RCheck src end_ → end_ ≤ src →
  ∃ c' t', consumer_main rand t = Ok (tt, t') ∧ test_ok c' t' ∧ reader_steps t t'.
Proof.
  intros K Hpc Hsrc. destruct (reading_words _ _ _ _ K Hpc) as (T&H&items&n&k&I&Hco&Hn&->&->&Hlt&Hlt').
  pose proof K as [Hinv Hr Hsz Hst Hput Hgot Hlim Hw _]. unfold reader_steps. rewrite Hpc.
  unfold consumer_main. rewrite !(bind_ok _ _ _ _ _ (gets_run _ _)), Hpc, (proj2 (Z.ltb_ge _ _)) by done.
  rewrite <- (length_words k (r_cnt t)) in Hco.
  destruct (take_handed c (words k (r_cnt t))) as (c'&_&Hinv'&Hpr&Hco'&Hpu&Hgo&[v Hv]&Hrun); [by exists T, H, items|].
  rewrite Hr in Hrun. rewrite (bind_ok _ _ _ _ _ (on_ring_ok _ t _ _ Hrun)), modify_run.
  rewrite wrapu_small by (unfold iterations in *; lia).
  exists c'. eexists. split; [reflexivity|]. split; [|by split_and!].
  split; cbn; [done|done|by rewrite Hv|by rewrite Hpu|by rewrite Hpu| |lia|by apply (writer_set_tail c _ v)|done].
  rewrite Hgo, length_app. simpl. lia.
Qed.

Lemma reader_step c t :
  test_ok c t → ∃ c' t', consumer_main rand t = Ok (tt, t') ∧ test_ok c' t' ∧ reader_steps t t'.
Proof.
  intros K. destruct (r_pc t) as [|src end_] eqn:Hpc; [by apply (reader_request c)|].
  destruct (Z.lt_ge_cases src end_); [eapply reader_check|eapply reader_release]; done.
Qed.

Lemma steps_ok sched c t :
  test_ok c t → ∃ c' t', steps rand sched t = Ok (tt, t') ∧ test_ok c' t'.
Proof.
  revert c t. induction sched as [|i sched IH]; intros c t K; cbn [steps]; [by exists c, t|].
  assert (∃ c' t', step rand i t = Ok (tt, t') ∧ test_ok c' t') as (c'&t'&Hs&K').
  { destruct i; [destruct (writer_step c t K) as (c'&t'&?&?&_)|destruct (reader_step c t K) as (c'&t'&?&?&_)];
      by exists c', t'. }
  rewrite (bind_ok _ _ _ _ _ Hs). by apply (IH c').
Qed.

(** ** Finishing *)

Definition good t : Prop := ∃ c, test_ok c t.
Definition reaches t t' : Prop := good t' ∧ ∃ sched, steps rand sched t = Ok (tt, t').

Lemma steps_app sched sched' t t' :
  steps rand sched t = Ok (tt, t') → steps rand (sched ++ sched') t = steps rand sched' t'.
Proof.
  revert t. induction sched as [|i sched IH]; intros t; cbn [steps app]; [by intros [= ->]|].
  intros ([]&t1&Hs&Hr)%bind_inv. rewrite (bind_ok _ _ _ _ _ Hs). by apply IH.
Qed.

Lemma reaches_refl t : good t → reaches t t.
Proof. intros. split; [done|]. by exists []. Qed.

Lemma reaches_trans t t1 t2 : reaches t t1 → reaches t1 t2 → reaches t t2.
Proof.
  intros [_ [s1 H1]] [? [s2 H2]]. split; [done|]. exists (s1 ++ s2). by rewrite (steps_app _ _ _ _ H1).
Qed.

Lemma reaches_producer t : good t → ∃ t', reaches t t' ∧ writer_steps t t'.
Proof.
  intros [c K]. destruct (writer_step c t K) as (c'&t'&Hs&K'&Hw). exists t'. split; [|done].
  split; [by exists c'|]. exists [Producer]. cbn [steps step]. by rewrite (bind_ok _ _ _ _ _ Hs).
Qed.

Lemma reaches_consumer t : good t → ∃ t', reaches t t' ∧ reader_steps t t'.
Proof.
  intros [c K]. destruct (reader_step c t K) as (c'&t'&Hs&K'&Hw). exists t'. split; [|done].
  split; [by exists c'|]. exists [Consumer]. cbn [steps step]. by rewrite (bind_ok _ _ _ _ _ Hs).
Qed.

(** The producer finishes the message it has begun. *)
Lemma finish_store (n : nat) t src end_ written :
  good t → w_pc t = WStore src end_ written → end_ - src ≤ 8 * Z.of_nat n →
  ∃ t', reaches t t' ∧ w_cnt t' = w_cnt t + 1 ∧ w_pc t' = WLoop ∧ r_cnt t' = r_cnt t ∧ r_pc t' = r_pc t.
Proof.
  revert t src. induction n as [|n IH]; intros t src Hg Hpc Hn;
    destruct (reaches_producer t Hg) as (t1&H1&Hr&Hp&Hs); rewrite Hpc in Hs;
    destruct (Z.ltb_spec src end_); [lia|exists t1; destruct Hs; by split_and!| |exists t1; destruct Hs; by split_and!].
  destruct Hs as [Hc Hpc1]. destruct (IH t1 _ (proj1 H1) Hpc1 ltac:(lia)) as (t2&H2&?&?&?&?).
  exists t2. split; [by apply (reaches_trans _ t1)|]. split_and!; congruence.
Qed.

(** The consumer finishes the message it reads. *)
Lemma finish_check (n : nat) t src end_ :
  good t → r_pc t = RCheck src end_ → end_ - src ≤ 8 * Z.of_nat n →
  ∃ t', reaches t t' ∧ r_cnt t' = r_cnt t + 1 ∧ r_pc t' = RLoop ∧ w_cnt t' = w_cnt t ∧ w_pc t' = w_pc t.
Proof.
  revert t src. induction n as [|n IH]; intros t src Hg Hpc Hn;
    destruct (reaches_consumer t Hg) as (t1&H1&Hr&Hp&Hs); rewrite Hpc in Hs;
    destruct (Z.ltb_spec src end_); [lia|exists t1; destruct Hs; by split_and!| |exists t1; destruct Hs; by split_and!].
  destruct Hs as [Hc Hpc1]. destruct (IH t1 _ (proj1 H1) Hpc1 ltac:(lia)) as (t2&H2&?&?&?&?).
  exists t2. split; [by apply (reaches_trans _ t1)|]. split_and!; congruence.
Qed.

Lemma writer_idle t :
  good t → ∃ t', reaches t t' ∧ w_pc t' = WLoop ∧ w_cnt t ≤ w_cnt t'.
Proof.
  intros Hg. destruct (w_pc t) as [|src end_ written] eqn:Hpc; [by exists t; split; [apply reaches_refl|]|].
  destruct (finish_store (Z.to_nat (end_ - src)) t src end_ written) as (t'&?&?&?&?);
    [done..|lia|]. exists t'. split_and!; done || lia.
Qed.

(** The consumer alone reads everything published. *)
Lemma drain (n : nat) t :
  good t → w_cnt t - r_cnt t ≤ Z.of_nat n →
  ∃ t', reaches t t' ∧ r_cnt t' = w_cnt t' ∧ r_pc t' = RLoop ∧ w_cnt t' = w_cnt t ∧ w_pc t' = w_pc t.
Proof.
  revert t. induction n as [|n IH]; intros t Hg Hn; pose proof Hg as [c K]; pose proof (k_limit _ _ K);
    destruct (r_pc t) as [|src end_] eqn:Hpc.
  - exists t. split; [by apply reaches_refl|]. split_and!; done || lia.
  - destruct (reading_words _ _ _ _ K Hpc) as (?&?&?&?&?&?&?&?&?&?&?&?). lia.
  - destruct (Z.eq_dec (r_cnt t) (w_cnt t)) as [Heq|Hne];
      [exists t; split; [by apply reaches_refl|]; by split_and!|].
    destruct (reaches_consumer t Hg) as (t1&H1&Hw1&Hp1&Hs). rewrite Hpc in Hs. destruct Hs as [Hc1 Hs].
    destruct (r_pc t1) as [|src end_] eqn:Hpc1; [by destruct Hs; [lia|]|].
    destruct (finish_check (Z.to_nat (end_ - src)) t1 src end_ (proj1 H1) Hpc1) as (t2&H2&Hc2&_&Hw2&Hp2); [lia|].
    destruct (IH t2 (proj1 H2) ltac:(lia)) as (t3&H3&?&?&?&?). exists t3.
    split; [by apply (reaches_trans _ t1), (reaches_trans _ t2)|]. split_and!; congruence.
  - destruct (finish_check (Z.to_nat (end_ - src)) t src end_ Hg Hpc) as (t2&H2&Hc2&_&Hw2&Hp2); [lia|].
    destruct (IH t2 (proj1 H2) ltac:(lia)) as (t3&H3&?&?&?&?). exists t3.
    split; [by apply (reaches_trans _ t2)|]. split_and!; congruence.
Qed.

(** Into an empty buffer the producer puts another message. *)
Lemma send_one t :
  good t → w_pc t = WLoop → r_cnt t = w_cnt t → w_cnt t < iterations →
  ∃ t', reaches t t' ∧ w_cnt t' = w_cnt t + 1 ∧ w_pc t' = WLoop.
Proof.
  intros Hg Hpc Heq Hlt. destruct (reaches_producer t Hg) as (t1&H1&Hr&Hp&Hs). rewrite Hpc in Hs.
  destruct Hs as [Hc Hs]. destruct (w_pc t1) as [|src end_ written] eqn:Hpc1; [by destruct Hs|].
  destruct (finish_store (Z.to_nat (end_ - src)) t1 src end_ written (proj1 H1) Hpc1) as (t2&H2&Hc2&Hp2&_); [lia|].
  exists t2. split; [by apply (reaches_trans _ t1)|]. split; [lia|done].
Qed.

Lemma run_to_end (n : nat) t :
  good t → iterations - w_cnt t ≤ Z.of_nat n →
  ∃ t', reaches t t' ∧ finished t' = true.
Proof.
  revert t. induction n as [|n IH]; intros t Hg Hn;
    destruct (writer_idle t Hg) as (t1&H1&Hp1&Hle);
    destruct (drain (Z.to_nat (w_cnt t1 - r_cnt t1)) t1 (proj1 H1) ltac:(lia)) as (t2&H2&Heq&Hpr&Hc2&Hp2);
    pose proof (reaches_trans _ _ _ H1 H2) as H12; rewrite Hp1 in Hp2;
    (destruct (Z.lt_ge_cases (w_cnt t2) iterations) as [Hlt|Hge];
      [|exists t2; split; [done|]; unfold finished; rewrite Hp2, Hpr, Heq;
        by rewrite (proj2 (Z.ltb_ge _ _)) by done]); [lia|].
  destruct (send_one t2 (proj1 H2) Hp2 Heq Hlt) as (t3&H3&Hc3&_).
  destruct (IH t3 (proj1 H3)) as (t4&H4&Hf); [lia|].
  exists t4. split; [|done]. by apply (reaches_trans _ t2), (reaches_trans _ t3).
Qed.
End steps.

(** ** Properties *)

Lemma start_ok alloc memory :
  alloc 8192 = Some memory → Z.of_nat (length memory) = 8192 →
  ∃ r, ringbuf_new alloc 8192 = Some r ∧ good (mk_test r 0 0 WLoop 0 RLoop).
Proof.
  intros Ha Hl. unfold ringbuf_new. replace (ringbuf_body_size 8192) with (Some 8192) by (vm_compute; reflexivity).
  rewrite Ha. eexists. split; [reflexivity|]. exists (start (ringbuf_init 8192 memory)).
  split; try done. by apply (start_inv 13).
Qed.

(** C4: the test of producer.c passes: when the buffer of 8 KiB can be allocated,
    no interleaving of the two threads, whatever [rand] returns, fails one of
    their assertions or accesses memory outside of the buffer; the consumer
    never overtakes the producer; and from every point of every interleaving the
    threads can still both return, after 10000 messages, so they never lock each
    other out. *)
Theorem test_threaded_passes (rand : nat → Z) (alloc : Z → option (list Z)) (memory : list Z)
    (sched : list thread) :
  (∀ i, 0 ≤ rand i ≤ RAND_MAX) → alloc 8192 = Some memory → Z.of_nat (length memory) = 8192 →
  ∃ t, test_threaded rand alloc sched = Ok (tt, t) ∧ r_cnt t ≤ w_cnt t ≤ iterations ∧
    ∃ sched' t', test_threaded rand alloc (sched ++ sched') = Ok (tt, t') ∧
      finished t' = true ∧ w_cnt t' = iterations ∧ r_cnt t' = iterations.
Proof.
  intros Hrand Ha Hl. destruct (start_ok alloc memory Ha Hl) as (r&Hnew&c0&K0). unfold test_threaded. rewrite Hnew.
  destruct (steps_ok rand Hrand sched c0 _ K0) as (c&t&Hs&K). exists t. split; [done|].
  split; [pose proof (k_limit _ _ K); lia|].
  destruct (run_to_end rand Hrand (Z.to_nat (iterations - w_cnt t)) t) as (t'&[(c'&K') (sched'&Hs')]&Hf); [by exists c|lia|].
  exists sched', t'. rewrite (steps_app rand _ _ _ _ Hs). split; [done|]. split; [done|].
  pose proof (k_limit _ _ K'). unfold finished in Hf.
  destruct (w_pc t'), (r_pc t'); try done. bool_to_prop. lia.
Qed.

Lemma test_threaded_passes_witness :
  ∃ t, test_threaded (λ _, RAND_MAX) (λ n, Some (replicate (Z.to_nat n) 0)) [Consumer; Producer; Producer] = Ok (tt, t) ∧
    r_cnt t ≤ w_cnt t ≤ iterations ∧
    ∃ sched' t', test_threaded (λ _, RAND_MAX) (λ n, Some (replicate (Z.to_nat n) 0))
        ([Consumer; Producer; Producer] ++ sched') = Ok (tt, t') ∧
      finished t' = true ∧ w_cnt t' = iterations ∧ r_cnt t' = iterations.
Proof.
  refine (test_threaded_passes (λ _, RAND_MAX) (λ n, Some (replicate (Z.to_nat n) 0))
    (replicate (Z.to_nat 8192) 0) [Consumer; Producer; Producer] _ _ _).
  - intros _. unfold RAND_MAX. lia.
  - reflexivity.
  - vm_compute. reflexivity.
Defined.

(** ** The shared-memory object

    [test_shared] runs the two loops in two processes that attach the ring buffer
    to a named object.  [os] keeps what the calls change: the name's object, the
    contents of the objects (a ring buffer; a new object is filled with zeros),
    and how many copies of the name, descriptors and mappings the process has.
    [ok] says which calls succeed where their success is not determined. *)

Record os := mk_os {
  linked : option nat;
  objects : list ringbuf_t;
  heap : nat;
  fds : nat;
  maps : nat
}.

Inductive syscall := Strdup | OpenExcl | Open | Ftruncate | Mmap.

(** [ringbuf_shm_t]: the name, the descriptor and the mapping of an object. *)
Record ringbuf_shm_t := mk_shm { shm_object : nat }.

Definition zero_ring : ringbuf_t := mk_ringbuf 0 0 0 0 0 0 [].

Definition count (h f m : nat → nat) (s : os) : os :=
  mk_os (linked s) (objects s) (h (heap s)) (f (fds s)) (m (maps s)).
Definition unlink (s : os) : os := mk_os None (objects s) (heap s) (fds s) (maps s).
Definition alter_object (f : ringbuf_t → ringbuf_t) (o : nat) (s : os) : os :=
  mk_os (linked s) (alter f o (objects s)) (heap s) (fds s) (maps s).

(** [shm_open] with [O_CREAT | O_EXCL], and without. *)
Definition shm_open_excl (ok : bool) : M os (option nat) := λ s,
  match linked s with
  | None =>
      if ok then
        let o := length (objects s) in
        Ok (Some o, mk_os (Some o) (objects s ++ [zero_ring]) (heap s) (S (fds s)) (maps s))
      else Ok (None, s)
  | Some _ => Ok (None, s)
  end.
Definition shm_open (ok : bool) : M os (option nat) := λ s,
  match linked s with
  | Some o => if ok then Ok (Some o, count id S id s) else Ok (None, s)
  | None => Ok (None, s)
  end.

(** The assignments of [ringbuf_init] to the shared fields, in their order. *)
Definition init_indices (r : ringbuf_t) : ringbuf_t := set_tail 0 (set_head 0 r).
Definition init_size (body_size : Z) (r : ringbuf_t) : ringbuf_t :=
  mk_ringbuf body_size (mask r) (rsvd r) (gapd r) (head r) (tail r) (buf r).
Definition init_mask (r : ringbuf_t) : ringbuf_t :=
  mk_ringbuf (size r) (u64 (size r - 1)) (rsvd r) (gapd r) (head r) (tail r) (buf r).

Definition ringbuf_shm_init (ok : syscall → bool) (minimum : Z) : M os (option ringbuf_shm_t) :=
  match ringbuf_body_size minimum with
  | None => fail Exhausted
  | Some body_size =>
      if ok Strdup then
        modify (count S id id) ;;
        created ← shm_open_excl (ok OpenExcl);
        opened ← match created with Some o => ret (Some o) | None => shm_open (ok Open) end;
        match opened with
        | None => modify (count pred id id) ;; ret None
        | Some o =>
            mapped ←
              (if ok Ftruncate then
                 modify (alter_object (λ r, set_buf (resize (Z.to_nat body_size) 0 (buf r)) r) o) ;;
                 if ok Mmap then modify (count id id S) ;; ret true else ret false
               else ret false);
            if mapped then
              (match created with
               | Some _ => modify (alter_object (λ r, init_mask (init_size body_size (init_indices r))) o)
               | None => ret tt
               end) ;;
              ret (Some (mk_shm o))
            else
              modify unlink ;; modify (count id pred id) ;; modify (count pred id id) ;; ret None
        end
      else ret None
  end.

Definition ringbuf_shm_deinit (h : ringbuf_shm_t) : M os unit :=
  modify (count id id pred) ;;
  modify unlink ;;
  modify (count id pred id) ;;
  modify (count pred id id).

(** What a process holds. *)
Definition held (s : os) : nat * nat * nat := (heap s, fds s, maps s).

(** Attaching either fails and gives back what it took, or succeeds and
    [ringbuf_shm_deinit] gives it back. *)
Theorem shm_balanced (ok : syscall → bool) (minimum : Z) (s : os) :
  8 ≤ minimum ≤ 2 ^ 32 →
  ∃ h s', ringbuf_shm_init ok minimum s = Ok (h, s') ∧
    match h with
    | None => held s' = held s
    | Some h => held s' = (S (heap s), S (fds s), S (maps s)) ∧
        ∃ s'', ringbuf_shm_deinit h s' = Ok (tt, s'') ∧ held s'' = held s ∧ linked s'' = None
    end.
Proof.
  intros Hmin. destruct (body_size_ok minimum Hmin) as (k&_&Hs&_). unfold ringbuf_shm_init. rewrite Hs.
  destruct s as [li ob h f m]. unfold shm_open_excl, shm_open, bind, ret, modify, held, count. cbn.
  destruct (ok Strdup), li, (ok Open), (ok OpenExcl), (ok Ftruncate), (ok Mmap); cbn;
    eexists _, _; (split; [reflexivity|]); cbn; try done;
    (split; [done|]; eexists; split; [reflexivity|done]).
Qed.

Lemma alter_last {A} (f : A → A) l x : alter f (length l) (l ++ [x]) = l ++ [f x].
Proof. rewrite alter_app_r_alt by lia. by rewrite Nat.sub_diag. Qed.

(** The process that creates the object initialises the buffer, the one that
    attaches second gets the same buffer as the first left it. *)
Theorem shm_shares (ok ok' : syscall → bool) (minimum : Z) (s : os) :
  8 ≤ minimum ≤ 2 ^ 32 → linked s = None → (∀ c, ok c = true) → ok' Strdup = true →
  ok' Open = true → ok' Ftruncate = true → ok' Mmap = true →
  ∃ k o s1 s2, 3 ≤ k ≤ 32 ∧ ringbuf_shm_init ok minimum s = Ok (Some (mk_shm o), s1) ∧
    objects s1 !! o = Some (ringbuf_init (2 ^ k) (replicate (Z.to_nat (2 ^ k)) 0)) ∧
    RingBuf.inv (start (ringbuf_init (2 ^ k) (replicate (Z.to_nat (2 ^ k)) 0))) ∧
    ringbuf_shm_init ok' minimum s1 = Ok (Some (mk_shm o), s2) ∧ objects s2 = objects s1.
Proof.
  intros Hmin Hl Hok H1 H2 H3 H4. destruct (body_size_ok minimum Hmin) as (k&Hk&Hs&_). unfold ringbuf_shm_init. rewrite Hs.
  destruct s as [li ob h f m]. cbn in Hl. subst li. exists k, (length ob).
  rewrite !Hok, H1, H2, H3, H4. unfold shm_open_excl, shm_open, bind, ret, modify, count, alter_object. cbn.
  eexists _, _. split; [done|]. split; [reflexivity|]. cbn [objects linked heap fds maps id].
  rewrite !alter_last. unfold zero_ring, init_mask, init_size, init_indices, set_tail, set_head, set_buf.
  cbn [size mask rsvd gapd head tail buf]. rewrite resize_nil. set (bytes := replicate _ 0).
  assert (length bytes = Z.to_nat (2 ^ k)) as Hb by apply length_replicate.
  split; [by apply list_lookup_middle|].
  split; [apply start_inv; [done|rewrite Hb; lia]|]. split; [reflexivity|]. cbn [objects].
  fold bytes. by rewrite <- Hb, resize_all.
Qed.

Lemma shm_shares_witness :
  ∃ k o s1 s2, 3 ≤ k ≤ 32 ∧ ringbuf_shm_init (λ _, true) 8192 (mk_os None [] 0 0 0) = Ok (Some (mk_shm o), s1) ∧
    objects s1 !! o = Some (ringbuf_init (2 ^ k) (replicate (Z.to_nat (2 ^ k)) 0)) ∧
    RingBuf.inv (start (ringbuf_init (2 ^ k) (replicate (Z.to_nat (2 ^ k)) 0))) ∧
    ringbuf_shm_init (λ _, true) 8192 s1 = Ok (Some (mk_shm o), s2) ∧ objects s2 = objects s1.
Proof. refine (shm_shares (λ _, true) (λ _, true) 8192 (mk_os None [] 0 0 0) _ _ _ _ _ _ _); done || lia. Defined.

Lemma read_nothing r :
  head r = tail r → Z.land (u64 (size r)) (mask r) = 0 → ringbuf_read_request r = Ok ((None, 0), r).
Proof.
  intros Hh Hm. unfold ringbuf_read_request. rewrite !(bind_ok _ _ _ _ _ (gets_run _ _)), Hh.
  rewrite Z.ltb_irrefl. replace (tail r - tail r + size r) with (size r) by lia. by rewrite Hm.
Qed.

(** Without a mask the indices are all 0. *)
Lemma request_unmasked r n :
  head r = 0 → tail r = 0 → mask r = 0 → 0 ≤ n ≤ 1024 → size r = 0 ∨ size r = 8192 →
  ∃ r', ringbuf_write_request_max n r =
    Ok (if size r =? 0 then (None, 0) else (Some 8, 8191), r') ∧
    (size r = 8192 → r' = set_rsvd 8191 0 r).
Proof.
  intros Hh Ht Hm Hn Hs. pose proof (pad_spec n ltac:(lia)) as [Hpad _].
  unfold ringbuf_write_request_max. rewrite !(bind_ok _ _ _ _ _ (gets_run _ _)), Hh, Ht, Hm, !Z.land_0_r.
  unfold sizeof_element. rewrite (wrapu_small 64 (2 * 8 + _)) by lia. change (0 <? 0) with false. cbn iota.
  destruct Hs as [-> | ->].
  - change (0 <? u64 (0 + u64 (0 - 1))) with true. change (u64 (0 - 0)) with 0. cbn iota.
    rewrite (proj2 (Z.ltb_lt _ _)) by lia. eexists. by split.
  - change (u64 (8192 - 1)) with 8191. change (8192 <? u64 (0 + 8191)) with false. cbn iota.
    rewrite (proj2 (Z.ltb_ge _ _)) by lia. eexists. split; [reflexivity|done].
Qed.

Lemma advance_unmasked r n :
  head r = 0 → mask r = 0 → gapd r = 0 → 0 ≤ n ≤ rsvd r → (8 ≤ length (buf r))%nat →
  ∃ b, ringbuf_write_advance n r = Ok (tt, set_head 0 (set_buf b r)).
Proof.
  intros Hh Hm Hg Hn Hb. unfold ringbuf_write_advance. rewrite !(bind_ok _ _ _ _ _ (gets_run _ _)).
  rewrite (proj2 (Z.leb_le _ _)) by lia. rewrite (bind_ok _ _ _ _ _ (massert_true _)).
  rewrite !(bind_ok _ _ _ _ _ (gets_run _ _)), Hh, Hg. change (0 <? 0) with false. cbn iota.
  unfold store. rewrite bind_assoc. erewrite bind_ok; [|apply gets_some_ok; unfold in_buf; change (length (element_bytes _ _)) with 8%nat;
    rewrite (proj2 (Z.leb_le (0 + _) _)) by lia; reflexivity].
  rewrite (bind_ok _ _ _ _ _ (modify_run _ _)). unfold ringbuf_write_advance_raw.
  rewrite (bind_ok _ _ _ _ _ (gets_run _ _)), modify_run. cbn [mask set_buf]. rewrite Hm, Z.land_0_r. eauto.
Qed.

(** The process that attaches second does not wait for the first to initialise
    the buffer.  On the zeros of the new object both loops find nothing to do,
    but between the assignments of [size] and [mask] a message that is granted,
    filled and published moves [head] nowhere: when the first process has
    finished [ringbuf_init], the buffer is empty and the message is lost. *)
Theorem shm_init_race (n : Z) (memory : list Z) :
  0 ≤ n ≤ 1024 → Z.of_nat (length memory) = 8192 →
  let zeros := set_buf memory zero_ring in
  let half := init_size 8192 (init_indices zeros) in
  ringbuf_read_request zeros = Ok ((None, 0), zeros) ∧
  (∃ r, ringbuf_write_request_max n zeros = Ok ((None, 0), r)) ∧
  ∃ ptr maximum r r', ringbuf_write_request_max n half = Ok ((Some ptr, maximum), r) ∧
    ringbuf_write_advance n r = Ok (tt, r') ∧
    ringbuf_read_request (init_mask r') = Ok ((None, 0), init_mask r').
Proof.
  intros Hn Hmem zeros half. split_and!.
  - by apply read_nothing.
  - destruct (request_unmasked zeros n) as (r&Hr&_); [done..|by left|]. by exists r.
  - destruct (request_unmasked half n) as (r&Hr&Heq); [done..|by right|]. rewrite (Heq eq_refl) in Hr.
    destruct (advance_unmasked (set_rsvd 8191 0 half) n) as [b Hb]; [done..|cbn [rsvd set_rsvd]; lia|cbn; lia|].
    exists 8, 8191. eexists _, _. split; [exact Hr|]. split; [exact Hb|]. by apply read_nothing.
Qed.

Lemma shm_init_race_witness :
  ringbuf_read_request (set_buf (replicate (Z.to_nat 8192) 0) zero_ring) =
    Ok ((None, 0), set_buf (replicate (Z.to_nat 8192) 0) zero_ring).
Proof.
  refine (proj1 (shm_init_race 100 (replicate (Z.to_nat 8192) 0) _ _)); [lia|vm_compute; reflexivity].
Defined.
