(* ===== verification/CircularList.v ===== *)
(** * The interface of a circular doubly linked list

    What the clients rely on, whichever way the links are stored: initializing
    a head, appending at the end and unlinking an entry change the list as
    expected and leave every node alone that is apart from the nodes of the list.
    [list.h] (ListHead) is one implementation; the free lists of the buddy
    allocator (Buddy), whose nodes are words of the free memory itself, are
    another.  On top of the interface, a family of lists that share no node:
    updating one list of the family keeps the others. *)
From S2P Require Import Prelude ListHead.
From stdpp Require Import gmap list.
#[local] Open Scope Z_scope.

(** [rep h head l]: the list at [head] has the entries [l]; [node_live] nodes may
    be written; [node_same h h' p] says that the node at [p] is unchanged, which
    holds for every node that is [apart] from the ones touched. *)
Class CircularList (H : Type) := {
  rep : H → Z → list Z → Prop;
  node_live : H → Z → Prop;
  node_same : H → H → Z → Prop;
  apart : Z → Z → Prop;
  init : Z → M H unit;
  add_tail : Z → Z → M H unit;
  del : Z → M H unit
}.

Class CircularListLaws (H : Type) `{CircularList H} := {
  apart_sym p q : apart p q → apart q p;
  rep_same h h' head l :
    (∀ p, p ∈ head :: l → node_same h h' p) → rep h head l → rep h' head l;
  init_ok h head :
    node_live h head →
    ∃ h', init head h = Ok (tt, h') ∧ rep h' head [] ∧
      (∀ p, apart p head → node_same h h' p) ∧ (∀ p, node_live h' p ↔ node_live h p);
  add_tail_ok h head l node :
    rep h head l → node_live h node → Forall (apart node) (head :: l) →
    ∃ h', add_tail node head h = Ok (tt, h') ∧ rep h' head (l ++ [node]) ∧
      (∀ p, Forall (apart p) (node :: head :: l) → node_same h h' p) ∧
      (∀ p, node_live h' p ↔ node_live h p);
  del_ok h head l1 node l2 :
    rep h head (l1 ++ node :: l2) →
    ∃ h', del node h = Ok (tt, h') ∧ rep h' head (l1 ++ l2) ∧
      (∀ p, Forall (apart p) (head :: l1 ++ l2) → node_same h h' p) ∧
      (∀ p, node_live h' p ↔ node_live h p)
}.

(** ** Families of lists *)

Section family.
Context {H : Type} `{CircularListLaws H}.
Implicit Types (h : H) (L : gmap Z (list Z)) (l : list Z).

(** All the nodes of all the lists, and being apart from them. *)
Definition node_of L (p : Z) : Prop := ∃ head l, L !! head = Some l ∧ p ∈ head :: l.
Definition apart_from L (p : Z) : Prop := ∀ q, node_of L q → apart p q.

Definition family h L : Prop :=
  (∀ head l, L !! head = Some l → rep h head l) ∧
  (∀ head l head' l' p q, L !! head = Some l → L !! head' = Some l' → head ≠ head' →
    p ∈ head :: l → q ∈ head' :: l' → apart p q).

Lemma family_same h h' L :
  (∀ p, node_of L p → node_same h h' p) → family h L → family h' L.
Proof.
  intros Hs [Hr Ha]. split; [|done]. intros head l Hl. eapply rep_same; [|by apply Hr].
  intros p Hp. apply Hs. by exists head, l.
Qed.

(** Replacing one list, by one whose nodes are apart from the other lists. *)
Lemma family_update h h' L head l' :
  family h L → rep h' head l' →
  (∀ p q, p ∈ head :: l' → node_of (delete head L) q → apart p q) →
  (∀ q, node_of (delete head L) q → node_same h h' q) →
  family h' (<[head := l']> L).
Proof.
  intros [Hr Ha] Hrep Hap Hsame. split.
  - intros h1 l1 [[<- <-]|[Hne Hl]]%lookup_insert_Some; [done|].
    eapply rep_same; [|by apply Hr]. intros p Hp. apply Hsame. exists h1, l1.
    by rewrite lookup_delete_ne.
  - intros h1 l1 h2 l2 p q Hl1 Hl2 Hne Hp Hq.
    apply lookup_insert_Some in Hl1 as [[<- <-]|[Hne1 Hl1]];
      apply lookup_insert_Some in Hl2 as [[<- <-]|[Hne2 Hl2]]; [done|..].
    + apply Hap; [done|]. exists h2, l2. by rewrite lookup_delete_ne.
    + apply apart_sym, Hap; [done|]. exists h1, l1. by rewrite lookup_delete_ne.
    + by apply (Ha h1 l1 h2 l2).
Qed.

Lemma node_of_delete L head q : node_of (delete head L) q → node_of L q.
Proof. intros (h'&l'&[_ Hl]%lookup_delete_Some&Hq). by exists h', l'. Qed.

Lemma family_others h L head l p q :
  family h L → L !! head = Some l → p ∈ head :: l → node_of (delete head L) q → apart p q.
Proof. intros [_ Ha] Hl Hp (h'&l'&[Hne Hl']%lookup_delete_Some&Hq). by apply (Ha head l h' l'). Qed.

Lemma family_init h L head :
  family h L → node_live h head → (∀ q, node_of (delete head L) q → apart head q) →
  ∃ h', init head h = Ok (tt, h') ∧ family h' (<[head := []]> L) ∧
    (∀ p, apart p head → node_same h h' p) ∧ (∀ p, node_live h' p ↔ node_live h p).
Proof.
  intros Hf Hlive Hap. destruct (init_ok h head Hlive) as (h'&Hrun&Hrep&Hsame&Hl).
  exists h'. split_and!; [done| |done|done]. eapply family_update; [exact Hf|done|..].
  - intros p q Hp Hq. apply list_elem_of_singleton in Hp as ->. by apply Hap.
  - intros q Hq. by apply Hsame, apart_sym, Hap.
Qed.

Lemma family_push h L head l node :
  family h L → L !! head = Some l → node_live h node → apart_from L node →
  ∃ h', add_tail node head h = Ok (tt, h') ∧ family h' (<[head := l ++ [node]]> L) ∧
    (∀ p, apart p node → apart_from L p → node_same h h' p) ∧
    (∀ p, node_live h' p ↔ node_live h p).
Proof.
  intros Hf Hl Hlive Hap. pose proof (proj1 Hf head l Hl) as Hrep.
  assert (Hin : ∀ p, p ∈ head :: l → node_of L p) by (intros p Hp; by exists head, l).
  destruct (add_tail_ok h head l node Hrep Hlive) as (h'&Hrun&Hrep'&Hsame&Hl').
  { apply Forall_forall. intros p Hp. by apply Hap, Hin. }
  exists h'. split_and!; [done| | |done].
  - eapply family_update; [exact Hf|done|..].
    + intros p q Hp Hq. rewrite app_comm_cons in Hp. apply elem_of_app in Hp as [Hp|Hp%list_elem_of_singleton].
      * by eapply family_others.
      * subst p. apply Hap. by eapply node_of_delete.
    + intros q Hq. apply Hsame. constructor.
      * by apply apart_sym, Hap, (node_of_delete L head).
      * apply Forall_forall. intros p Hp. apply apart_sym. by eapply family_others.
  - intros p Hp Hpl. apply Hsame. constructor; [done|]. apply Forall_forall. intros q Hq. by apply Hpl, Hin.
Qed.

Lemma family_del h L head l1 node l2 :
  family h L → L !! head = Some (l1 ++ node :: l2) →
  ∃ h', del node h = Ok (tt, h') ∧ family h' (<[head := l1 ++ l2]> L) ∧
    (∀ p, apart_from L p → node_same h h' p) ∧ (∀ p, node_live h' p ↔ node_live h p).
Proof.
  intros Hf Hl. pose proof (proj1 Hf head _ Hl) as Hrep.
  assert (Hsub : ∀ p, p ∈ head :: l1 ++ l2 → p ∈ head :: l1 ++ node :: l2).
  { intros p. rewrite !elem_of_cons, !elem_of_app, elem_of_cons. tauto. }
  destruct (del_ok h head l1 node l2 Hrep) as (h'&Hrun&Hrep'&Hsame&Hl').
  exists h'. split_and!; [done| | |done].
  - eapply family_update; [exact Hf|done|..].
    + intros p q Hp Hq. eapply family_others; eauto.
    + intros q Hq. apply Hsame, Forall_forall. intros p Hp. apply apart_sym.
      eapply family_others; eauto.
  - intros p Hp. apply Hsame, Forall_forall. intros q Hq. apply Hp. exists head, (l1 ++ node :: l2). eauto.
Qed.
End family.

(** ** The implementation of list.h *)

#[export] Instance list_h : CircularList heap := {
  rep := dlist;
  node_live := live;
  node_same h h' p := h' !! p = h !! p;
  apart p q := p ≠ q;
  init := INIT_LIST_HEAD;
  add_tail := list_add_tail;
  del := list_del
}.

#[export] Instance list_h_laws : CircularListLaws heap.
Proof.
  split.
  - intros p q H H'. cbn in *. by apply H.
  - intros h h' head l Hs [Hnd Hl]. split; [done|]. cbn in Hs.
    eapply links_ext; [| |exact Hl]; intros p Hp; unfold next_of, prev_of; rewrite Hs;
      [done|done|done|]. clear - Hp. apply elem_of_app in Hp. rewrite elem_of_cons. set_solver.
  - intros h head Hh. cbn in *. destruct (init_list_head_spec h head Hh) as (h'&Hrun&Hd&[Hsame Hl]).
    exists h'. split_and!; [done|done| |done]. intros p Hp. apply Hsame.
    by intros ->%list_elem_of_singleton.
  - intros h head l node Hd Hn Ha. cbn in *.
    destruct (list_add_tail_spec h head l node Hd Hn) as (h'&Hrun&Hd'&[Hsame Hlive]).
    { intros Hin. rewrite Forall_forall in Ha. by apply (Ha node Hin). }
    exists h'. split_and!; [done|done| |done]. intros p Hp. apply Hsame.
    intros Hin. rewrite Forall_forall in Hp. by apply (Hp p Hin).
  - intros h head l1 node l2 Hd. cbn in *.
    destruct (list_del_spec h head l1 node l2 Hd) as (h'&Hrun&Hd'&[Hsame Hlive]).
    exists h'. split_and!; [done|done| |done]. intros p Hp. apply Hsame.
    intros Hin. rewrite Forall_forall in Hp. by apply (Hp p Hin).
Qed.
