(* ===== verification/Buddy.v ===== *)
(** * The buddy allocator of buddy-alloc/alloc.c

    The heap is an interval of addresses from [base_ptr]; a node of the binary
    tree is a block of a power-of-two size.  The free lists are threaded through
    the free blocks themselves, so that the model has a memory of 8-byte words
    that holds the links of the free blocks, the headers of the allocated ones
    and what the client stores, and an access outside of what [brk] has reserved
    is undefined.  The split flags are the bytes of [node_is_split].  Whether
    [brk] succeeds is an argument of the operations. *)
From S2P Require Import Prelude CircularList.
From stdpp Require Import gmap list.
#[local] Open Scope Z_scope.
#[local] Open Scope c_scope.

Definition HEADER_SIZE : Z := 8.
Definition MIN_ALLOC_LOG2 : Z := 4.
Definition MIN_ALLOC : Z := Z.shiftl 1 MIN_ALLOC_LOG2.
Definition MAX_ALLOC_LOG2 : Z := 31.
Definition MAX_ALLOC : Z := Z.shiftl 1 MAX_ALLOC_LOG2.
Definition BUCKET_COUNT : Z := MAX_ALLOC_LOG2 - MIN_ALLOC_LOG2 + 1.
Definition sizeof_list_t : Z := 16.

(** ** Memory

    The words between [lo] and the break [hi], zero until they are written, and
    the static array [buckets], which is placed below address 0. *)
Record mem := mk_mem { words : gmap Z Z; lo : Z; hi : Z }.

Definition bucket_addr (b : Z) : Z := - sizeof_list_t * (b + 1).
Definition valid (m : mem) (p : Z) : bool :=
  (bucket_addr (BUCKET_COUNT - 1) <=? p) && (p <? 0) || (lo m <=? p) && (p + 8 <=? hi m).
Definition word (m : mem) (p : Z) : Z := default 0 (words m !! p).

Definition load (p : Z) : M mem Z :=
  gets_some (λ m, if valid m p then Some (word m p) else None).
Definition store (p v : Z) : M mem unit :=
  m ← gets_some (λ m, if valid m p then Some m else None);
  modify (λ m, mk_mem (<[p := v]> (words m)) (lo m) (hi m)).

(** [list_t]: [prev] is the first word of a node and [next] the second. *)
Definition next_field (p : Z) : Z := p + 8.

Definition list_init (list : Z) : M mem unit :=
  store list list ;;
  store (next_field list) list.

Definition list_push (list entry : Z) : M mem unit :=
  prev ← load list;
  store entry prev ;;
  store (next_field entry) list ;;
  store (next_field prev) entry ;;
  store list entry.

Definition list_remove (entry : Z) : M mem unit :=
  prev ← load entry;
  next ← load (next_field entry);
  store (next_field prev) next ;;
  store next prev.

Definition list_pop (list : Z) : M mem (option Z) :=
  back ← load list;
  if back =? list then ret None
  else
    list_remove back ;;
    ret (Some back).

(** ** The allocator *)

Record alloc := mk_alloc {
  memory : mem;
  bucket_limit : Z;
  node_is_split : gmap Z Z;
  base_ptr : Z;
  max_ptr : Z
}.

Definition set_memory (m : mem) (a : alloc) : alloc :=
  mk_alloc m (bucket_limit a) (node_is_split a) (base_ptr a) (max_ptr a).
Definition set_bucket_limit (v : Z) (a : alloc) : alloc :=
  mk_alloc (memory a) v (node_is_split a) (base_ptr a) (max_ptr a).
Definition set_split (v : gmap Z Z) (a : alloc) : alloc :=
  mk_alloc (memory a) (bucket_limit a) v (base_ptr a) (max_ptr a).
Definition set_max_ptr (v : Z) (a : alloc) : alloc :=
  mk_alloc (memory a) (bucket_limit a) (node_is_split a) (base_ptr a) v.
Definition set_base_ptr (v : Z) (a : alloc) : alloc :=
  mk_alloc (memory a) (bucket_limit a) (node_is_split a) v (max_ptr a).

(** Runs an access to the memory. *)
Definition on_mem {A} (x : M mem A) : M alloc A := λ a,
  match x (memory a) with Ok (v, m) => Ok (v, set_memory m a) | Err e => Err e end.

(** [brk] moves the break when the kernel grants it. *)
Definition set_brk (v : Z) (a : alloc) : alloc :=
  set_memory (mk_mem (words (memory a)) (lo (memory a)) v) a.

Definition update_max_ptr (brk : Z → bool) (new_value : Z) : M alloc bool :=
  max ← gets max_ptr;
  if max <? new_value then
    if negb (brk new_value) then ret false
    else modify (set_brk new_value) ;; modify (set_max_ptr new_value) ;; ret true
  else ret true.

Definition ptr_for_node (base index bucket : Z) : Z :=
  base + u64 (Z.shiftl (u64 (index - Z.shiftl 1 bucket + 1)) (MAX_ALLOC_LOG2 - bucket)).

Definition node_for_ptr (base ptr bucket : Z) : Z :=
  u64 (Z.shiftr (ptr - base) (MAX_ALLOC_LOG2 - bucket) + Z.shiftl 1 bucket - 1).

(** The byte [node_is_split[index / 8]]; the array has [2^27 / 8] bytes. *)
Definition split_byte (index : Z) : M alloc Z :=
  gets_some (λ a,
    if (0 <=? index / 8) && (index / 8 <? Z.shiftl 1 (BUCKET_COUNT - 1) / 8)
    then Some (default 0 (node_is_split a !! (index / 8))) else None).

Definition parent_is_split (index : Z) : M alloc bool :=
  let index := u64 (index - 1) / 2 in
  byte ← split_byte index;
  ret (truthy (Z.land (Z.shiftr byte (index mod 8)) 1)).

Definition flip_parent_is_split (index : Z) : M alloc unit :=
  let index := u64 (index - 1) / 2 in
  byte ← split_byte index;
  a ← gets id;
  modify (set_split (<[index / 8 := Z.lxor byte (Z.shiftl 1 (index mod 8))]> (node_is_split a))).

Fixpoint bucket_loop (fuel : nat) (request bucket size : Z) : option Z :=
  if size <? request then
    match fuel with
    | O => None
    | S fuel => bucket_loop fuel request (u64 (bucket - 1)) (u64 (Z.shiftl size 1))
    end
  else Some bucket.
(** [size] doubles up to [MAX_ALLOC]: 27 steps. *)
Definition bucket_for_request {S} (request : Z) : M S Z :=
  match bucket_loop 27 request (BUCKET_COUNT - 1) MIN_ALLOC with
  | Some b => ret b
  | None => fail Exhausted
  end.

(** Returns whether it succeeded; every iteration lowers the limit by one. *)
Fixpoint lower_bucket_limit (fuel : nat) (brk : Z → bool) (bucket : Z) : M alloc bool :=
  limit ← gets bucket_limit;
  if negb (bucket <? limit) then ret true
  else match fuel with
  | O => fail Exhausted
  | S fuel =>
      base ← gets base_ptr;
      let root := node_for_ptr base base limit in
      split ← parent_is_split root;
      if negb split then
        on_mem (list_remove base) ;;
        modify (set_bucket_limit (limit - 1)) ;;
        on_mem (list_init (bucket_addr (limit - 1))) ;;
        on_mem (list_push (bucket_addr (limit - 1)) base) ;;
        lower_bucket_limit fuel brk bucket
      else
        let right_child := ptr_for_node base (root + 1) limit in
        ok ← update_max_ptr brk (right_child + sizeof_list_t);
        if negb ok then ret false
        else
          on_mem (list_push (bucket_addr limit) right_child) ;;
          modify (set_bucket_limit (limit - 1)) ;;
          on_mem (list_init (bucket_addr (limit - 1))) ;;
          let root := (root - 1) / 2 in
          (if negb (root =? 0) then flip_parent_is_split root else ret tt) ;;
          lower_bucket_limit fuel brk bucket
  end.

(** [while (bucket < original_bucket) { ... }] *)
Fixpoint split_down (fuel : nat) (i bucket original_bucket : Z) : M alloc unit :=
  if negb (bucket <? original_bucket) then ret tt
  else match fuel with
  | O => fail Exhausted
  | S fuel =>
      let i := i * 2 + 1 in
      let bucket := bucket + 1 in
      base ← gets base_ptr;
      flip_parent_is_split i ;;
      on_mem (list_push (bucket_addr bucket) (ptr_for_node base (i + 1) bucket)) ;;
      split_down fuel i bucket original_bucket
  end.

Definition FUEL : nat := 28.

(** The rest of the body once a block has been popped. *)
Definition take_block (brk : Z → bool) (request original_bucket bucket ptr : Z) : M alloc (option Z) :=
  let size := Z.shiftl 1 (MAX_ALLOC_LOG2 - bucket) in
  let bytes_needed := if bucket <? original_bucket then size / 2 + sizeof_list_t else size in
  ok ← update_max_ptr brk (ptr + bytes_needed);
  if negb ok then
    on_mem (list_push (bucket_addr bucket) ptr) ;;
    ret None
  else
    base ← gets base_ptr;
    let i := node_for_ptr base ptr bucket in
    (if negb (i =? 0) then flip_parent_is_split i else ret tt) ;;
    split_down FUEL i bucket original_bucket ;;
    on_mem (store ptr request) ;;
    ret (Some (ptr + HEADER_SIZE)).

(** [while (bucket + 1 != 0)]: the loop ends below bucket 0. *)
Fixpoint find_block (fuel : nat) (brk : Z → bool) (request original_bucket bucket : Z)
  : M alloc (option Z) :=
  if u64 (bucket + 1) =? 0 then ret None
  else match fuel with
  | O => fail Exhausted
  | S fuel =>
      ok ← lower_bucket_limit FUEL brk bucket;
      if negb ok then ret None
      else
        ptr ← on_mem (list_pop (bucket_addr bucket));
        match ptr with
        | Some ptr => take_block brk request original_bucket bucket ptr
        | None =>
            limit ← gets bucket_limit;
            if negb (bucket =? limit) || (bucket =? 0) then
              find_block fuel brk request original_bucket (u64 (bucket - 1))
            else
              ok ← lower_bucket_limit FUEL brk (bucket - 1);
              if negb ok then ret None
              else
                ptr ← on_mem (list_pop (bucket_addr bucket));
                match ptr with
                | Some ptr => take_block brk request original_bucket bucket ptr
                | None => fail Undefined
                end
        end
  end.

(** The initialization in the first call; [sbrk] is the break at that time.  The
    result of its [update_max_ptr] is not checked. *)
Definition init_alloc (brk : Z → bool) (sbrk : Z) : M alloc unit :=
  modify (set_max_ptr sbrk) ;;
  modify (set_base_ptr sbrk) ;;
  modify (set_memory (mk_mem ∅ sbrk sbrk)) ;;
  modify (set_bucket_limit (BUCKET_COUNT - 1)) ;;
  update_max_ptr brk (sbrk + sizeof_list_t) ;;
  on_mem (list_init (bucket_addr (BUCKET_COUNT - 1))) ;;
  on_mem (list_push (bucket_addr (BUCKET_COUNT - 1)) sbrk).

Definition bmalloc (brk : Z → bool) (sbrk request : Z) : M alloc (option Z) :=
  if MAX_ALLOC <? u64 (request + HEADER_SIZE) then ret None
  else
    base ← gets base_ptr;
    (if base =? 0 then init_alloc brk sbrk else ret tt) ;;
    bucket ← bucket_for_request (u64 (request + HEADER_SIZE));
    find_block FUEL brk request bucket bucket.

(** [while (i != 0)]: returns the final [i] and [bucket]. *)
Fixpoint merge_up (fuel : nat) (i bucket : Z) : M alloc (Z * Z) :=
  if i =? 0 then ret (i, bucket)
  else match fuel with
  | O => fail Exhausted
  | S fuel =>
      flip_parent_is_split i ;;
      split ← parent_is_split i;
      limit ← gets bucket_limit;
      if split || (bucket =? limit) then ret (i, bucket)
      else
        base ← gets base_ptr;
        on_mem (list_remove (ptr_for_node base (Z.lxor (i - 1) 1 + 1) bucket)) ;;
        merge_up fuel ((i - 1) / 2) (bucket - 1)
  end.

Definition bfree (ptr : Z) : M alloc unit :=
  if ptr =? 0 then ret tt
  else
    let ptr := ptr - HEADER_SIZE in
    request ← on_mem (load ptr);
    bucket ← bucket_for_request (u64 (request + HEADER_SIZE));
    base ← gets base_ptr;
    ' (i, bucket) ← merge_up FUEL (node_for_ptr base ptr bucket) bucket;
    on_mem (list_push (bucket_addr bucket) (ptr_for_node base i bucket)).

Definition alloc0 : alloc := mk_alloc (mk_mem ∅ 0 0) 0 ∅ 0 0.

(** ** The free lists as circular lists *)

Definition apart16 (p q : Z) : Prop := p + 16 ≤ q ∨ q + 16 ≤ p.
Definition node_valid (m : mem) (p : Z) : Prop := valid m p = true ∧ valid m (next_field p) = true.

(** The links between the nodes of [a :: l], without the ones around the end. *)
Fixpoint chain (m : mem) (a : Z) (l : list Z) : Prop :=
  match l with
  | [] => True
  | b :: l => word m (next_field a) = b ∧ word m b = a ∧ chain m b l
  end.

(** Pairwise disjoint nodes. *)
Fixpoint all_apart (l : list Z) : Prop :=
  match l with [] => True | p :: l => Forall (apart16 p) l ∧ all_apart l end.

Definition mlist (m : mem) (head : Z) (l : list Z) : Prop :=
  all_apart (head :: l) ∧ Forall (node_valid m) (head :: l) ∧ chain m head l ∧
  word m (next_field (List.last l head)) = head ∧ word m head = List.last l head.

Definition set_word (p v : Z) (m : mem) : mem := mk_mem (<[p := v]> (words m)) (lo m) (hi m).

Section lists.
Implicit Types (m : mem) (p q v : Z) (l : list Z).

Lemma word_set p v m q : word (set_word p v m) q = if decide (p = q) then v else word m q.
Proof.
  unfold word, set_word. simpl. case_decide; [subst; by rewrite lookup_insert_eq|].
  by rewrite lookup_insert_ne.
Qed.

Lemma word_set_eq p v m : word (set_word p v m) p = v.
Proof. rewrite word_set. by rewrite decide_True. Qed.

Lemma word_set_ne p v m q : p ≠ q → word (set_word p v m) q = word m q.
Proof. intros. rewrite word_set. by rewrite decide_False. Qed.

Lemma valid_set p v m q : valid (set_word p v m) q = valid m q.
Proof. done. Qed.

Lemma load_run {B} (f : Z → M mem B) m p : valid m p = true → bind (load p) f m = f (word m p) m.
Proof. intros H. apply bind_ok, gets_some_ok. by rewrite H. Qed.

Lemma store_word_ok p v m : valid m p = true → store p v m = Ok (tt, set_word p v m).
Proof. intros H. unfold store, bind, gets_some. by rewrite H. Qed.

Lemma store_run {B} (f : unit → M mem B) p v m :
  valid m p = true → bind (store p v) f m = f tt (set_word p v m).
Proof. intros H. by apply bind_ok, store_word_ok. Qed.

Lemma apart_sym16 p q : apart16 p q → apart16 q p.
Proof. unfold apart16. lia. Qed.

Lemma all_apart_app l1 l2 :
  all_apart (l1 ++ l2) ↔ all_apart l1 ∧ all_apart l2 ∧ Forall (λ p, Forall (apart16 p) l2) l1.
Proof.
  induction l1 as [|p l1 IH]; cbn [app all_apart].
  - split; [|tauto]. intros. split_and!; [done|done|by apply Forall_nil].
  - rewrite IH, Forall_app, Forall_cons. tauto.
Qed.

Lemma all_apart_perm l l' : l ≡ₚ l' → all_apart l → all_apart l'.
Proof.
  induction 1 as [|p l l' Hp IH|p q l|l1 l2 l3 _ IH1 _ IH2]; cbn [all_apart]; [done|..|by auto].
  - intros [H1 H2]. split; [|by apply IH]. by rewrite <- Hp.
  - rewrite !Forall_cons. intros ((H1&H2)&H3&H4). split_and!; auto using apart_sym16.
Qed.

(** Two nodes are the same or apart. *)
Lemma all_apart_cases l p q : all_apart l → p ∈ l → q ∈ l → p = q ∨ apart16 p q.
Proof.
  induction l as [|r l IH]; intros Ha Hp Hq; [by apply not_elem_of_nil in Hp|].
  destruct Ha as [Hr Hl]. rewrite Forall_forall in Hr.
  apply elem_of_cons in Hp as [->|Hp], Hq as [->|Hq]; auto using apart_sym16.
Qed.

Lemma all_apart_NoDup l : all_apart l → NoDup l.
Proof.
  induction l as [|p l IH]; intros Ha; [constructor|]. destruct Ha as [Hp Hl].
  constructor; [|by apply IH]. intros Hin. rewrite Forall_forall in Hp.
  specialize (Hp p Hin). unfold apart16 in Hp. lia.
Qed.

Lemma last_cons_default b l a : List.last (b :: l) a = List.last l b.
Proof. revert a b. induction l as [|c l IH]; intros a b; [done|]. cbn in *. destruct l; [done|]. apply IH. Qed.

Lemma entry_last_in l a : List.last l a ∈ a :: l.
Proof. revert a. induction l as [|b l IH]; intros a; [by left|]. rewrite last_cons_default. right. apply IH. Qed.

Lemma last_app_default l1 l2 a : List.last (l1 ++ l2) a = List.last l2 (List.last l1 a).
Proof.
  revert a. induction l1 as [|b l1 IH]; intros a; [done|]. rewrite <- app_comm_cons, !last_cons_default. apply IH.
Qed.

Lemma chain_app m a l1 l2 : chain m a (l1 ++ l2) ↔ chain m a l1 ∧ chain m (List.last l1 a) l2.
Proof.
  revert a. induction l1 as [|b l1 IH]; intros a; [simpl; tauto|].
  rewrite last_cons_default. cbn [app chain]. rewrite IH. tauto.
Qed.

Lemma chain_ext m m' a l :
  NoDup (a :: l) → (∀ p, p ∈ l → word m' p = word m p) →
  (∀ p, p ∈ a :: l → p ≠ List.last l a → word m' (next_field p) = word m (next_field p)) →
  chain m a l → chain m' a l.
Proof.
  revert a. induction l as [|b l IH]; intros a Hnd Hp Hn; [done|]. cbn [chain].
  intros (?&?&?). apply NoDup_cons in Hnd as [Hna Hnd]. rewrite last_cons_default in Hn.
  split_and!.
  - rewrite Hn; [done|by left|]. intros ->. apply Hna, entry_last_in.
  - rewrite Hp; [done|by left].
  - apply IH; [done| | |done].
    + intros q Hq. apply Hp. by right.
    + intros q Hq. apply Hn. by right.
Qed.
End lists.

(** Evaluates a word behind stores, by the facts on which nodes are apart. *)
Ltac words :=
  rewrite ?word_set; unfold next_field, apart16 in *;
  repeat case_decide; first [reflexivity | assumption | congruence | lia | idtac].

Section list_operations.
Implicit Types (m : mem) (p q v : Z) (l : list Z).

Definition same_node (m m' : mem) (p : Z) : Prop :=
  word m' p = word m p ∧ word m' (next_field p) = word m (next_field p) ∧
  (node_valid m p → node_valid m' p).

Lemma mlist_same m m' head l :
  (∀ p, p ∈ head :: l → same_node m m' p) → mlist m head l → mlist m' head l.
Proof.
  intros Hs (Ha&Hv&Hl&He1&He2). split_and!; [done|..].
  - rewrite Forall_forall in *. intros p Hp. apply Hs; auto.
  - eapply chain_ext; [by apply all_apart_NoDup| | |exact Hl].
    + intros p Hp. apply Hs. by right.
    + intros p Hp _. by apply Hs.
  - rewrite <- He1 at 2. apply Hs, entry_last_in.
  - rewrite <- He2. apply Hs. by left.
Qed.

Lemma list_init_ok m head :
  node_valid m head →
  ∃ m', list_init head m = Ok (tt, m') ∧ mlist m' head [] ∧
    (∀ p, apart16 p head → same_node m m' p) ∧ (∀ p, node_valid m' p ↔ node_valid m p).
Proof.
  intros Hv. pose proof Hv as [H1 H2].
  exists (set_word (next_field head) head (set_word head head m)). split_and!.
  - unfold list_init. rewrite store_run by done. by apply store_word_ok.
  - split_and!; [done..|by apply Forall_singleton|done|cbn; words|cbn; words].
  - intros p Hp. split_and!; [by words|by words|done].
  - done.
Qed.

Lemma list_push_ok m head l entry :
  mlist m head l → node_valid m entry → Forall (apart16 entry) (head :: l) →
  ∃ m', list_push head entry m = Ok (tt, m') ∧ mlist m' head (l ++ [entry]) ∧
    (∀ p, Forall (apart16 p) (entry :: head :: l) → same_node m m' p) ∧
    (∀ p, node_valid m' p ↔ node_valid m p).
Proof.
  intros (Ha&Hv&Hl&He1&He2) Hentry Hap. set (prev := List.last l head) in *.
  assert (prev ∈ head :: l) as Hprev by apply entry_last_in.
  pose proof (proj1 (Forall_forall _ _) Hv) as Hv'. pose proof (proj1 (Forall_forall _ _) Hap) as Hap'.
  destruct (Hv' head ltac:(by left)) as [Hh1 Hh2]. destruct (Hv' prev Hprev) as [Hp1 Hp2].
  pose proof Hentry as [Hn1 Hn2].
  pose proof (Hap' head ltac:(by left)) as Hah. pose proof (Hap' prev Hprev) as Hapr.
  pose proof (all_apart_cases _ prev head Ha Hprev ltac:(by left)) as Hph.
  assert (Hcase : ∀ p, p ∈ head :: l → apart16 entry p ∧ (p = prev ∨ apart16 p prev) ∧ (p = head ∨ apart16 p head)).
  { intros p Hp. split_and!; [by apply Hap'|by apply (all_apart_cases _ _ _ Ha)|].
    apply (all_apart_cases _ _ _ Ha); [done|by left]. }
  exists (set_word head entry (set_word (next_field prev) entry
    (set_word (next_field entry) head (set_word entry prev m)))). split_and!.
  - unfold list_push. rewrite load_run, He2 by done. rewrite !store_run by done. by apply store_word_ok.
  - unfold mlist. rewrite last_app_default. cbn [List.last]. fold prev. split_and!; [| | |by words|by words].
    + eapply (all_apart_perm (entry :: head :: l)); [|done].
      rewrite (Permutation_app_comm l). simpl. constructor.
    + rewrite app_comm_cons. apply Forall_app_2; [done|]. by apply Forall_singleton.
    + apply chain_app. fold prev. split; [|cbn; split_and!; [by words..|done]].
      pose proof (all_apart_NoDup _ Ha) as Hnd.
      eapply chain_ext; [exact Hnd| | |exact Hl].
      * intros p Hp. apply NoDup_cons in Hnd as [Hnd _]. assert (p ≠ head) by (by intros ->).
        destruct (Hcase p ltac:(by right)) as (?&?&?). by words.
      * intros p Hp Hne. fold prev in Hne. destruct (Hcase p Hp) as (?&?&?). by words.
  - intros p Hp. rewrite !Forall_cons in Hp. destruct Hp as (H1&H2&H3).
    assert (apart16 p prev).
    { apply elem_of_cons in Hprev as [->|Hin]; [done|]. rewrite Forall_forall in H3. by apply H3. }
    split_and!; [by words|by words|done].
  - done.
Qed.

(** The list without what was between [l1] and [l2]: the node before points to the one
    behind and back. *)
Definition joined_at (m : mem) (prev next : Z) : mem := set_word next prev (set_word (next_field prev) next m).
Definition rest_of (m : mem) (head : Z) (l2 : list Z) : Prop :=
  match l2 with [] => True | c :: l => chain m c l ∧ word m (next_field (List.last l c)) = head ∧ word m head = List.last l c end.

Section joining.
Context (m : mem) (head : Z) (l1 l2 : list Z) (nodes_apart : all_apart (head :: l1 ++ l2)).
Let prev := List.last l1 head.
Let next := hd head l2.

(** Each node is one of the two that change, or apart from them. *)
Lemma joining_cases p : p ∈ head :: l1 ++ l2 → (p = prev ∨ apart16 p prev) ∧ (p = next ∨ apart16 p next).
Proof.
  pose proof (entry_last_in l1 head) as Hin. fold prev in Hin. assert (prev ∈ head :: l1 ++ l2) by set_solver.
  assert (next ∈ head :: l1 ++ l2) by (unfold next; destruct l2; cbn; [by left|set_solver]).
  intros Hp. split; by apply (all_apart_cases _ _ _ nodes_apart).
Qed.

Lemma joined_front : chain m head l1 → chain (joined_at m prev next) head l1.
Proof.
  intros Hl1. pose proof (all_apart_NoDup _ nodes_apart) as Hnd. unfold joined_at. eapply chain_ext; [| | |exact Hl1].
  - rewrite app_comm_cons in Hnd. by apply NoDup_app in Hnd as (?&_).
  - intros p Hp. destruct (joining_cases p ltac:(set_solver)) as [? ?]. assert (p ≠ next); [|by words].
    apply NoDup_cons in Hnd as [Hh Hnd]. apply NoDup_app in Hnd as (_&Hd&_). unfold next. destruct l2 as [|c l]; cbn [hd].
    + intros ->. apply Hh. set_solver.
    + intros ->. apply (Hd c Hp). by left.
  - intros p Hp Hne. fold prev in Hne. destruct (joining_cases p ltac:(set_solver)) as [? ?]. by words.
Qed.

Lemma joined_back : rest_of m head l2 → chain (joined_at m prev next) prev l2 ∧
  word (joined_at m prev next) (next_field (List.last l2 prev)) = head ∧ word (joined_at m prev next) head = List.last l2 prev.
Proof.
  pose proof (all_apart_NoDup _ nodes_apart) as Hnd. pose proof joining_cases as Hcase. unfold joined_at, next in *. destruct l2 as [|c l]; cbn [hd rest_of] in *.
  { intros _. cbn [List.last]. destruct (Hcase head ltac:(by left)) as [? _]. split_and!; [done|by words|by words]. }
  rewrite last_cons_default. intros (Hl&He1&He2).
  assert (∀ p, p ∈ c :: l → p ≠ prev) as Hpn.
  { rewrite app_comm_cons in Hnd. apply NoDup_app in Hnd as (_&Hd&_). intros p Hp ->. apply (Hd prev); [apply entry_last_in|done]. }
  apply NoDup_cons in Hnd as [Hh Hnd]. apply NoDup_app in Hnd as (_&_&Hndc). destruct (Hcase c ltac:(set_solver)) as [? ?]. split_and!.
  - cbn [chain]. split_and!; [by words|by words|]. eapply chain_ext; [exact Hndc| | |exact Hl].
    + intros p Hp. destruct (Hcase p ltac:(set_solver)) as [? ?]. apply NoDup_cons in Hndc as [Hc _]. assert (p ≠ c) by (by intros ->). by words.
    + intros p Hp _. destruct (Hcase p ltac:(set_solver)) as [? ?]. pose proof (Hpn p Hp). by words.
  - pose proof (entry_last_in l c) as Hin. set (e := List.last l c) in *. destruct (Hcase e ltac:(set_solver)) as [? ?]. pose proof (Hpn e Hin). by words.
  - assert (head ≠ c) by (intros ->; set_solver). destruct (Hcase head ltac:(by left)) as [? ?]. by words.
Qed.
End joining.

Lemma list_remove_ok m head l1 entry l2 :
  mlist m head (l1 ++ entry :: l2) →
  ∃ m', list_remove entry m = Ok (tt, m') ∧ mlist m' head (l1 ++ l2) ∧
    (∀ p, Forall (apart16 p) (head :: l1 ++ l2) → same_node m m' p) ∧
    (∀ p, node_valid m' p ↔ node_valid m p).
Proof.
  intros (Ha&Hv&Hl&He1&He2). apply chain_app in Hl as [Hl1 (Hn1&Hn2&Hl2)].
  rewrite last_app_default, last_cons_default in He1, He2.
  assert (Hperm : head :: l1 ++ entry :: l2 ≡ₚ entry :: head :: l1 ++ l2) by (rewrite <- Permutation_middle; constructor).
  pose proof (all_apart_perm _ _ Hperm Ha) as [Hea Ha']. rewrite Hperm in Hv. apply Forall_cons in Hv as [[Hv1 Hv2] Hv].
  assert (word m (next_field entry) = hd head l2 ∧ rest_of m head l2) as [Hnx Hrest].
  { destruct l2 as [|c l]; [done|]. cbn [chain hd rest_of] in *. rewrite last_cons_default in *. tauto. }
  destruct (joined_back m head l1 l2 Ha' Hrest) as (Hb1&Hb2&Hb3). pose proof (joined_front m head l1 l2 Ha' Hl1) as Hf.
  set (prev := List.last l1 head) in *. set (next := hd head l2) in *.
  assert (prev ∈ head :: l1 ++ l2) as Hprev by (pose proof (entry_last_in l1 head) as Hin; fold prev in Hin; set_solver).
  assert (next ∈ head :: l1 ++ l2) as Hnext by (unfold next; destruct l2; cbn; [by left|set_solver]).
  destruct (proj1 (Forall_forall _ _) Hv prev Hprev) as [Hp1 Hp2]. destruct (proj1 (Forall_forall _ _) Hv next Hnext) as [Hx1 Hx2].
  exists (joined_at m prev next). split_and!.
  - unfold list_remove. rewrite !load_run by done. rewrite Hn2, Hnx. rewrite store_run by done. by apply store_word_ok.
  - unfold mlist. rewrite last_app_default. fold prev. split_and!; [done|done| |done|done]. apply chain_app. by fold prev.
  - intros p Hp. rewrite Forall_forall in Hp. pose proof (Hp prev Hprev). pose proof (Hp next Hnext). unfold joined_at.
    split_and!; [by words|by words|done].
  - done.
Qed.
End list_operations.
#[export] Instance mem_list : CircularList mem := {
  rep := mlist;
  node_live := node_valid;
  node_same := same_node;
  apart := apart16;
  init := list_init;
  add_tail node head := list_push head node;
  del := list_remove
}.

#[export] Instance mem_list_laws : CircularListLaws mem.
Proof.
  split; cbn.
  - exact apart_sym16.
  - exact mlist_same.
  - exact list_init_ok.
  - exact list_push_ok.
  - exact list_remove_ok.
Qed.

Lemma list_pop_ok m head l :
  mlist m head l →
  list_pop head m =
    match l with
    | [] => Ok (None, m)
    | _ => match list_remove (List.last l head) m with
           | Ok (_, m') => Ok (Some (List.last l head), m')
           | Err e => Err e
           end
    end.
Proof.
  intros (Ha&Hv&_&_&He). apply Forall_cons in Hv as [[Hv _] _].
  unfold list_pop. rewrite load_run, He by done. destruct l as [|b l].
  - cbn. by rewrite Z.eqb_refl.
  - rewrite (proj2 (Z.eqb_neq _ _)); [done|]. destruct Ha as [Ha _]. rewrite Forall_forall in Ha.
    pose proof (entry_last_in l b) as Hin. rewrite last_cons_default. specialize (Ha _ Hin).
    unfold apart16 in Ha. lia.
Qed.
