(* ===== verification/BuddyTree.v ===== *)
(** * The tree of the buddy allocator

    The invariant that relates the memory, the free lists and the split flags of
    Buddy.v to an abstract tree of free and used blocks, the steps of [bmalloc]
    and [bfree] that keep it, and the properties of the allocator: no call
    touches memory it does not own, blocks never overlap, and free blocks are
    merged completely. *)
From S2P Require Import Prelude CircularList Buddy.
From stdpp Require Import gmap list.
#[local] Open Scope Z_scope.
#[local] Open Scope c_scope.

(** ** Nodes

    A node is its bucket and its position among the [2^bucket] nodes there. *)
Abbreviation tnode := (Z * Z)%type.

Definition size_of (b : Z) : Z := 2 ^ (31 - b).
Definition offset (n : tnode) : Z := n.2 * size_of n.1.
Definition index (n : tnode) : Z := 2 ^ n.1 - 1 + n.2.
Definition is_node (n : tnode) : Prop := 0 ≤ n.1 ≤ 27 ∧ 0 ≤ n.2 < 2 ^ n.1.
Definition parent (n : tnode) : tnode := (n.1 - 1, n.2 / 2).
Definition left_child (n : tnode) : tnode := (n.1 + 1, 2 * n.2).
Definition right_child (n : tnode) : tnode := (n.1 + 1, 2 * n.2 + 1).
Definition sibling (n : tnode) : tnode := (n.1, if Z.even n.2 then n.2 + 1 else n.2 - 1).

Section nodes.
Implicit Types (n : tnode) (b base : Z).

Lemma size_of_ge b : 0 ≤ b ≤ 27 → 16 ≤ size_of b ≤ 2 ^ 31.
Proof.
  intros Hb. unfold size_of. change 16 with (2 ^ 4). split; apply Z.pow_le_mono_r; lia.
Qed.

Lemma size_of_child b : b < 31 → size_of b = 2 * size_of (b + 1).
Proof.
  intros Hb. unfold size_of. rewrite <- Z.pow_succ_r by lia. f_equal. lia.
Qed.

Lemma pow_pred b : 1 ≤ b → 2 ^ b = 2 * 2 ^ (b - 1).
Proof. intros. rewrite <- Z.pow_succ_r by lia. f_equal. lia. Qed.

Lemma pow_next b : 0 ≤ b → 2 ^ (b + 1) = 2 * 2 ^ b.
Proof. intros. rewrite Z.add_1_r. by apply Z.pow_succ_r. Qed.

Lemma pow_bound b : 0 ≤ b ≤ 27 → 1 ≤ 2 ^ b ≤ 2 ^ 27.
Proof. intros. change 1 with (2 ^ 0). split; apply Z.pow_le_mono_r; lia. Qed.

Lemma index_bound n : is_node n → 0 ≤ index n < 2 ^ 28.
Proof. intros [Hb Hk]. unfold index. pose proof (pow_bound n.1 Hb). change (2 ^ 28) with (2 * 2 ^ 27). lia. Qed.

Lemma index_0 n : is_node n → index n = 0 ↔ n = (0, 0).
Proof.
  intros [Hb Hk]. unfold index. destruct n as [b k]. simpl in *. split.
  - intros Hi. pose proof (pow_bound b Hb). assert (k = 0) as -> by lia.
    destruct (Z.eq_dec b 0) as [->|]; [done|].
    assert (2 ^ 1 ≤ 2 ^ b) by (apply Z.pow_le_mono_r; lia). lia.
  - by intros [= -> ->].
Qed.

Lemma index_parent n : is_node n → 1 ≤ n.1 → u64 (index n - 1) / 2 = index (parent n).
Proof.
  intros [Hb Hk] H1. unfold index, parent. cbn [fst snd]. pose proof (pow_pred n.1 H1).
  pose proof (pow_bound n.1 Hb). rewrite wrapu_small by lia. Z.to_euclidean_division_equations; lia.
Qed.

Lemma index_parent' n : is_node n → 1 ≤ n.1 → (index n - 1) / 2 = index (parent n).
Proof.
  intros Hn H1. rewrite <- index_parent by done. rewrite wrapu_small; [done|].
  pose proof (index_bound n Hn). destruct (Z.eq_dec (index n) 0) as [H0|]; [|lia].
  apply index_0 in H0 as ->; [|done]. simpl in H1. lia.
Qed.

Lemma index_left n : is_node n → index n * 2 + 1 = index (left_child n).
Proof.
  intros [Hb Hk]. unfold index, left_child. cbn [fst snd]. rewrite pow_next by lia. lia.
Qed.

Lemma index_right n : is_node n → index (left_child n) + 1 = index (right_child n).
Proof. intros. unfold index, left_child, right_child. cbn [fst snd]. lia. Qed.

Lemma testbit_1 i : 0 < i → Z.testbit 1 i = false.
Proof. intros. change 1 with (2 ^ 0). rewrite Z.pow2_bits_eqb by lia. apply Z.eqb_neq. lia. Qed.

Lemma lxor_1 x : Z.lxor x 1 = if Z.even x then x + 1 else x - 1.
Proof.
  rewrite <- (Z.negb_odd x). destruct (Z.odd x) eqn:Ho; simpl.
  - apply Z.odd_spec in Ho as [y ->]. apply Z.bits_inj'. intros i Hi. rewrite Z.lxor_spec.
    replace (2 * y + 1 - 1) with (2 * y) by lia. destruct (Z.eq_dec i 0) as [->|].
    + by rewrite Z.testbit_odd_0, Z.testbit_even_0.
    + rewrite testbit_1 by lia. replace i with (Z.succ (i - 1)) by lia.
      rewrite Z.testbit_odd_succ, Z.testbit_even_succ by lia. apply xorb_false_r.
  - rewrite <- Z.negb_even in Ho. apply negb_false_iff, Z.even_spec in Ho as [y ->].
    apply Z.bits_inj'. intros i Hi. rewrite Z.lxor_spec. destruct (Z.eq_dec i 0) as [->|].
    + by rewrite Z.testbit_odd_0, Z.testbit_even_0.
    + rewrite testbit_1 by lia. replace i with (Z.succ (i - 1)) by lia.
      rewrite Z.testbit_odd_succ, Z.testbit_even_succ by lia. apply xorb_false_r.
Qed.

Lemma index_sibling n : is_node n → 1 ≤ n.1 → Z.lxor (index n - 1) 1 + 1 = index (sibling n).
Proof.
  intros [Hb Hk] H1. rewrite lxor_1. unfold index, sibling. cbn [fst snd].
  pose proof (pow_pred n.1 H1) as Hp.
  replace (2 ^ n.1 - 1 + n.2 - 1) with (n.2 + 2 * (2 ^ (n.1 - 1) - 1)) by lia.
  rewrite Z.even_add_mul_2. destruct (Z.even n.2); lia.
Qed.

Lemma sibling_children n :
  (n = left_child (parent n) ∧ sibling n = right_child (parent n)) ∨
  (n = right_child (parent n) ∧ sibling n = left_child (parent n)).
Proof.
  destruct n as [b k]. unfold sibling, left_child, right_child, parent. cbn [fst snd].
  replace (b - 1 + 1) with b by lia. pose proof (Z.div_mod k 2 ltac:(lia)) as Hd.
  rewrite Zmod_even in Hd. destruct (Z.even k); [left|right]; split; f_equal; lia.
Qed.

Lemma parent_left n : parent (left_child n) = n.
Proof. destruct n as [b k]. unfold parent, left_child. cbn [fst snd]. f_equal; [lia|]. rewrite Z.mul_comm. by apply Z.div_mul. Qed.
Lemma parent_right n : parent (right_child n) = n.
Proof. destruct n as [b k]. unfold parent, right_child. cbn [fst snd]. f_equal; [lia|]. Z.to_euclidean_division_equations; lia. Qed.

Lemma is_node_parent n : is_node n → 1 ≤ n.1 → is_node (parent n) ∧ (parent n).1 < 27.
Proof.
  intros [Hb Hk] H1. unfold is_node, parent. cbn [fst snd]. pose proof (pow_pred n.1 H1).
  split; [split; [lia|]|lia]. Z.to_euclidean_division_equations; lia.
Qed.

Lemma is_node_children n : is_node n → n.1 < 27 → is_node (left_child n) ∧ is_node (right_child n).
Proof.
  intros [Hb Hk] H1. unfold is_node, left_child, right_child. cbn [fst snd].
  rewrite pow_next by lia. lia.
Qed.

Lemma is_node_sibling n : is_node n → 1 ≤ n.1 → is_node (sibling n).
Proof.
  intros Hn H1. destruct (is_node_parent n Hn H1) as [Hp Hlt].
  destruct (is_node_children _ Hp Hlt). by destruct (sibling_children n) as [[_ ->]|[_ ->]].
Qed.

Lemma index_inj n n' : is_node n → is_node n' → index n = index n' → n = n'.
Proof.
  destruct n as [b k], n' as [b' k']. unfold is_node, index. cbn [fst snd]. intros [Hb Hk] [Hb' Hk'] Heq.
  assert (∀ c d j, 0 ≤ c → c < d → 2 ^ c - 1 + j < 2 ^ d - 1 ∨ 2 ^ c ≤ j) as Hlt.
  { intros c d j Hc Hcd. assert (2 ^ (c + 1) ≤ 2 ^ d) by (apply Z.pow_le_mono_r; lia).
    rewrite pow_next in H by lia. lia. }
  destruct (Z.lt_total b b') as [Hl|[->|Hl]]; [|f_equal; lia|].
  - destruct (Hlt b b' k); lia.
  - destruct (Hlt b' b k'); lia.
Qed.

(** The two address computations of the code. *)
Lemma ptr_for_node_ok base n : is_node n → ptr_for_node base (index n) n.1 = base + offset n.
Proof.
  intros [Hb Hk]. unfold ptr_for_node, index, offset, size_of, MAX_ALLOC_LOG2.
  pose proof (pow_bound n.1 Hb). rewrite Z.shiftl_1_l. replace (2 ^ n.1 - 1 + n.2 - 2 ^ n.1 + 1) with n.2 by lia.
  rewrite (wrapu_small 64 n.2), Z.shiftl_mul_pow2 by lia. f_equal. apply wrapu_small.
  assert (2 ^ (31 - n.1) ≤ 2 ^ 31) by (apply Z.pow_le_mono_r; lia). nia.
Qed.

Lemma node_for_ptr_ok base n : is_node n → node_for_ptr base (base + offset n) n.1 = index n.
Proof.
  intros Hn. pose proof Hn as [Hb Hk]. unfold node_for_ptr, index, offset, size_of, MAX_ALLOC_LOG2.
  pose proof (index_bound n Hn) as Hi. unfold index in Hi.
  replace (base + n.2 * 2 ^ (31 - n.1) - base) with (n.2 * 2 ^ (31 - n.1)) by lia.
  rewrite Z.shiftr_div_pow2, Z.div_mul, Z.shiftl_1_l by lia. rewrite wrapu_small; lia.
Qed.
End nodes.

(** ** The split flags *)

Definition bit (sp : gmap Z Z) (i : Z) : bool := Z.testbit (default 0 (sp !! (i / 8))) (i mod 8).

(** [is_free] says which nodes are free: the flag of a node is the exclusive or of
    its children. *)
Definition bits_ok (sp : gmap Z Z) (is_free : tnode → bool) : Prop :=
  ∀ n, is_node n → n.1 < 27 → bit sp (index n) = xorb (is_free (left_child n)) (is_free (right_child n)).

Definition toggle (n : tnode) (f : tnode → bool) : tnode → bool :=
  λ n', if decide (n' = n) then negb (f n') else f n'.

Section flags.
Implicit Types (n : tnode) (sp : gmap Z Z) (f : tnode → bool) (a : alloc).

Lemma truthy_bit x i : 0 ≤ i → truthy (Z.land (Z.shiftr x i) 1) = Z.testbit x i.
Proof.
  intros Hi. change 1 with (Z.ones 1). rewrite Z.land_ones, <- Z.bit0_mod, Z.shiftr_spec by lia.
  rewrite Z.add_0_l. by destruct (Z.testbit x i).
Qed.

Lemma split_byte_ok a i :
  0 ≤ i < 2 ^ 27 → split_byte i a = Ok (default 0 (node_is_split a !! (i / 8)), a).
Proof.
  intros Hi. apply gets_some_ok. change (Z.shiftl 1 (BUCKET_COUNT - 1) / 8) with (2 ^ 24).
  by rewrite (proj2 (Z.leb_le _ _)), (proj2 (Z.ltb_lt _ _)) by (Z.to_euclidean_division_equations; lia).
Qed.

Lemma parent_index_bound n : is_node n → 1 ≤ n.1 → 0 ≤ index (parent n) < 2 ^ 27.
Proof.
  intros Hn H1. destruct (is_node_parent n Hn H1) as [[Hb Hk] Hlt].
  unfold index. pose proof (pow_next (parent n).1 ltac:(lia)). pose proof (pow_bound (parent n).1 Hb).
  assert (2 ^ ((parent n).1 + 1) ≤ 2 ^ 27) by (apply Z.pow_le_mono_r; lia). lia.
Qed.

Lemma parent_is_split_ok a n :
  is_node n → 1 ≤ n.1 →
  parent_is_split (index n) a = Ok (bit (node_is_split a) (index (parent n)), a).
Proof.
  intros Hn H1. pose proof (parent_index_bound n Hn H1) as Hp.
  unfold parent_is_split. rewrite index_parent by done.
  rewrite (bind_ok _ _ _ _ _ (split_byte_ok a _ Hp)). unfold ret.
  by rewrite truthy_bit by (Z.to_euclidean_division_equations; lia).
Qed.

Definition flip (sp : gmap Z Z) (i : Z) : gmap Z Z :=
  <[i / 8 := Z.lxor (default 0 (sp !! (i / 8))) (Z.shiftl 1 (i mod 8))]> sp.

Lemma bit_flip sp i j : bit (flip sp i) j = xorb (bit sp j) (bool_decide (i = j)).
Proof.
  unfold bit, flip. destruct (decide (i / 8 = j / 8)) as [Heq|Hne].
  - rewrite Heq, lookup_insert_eq. cbn [default option_rect]. unfold default, from_option, id.
    rewrite Z.lxor_spec, Z.shiftl_1_l, Z.pow2_bits_eqb by (Z.to_euclidean_division_equations; lia).
    f_equal. apply eqb_prop. destruct (Z.eqb_spec (i mod 8) (j mod 8)) as [Hm|Hm].
    + rewrite bool_decide_true; [done|]. Z.to_euclidean_division_equations; lia.
    + rewrite bool_decide_false; [done|]. by intros ->.
  - rewrite lookup_insert_ne by done. rewrite bool_decide_false by (by intros ->). by rewrite xorb_false_r.
Qed.

Lemma flip_parent_ok a n :
  is_node n → 1 ≤ n.1 →
  flip_parent_is_split (index n) a = Ok (tt, set_split (flip (node_is_split a) (index (parent n))) a).
Proof.
  intros Hn H1. pose proof (parent_index_bound n Hn H1) as Hp.
  unfold flip_parent_is_split. rewrite index_parent by done.
  by rewrite (bind_ok _ _ _ _ _ (split_byte_ok a _ Hp)).
Qed.

Lemma toggle_eq n f : toggle n f n = negb (f n).
Proof. unfold toggle. by rewrite decide_True. Qed.
Lemma toggle_ne n f n' : n' ≠ n → toggle n f n' = f n'.
Proof. intros. unfold toggle. by rewrite decide_False. Qed.

Lemma left_ne_right n : left_child n ≠ right_child n.
Proof. unfold left_child, right_child. intros [=]. lia. Qed.

(** Flipping the parent's flag accounts for a change of one node. *)
Lemma bits_flip sp f n :
  is_node n → 1 ≤ n.1 → bits_ok sp f → bits_ok (flip sp (index (parent n))) (toggle n f).
Proof.
  intros Hn H1 Hok n' Hn' Hlt. rewrite bit_flip, Hok by done.
  destruct (is_node_parent n Hn H1) as [Hp _].
  destruct (decide (parent n = n')) as [<-|Hne].
  - rewrite bool_decide_true by done. pose proof (left_ne_right (parent n)) as Hlr.
    destruct (sibling_children n) as [[Heq _]|[Heq _]]; rewrite <- Heq, toggle_eq, toggle_ne by congruence.
    + by destruct (f n), (f (right_child (parent n))).
    + by destruct (f n), (f (left_child (parent n))).
  - rewrite bool_decide_false by (intros Heq; apply Hne; by apply index_inj).
    rewrite xorb_false_r, !toggle_ne; [done|..]; intros <-; apply Hne; first [apply parent_right|apply parent_left].
Qed.

Lemma parent_sibling n : parent (sibling n) = parent n.
Proof. destruct (sibling_children n) as [[_ Hs]|[_ Hs]]; rewrite Hs; [apply parent_right|apply parent_left]. Qed.

(** Toggling a node or its sibling is the same to the flags. *)
Lemma toggle_sibling n f n' :
  is_node n → 1 ≤ n.1 →
  xorb (toggle (sibling n) f (left_child n')) (toggle (sibling n) f (right_child n')) =
  xorb (toggle n f (left_child n')) (toggle n f (right_child n')).
Proof.
  intros Hn H1. pose proof (left_ne_right n') as Hlr.
  destruct (decide (parent n = n')) as [<-|Hne].
  - destruct (sibling_children n) as [[Heq Hs]|[Heq Hs]]; rewrite <- Hs, <- Heq in Hlr |- *;
      rewrite !toggle_eq, !toggle_ne by congruence; by destruct (f n), (f (sibling n)).
  - assert (parent (sibling n) = parent n) as Hp.
    { apply parent_sibling. }
    rewrite !toggle_ne; [done|..]; intros Heq; apply Hne;
      apply (f_equal parent) in Heq; rewrite ?parent_left, ?parent_right in Heq; congruence.
Qed.

Lemma bits_ext sp f f' :
  (∀ n, is_node n → 1 ≤ n.1 → f' n = f n) → bits_ok sp f → bits_ok sp f'.
Proof.
  intros Hf Hok n Hn Hlt. destruct (is_node_children n Hn Hlt) as [Hl Hr].
  rewrite !Hf by (done || (simpl; destruct Hn; lia)). by apply Hok.
Qed.
End flags.

(** ** The abstract tree

    [lim] is the bucket of the root, [free] the free nodes, [used] the allocated
    ones with the size that was requested, and [held] the node an operation is
    working on. *)
Definition owns (free : gset tnode) (used : gmap tnode Z) (held : option tnode) (n : tnode) : Prop :=
  n ∈ free ∨ is_Some (used !! n) ∨ held = Some n.

Definition disjoint_nodes (n n' : tnode) : Prop :=
  offset n + size_of n.1 ≤ offset n' ∨ offset n' + size_of n'.1 ≤ offset n.
Definition covers (n : tnode) (x : Z) : Prop := offset n ≤ x < offset n + size_of n.1.

Record shape (lim : Z) (free : gset tnode) (used : gmap tnode Z) (held : option tnode) : Prop := {
  s_lim : 0 ≤ lim ≤ 27;
  s_node n : owns free used held n → is_node n ∧ lim ≤ n.1 ∧ offset n + size_of n.1 ≤ size_of lim;
  s_disjoint n n' : owns free used held n → owns free used held n' → n ≠ n' → disjoint_nodes n n';
  s_free_used n : n ∈ free → used !! n = None;
  s_held_free n : held = Some n → n ∉ free ∧ used !! n = None;
  s_merged n : n ∈ free → sibling n ∉ free;
  s_cover x : 0 ≤ x < size_of lim → ∃ n, owns free used held n ∧ covers n x
}.

(** The nodes that count as unused: the free ones, and the right sibling of the
    root, which does not exist yet. *)
Definition unused (lim : Z) (free : gset tnode) (n : tnode) : bool :=
  bool_decide (n ∈ free) || (0 <? lim) && bool_decide (n = (lim, 1)).

Definition root (lim : Z) : tnode := (lim, 0).

Section shapes.
Implicit Types (n : tnode) (lim : Z) (F : gset tnode) (U : gmap tnode Z) (h : option tnode).

Lemma size_pos n : is_node n → 16 ≤ size_of n.1.
Proof. intros [Hb _]. by apply size_of_ge. Qed.

Lemma offset_nonneg n : is_node n → 0 ≤ offset n.
Proof. intros Hn. pose proof (size_pos n Hn). destruct Hn as [_ Hk]. unfold offset. nia. Qed.

Lemma is_node_root lim : 0 ≤ lim ≤ 27 → is_node (root lim).
Proof. intros H. pose proof (pow_bound lim H). unfold is_node, root. simpl. lia. Qed.

(** A node that is not disjoint from another one and at least as deep lies in it. *)
Lemma nested n n' :
  is_node n → is_node n' → n.1 ≤ n'.1 → ¬ disjoint_nodes n n' →
  offset n ≤ offset n' ∧ offset n' + size_of n'.1 ≤ offset n + size_of n.1.
Proof.
  intros Hn Hn' Hle Hd. pose proof (size_pos n' Hn'). unfold disjoint_nodes, offset in *.
  assert (size_of n.1 = 2 ^ (n'.1 - n.1) * size_of n'.1) as Hs.
  { unfold size_of. destruct Hn', Hn. rewrite <- Z.pow_add_r by lia. f_equal. lia. }
  set (s := size_of n'.1) in *. set (q := 2 ^ (n'.1 - n.1)) in *. rewrite Hs in *. clearbody s q.
  set (k := n.2 * q). assert (k * s < (n'.2 + 1) * s ∧ n'.2 * s < (k + q) * s) as [H1 H2] by (unfold k; lia).
  apply Z.mul_lt_mono_pos_r in H1, H2; [|lia..]. unfold k in *. split; nia.
Qed.

(** Below the root, the virtual sibling is no node of the tree. *)
Lemma unused_real lim F U h n :
  shape lim F U h → owns F U h n → n ≠ (lim, 1).
Proof.
  intros S Ho ->. destruct (s_node _ _ _ _ S _ Ho) as (_&_&Hr). pose proof (s_lim _ _ _ _ S) as Hl.
  unfold offset in Hr. simpl in Hr. pose proof (size_of_ge lim Hl). lia.
Qed.

Lemma unused_insert lim F n n' :
  unused lim ({[n]} ∪ F) n' = if decide (n' = n) then true else unused lim F n'.
Proof.
  unfold unused. case_decide as Hd.
  - subst. by rewrite bool_decide_true by set_solver.
  - f_equal. apply bool_decide_ext. set_solver.
Qed.

Lemma unused_delete lim F n n' :
  n ≠ (lim, 1) → unused lim (F ∖ {[n]}) n' = if decide (n' = n) then false else unused lim F n'.
Proof.
  intros Hn. unfold unused. case_decide as Hd.
  - subst. rewrite bool_decide_false by set_solver. rewrite (bool_decide_false (n = (lim, 1))) by done. by rewrite andb_false_r.
  - f_equal. apply bool_decide_ext. set_solver.
Qed.

Lemma unused_free lim F n : n ≠ (lim, 1) → unused lim F n = bool_decide (n ∈ F).
Proof.
  intros Hn. unfold unused. rewrite (bool_decide_false (n = (lim, 1))) by done.
  by rewrite andb_false_r, orb_false_r.
Qed.

(** Adding and removing a free node toggles it. *)
Lemma toggle_insert lim F n n' :
  n ∉ F → n ≠ (lim, 1) → unused lim ({[n]} ∪ F) n' = toggle n (unused lim F) n'.
Proof.
  intros Hn Hv. rewrite unused_insert. unfold toggle. case_decide; [|done]. subst.
  rewrite unused_free by done. by rewrite bool_decide_false.
Qed.

Lemma toggle_delete lim F n n' :
  n ∈ F → n ≠ (lim, 1) → unused lim (F ∖ {[n]}) n' = toggle n (unused lim F) n'.
Proof.
  intros Hn Hv. rewrite unused_delete by done. unfold toggle. case_decide; [|done]. subst.
  rewrite unused_free by done. by rewrite bool_decide_true.
Qed.
End shapes.

Section replacing.
Implicit Types (n m : tnode) (lim : Z) (F : gset tnode) (U : gmap tnode Z) (h : option tnode).

Lemma disjoint_covers n n' :
  is_node n → is_node n' → disjoint_nodes n n' ↔ ∀ x, covers n x → ¬ covers n' x.
Proof.
  intros Hn Hn'. pose proof (size_pos n Hn). pose proof (size_pos n' Hn').
  unfold disjoint_nodes, covers. split; [lia|]. intros H'.
  destruct (Z.le_gt_cases (offset n) (offset n')).
  - specialize (H' (offset n')). lia.
  - specialize (H' (offset n)). lia.
Qed.

(** Nodes that share an address are nested. *)
Lemma share_nested n n' x y :
  is_node n → is_node n' → n.1 ≤ n'.1 → covers n x → covers n' x → covers n' y → covers n y.
Proof.
  intros Hn Hn' Hle Hx Hx' Hy. destruct (nested n n' Hn Hn' Hle) as [H1 H2].
  - intros Hd. by apply (proj1 (disjoint_covers n n' Hn Hn') Hd x).
  - unfold covers in *. lia.
Qed.

(** Replacing the owned nodes [old] by [new] over the same range, possibly
    extended with the range of a larger root. *)
Lemma shape_replace lim lim' F F' U U' h h' (old new : list tnode) :
  shape lim F U h → 0 ≤ lim' ≤ lim →
  (∀ n, n ∈ old → owns F U h n) →
  (∀ n, owns F' U' h' n ↔ (owns F U h n ∧ n ∉ old) ∨ n ∈ new) →
  (∀ n, n ∈ new → is_node n ∧ lim' ≤ n.1) →
  (∀ n n', n ∈ new → n' ∈ new → n ≠ n' → disjoint_nodes n n') →
  (∀ x, (∃ n, n ∈ new ∧ covers n x) ↔ (∃ n, n ∈ old ∧ covers n x) ∨ size_of lim ≤ x < size_of lim') →
  (∀ n, n ∈ F' → U' !! n = None) →
  (∀ n, h' = Some n → n ∉ F' ∧ U' !! n = None) →
  (∀ n, n ∈ F' → sibling n ∉ F') →
  shape lim' F' U' h'.
Proof.
  intros S Hlim Hold Howns Hnew Hnd Hcov Hfu Hhf Hm.
  pose proof (s_lim _ _ _ _ S) as Hl. pose proof (size_of_ge lim Hl) as Hsz.
  assert (size_of lim ≤ size_of lim') as Hle by (unfold size_of; apply Z.pow_le_mono_r; lia).
  assert (Hkept : ∀ m x, owns F U h m → covers m x → 0 ≤ x < size_of lim).
  { intros m x Hm' Hx. destruct (s_node _ _ _ _ S m Hm') as (Hn&_&Hr). pose proof (offset_nonneg m Hn).
    unfold covers in Hx. lia. }
  assert (Hinside : ∀ n, n ∈ new → ∀ x, covers n x → 0 ≤ x < size_of lim').
  { intros n Hn x Hx. destruct (proj1 (Hcov x)) as [(o&Ho&Hox)|]; [by exists n| |lia].
    pose proof (Hkept o x (Hold o Ho) Hox). lia. }
  split; [lia|..|done|done|done|].
  - intros n [[Hn _]|Hn]%Howns.
    + destruct (s_node _ _ _ _ S n Hn) as (?&?&?). split_and!; [done|lia..].
    + destruct (Hnew n Hn) as [Hnode Hb]. split_and!; [done|done|].
      pose proof (size_pos n Hnode). pose proof (Hinside n Hn (offset n + size_of n.1 - 1)) as Hx.
      unfold covers in Hx. lia.
  - assert (Hmixed : ∀ m n, owns F U h m → m ∉ old → n ∈ new → disjoint_nodes m n).
    { intros m n Hm' Hno Hn. destruct (s_node _ _ _ _ S m Hm') as (Hmn&_). destruct (Hnew n Hn) as [Hnn _].
      apply disjoint_covers; [done..|]. intros x Hx Hx'.
      destruct (proj1 (Hcov x)) as [(o&Ho&Hox)|Hbig]; [by exists n| |].
      - assert (m ≠ o) as Hmo by (by intros ->).
        pose proof (s_disjoint _ _ _ _ S m o Hm' (Hold o Ho) Hmo) as Hd.
        destruct (s_node _ _ _ _ S o (Hold o Ho)) as (Hon&_). pose proof (proj1 (disjoint_covers m o Hmn Hon) Hd x Hx). done.
      - pose proof (Hkept m x Hm' Hx). lia. }
    intros n n' [[Hn Ho]|Hn]%Howns [[Hn' Ho']|Hn']%Howns Hne.
    + by apply (s_disjoint _ _ _ _ S).
    + by apply Hmixed.
    + destruct (Hmixed n' n Hn' Ho' Hn); [by right|by left].
    + by apply Hnd.
  - intros x Hx. destruct (Z.lt_ge_cases x (size_of lim)) as [Hlt|Hge].
    + destruct (s_cover _ _ _ _ S x) as (n&Hn&Hc); [lia|].
      destruct (decide (n ∈ old)) as [Hin|Hin].
      * destruct (proj2 (Hcov x)) as (n'&Hn'&Hc'); [left; by exists n|]. exists n'. split; [|done].
        apply Howns. by right.
      * exists n. split; [|done]. apply Howns. by left.
    + destruct (proj2 (Hcov x)) as (n'&Hn'&Hc'); [right; lia|]. exists n'. split; [|done].
      apply Howns. by right.
Qed.

(** The owned nodes stay the same. *)
Lemma shape_same lim F F' U U' h h' :
  shape lim F U h → (∀ n, owns F' U' h' n ↔ owns F U h n) →
  (∀ n, n ∈ F' → U' !! n = None) → (∀ n, h' = Some n → n ∉ F' ∧ U' !! n = None) →
  (∀ n, n ∈ F' → sibling n ∉ F') → shape lim F' U' h'.
Proof.
  intros S Ho ???. pose proof (s_lim _ _ _ _ S).
  apply (shape_replace lim lim F F' U U' h h' [] []); try done; try lia.
  - intros n Hn. by apply not_elem_of_nil in Hn.
  - intros n. rewrite Ho. split; [intros; left; split; [done|apply not_elem_of_nil]|].
    intros [[? _]|Hn]; [done|]. by apply not_elem_of_nil in Hn.
  - intros n Hn. by apply not_elem_of_nil in Hn.
  - intros n n' Hn. by apply not_elem_of_nil in Hn.
  - intros x. split; [intros (n&Hn&_)|intros [(n&Hn&_)|?]; [|lia]]; by apply not_elem_of_nil in Hn.
Qed.

Lemma sibling_sibling n : sibling (sibling n) = n.
Proof.
  destruct n as [b k]. unfold sibling. cbn [fst snd]. f_equal. destruct (Z.even k) eqn:He.
  - rewrite Z.even_add, He. simpl. lia.
  - rewrite Z.even_sub, He. simpl. lia.
Qed.

Lemma sibling_ne n : sibling n ≠ n.
Proof. destruct n as [b k]. unfold sibling. cbn. intros [=]. destruct (Z.even k); lia. Qed.

Lemma sibling_left n : sibling (left_child n) = right_child n.
Proof.
  unfold sibling, left_child, right_child. cbn [fst snd]. by rewrite Z.even_mul.
Qed.
Lemma sibling_right n : sibling (right_child n) = left_child n.
Proof. by rewrite <- sibling_left, sibling_sibling. Qed.

(** The children partition their parent. *)
Lemma covers_children n x :
  is_node n → n.1 < 27 → covers n x ↔ covers (left_child n) x ∨ covers (right_child n) x.
Proof.
  intros Hn Hlt. unfold covers, offset, left_child, right_child. cbn [fst snd].
  rewrite (size_of_child n.1) by lia. pose proof (size_of_ge (n.1 + 1) ltac:(destruct Hn; lia)). lia.
Qed.

Lemma disjoint_children n : is_node n → n.1 < 27 → disjoint_nodes (left_child n) (right_child n).
Proof.
  intros Hn Hlt. left. unfold offset, left_child, right_child. cbn [fst snd]. lia.
Qed.

Lemma shape_take lim F U n : shape lim F U None → n ∈ F → shape lim (F ∖ {[n]}) U (Some n).
Proof.
  intros S Hn. apply (shape_same lim F _ U U None); [done|..].
  - intros m. unfold owns. rewrite elem_of_difference, elem_of_singleton. split; [naive_solver|].
    destruct (decide (m = n)); naive_solver.
  - intros m Hm. apply (s_free_used _ _ _ _ S). set_solver.
  - intros m [= <-]. split; [set_solver|]. by apply (s_free_used _ _ _ _ S).
  - intros m Hm Hs. apply (s_merged _ _ _ _ S m); set_solver.
Qed.

Lemma shape_give lim F U n :
  shape lim F U (Some n) → sibling n ∉ F → shape lim ({[n]} ∪ F) U None.
Proof.
  intros S Hn. destruct (s_held_free _ _ _ _ S n eq_refl) as [Hnf Hnu].
  apply (shape_same lim F _ U U (Some n)); [done|..|done|].
  - intros m. unfold owns. rewrite elem_of_union, elem_of_singleton. naive_solver.
  - intros m [->%elem_of_singleton|Hm]%elem_of_union; [done|]. by apply (s_free_used _ _ _ _ S).
  - intros m. rewrite !elem_of_union, !elem_of_singleton. intros [->|Hm] [Hs|Hs].
    + by apply sibling_ne in Hs.
    + done.
    + apply Hn. rewrite <- Hs, sibling_sibling. done.
    + by apply (s_merged _ _ _ _ S m).
Qed.

Lemma shape_use lim F U n r :
  shape lim F U (Some n) → shape lim F (<[n := r]> U) None.
Proof.
  intros S. destruct (s_held_free _ _ _ _ S n eq_refl) as [Hnf Hnu].
  apply (shape_same lim F _ U _ (Some n)); [done|..|done|by apply (s_merged _ _ _ _ S)].
  - intros m. unfold owns. rewrite lookup_insert_is_Some. destruct (decide (n = m)); naive_solver.
  - intros m Hm. rewrite lookup_insert_ne by (by intros ->). by apply (s_free_used _ _ _ _ S).
Qed.

Lemma shape_unuse lim F U n r :
  shape lim F U None → U !! n = Some r → shape lim F (delete n U) (Some n).
Proof.
  intros S Hn. apply (shape_same lim F _ U _ None); [done|..|by apply (s_merged _ _ _ _ S)].
  - intros m. unfold owns. rewrite lookup_delete_is_Some. destruct (decide (n = m)) as [<-|]; naive_solver.
  - intros m Hm. rewrite lookup_delete_None. right. by apply (s_free_used _ _ _ _ S).
  - intros m [= <-]. split; [|by rewrite lookup_delete_eq]. intros Hf.
    by rewrite (s_free_used _ _ _ _ S n Hf) in Hn.
Qed.
End replacing.

Section reshaping.
Implicit Types (n m : tnode) (lim : Z) (F : gset tnode) (U : gmap tnode Z) (h : option tnode).

(** A node inside an owned one is not owned. *)
Lemma not_owned_inside lim F U h n m x :
  shape lim F U h → owns F U h n → is_node m → m ≠ n → covers n x → covers m x → ¬ owns F U h m.
Proof.
  intros S Hn Hm Hne Hx Hx' Hom. pose proof (s_disjoint _ _ _ _ S m n Hom Hn Hne) as Hd.
  destruct (s_node _ _ _ _ S n Hn) as [Hnn _]. by apply (proj1 (disjoint_covers m n Hm Hnn) Hd x).
Qed.

Lemma covers_offset n : is_node n → covers n (offset n).
Proof. intros Hn. pose proof (size_pos n Hn). unfold covers. lia. Qed.

Lemma child_ne n : left_child n ≠ n ∧ right_child n ≠ n.
Proof. destruct n as [b k]. split; intros [=]; lia. Qed.

Lemma children_not_owned lim F U h n :
  shape lim F U h → owns F U h n → is_node n → n.1 < 27 →
  ¬ owns F U h (left_child n) ∧ ¬ owns F U h (right_child n).
Proof.
  intros S Ho Hn Hlt. destruct (is_node_children n Hn Hlt) as [Hl Hr]. destruct (child_ne n).
  split; (eapply not_owned_inside; [exact S|exact Ho|done|done| |by apply covers_offset]);
    apply covers_children; auto using covers_offset.
Qed.

Lemma shape_split lim F U n :
  shape lim F U (Some n) → n.1 < 27 → shape lim ({[right_child n]} ∪ F) U (Some (left_child n)).
Proof.
  intros S Hlt. destruct (s_held_free _ _ _ _ S n eq_refl) as [Hnf Hnu].
  assert (owns F U (Some n) n) as Ho by (by right; right).
  destruct (s_node _ _ _ _ S n Ho) as (Hn&Hb&Hr). destruct (is_node_children n Hn Hlt) as [Hl Hri].
  destruct (children_not_owned lim F U _ n S Ho Hn Hlt) as [Hnl Hnr].
  destruct (child_ne n) as [Hne1 Hne2]. pose proof (left_ne_right n) as Hlr.
  apply (shape_replace lim lim F _ U U (Some n) _ [n] [left_child n; right_child n]); [done|pose proof (s_lim _ _ _ _ S); lia|..].
  - by intros m ->%list_elem_of_singleton.
  - intros m. unfold owns in *. rewrite list_elem_of_singleton, elem_of_union, elem_of_singleton, elem_of_cons, list_elem_of_singleton.
    rewrite !(inj_iff Some). destruct (decide (m = n)) as [->|].
    + rewrite Hnu, is_Some_alt. intuition congruence.
    + intuition congruence.
  - intros m [->| ->%list_elem_of_singleton]%elem_of_cons; (split; [done|simpl; lia]).
  - pose proof (disjoint_children n Hn Hlt) as Hd.
    intros m m' [->| ->%list_elem_of_singleton]%elem_of_cons [->| ->%list_elem_of_singleton]%elem_of_cons Hne; try done.
  - intros x. pose proof (covers_children n x Hn Hlt) as Hc. split.
    + intros (m&Hm&Hx). left. exists n. split; [by left|]. apply Hc.
      apply elem_of_cons in Hm as [->| ->%list_elem_of_singleton]; auto.
    + intros [(m&->%list_elem_of_singleton&Hx)|?]; [|lia]. apply Hc in Hx as [Hx|Hx].
      * exists (left_child n). split; [by left|done].
      * exists (right_child n). split; [by right; left|done].
  - intros m [->%elem_of_singleton|Hm]%elem_of_union; [|by apply (s_free_used _ _ _ _ S)].
    apply eq_None_not_Some. intros Hs. apply Hnr. by right; left.
  - intros m [= <-]. split.
    + intros [Heq%elem_of_singleton|Hm]%elem_of_union; [done|]. apply Hnl. by left.
    + apply eq_None_not_Some. intros Hs. apply Hnl. by right; left.
  - assert (left_child n ∉ F) as Hlf by (intros Hm; apply Hnl; by left).
    intros m. rewrite !elem_of_union, !elem_of_singleton. intros [->|Hm] [Hs|Hs].
    + by apply sibling_ne in Hs.
    + rewrite sibling_right in Hs. done.
    + apply Hlf. rewrite <- sibling_right, <- Hs, sibling_sibling. done.
    + by apply (s_merged _ _ _ _ S m).
Qed.

Lemma covers_sibling n x :
  is_node n → 1 ≤ n.1 → covers (parent n) x ↔ covers n x ∨ covers (sibling n) x.
Proof.
  intros Hn H1. destruct (is_node_parent n Hn H1) as [Hp Hlt].
  rewrite (covers_children _ x Hp Hlt). destruct (sibling_children n) as [[<- <-]|[<- <-]]; tauto.
Qed.

Lemma shape_merge lim F U n :
  shape lim F U (Some n) → lim < n.1 → sibling n ∈ F →
  shape lim (F ∖ {[sibling n]}) U (Some (parent n)).
Proof.
  intros S Hlt Hs. destruct (s_held_free _ _ _ _ S n eq_refl) as [Hnf Hnu].
  assert (owns F U (Some n) n) as Ho by (by right; right).
  assert (owns F U (Some n) (sibling n)) as Hos by (by left).
  destruct (s_node _ _ _ _ S n Ho) as (Hn&Hb&Hr). pose proof (s_lim _ _ _ _ S) as Hlim.
  destruct (is_node_parent n Hn ltac:(lia)) as [Hp Hp27].
  assert (parent n ≠ n ∧ parent n ≠ sibling n) as [Hne1 Hne2].
  { destruct n as [b k]. unfold parent, sibling. cbn. split; intros [=]; lia. }
  assert (¬ owns F U (Some n) (parent n)) as Hnp.
  { apply (not_owned_inside lim F U _ n _ (offset n)); [done..| |]; [by apply covers_offset|].
    apply covers_sibling; [done|lia|]. left. by apply covers_offset. }
  pose proof (sibling_ne n) as Hsn.
  apply (shape_replace lim lim F _ U U (Some n) _ [n; sibling n] [parent n]); [done|lia|..].
  - by intros m [->| ->%list_elem_of_singleton]%elem_of_cons.
  - intros m. unfold owns in *. rewrite elem_of_difference, elem_of_cons, !list_elem_of_singleton, elem_of_singleton.
    destruct (decide (m = n)) as [->|]; [|destruct (decide (m = sibling n)) as [->|]]; [..|naive_solver].
    + rewrite Hnu. naive_solver.
    + rewrite (s_free_used _ _ _ _ S _ Hs). naive_solver.
  - intros m ->%list_elem_of_singleton. split; [done|simpl; lia].
  - intros m m' ->%list_elem_of_singleton ->%list_elem_of_singleton. done.
  - intros x. pose proof (covers_sibling n x Hn ltac:(lia)) as Hc. split.
    + intros (m&->%list_elem_of_singleton&Hx). left. apply Hc in Hx as [Hx|Hx];
        [exists n|exists (sibling n)]; (split; [set_solver|done]).
    + intros [(m&Hm&Hx)|?]; [|lia]. exists (parent n). split; [by left|]. apply Hc.
      apply elem_of_cons in Hm as [->| ->%list_elem_of_singleton]; auto.
  - intros m Hm. apply (s_free_used _ _ _ _ S). set_solver.
  - intros m [= <-]. split.
    + intros Hm. apply Hnp. left. set_solver.
    + apply eq_None_not_Some. intros Hm. apply Hnp. by right; left.
  - intros m Hm Hm'. apply (s_merged _ _ _ _ S m); set_solver.
Qed.

Lemma covers_root lim x : covers (root lim) x ↔ 0 ≤ x < size_of lim.
Proof. unfold covers, offset, root. cbn [fst snd]. lia. Qed.

Lemma shape_init : shape 27 {[root 27]} ∅ None.
Proof.
  assert (Ho : ∀ n, owns {[root 27]} ∅ None n → n = root 27).
  { intros n [?%elem_of_singleton|[[? Hs]|?]]; [done| |done]. by rewrite lookup_empty in Hs. }
  split; [lia|..].
  - intros n ->%Ho. split; [by apply is_node_root|]. unfold offset, root. cbn [fst snd]. lia.
  - intros n n' ->%Ho ->%Ho. done.
  - done.
  - done.
  - intros n ->%elem_of_singleton ?%elem_of_singleton. by apply (sibling_ne (root 27)).
  - intros x Hx. exists (root 27). split; [left; by apply elem_of_singleton|]. by apply covers_root.
Qed.

Lemma root_parent lim : 1 ≤ lim → parent (root lim) = root (lim - 1).
Proof. done. Qed.

Lemma root_sibling lim : sibling (root lim) = (lim, 1).
Proof. done. Qed.

Lemma size_of_grow lim : 1 ≤ lim ≤ 31 → size_of (lim - 1) = 2 * size_of lim.
Proof. intros. rewrite (size_of_child (lim - 1)) by lia. by replace (lim - 1 + 1) with lim by lia. Qed.

Lemma shape_grow_free lim F U :
  shape lim F U None → 1 ≤ lim → root lim ∈ F →
  shape (lim - 1) ({[root (lim - 1)]} ∪ F ∖ {[root lim]}) U None ∧
  (∀ n, owns F U None n → n = root lim).
Proof.
  intros S H1 Hr. pose proof (s_lim _ _ _ _ S) as Hl. pose proof (size_of_ge lim Hl) as Hsz.
  pose proof (is_node_root lim Hl) as Hnr. pose proof (is_node_root (lim - 1) ltac:(lia)) as Hnr'.
  assert (Honly : ∀ n, owns F U None n → n = root lim).
  { intros n Hn. destruct (decide (n = root lim)) as [|Hne]; [done|]. exfalso.
    destruct (s_node _ _ _ _ S n Hn) as (Hnn&_&Hin). pose proof (offset_nonneg n Hnn). pose proof (size_pos n Hnn).
    apply (not_owned_inside lim F U None (root lim) n (offset n)) in Hn; [done|done|by left|done|done| |by apply covers_offset].
    apply covers_root. lia. }
  split; [|done].
  assert (root (lim - 1) ≠ root lim) as Hne by (intros [=]; lia).
  apply (shape_replace lim (lim - 1) F _ U U None None [root lim] [root (lim - 1)]); [done|lia|..|done|].
  - intros n ->%list_elem_of_singleton. by left.
  - intros n. rewrite !list_elem_of_singleton. unfold owns. rewrite elem_of_union, elem_of_difference, !elem_of_singleton.
    destruct (decide (n = root lim)) as [->|]; [|naive_solver].
    rewrite (s_free_used _ _ _ _ S _ Hr). naive_solver.
  - intros n ->%list_elem_of_singleton. split; [done|simpl; lia].
  - intros n n' ->%list_elem_of_singleton ->%list_elem_of_singleton. done.
  - intros x. pose proof (size_of_grow lim ltac:(lia)). split.
    + intros (n&->%list_elem_of_singleton&Hx). rewrite covers_root in Hx. destruct (Z.lt_ge_cases x (size_of lim)); [|right; lia].
      left. exists (root lim). split; [by left|]. apply covers_root. lia.
    + intros Hx. exists (root (lim - 1)). split; [by left|]. apply covers_root.
      destruct Hx as [(n&->%list_elem_of_singleton&Hx)|]; [rewrite covers_root in Hx|]; lia.
  - intros n Hn. apply eq_None_not_Some. intros Hs.
    assert (n = root lim) as -> by (apply Honly; by right; left).
    rewrite (s_free_used _ _ _ _ S _ Hr) in Hs. by destruct Hs.
  - assert (F = {[root lim]}) as ->.
    { apply set_eq. intros n. rewrite elem_of_singleton. split; [intros; apply Honly; by left|by intros ->]. }
    intros n Hn Hs. assert (n = root (lim - 1)) as -> by set_solver.
    assert (sibling (root (lim - 1)) = root (lim - 1)) as Heq by set_solver. by apply sibling_ne in Heq.
Qed.

Lemma shape_grow_used lim F U :
  shape lim F U None → 1 ≤ lim → root lim ∉ F → shape (lim - 1) ({[(lim, 1)]} ∪ F) U None.
Proof.
  intros S H1 Hr. pose proof (s_lim _ _ _ _ S) as Hl. pose proof (size_of_ge lim Hl) as Hsz.
  pose proof (is_node_root lim Hl) as Hnr. pose proof (is_node_sibling _ Hnr H1) as Hns. rewrite root_sibling in Hns.
  assert (Hv : ¬ owns F U None (lim, 1)) by (intros Ho; by apply (unused_real lim F U None _ S Ho)).
  pose proof (size_of_grow lim ltac:(lia)) as Hg.
  assert (Hc : ∀ x, covers (lim, 1) x ↔ size_of lim ≤ x < size_of (lim - 1)).
  { intros x. unfold covers, offset. cbn [fst snd]. lia. }
  apply (shape_replace lim (lim - 1) F _ U U None None [] [(lim, 1)]); [done|lia|..|done|].
  - intros n Hn. by apply not_elem_of_nil in Hn.
  - intros n. rewrite list_elem_of_singleton. unfold owns in *. rewrite elem_of_union, elem_of_singleton.
    pose proof (not_elem_of_nil n). naive_solver.
  - intros n ->%list_elem_of_singleton. split; [done|simpl; lia].
  - intros n n' ->%list_elem_of_singleton ->%list_elem_of_singleton. done.
  - intros x. split.
    + intros (n&->%list_elem_of_singleton&Hx). right. by apply Hc.
    + intros [(n&Hn&_)|Hx]; [by apply not_elem_of_nil in Hn|]. exists (lim, 1). split; [by left|]. by apply Hc.
  - intros n [->%elem_of_singleton|Hn]%elem_of_union; [|by apply (s_free_used _ _ _ _ S)].
    apply eq_None_not_Some. intros Hs. apply Hv. by right; left.
  - intros n. rewrite !elem_of_union, !elem_of_singleton. intros [->|Hn] [Hs|Hs].
    + by apply sibling_ne in Hs.
    + apply Hr. done.
    + apply Hr. rewrite <- (sibling_sibling n), Hs in Hn. done.
    + by apply (s_merged _ _ _ _ S n).
Qed.
End reshaping.

(** ** The free lists of a tree *)

Definition addr (base : Z) (n : tnode) : Z := base + offset n.

Record lists_at (m : mem) (base lim : Z) (F : gset tnode) (L : gmap Z (list Z)) : Prop := {
  l_family : family m L;
  l_heads h l : L !! h = Some l → ∃ b, lim ≤ b ≤ 27 ∧ h = bucket_addr b;
  l_entries b : lim ≤ b ≤ 27 → ∃ l, L !! bucket_addr b = Some l ∧
    ∀ p, p ∈ l ↔ ∃ k, (b, k) ∈ F ∧ p = addr base (b, k)
}.
Definition lists_ok (m : mem) (base lim : Z) (F : gset tnode) : Prop := ∃ L, lists_at m base lim F L.

(** An address that is no part of a free list. *)
Definition foreign (base : Z) (F : gset tnode) (p : Z) : Prop :=
  0 ≤ p ∧ ∀ n, n ∈ F → apart16 p (addr base n).

(** What every operation on the lists leaves alone. *)
Record kept (m m' : mem) (P : Z → Prop) : Prop := {
  k_same p : P p → same_node m m' p;
  k_lo : lo m' = lo m;
  k_hi : hi m' = hi m
}.

Section bounds.
Context {A B : Type}.

Definition keeps_bounds {A} (x : M mem A) : Prop :=
  ∀ m v m', x m = Ok (v, m') → lo m' = lo m ∧ hi m' = hi m.

Lemma keeps_bind (x : M mem A) (f : A → M mem B) :
  keeps_bounds x → (∀ v, keeps_bounds (f v)) → keeps_bounds (bind x f).
Proof.
  intros Hx Hf m v m' (a&m1&H1&H2)%bind_inv. destruct (Hx _ _ _ H1), (Hf _ _ _ _ H2).
  split; congruence.
Qed.
End bounds.

Lemma keeps_load p : keeps_bounds (load p).
Proof. intros m v m'. unfold load, gets_some. case_match; [|done]. by intros [= _ <-]. Qed.
Lemma keeps_store p v : keeps_bounds (store p v).
Proof. intros m u m'. unfold store, bind, gets_some. destruct (valid m p); [|done]. by intros [= _ <-]. Qed.
Lemma keeps_init h : keeps_bounds (list_init h).
Proof. apply keeps_bind; intros; apply keeps_store. Qed.
Lemma keeps_push h e : keeps_bounds (list_push h e).
Proof. apply keeps_bind; [apply keeps_load|]. intros. repeat (apply keeps_bind; [apply keeps_store|intros]). apply keeps_store. Qed.
Lemma keeps_remove e : keeps_bounds (list_remove e).
Proof. do 2 (apply keeps_bind; [apply keeps_load|intros]). apply keeps_bind; [apply keeps_store|intros]. apply keeps_store. Qed.

Section free_lists.
Implicit Types (m : mem) (n : tnode) (lim base : Z) (F : gset tnode) (L : gmap Z (list Z)).

Lemma addr_apart base n n' :
  is_node n → is_node n' → disjoint_nodes n n' → apart16 (addr base n) (addr base n').
Proof.
  intros Hn Hn' Hd. pose proof (size_pos n Hn). pose proof (size_pos n' Hn').
  unfold disjoint_nodes, apart16, addr in *. lia.
Qed.

Lemma head_apart p b : 0 ≤ p → 0 ≤ b ≤ 27 → apart16 p (bucket_addr b).
Proof. intros. unfold apart16, bucket_addr, sizeof_list_t. lia. Qed.

Lemma bucket_addr_inj b b' : bucket_addr b = bucket_addr b' → b = b'.
Proof. unfold bucket_addr, sizeof_list_t. lia. Qed.

Lemma head_valid m b : 0 ≤ b ≤ 27 → node_valid m (bucket_addr b).
Proof.
  intros Hb. unfold node_valid, valid, bucket_addr, next_field, sizeof_list_t.
  change (BUCKET_COUNT - 1) with 27.
  split; apply orb_true_iff; left; apply andb_true_iff; rewrite Z.leb_le, Z.ltb_lt; lia.
Qed.

Lemma addr_inj base n n' : n.1 = n'.1 → is_node n → addr base n = addr base n' → n = n'.
Proof.
  intros Hb Hn. pose proof (size_pos n Hn). destruct n as [b k], n' as [b' k']. unfold addr, offset in *.
  simpl in *. subst b'. intros Heq. f_equal. nia.
Qed.

Lemma foreign_apart m base lim F L p :
  0 ≤ lim → lists_at m base lim F L → foreign base F p → apart_from L p.
Proof.
  intros Hlim HL [Hp Hf] q (h&l&Hl&Hq). destruct (l_heads _ _ _ _ _ HL h l Hl) as (b&Hb&->).
  apply elem_of_cons in Hq as [->|Hq]; [by apply head_apart; lia|].
  destruct (l_entries _ _ _ _ _ HL b Hb) as (l'&Hl'&He). assert (l' = l) as -> by congruence.
  apply He in Hq as (k&Hk&->). by apply Hf.
Qed.

Lemma lists_push m base lim F n :
  0 ≤ lim ≤ n.1 → lists_ok m base lim F → is_node n → n ∉ F → node_valid m (addr base n) →
  foreign base F (addr base n) →
  ∃ m', list_push (bucket_addr n.1) (addr base n) m = Ok (tt, m') ∧
    lists_ok m' base lim ({[n]} ∪ F) ∧
    kept m m' (λ p, foreign base ({[n]} ∪ F) p).
Proof.
  intros Hlim [L HL] Hn HnF Hval Hfor. pose proof Hn as [Hb Hk].
  destruct (l_entries _ _ _ _ _ HL n.1 ltac:(lia)) as (l&Hl&He).
  destruct (family_push m L (bucket_addr n.1) l (addr base n) (l_family _ _ _ _ _ HL) Hl Hval) as (m'&Hrun&Hf&Hsame&Hlive).
  { by eapply foreign_apart; [|exact HL|]; [lia|]. }
  exists m'. cbn in Hrun. split_and!; [done|..].
  - exists (<[bucket_addr n.1 := l ++ [addr base n]]> L). split; [done|..].
    + intros h l' [[<- <-]|[_ Hl']]%lookup_insert_Some; [exists n.1; split; [lia|done]|].
      by eapply l_heads.
    + intros b Hb'. destruct (decide (b = n.1)) as [->|Hne].
      * rewrite lookup_insert_eq. eexists. split; [done|]. intros p.
        rewrite elem_of_app, list_elem_of_singleton, He. split.
        -- intros [(k&Hk'&->)| ->]; [exists k; split; [set_solver|done]|].
           exists n.2. rewrite <- surjective_pairing. split; [set_solver|done].
        -- intros (k&[Heq%elem_of_singleton|Hk']%elem_of_union&->); [right; by rewrite <- Heq|left; eauto].
      * destruct (l_entries _ _ _ _ _ HL b Hb') as (l'&Hl'&He'). exists l'.
        rewrite lookup_insert_ne by (intros Heq%bucket_addr_inj; done). split; [done|]. intros p. rewrite He'.
        split; intros (k&Hk'&->); exists k; (split; [|done]); [set_solver|].
        apply elem_of_union in Hk' as [Heq%elem_of_singleton|]; [|done]. by subst n.
  - destruct (keeps_push _ _ _ _ _ Hrun) as [Hlo Hhi]. split; [|done|done]. intros p [Hp Hpf].
    apply Hsame; [apply Hpf; set_solver|]. eapply foreign_apart; [|exact HL|]; [lia|].
    split; [done|]. intros n' Hn'. apply Hpf. set_solver.
Qed.

Lemma lists_remove m base lim F n :
  0 ≤ lim ≤ n.1 → lists_ok m base lim F → (∀ n', n' ∈ F → is_node n') → n ∈ F →
  ∃ m', list_remove (addr base n) m = Ok (tt, m') ∧ lists_ok m' base lim (F ∖ {[n]}) ∧
    kept m m' (λ p, foreign base F p).
Proof.
  intros Hlim [L HL] Hnodes HnF. pose proof (Hnodes n HnF) as Hn. pose proof Hn as [Hb Hk].
  destruct (l_entries _ _ _ _ _ HL n.1 ltac:(lia)) as (l&Hl&He).
  assert (addr base n ∈ l) as Hin by (apply He; exists n.2; by rewrite <- surjective_pairing).
  apply list_elem_of_split in Hin as (l1&l2&->).
  destruct (family_del m L (bucket_addr n.1) l1 (addr base n) l2 (l_family _ _ _ _ _ HL) Hl) as (m'&Hrun&Hf&Hsame&Hlive).
  assert (NoDup (l1 ++ addr base n :: l2)) as Hnd.
  { destruct (proj1 (l_family _ _ _ _ _ HL) _ _ Hl) as (Ha&_). apply all_apart_NoDup in Ha. by apply NoDup_cons in Ha as [_ ?]. }
  exists m'. cbn in Hrun. split_and!; [done|..].
  - exists (<[bucket_addr n.1 := l1 ++ l2]> L). split; [done|..].
    + intros h l' [[<- <-]|[_ Hl']]%lookup_insert_Some; [exists n.1; split; [lia|done]|].
      by eapply l_heads.
    + intros b Hb'. destruct (decide (b = n.1)) as [->|Hne].
      * rewrite lookup_insert_eq. eexists. split; [done|]. intros p.
        rewrite <- Permutation_middle in Hnd. apply NoDup_cons in Hnd as [Hni _]. split.
        -- intros Hp. assert (p ∈ l1 ++ addr base n :: l2) as Hp' by set_solver.
           apply He in Hp' as (k&Hk'&->). exists k. split; [|done]. apply elem_of_difference. split; [done|].
           intros Heq%elem_of_singleton. apply Hni. by rewrite <- Heq.
        -- intros (k&[Hk' Hne]%elem_of_difference&->).
           assert (addr base (n.1, k) ∈ l1 ++ addr base n :: l2) as Hp' by (apply He; eauto).
           rewrite elem_of_app, elem_of_cons in Hp'. rewrite elem_of_app.
           destruct Hp' as [?|[Heq|?]]; [by left| |by right]. exfalso. apply Hne, elem_of_singleton.
           apply (addr_inj base); [done|by apply Hnodes|done].
      * destruct (l_entries _ _ _ _ _ HL b Hb') as (l'&Hl'&He'). exists l'.
        rewrite lookup_insert_ne by (intros Heq%bucket_addr_inj; done). split; [done|]. intros p. rewrite He'.
        split; intros (k&Hk'&->); exists k; (split; [|done]).
        -- apply elem_of_difference. split; [done|]. intros Heq%elem_of_singleton. by subst n.
        -- by apply elem_of_difference in Hk' as [? _].
  - destruct (keeps_remove _ _ _ _ Hrun) as [Hlo Hhi]. split; [|done|done]. intros p Hp.
    apply Hsame. eapply foreign_apart; [|exact HL|done]. lia.
Qed.

Lemma lists_init m base lim F :
  1 ≤ lim ≤ 27 → 0 ≤ base → lists_ok m base lim F → (∀ n, n ∈ F → is_node n ∧ lim ≤ n.1) →
  ∃ m', list_init (bucket_addr (lim - 1)) m = Ok (tt, m') ∧ lists_ok m' base (lim - 1) F ∧
    kept m m' (λ p, 0 ≤ p).
Proof.
  intros Hlim Hbase [L HL] Hnodes.
  destruct (family_init m L (bucket_addr (lim - 1)) (l_family _ _ _ _ _ HL)) as (m'&Hrun&Hf&Hsame&Hlive).
  { apply head_valid. lia. }
  { intros q (h&l&[_ Hl]%lookup_delete_Some&Hq). destruct (l_heads _ _ _ _ _ HL h l Hl) as (b&Hb&->).
    apply elem_of_cons in Hq as [->|Hq].
    - cbn. unfold apart16, bucket_addr, sizeof_list_t. lia.
    - destruct (l_entries _ _ _ _ _ HL b Hb) as (l'&Hl'&He). assert (l' = l) as -> by congruence.
      apply He in Hq as (k&Hk&->). apply apart_sym16, head_apart; [|lia].
      destruct (Hnodes _ Hk) as [Hn _]. pose proof (offset_nonneg _ Hn). unfold addr. lia. }
  exists m'. cbn in Hrun. split_and!; [done|..].
  - exists (<[bucket_addr (lim - 1) := []]> L). split; [done|..].
    + intros h l' [[<- <-]|[_ Hl']]%lookup_insert_Some; [exists (lim - 1); split; [lia|done]|].
      destruct (l_heads _ _ _ _ _ HL h l' Hl') as (b&Hb&->). exists b. split; [lia|done].
    + intros b Hb. destruct (decide (b = lim - 1)) as [->|Hne].
      * rewrite lookup_insert_eq. exists []. split; [done|]. intros p. split; [by intros ?%not_elem_of_nil|].
        intros (k&Hk&_). destruct (Hnodes _ Hk) as [_ Hle]. simpl in Hle. lia.
      * rewrite lookup_insert_ne by (intros Heq%bucket_addr_inj; done). apply (l_entries _ _ _ _ _ HL). lia.
  - destruct (keeps_init _ _ _ _ Hrun) as [Hlo Hhi]. split; [|done|done]. intros p Hp.
    apply Hsame, head_apart; lia.
Qed.

(** The last entry of a list, or none when the bucket has no free node. *)
Lemma lists_pop m base lim F b :
  0 ≤ lim ≤ b → b ≤ 27 → lists_ok m base lim F → (∀ n', n' ∈ F → is_node n') →
  (list_pop (bucket_addr b) m = Ok (None, m) ∧ ∀ k, (b, k) ∉ F) ∨
  ∃ n m', n ∈ F ∧ n.1 = b ∧ list_pop (bucket_addr b) m = Ok (Some (addr base n), m') ∧
    lists_ok m' base lim (F ∖ {[n]}) ∧ kept m m' (λ p, foreign base F p).
Proof.
  intros Hlim Hb HL' Hnodes. pose proof HL' as [L HL].
  destruct (l_entries _ _ _ _ _ HL b ltac:(lia)) as (l&Hl&He).
  pose proof (proj1 (l_family _ _ _ _ _ HL) _ _ Hl) as Hrep. cbn in Hrep.
  rewrite (list_pop_ok m _ l Hrep). destruct l as [|p l].
  - left. split; [done|]. intros k Hk. apply (not_elem_of_nil (addr base (b, k))). apply He. eauto.
  - right. rewrite last_cons_default. pose proof (entry_last_in l p) as Hin. set (q := List.last l p) in *.
    apply He in Hin as (k&Hk&Hq). rewrite Hq.
    destruct (lists_remove m base lim F (b, k)) as (m'&Hrun&Hlists&Hkept); [done..|].
    exists (b, k), m'. by rewrite Hrun.
Qed.
End free_lists.
