(* ===== verification/BuddyAlloc.v ===== *)
(** * The operations of the buddy allocator keep its invariant

    The invariant [heap_ok] of the allocator's state, each step of [bmalloc] and
    [bfree] on it, and the properties of the allocator as its clients see it. *)
From S2P Require Import Prelude CircularList Buddy BuddyTree.
From stdpp Require Import gmap list.
#[local] Open Scope Z_scope.
#[local] Open Scope c_scope.

(** ** The invariant *)

Definition request_bucket (r b : Z) : Prop :=
  bucket_loop 27 (u64 (r + HEADER_SIZE)) (BUCKET_COUNT - 1) MIN_ALLOC = Some b ∧
  0 ≤ b ≤ 27 ∧ u64 (r + HEADER_SIZE) ≤ size_of b.

(** The 16 bytes at [p] lie in the block [n]. *)
Definition inside (base : Z) (n : tnode) (p : Z) : Prop :=
  addr base n ≤ p ∧ p + 16 ≤ addr base n + size_of n.1.

(** The header of an allocated block is the request, and its other words, which
    belong to the client, are those of [D]. *)
Definition blocks_ok (D : Z → Z) (m : mem) (base : Z) (U : gmap tnode Z) : Prop :=
  ∀ n r, U !! n = Some r →
    word m (addr base n) = r ∧ addr base n + size_of n.1 ≤ hi m ∧ request_bucket r n.1 ∧
    (∀ p, inside base n p → word m (p + 8) = D (p + 8)).

(** [f] is what the split flags say about the nodes; between the operations it is
    [unused lim F]. *)
Record heap_ok (D : Z → Z) (a : alloc) (lim : Z) (F : gset tnode) (U : gmap tnode Z) (h : option tnode)
    (f : tnode → bool) : Prop := {
  h_base : 0 < base_ptr a;
  h_lo : lo (memory a) = base_ptr a;
  h_hi : hi (memory a) = max_ptr a;
  h_limit : bucket_limit a = lim;
  h_shape : shape lim F U h;
  h_bits : bits_ok (node_is_split a) f;
  h_lists : lists_ok (memory a) (base_ptr a) lim F;
  h_blocks : blocks_ok D (memory a) (base_ptr a) U;
  h_mapped n : n ∈ F → addr (base_ptr a) n + 16 ≤ hi (memory a)
}.

Section steps.
Context (D : Z → Z).
Implicit Types (a : alloc) (n : tnode) (lim : Z) (F : gset tnode) (U : gmap tnode Z) (h : option tnode)
  (f : tnode → bool).

Lemma heap_bits_ext a lim F U h f f' :
  (∀ n, is_node n → 1 ≤ n.1 → f' n = f n) → heap_ok D a lim F U h f → heap_ok D a lim F U h f'.
Proof. intros Hf []. split; try done. by eapply bits_ext. Qed.

(** Only the exclusive or of siblings counts. *)
Lemma heap_bits_xor a lim F U h f f' :
  (∀ n, is_node n → n.1 < 27 →
    xorb (f' (left_child n)) (f' (right_child n)) = xorb (f (left_child n)) (f (right_child n))) →
  heap_ok D a lim F U h f → heap_ok D a lim F U h f'.
Proof. intros Hf []. split; try done. intros n Hn Hlt. by rewrite Hf, h_bits0 by done. Qed.

Lemma owned_node a lim F U h f n : heap_ok D a lim F U h f → owns F U h n → is_node n ∧ lim ≤ n.1.
Proof. intros I Ho. by destruct (s_node _ _ _ _ (h_shape _ _ _ _ _ _ _ I) n Ho) as (?&?&_). Qed.

Lemma free_nodes a lim F U h f : heap_ok D a lim F U h f → ∀ n, n ∈ F → is_node n.
Proof. intros I n Hn. eapply owned_node; [exact I|by left]. Qed.

Lemma inside_apart base n n' p :
  is_node n → is_node n' → disjoint_nodes n n' → inside base n p → apart16 p (addr base n').
Proof.
  intros Hn Hn' Hd [H1 H2]. pose proof (size_pos n Hn). pose proof (size_pos n' Hn').
  unfold disjoint_nodes, apart16, addr in *. lia.
Qed.

Lemma inside_addr base n : is_node n → inside base n (addr base n).
Proof. intros Hn. pose proof (size_pos n Hn). unfold inside. lia. Qed.

Lemma disjoint_nodes_sym n n' : disjoint_nodes n n' → disjoint_nodes n' n.
Proof. unfold disjoint_nodes. lia. Qed.

(** Blocks that are not free lie apart from the free lists. *)
Lemma owned_foreign a lim F U h f n p :
  heap_ok D a lim F U h f → owns F U h n → n ∉ F → inside (base_ptr a) n p → foreign (base_ptr a) F p.
Proof.
  intros I Ho HnF Hp. destruct (owned_node _ _ _ _ _ _ _ I Ho) as [Hn _]. split.
  - pose proof (h_base _ _ _ _ _ _ _ I). pose proof (offset_nonneg n Hn). unfold inside, addr in Hp. lia.
  - intros n' Hn'. apply (inside_apart _ n); [done|by eapply free_nodes| |done].
    apply (s_disjoint _ _ _ _ (h_shape _ _ _ _ _ _ _ I)); [done|by left|]. by intros ->.
Qed.

Lemma node_valid_in m p : 0 ≤ lo m → lo m ≤ p → p + 16 ≤ hi m → node_valid m p.
Proof.
  intros H0 H1 H2. unfold node_valid, valid, next_field. split;
    apply orb_true_iff; right; apply andb_true_iff; rewrite !Z.leb_le; lia.
Qed.

Lemma addr_valid a lim F U h f n :
  heap_ok D a lim F U h f → is_node n → addr (base_ptr a) n + 16 ≤ hi (memory a) →
  node_valid (memory a) (addr (base_ptr a) n).
Proof.
  intros I Hn Hhi. pose proof (h_base _ _ _ _ _ _ _ I). pose proof (h_lo _ _ _ _ _ _ _ I) as Hlo.
  pose proof (offset_nonneg n Hn). apply node_valid_in; [lia|unfold addr; lia|done].
Qed.

Lemma blocks_kept m m' base U P :
  blocks_ok D m base U → kept m m' P → (∀ n, is_Some (U !! n) → is_node n) →
  (∀ n p, is_Some (U !! n) → inside base n p → P p) → blocks_ok D m' base U.
Proof.
  intros Hb [Hs Hlo Hhi] Hnode HP n r Hn. destruct (Hb n r Hn) as (Hw&Hb1&Hb2&Hd).
  assert (is_Some (U !! n)) as HU by (by eexists).
  destruct (Hs _ (HP n _ HU (inside_addr base n (Hnode n HU)))) as (Hw'&_).
  split_and!; [congruence|congruence|done|]. intros p Hp. destruct (Hs _ (HP n p HU Hp)) as (_&Hn'&_).
  rewrite <- (Hd p Hp). exact Hn'.
Qed.

(** A change of the memory by operations on the free lists, with the new shape. *)
Lemma heap_regrow a m' lim lim' F F' U h h' f P :
  heap_ok D a lim F U h f → kept (memory a) m' P →
  shape lim' F' U h' → lists_ok m' (base_ptr a) lim' F' →
  (∀ n p, is_Some (U !! n) → inside (base_ptr a) n p → P p) →
  (∀ n, n ∈ F' → addr (base_ptr a) n + 16 ≤ hi (memory a)) →
  heap_ok D (set_bucket_limit lim' (set_memory m' a)) lim' F' U h' f.
Proof.
  intros I Hk S HL HP Hm. destruct I as [H1 H2 H3 H4 H5 H6 H7 H8 H9]. pose proof Hk as [_ Hlo Hhi].
  split; cbn; try done; try congruence.
  - eapply blocks_kept; [done|done| |done]. intros n HU. by eapply (s_node _ _ _ _ H5); right; left.
  - intros n Hn. rewrite Hhi. by apply Hm.
Qed.

Lemma heap_update a m' lim F F' U h h' f P :
  heap_ok D a lim F U h f → kept (memory a) m' P →
  shape lim F' U h' → lists_ok m' (base_ptr a) lim F' →
  (∀ n p, is_Some (U !! n) → inside (base_ptr a) n p → P p) →
  (∀ n, n ∈ F' → addr (base_ptr a) n + 16 ≤ hi (memory a)) →
  heap_ok D (set_memory m' a) lim F' U h' f.
Proof.
  intros I Hk S HL HP Hm. replace (set_memory m' a) with (set_bucket_limit lim (set_memory m' a)).
  - by eapply heap_regrow.
  - rewrite <- (h_limit _ _ _ _ _ _ _ I). by destruct a.
Qed.

Lemma kept_trans m m1 m2 P Q : kept m m1 P → kept m1 m2 Q → kept m m2 (λ p, P p ∧ Q p).
Proof.
  intros [Hs1 Hl1 Hh1] [Hs2 Hl2 Hh2]. split; [|congruence..].
  intros p [Hp Hq]. destruct (Hs1 p Hp) as (?&?&?), (Hs2 p Hq) as (?&?&?).
  split_and!; [congruence..|auto].
Qed.

Lemma heap_flip a lim F U h f n :
  heap_ok D a lim F U h f → is_node n → 1 ≤ n.1 →
  ∃ a', flip_parent_is_split (index n) a = Ok (tt, a') ∧ heap_ok D a' lim F U h (toggle n f) ∧
    base_ptr a' = base_ptr a ∧ memory a' = memory a.
Proof.
  intros [] Hn H1. rewrite flip_parent_ok by done. eexists. split; [done|]. split; [|done].
  split; cbn; try done. by apply bits_flip.
Qed.

(** The flip is skipped for the root of the whole address space. *)
Lemma heap_flip_unless_0 a lim F U h f n :
  heap_ok D a lim F U h f → is_node n →
  ∃ a', (if negb (index n =? 0) then flip_parent_is_split (index n) else ret tt) a = Ok (tt, a') ∧
    heap_ok D a' lim F U h (toggle n f) ∧ base_ptr a' = base_ptr a ∧ memory a' = memory a.
Proof.
  intros I Hn. destruct (Z.eqb_spec (index n) 0) as [H0|Hne]; cbn [negb].
  - apply index_0 in H0 as ->; [|done]. exists a. split; [done|]. split; [|done].
    eapply heap_bits_ext; [|exact I]. intros n Hn' H1. apply toggle_ne. intros ->. simpl in H1. lia.
  - apply heap_flip; [done..|]. destruct Hn as [Hb Hk]. destruct (Z.eq_dec n.1 0) as [H0|]; [|lia].
    exfalso. apply Hne, index_0; [by split|]. destruct n as [b k]. simpl in *. subst b. f_equal. lia.
Qed.

Lemma heap_push a lim F U f n :
  heap_ok D a lim F U (Some n) f → sibling n ∉ F → addr (base_ptr a) n + 16 ≤ hi (memory a) →
  ∃ a', on_mem (list_push (bucket_addr n.1) (addr (base_ptr a) n)) a = Ok (tt, a') ∧
    heap_ok D a' lim ({[n]} ∪ F) U None f ∧ base_ptr a' = base_ptr a.
Proof.
  intros I Hs Hhi. pose proof (h_shape _ _ _ _ _ _ _ I) as S.
  assert (owns F U (Some n) n) as Ho by (by right; right).
  destruct (owned_node _ _ _ _ _ _ n I Ho) as [Hn Hb]. destruct (s_held_free _ _ _ _ S n eq_refl) as [HnF HnU].
  destruct (lists_push (memory a) (base_ptr a) lim F n) as (m'&Hrun&HL&Hk).
  - pose proof (s_lim _ _ _ _ S). lia.
  - apply I.
  - done.
  - done.
  - by eapply addr_valid.
  - eapply owned_foreign; [exact I|done|done|by apply inside_addr].
  - exists (set_memory m' a). unfold on_mem. rewrite Hrun. split; [done|]. split; [|done].
    eapply (heap_update a m' lim F); [exact I|exact Hk|by apply shape_give|exact HL| |].
    + intros n' p Hn' Hin. assert (n' ≠ n) by (intros ->; rewrite HnU in Hn'; by destruct Hn').
      assert (owns F U (Some n) n') as Ho' by (by right; left).
      assert (n' ∉ F) as Hnf.
      { intros Hf. rewrite (s_free_used _ _ _ _ S _ Hf) in Hn'. by destruct Hn'. }
      destruct (owned_foreign _ _ _ _ _ _ _ _ I Ho' Hnf Hin) as [Hp Hap]. split; [done|].
      intros n'' [->%elem_of_singleton|Hn'']%elem_of_union; [|by apply Hap].
      apply (inside_apart _ n'); [by eapply owned_node|done| |done]. by apply (s_disjoint _ _ _ _ S).
    + intros n' [->%elem_of_singleton|Hn']%elem_of_union; [done|]. by apply (h_mapped _ _ _ _ _ _ _ I).
Qed.

Lemma used_foreign a lim F U h f n p :
  heap_ok D a lim F U h f → is_Some (U !! n) → inside (base_ptr a) n p → foreign (base_ptr a) F p.
Proof.
  intros I Hn Hp. eapply owned_foreign; [exact I|by right; left| |exact Hp]. intros Hf.
  rewrite (s_free_used _ _ _ _ (h_shape _ _ _ _ _ _ _ I) _ Hf) in Hn. by destruct Hn.
Qed.

Lemma heap_pop a lim F U f b :
  heap_ok D a lim F U None f → lim ≤ b ≤ 27 →
  (on_mem (list_pop (bucket_addr b)) a = Ok (None, a) ∧ ∀ k, (b, k) ∉ F) ∨
  ∃ n a', n ∈ F ∧ n.1 = b ∧ on_mem (list_pop (bucket_addr b)) a = Ok (Some (addr (base_ptr a) n), a') ∧
    heap_ok D a' lim (F ∖ {[n]}) U (Some n) f ∧ base_ptr a' = base_ptr a ∧
    addr (base_ptr a) n + 16 ≤ hi (memory a').
Proof.
  intros I Hb. pose proof (h_shape _ _ _ _ _ _ _ I) as S. pose proof (s_lim _ _ _ _ S) as Hlim.
  destruct (lists_pop (memory a) (base_ptr a) lim F b ltac:(lia) ltac:(lia) (h_lists _ _ _ _ _ _ _ I)
    (free_nodes _ _ _ _ _ _ I)) as [[Hrun Hnone]|(n&m'&Hn&Hnb&Hrun&HL&Hk)].
  - left. unfold on_mem. rewrite Hrun. split; [by destruct a|done].
  - right. exists n, (set_memory m' a). unfold on_mem. rewrite Hrun. split_and!; try done.
    + eapply (heap_update a m' lim F); [exact I|exact Hk|by apply shape_take|exact HL| |].
      * intros n' p. by apply (used_foreign _ _ _ _ _ _ _ _ I).
      * intros n' Hn'. apply (h_mapped _ _ _ _ _ _ _ I). set_solver.
    + destruct Hk as [_ _ Hhi]. cbn. rewrite Hhi. by apply (h_mapped _ _ _ _ _ _ _ I).
Qed.

(** Splitting the held node: its right child becomes free. *)
Lemma heap_split a lim F U f n :
  heap_ok D a lim F U (Some n) f → n.1 < 27 →
  addr (base_ptr a) (right_child n) + 16 ≤ hi (memory a) →
  ∃ a', on_mem (list_push (bucket_addr (n.1 + 1)) (addr (base_ptr a) (right_child n))) a = Ok (tt, a') ∧
    heap_ok D a' lim ({[right_child n]} ∪ F) U (Some (left_child n)) f ∧
    base_ptr a' = base_ptr a ∧ hi (memory a') = hi (memory a).
Proof.
  intros I Hlt Hhi. pose proof (h_shape _ _ _ _ _ _ _ I) as S.
  assert (owns F U (Some n) n) as Ho by (by right; right).
  destruct (owned_node _ _ _ _ _ _ n I Ho) as [Hn Hb]. destruct (is_node_children n Hn Hlt) as [Hl Hr].
  destruct (children_not_owned _ _ _ _ n S Ho Hn Hlt) as [_ HnR].
  pose proof (shape_split lim F U n S Hlt) as S'.
  assert (Hap : ∀ n', owns F U (Some n) n' → n' ≠ n → disjoint_nodes (right_child n) n').
  { intros n' Ho' Hne. destruct (owned_node _ _ _ _ _ _ n' I Ho') as [Hn' _].
    apply (s_disjoint _ _ _ _ S'); [by left; set_solver| |].
    - destruct Ho' as [?|[?|[= ?]]]; [left; set_solver|by right; left|congruence].
    - intros <-. by apply HnR. }
  destruct (lists_push (memory a) (base_ptr a) lim F (right_child n)) as (m'&Hrun&HL&Hk).
  - pose proof (s_lim _ _ _ _ S). simpl. lia.
  - apply I.
  - done.
  - intros Hf. apply HnR. by left.
  - by eapply addr_valid.
  - split.
    + pose proof (h_base _ _ _ _ _ _ _ I). pose proof (offset_nonneg _ Hr). unfold addr. lia.
    + intros n' Hn'. apply addr_apart; [done|by eapply free_nodes|]. apply Hap; [by left|].
      intros ->. by destruct (s_held_free _ _ _ _ S n eq_refl).
  - exists (set_memory m' a). unfold on_mem. cbn [fst] in Hrun. change ((right_child n).1) with (n.1 + 1) in Hrun.
    rewrite Hrun. split_and!; [done| |done|apply Hk].
    eapply (heap_update a m' lim F); [exact I|exact Hk|done|exact HL| |].
    + intros n' p Hn' Hin. destruct (used_foreign _ _ _ _ _ _ n' p I Hn' Hin) as [Hp Hp']. split; [done|].
      intros n'' [->%elem_of_singleton|Hn'']%elem_of_union; [|by apply Hp'].
      apply (inside_apart _ n'); [eapply owned_node; [exact I|by right; left]|done| |done].
      apply disjoint_nodes_sym, Hap; [by right; left|]. intros ->. destruct (s_held_free _ _ _ _ S n eq_refl) as [_ HnU].
      rewrite HnU in Hn'. by destruct Hn'.
    + intros n' [->%elem_of_singleton|Hn']%elem_of_union; [done|]. by apply (h_mapped _ _ _ _ _ _ _ I).
Qed.

(** Merging the held node with its free sibling. *)
Lemma heap_merge a lim F U f n :
  heap_ok D a lim F U (Some n) f → lim < n.1 → sibling n ∈ F →
  ∃ a', on_mem (list_remove (addr (base_ptr a) (sibling n))) a = Ok (tt, a') ∧
    heap_ok D a' lim (F ∖ {[sibling n]}) U (Some (parent n)) f ∧
    base_ptr a' = base_ptr a ∧ hi (memory a') = hi (memory a).
Proof.
  intros I Hlt Hs. pose proof (h_shape _ _ _ _ _ _ _ I) as S.
  destruct (lists_remove (memory a) (base_ptr a) lim F (sibling n)) as (m'&Hrun&HL&Hk).
  - pose proof (s_lim _ _ _ _ S). simpl. lia.
  - apply I.
  - by eapply free_nodes.
  - done.
  - exists (set_memory m' a). unfold on_mem. rewrite Hrun. split_and!; [done| |done|apply Hk].
    eapply (heap_update a m' lim F); [exact I|exact Hk|by apply shape_merge|exact HL| |].
    + intros n' p. by apply (used_foreign _ _ _ _ _ _ _ _ I).
    + intros n' Hn'. apply (h_mapped _ _ _ _ _ _ _ I). set_solver.
Qed.
(** A store into a block that is not free does not reach the free lists. *)
Lemma lists_store m base lim F p w v :
  0 ≤ lim → lists_ok m base lim F → foreign base F p → w = p ∨ w = p + 8 →
  lists_ok (set_word w v m) base lim F.
Proof.
  intros Hlim [L HL] Hf Hw. exists L. pose proof HL as [Hfam Hh He]. split; [|done|done].
  eapply family_same; [|exact Hfam]. intros q Hq.
  pose proof (foreign_apart _ _ _ _ _ _ Hlim HL Hf q Hq) as Hap. cbn in Hap. unfold apart16 in Hap.
  cbn. unfold same_node, next_field. split_and!; [apply word_set_ne; lia|apply word_set_ne; lia|done].
Qed.

(** The held node becomes a block: its header is written. *)
Lemma heap_use a lim F U f n r :
  heap_ok D a lim F U (Some n) f → addr (base_ptr a) n + size_of n.1 ≤ hi (memory a) →
  request_bucket r n.1 →
  ∃ a', on_mem (store (addr (base_ptr a) n) r) a = Ok (tt, a') ∧
    heap_ok (word (memory a')) a' lim F (<[n := r]> U) None f ∧ base_ptr a' = base_ptr a ∧
    ∀ n' p, is_Some (U !! n') → inside (base_ptr a) n' p → word (memory a') (p + 8) = D (p + 8).
Proof.
  intros I Hhi Hr. pose proof (h_shape _ _ _ _ _ _ _ I) as S.
  assert (owns F U (Some n) n) as Ho by (by right; right).
  destruct (owned_node _ _ _ _ _ _ n I Ho) as [Hn Hb]. destruct (s_held_free _ _ _ _ S n eq_refl) as [HnF HnU].
  pose proof (size_pos n Hn). destruct (addr_valid _ _ _ _ _ _ n I Hn ltac:(lia)) as [Hv _].
  exists (set_memory (set_word (addr (base_ptr a) n) r (memory a)) a).
  unfold on_mem. rewrite store_word_ok by done. cbn [memory set_memory base_ptr].
  assert (Hother : ∀ n' p, is_Some (U !! n') → inside (base_ptr a) n' p → apart16 p (addr (base_ptr a) n)).
  { intros n' p HU Hp. assert (owns F U (Some n) n') as Ho' by (by right; left).
    apply (inside_apart _ n'); [by eapply owned_node|done| |done]. apply (s_disjoint _ _ _ _ S); [done..|].
    intros ->. rewrite HnU in HU. by destruct HU. }
  split_and!; [done| |done|].
  - destruct I as [H1 H2 H3 H4 H5 H6 H7 H8 H9]. split; cbn; try done.
    + by apply shape_use.
    + apply (lists_store _ _ _ _ (addr (base_ptr a) n)); [pose proof (s_lim _ _ _ _ S); lia|done| |by left].
      eapply owned_foreign; [by split|exact Ho|done|by apply inside_addr].
    + intros n' r' [[<- <-]|[Hne HU]]%lookup_insert_Some; [by split_and!; [apply word_set_eq|..]|].
      destruct (H8 n' r' HU) as (Hw&?&?&?). split_and!; [|done..]. rewrite word_set_ne; [done|].
      assert (is_node n') as Hn' by (eapply (s_node _ _ _ _ S); right; left; by eexists).
      pose proof (Hother n' _ ltac:(by eexists) (inside_addr _ _ Hn')) as Hap. unfold apart16 in Hap. lia.
  - intros n' p [r' HU] Hp. destruct (h_blocks _ _ _ _ _ _ _ I n' r' HU) as (_&_&_&Hd).
    rewrite <- (Hd p Hp). apply word_set_ne. pose proof (Hother n' p ltac:(by eexists) Hp) as Hap.
    unfold apart16 in Hap. lia.
Qed.

(** The client writes a word of a block behind its header. *)
Lemma heap_write a lim F U f n r p v :
  heap_ok D a lim F U None f → U !! n = Some r → inside (base_ptr a) n p →
  let a' := set_memory (set_word (p + 8) v (memory a)) a in
  on_mem (store (p + 8) v) a = Ok (tt, a') ∧ heap_ok (word (memory a')) a' lim F U None f.
Proof.
  intros I HU Hp a'. pose proof (h_shape _ _ _ _ _ _ _ I) as S.
  assert (owns F U None n) as Ho by (right; left; by eexists).
  destruct (owned_node _ _ _ _ _ _ n I Ho) as [Hn Hb]. pose proof (offset_nonneg n Hn).
  destruct (h_blocks _ _ _ _ _ _ _ I n r HU) as (_&Hhi&_).
  split.
  - unfold on_mem. rewrite store_word_ok; [done|]. pose proof (h_base _ _ _ _ _ _ _ I). pose proof (h_lo _ _ _ _ _ _ _ I).
    unfold valid, inside, addr in *. apply orb_true_iff; right; apply andb_true_iff; rewrite !Z.leb_le; lia.
  - pose proof I as [H1 H2 H3 H4 H5 H6 H7 H8 H9]. split; cbn; try done.
    + apply (lists_store _ _ _ _ p); [pose proof (s_lim _ _ _ _ S); lia|done| |by right].
      by eapply used_foreign.
    + intros n' r' HU'. destruct (H8 n' r' HU') as (Hw&?&?&?). split_and!; [|done..].
      rewrite word_set_ne; [done|]. destruct (decide (n' = n)) as [->|Hne].
      * unfold inside in Hp. lia.
      * assert (owns F U None n') as Ho' by (right; left; by eexists).
        destruct (owned_node _ _ _ _ _ _ n' I Ho') as [Hn' _].
        pose proof (inside_apart (base_ptr a) n n' p Hn Hn' (s_disjoint _ _ _ _ S _ _ Ho Ho' ltac:(done)) Hp) as Hap.
        unfold apart16 in Hap. lia.
Qed.

(** ** The loops *)

Implicit Types (brk : Z → bool).

Lemma valid_mono m m' p : words m' = words m → lo m' = lo m → hi m ≤ hi m' → valid m p = true → valid m' p = true.
Proof.
  intros _ Hlo Hhi. unfold valid. rewrite !orb_true_iff, !andb_true_iff, !Z.leb_le, Z.ltb_lt, Hlo. lia.
Qed.

Lemma update_max_ptr_ok brk v a lim F U h f :
  heap_ok D a lim F U h f →
  ∃ ok a', update_max_ptr brk v a = Ok (ok, a') ∧ heap_ok D a' lim F U h f ∧
    base_ptr a' = base_ptr a ∧ hi (memory a) ≤ hi (memory a') ∧ (ok = true → v ≤ hi (memory a')) ∧
    (brk v = true → ok = true).
Proof.
  intros I. unfold update_max_ptr, bind, gets. pose proof (h_hi _ _ _ _ _ _ _ I) as Hhi.
  destruct (Z.ltb_spec (max_ptr a) v) as [Hlt|Hge].
  2: { exists true, a. split_and!; [done|done|done|lia|lia|done]. }
  destruct (brk v); cbn [negb]; [|exists false, a; split_and!; [done|done|done|lia|done|done]].
  exists true, (set_max_ptr v (set_brk v a)). split_and!; [done| |done|cbn; lia|cbn; lia|done].
  destruct I as [H1 H2 H3 H4 H5 H6 [L HL] H8 H9]. split; cbn; try done.
  - exists L. destruct HL as [Hf Hh He]. split; [|done|done].
    eapply family_same; [|exact Hf]. intros p _. cbn. split_and!; [done|done|].
    intros [Hv1 Hv2]. split; (eapply (valid_mono (memory a)); [done|done|cbn; lia|done]).
  - intros n r Hn. destruct (H8 n r Hn) as (?&?&?&?). split_and!; [done|cbn; lia|done|done].
  - intros n Hn. specialize (H9 n Hn). lia.
Qed.

(** Splitting a held node down to the bucket that was asked for. *)
Lemma split_down_ok orig fuel a lim F U n :
  heap_ok D a lim F U (Some n) (unused lim F) → n.1 ≤ orig ≤ 27 → orig - n.1 ≤ Z.of_nat fuel →
  addr (base_ptr a) n + (if n.1 <? orig then size_of (n.1 + 1) + 16 else size_of n.1) ≤ hi (memory a) →
  ∃ a' F' n', split_down fuel (index n) n.1 orig a = Ok (tt, a') ∧
    heap_ok D a' lim F' U (Some n') (unused lim F') ∧ base_ptr a' = base_ptr a ∧
    n'.1 = orig ∧ addr (base_ptr a) n' = addr (base_ptr a) n ∧
    addr (base_ptr a) n' + size_of orig ≤ hi (memory a').
Proof.
  revert a F n. induction fuel as [|fuel IH]; intros a F n I Hb Hfuel Hmem; cbn [split_down];
    destruct (Z.ltb_spec n.1 orig) as [Hlt|Hge]; [lia| |..]; cbn [negb];
    try (exists a, F, n; assert (n.1 = orig) as <- by lia; split_and!; done).
  pose proof (h_shape _ _ _ _ _ _ _ I) as S. assert (owns F U (Some n) n) as Ho by (by right; right).
  destruct (owned_node _ _ _ _ _ _ n I Ho) as [Hn Hl]. destruct (is_node_children n Hn ltac:(lia)) as [Hnl Hnr].
  destruct (children_not_owned _ _ _ _ n S Ho Hn ltac:(lia)) as [_ HnR].
  rewrite (bind_ok _ _ _ _ _ (gets_run _ _)). rewrite index_left by done.
  destruct (heap_flip a lim F U (Some n) (unused lim F) (left_child n) I Hnl ltac:(simpl; destruct Hn; lia))
    as (a1&Hr1&I1&Hb1&Hm1). rewrite (bind_ok _ _ _ _ _ Hr1).
  rewrite index_right by done. change (n.1 + 1) with ((right_child n).1).
  rewrite ptr_for_node_ok by done. fold (addr (base_ptr a) (right_child n)).
  change ((right_child n).1) with (n.1 + 1).
  assert (size_of n.1 = 2 * size_of (n.1 + 1)) as Hsz by (apply size_of_child; lia).
  assert (offset (right_child n) = offset n + size_of (n.1 + 1)) as Hoff.
  { unfold offset, right_child. cbn [fst snd]. rewrite Hsz. lia. }
  assert (addr (base_ptr a) (left_child n) = addr (base_ptr a) n) as Hleft.
  { unfold addr, offset, left_child. cbn [fst snd]. rewrite Hsz. lia. }
  destruct (heap_split a1 lim F U _ n I1 ltac:(lia)) as (a2&Hr2&I2&Hb2&Hh2).
  { rewrite Hb1, Hm1. unfold addr in *. lia. }
  rewrite Hb1 in Hr2. rewrite (bind_ok _ _ _ _ _ Hr2).
  destruct (IH a2 ({[right_child n]} ∪ F) (left_child n)) as (a3&F3&n3&Hr3&I3&Hb3&Hn3&Ha3&Hm3).
  - eapply heap_bits_xor; [|exact I2]. intros n' Hn' Hlt'.
    assert (right_child n ≠ (lim, 1)) as Hv.
    { eapply unused_real; [apply (h_shape _ _ _ _ _ _ _ I2)|left; set_solver]. }
    rewrite !toggle_insert by (done || (intros Hf; apply HnR; by left)).
    rewrite <- (sibling_left n). apply toggle_sibling; [done|simpl; destruct Hn; lia].
  - simpl. lia.
  - simpl. lia.
  - rewrite Hb2, Hb1, Hleft, Hh2, Hm1. cbn [left_child fst].
    destruct (Z.ltb_spec (n.1 + 1) orig); [|lia].
    assert (size_of (n.1 + 1) = 2 * size_of (n.1 + 1 + 1)) by (apply size_of_child; lia).
    pose proof (size_of_ge (n.1 + 1 + 1) ltac:(destruct Hn; lia)). lia.
  - exists a3, F3, n3. rewrite Hb2, Hb1, Hleft in *. by split_and!.
Qed.

(** What [bmalloc] leaves, for a request [r] of bucket [b]: it only fails when
    [brk] has refused or when the tree is complete and has no free block that is
    large enough. *)
Definition malloc_post (brk : Z → bool) (r b : Z) (a a' : alloc) (U : gmap tnode Z) (res : option Z) : Prop :=
  base_ptr a' = base_ptr a ∧
  match res with
  | None => ∃ lim F, heap_ok D a' lim F U None (unused lim F) ∧
      ((∀ v, brk v = true) → lim = 0 ∧ ∀ n, n ∈ F → b < n.1)
  | Some p => ∃ lim F n, n.1 = b ∧ p = addr (base_ptr a) n + 8 ∧ U !! n = None ∧
      heap_ok (word (memory a')) a' lim F (<[n := r]> U) None (unused lim F) ∧
      ∀ n' q, is_Some (U !! n') → inside (base_ptr a) n' q → word (memory a') (q + 8) = D (q + 8)
  end.

Lemma shiftl_size_of b : 0 ≤ b ≤ 27 → Z.shiftl 1 (MAX_ALLOC_LOG2 - b) = size_of b.
Proof. intros. apply Z.shiftl_1_l. Qed.

Lemma take_block_ok brk r orig a lim F U n :
  heap_ok D a lim F U (Some n) (unused lim ({[n]} ∪ F)) → n.1 ≤ orig → request_bucket r orig →
  addr (base_ptr a) n + 16 ≤ hi (memory a) → sibling n ∉ F →
  ∃ res a', take_block brk r orig n.1 (addr (base_ptr a) n) a = Ok (res, a') ∧
    malloc_post brk r orig a a' U res.
Proof.
  intros I Hle Hr Hmapped Hsib. pose proof Hr as (_&Horig&_). pose proof (h_shape _ _ _ _ _ _ _ I) as S.
  assert (owns F U (Some n) n) as Ho by (by right; right).
  destruct (owned_node _ _ _ _ _ _ n I Ho) as [Hn Hb]. destruct (s_held_free _ _ _ _ S n eq_refl) as [HnF HnU].
  pose proof (s_lim _ _ _ _ S). unfold take_block. rewrite shiftl_size_of by lia.
  destruct (update_max_ptr_ok brk (addr (base_ptr a) n +
    (if n.1 <? orig then size_of n.1 / 2 + sizeof_list_t else size_of n.1)) a _ _ _ _ _ I)
    as (ok&a1&Hr1&I1&Hb1&Hh1&Hok&Hbrk). rewrite (bind_ok _ _ _ _ _ Hr1). destruct ok; cbn [negb].
  2: { destruct (heap_push a1 lim F U _ n I1 Hsib) as (a2&Hr2&I2&Hb2); [rewrite Hb1; lia|].
    rewrite Hb1 in Hr2. rewrite (bind_ok _ _ _ _ _ Hr2). exists None, a2. split; [done|].
    split; [congruence|]. exists lim, ({[n]} ∪ F). split; [done|]. intros Hall. by specialize (Hbrk (Hall _)). }
  specialize (Hok eq_refl). rewrite (bind_ok _ _ _ _ _ (gets_run _ _)), Hb1.
  unfold addr at 1. rewrite node_for_ptr_ok by done.
  destruct (heap_flip_unless_0 a1 lim F U _ _ n I1 Hn) as (a2&Hr2&I2&Hb2&Hm2).
  unfold addr at 1. rewrite node_for_ptr_ok by done. rewrite (bind_ok _ _ _ _ _ Hr2).
  assert (n ≠ (lim, 1)) as Hv by (eapply unused_real; [exact S|exact Ho]).
  destruct (split_down_ok orig FUEL a2 lim F U n) as (a3&F3&n3&Hr3&I3&Hb3&Hn3&Ha3&Hm3).
  - eapply heap_bits_ext; [|exact I2]. intros n' _ _. unfold toggle. case_decide as Hd.
    + subst. rewrite unused_insert, decide_True, unused_free by done. by rewrite bool_decide_false.
    + by rewrite unused_insert, decide_False.
  - lia.
  - unfold FUEL. lia.
  - rewrite Hb2, Hm2, Hb1. destruct (Z.ltb_spec n.1 orig); [|lia].
    rewrite (size_of_child n.1) in Hok by lia. rewrite Z.mul_comm, Z.div_mul in Hok by done. unfold sizeof_list_t in Hok. lia.
  - unfold addr at 1. rewrite node_for_ptr_ok by done. rewrite (bind_ok _ _ _ _ _ Hr3).
    rewrite Hb2, Hb1 in *.
    destruct (heap_use a3 lim F3 U _ n3 r I3) as (a4&Hr4&I4&Hb4&Hd4); [rewrite Hb3, Hn3; lia|by rewrite Hn3|].
    rewrite Hb3 in *. rewrite Ha3 in Hr4. rewrite (bind_ok _ _ _ _ _ Hr4).
    exists (Some (addr (base_ptr a) n + HEADER_SIZE)), a4. split; [done|]. split; [congruence|].
    exists lim, F3, n3. rewrite Ha3. split_and!; [done|done| |done|done].
    by apply (s_held_free _ _ _ _ (h_shape _ _ _ _ _ _ _ I3)).
Qed.

(** *** Growing the tree *)

Lemma unused_only lim n :
  is_node n → unused lim {[root lim]} (left_child n) = unused lim {[root lim]} (right_child n).
Proof.
  intros Hn. unfold unused, root, left_child, right_child.
  rewrite (bool_decide_false ((n.1 + 1, 2 * n.2) = (lim, 1))), andb_false_r, orb_false_r by (intros [=]; lia).
  rewrite (bool_decide_false ((n.1 + 1, 2 * n.2 + 1) ∈ _)), orb_false_l by (rewrite elem_of_singleton; intros [=]; lia).
  rewrite (bool_decide_ext _ (n.1 + 1 = lim ∧ n.2 = 0)).
  2: { rewrite elem_of_singleton. split; [intros [=]; lia|]. intros [<- ->]. f_equal. }
  rewrite (bool_decide_ext (_ = (lim, 1)) (n.1 + 1 = lim ∧ n.2 = 0)).
  2: { split; [intros [=]; lia|]. intros [<- ->]. f_equal. }
  destruct (Z.ltb_spec 0 lim); [done|]. rewrite bool_decide_false; [done|]. destruct Hn. lia.
Qed.

(** The flag above the root says whether the root is in use. *)
Lemma root_flag a lim F U :
  heap_ok D a lim F U None (unused lim F) → 1 ≤ lim →
  parent_is_split (node_for_ptr (base_ptr a) (base_ptr a) lim) a = Ok (bool_decide (root lim ∉ F), a) ∧
  node_for_ptr (base_ptr a) (base_ptr a) lim = index (root lim).
Proof.
  intros I H1. pose proof (s_lim _ _ _ _ (h_shape _ _ _ _ _ _ _ I)) as Hl.
  pose proof (is_node_root lim Hl) as Hr.
  assert (node_for_ptr (base_ptr a) (base_ptr a) lim = index (root lim)) as ->.
  { rewrite <- (node_for_ptr_ok (base_ptr a) (root lim)) by done. f_equal. unfold offset, root. cbn [fst snd]. lia. }
  split; [|done]. rewrite parent_is_split_ok by done. do 2 f_equal.
  destruct (is_node_parent _ Hr H1) as [Hp Hlt]. rewrite (h_bits _ _ _ _ _ _ _ I) by done.
  assert (left_child (parent (root lim)) = root lim) as ->.
  { unfold left_child, parent, root. cbn [fst snd]. f_equal. lia. }
  assert (right_child (parent (root lim)) = (lim, 1)) as ->.
  { unfold right_child, parent, root. cbn [fst snd]. f_equal. lia. }
  rewrite (unused_free lim F (root lim)) by (intros [=]). unfold unused at 1.
  rewrite (proj2 (Z.ltb_lt 0 lim)), (bool_decide_true ((lim, 1) = (lim, 1))), orb_true_r by (done || lia).
  rewrite xorb_true_r. by rewrite bool_decide_not.
Qed.

Lemma lower_free a lim F U :
  heap_ok D a lim F U None (unused lim F) → 1 ≤ lim → root lim ∈ F →
  ∃ m1 m2 m3, list_remove (base_ptr a) (memory a) = Ok (tt, m1) ∧
    list_init (bucket_addr (lim - 1)) m1 = Ok (tt, m2) ∧
    list_push (bucket_addr (lim - 1)) (base_ptr a) m2 = Ok (tt, m3) ∧
    let F' := {[root (lim - 1)]} ∪ F ∖ {[root lim]} in
    heap_ok D (set_bucket_limit (lim - 1) (set_memory m3 a)) (lim - 1) F' U None (unused (lim - 1) F').
Proof.
  intros I H1 Hroot. pose proof (h_shape _ _ _ _ _ _ _ I) as S. pose proof (s_lim _ _ _ _ S) as Hl.
  destruct (shape_grow_free lim F U S H1 Hroot) as [S' Honly]. pose proof (h_base _ _ _ _ _ _ _ I) as Hbase.
  pose proof (free_nodes _ _ _ _ _ _ I) as Hnodes. pose proof (is_node_root (lim - 1) ltac:(lia)) as Hr'.
  assert (Haddr : ∀ l, addr (base_ptr a) (root l) = base_ptr a).
  { intros l. unfold addr, offset, root. cbn [fst snd]. lia. }
  assert (F = {[root lim]}) as ->.
  { apply set_eq. intros n. rewrite elem_of_singleton. split; [intros; apply Honly; by left|by intros ->]. }
  destruct (lists_remove (memory a) (base_ptr a) lim _ (root lim) ltac:(cbn; lia) (h_lists _ _ _ _ _ _ _ I) Hnodes Hroot)
    as (m1&Hr1&HL1&Hk1). rewrite Haddr in Hr1.
  destruct (lists_init m1 (base_ptr a) lim ({[root lim]} ∖ {[root lim]})) as (m2&Hr2&HL2&Hk2); [lia|lia|done|set_solver|].
  destruct (lists_push m2 (base_ptr a) (lim - 1) ({[root lim]} ∖ {[root lim]}) (root (lim - 1))) as (m3&Hr3&HL3&Hk3).
  - cbn. lia.
  - done.
  - done.
  - set_solver.
  - pose proof (kept_trans _ _ _ _ _ Hk1 Hk2) as [_ Hlo Hhi]. rewrite Haddr.
    pose proof (h_mapped _ _ _ _ _ _ _ I _ Hroot) as Hm. rewrite Haddr in Hm.
    apply node_valid_in; rewrite ?Hlo, ?Hhi, ?(h_lo _ _ _ _ _ _ _ I); lia.
  - split; [rewrite Haddr; lia|]. set_solver.
  - rewrite Haddr in Hr3. exists m1, m2, m3. split_and!; [done..|]. cbv zeta.
    eapply heap_bits_xor; [|eapply heap_regrow; [exact I|exact (kept_trans _ _ _ _ _ (kept_trans _ _ _ _ _ Hk1 Hk2) Hk3)|exact S'|exact HL3|..]].
    + intros n Hn _. replace ({[root (lim - 1)]} ∪ {[root lim]} ∖ {[root lim]} : gset tnode) with ({[root (lim - 1)]} : gset tnode) by set_solver.
      by rewrite !unused_only, !xorb_nilpotent.
    + intros n p HU. assert (n = root lim) as -> by (apply Honly; by right; left).
      rewrite (s_free_used _ _ _ _ S _ Hroot) in HU. by destruct HU.
    + intros n [->%elem_of_singleton|Hn]%elem_of_union; [|set_solver]. rewrite Haddr.
      pose proof (h_mapped _ _ _ _ _ _ _ I _ Hroot) as Hm. by rewrite Haddr in Hm.
Qed.

Lemma toggle_unused_grow lim F n :
  1 ≤ lim → (lim - 1, 1) ∉ F → 1 ≤ n.1 → is_node n →
  unused (lim - 1) ({[(lim, 1)]} ∪ F) n =
    (if decide (lim = 1) then unused lim F n else toggle (lim - 1, 1) (unused lim F) n).
Proof.
  intros H1 HF Hn1 Hn. unfold toggle, unused.
  rewrite (bool_decide_ext (n ∈ {[(lim, 1)]} ∪ F) (n ∈ F ∨ n = (lim, 1))) by set_solver.
  rewrite bool_decide_or, (proj2 (Z.ltb_lt 0 lim)) by lia. cbn [andb].
  destruct (decide (lim = 1)) as [->|Hne].
  - cbn. by rewrite orb_false_r.
  - rewrite (proj2 (Z.ltb_lt 0 (lim - 1))) by lia. cbn [andb]. case_decide as Hd.
    + subst n. rewrite (bool_decide_true ((lim - 1, 1) = (lim - 1, 1))) by done.
      rewrite (bool_decide_false ((lim - 1, 1) ∈ F)) by done.
      rewrite (bool_decide_false ((lim - 1, 1) = (lim, 1))) by (intros [=]; lia). done.
    + rewrite (bool_decide_false (n = (lim - 1, 1))) by done. by rewrite orb_false_r.
Qed.

Lemma lower_used a lim F U :
  heap_ok D a lim F U None (unused lim F) → 1 ≤ lim → root lim ∉ F →
  addr (base_ptr a) (lim, 1) + 16 ≤ hi (memory a) →
  ∃ m1 m2 a3, list_push (bucket_addr lim) (addr (base_ptr a) (lim, 1)) (memory a) = Ok (tt, m1) ∧
    list_init (bucket_addr (lim - 1)) m1 = Ok (tt, m2) ∧
    (let a2 := set_bucket_limit (lim - 1) (set_memory m2 a) in
     (if negb (index (root (lim - 1)) =? 0) then flip_parent_is_split (index (root (lim - 1))) else ret tt) a2
       = Ok (tt, a3)) ∧ base_ptr a3 = base_ptr a ∧
    let F' := {[(lim, 1)]} ∪ F in heap_ok D a3 (lim - 1) F' U None (unused (lim - 1) F').
Proof.
  intros I H1 Hroot Hm. pose proof (h_shape _ _ _ _ _ _ _ I) as S. pose proof (s_lim _ _ _ _ S) as Hl.
  pose proof (shape_grow_used lim F U S H1 Hroot) as S'. pose proof (h_base _ _ _ _ _ _ _ I) as Hbase.
  pose proof (free_nodes _ _ _ _ _ _ I) as Hnodes. pose proof (is_node_root (lim - 1) ltac:(lia)) as Hr'.
  pose proof (is_node_sibling _ (is_node_root lim Hl) H1) as Hnv. rewrite root_sibling in Hnv.
  assert (Hv : ∀ n, owns F U None n → n ≠ (lim, 1)) by (intros n; by apply unused_real).
  assert (Hap : ∀ n, owns F U None n → disjoint_nodes (lim, 1) n).
  { intros n Ho. right. destruct (s_node _ _ _ _ S n Ho) as (_&_&Hin). unfold offset at 2. cbn [fst snd]. lia. }
  assert (0 ≤ addr (base_ptr a) (lim, 1)) as Hpos.
  { pose proof (offset_nonneg _ Hnv). unfold addr. lia. }
  destruct (lists_push (memory a) (base_ptr a) lim F (lim, 1)) as (m1&Hr1&HL1&Hk1).
  - cbn. lia.
  - apply I.
  - done.
  - intros Hf. by apply (Hv (lim, 1)); [left|].
  - by eapply addr_valid.
  - split; [done|]. intros n Hn. apply addr_apart; [done|by apply Hnodes|]. apply Hap. by left.
  - destruct (lists_init m1 (base_ptr a) lim ({[(lim, 1)]} ∪ F)) as (m2&Hr2&HL2&Hk2); [lia|lia|done| |].
    { intros n [->%elem_of_singleton|Hn]%elem_of_union; [by split; [|cbn; lia]|].
      destruct (s_node _ _ _ _ S n ltac:(by left)) as (?&?&_). by split; [|lia]. }
    assert (heap_ok D (set_bucket_limit (lim - 1) (set_memory m2 a)) (lim - 1) ({[(lim, 1)]} ∪ F) U None (unused lim F)) as I2.
    { eapply heap_regrow; [exact I|exact (kept_trans _ _ _ _ _ Hk1 Hk2)|exact S'|exact HL2|..].
      - intros n p HU Hp. destruct (used_foreign _ _ _ _ _ _ n p I HU Hp) as [Hp0 Hf]. split; [|done].
        assert (owns F U None n) as Ho by (by right; left).
        split; [done|]. intros n' [->%elem_of_singleton|Hn']%elem_of_union; [|by apply Hf].
        apply (inside_apart _ n); [by eapply owned_node|done| |done]. by apply disjoint_nodes_sym, Hap.
      - intros n [->%elem_of_singleton|Hn]%elem_of_union; [done|]. by apply (h_mapped _ _ _ _ _ _ _ I). }
    destruct (heap_flip_unless_0 _ _ _ _ _ _ _ I2 Hr') as (a3&Hr3&I3&Hb3&_).
    exists m1, m2, a3. split_and!; [done..|]. cbv zeta.
    assert ((lim - 1, 1) ∉ F) as HnF.
    { intros Hf. destruct (s_node _ _ _ _ S (lim - 1, 1) ltac:(by left)) as (_&Hle&_). cbn in Hle. lia. }
    eapply heap_bits_xor; [|exact I3]. intros n Hn Hlt. destruct (is_node_children n Hn Hlt) as [Hcl Hcr].
    pose proof Hn as [Hn0 _]. rewrite !toggle_unused_grow by (done || (cbn; lia)). case_decide as Hd.
    + rewrite !toggle_ne; [done|..]; intros [=]; lia.
    + rewrite <- (root_sibling (lim - 1)). apply toggle_sibling; [done|cbn; lia].
Qed.

Lemma lower_ok fuel brk bucket a lim F U :
  heap_ok D a lim F U None (unused lim F) → 0 ≤ bucket → lim - bucket ≤ Z.of_nat fuel →
  ∃ ok a' lim' F', lower_bucket_limit fuel brk bucket a = Ok (ok, a') ∧
    heap_ok D a' lim' F' U None (unused lim' F') ∧ base_ptr a' = base_ptr a ∧
    (ok = true → lim' ≤ bucket) ∧
    (lim ≤ bucket → F' = F ∧ lim' = lim) ∧ ((∀ v, brk v = true) → ok = true) ∧
    (ok = true → bucket = lim - 1 → root lim ∉ F → (lim, 1) ∈ F').
Proof.
  revert a lim F. induction fuel as [|fuel IH]; intros a lim F I Hb Hf; cbn [lower_bucket_limit];
    rewrite (bind_ok _ _ _ _ _ (gets_run _ _)), (h_limit _ _ _ _ _ _ _ I);
    (destruct (Z.ltb_spec bucket lim) as [Hlt|Hge];
      [|by exists true, a, lim, F; split_and!; [..|intros; lia]]); cbn [negb]; [lia|].
  rewrite (bind_ok _ _ _ _ _ (gets_run _ _)). destruct (root_flag _ _ _ _ I ltac:(lia)) as [Hflag Hidx].
  rewrite (bind_ok _ _ _ _ _ Hflag), Hidx. case_bool_decide as Hroot; cbn [negb].
  2: { destruct (lower_free _ _ _ _ I ltac:(lia) Hroot) as (m1&m2&m3&Hr1&Hr2&Hr3&I'). cbv zeta in I'.
    unfold bind at 1, on_mem at 1. rewrite Hr1. unfold bind at 1, modify at 1.
    unfold bind at 1, on_mem at 1. cbn [memory set_bucket_limit set_memory]. rewrite Hr2.
    unfold bind at 1, on_mem at 1. cbn [memory set_bucket_limit set_memory]. rewrite Hr3.
    destruct (IH _ _ _ I' Hb ltac:(lia)) as (ok&a'&lim'&F'&Hr&I''&Hb'&Hok&_&Hall&_).
    exists ok, a', lim', F'. split_and!; [exact Hr|done|exact Hb'|done|lia|done|done]. }
  pose proof (h_shape _ _ _ _ _ _ _ I) as S. pose proof (s_lim _ _ _ _ S) as Hl.
  pose proof (is_node_sibling _ (is_node_root lim Hl) ltac:(cbn; lia)) as Hnv. rewrite root_sibling in Hnv.
  replace (index (root lim) + 1) with (index (lim, 1)) by (unfold index, root; cbn [fst snd]; lia).
  change (ptr_for_node (base_ptr a) (index (lim, 1)) lim) with (ptr_for_node (base_ptr a) (index (lim, 1)) (lim, 1).1).
  rewrite ptr_for_node_ok by done. fold (addr (base_ptr a) (lim, 1)).
  destruct (update_max_ptr_ok brk (addr (base_ptr a) (lim, 1) + sizeof_list_t) _ _ _ _ _ _ I) as (ok&a1&Hr1&I1&Hb1&_&Hok1&Hbrk).
  rewrite (bind_ok _ _ _ _ _ Hr1). destruct ok; cbn [negb].
  2: { exists false, a1, lim, F. split_and!; [done..|lia| |done]. intros Hall. by specialize (Hbrk (Hall _)). }
  destruct (lower_used a1 lim F U I1 ltac:(lia) Hroot) as (m1&m2&a3&Hr2&Hr3&Hr4&Hb4&I').
  { rewrite Hb1. by apply Hok1. }
  cbv zeta in Hr4, I'. rewrite Hb1 in Hr2.
  unfold bind at 1, on_mem at 1. rewrite Hr2. unfold bind at 1, modify at 1.
  unfold bind at 1, on_mem at 1. cbn [memory set_bucket_limit set_memory]. rewrite Hr3.
  rewrite (index_parent' (root lim)), root_parent; [|lia|by apply is_node_root|cbn; lia].
  rewrite (bind_ok _ _ _ _ _ Hr4).
  destruct (IH _ _ _ I' Hb ltac:(lia)) as (ok&a'&lim'&F'&Hr&I''&Hb'&Hok&Hsame&Hall&_).
  exists ok, a', lim', F'. split_and!; [exact Hr|done|congruence|done|lia|done|].
  intros _ -> _. destruct Hsame as [-> _]; [lia|]. set_solver.
Qed.

(** *** bmalloc and bfree *)

(** A block that has been popped. *)
Lemma popped_ok brk r orig a lim F U n a1 :
  heap_ok D a lim F U None (unused lim F) → n ∈ F → base_ptr a1 = base_ptr a →
  heap_ok D a1 lim (F ∖ {[n]}) U (Some n) (unused lim F) → n.1 ≤ orig → request_bucket r orig →
  addr (base_ptr a) n + 16 ≤ hi (memory a1) →
  ∃ res a', take_block brk r orig n.1 (addr (base_ptr a) n) a1 = Ok (res, a') ∧
    malloc_post brk r orig a a' U res.
Proof.
  intros I Hn Hb I1 Hle Hr Hm. destruct (take_block_ok brk r orig a1 lim (F ∖ {[n]}) U n) as (res&a'&Hrun&Hpost).
  - by rewrite <- union_difference_L by set_solver.
  - done.
  - done.
  - by rewrite Hb.
  - intros Hs. apply (s_merged _ _ _ _ (h_shape _ _ _ _ _ _ _ I) n Hn). set_solver.
  - exists res, a'. rewrite <- Hb. split; [done|]. destruct Hpost as [Hb' Hpost].
    unfold malloc_post in *. rewrite Hb' in *. rewrite <- ?Hb in *. done.
Qed.

Lemma find_block_ok fuel brk r orig bucket a lim F U :
  heap_ok D a lim F U None (unused lim F) → 0 ≤ bucket ≤ orig → request_bucket r orig →
  bucket < Z.of_nat fuel → bucket = orig ∨ lim ≤ bucket ∧ (∀ n, n ∈ F → n.1 ≤ bucket ∨ orig < n.1) →
  ∃ res a', find_block fuel brk r orig bucket a = Ok (res, a') ∧ malloc_post brk r orig a a' U res.
Proof.
  revert a lim F bucket. induction fuel as [|fuel IH]; intros a lim F bucket I Hb Hr Hfuel Hempty; [lia|].
  pose proof Hr as (_&Horig&_). cbn [find_block]. rewrite wrapu_small by lia.
  destruct (Z.eqb_spec (bucket + 1) 0) as [|_]; [lia|].
  pose proof (s_lim _ _ _ _ (h_shape _ _ _ _ _ _ _ I)) as Hl.
  destruct (lower_ok FUEL brk bucket _ _ _ _ I ltac:(lia) ltac:(unfold FUEL; lia))
    as (ok&a1&lim1&F1&Hr1&I1&Hb1&Hok1&Hsame&Hall1&_). rewrite (bind_ok _ _ _ _ _ Hr1).
  assert (bucket = orig ∨ (∀ n, n ∈ F1 → n.1 ≤ bucket ∨ orig < n.1)) as Hempty1.
  { destruct Hempty as [|[Hle Hempty]]; [by left|right]. by destruct (Hsame Hle) as [-> _]. }
  destruct ok; cbn [negb].
  2: { exists None, a1. split; [done|]. split; [done|]. exists lim1, F1. split; [done|].
    intros Hall. by specialize (Hall1 Hall). }
  specialize (Hok1 eq_refl).
  destruct (heap_pop _ _ _ _ _ bucket I1 ltac:(lia)) as [[Hr2 Hnone]|(n&a2&Hn&Hnb&Hr2&I2&Hb2&Hm2)];
    rewrite (bind_ok _ _ _ _ _ Hr2).
  2: { destruct (popped_ok brk r orig a1 lim1 F1 U n a2) as (res&a'&Hrun&Hpost); [done|done|done|done|lia|done|done|].
    rewrite Hnb in Hrun. exists res, a'. split; [done|]. unfold malloc_post in *. rewrite Hb1 in *. done. }
  rewrite (bind_ok _ _ _ _ _ (gets_run _ _)), (h_limit _ _ _ _ _ _ _ I1).
  assert (Hnb : ∀ n, n ∈ F1 → n.1 ≠ bucket).
  { intros n Hn <-. apply (Hnone n.2). by rewrite <- surjective_pairing. }
  destruct (Z.eqb_spec bucket lim1) as [->|Hne]; cbn [negb orb].
  - destruct (Z.eqb_spec lim1 0) as [->|Hne].
    + exists None, a1. split; [change (u64 (0 - 1)) with (2 ^ 64 - 1); by destruct fuel|]. split; [done|].
      exists 0, F1. split; [done|]. intros _. split; [done|]. intros n Hn. specialize (Hnb n Hn).
      destruct (owned_node _ _ _ _ _ _ n I1 ltac:(by left)) as [[Hn0 _] _].
      destruct Hempty1 as [|Hempty1]; [lia|]. destruct (Hempty1 n Hn); lia.
    + destruct (lower_ok FUEL brk (lim1 - 1) _ _ _ _ I1 ltac:(lia) ltac:(unfold FUEL; lia))
        as (ok&a2&lim2&F2&Hr3&I2&Hb2&Hok2&_&Hall2&Hnew). rewrite (bind_ok _ _ _ _ _ Hr3).
      destruct ok; cbn [negb].
      2: { exists None, a2. split; [done|]. split; [congruence|]. exists lim2, F2. split; [done|].
        intros Hall. by specialize (Hall2 Hall). }
      specialize (Hok2 eq_refl). assert ((lim1, 1) ∈ F2) as Hin by (apply Hnew; [done|done|apply Hnone]).
      destruct (heap_pop _ _ _ _ _ lim1 I2 ltac:(lia)) as [[_ Hnone2]|(n&a3&Hn&Hn1&Hr4&I3&Hb3&Hm3)].
      { by destruct (Hnone2 1). }
      rewrite (bind_ok _ _ _ _ _ Hr4).
      destruct (popped_ok brk r orig a2 lim2 F2 U n a3) as (res&a'&Hrun&Hpost); [done|done|done|done|lia|done|done|].
      rewrite Hn1 in Hrun. exists res, a'. split; [done|]. unfold malloc_post in *. by rewrite Hb2, Hb1 in Hpost.
  - destruct (Z.eq_dec bucket 0) as [->|Hpos]; [pose proof (s_lim _ _ _ _ (h_shape _ _ _ _ _ _ _ I1)); lia|].
    rewrite (wrapu_small 64 (bucket - 1)) by lia.
    destruct (IH a1 lim1 F1 (bucket - 1) I1 ltac:(lia) Hr ltac:(lia)) as (res&a'&Hrun&Hpost).
    { right. split; [lia|]. intros n Hn. specialize (Hnb n Hn). destruct Hempty1 as [->|Hempty1]; [lia|].
      destruct (Hempty1 n Hn); lia. }
    exists res, a'. split; [done|]. unfold malloc_post in *. by rewrite Hb1 in Hpost.
Qed.

Lemma bucket_loop_ok fuel q :
  (fuel ≤ 27)%nat → q ≤ 2 ^ 31 →
  ∃ b, bucket_loop fuel q (Z.of_nat fuel) (size_of (Z.of_nat fuel)) = Some b ∧ 0 ≤ b ≤ Z.of_nat fuel ∧
    q ≤ size_of b ∧ (b = Z.of_nat fuel ∨ size_of (b + 1) < q).
Proof.
  induction fuel as [|fuel IH]; intros Hf Hq; cbn [bucket_loop].
  - rewrite (proj2 (Z.ltb_ge _ _)) by (unfold size_of; cbn; lia). exists 0.
    split_and!; [done|lia|lia|unfold size_of; cbn; lia|by left].
  - destruct (Z.ltb_spec (size_of (Z.of_nat (S fuel))) q) as [Hlt|Hge].
    2: { exists (Z.of_nat (S fuel)). split_and!; [done|lia|lia|done|by left]. }
    destruct (IH ltac:(lia) Hq) as (b&Hr&Hb&Hs&Hmin). exists b.
    replace (u64 (Z.of_nat (S fuel) - 1)) with (Z.of_nat fuel) by (rewrite wrapu_small; lia).
    assert (size_of (Z.of_nat fuel) = 2 * size_of (Z.of_nat fuel + 1)) as Hd by (apply size_of_child; lia).
    replace (Z.of_nat fuel + 1) with (Z.of_nat (S fuel)) in Hd by lia.
    pose proof (size_of_ge (Z.of_nat (S fuel)) ltac:(lia)).
    replace (u64 (Z.shiftl (size_of (Z.of_nat (S fuel))) 1)) with (size_of (Z.of_nat fuel)).
    2: { rewrite Z.shiftl_mul_pow2 by done. rewrite wrapu_small by lia. lia. }
    split_and!; [done|lia|lia|done|]. destruct Hmin as [->|]; [|by right]. right.
    replace (Z.of_nat fuel + 1) with (Z.of_nat (S fuel)) by lia. done.
Qed.

Lemma request_bucket_ok r :
  u64 (r + HEADER_SIZE) ≤ MAX_ALLOC → ∃ b, request_bucket r b ∧ (b = 27 ∨ size_of (b + 1) < u64 (r + HEADER_SIZE)).
Proof.
  intros Hr. destruct (bucket_loop_ok 27 (u64 (r + HEADER_SIZE)) ltac:(lia) Hr) as (b&Hrun&Hb&Hs&Hmin).
  exists b. by split_and!.
Qed.

Lemma heap_unuse a lim F U f n r :
  heap_ok D a lim F U None f → U !! n = Some r → heap_ok D a lim F (delete n U) (Some n) f.
Proof.
  intros I Hn. destruct I. split; try done; [by eapply shape_unuse|].
  intros n' r' [_ HU]%lookup_delete_Some. by apply h_blocks0.
Qed.

Lemma offset_parent n : is_node n → 1 ≤ n.1 → offset (parent n) ≤ offset n.
Proof.
  intros Hn H1. pose proof (covers_offset n Hn) as Hc.
  assert (covers (parent n) (offset n)) as [Hp _]; [|done]. apply covers_sibling; [done|done|by left].
Qed.

(** The root has no buddy. *)
Lemma held_root a lim F U n :
  heap_ok D a lim F U (Some n) (unused lim F) → is_node n → index n = 0 →
  heap_ok D a lim F U (Some n) (unused lim ({[n]} ∪ F)) ∧ sibling n ∉ F.
Proof.
  intros I Hn ->%index_0; [|done]. pose proof (h_shape _ _ _ _ _ _ _ I) as S.
  assert ((0, 0) ≠ (lim, 1)) as Hv by (eapply unused_real; [exact S|by right; right]). split.
  - eapply heap_bits_ext; [|exact I]. intros n' _ H1. rewrite unused_insert by done. rewrite decide_False; [done|]. intros ->. cbn in H1. lia.
  - intros Hs. destruct (s_node _ _ _ _ S _ ltac:(by left)) as ([_ Hk]&_). cbn in Hk. lia.
Qed.

(** The bit of the parent after it is flipped says whether the buddy is in use. *)
Lemma flipped_bit a lim F U n :
  heap_ok D a lim F U (Some n) (unused lim ({[n]} ∪ F)) → is_node n → 1 ≤ n.1 → n ≠ (lim, 1) → n ∉ F →
  bit (node_is_split a) (index (parent n)) = negb (unused lim F (sibling n)).
Proof.
  intros I Hn H1 Hv HnF. destruct (is_node_parent n Hn H1) as [Hp Hlt]. rewrite (h_bits _ _ _ _ _ _ _ I) by done.
  pose proof (sibling_ne n).
  destruct (sibling_children n) as [[<- <-]|[<- <-]]; rewrite !unused_insert, (decide_True (P := n = n)), decide_False by done;
    [|rewrite xorb_comm]; by rewrite xorb_true_l.
Qed.

(** The root of the tree in use has no free buddy. *)
Lemma top_alone lim F U n : shape lim F U (Some n) → n.1 = lim → sibling n ∉ F.
Proof.
  intros S Heq Hs'. pose proof (s_lim _ _ _ _ S). destruct (s_node _ _ _ _ S (sibling n) ltac:(by left)) as (Hsn&_&Hin).
  destruct n as [b k]. cbn in Heq. subst b. pose proof (size_of_ge lim ltac:(lia)).
  assert (k = 0) as ->.
  { destruct (s_node _ _ _ _ S (lim, k) ltac:(by right; right)) as ([_ Hk]&_&Hin'). unfold offset in Hin'. cbn [fst snd] in *. nia. }
  change (sibling (lim, 0)) with (lim, 1) in *. unfold offset in Hin. cbn [fst snd] in Hin. lia.
Qed.

(** The bits after both buddies have become their parent. *)
Lemma merged_bits lim F U n n' : shape lim F U (Some n) → n ≠ (lim, 1) → n ∉ F → sibling n ∈ F → unused lim F (sibling n) = true →
  xorb (unused lim (F ∖ {[sibling n]}) (left_child n')) (unused lim (F ∖ {[sibling n]}) (right_child n')) =
  xorb (unused lim ({[n]} ∪ F) (left_child n')) (unused lim ({[n]} ∪ F) (right_child n')).
Proof.
  intros S Hv HnF HsF Hs. assert (sibling n ≠ (lim, 1)) as Hsv by (eapply unused_real; [exact S|by left]).
  rewrite !unused_delete, !unused_insert by done. destruct (decide (parent n = n')) as [<-|Hpn].
  - pose proof (sibling_ne n). pose proof (left_ne_right (parent n)).
    assert (unused lim F n = false) as Hfn by (rewrite unused_free by done; by rewrite bool_decide_false).
    destruct (sibling_children n) as [[<- <-]|[<- <-]]; repeat case_decide; try congruence; by rewrite ?Hfn, ?Hs.
  - assert (parent (sibling n) = parent n) as Hps by apply parent_sibling.
    rewrite !decide_False; [done|..]; intros Heq; apply Hpn; apply (f_equal parent) in Heq;
      rewrite ?parent_left, ?parent_right in Heq; congruence.
Qed.

Lemma merge_up_ok fuel a lim F U n :
  heap_ok D a lim F U (Some n) (unused lim F) → n.1 ≤ Z.of_nat fuel →
  addr (base_ptr a) n + 16 ≤ hi (memory a) →
  ∃ a' F' n', merge_up fuel (index n) n.1 a = Ok ((index n', n'.1), a') ∧
    heap_ok D a' lim F' U (Some n') (unused lim ({[n']} ∪ F')) ∧ sibling n' ∉ F' ∧
    addr (base_ptr a) n' + 16 ≤ hi (memory a') ∧ base_ptr a' = base_ptr a.
Proof.
  revert a F n. induction fuel as [|fuel IH]; intros a F n I Hf Hm;
    pose proof (h_shape _ _ _ _ _ _ _ I) as S; (assert (owns F U (Some n) n) as Ho by (by right; right));
    destruct (owned_node _ _ _ _ _ _ n I Ho) as [Hn Hb]; pose proof (s_lim _ _ _ _ S);
    destruct (s_held_free _ _ _ _ S n eq_refl) as [HnF HnU];
    (assert (n ≠ (lim, 1)) as Hv by (eapply unused_real; [exact S|exact Ho]));
    cbn [merge_up]; (destruct (Z.eqb_spec (index n) 0) as [H0|Hne];
      [exists a, F, n; rewrite H0; apply (held_root a lim F U n I Hn) in H0 as HR; destruct HR as [HR1 HR2];
       apply index_0 in H0 as ->; [by split_and!|done]|]).
  { exfalso. apply Hne, index_0; [done|]. destruct n as [b k], Hn as [Hnb Hk]; cbn in *.
    assert (b = 0) as -> by lia. cbn in Hk. f_equal. lia. }
  assert (1 ≤ n.1) as H1.
  { destruct (Z.eq_dec n.1 0) as [H1|]; [|destruct Hn; lia]. exfalso. apply Hne, index_0; [done|].
    destruct n as [b k], Hn as [Hnb Hk]; cbn in *. subst b. cbn in Hk. f_equal. lia. }
  destruct (heap_flip _ _ _ _ _ _ n I Hn H1) as (a1&Hr1&I1&Hb1&Hm1). rewrite (bind_ok _ _ _ _ _ Hr1).
  assert (heap_ok D a1 lim F U (Some n) (unused lim ({[n]} ∪ F))) as I1'.
  { eapply heap_bits_ext; [|exact I1]. intros n' _ _. by apply toggle_insert. }
  rewrite (bind_ok _ _ _ _ _ (parent_is_split_ok a1 n Hn H1)), (bind_ok _ _ _ _ _ (gets_run _ _)).
  rewrite (h_limit _ _ _ _ _ _ _ I1').
  rewrite (flipped_bit a1 lim F U n) by done.
  destruct (unused lim F (sibling n)) eqn:Hs; cbn [negb orb].
  2: { exists a1, F, n. split_and!; [done|done| |by rewrite Hm1|done].
    intros Hs'. unfold unused in Hs. by rewrite bool_decide_true in Hs. }
  destruct (Z.eqb_spec n.1 lim) as [Heq|Hlim].
  { exists a1, F, n. split_and!; [done|done|by apply (top_alone lim F U)|by rewrite Hm1|done]. }
  assert (sibling n ∈ F) as HsF.
  { rewrite unused_free in Hs; [by apply bool_decide_eq_true in Hs|].
    intros Heq. apply Hlim. change n.1 with (sibling n).1. by rewrite Heq. }
  rewrite (bind_ok _ _ _ _ _ (gets_run _ _)). rewrite index_sibling by done.
  change (ptr_for_node (base_ptr a1) (index (sibling n)) n.1) with (ptr_for_node (base_ptr a1) (index (sibling n)) (sibling n).1).
  rewrite ptr_for_node_ok by (by apply is_node_sibling). fold (addr (base_ptr a1) (sibling n)).
  destruct (heap_merge _ _ _ _ _ n I1' ltac:(lia) HsF) as (a2&Hr2&I2&Hb2&Hh2). rewrite (bind_ok _ _ _ _ _ Hr2).
  rewrite index_parent' by done. change (n.1 - 1) with ((parent n).1).
  destruct (IH a2 (F ∖ {[sibling n]}) (parent n)) as (a3&F3&n3&Hr3&I3&Hs3&Hm3&Hb3).
  - eapply heap_bits_xor; [|exact I2]. intros n' Hn' Hlt'. by apply (merged_bits lim F U n).
  - cbn. lia.
  - rewrite Hb2, Hh2, Hm1, Hb1. pose proof (offset_parent n Hn H1). unfold addr in *. lia.
  - exists a3, F3, n3. rewrite Hb2, Hb1 in *. by split_and!.
Qed.

Lemma bfree_ok a lim F U n r :
  heap_ok D a lim F U None (unused lim F) → U !! n = Some r →
  ∃ a' F', bfree (addr (base_ptr a) n + HEADER_SIZE) a = Ok (tt, a') ∧
    heap_ok D a' lim F' (delete n U) None (unused lim F') ∧ base_ptr a' = base_ptr a.
Proof.
  intros I HU. destruct (h_blocks _ _ _ _ _ _ _ I n r HU) as (Hw&Hhi&Hr&_).
  destruct (owned_node _ _ _ _ _ _ n I ltac:(right; left; by eexists)) as [Hn _].
  pose proof (offset_nonneg n Hn). pose proof (h_base _ _ _ _ _ _ _ I). pose proof (size_pos n Hn).
  unfold bfree. rewrite (proj2 (Z.eqb_neq _ _)) by (unfold addr, HEADER_SIZE; lia).
  replace (addr (base_ptr a) n + HEADER_SIZE - HEADER_SIZE) with (addr (base_ptr a) n) by lia.
  destruct (addr_valid _ _ _ _ _ _ n I Hn ltac:(lia)) as [Hv _].
  assert (on_mem (load (addr (base_ptr a) n)) a = Ok (r, a)) as Hload.
  { unfold on_mem, load, gets_some. rewrite Hv, Hw. by destruct a. }
  rewrite (bind_ok _ _ _ _ _ Hload). unfold bucket_for_request. destruct Hr as (Hrun&_). rewrite Hrun.
  rewrite (bind_ok _ _ _ _ _ (ret_run _ _)), (bind_ok _ _ _ _ _ (gets_run _ _)).
  pose proof (heap_unuse _ _ _ _ _ _ _ I HU) as I1. unfold addr at 1. rewrite node_for_ptr_ok by done.
  destruct (merge_up_ok FUEL a lim F (delete n U) n I1) as (a2&F2&n2&Hr2&I2&Hs2&Hm2&Hb2).
  { unfold FUEL. destruct Hn. lia. }
  { lia. }
  rewrite (bind_ok _ _ _ _ _ Hr2).
  destruct (owned_node _ _ _ _ _ _ n2 I2 ltac:(by right; right)) as [Hn2 _]. rewrite ptr_for_node_ok by done.
  destruct (heap_push a2 lim F2 _ _ n2 I2 Hs2) as (a3&Hr3&I3&Hb3); [by rewrite Hb2|].
  exists a3, ({[n2]} ∪ F2). rewrite Hb2 in Hr3. split_and!; [exact Hr3|done|congruence].
Qed.

(** The first call sets up a tree of one free block of 16 bytes. *)
Lemma init_ok brk sbrk a :
  0 < sbrk → brk (sbrk + 16) = true → node_is_split a = ∅ →
  ∃ a', init_alloc brk sbrk a = Ok (tt, a') ∧ base_ptr a' = sbrk ∧
    heap_ok D a' 27 {[root 27]} ∅ None (unused 27 {[root 27]}).
Proof.
  intros Hs Hbrk Hsp. set (m0 := mk_mem ∅ sbrk (sbrk + 16)).
  assert (Hva : apart16 (bucket_addr 27) sbrk) by (unfold apart16, bucket_addr, sizeof_list_t; lia).
  assert (Hvh : node_valid m0 (bucket_addr 27)) by (by apply head_valid).
  assert (Hvs : ∀ m, lo m = sbrk → hi m = sbrk + 16 → node_valid m sbrk).
  { intros m Hlo Hhi. apply node_valid_in; lia. }
  assert (Haddr : addr sbrk (root 27) = sbrk) by (unfold addr, offset, root; cbn; lia).
  assert (HL0 : lists_ok m0 sbrk 28 ∅).
  { exists ∅. split; [by split|done|]. intros b Hb. lia. }
  destruct (family_init m0 ∅ (bucket_addr 27)) as (m1&Hr1&Hf1&_&_).
  { by split. }
  { done. }
  { intros q (h&l&Hl&_). by rewrite delete_empty in Hl. }
  cbn in Hr1. destruct (keeps_init _ _ _ _ Hr1) as [Hlo1 Hhi1].
  assert (HL1 : lists_ok m1 sbrk 27 ∅).
  { exists {[bucket_addr 27 := []]}. split; [done| |].
    - intros h l [<- <-]%lookup_singleton_Some. exists 27. by split; [lia|].
    - intros b Hb. assert (b = 27) as -> by lia. exists []. split; [apply lookup_singleton_eq|]. set_solver. }
  destruct (lists_push m1 sbrk 27 ∅ (root 27)) as (m2&Hr2&HL2&Hk2); [cbn; lia|done| |set_solver| | |].
  { by apply is_node_root. }
  { rewrite Haddr. by apply Hvs; rewrite ?Hlo1, ?Hhi1. }
  { rewrite Haddr. split; [lia|set_solver]. }
  rewrite Haddr in Hr2. cbn [fst root] in Hr2. rewrite union_empty_r_L in HL2.
  assert (init_alloc brk sbrk a = Ok (tt, mk_alloc m2 27 ∅ sbrk (sbrk + 16))) as Hrun.
  { destruct a as [? ? sp ? ?]. cbn in Hsp. subst sp.
    unfold init_alloc, bind, modify, update_max_ptr, gets, on_mem. cbn. unfold sizeof_list_t.
    rewrite (proj2 (Z.ltb_lt _ _)) by lia. unfold bind. cbn. rewrite Hbrk. cbn.
    fold m0. change (BUCKET_COUNT - 1) with 27. rewrite Hr1. cbn. by rewrite Hr2. }
  eexists. split; [exact Hrun|]. split; [done|]. destruct Hk2 as [_ Hlo2 Hhi2]. split; cbn; try done.
  - by rewrite Hlo2, Hlo1.
  - by rewrite Hhi2, Hhi1.
  - apply (shape_init).
  - intros n Hn Hlt. rewrite unused_only, xorb_nilpotent by done. unfold bit. by rewrite lookup_empty, Z.bits_0.
  - intros n ->%elem_of_singleton. rewrite Haddr, Hhi2, Hhi1. cbn. lia.
Qed.

Lemma bmalloc_ok brk sbrk r a lim F U :
  heap_ok D a lim F U None (unused lim F) → u64 (r + HEADER_SIZE) ≤ MAX_ALLOC →
  ∃ b res a', request_bucket r b ∧ bmalloc brk sbrk r a = Ok (res, a') ∧ malloc_post brk r b a a' U res.
Proof.
  intros I Hr. destruct (request_bucket_ok r Hr) as (b&Hb&_). pose proof (h_base _ _ _ _ _ _ _ I).
  destruct (find_block_ok FUEL brk r b b a lim F U I) as (res&a'&Hrun&Hpost).
  { destruct Hb as (_&Hb&_). lia. }
  { done. }
  { destruct Hb as (_&Hb&_). unfold FUEL. lia. }
  { by left. }
  exists b, res, a'. split_and!; [done| |done]. unfold bmalloc. rewrite (proj2 (Z.ltb_ge _ _)) by done.
  rewrite (bind_ok _ _ _ _ _ (gets_run _ _)), (proj2 (Z.eqb_neq _ _)) by lia.
  rewrite (bind_ok _ _ _ _ _ (ret_run _ _)). unfold bucket_for_request. destruct Hb as (Hloop&_). rewrite Hloop.
  by rewrite (bind_ok _ _ _ _ _ (ret_run _ _)).
Qed.
End steps.
