(* ===== verification/BuddyClient.v ===== *)
(** * What the buddy allocator promises its clients

    The abstract heap of a client: the blocks it owns with their sizes and the
    words it has stored in them; the relation between it and the allocator; and
    the theorems of buddy-alloc/alloc.c on every schedule of calls. *)
From S2P Require Import Prelude CircularList Buddy BuddyTree BuddyAlloc.
From stdpp Require Import gmap list.
#[local] Open Scope Z_scope.
#[local] Open Scope c_scope.

(** ** The specification *)

(** A block is the size that was requested and the words the client has written,
    by their number in the block. *)
Abbreviation heap := (gmap Z (Z * gmap Z Z)).

(** [brk] tells which break the kernel grants during the call. *)
Inductive action :=
| Malloc (brk : Z → bool) (request : Z)
| Free (ptr : Z)
| Write (ptr i v : Z)
| Read (ptr i : Z).

Definition exec (sbrk : Z) (act : action) : M alloc (option Z) :=
  match act with
  | Malloc brk request => bmalloc brk sbrk request
  | Free ptr => bfree ptr ;; ret None
  | Write ptr i v => on_mem (store (ptr + 8 * i) v) ;; ret None
  | Read ptr i => v ← on_mem (load (ptr + 8 * i)); ret (Some v)
  end.

(** The client frees what it owns and stays inside of its blocks, and no request
    is within 8 of [2^64]; the kernel may grant and refuse as it likes. *)
Definition allowed (h : heap) (act : action) : Prop :=
  match act with
  | Malloc _ request => 0 ≤ request < 2 ^ 64 - HEADER_SIZE
  | Free ptr => ptr = 0 ∨ is_Some (h !! ptr)
  | Write ptr i _ | Read ptr i => ∃ r c, h !! ptr = Some (r, c) ∧ 0 ≤ i ∧ 8 * i + 8 ≤ r
  end.

(** The call that initializes the allocator, the first whose request fits, when the
    kernel refuses it the 16 bytes it starts with. *)
Definition first_page_refused (sbrk : Z) (a : alloc) (act : action) : bool :=
  match act with
  | Malloc brk request =>
      (base_ptr a =? 0) && (request + HEADER_SIZE <=? MAX_ALLOC) && negb (brk (sbrk + sizeof_list_t))
  | _ => false
  end.

Inductive heap_step (sbrk : Z) (h : heap) : action → option Z → heap → Prop :=
| malloc_null brk r : heap_step sbrk h (Malloc brk r) None h
| malloc_block brk r p :
    0 < p → (p - sbrk) mod 16 = 8 → r + HEADER_SIZE ≤ MAX_ALLOC → h !! p = None →
    (∀ q r' c, h !! q = Some (r', c) → p + r ≤ q ∨ q + r' ≤ p) →
    heap_step sbrk h (Malloc brk r) (Some p) (<[p := (r, ∅)]> h)
| free_null : heap_step sbrk h (Free 0) None h
| free_block p : p ≠ 0 → is_Some (h !! p) → heap_step sbrk h (Free p) None (delete p h)
| write_word p i v r c : h !! p = Some (r, c) →
    heap_step sbrk h (Write p i v) None (<[p := (r, <[i := v]> c)]> h)
| read_word p i v r c : h !! p = Some (r, c) → (∀ w, c !! i = Some w → v = w) →
    heap_step sbrk h (Read p i) (Some v) h.

(** The states of the client and the allocator, whatever the client does next. *)
Inductive reachable (sbrk : Z) : heap → alloc → Prop :=
| reach_start : reachable sbrk ∅ alloc0
| reach_step h a act res a' h' :
    reachable sbrk h a → allowed h act → exec sbrk act a = Ok (res, a') →
    heap_step sbrk h act res h' → reachable sbrk h' a'.

(** ** The relation *)

Definition block_ok (sbrk : Z) (m : mem) (n : tnode) (r : Z) (c : gmap Z Z) : Prop :=
  0 ≤ r ∧ r + HEADER_SIZE ≤ size_of n.1 ∧
  ∀ i v, c !! i = Some v → 0 ≤ i ∧ 8 * i + 8 ≤ r ∧ word m (addr sbrk n + 8 + 8 * i) = v.

Definition owned_by (sbrk : Z) (h : heap) (m : mem) (U : gmap tnode Z) : Prop :=
  (∀ p r c, h !! p = Some (r, c) →
    ∃ n, U !! n = Some r ∧ p = addr sbrk n + 8 ∧ block_ok sbrk m n r c) ∧
  (∀ n r, U !! n = Some r → is_Some (h !! (addr sbrk n + 8))).

Definition related (sbrk : Z) (h : heap) (a : alloc) : Prop :=
  base_ptr a = sbrk ∧ ∃ lim F U,
    heap_ok (word (memory a)) a lim F U None (unused lim F) ∧ owned_by sbrk h (memory a) U.

Section relation.
Implicit Types (sbrk : Z) (h : heap) (a : alloc) (n : tnode) (U : gmap tnode Z).

Lemma heap_refresh D a lim F U ho f :
  heap_ok D a lim F U ho f → heap_ok (word (memory a)) a lim F U ho f.
Proof. intros []. split; try done. intros n r Hn. by destruct (h_blocks n r Hn) as (?&?&?&_). Qed.

Lemma heap_data D a lim F U ho f n r c sbrk m :
  heap_ok D a lim F U ho f → base_ptr a = sbrk → U !! n = Some r → (∀ p, D p = word m p) →
  block_ok sbrk m n r c → block_ok sbrk (memory a) n r c.
Proof.
  intros I <- HU HD (Hr&Hs&Hc). split_and!; [done|done|]. intros i v Hi.
  destruct (Hc i v Hi) as (H0&H1&Hw). split_and!; [done|done|].
  destruct (h_blocks _ _ _ _ _ _ _ I n r HU) as (_&_&_&Hd). rewrite <- Hw, <- HD.
  replace (addr (base_ptr a) n + 8 + 8 * i) with (addr (base_ptr a) n + 8 * i + 8) by lia.
  apply Hd. unfold inside, HEADER_SIZE in *. lia.
Qed.

(** Different blocks have different addresses and do not meet. *)
Lemma used_disjoint D a lim F U f n n' :
  heap_ok D a lim F U None f → is_Some (U !! n) → is_Some (U !! n') → n ≠ n' →
  addr (base_ptr a) n + size_of n.1 ≤ addr (base_ptr a) n' ∨ addr (base_ptr a) n' + size_of n'.1 ≤ addr (base_ptr a) n.
Proof.
  intros I Hn Hn' Hne. pose proof (h_shape _ _ _ _ _ _ _ I) as S.
  assert (disjoint_nodes n n') as Hd by (apply (s_disjoint _ _ _ _ S); [by right; left|by right; left|done]).
  unfold disjoint_nodes, addr in *. lia.
Qed.

Lemma used_inj D a lim F U f n n' :
  heap_ok D a lim F U None f → is_Some (U !! n) → is_Some (U !! n') →
  addr (base_ptr a) n = addr (base_ptr a) n' → n = n'.
Proof.
  intros I Hn Hn' Heq. destruct (decide (n = n')) as [|Hne]; [done|]. exfalso.
  pose proof (used_disjoint _ _ _ _ _ _ _ _ I Hn Hn' Hne) as Hd.
  destruct (owned_node _ _ _ _ _ _ _ n I ltac:(by right; left)) as [Hnn _].
  destruct (owned_node _ _ _ _ _ _ _ n' I ltac:(by right; left)) as [Hnn' _].
  pose proof (size_pos n Hnn). pose proof (size_pos n' Hnn'). lia.
Qed.

Lemma addr_aligned sbrk n : is_node n → (addr sbrk n + 8 - sbrk) mod 16 = 8.
Proof.
  intros [Hb _]. unfold addr, offset. replace (sbrk + n.2 * size_of n.1 + 8 - sbrk) with (8 + n.2 * size_of n.1) by lia.
  assert (size_of n.1 = 2 ^ (27 - n.1) * 16) as ->.
  { unfold size_of. change 16 with (2 ^ 4). rewrite <- Z.pow_add_r by lia. f_equal. lia. }
  rewrite Z.mul_assoc, Z.mod_add by lia. done.
Qed.

Lemma related_pos sbrk h a p : 0 < sbrk → related sbrk h a → is_Some (h !! p) → 0 < p.
Proof.
  intros Hs (_&lim&F&U&I&Hf&_) [[r c] Hp]. destruct (Hf p r c Hp) as (n&HU&->&_).
  destruct (owned_node _ _ _ _ _ _ _ n I ltac:(right; left; by eexists)) as [Hn _].
  pose proof (offset_nonneg n Hn). unfold addr. lia.
Qed.

Lemma related_malloc sbrk h a brk r :
  related sbrk h a → 0 < sbrk → 0 ≤ r < 2 ^ 64 - HEADER_SIZE →
  ∃ res a' h', bmalloc brk sbrk r a = Ok (res, a') ∧ heap_step sbrk h (Malloc brk r) res h' ∧ related sbrk h' a'.
Proof.
  intros (Hbase&lim&F&U&I&Hf&Hb) Hs Hr. destruct (Z.ltb_spec MAX_ALLOC (u64 (r + HEADER_SIZE))) as [Hlt|Hge].
  { exists None, a, h. unfold bmalloc. rewrite (proj2 (Z.ltb_lt _ _)) by done.
    split_and!; [done|constructor|]. by split; [|exists lim, F, U]. }
  destruct (bmalloc_ok _ brk sbrk r a lim F U I Hge) as (b&res&a'&Hrb&Hrun&Hbase'&Hpost).
  destruct res as [p|].
  2: { destruct Hpost as (lim'&F'&I'&_). exists None, a', h. split_and!; [done|constructor|].
    split; [congruence|]. exists lim', F', U. split; [by eapply heap_refresh|]. split; [|done].
    intros p r' c Hp. destruct (Hf p r' c Hp) as (n&HU&Hp'&Hbl). exists n. split_and!; [done|done|].
    eapply heap_data; [exact I'|congruence|done|done|done]. }
  destruct Hpost as (lim'&F'&n&Hnb&->&HU&I'&Hdata). rewrite Hbase in *.
  assert (is_Some (<[n := r]> U !! n)) as HnS by (rewrite lookup_insert_eq; by eexists).
  destruct (owned_node _ _ _ _ _ _ _ n I' ltac:(by right; left)) as [Hn _].
  pose proof (offset_nonneg n Hn). destruct Hrb as (_&_&Hsize).
  rewrite wrapu_small in Hsize, Hge by (unfold HEADER_SIZE in *; lia).
  assert (Hother : ∀ n', is_Some (U !! n') → n' ≠ n ∧ is_Some (<[n := r]> U !! n')).
  { intros n' Hn'. assert (n ≠ n') by (intros <-; rewrite HU in Hn'; by destruct Hn').
    split; [done|]. by rewrite lookup_insert_ne. }
  exists (Some (addr sbrk n + 8)), a', (<[addr sbrk n + 8 := (r, ∅)]> h). split_and!; [done|constructor|].
  - unfold addr. lia.
  - by apply addr_aligned.
  - done.
  - destruct (h !! (addr sbrk n + 8)) as [[r' c]|] eqn:Hp; [|done]. exfalso.
    destruct (Hf _ _ _ Hp) as (n'&HU'&Heq&_). destruct (Hother n' ltac:(by eexists)) as [Hne HnS'].
    apply Hne. eapply used_inj; [exact I'|done|done|]. rewrite Hbase'. lia.
  - intros q r' c Hq. destruct (Hf _ _ _ Hq) as (n'&HU'&->&Hr'&Hs'&_).
    destruct (Hother n' ltac:(by eexists)) as [Hne HnS'].
    pose proof (used_disjoint _ _ _ _ _ _ _ _ I' HnS HnS' ltac:(done)) as Hd. rewrite Hbase' in Hd.
    rewrite <- Hnb in Hsize. unfold HEADER_SIZE in *. lia.
  - split; [done|]. exists lim', F', (<[n := r]> U). split; [done|]. split.
    + intros p r' c [[<- [= <- <-]]|[Hne Hp]]%lookup_insert_Some.
      * exists n. rewrite lookup_insert_eq. split_and!; [done|done|]. split_and!; [lia|by rewrite Hnb|].
        intros i v Hi. by rewrite lookup_empty in Hi.
      * destruct (Hf p r' c Hp) as (n'&HU'&->&Hr'&Hs'&Hc). exists n'.
        assert (is_Some (U !! n')) as HS by (by eexists). destruct (Hother n' HS) as [Hne' _].
        rewrite lookup_insert_ne by done. split_and!; [done|done|]. split_and!; [done|done|].
        intros i v Hi. destruct (Hc i v Hi) as (Hi0&Hi1&Hw). split_and!; [done|done|].
        rewrite <- Hw. replace (addr sbrk n' + 8 + 8 * i) with (addr sbrk n' + 8 * i + 8) by lia.
        apply (Hdata n'); [done|]. unfold inside, HEADER_SIZE in *. lia.
    + intros n' r' [[<- <-]|[Hne HU']]%lookup_insert_Some; [rewrite lookup_insert_eq; by eexists|].
      rewrite lookup_insert_is_Some. destruct (decide (addr sbrk n + 8 = addr sbrk n' + 8)); [by left|right].
      split; [done|]. by apply (Hb n' r').
Qed.

Lemma related_free sbrk h a p :
  related sbrk h a → is_Some (h !! p) →
  ∃ a', bfree p a = Ok (tt, a') ∧ related sbrk (delete p h) a'.
Proof.
  intros (Hbase&lim&F&U&I&Hf&Hb) [[r c] Hp]. destruct (Hf p r c Hp) as (n&HU&->&_).
  destruct (bfree_ok _ a lim F U n r I HU) as (a'&F'&Hrun&I'&Hbase'). rewrite Hbase in *.
  exists a'. split; [done|]. split; [congruence|]. exists lim, F', (delete n U).
  split; [by eapply heap_refresh|]. split.
  - intros q r' c' [Hne Hq]%lookup_delete_Some. destruct (Hf q r' c' Hq) as (n'&HU'&->&Hbl). exists n'.
    assert (delete n U !! n' = Some r') as HU2.
    { rewrite lookup_delete_ne; [done|]. by intros ->. }
    split_and!; [done|done|]. eapply heap_data; [exact I'|done|done|done|done].
  - intros n' r' [Hne HU']%lookup_delete_Some. rewrite lookup_delete_ne; [by apply (Hb n' r')|].
    intros Heq. apply Hne. eapply used_inj; [exact I|by eexists..|]. rewrite Hbase. lia.
Qed.

Lemma related_write sbrk h a p i v r c :
  related sbrk h a → h !! p = Some (r, c) → 0 ≤ i → 8 * i + 8 ≤ r →
  ∃ a', on_mem (store (p + 8 * i) v) a = Ok (tt, a') ∧ related sbrk (<[p := (r, <[i := v]> c)]> h) a'.
Proof.
  intros (Hbase&lim&F&U&I&Hf&Hb) Hp Hi Hir. destruct (Hf p r c Hp) as (n&HU&->&Hr&Hs&Hc).
  assert (inside (base_ptr a) n (addr sbrk n + 8 * i)) as Hin.
  { rewrite Hbase. unfold inside, HEADER_SIZE in *. lia. }
  destruct (heap_write _ a lim F U _ n r _ v I HU Hin) as [Hrun I'].
  replace (addr sbrk n + 8 * i + 8) with (addr sbrk n + 8 + 8 * i) in Hrun, I' by lia.
  eexists. split; [exact Hrun|]. split; [done|]. exists lim, F, U. split; [done|]. split.
  - intros q r' c' [[<- [= <- <-]]|[Hne Hq]]%lookup_insert_Some.
    + exists n. split_and!; [done|done|]. split_and!; [done|done|]. intros j w.
      cbn [memory set_memory]. rewrite lookup_insert_Some, word_set.
      intros [[<- <-]|[Hne Hj]]; [by rewrite decide_True|]. rewrite decide_False by lia. by apply Hc.
    + destruct (Hf q r' c' Hq) as (n'&HU'&->&Hr'&Hs'&Hc'). exists n'. split_and!; [done|done|].
      split_and!; [done|done|]. intros j w Hj. destruct (Hc' j w Hj) as (Hj0&Hj1&Hw). split_and!; [done|done|].
      cbn [memory set_memory]. rewrite word_set_ne; [done|].
      assert (n ≠ n') as Hnn by (by intros ->).
      pose proof (used_disjoint _ _ _ _ _ _ n n' I ltac:(by eexists) ltac:(by eexists) Hnn) as Hd. rewrite Hbase in Hd.
      unfold HEADER_SIZE in *. lia.
  - intros n' r' HU'. destruct (decide (addr sbrk n + 8 = addr sbrk n' + 8)) as [Heq|Hne].
    + rewrite Heq, lookup_insert_eq. by eexists.
    + rewrite lookup_insert_ne by done. by apply (Hb n' r').
Qed.

Lemma related_read sbrk h a p i r c :
  related sbrk h a → h !! p = Some (r, c) → 0 ≤ i → 8 * i + 8 ≤ r →
  ∃ v, on_mem (load (p + 8 * i)) a = Ok (v, a) ∧ ∀ w, c !! i = Some w → v = w.
Proof.
  intros (Hbase&lim&F&U&I&Hf&Hb) Hp Hi Hir. destruct (Hf p r c Hp) as (n&HU&->&Hr&Hs&Hc).
  exists (word (memory a) (addr sbrk n + 8 + 8 * i)). split.
  - destruct (h_blocks _ _ _ _ _ _ _ I n r HU) as (_&Hhi&_). rewrite Hbase in Hhi.
    destruct (owned_node _ _ _ _ _ _ _ n I ltac:(right; left; by eexists)) as [Hn _].
    pose proof (offset_nonneg n Hn). pose proof (h_lo _ _ _ _ _ _ _ I) as Hlo. rewrite Hbase in Hlo.
    unfold on_mem, load, gets_some.
    assert (valid (memory a) (addr sbrk n + 8 + 8 * i) = true) as ->; [|by destruct a].
    unfold valid. apply orb_true_iff; right; apply andb_true_iff; rewrite !Z.leb_le.
    unfold addr, HEADER_SIZE in *. lia.
  - intros w Hw. by destruct (Hc i w Hw) as (_&_&<-).
Qed.

(** The first call behaves as one on an initialized allocator. *)
Lemma start_related sbrk brk :
  0 < sbrk → brk (sbrk + sizeof_list_t) = true →
  ∃ a, related sbrk ∅ a ∧ ∀ r, u64 (r + HEADER_SIZE) ≤ MAX_ALLOC →
    bmalloc brk sbrk r alloc0 = bmalloc brk sbrk r a.
Proof.
  intros Hs Hbrk. destruct (init_ok (λ _, 0) brk sbrk alloc0 Hs Hbrk eq_refl) as (a&Hrun&Hbase&I).
  exists a. split.
  - split; [done|]. exists 27, {[root 27]}, ∅. split; [by eapply heap_refresh|]. by split.
  - intros r Hr. unfold bmalloc. rewrite (proj2 (Z.ltb_ge _ _)) by done. unfold bind at 1 4, gets.
    change (base_ptr alloc0 =? 0) with true. rewrite (proj2 (Z.eqb_neq (base_ptr a) 0)) by lia.
    cbn match. by rewrite (bind_ok _ _ _ _ _ Hrun).
Qed.

Definition client_state (sbrk : Z) (h : heap) (a : alloc) : Prop := h = ∅ ∧ a = alloc0 ∨ related sbrk h a.

(** Without its first 16 bytes, the allocator writes the first list node at the
    break, where no memory is. *)
Lemma start_refused sbrk brk r :
  0 < sbrk → u64 (r + HEADER_SIZE) ≤ MAX_ALLOC → brk (sbrk + sizeof_list_t) = false →
  bmalloc brk sbrk r alloc0 = Err Undefined.
Proof.
  intros Hs Hr Hbrk. unfold bmalloc. rewrite (proj2 (Z.ltb_ge _ _)) by done. unfold bind at 1, gets.
  change (base_ptr alloc0 =? 0) with true. cbn match. apply bind_err. unfold init_alloc, update_max_ptr.
  unfold bind, modify, gets. cbn [max_ptr set_max_ptr set_base_ptr set_memory set_bucket_limit].
  rewrite (proj2 (Z.ltb_lt sbrk _)) by (unfold sizeof_list_t; lia). rewrite Hbrk. cbn.
  unfold on_mem, list_init, list_push, store, load, bind, gets_some, modify, valid, next_field.
  let b := eval vm_compute in (bucket_addr (BUCKET_COUNT - 1)) in change (bucket_addr (BUCKET_COUNT - 1)) with b.
  change (-448 + 8) with (-440). cbn. rewrite (proj2 (Z.ltb_ge sbrk 0)), andb_false_r by lia. cbn.
  by rewrite (proj2 (Z.leb_gt (sbrk + 8) sbrk)), andb_false_r by lia.
Qed.

Lemma client_state_base sbrk h a : client_state sbrk h a → base_ptr a = 0 ∧ h = ∅ ∧ a = alloc0 ∨ base_ptr a = sbrk ∧ related sbrk h a.
Proof. intros [[-> ->]|Hrel]; [by left|right]. split; [apply Hrel|done]. Qed.

Lemma client_step sbrk h a act :
  0 < sbrk → client_state sbrk h a → allowed h act → first_page_refused sbrk a act = false →
  ∃ res a' h', exec sbrk act a = Ok (res, a') ∧ heap_step sbrk h act res h' ∧ client_state sbrk h' a'.
Proof.
  intros Hs Hst Ha Hpage. destruct act as [brk r|p|p i v|p i]; cbn [exec allowed first_page_refused] in *.
  - rename Ha into Hr. destruct Hst as [[-> ->]|Hrel].
    + assert (Hw : u64 (r + HEADER_SIZE) = r + HEADER_SIZE) by (apply wrapu_small; unfold HEADER_SIZE in *; lia).
      destruct (Z.le_gt_cases (u64 (r + HEADER_SIZE)) MAX_ALLOC) as [Hle|Hgt].
      * assert (Hbrk : brk (sbrk + sizeof_list_t) = true).
        { rewrite Hw in Hle. apply Z.leb_le in Hle. rewrite Hle in Hpage. by apply negb_false_iff in Hpage. }
        destruct (start_related sbrk brk Hs Hbrk) as (a&Hrel&Heq). rewrite (Heq r Hle).
        destruct (related_malloc sbrk ∅ a brk r Hrel Hs Hr) as (res&a'&h'&?&?&?).
        exists res, a', h'. by split_and!; [..|right].
      * exists None, alloc0, ∅. unfold bmalloc. rewrite (proj2 (Z.ltb_lt _ _)) by done.
        split_and!; [done|constructor|by left].
    + destruct (related_malloc sbrk h a brk r Hrel Hs Hr) as (res&a'&h'&?&?&?).
      exists res, a', h'. by split_and!; [..|right].
  - destruct Ha as [->|Hp]; [exists None, a, h; split_and!; [done|constructor|done]|].
    destruct Hst as [[-> ->]|Hrel]; [rewrite lookup_empty in Hp; by destruct Hp|].
    destruct (related_free sbrk h a p Hrel Hp) as (a'&Hrun&Hrel').
    exists None, a', (delete p h). rewrite (bind_ok _ _ _ _ _ Hrun). split_and!; [done| |by right].
    destruct (decide (p = 0)) as [->|Hne]; [|by constructor]. exfalso. by apply (related_pos sbrk h a 0) in Hp.
  - destruct Ha as (r&c&Hp&Hi&Hir). destruct Hst as [[-> ->]|Hrel]; [by rewrite lookup_empty in Hp|].
    destruct (related_write sbrk h a p i v r c Hrel Hp Hi Hir) as (a'&Hrun&Hrel').
    exists None, a', (<[p := (r, <[i := v]> c)]> h). rewrite (bind_ok _ _ _ _ _ Hrun). by split_and!; [|constructor|right].
  - destruct Ha as (r&c&Hp&Hi&Hir). destruct Hst as [[-> ->]|Hrel]; [by rewrite lookup_empty in Hp|].
    destruct (related_read sbrk h a p i r c Hrel Hp Hi Hir) as (v&Hrun&Hv).
    exists (Some v), a, h. rewrite (bind_ok _ _ _ _ _ Hrun). split_and!; [done|by econstructor|by right].
Qed.

(** A call that does not get the first page ends in undefined behaviour; any other
    call returns. *)
Lemma client_refused sbrk h a act :
  0 < sbrk → client_state sbrk h a → allowed h act → first_page_refused sbrk a act = true →
  exec sbrk act a = Err Undefined.
Proof.
  intros Hs Hst Ha Hpage. destruct act as [brk r| | |]; [|done..]. cbn [exec allowed first_page_refused] in *.
  apply andb_true_iff in Hpage as [[Hbase%Z.eqb_eq Hfit%Z.leb_le]%andb_true_iff Hbrk%negb_true_iff].
  destruct Hst as [[-> ->]|[Hrel _]]; [|lia]. apply start_refused; [done| |done].
  rewrite wrapu_small; [done|]. unfold HEADER_SIZE in *. lia.
Qed.

(** The abstract step is determined by the result. *)
Lemma heap_step_fun sbrk h act res h1 h2 : heap_step sbrk h act res h1 → heap_step sbrk h act res h2 → h1 = h2.
Proof.
  intros H1 H2. destruct H1; inversion H2; subst; congruence.
Qed.

Lemma reachable_state sbrk h a : 0 < sbrk → reachable sbrk h a → client_state sbrk h a.
Proof.
  intros Hs. induction 1 as [|h a act res a' h' _ IH Ha Hrun Hstep]; [by left|].
  destruct (first_page_refused sbrk a act) eqn:Hpage; [by rewrite (client_refused sbrk h a act Hs IH Ha Hpage) in Hrun|].
  destruct (client_step sbrk h a act Hs IH Ha Hpage) as (res2&a2&h2&Hrun2&Hstep2&Hst).
  rewrite Hrun in Hrun2. injection Hrun2 as <- <-. by rewrite (heap_step_fun _ _ _ _ _ _ Hstep Hstep2).
Qed.
End relation.

(** ** Properties *)

Definition granting : Z → bool := λ _, true.
Definition refusing : Z → bool := λ _, false.

Section properties.
Implicit Types (sbrk : Z) (h : heap) (a : alloc) (n : tnode).

Lemma node_lim lim n : is_node n → n.1 = lim → offset n + size_of n.1 ≤ size_of lim → n = root lim.
Proof.
  intros [Hb Hk] Hlim Hr. destruct n as [b k]. cbn in *. subst b. unfold offset, root in *. cbn in *.
  pose proof (size_of_ge lim Hb). f_equal. nia.
Qed.

(** Without allocated blocks, a free node that is not the root would have a free
    sibling. *)
Lemma only_root_free lim F : shape lim F ∅ None → F = {[root lim]}.
Proof.
  intros S. pose proof (s_lim _ _ _ _ S) as Hl. pose proof (is_node_root lim Hl) as Hroot.
  assert (Hfree : ∀ m, owns F ∅ None m → m ∈ F).
  { intros m [|[[? Hm]|?]]; [done| |done]. by rewrite lookup_empty in Hm. }
  assert (Hgo : ∀ k n, 27 - n.1 < Z.of_nat k → n ∈ F → n = root lim).
  { intros k. induction k as [|k IH]; intros n Hk Hn; destruct (s_node _ _ _ _ S n ltac:(by left)) as (Hnn&Hb&Hr).
    { destruct Hnn. lia. }
    destruct (Z.eq_dec n.1 lim) as [Hlim|Hlim]; [by apply node_lim|]. exfalso.
    assert (1 ≤ n.1) as H1 by lia. pose proof (is_node_sibling n Hnn H1) as Hsn.
    destruct (is_node_parent n Hnn H1) as [Hpn _]. pose proof (offset_nonneg n Hnn). pose proof (size_pos n Hnn).
    pose proof (covers_offset n Hnn) as Hcn. pose proof (covers_offset _ Hsn) as Hcs.
    assert (∀ x, covers n x ∨ covers (sibling n) x → covers (parent n) x) as Hcov by (intros x; by apply covers_sibling).
    assert (covers (root lim) (offset (sibling n))) as Hin%covers_root.
    { apply (share_nested (root lim) (parent n) (offset n)); auto; [cbn; lia|]. apply covers_root. lia. }
    destruct (s_cover _ _ _ _ S _ Hin) as (m&Hm&Hmc).
    destruct (s_node _ _ _ _ S m Hm) as (Hmn&Hmb&Hmr). apply Hfree in Hm.
    destruct (Z.lt_total n.1 m.1) as [Hlt|[Heq|Hlt]].
    - assert (m = root lim) as -> by (apply IH; [lia|done]). cbn in Hlt. lia.
    - apply (s_merged _ _ _ _ S n Hn). assert (m = sibling n) as <-; [|done].
      destruct (nested m (sibling n) Hmn Hsn ltac:(cbn; lia)) as [H2 _].
      { intros Hd. by apply (proj1 (disjoint_covers _ _ Hmn Hsn) Hd (offset (sibling n))). }
      destruct (nested (sibling n) m Hsn Hmn ltac:(cbn; lia)) as [H3 _].
      { intros Hd. by apply (proj1 (disjoint_covers _ _ Hsn Hmn) Hd (offset (sibling n))). }
      apply (addr_inj 0); [done|done|unfold addr; lia].
    - assert (m ≠ n) as Hne by (intros ->; lia).
      pose proof (s_disjoint _ _ _ _ S m n ltac:(by left) ltac:(by left) Hne) as Hd.
      apply (proj1 (disjoint_covers m n Hmn Hnn) Hd (offset n)); [|done].
      apply (share_nested m (parent n) (offset (sibling n))); auto; cbn; lia. }
  apply set_eq. intros n. rewrite elem_of_singleton. split.
  - intros Hn. apply (Hgo 28%nat); [|done]. destruct (s_node _ _ _ _ S n ltac:(by left)) as ([]&_). lia.
  - intros ->. pose proof (size_of_ge lim Hl). destruct (s_cover _ _ _ _ S 0 ltac:(lia)) as (m&Hm%Hfree&_).
    rewrite <- (Hgo 28%nat m); [done| |done]. destruct (s_node _ _ _ _ S m ltac:(by left)) as ([]&_). lia.
Qed.

(** C5: (the allocator implements its specification) an adaptive client allocates,
    with requests that are not within 8 of [2^64], frees what it owns, and reads
    and writes inside of its blocks, while the kernel grants or refuses memory in
    any way.  When the kernel refuses the 16 bytes that the first call starts
    with, that call is undefined behaviour, because nothing tests the refusal.
    Every other call returns, with a result the abstract heap allows: a block
    [bmalloc] returns lies apart from all blocks in use, and a read gives the word
    last written there. *)
Theorem buddy_refines sbrk h a act :
  0 < sbrk → reachable sbrk h a → allowed h act →
  if first_page_refused sbrk a act then exec sbrk act a = Err Undefined
  else ∃ res a' h', exec sbrk act a = Ok (res, a') ∧ heap_step sbrk h act res h' ∧ reachable sbrk h' a'.
Proof.
  intros Hs Hreach Ha. pose proof (reachable_state sbrk h a Hs Hreach) as Hst.
  destruct (first_page_refused sbrk a act) eqn:Hpage; [by apply (client_refused sbrk h a)|].
  destruct (client_step sbrk h a act Hs Hst Ha Hpage) as (res&a'&h'&Hrun&Hstep&_).
  exists res, a', h'. split_and!; [done..|]. by eapply reach_step.
Qed.

(** C27: (complete coalescing) when the client has freed all its blocks, the free
    lists hold one block, the root of the tree that spans the whole heap. *)
Theorem buddy_coalesces sbrk a :
  0 < sbrk → reachable sbrk ∅ a → base_ptr a ≠ 0 →
  (∃ m, list_pop (bucket_addr (bucket_limit a)) (memory a) = Ok (Some (base_ptr a), m)) ∧
  ∀ b, bucket_limit a < b ≤ 27 → list_pop (bucket_addr b) (memory a) = Ok (None, memory a).
Proof.
  intros Hs Hreach Hb. destruct (reachable_state sbrk ∅ a Hs Hreach) as [[_ ->]|(Hbase&lim&F&U&I&Hf&HU)]; [done|].
  assert (U = ∅) as ->.
  { apply map_empty. intros n. destruct (U !! n) as [r|] eqn:Hn; [|done].
    destruct (HU n r Hn) as [? Hl]. by rewrite lookup_empty in Hl. }
  pose proof (h_shape _ _ _ _ _ _ _ I) as S. pose proof (s_lim _ _ _ _ S) as Hl.
  pose proof (only_root_free lim F S) as ->. rewrite (h_limit _ _ _ _ _ _ _ I).
  assert (addr (base_ptr a) (root lim) = base_ptr a) as Haddr by (unfold addr, offset, root; cbn [fst snd]; lia).
  pose proof (free_nodes _ _ _ _ _ _ _ I) as Hnodes. split.
  - destruct (lists_pop _ _ lim _ lim ltac:(lia) ltac:(lia) (h_lists _ _ _ _ _ _ _ I) Hnodes)
      as [[_ Hnone]|(n&m'&->%elem_of_singleton&_&Hpop&_)].
    + destruct (Hnone 0). by apply elem_of_singleton.
    + exists m'. by rewrite Haddr in Hpop.
  - intros b Hb'. destruct (lists_pop _ _ lim _ b ltac:(lia) ltac:(lia) (h_lists _ _ _ _ _ _ _ I) Hnodes)
      as [[Hpop _]|(n&m'&->%elem_of_singleton&Hn&_)]; [done|]. cbn in Hn. lia.
Qed.

(** No free block of the tree could hold a request of [r] bytes. *)
Definition exhausted (a : alloc) (r : Z) : Prop :=
  bucket_limit a = 0 ∧
  ∀ b, 0 ≤ b ≤ 27 → r + HEADER_SIZE ≤ size_of b → list_pop (bucket_addr b) (memory a) = Ok (None, memory a).

Lemma related_null sbrk h a r a' :
  related sbrk h a → 0 ≤ r → r + HEADER_SIZE ≤ MAX_ALLOC →
  bmalloc granting sbrk r a = Ok (None, a') → exhausted a' r.
Proof.
  intros (Hbase&lim&F&U&I&_) Hr Hmax Hrun.
  assert (u64 (r + HEADER_SIZE) = r + HEADER_SIZE) as Hw.
  { apply wrapu_small. unfold MAX_ALLOC, MAX_ALLOC_LOG2, HEADER_SIZE in *. rewrite Z.shiftl_1_l in Hmax. lia. }
  destruct (bmalloc_ok _ granting sbrk r a lim F U I ltac:(by rewrite Hw)) as (b&res&a2&Hrb&Hrun2&_&Hpost).
  rewrite Hrun in Hrun2. injection Hrun2 as <- <-. destruct Hpost as (lim'&F'&I'&Hall).
  destruct (Hall ltac:(done)) as [-> Hbig]. split; [apply I'|]. intros b' Hb' Hfit.
  destruct (lists_pop _ _ 0 _ b' ltac:(lia) ltac:(lia) (h_lists _ _ _ _ _ _ _ I') (free_nodes _ _ _ _ _ _ _ I'))
    as [[Hpop _]|(n&m'&Hn&<-&_)]; [done|]. exfalso. specialize (Hbig n Hn).
  destruct (request_bucket_ok r ltac:(by rewrite Hw)) as (b2&(Hl2&_&_)&Hmin). destruct Hrb as (Hl&Hb&_).
  rewrite Hl in Hl2. injection Hl2 as <-. rewrite Hw in Hmin. destruct Hmin as [->|Hmin]; [lia|].
  assert (size_of n.1 ≤ size_of (b + 1)) by (unfold size_of; apply Z.pow_le_mono_r; lia). lia.
Qed.

(** C28: (no spurious failure) when the kernel grants every break, [bmalloc] only
    returns NULL for a request that fits the address space if the tree has grown
    to its full 2 GiB and no free block is as large as the request with its header. *)
Theorem bmalloc_null_means_full sbrk h a r a' :
  0 < sbrk → reachable sbrk h a → 0 ≤ r → r + HEADER_SIZE ≤ MAX_ALLOC →
  bmalloc granting sbrk r a = Ok (None, a') → exhausted a' r.
Proof.
  intros Hs Hreach Hr Hmax Hrun. destruct (reachable_state sbrk h a Hs Hreach) as [[-> ->]|Hrel].
  - destruct (start_related sbrk granting Hs eq_refl) as (a0&Hrel&Heq).
    rewrite Heq in Hrun; [by eapply related_null|]. rewrite wrapu_small; [done|].
    unfold MAX_ALLOC, MAX_ALLOC_LOG2, HEADER_SIZE in *. rewrite Z.shiftl_1_l in Hmax. lia.
  - by eapply related_null.
Qed.

(** (unchecked steps) a request within 8 bytes of [2^64] passes the size test
    of [bmalloc], because adding the header wraps around, and is granted a block
    of 16 bytes, so that the next block starts 16 bytes behind it; and when the
    kernel refuses the first 16 bytes, the first call writes where no memory is. *)
Theorem bmalloc_overflow r :
  2 ^ 64 - 8 ≤ r < 2 ^ 64 →
  (∃ a1 a2, bmalloc granting 4096 r alloc0 = Ok (Some 4104, a1) ∧
    bmalloc granting 4096 8 a1 = Ok (Some 4120, a2)) ∧
  bmalloc refusing 4096 8 alloc0 = Err Undefined.
Proof.
  intros Hr. split; [|by vm_compute].
  assert (u64 (r + HEADER_SIZE) = r + 8 - 2 ^ 64) as Hw.
  { unfold wrapu, HEADER_SIZE. rewrite <- (Z_mod_plus_full _ (-1)), Z.mod_small; lia. }
  unfold bmalloc at 1. change MAX_ALLOC with (2 ^ 31). rewrite Hw, (proj2 (Z.ltb_ge _ _)) by lia.
  unfold bucket_for_request, bucket_loop. fold bucket_loop.
  change MIN_ALLOC with 16. rewrite (proj2 (Z.ltb_ge 16 _)) by lia.
  eexists _, _. split; [vm_compute; reflexivity|]. vm_compute. reflexivity.
Qed.
End properties.

(** ** Witnesses *)

Lemma first_malloc r a' :
  0 ≤ r → r + HEADER_SIZE ≤ MAX_ALLOC → bmalloc granting 4096 r alloc0 = Ok (Some 4104, a') →
  reachable 4096 {[4104 := (r, ∅)]} a'.
Proof.
  intros Hr Hmax Hrun. eapply (reach_step _ ∅ alloc0 (Malloc granting r)); [constructor| |exact Hrun|].
  - cbn. unfold MAX_ALLOC, MAX_ALLOC_LOG2, HEADER_SIZE in *. rewrite Z.shiftl_1_l in Hmax. lia.
  - constructor; [lia|done|done|done|]. intros q r' c Hq. by rewrite lookup_empty in Hq.
Qed.

Definition after_malloc (r : Z) : alloc :=
  match bmalloc granting 4096 r alloc0 with Ok (_, a) => a | Err _ => alloc0 end.
Definition after_free (r : Z) : alloc :=
  match bfree 4104 (after_malloc r) with Ok (_, a) => a | Err _ => alloc0 end.

Lemma buddy_refines_witness :
  bmalloc refusing 4096 100 alloc0 = Err Undefined ∧
  ∃ res a' h', exec 4096 (Malloc refusing 100) (after_malloc 64) = Ok (res, a') ∧
    heap_step 4096 {[4104 := (64, ∅)]} (Malloc refusing 100) res h' ∧ reachable 4096 h' a'.
Proof.
  split.
  - apply (buddy_refines 4096 ∅ alloc0 (Malloc refusing 100)); [lia|constructor|split; vm_compute; congruence].
  - apply (buddy_refines 4096 {[4104 := (64, ∅)]} (after_malloc 64) (Malloc refusing 100)).
    + lia.
    + apply first_malloc; [lia|vm_compute; congruence|vm_compute; reflexivity].
    + split; vm_compute; congruence.
Defined.

Lemma buddy_coalesces_witness :
  (∃ m, list_pop (bucket_addr (bucket_limit (after_free 64))) (memory (after_free 64)) =
     Ok (Some (base_ptr (after_free 64)), m)) ∧
  ∀ b, bucket_limit (after_free 64) < b ≤ 27 →
    list_pop (bucket_addr b) (memory (after_free 64)) = Ok (None, memory (after_free 64)).
Proof.
  apply (buddy_coalesces 4096).
  - lia.
  - eapply (reach_step _ {[4104 := (64, ∅)]} (after_malloc 64) (Free 4104) None).
    + apply first_malloc; [lia|vm_compute; congruence|vm_compute; reflexivity].
    + right. by eexists.
    + vm_compute. reflexivity.
    + replace ∅ with (delete 4104 {[4104 := (64, ∅)]} : heap) by (by rewrite delete_singleton_eq).
      constructor; [lia|by eexists].
  - vm_compute. congruence.
Defined.

Lemma bmalloc_null_means_full_witness :
  exhausted (after_malloc (2 ^ 31 - 8)) 8.
Proof.
  apply (bmalloc_null_means_full 4096 {[4104 := (2 ^ 31 - 8, ∅)]} (after_malloc (2 ^ 31 - 8))).
  - lia.
  - apply first_malloc; [lia|vm_compute; congruence|vm_compute; reflexivity].
  - lia.
  - vm_compute. congruence.
  - vm_compute. reflexivity.
Defined.

Lemma bmalloc_overflow_witness :
  (∃ a1 a2, bmalloc granting 4096 (2 ^ 64 - 1) alloc0 = Ok (Some 4104, a1) ∧
    bmalloc granting 4096 8 a1 = Ok (Some 4120, a2)) ∧
  bmalloc refusing 4096 8 alloc0 = Err Undefined.
Proof. apply (bmalloc_overflow (2 ^ 64 - 1)). lia. Defined.
