(* ===== verification/BuddyMain.v ===== *)
(** * The test program of buddy-alloc/alloc.c

    [main] of alloc.c allocates and frees blocks of different sizes and asserts that
    each allocation succeeds. *)
From S2P Require Import Prelude CircularList Buddy BuddyTree BuddyAlloc BuddyClient.
From stdpp Require Import gmap list.
#[local] Open Scope Z_scope.
#[local] Open Scope c_scope.

Section program.
Context (brk : Z → bool) (sbrk : Z).

(** [p = bmalloc(request); assert(p);] *)
Definition take (request : Z) : M alloc Z :=
  p ← bmalloc brk sbrk request;
  match p with Some p => ret p | None => fail AssertFailed end.

Definition main : M alloc Z :=
  a1 ← take 64;
  a ← take 100;
  bfree a ;;
  a ← take 32;
  bfree a ;;
  a ← take 128;
  bfree a ;;
  a ← take 100;
  bfree a1 ;;
  a1 ← take 16;
  bfree a1 ;;
  a1 ← take 100;
  a2 ← take 10000;
  bfree a2 ;;
  bfree a1 ;;
  bfree a ;;
  ret 0.
End program.

(** The free list of bucket [b], if it has at most one block. *)
Definition only_block (b : Z) (m : mem) : option (option Z) :=
  match list_pop (bucket_addr b) m with
  | Ok (None, _) => Some None
  | Ok (Some p, m) => match list_pop (bucket_addr b) m with Ok (None, _) => Some (Some p) | _ => None end
  | Err _ => None
  end.
Definition blocks (a : alloc) : list (option (option Z)) := (λ b, only_block b (memory a)) <$> seqZ (bucket_limit a) (28 - bucket_limit a).

(** The tree that spans a heap of [n] bytes at [base], all of it in one free block. *)
Definition all_free (base n : Z) (a : alloc) : Prop :=
  base_ptr a = base ∧ size_of (bucket_limit a) = n ∧ blocks a = Some (Some base) :: replicate (Z.to_nat (27 - bucket_limit a)) (Some None).

Definition checked_free (base n : Z) (a : alloc) : bool :=
  bool_decide (base_ptr a = base ∧ size_of (bucket_limit a) = n) &&
  bool_decide (blocks a = Some (Some base) :: replicate (Z.to_nat (27 - bucket_limit a)) (Some None)).

Lemma checked_free_true base n a : checked_free base n a = true → all_free base n a.
Proof. unfold checked_free. intros (H1%bool_decide_eq_true_1&H2%bool_decide_eq_true_1)%andb_true_iff. unfold all_free. tauto. Qed.

Definition passes (brk : Z → bool) (sbrk n : Z) : bool :=
  match main brk sbrk alloc0 with Ok (r, a) => (r =? 0) && checked_free sbrk n a | Err _ => false end.

Lemma passes_true brk sbrk n : passes brk sbrk n = true → ∃ a, main brk sbrk alloc0 = Ok (0, a) ∧ all_free sbrk n a.
Proof.
  unfold passes. destruct (main brk sbrk alloc0) as [[r a]|]; [|done]. intros (->%Z.eqb_eq&H%checked_free_true)%andb_true_iff. by exists a.
Qed.

(** The test program: where the heap starts at one of these breaks and may grow to
    32 KiB, no assertion of [main] fails, and it leaves one free block of all of it;
    with a byte less the assertion behind [bmalloc(10000)] fails. *)
Theorem buddy_main_passes sbrk : sbrk ∈ [4096; 4096 * 1000; 93824992256000] →
  (∃ a, main (λ p, p <=? sbrk + 32768) sbrk alloc0 = Ok (0, a) ∧ all_free sbrk 32768 a) ∧
  main (λ p, p <=? sbrk + 32767) sbrk alloc0 = Err AssertFailed.
Proof.
  intros Hs. assert (passes (λ p, p <=? sbrk + 32768) sbrk 32768 = true ∧ main (λ p, p <=? sbrk + 32767) sbrk alloc0 = Err AssertFailed) as [H1 H2].
  { revert Hs. rewrite !elem_of_cons, elem_of_nil. intros [->|[->|[->|[]]]]; by vm_compute. }
  split; [by apply passes_true|done].
Qed.

Lemma buddy_main_passes_witness :
  (∃ a, main (λ p, p <=? 4096 + 32768) 4096 alloc0 = Ok (0, a) ∧ all_free 4096 32768 a) ∧
  main (λ p, p <=? 4096 + 32767) 4096 alloc0 = Err AssertFailed.
Proof. apply (buddy_main_passes 4096). by left. Defined.
