(* ===== verification/EventLoop.v ===== *)
(** * The event loop of event-loop/ev.c

    Entries (descriptors and timers) registered with an epoll instance, and the
    loop that waits for events and calls their callbacks.  The state holds the
    objects of the program, the open descriptors with the interest lists the
    kernel keeps for epoll, and the answers the kernel will give.  The callbacks
    are a parameter: any computation on the state. *)
From S2P Require Import Prelude.
From stdpp Require Import gmap list.
#[local] Open Scope Z_scope.
#[local] Open Scope c_scope.

Definition EV_READ : Z := 1.
Definition EV_WRITE : Z := 2.
Definition EV_TIMEOUT_ONESHOT : Z := 4.
Definition EV_TIMEOUT_PERIODIC : Z := 8.
Definition EV_SIGNAL : Z := 16.
Definition EV_CLOEXEC : Z := 1.
Definition EVE_EPOLL_ARRAY_SIZE : nat := 64.

(** Constants of the system headers. *)
Definition EINVAL : Z := 22.
Definition EPOLL_CLOEXEC : Z := 0x80000.
Definition EPOLLIN : Z := 1.
Definition EPOLLPRI : Z := 2.
Definition EPOLLERR : Z := 8.
Definition EPOLLHUP : Z := 16.
Definition TIMER_FLAGS : Z := Z.lor (Z.lor EPOLLIN EPOLLPRI) (Z.lor EPOLLERR EPOLLHUP).

(** ** State *)

Record ev := mk_ev { ev_fd : Z; break_loop : Z; ev_entries : Z }.

(** The block [priv_data] points to; it is allocated and freed together with the
    entry. *)
Record ev_entry_data_epoll := mk_data { flags : Z; signal_mask : Z }.

Record ev_entry := mk_entry {
  e_fd : Z;
  e_type : Z;
  e_raw : Z;
  e_timespec : Z * Z;
  e_cb : Z;
  e_data : Z;
  priv_data : ev_entry_data_epoll
}.

Definition set_e_fd (v : Z) (x : ev_entry) : ev_entry :=
  mk_entry v (e_type x) (e_raw x) (e_timespec x) (e_cb x) (e_data x) (priv_data x).
Definition set_flags (v : Z) (x : ev_entry) : ev_entry :=
  mk_entry (e_fd x) (e_type x) (e_raw x) (e_timespec x) (e_cb x) (e_data x) (mk_data v (signal_mask (priv_data x))).

(** What an open descriptor refers to: an epoll instance has its interest list,
    from descriptors to the event mask and the pointer of the user; a timer its
    first expiration (relative or absolute) and its interval. *)
Inductive file :=
| EpollFd (interest : gmap Z (Z * Z))
| TimerFd (absolute : bool) (it_value it_interval : Z * Z)
| SignalFd (mask : Z)
| OtherFd.

(** [pending] is what a read of a ready descriptor will get, [batch] the events
    of the current round of the loop that have not been processed, [calls] the
    callbacks that have been called, [memory] the objects of the callbacks. *)
Record world := mk_world {
  evs : gmap Z ev;
  entries : gmap Z ev_entry;
  files : gmap Z file;
  nonblock : gset Z;
  pending : gmap Z (list Z);
  clock : Z * Z;
  answers : list Z;
  batch : list Z;
  calls : list (Z * list Z);
  memory : gmap Z (list Z)
}.

Definition set_evs (v : gmap Z ev) (w : world) : world :=
  mk_world v (entries w) (files w) (nonblock w) (pending w) (clock w) (answers w) (batch w) (calls w) (memory w).
Definition set_entries (v : gmap Z ev_entry) (w : world) : world :=
  mk_world (evs w) v (files w) (nonblock w) (pending w) (clock w) (answers w) (batch w) (calls w) (memory w).
Definition set_files (v : gmap Z file) (w : world) : world :=
  mk_world (evs w) (entries w) v (nonblock w) (pending w) (clock w) (answers w) (batch w) (calls w) (memory w).
Definition set_nonblock (v : gset Z) (w : world) : world :=
  mk_world (evs w) (entries w) (files w) v (pending w) (clock w) (answers w) (batch w) (calls w) (memory w).
Definition set_pending (v : gmap Z (list Z)) (w : world) : world :=
  mk_world (evs w) (entries w) (files w) (nonblock w) v (clock w) (answers w) (batch w) (calls w) (memory w).
Definition set_answers (v : list Z) (w : world) : world :=
  mk_world (evs w) (entries w) (files w) (nonblock w) (pending w) (clock w) v (batch w) (calls w) (memory w).
Definition set_batch (v : list Z) (w : world) : world :=
  mk_world (evs w) (entries w) (files w) (nonblock w) (pending w) (clock w) (answers w) v (calls w) (memory w).
Definition set_calls (v : list (Z * list Z)) (w : world) : world :=
  mk_world (evs w) (entries w) (files w) (nonblock w) (pending w) (clock w) (answers w) (batch w) v (memory w).
Definition set_memory (v : gmap Z (list Z)) (w : world) : world :=
  mk_world (evs w) (entries w) (files w) (nonblock w) (pending w) (clock w) (answers w) (batch w) (calls w) v.

(** ** The system

    [answer] is the kernel's next answer; a negative one is a failure, and so is
    one that is not possible (a descriptor that is open, an address in use). *)
Definition answer : M world Z := λ w,
  match answers w with
  | [] => Ok (-1, w)
  | v :: vs => Ok (v, set_answers vs w)
  end.

Definition new_fd (f : file) : M world Z :=
  fd ← answer;
  w ← gets id;
  if (fd <? 0) || (2 ^ 31 <=? fd) || bool_decide (is_Some (files w !! fd)) then ret (-1)
  else modify (λ w, set_files (<[fd := f]> (files w)) w) ;; ret fd.

Definition malloc : M world Z :=
  p ← answer;
  w ← gets id;
  if (p <=? 0) || bool_decide (is_Some (evs w !! p) ∨ is_Some (entries w !! p) ∨ is_Some (memory w !! p)) then ret 0
  else ret p.

(** Closing a descriptor takes it out of the interest lists, and what was to be
    read from it is gone. *)
Definition forget (fd : Z) (f : file) : file :=
  match f with EpollFd reg => EpollFd (delete fd reg) | _ => f end.
Definition close (fd : Z) : M world unit :=
  modify (λ w, set_pending (delete fd (pending w)) (set_files (forget fd <$> delete fd (files w)) w)).

Definition epoll_create1 : M world Z := new_fd (EpollFd ∅).
Definition timerfd_create : M world Z := new_fd (TimerFd false (0, 0) (0, 0)).
Definition signalfd (mask : Z) : M world Z := new_fd (SignalFd mask).

Definition timerfd_settime (fd : Z) (absolute : bool) (it_value it_interval : Z * Z) : M world Z :=
  r ← answer;
  if r <? 0 then ret (-1)
  else modify (λ w, set_files (<[fd := TimerFd absolute it_value it_interval]> (files w)) w) ;; ret 0.

Definition clock_gettime : M world (Z * (Z * Z)) :=
  r ← answer;
  now ← gets clock;
  ret (if r <? 0 then -1 else 0, now).

Definition interest (w : world) (epfd : Z) : option (gmap Z (Z * Z)) :=
  match files w !! epfd with Some (EpollFd reg) => Some reg | _ => None end.

Definition EPOLL_CTL_ADD (epfd fd events ptr : Z) : M world Z :=
  r ← answer;
  w ← gets id;
  match interest w epfd, files w !! fd with
  | Some reg, Some _ =>
      if (r <? 0) || bool_decide (is_Some (reg !! fd)) || (fd =? epfd) then ret (-1)
      else modify (λ w, set_files (<[epfd := EpollFd (<[fd := (events, ptr)]> reg)]> (files w)) w) ;; ret 0
  | _, _ => ret (-1)
  end.

Definition EPOLL_CTL_DEL (epfd fd : Z) : M world Z :=
  w ← gets id;
  match interest w epfd with
  | Some reg =>
      if bool_decide (is_Some (reg !! fd)) then
        modify (λ w, set_files (<[epfd := EpollFd (delete fd reg)]> (files w)) w) ;; ret 0
      else ret (-1)
  | None => ret (-1)
  end.

(** [read] of a descriptor that is not blocking; it takes what is there. *)
Definition read (fd : Z) : M world (option (list Z)) :=
  w ← gets id;
  match files w !! fd, pending w !! fd with
  | Some _, Some (v :: vs) => modify (λ w, set_pending (delete fd (pending w)) w) ;; ret (Some (v :: vs))
  | _, _ => ret None
  end.

(** A descriptor that can be in the result of [epoll_wait]: it is registered, and
    a timer or signal is only reported when there is something to read. *)
Definition reportable (w : world) (reg : gmap Z (Z * Z)) (r : Z * list Z) : bool :=
  bool_decide (is_Some (reg !! r.1)) &&
  match files w !! r.1, r.2 with
  | Some (TimerFd _ _ _), [] | Some (SignalFd _), [] => false
  | _, _ => true
  end.

(** The events for the descriptors [ready], each with what there is to read: the
    first one for every descriptor, at most [max] of them. *)
Fixpoint report (w : world) (reg : gmap Z (Z * Z)) (max : nat) (ready : list (Z * list Z)) (seen : gset Z)
  : list (Z * list Z) :=
  match max, ready with
  | S max, r :: ready =>
      if reportable w reg r && bool_decide (r.1 ∉ seen)
      then r :: report w reg max ready ({[r.1]} ∪ seen)
      else report w reg (S max) ready seen
  | _, _ => []
  end.

Definition epoll_wait (epfd : Z) (ready : list (Z * list Z)) : M world (list Z) :=
  w ← gets id;
  match interest w epfd with
  | None => fail Undefined
  | Some reg =>
      let events := report w reg EVE_EPOLL_ARRAY_SIZE ready ∅ in
      modify (λ w, set_pending (list_to_map events ∪ pending w) w) ;;
      ret (map (λ r, default 0 (snd <$> reg !! r.1)) events)
  end.

(** ** Objects *)

Definition get_ev (p : Z) : M world ev := gets_some (λ w, evs w !! p).
Definition set_ev (p : Z) (v : ev) : M world unit := modify (λ w, set_evs (<[p := v]> (evs w)) w).
Definition get_entry (p : Z) : M world ev_entry := gets_some (λ w, entries w !! p).
Definition set_entry (p : Z) (x : ev_entry) : M world unit := modify (λ w, set_entries (<[p := x]> (entries w)) w).

Definition struct_ev_new_internal : M world Z :=
  p ← malloc;
  if p =? 0 then ret 0
  else set_ev p (mk_ev 0 0 0) ;; ret p.

Definition ev_run_out (p : Z) : M world Z :=
  v ← get_ev p;
  set_ev p (mk_ev (ev_fd v) 1 (ev_entries v)) ;;
  ret 0.

Definition ev_set_non_blocking (fd : Z) : M world Z :=
  r ← answer;
  if r <? 0 then ret (- EINVAL)
  else
    r ← answer;
    if r <? 0 then ret (- EINVAL)
    else modify (λ w, set_nonblock ({[fd]} ∪ nonblock w) w) ;; ret 0.

Definition ev_destroy (p : Z) : M world unit :=
  v ← get_ev p;
  close (ev_fd v) ;;
  modify (λ w, set_evs (delete p (evs w)) w).

Definition ev_new_flags_convert (fl : Z) : Z :=
  if fl =? 0 then 0
  else if fl =? EV_CLOEXEC then EPOLL_CLOEXEC
  else - EINVAL.

Definition ev_new (fl : Z) : M world Z :=
  if ev_new_flags_convert fl <? 0 then ret 0
  else
    p ← struct_ev_new_internal;
    if p =? 0 then ret 0
    else
      fd ← epoll_create1;
      if fd <? 0 then modify (λ w, set_evs (delete p (evs w)) w) ;; ret 0
      else set_ev p (mk_ev fd 0 0) ;; ret p.

(** The second allocation is the one of [priv_data]. *)
Definition ev_entry_new_epoll_internal : M world Z :=
  p ← malloc;
  if p =? 0 then ret 0
  else
    priv ← answer;
    if priv <=? 0 then ret 0
    else set_entry p (mk_entry 0 0 0 (0, 0) 0 0 (mk_data 0 0)) ;; ret p.

Definition ev_entry_new_raw (fd events cb data : Z) : M world Z :=
  p ← ev_entry_new_epoll_internal;
  if p =? 0 then ret 0
  else set_entry p (mk_entry fd events 1 (0, 0) cb data (mk_data events 0)) ;; ret p.

Definition ev_timer_oneshot_new (timespec : Z * Z) (cb data : Z) : M world Z :=
  p ← ev_entry_new_epoll_internal;
  if p =? 0 then ret 0
  else set_entry p (mk_entry 0 EV_TIMEOUT_ONESHOT 0 timespec cb data (mk_data 0 0)) ;; ret p.

Definition ev_timer_periodic_new (timespec : Z * Z) (cb data : Z) : M world Z :=
  p ← ev_entry_new_epoll_internal;
  if p =? 0 then ret 0
  else set_entry p (mk_entry 0 EV_TIMEOUT_PERIODIC 0 timespec cb data (mk_data 0 0)) ;; ret p.

Definition ev_entry_timer_free (x : ev_entry) : M world unit := close (e_fd x).
Definition ev_entry_signal_free (x : ev_entry) : M world unit := close (e_fd x).

Definition ev_entry_free (p : Z) : M world unit :=
  x ← get_entry p;
  (if truthy (e_raw x) then ret tt
   else if (e_type x =? EV_TIMEOUT_ONESHOT) || (e_type x =? EV_TIMEOUT_PERIODIC) then ev_entry_timer_free x
   else if e_type x =? EV_SIGNAL then ev_entry_signal_free x
   else ret tt) ;;
  modify (λ w, set_entries (delete p (entries w)) w).

(** ** Arming *)

(** The absolute time of expiration, with the overflow of the nanoseconds. *)
Definition oneshot_value (now timespec : Z * Z) : Z * Z :=
  let sec := now.1 + timespec.1 in
  let nsec := now.2 + timespec.2 in
  if 1000000000 <=? nsec then (sec + 1, nsec - 1000000000) else (sec, nsec).

(** The part the three functions share: after the descriptor is set up. *)
Definition armed (p fd : Z) : M world Z :=
  r ← ev_set_non_blocking fd;
  if r <? 0 then close fd ;; ret (- EINVAL)
  else
    x ← get_entry p;
    set_entry p (set_e_fd fd (set_flags TIMER_FLAGS x)) ;;
    ret 0.

Definition ev_arm_timerfd_oneshot (p : Z) : M world Z :=
  x ← get_entry p;
  ' (r, now) ← clock_gettime;
  if r <? 0 then ret (- EINVAL)
  else
    fd ← timerfd_create;
    if fd <? 0 then ret (- EINVAL)
    else
      r ← timerfd_settime fd true (oneshot_value now (e_timespec x)) (0, 0);
      if r <? 0 then close fd ;; ret (- EINVAL) else armed p fd.

Definition ev_arm_timerfd_periodic (p : Z) : M world Z :=
  x ← get_entry p;
  fd ← timerfd_create;
  if fd <? 0 then ret (- EINVAL)
  else
    r ← timerfd_settime fd false (e_timespec x) (e_timespec x);
    if r <? 0 then close fd ;; ret (- EINVAL) else armed p fd.

Definition ev_arm_signal (p : Z) : M world Z :=
  x ← get_entry p;
  r ← answer;
  if r <? 0 then ret (- EINVAL)
  else
    fd ← signalfd (signal_mask (priv_data x));
    if fd <? 0 then ret (- EINVAL) else armed p fd.

(** ** Registration *)

Definition ev_add (e p : Z) : M world Z :=
  x ← get_entry p;
  r ← (if truthy (e_raw x) then ret 0
       else if e_type x =? EV_TIMEOUT_ONESHOT then ev_arm_timerfd_oneshot p
       else if e_type x =? EV_TIMEOUT_PERIODIC then ev_arm_timerfd_periodic p
       else if e_type x =? EV_SIGNAL then ev_arm_signal p
       else ret 0);
  if negb (r =? 0) then ret (- EINVAL)
  else
    x ← get_entry p;
    v ← get_ev e;
    r ← EPOLL_CTL_ADD (ev_fd v) (e_fd x) (flags (priv_data x)) p;
    if r <? 0 then ret (- EINVAL)
    else set_ev e (mk_ev (ev_fd v) (break_loop v) (u64 (ev_entries v + 1))) ;; ret 0.

Definition ev_del (e p : Z) : M world Z :=
  v ← get_ev e;
  x ← get_entry p;
  r ← EPOLL_CTL_DEL (ev_fd v) (e_fd x);
  if r <? 0 then ret (- EINVAL)
  else set_ev e (mk_ev (ev_fd v) (break_loop v) (u64 (ev_entries v - 1))) ;; ret 0.

Definition ev_timer_cancel (e p : Z) : M world Z :=
  r ← ev_del e p;
  if negb (r =? 0) then ret (- EINVAL) else ret 0.

(** ** Dispatching *)

Section loop.
Context (user : Z → list Z → M world unit).

Definition call (cb : Z) (args : list Z) : M world unit :=
  modify (λ w, set_calls (calls w ++ [(cb, args)]) w) ;;
  user cb args.

Definition ev_process_timer_oneshot (e p : Z) : M world unit :=
  x ← get_entry p;
  missed ← read (e_fd x);
  match missed with
  | None => fail AssertFailed
  | Some _ =>
      ev_del e p ;;
      x ← get_entry p;
      call (e_cb x) [e_data x]
  end.

Definition ev_process_timer_periodic (p : Z) : M world unit :=
  x ← get_entry p;
  missed ← read (e_fd x);
  match missed with
  | None => fail AssertFailed
  | Some missed => call (e_cb x) [hd 0 missed; e_data x]
  end.

(** A signal that is read completely is its number and its sender. *)
Definition ev_process_signal (p : Z) : M world unit :=
  x ← get_entry p;
  siginfo ← read (e_fd x);
  match siginfo with
  | None => fail AssertFailed
  | Some [signo; pid] => call (e_cb x) [signo; pid; e_data x]
  | Some _ => ret tt
  end.

Definition ev_process_call_internal (e p : Z) : M world unit :=
  x ← get_entry p;
  if truthy (e_raw x) then call (e_cb x) [e_fd x; e_type x; e_data x]
  else if (e_type x =? EV_READ) || (e_type x =? EV_WRITE) then call (e_cb x) [e_fd x; e_type x; e_data x]
  else if e_type x =? EV_TIMEOUT_ONESHOT then ev_process_timer_oneshot e p
  else if e_type x =? EV_TIMEOUT_PERIODIC then ev_process_timer_periodic p
  else if e_type x =? EV_SIGNAL then ev_process_signal p
  else ret tt.

(** The loop over the array of events. *)
Fixpoint process_batch (e : Z) (events : list Z) : M world unit :=
  match events with
  | [] => ret tt
  | p :: events =>
      modify (set_batch events) ;;
      ev_process_call_internal e p ;;
      process_batch e events
  end.

(** [rounds] says how every [epoll_wait] will end: a failure, or the descriptors
    that are ready; after the last one it blocks for ever. *)
Fixpoint ev_loop (e : Z) (rounds : list (option (list (Z * list Z)))) : M world Z :=
  v ← get_ev e;
  if ev_entries v =? 0 then ret 0
  else match rounds with
  | [] => fail Blocked
  | None :: _ => ret (- EINVAL)
  | Some ready :: rounds =>
      events ← epoll_wait (ev_fd v) ready;
      process_batch e events ;;
      v ← get_ev e;
      if truthy (break_loop v) then ret 0 else ev_loop e rounds
  end.
End loop.

(** ** The invariant *)

(** Dispatching the entry reads its descriptor. *)
Definition reads (x : ev_entry) : bool :=
  negb (truthy (e_raw x)) &&
  ((e_type x =? EV_TIMEOUT_ONESHOT) || (e_type x =? EV_TIMEOUT_PERIODIC) || (e_type x =? EV_SIGNAL)).
Definition waits (f : file) : bool :=
  match f with TimerFd _ _ _ | SignalFd _ => true | _ => false end.
Definition fd_of (w : world) (p : Z) : Z := default 0 (e_fd <$> entries w !! p).

Definition batch_ok (w : world) : Prop :=
  ∀ p, p ∈ batch w → ∃ x, entries w !! p = Some x ∧
    (reads x = true → is_Some (files w !! e_fd x) ∧ ∃ d ds, pending w !! e_fd x = Some (d :: ds)).

(** The counter of the event object is the number of registered descriptors, and
    a registered pointer is an entry with that descriptor; an event that waits to
    be processed has its entry, and there is something to read for it. *)
Record inv (e : Z) (v : ev) (reg : gmap Z (Z * Z)) (w : world) : Prop := {
  i_ev : evs w !! e = Some v;
  i_epoll : files w !! ev_fd v = Some (EpollFd reg);
  i_count : ev_entries v = Z.of_nat (size reg);
  i_fds fd : is_Some (files w !! fd) → 0 ≤ fd < 2 ^ 31;
  i_self : reg !! ev_fd v = None;
  i_reg fd fl p : reg !! fd = Some (fl, p) → ∃ x f, entries w !! p = Some x ∧ e_fd x = fd ∧
    files w !! fd = Some f ∧ (reads x = true → waits f = true);
  i_batch : batch_ok w;
  i_nodup : NoDup (map (fd_of w) (batch w))
}.
Definition inv_ok (e : Z) (w : world) : Prop := ∃ v reg, inv e v reg w.

Definition registered (w : world) (e p : Z) : Prop :=
  ∃ v reg fd fl, evs w !! e = Some v ∧ files w !! ev_fd v = Some (EpollFd reg) ∧ reg !! fd = Some (fl, p).

(** The flag that ends the loop. *)
Definition break_of (w : world) (e : Z) : option Z := break_loop <$> evs w !! e.

(** ** The calls of a client *)

Inductive cmd :=
| NewRaw (fd events cb data : Z)
| NewOneshot (timespec : Z * Z) (cb data : Z)
| NewPeriodic (timespec : Z * Z) (cb data : Z)
| Add (p : Z)
| Del (p : Z)
| Cancel (p : Z)
| Free (p : Z)
| RunOut.

Definition exec_cmd (e : Z) (c : cmd) : M world Z :=
  match c with
  | NewRaw fd events cb data => ev_entry_new_raw fd events cb data
  | NewOneshot ts cb data => ev_timer_oneshot_new ts cb data
  | NewPeriodic ts cb data => ev_timer_periodic_new ts cb data
  | Add p => ev_add e p
  | Del p => ev_del e p
  | Cancel p => ev_timer_cancel e p
  | Free p => ev_entry_free p ;; ret 0
  | RunOut => ev_run_out e
  end.

(** An entry is added once, and freed when it is neither registered nor has an
    event waiting; the descriptor of a freed timer is its own, which it only is
    after the timer has been armed. *)
Definition allowed (e : Z) (w : world) (c : cmd) : Prop :=
  match c with
  | Add p => is_Some (entries w !! p) ∧ p ∉ batch w ∧ ¬ registered w e p
  | Del p | Cancel p => is_Some (entries w !! p)
  | Free p => ∃ x, entries w !! p = Some x ∧ p ∉ batch w ∧ ¬ registered w e p ∧
      (reads x = true →
        (∃ f, files w !! e_fd x = Some f ∧ waits f = true) ∧
        ∀ q y, q ∈ batch w ∨ registered w e q → entries w !! q = Some y → e_fd y ≠ e_fd x)
  | _ => True
  end.

(** No waiting event will read [fd]. *)
Definition unread (w : world) (fd : Z) : Prop :=
  ∀ q x, q ∈ batch w → entries w !! q = Some x → reads x = true → e_fd x ≠ fd.

Section invariant.
Implicit Types (w : world) (v : ev) (x : ev_entry) (reg : gmap Z (Z * Z)) (e p fd : Z).

Lemma size_fds (reg : gmap Z (Z * Z)) (N : Z) :
  0 ≤ N → (∀ fd, is_Some (reg !! fd) → 0 ≤ fd < N) → Z.of_nat (size reg) ≤ N.
Proof.
  intros HN Hb. assert (dom reg ⊆ list_to_set (seqZ 0 N)) as Hsub.
  { intros fd Hfd%elem_of_dom. apply elem_of_list_to_set, elem_of_seqZ. specialize (Hb fd Hfd). lia. }
  apply subseteq_size in Hsub. rewrite size_dom in Hsub.
  rewrite size_list_to_set in Hsub by apply NoDup_seqZ. rewrite length_seqZ in Hsub. lia.
Qed.

Lemma inv_size e v reg w : inv e v reg w → 0 ≤ ev_entries v < 2 ^ 32.
Proof.
  intros I. rewrite (i_count _ _ _ _ I). assert (Z.of_nat (size reg) ≤ 2 ^ 31); [|lia].
  apply size_fds; [lia|]. intros fd [[fl p] Hr]. destruct (i_reg _ _ _ _ I _ _ _ Hr) as (x&f&_&_&Hf&_).
  apply (i_fds _ _ _ _ I). by eexists.
Qed.

Lemma registered_inv e v reg w p : inv e v reg w → registered w e p ↔ ∃ fd fl, reg !! fd = Some (fl, p).
Proof.
  intros I. split.
  - intros (v'&reg'&fd&fl&Hv&Hf&Hr). rewrite (i_ev _ _ _ _ I) in Hv. injection Hv as <-.
    rewrite (i_epoll _ _ _ _ I) in Hf. injection Hf as <-. by exists fd, fl.
  - intros (fd&fl&Hr). exists v, reg, fd, fl. by destruct I.
Qed.

(** Changes that do not concern the invariant. *)
Lemma inv_answers e v reg w l : inv e v reg w → inv e v reg (set_answers l w).
Proof. by intros []. Qed.
Lemma inv_nonblock e v reg w s : inv e v reg w → inv e v reg (set_nonblock s w).
Proof. by intros []. Qed.
Lemma inv_calls e v reg w l : inv e v reg w → inv e v reg (set_calls l w).
Proof. by intros []. Qed.
Lemma inv_memory e v reg w m : inv e v reg w → inv e v reg (set_memory m w).
Proof. by intros []. Qed.

Lemma fd_of_insert w p q x : q ≠ p → fd_of (set_entries (<[p := x]> (entries w)) w) q = fd_of w q.
Proof. intros. unfold fd_of. cbn. by rewrite lookup_insert_ne. Qed.
Lemma fd_of_delete w p q : q ≠ p → fd_of (set_entries (delete p (entries w)) w) q = fd_of w q.
Proof. intros. unfold fd_of. cbn. by rewrite lookup_delete_ne. Qed.

Lemma map_fd_of w w' l : (∀ p, p ∈ l → fd_of w' p = fd_of w p) → map (fd_of w') l = map (fd_of w) l.
Proof. intros H. apply map_ext_in. intros p Hp. by apply H, list_elem_of_In. Qed.

Lemma inv_set_entry e v reg w p x :
  inv e v reg w → p ∉ batch w → ¬ registered w e p → inv e v reg (set_entries (<[p := x]> (entries w)) w).
Proof.
  intros I Hb Hr. rewrite (registered_inv _ _ _ _ _ I) in Hr. destruct I as [H1 H2 H3 H4 H5 H6 H7 H8]. split; cbn; try done.
  - intros fd fl q Hq. assert (q ≠ p) by (intros ->; apply Hr; eauto). rewrite lookup_insert_ne by done. by eapply H6.
  - intros q Hq. cbn in *. assert (q ≠ p) by (by intros ->). rewrite lookup_insert_ne by done. by apply H7.
  - rewrite (map_fd_of w); [done|]. intros q Hq. apply fd_of_insert. by intros ->.
Qed.

Lemma inv_delete_entry e v reg w p :
  inv e v reg w → p ∉ batch w → ¬ registered w e p → inv e v reg (set_entries (delete p (entries w)) w).
Proof.
  intros I Hb Hr. rewrite (registered_inv _ _ _ _ _ I) in Hr. destruct I as [H1 H2 H3 H4 H5 H6 H7 H8]. split; cbn; try done.
  - intros fd fl q Hq. assert (q ≠ p) by (intros ->; apply Hr; eauto). rewrite lookup_delete_ne by done. by eapply H6.
  - intros q Hq. cbn in *. assert (q ≠ p) by (by intros ->). rewrite lookup_delete_ne by done. by apply H7.
  - rewrite (map_fd_of w); [done|]. intros q Hq. apply fd_of_delete. by intros ->.
Qed.

Lemma batch_files w fd f : batch_ok w → batch_ok (set_files (<[fd := f]> (files w)) w).
Proof.
  intros H q Hq. destruct (H q Hq) as (x&Hx&Hre). exists x. split; [done|]. intros Ht.
  destruct (Hre Ht) as [? ?]. split; [|done]. cbn. rewrite lookup_insert_is_Some. destruct (decide (fd = e_fd x)); auto.
Qed.

(** A new descriptor, or a change of one that is not registered. *)
Lemma inv_set_file e v reg w fd f :
  inv e v reg w → 0 ≤ fd < 2 ^ 31 → fd ≠ ev_fd v → reg !! fd = None →
  inv e v reg (set_files (<[fd := f]> (files w)) w).
Proof.
  intros [H1 H2 H3 H4 H5 H6 H7 H8] Hfd Hne Hr. split; cbn; try done.
  - by rewrite lookup_insert_ne.
  - intros fd'. rewrite lookup_insert_is_Some. intros [->|[_ ?]]; [done|by apply H4].
  - intros fd' fl q Hq. assert (fd' ≠ fd) by (intros ->; congruence). rewrite lookup_insert_ne by done. by eapply H6.
  - by apply batch_files.
Qed.

Lemma inv_close e v reg w fd :
  inv e v reg w → fd ≠ ev_fd v → reg !! fd = None → unread w fd →
  inv e v reg (set_pending (delete fd (pending w)) (set_files (forget fd <$> delete fd (files w)) w)).
Proof.
  intros [H1 H2 H3 H4 H5 H6 H7 H8] Hne Hr Hu. split; cbn; try done.
  - rewrite lookup_fmap, lookup_delete_ne, H2 by done. cbn. by rewrite delete_id.
  - intros fd'. rewrite lookup_fmap, fmap_is_Some, lookup_delete_is_Some. intros [_ ?]. by apply H4.
  - intros fd' fl q Hq. destruct (H6 fd' fl q Hq) as (x&f&Hx&Hxf&Hf&Hw).
    assert (fd' ≠ fd) by (intros ->; congruence). exists x, (forget fd f).
    rewrite lookup_fmap, lookup_delete_ne, Hf by done. split_and!; [done|done|done|].
    intros Hre. specialize (Hw Hre). by destruct f.
  - intros q Hq. destruct (H7 q Hq) as (x&Hx&Hre). exists x. split; [done|]. intros Ht. destruct (Hre Ht) as [Hf Hp]. cbn.
    pose proof (Hu q x Hq Hx Ht) as Hne'. rewrite lookup_fmap, !lookup_delete_ne by done.
    by rewrite fmap_is_Some.
Qed.

Lemma inv_unread e v reg w fd : inv e v reg w → files w !! fd = None → unread w fd.
Proof.
  intros I Hfd q x Hq Hx Hre Heq. destruct (i_batch _ _ _ _ I q Hq) as (y&Hy&Hr).
  rewrite Hx in Hy. injection Hy as <-. destruct (Hr Hre) as [[? Hf] _]. congruence.
Qed.

(** Fresh descriptors are not part of what is known. *)
Lemma inv_fresh_fd e v reg w fd : inv e v reg w → files w !! fd = None → fd ≠ ev_fd v ∧ reg !! fd = None.
Proof.
  intros I Hfd. split.
  - intros ->. by rewrite (i_epoll _ _ _ _ I) in Hfd.
  - destruct (reg !! fd) as [[fl q]|] eqn:Hr; [|done].
    destruct (i_reg _ _ _ _ I _ _ _ Hr) as (x&f&_&_&Hf&_). congruence.
Qed.

(** *** System calls *)

Lemma answer_ok w : ∃ r l, answer w = Ok (r, set_answers l w).
Proof. unfold answer. destruct w as [? ? ? ? ? ? [|r l] ? ? ?]; cbn; by eexists _, _. Qed.

Lemma malloc_ok w : ∃ p l, malloc w = Ok (p, set_answers l w) ∧
  (p = 0 ∨ 0 < p ∧ evs w !! p = None ∧ entries w !! p = None ∧ memory w !! p = None).
Proof.
  destruct (answer_ok w) as (p&l&Hr). unfold malloc. rewrite (bind_ok _ _ _ _ _ Hr), (bind_ok _ _ _ _ _ (gets_run _ _)).
  cbn [evs entries memory set_answers id]. destruct (Z.leb_spec p 0); [exists 0, l; auto|].
  case_bool_decide as Hp; [exists 0, l; auto|]. exists p, l. split; [done|right]. split; [done|].
  rewrite !eq_None_not_Some. tauto.
Qed.

Lemma new_fd_ok f w : ∃ fd l, 
  new_fd f w = Ok (-1, set_answers l w) ∨
  0 ≤ fd < 2 ^ 31 ∧ files w !! fd = None ∧
    new_fd f w = Ok (fd, set_files (<[fd := f]> (files w)) (set_answers l w)).
Proof.
  destruct (answer_ok w) as (fd&l&Hr). exists fd, l. unfold new_fd.
  rewrite (bind_ok _ _ _ _ _ Hr), (bind_ok _ _ _ _ _ (gets_run _ _)). cbn [files set_answers id].
  destruct (Z.ltb_spec fd 0); [by left|]. destruct (Z.leb_spec (2 ^ 31) fd); [by left|].
  case_bool_decide as Hfd; [by left|]. right. rewrite eq_None_not_Some. split_and!; done.
Qed.

Lemma set_non_blocking_ok fd e v reg w :
  inv e v reg w →
  ∃ r w', ev_set_non_blocking fd w = Ok (r, w') ∧ inv e v reg w' ∧
    entries w' = entries w ∧ files w' = files w ∧ batch w' = batch w ∧ (r = 0 ∨ r = - EINVAL).
Proof.
  intros I. destruct (answer_ok w) as (r1&l1&H1). unfold ev_set_non_blocking. rewrite (bind_ok _ _ _ _ _ H1).
  destruct (r1 <? 0); [eexists _, _; split_and!; [done|by apply inv_answers|auto..]|].
  destruct (answer_ok (set_answers l1 w)) as (r2&l2&H2). rewrite (bind_ok _ _ _ _ _ H2).
  destruct (r2 <? 0); (eexists _, _; split_and!; [done|by repeat first [apply inv_nonblock|apply inv_answers]|auto..]).
Qed.

Lemma get_entry_run {B} (k : ev_entry → M world B) w p x :
  entries w !! p = Some x → bind (get_entry p) k w = k x w.
Proof. intros Hx. by apply bind_ok, gets_some_ok. Qed.
Lemma get_ev_run {B} (k : ev → M world B) w e v : evs w !! e = Some v → bind (get_ev e) k w = k v w.
Proof. intros Hx. by apply bind_ok, gets_some_ok. Qed.

(** *** Arming *)

(** What the three ways of arming leave: the entry has got a descriptor of its
    own, or nothing has happened to it. *)
Definition armed_post (e : Z) (v : ev) (reg : gmap Z (Z * Z)) (w : world) (p : Z) (x : ev_entry) (r : Z) (w' : world) : Prop :=
  inv e v reg w' ∧ batch w' = batch w ∧
  (r = - EINVAL ∧ entries w' = entries w ∨
   r = 0 ∧ ∃ fd f, entries w' = <[p := set_e_fd fd (set_flags TIMER_FLAGS x)]> (entries w) ∧
     files w' !! fd = Some f ∧ waits f = true ∧ reg !! fd = None ∧ fd ≠ ev_fd v).

Lemma armed_ok e v reg w p x fd f :
  inv e v reg w → entries w !! p = Some x → p ∉ batch w → ¬ registered w e p →
  files w !! fd = Some f → waits f = true → fd ≠ ev_fd v → reg !! fd = None → unread w fd →
  ∃ r w', armed p fd w = Ok (r, w') ∧ armed_post e v reg w p x r w'.
Proof.
  intros I Hx Hb Hr Hf Hw Hne Hrf Hu. unfold armed.
  destruct (set_non_blocking_ok fd _ _ _ _ I) as (r&w1&Hr1&I1&He1&Hf1&Hb1&Hcase). rewrite (bind_ok _ _ _ _ _ Hr1).
  destruct Hcase as [->| ->].
  - change (0 <? 0) with false. cbn match. rewrite (get_entry_run _ _ _ x) by (by rewrite He1). eexists 0, _. split; [done|].
    split; [apply inv_set_entry; [done|by rewrite Hb1|]|split; [done|right]].
    + rewrite (registered_inv _ _ _ _ _ I) in Hr. by rewrite (registered_inv _ _ _ _ _ I1).
    + split; [done|]. exists fd, f. cbn. by rewrite He1, Hf1.
  - change (- EINVAL <? 0) with true. cbn match. eexists _, _. split; [done|].
    split; [apply inv_close; [done..|]|split; [done|left]].
    + intros q y. rewrite Hb1, He1. apply Hu.
    + split; [done|]. cbn. by rewrite He1.
Qed.

Section arming.
Context (e : Z) (v : ev) (reg : gmap Z (Z * Z)) (w : world) (p : Z) (x : ev_entry).
Context (I : inv e v reg w) (Hx : entries w !! p = Some x) (Hb : p ∉ batch w) (Hr : ¬ registered w e p).

(** The world differs in its descriptors at most. *)
Definition arming (w' : world) : Prop := inv e v reg w' ∧ entries w' = entries w ∧ batch w' = batch w.

Lemma arming_answers l w' : arming w' → arming (set_answers l w').
Proof. intros (H1&H2&H3). split; [by apply inv_answers|done]. Qed.

Lemma arming_fails w' : arming w' → ∃ r w'', ret (- EINVAL) w' = Ok (r, w'') ∧ armed_post e v reg w p x r w''.
Proof. intros (I'&He&Hb'). eexists _, _. split; [done|]. split_and!; [done|done|left]. by rewrite He. Qed.

(** The common rest, with a new descriptor. *)
Lemma arming_rest w' fd f : arming w' → files w' !! fd = Some f → waits f = true → fd ≠ ev_fd v → reg !! fd = None → unread w' fd →
  ∃ r w'', armed p fd w' = Ok (r, w'') ∧ armed_post e v reg w p x r w''.
Proof using I Hx Hb Hr.
  intros (I'&He&Hb') Hf Hw Hne Hrf Hu. destruct (armed_ok e v reg w' p x fd f) as (r3&w3&Hr3&Hi3&Hb3&Hpost); try done.
  - by rewrite He.
  - by rewrite Hb'.
  - rewrite (registered_inv _ _ _ _ _ I) in Hr. by rewrite (registered_inv _ _ _ _ _ I').
  - exists r3, w3. split; [done|]. split; [done|]. split; [by rewrite Hb3|by rewrite <- He].
Qed.

(** Creating the descriptor of a timer and setting it. *)
Lemma arming_timer w' abs val int : arming w' →
  ∃ r w'', bind timerfd_create (λ fd, if fd <? 0 then ret (- EINVAL)
    else bind (timerfd_settime fd abs val int)
      (λ r, if r <? 0 then close fd ;; ret (- EINVAL) else armed p fd)) w' = Ok (r, w'') ∧
    armed_post e v reg w p x r w''.
Proof using I Hx Hb Hr.
  intros HA. pose proof HA as (I'&He&Hb').
  destruct (new_fd_ok (TimerFd false (0, 0) (0, 0)) w') as (fd&l&[Hn|(Hfd&Hfree&Hn)]); rewrite (bind_ok _ _ _ _ _ Hn).
  { by apply arming_fails, arming_answers. }
  destruct (inv_fresh_fd _ _ _ _ _ I' Hfree) as [Hne Hrf]. pose proof (inv_unread _ _ _ _ _ I' Hfree) as Hu.
  rewrite (proj2 (Z.ltb_ge _ _)) by lia. set (w1 := set_files _ _).
  assert (inv e v reg w1) as I1 by (apply (inv_set_file e v reg (set_answers l w')); [by apply inv_answers|done..]).
  unfold timerfd_settime. destruct (answer_ok w1) as (r&l2&Hr2).
  rewrite bind_assoc, (bind_ok _ _ _ _ _ Hr2). destruct (r <? 0).
  - rewrite (bind_ok _ _ _ _ _ (ret_run _ _)). change (-1 <? 0) with true. cbn match.
    unfold close. rewrite (bind_ok _ _ _ _ _ (modify_run _ _)). apply arming_fails. split; [|done].
    apply (inv_close e v reg (set_answers l2 w1)); [by apply inv_answers|done..].
  - rewrite bind_assoc, (bind_ok _ _ _ _ _ (modify_run _ _)), (bind_ok _ _ _ _ _ (ret_run _ _)).
    change (0 <? 0) with false. cbn match. apply (arming_rest _ _ (TimerFd abs val int)); [|by cbn; rewrite lookup_insert_eq|done..].
    split; [|done]. apply (inv_set_file e v reg (set_answers l2 w1)); [by apply inv_answers|done..].
Qed.

Lemma arming_signal : ∃ r w', ev_arm_signal p w = Ok (r, w') ∧ armed_post e v reg w p x r w'.
Proof using I Hx Hb Hr.
  assert (arming w) as HA by done. unfold ev_arm_signal. rewrite (get_entry_run _ _ _ _ Hx).
  destruct (answer_ok w) as (r&l&Hr1). rewrite (bind_ok _ _ _ _ _ Hr1).
  destruct (r <? 0); [by apply arming_fails, arming_answers|].
  assert (inv e v reg (set_answers l w)) as I1 by by apply inv_answers.
  destruct (new_fd_ok (SignalFd (signal_mask (priv_data x))) (set_answers l w)) as (fd&l2&[Hn|(Hfd&Hfree&Hn)]);
    unfold signalfd; rewrite (bind_ok _ _ _ _ _ Hn).
  { by apply arming_fails, arming_answers, arming_answers. }
  destruct (inv_fresh_fd _ _ _ _ _ I1 Hfree) as [Hne Hrf]. pose proof (inv_unread _ _ _ _ _ I1 Hfree) as Hu.
  rewrite (proj2 (Z.ltb_ge _ _)) by lia. apply (arming_rest _ _ (SignalFd (signal_mask (priv_data x)))); [|by cbn; rewrite lookup_insert_eq|done..].
  split; [|done]. apply (inv_set_file e v reg (set_answers l2 (set_answers l w))); [by apply inv_answers|done..].
Qed.
End arming.

Lemma arm_ok e v reg w p x (arm : Z → M world Z) :
  arm = ev_arm_timerfd_oneshot ∨ arm = ev_arm_timerfd_periodic ∨ arm = ev_arm_signal →
  inv e v reg w → entries w !! p = Some x → p ∉ batch w → ¬ registered w e p →
  ∃ r w', arm p w = Ok (r, w') ∧ armed_post e v reg w p x r w'.
Proof.
  intros Harm I Hx Hb Hr. assert (arming e v reg w w) as HA by done. destruct Harm as [->|[->| ->]].
  - unfold ev_arm_timerfd_oneshot. rewrite (get_entry_run _ _ _ _ Hx).
    unfold clock_gettime. destruct (answer_ok w) as (r&l&Hr1). rewrite bind_assoc, (bind_ok _ _ _ _ _ Hr1).
    rewrite bind_assoc, (bind_ok _ _ _ _ _ (gets_run _ _)), (bind_ok _ _ _ _ _ (ret_run _ _)).
    destruct (r <? 0); [by apply arming_fails, arming_answers|]. by apply (arming_timer e v reg w p x I Hx Hb Hr), arming_answers.
  - unfold ev_arm_timerfd_periodic. rewrite (get_entry_run _ _ _ _ Hx). by apply (arming_timer e v reg w p x I Hx Hb Hr).
  - by apply arming_signal.
Qed.

(** *** Registration *)

Lemma inv_register e v reg w p x f fl :
  inv e v reg w → entries w !! p = Some x → reg !! e_fd x = None → files w !! e_fd x = Some f →
  (reads x = true → waits f = true) → e_fd x ≠ ev_fd v →
  let reg' := <[e_fd x := (fl, p)]> reg in
  inv e (mk_ev (ev_fd v) (break_loop v) (u64 (ev_entries v + 1))) reg'
    (set_evs (<[e := mk_ev (ev_fd v) (break_loop v) (u64 (ev_entries v + 1))]> (evs w))
      (set_files (<[ev_fd v := EpollFd reg']> (files w)) w)).
Proof.
  intros I Hx Hr Hf Hw Hne reg'. pose proof (inv_size _ _ _ _ I) as Hs.
  destruct I as [H1 H2 H3 H4 H5 H6 H7 H8]. split; cbn; try done.
  - by rewrite lookup_insert_eq.
  - by rewrite lookup_insert_eq.
  - unfold reg'. rewrite wrapu_small by lia. rewrite map_size_insert_None by done. lia.
  - intros fd. rewrite lookup_insert_is_Some. intros [<-|[_ ?]]; apply H4; [by eexists|done].
  - unfold reg'. by rewrite lookup_insert_ne.
  - intros fd fl' q. unfold reg'. intros [[<- [= <- <-]]|[Hne' Hq]]%lookup_insert_Some.
    + exists x, f. rewrite lookup_insert_ne by done. by split_and!.
    + destruct (H6 _ _ _ Hq) as (y&g&?&?&?&?). exists y, g.
      rewrite lookup_insert_ne by (intros <-; congruence). by split_and!.
  - by apply batch_files.
Qed.

Lemma register_ok e v reg w p x :
  inv e v reg w → entries w !! p = Some x →
  (reads x = true → ∃ f, files w !! e_fd x = Some f ∧ waits f = true) →
  ∃ r w', bind (EPOLL_CTL_ADD (ev_fd v) (e_fd x) (flags (priv_data x)) p) (λ r, if r <? 0 then ret (- EINVAL)
    else set_ev e (mk_ev (ev_fd v) (break_loop v) (u64 (ev_entries v + 1))) ;; ret 0) w = Ok (r, w') ∧
    inv_ok e w' ∧ batch w' = batch w ∧ entries w' = entries w ∧ break_of w' e = break_of w e ∧
    (r = 0 ∧ registered w' e p ∨ r = - EINVAL).
Proof.
  intros I Hx Hw. destruct (answer_ok w) as (r&l&Hr). unfold EPOLL_CTL_ADD.
  rewrite bind_assoc, (bind_ok _ _ _ _ _ Hr), bind_assoc, (bind_ok _ _ _ _ _ (gets_run _ _)).
  assert (inv e v reg (set_answers l w)) as I1 by by apply inv_answers.
  assert (Hfail : ∃ r' w', (ret (- EINVAL) : M world Z) (set_answers l w) = Ok (r', w') ∧ inv_ok e w' ∧
    batch w' = batch w ∧ entries w' = entries w ∧ break_of w' e = break_of w e ∧
    (r' = 0 ∧ registered w' e p ∨ r' = - EINVAL)).
  { eexists _, _. split_and!; [done|by exists v, reg|done|done|done|by right]. }
  assert (interest (id (set_answers l w)) (ev_fd v) = Some reg) as ->.
  { unfold interest. cbn. by rewrite (i_epoll _ _ _ _ I). }
  cbn [files set_answers id]. destruct (files w !! e_fd x) as [f|] eqn:Hf; [|exact Hfail].
  destruct (r <? 0); [exact Hfail|]. case_bool_decide as Hreg; [exact Hfail|].
  destruct (Z.eqb_spec (e_fd x) (ev_fd v)) as [|Hne]; [exact Hfail|]. cbn [orb].
  rewrite bind_assoc, (bind_ok _ _ _ _ _ (modify_run _ _)), (bind_ok _ _ _ _ _ (ret_run _ _)).
  change (0 <? 0) with false. cbn match. unfold set_ev. rewrite (bind_ok _ _ _ _ _ (modify_run _ _)).
  eexists _, _. split; [done|]. split_and!; [|done|done| |left; split; [done|]].
  2: { unfold break_of. cbn. by rewrite lookup_insert_eq, (i_ev _ _ _ _ I). }
  2: { eexists (mk_ev _ _ _), (<[e_fd x := _]> reg), (e_fd x), _. cbn. split_and!; apply lookup_insert_eq. }
  eexists _, _.
  eapply (inv_register e v reg (set_answers l w) p x f); [done|done|by apply eq_None_not_Some|done| |done].
  intros Hre. destruct (Hw Hre) as (g&Hg&?). congruence.
Qed.

Lemma reads_set_fd fd x fl : reads (set_e_fd fd (set_flags fl x)) = reads x.
Proof. done. Qed.

(** [ev_add] after the arming. *)
Definition add_rest (e p r : Z) : M world Z :=
  if negb (r =? 0) then ret (- EINVAL)
  else
    x ← get_entry p;
    v ← get_ev e;
    r ← EPOLL_CTL_ADD (ev_fd v) (e_fd x) (flags (priv_data x)) p;
    if r <? 0 then ret (- EINVAL)
    else set_ev e (mk_ev (ev_fd v) (break_loop v) (u64 (ev_entries v + 1))) ;; ret 0.

(** What [ev_add] leaves: the entry, which may have got a descriptor, and its
    registration. *)
Definition added_post (e : Z) (w : world) (p : Z) (x : ev_entry) (r : Z) (w' : world) : Prop :=
  inv_ok e w' ∧ batch w' = batch w ∧ break_of w' e = break_of w e ∧
  (r = 0 ∧ registered w' e p ∨ r = - EINVAL) ∧
  ∃ x', entries w' = <[p := x']> (entries w) ∧ (x' = x ∨ ∃ fd, x' = set_e_fd fd (set_flags TIMER_FLAGS x)).

Lemma inv_break_of e v reg w : inv e v reg w → break_of w e = Some (break_loop v).
Proof. intros I. unfold break_of. by rewrite (i_ev _ _ _ _ I). Qed.

Lemma add_ok e w p x :
  inv_ok e w → allowed e w (Add p) → entries w !! p = Some x →
  ∃ r w', ev_add e p w = Ok (r, w') ∧ added_post e w p x r w'.
Proof.
  intros (v&reg&I) (_&Hb&Hr) Hx. unfold ev_add.
  rewrite (get_entry_run _ _ _ _ Hx).
  (* the rest, once the entry is armed *)
  assert (Hrest : ∀ w1 x1, inv e v reg w1 → entries w1 = <[p := x1]> (entries w) →
    (x1 = x ∨ ∃ fd, x1 = set_e_fd fd (set_flags TIMER_FLAGS x)) →
    (reads x1 = true → ∃ f, files w1 !! e_fd x1 = Some f ∧ waits f = true) → batch w1 = batch w →
    ∃ r w', add_rest e p 0 w1 = Ok (r, w') ∧ added_post e w p x r w').
  { intros w1 x1 I1 He1 Hx1 Hw1 Hb1. unfold add_rest. cbn [Z.eqb negb].
    assert (entries w1 !! p = Some x1) as Hp1 by (by rewrite He1, lookup_insert_eq).
    rewrite (get_entry_run _ _ _ _ Hp1), (get_ev_run _ _ _ _ (i_ev _ _ _ _ I1)).
    destruct (register_ok e v reg w1 p x1 I1 Hp1 Hw1) as (r&w'&Hrun&?&?&He'&Hbr&?).
    exists r, w'. split; [done|]. split_and!; [done|congruence| |done|exists x1; by rewrite He'].
    by rewrite Hbr, (inv_break_of _ _ _ _ I), (inv_break_of _ _ _ _ I1). }
  assert (Harm : ∀ arm, arm = ev_arm_timerfd_oneshot ∨ arm = ev_arm_timerfd_periodic ∨ arm = ev_arm_signal →
    ∃ r w', bind (arm p) (add_rest e p) w = Ok (r, w') ∧ added_post e w p x r w').
  { intros arm Ha. destruct (arm_ok e v reg w p x arm Ha I Hx Hb Hr) as (r&w1&Hrun&I1&Hb1&Hcase).
    rewrite (bind_ok _ _ _ _ _ Hrun). destruct Hcase as [[-> He1]|[-> (fd&f&Hx1&Hf&Hw&_&_)]].
    - unfold add_rest. change (negb (- EINVAL =? 0)) with true. cbn match. eexists _, _. split; [done|].
      split_and!; [by exists v, reg|done| |by right|].
      + by rewrite (inv_break_of _ _ _ _ I), (inv_break_of _ _ _ _ I1).
      + exists x. split; [by rewrite He1, insert_id|by left].
    - eapply Hrest; [done|exact Hx1|right; by eexists| |done]. intros _. by exists f. }
  assert (Hother : reads x = false → ∃ r w', bind (ret 0) (add_rest e p) w = Ok (r, w') ∧ added_post e w p x r w').
  { intros Hre. rewrite (bind_ok _ _ _ _ _ (ret_run _ _)).
    apply (Hrest w x); [done|by rewrite insert_id|by left|congruence|done]. }
  unfold reads in Hother. destruct (truthy (e_raw x)); [by apply Hother|].
  destruct (e_type x =? EV_TIMEOUT_ONESHOT); [apply Harm; auto|].
  destruct (e_type x =? EV_TIMEOUT_PERIODIC); [apply Harm; auto|].
  destruct (e_type x =? EV_SIGNAL); [apply Harm; auto|]. by apply Hother.
Qed.

Lemma del_run e v reg w p x :
  inv e v reg w → entries w !! p = Some x → is_Some (reg !! e_fd x) →
  ∃ v' w', ev_del e p w = Ok (0, w') ∧ inv e v' (delete (e_fd x) reg) w' ∧ ev_fd v' = ev_fd v ∧
    break_loop v' = break_loop v ∧ batch w' = batch w ∧ entries w' = entries w ∧ calls w' = calls w ∧
    ∀ fd, fd ≠ ev_fd v → files w' !! fd = files w !! fd.
Proof.
  intros I Hx Hreg. unfold ev_del.
  rewrite (get_ev_run _ _ _ _ (i_ev _ _ _ _ I)), (get_entry_run _ _ _ _ Hx).
  unfold EPOLL_CTL_DEL. rewrite bind_assoc, (bind_ok _ _ _ _ _ (gets_run _ _)).
  assert (interest (id w) (ev_fd v) = Some reg) as ->.
  { unfold interest. cbn. by rewrite (i_epoll _ _ _ _ I). }
  rewrite bool_decide_true by done.
  rewrite bind_assoc, (bind_ok _ _ _ _ _ (modify_run _ _)), (bind_ok _ _ _ _ _ (ret_run _ _)).
  change (0 <? 0) with false. cbn match. unfold set_ev. rewrite (bind_ok _ _ _ _ _ (modify_run _ _)).
  exists (mk_ev (ev_fd v) (break_loop v) (u64 (ev_entries v - 1))). eexists. split; [done|].
  split_and!; try done; [|intros fd Hfd; cbn; by rewrite lookup_insert_ne].
  pose proof (inv_size _ _ _ _ I) as Hs. destruct I as [H1 H2 H3 H4 H5 H6 H7 H8]. split; cbn; try done.
  - by rewrite lookup_insert_eq.
  - by rewrite lookup_insert_eq.
  - assert (size reg ≠ 0%nat).
    { rewrite map_size_ne_0_lookup. by exists (e_fd x). }
    rewrite map_size_delete. destruct (reg !! e_fd x) eqn:Hq; [|by destruct Hreg]. rewrite wrapu_small; lia.
  - intros fd. rewrite lookup_insert_is_Some. intros [<-|[_ ?]]; apply H4; [by eexists|done].
  - by rewrite lookup_delete_None; right.
  - intros fd fl q [_ Hq]%lookup_delete_Some. destruct (H6 _ _ _ Hq) as (y&f&?&?&?&?). exists y, f.
    rewrite lookup_insert_ne by (intros <-; congruence). by split_and!.
  - by apply batch_files.
Qed.

Lemma del_ok e w p :
  inv_ok e w → is_Some (entries w !! p) →
  ∃ r w', ev_del e p w = Ok (r, w') ∧ inv_ok e w' ∧ batch w' = batch w ∧ entries w' = entries w ∧
    (r = 0 ∨ r = - EINVAL).
Proof.
  intros (v&reg&I) [x Hx]. destruct (decide (is_Some (reg !! e_fd x))) as [Hreg|Hreg].
  - destruct (del_run _ _ _ _ _ _ I Hx Hreg) as (v'&w'&?&?&?&?&?&?&?&?). exists 0, w'.
    split_and!; [done|by eexists _, _|done|done|by left].
  - unfold ev_del. rewrite (get_ev_run _ _ _ _ (i_ev _ _ _ _ I)), (get_entry_run _ _ _ _ Hx).
    unfold EPOLL_CTL_DEL. rewrite bind_assoc, (bind_ok _ _ _ _ _ (gets_run _ _)).
    assert (interest (id w) (ev_fd v) = Some reg) as ->.
    { unfold interest. cbn. by rewrite (i_epoll _ _ _ _ I). }
    rewrite bool_decide_false by done. eexists _, _. split_and!; [done|by exists v, reg|done|done|by right].
Qed.

Lemma free_ok e w p :
  inv_ok e w → allowed e w (Free p) →
  ∃ w', ev_entry_free p w = Ok (tt, w') ∧ inv_ok e w' ∧ batch w' = batch w ∧
    entries w' = delete p (entries w) ∧ evs w' = evs w.
Proof.
  intros (v&reg&I) (x&Hx&Hb&Hr&Hre). unfold ev_entry_free. rewrite (get_entry_run _ _ _ _ Hx).
  pose proof (proj1 (not_iff_compat (registered_inv _ _ _ _ _ I)) Hr) as Hr'.
  destruct (reads x) eqn:Hrd.
  - destruct (Hre eq_refl) as [(f&Hf&Hw) Hq]. assert (e_fd x ≠ ev_fd v) as Hne.
    { intros Heq. rewrite Heq, (i_epoll _ _ _ _ I) in Hf. injection Hf as <-. done. }
    assert (reg !! e_fd x = None) as Hrf.
    { destruct (reg !! e_fd x) as [[fl q]|] eqn:Hq'; [|done]. exfalso.
      destruct (i_reg _ _ _ _ I _ _ _ Hq') as (y&g&Hy&Hyf&_).
      apply (Hq q y); [right; rewrite (registered_inv _ _ _ _ _ I); eauto|done|done]. }
    assert (unread w (e_fd x)) as Hu by (intros q y Hqb Hy _; by apply (Hq q y); [left|]).
    pose proof (inv_close _ _ _ _ _ I Hne Hrf Hu) as I1.
    assert (∀ k : unit → M world unit, bind (if truthy (e_raw x) then ret tt
      else if (e_type x =? EV_TIMEOUT_ONESHOT) || (e_type x =? EV_TIMEOUT_PERIODIC) then ev_entry_timer_free x
      else if e_type x =? EV_SIGNAL then ev_entry_signal_free x else ret tt) k w =
      k tt (set_pending (delete (e_fd x) (pending w)) (set_files (forget (e_fd x) <$> delete (e_fd x) (files w)) w))) as Hrun.
    { intros k. unfold reads in Hrd. destruct (truthy (e_raw x)); [done|].
      destruct ((e_type x =? EV_TIMEOUT_ONESHOT) || (e_type x =? EV_TIMEOUT_PERIODIC)); [done|].
      by destruct (e_type x =? EV_SIGNAL). }
    rewrite Hrun. eexists. split; [done|]. split; [|by split]. exists v, reg.
    apply inv_delete_entry; [done|done|]. by rewrite (registered_inv _ _ _ _ _ I1).
  - assert (∀ k : unit → M world unit, bind (if truthy (e_raw x) then ret tt
      else if (e_type x =? EV_TIMEOUT_ONESHOT) || (e_type x =? EV_TIMEOUT_PERIODIC) then ev_entry_timer_free x
      else if e_type x =? EV_SIGNAL then ev_entry_signal_free x else ret tt) k w = k tt w) as Hrun.
    { intros k. unfold reads in Hrd. destruct (truthy (e_raw x)); [done|].
      destruct ((e_type x =? EV_TIMEOUT_ONESHOT) || (e_type x =? EV_TIMEOUT_PERIODIC)); [done|].
      by destruct (e_type x =? EV_SIGNAL). }
    rewrite Hrun. eexists. split; [done|]. split; [|by split]. exists v, reg. by apply inv_delete_entry.
Qed.

Lemma run_out_ok e w :
  inv_ok e w → ∃ w', ev_run_out e w = Ok (0, w') ∧ inv_ok e w' ∧ batch w' = batch w ∧
    entries w' = entries w ∧ break_of w' e = Some 1 ∧ ∀ p, registered w e p → registered w' e p.
Proof.
  intros (v&reg&I). unfold ev_run_out. rewrite (get_ev_run _ _ _ _ (i_ev _ _ _ _ I)).
  eexists. split; [done|]. split; [|split_and!; [done|done|unfold break_of; cbn; by rewrite lookup_insert_eq|]].
  2: { intros p (v'&reg'&fd&fl&Hv'&Hf&Hr). rewrite (i_ev _ _ _ _ I) in Hv'. injection Hv' as <-.
    eexists _, reg', fd, fl. cbn. by rewrite lookup_insert_eq. }
  eexists (mk_ev (ev_fd v) 1 (ev_entries v)), reg.
  destruct I. split; cbn; try done. by rewrite lookup_insert_eq.
Qed.

(** A new entry, filled in by the constructor. *)
Lemma new_ok e w x :
  inv_ok e w →
  ∃ p w', bind ev_entry_new_epoll_internal (λ p, if p =? 0 then ret 0 else set_entry p x ;; ret p) w = Ok (p, w') ∧
    inv_ok e w' ∧ batch w' = batch w ∧ evs w' = evs w ∧
    (p = 0 ∧ entries w' = entries w ∨
     p ≠ 0 ∧ entries w !! p = None ∧ entries w' = <[p := x]> (entries w) ∧ ¬ registered w' e p).
Proof.
  intros (v&reg&I). unfold ev_entry_new_epoll_internal. destruct (malloc_ok w) as (p&l&Hr&Hp).
  rewrite bind_assoc, (bind_ok _ _ _ _ _ Hr).
  assert (inv e v reg (set_answers l w)) as I1 by by apply inv_answers.
  destruct Hp as [->|(Hpos&_&Hp&_)]; [exists 0; eexists; split_and!; [done|by exists v, reg|done|done|by left]|].
  rewrite (proj2 (Z.eqb_neq p 0)) by lia. destruct (answer_ok (set_answers l w)) as (r2&l2&Hr2).
  rewrite bind_assoc, (bind_ok _ _ _ _ _ Hr2). assert (inv e v reg (set_answers l2 (set_answers l w))) as I2 by by apply inv_answers.
  destruct (r2 <=? 0); [exists 0; eexists; split_and!; [done|by exists v, reg|done|done|by left]|].
  assert (Hnr : ¬ registered (set_answers l2 (set_answers l w)) e p).
  { rewrite (registered_inv _ _ _ _ _ I2). intros (fd&fl&Hq).
    destruct (i_reg _ _ _ _ I _ _ _ Hq) as (y&f&Hy&_). congruence. }
  unfold set_entry. rewrite bind_assoc, (bind_ok _ _ _ _ _ (modify_run _ _)), (bind_ok _ _ _ _ _ (ret_run _ _)).
  rewrite (proj2 (Z.eqb_neq p 0)) by lia. exists p. eexists. split; [done|].
  cbn. rewrite insert_insert_eq. split_and!; [|done|done|right; split_and!; [lia|done|done|exact Hnr]]. exists v, reg.
  apply (inv_set_entry e v reg (set_answers l2 (set_answers l w)) p x); [done| |done].
  intros Hb. destruct (i_batch _ _ _ _ I p Hb) as (y&Hy&_). congruence.
Qed.

Lemma cmd_ok e w c :
  inv_ok e w → allowed e w c → ∃ r w', exec_cmd e c w = Ok (r, w') ∧ inv_ok e w' ∧ batch w' = batch w.
Proof.
  intros I Ha. destruct c as [fd events cb data|ts cb data|ts cb data|p|p|p|p|]; cbn [exec_cmd].
  - destruct (new_ok e w (mk_entry fd events 1 (0, 0) cb data (mk_data events 0)) I) as (p&w'&?&?&?&_). eauto.
  - destruct (new_ok e w (mk_entry 0 EV_TIMEOUT_ONESHOT 0 ts cb data (mk_data 0 0)) I) as (p&w'&?&?&?&_). eauto.
  - destruct (new_ok e w (mk_entry 0 EV_TIMEOUT_PERIODIC 0 ts cb data (mk_data 0 0)) I) as (p&w'&?&?&?&_). eauto.
  - destruct (proj1 Ha) as [x Hx]. destruct (add_ok e w p x I Ha Hx) as (r&w'&?&?&?&_). eauto.
  - destruct (del_ok e w p I Ha) as (r&w'&?&?&?&_). eauto.
  - destruct (del_ok e w p I Ha) as (r&w'&Hrun&?&?&_). unfold ev_timer_cancel. rewrite (bind_ok _ _ _ _ _ Hrun).
    destruct (negb (r =? 0)); eauto.
  - destruct (free_ok e w p I Ha) as (w'&Hrun&?&?&_). rewrite (bind_ok _ _ _ _ _ Hrun). eauto.
  - destruct (run_out_ok e w I) as (w'&?&?&?&_). eauto.
Qed.
End invariant.

(** ** The loop *)

Section loop_proofs.
Implicit Types (w : world) (v : ev) (x : ev_entry) (reg : gmap Z (Z * Z)) (e p fd : Z).

Lemma report_spec w reg max ready seen :
  NoDup (report w reg max ready seen).*1 ∧
  ∀ r, r ∈ report w reg max ready seen → reportable w reg r = true ∧ r.1 ∉ seen.
Proof.
  revert max seen. induction ready as [|r ready IH]; intros [|max] seen; cbn [report];
    try (split; [by apply NoDup_nil_2|by intros r' ?%not_elem_of_nil]).
  destruct (reportable w reg r && bool_decide (r.1 ∉ seen)) eqn:Hr; [|apply IH].
  apply andb_true_iff in Hr as [Hrep Hseen%bool_decide_eq_true].
  destruct (IH max ({[r.1]} ∪ seen)) as [Hnd Hin]. split.
  - rewrite fmap_cons. constructor; [|done]. intros (r'&Heq&Hr')%list_elem_of_fmap.
    destruct (Hin r' Hr') as [_ Hn]. set_solver.
  - intros r' [->|Hr']%elem_of_cons; [done|]. destruct (Hin r' Hr'). set_solver.
Qed.

(** A registered descriptor with something to read is reported if it is among
    the first ones. *)
Lemma report_complete w reg max ready seen fd d ds :
  (fd, d :: ds) ∈ take max ready → is_Some (reg !! fd) →
  fd ∈ (report w reg max ready seen).*1 ∨ fd ∈ seen.
Proof.
  intros Hin Hreg. revert max seen Hin. induction ready as [|r ready IH]; intros [|max] seen Hin; cbn [take report] in *;
    try by apply not_elem_of_nil in Hin.
  apply elem_of_cons in Hin as [<-|Hin].
  - assert (reportable w reg (fd, d :: ds) = true) as ->.
    { unfold reportable. cbn [fst snd]. rewrite bool_decide_true by done. by repeat case_match. }
    cbn [fst]. destruct (decide (fd ∈ seen)) as [|Hs]; [by right|left].
    rewrite bool_decide_true by done. by left.
  - destruct (reportable w reg r && bool_decide (r.1 ∉ seen)).
    + destruct (IH max ({[r.1]} ∪ seen) Hin) as [?|[Heq%elem_of_singleton|?]%elem_of_union]; [left|left|by right].
      * rewrite fmap_cons. by right.
      * rewrite fmap_cons, Heq. by left.
    + apply IH. apply elem_of_take in Hin as (i&Hi&Hlt). apply elem_of_take. exists i. split; [done|lia].
Qed.

Definition ptr_of (reg : gmap Z (Z * Z)) (fd : Z) : Z := default 0 (snd <$> reg !! fd).

(** The events of [epoll_wait] become the batch. *)
Lemma epoll_wait_ok e v reg w ready :
  inv e v reg w → batch w = [] →
  ∃ fds w', epoll_wait (ev_fd v) ready w = Ok (map (ptr_of reg) fds, w') ∧
    inv e v reg (set_batch (map (ptr_of reg) fds) w') ∧
    entries w' = entries w ∧ calls w' = calls w ∧ batch w' = [] ∧
    NoDup fds ∧ (∀ fd, fd ∈ fds → is_Some (reg !! fd)) ∧
    (∀ fd d ds, (fd, d :: ds) ∈ take EVE_EPOLL_ARRAY_SIZE ready → is_Some (reg !! fd) → fd ∈ fds).
Proof.
  intros I Hb. unfold epoll_wait. rewrite (bind_ok _ _ _ _ _ (gets_run _ _)).
  assert (interest (id w) (ev_fd v) = Some reg) as ->.
  { unfold interest. cbn. by rewrite (i_epoll _ _ _ _ I). }
  cbv zeta. cbn [id]. set (events := report w reg _ ready ∅).
  rewrite (bind_ok _ _ _ _ _ (modify_run _ _)).
  destruct (report_spec w reg EVE_EPOLL_ARRAY_SIZE ready ∅) as [Hnd Hrep]. fold events in Hnd, Hrep.
  assert (Hreg : ∀ r, r ∈ events → is_Some (reg !! r.1)).
  { intros r Hr. destruct (Hrep r Hr) as [Hr' _]. unfold reportable in Hr'.
    apply andb_true_iff in Hr' as [Hr' _]. by apply bool_decide_eq_true in Hr'. }
  exists events.*1. eexists. split.
  { unfold ret. f_equal. f_equal. change (list_fmap ?f ?l) with (f <$> l).
    change (map ?f ?l) with (f <$> l). by rewrite <- list_fmap_compose. }
  split_and!; try done.
  - assert (Hentry : ∀ r, r ∈ events → ∃ x f, entries w !! ptr_of reg r.1 = Some x ∧ e_fd x = r.1 ∧
      files w !! r.1 = Some f ∧ (reads x = true → waits f = true)).
    { intros r Hr. destruct (Hreg r Hr) as [[fl p] Hp]. unfold ptr_of. rewrite Hp. by eapply (i_reg _ _ _ _ I). }
    pose proof I as [H1 H2 H3 H4 H5 H6 H7 H8]. split; cbn; try done.
    + intros p Hp. apply list_elem_of_In, in_map_iff in Hp as (fd&<-&Hfd).
      apply list_elem_of_In, list_elem_of_fmap in Hfd as (r&->&Hr).
      destruct (Hentry r Hr) as (x&f&Hx&Hxf&Hf&Hre). exists x. split; [done|]. intros Hrd. rewrite Hxf.
      split; [by eexists|]. destruct (Hrep r Hr) as [Hr' _]. unfold reportable in Hr'.
      apply andb_true_iff in Hr' as [_ Hr']. rewrite Hf in Hr'. specialize (Hre Hrd).
      destruct r as [fd data]. cbn in *. destruct data as [|d ds]; [by destruct f|].
      exists d, ds. apply lookup_union_Some_l. apply elem_of_list_to_map; [done|done].
    + replace (map _ (map (ptr_of reg) events.*1)) with (events.*1); [done|].
      rewrite map_map. transitivity (map id events.*1); [by rewrite map_id|].
      apply map_ext_in. intros fd Hfd. apply list_elem_of_In, list_elem_of_fmap in Hfd as (r&->&Hr).
      destruct (Hentry r Hr) as (x&f&Hx&Hxf&_). unfold fd_of. cbn. by rewrite Hx.
  - intros fd (r&->&Hr)%list_elem_of_fmap. by apply Hreg.
  - intros fd d ds Hin Hreg'. destruct (report_complete w reg EVE_EPOLL_ARRAY_SIZE ready ∅ fd d ds Hin Hreg'); [done|].
    by apply not_elem_of_empty in H.
Qed.

(** Taking the next event off the batch, and reading its descriptor. *)
Lemma inv_next e v reg w p ps :
  inv e v reg (set_batch (p :: ps) w) →
  ∃ x, entries w !! p = Some x ∧ inv e v reg (set_batch ps w) ∧
    inv e v reg (set_pending (delete (e_fd x) (pending w)) (set_batch ps w)) ∧
    (reads x = true → ∃ d ds, read (e_fd x) (set_batch ps w) =
      Ok (Some (d :: ds), set_pending (delete (e_fd x) (pending w)) (set_batch ps w))).
Proof.
  intros [H1 H2 H3 H4 H5 H6 H7 H8]. cbn in *. destruct (H7 p) as (x&Hx&Hre); [by left|]. cbn in Hx, Hre.
  exists x. apply NoDup_cons in H8 as [Hni Hnd].
  assert (batch_ok (set_batch ps w)) as Hb by (intros q Hq; apply H7; by right).
  split_and!; [done|by split| |].
  - split; cbn; try done. intros q Hq. destruct (Hb q Hq) as (y&Hy&Hrd). exists y. split; [done|].
    intros Ht. destruct (Hrd Ht) as [? Hp]. split; [done|]. cbn in *. rewrite lookup_delete_ne; [done|].
    intros Heq. apply Hni. apply list_elem_of_In, in_map_iff. exists q. split; [|by apply list_elem_of_In].
    unfold fd_of. cbn. by rewrite Hx, Hy.
  - intros Ht. destruct (Hre Ht) as ([f Hf]&d&ds&Hp). exists d, ds. unfold read, bind, gets.
    cbn. by rewrite Hf, Hp.
Qed.

(** *** The contract of the callbacks

    A client has an invariant of its own, about the objects that its callbacks use.
    The loop does not change them; and a callback, called for an entry as
    [ev_process_call_internal] does, keeps both invariants and leaves the events
    that wait alone, which includes that it does not free their entries. *)
Definition same_objects (w w' : world) : Prop :=
  evs w' = evs w ∧ entries w' = entries w ∧ files w' = files w ∧ calls w' = calls w ∧ memory w' = memory w.

Definition is_oneshot (x : ev_entry) : bool :=
  negb (truthy (e_raw x)) && negb ((e_type x =? EV_READ) || (e_type x =? EV_WRITE)) &&
  (e_type x =? EV_TIMEOUT_ONESHOT).

(** The arguments in front of the data of the entry. *)
Definition arguments (x : ev_entry) (pre : list Z) : Prop :=
  if truthy (e_raw x) || (e_type x =? EV_READ) || (e_type x =? EV_WRITE) then pre = [e_fd x; e_type x]
  else if e_type x =? EV_TIMEOUT_ONESHOT then pre = []
  else if e_type x =? EV_TIMEOUT_PERIODIC then ∃ missed, pre = [missed]
  else True.

Class Client (e : Z) (user : Z → list Z → M world unit) (J : world → Prop) : Prop := {
  client_stable w w' : J w → same_objects w w' → J w';
  client_call w p x pre r w0 :
    inv_ok e w → J w → entries w !! p = Some x → p ∉ batch w → arguments x pre →
    (if is_oneshot x then ev_del e p w = Ok (r, w0) else w0 = w) → inv_ok e w0 →
    ∃ w', user (e_cb x) (pre ++ [e_data x]) (set_calls (calls w0 ++ [(e_cb x, pre ++ [e_data x])]) w0) = Ok (tt, w') ∧
      inv_ok e w' ∧ batch w' = batch w ∧ J w'
}.

Section client.
Context (e : Z) (user : Z → list Z → M world unit) (J : world → Prop) `{!Client e user J}.

Lemma client_plain w p x pre :
  inv_ok e w → J w → entries w !! p = Some x → p ∉ batch w → arguments x pre → is_oneshot x = false →
  ∃ w', call user (e_cb x) (pre ++ [e_data x]) w = Ok (tt, w') ∧ inv_ok e w' ∧ batch w' = batch w ∧ J w'.
Proof using Type*.
  intros I Hj Hx Hp Ha Ho. unfold call. rewrite (bind_ok _ _ _ _ _ (modify_run _ _)).
  eapply (client_call w p x pre 0 w); try done. by rewrite Ho.
Qed.

Lemma dispatch_ok v reg w p ps :
  inv e v reg (set_batch (p :: ps) w) → J w →
  ∃ w', ev_process_call_internal user e p (set_batch ps w) = Ok (tt, w') ∧ inv_ok e w' ∧ batch w' = ps ∧ J w'.
Proof using Type*.
  intros I Hj. destruct (inv_next _ _ _ _ _ _ I) as (x&Hx&I1&I2&Hread). unfold ev_process_call_internal.
  rewrite (get_entry_run _ _ _ x) by done.
  assert (p ∉ ps) as Hp.
  { pose proof (i_nodup _ _ _ _ I) as Hnd. cbn in Hnd. apply NoDup_cons in Hnd as [Hnd _].
    intros Hin. apply Hnd, list_elem_of_In, in_map_iff. exists p. split; [done|by apply list_elem_of_In]. }
  set (w1 := set_batch ps w) in *. set (w2 := set_pending (delete (e_fd x) (pending w)) w1) in *.
  assert (J w1) as J1 by (by apply (client_stable w)). assert (J w2) as J2 by (by apply (client_stable w)).
  assert (inv_ok e w1) as I1' by (by exists v, reg). assert (inv_ok e w2) as I2' by (by exists v, reg).
  assert (∀ pre, arguments x pre → is_oneshot x = false → ∃ w', call user (e_cb x) (pre ++ [e_data x]) w1 = Ok (tt, w') ∧
    inv_ok e w' ∧ batch w' = ps ∧ J w') as Hc1 by (intros; by apply (client_plain w1 p x)).
  assert (∀ pre, arguments x pre → is_oneshot x = false → ∃ w', call user (e_cb x) (pre ++ [e_data x]) w2 = Ok (tt, w') ∧
    inv_ok e w' ∧ batch w' = ps ∧ J w') as Hc2 by (intros; by apply (client_plain w2 p x)).
  assert (is_oneshot x = true → arguments x [] → ∃ w', bind (ev_del e p) (λ _, bind (get_entry p) (λ x, call user (e_cb x) [e_data x])) w2 = Ok (tt, w') ∧
    inv_ok e w' ∧ batch w' = ps ∧ J w') as Hc3.
  { intros Ho Ha. destruct (del_ok e w2 p) as (r&w3&Hd&I3&Hb3&He3&_); [done|by exists x|].
    rewrite (bind_ok _ _ _ _ _ Hd), (get_entry_run _ _ _ x) by (by rewrite He3). unfold call.
    rewrite (bind_ok _ _ _ _ _ (modify_run _ _)). apply (client_call w2 p x [] r w3); try done. by rewrite Ho. }
  revert Hc1 Hc2 Hc3 Hread. unfold is_oneshot, arguments, reads. destruct (truthy (e_raw x)); cbn [orb negb andb].
  { intros Hc1 _ _ _. by apply (Hc1 [e_fd x; e_type x]). }
  destruct ((e_type x =? EV_READ) || (e_type x =? EV_WRITE)) eqn:Hrw; cbn [orb negb andb].
  { intros Hc1 _ _ _. by apply (Hc1 [e_fd x; e_type x]). }
  destruct (e_type x =? EV_TIMEOUT_ONESHOT) eqn:Ho; cbn [orb negb andb];
    [|destruct (e_type x =? EV_TIMEOUT_PERIODIC) eqn:Hpe; cbn [orb negb andb];
    [|destruct (e_type x =? EV_SIGNAL) eqn:Hsi; cbn [orb negb andb]]]; intros Hc1 Hc2 Hc3 Hread;
    [destruct (Hread eq_refl) as (d&ds&Hr)..|by exists w1].
  - unfold ev_process_timer_oneshot. rewrite (get_entry_run _ _ _ x) by done. rewrite (bind_ok _ _ _ _ _ Hr). by apply Hc3.
  - unfold ev_process_timer_periodic. rewrite (get_entry_run _ _ _ x) by done.
    rewrite (bind_ok _ _ _ _ _ Hr). apply (Hc2 [d]); [by eexists|done].
  - unfold ev_process_signal. rewrite (get_entry_run _ _ _ x) by done. rewrite (bind_ok _ _ _ _ _ Hr).
    destruct ds as [|pid [|]]; [by exists w2| |by exists w2]. by apply (Hc2 [d; pid]).
Qed.

Lemma process_batch_ok ps : ∀ w,
  inv_ok e (set_batch ps w) → J w → (ps = [] → batch w = []) →
  ∃ w', process_batch user e ps w = Ok (tt, w') ∧ inv_ok e w' ∧ batch w' = [] ∧ J w'.
Proof using Type*.
  induction ps as [|p ps IH]; intros w (v&reg&I) Hj Hnil; cbn [process_batch].
  - exists w. split; [done|]. rewrite Hnil by done. split; [|done]. exists v, reg.
    replace w with (set_batch [] w); [done|]. specialize (Hnil eq_refl). destruct w; cbn in *. by subst.
  - rewrite (bind_ok _ _ _ _ _ (modify_run _ _)).
    destruct (dispatch_ok v reg w p ps I Hj) as (w1&Hr&I1&Hb1&J1). rewrite (bind_ok _ _ _ _ _ Hr).
    apply IH; [|done|by intros ->]. replace (set_batch ps w1) with w1; [done|]. rewrite <- Hb1. by destruct w1.
Qed.

(** Nothing is registered when the counter is 0. *)
Lemma none_registered v reg w : inv e v reg w → ev_entries v = 0 → ∀ p, ¬ registered w e p.
Proof using Type.
  intros I H0 p. rewrite (registered_inv _ _ _ _ _ I). intros (fd&fl&Hr). rewrite (i_count _ _ _ _ I) in H0.
  assert (size reg = 0%nat) as Hs%map_size_empty_inv by lia. subst reg. by rewrite lookup_empty in Hr.
Qed.

(** How the loop ends. *)
Definition loop_post (rounds : list (option (list (Z * list Z)))) (r : Z) (w' : world) : Prop :=
  inv_ok e w' ∧ batch w' = [] ∧ J w' ∧
  (r = 0 ∧ ((∀ p, ¬ registered w' e p) ∨ ∃ v, evs w' !! e = Some v ∧ break_loop v ≠ 0) ∨
   r = - EINVAL ∧ None ∈ rounds).

Lemma loop_client w rounds :
  inv_ok e w → J w → batch w = [] →
  match ev_loop user e rounds w with
  | Ok (r, w') => loop_post rounds r w'
  | Err f => f = Blocked
  end.
Proof using Type*.
  revert w. induction rounds as [|round rounds IH]; intros w (v&reg&I) Hj Hb; cbn [ev_loop];
    rewrite (get_ev_run _ _ _ _ (i_ev _ _ _ _ I)); destruct (Z.eqb_spec (ev_entries v) 0) as [H0|_].
  1,3: split; [by exists v, reg|]; do 2 (split; [done|]); left; split; [done|left];
    by apply (none_registered v reg).
  { done. }
  destruct round as [ready|].
  2: { split; [by exists v, reg|]. do 2 (split; [done|]). right. split; [done|]. by left. }
  destruct (epoll_wait_ok e v reg w ready I Hb) as (fds&w1&Hr&I1&He1&Hc1&Hb1&_). rewrite (bind_ok _ _ _ _ _ Hr).
  assert (J w1) as J1.
  { apply (client_stable w); [done|]. clear -Hr. unfold epoll_wait in Hr. rewrite (bind_ok _ _ _ _ _ (gets_run _ _)) in Hr.
    destruct (interest _ _); [|done]. cbv zeta in Hr. rewrite (bind_ok _ _ _ _ _ (modify_run _ _)) in Hr. by injection Hr as _ <-. }
  destruct (process_batch_ok (map (ptr_of reg) fds) w1) as (w2&Hr2&I2&Hb2&J2); [by exists v, reg|done|by intros _|].
  rewrite (bind_ok _ _ _ _ _ Hr2). destruct I2 as (v2&reg2&I2). rewrite (get_ev_run _ _ _ _ (i_ev _ _ _ _ I2)).
  unfold truthy. destruct (Z.eqb_spec (break_loop v2) 0) as [Hbr|Hbr]; cbn [negb].
  - specialize (IH w2 ltac:(by exists v2, reg2) J2 Hb2). destruct (ev_loop user e rounds w2) as [[r w']|]; [|done].
    destruct IH as (?&?&?&[?|[? ?]]); (do 3 (split; [done|])); [by left|right]. split; [done|]. by right.
  - split; [by exists v2, reg2|]. do 2 (split; [done|]). left. split; [done|right]. exists v2. split; [apply I2|done].
Qed.
End client.

(** C7: (the loop is safe) whatever descriptors become ready in which order, with
    callbacks that keep the invariant of the loop and one of their own — all
    calls of the API keep the first, used as [allowed] says — the loop never
    touches an entry that has been freed and never fails an assertion: it waits
    for events, or returns 0 with nothing registered or after [ev_run_out], or
    -EINVAL because [epoll_wait] has failed, and both invariants hold. *)
Theorem ev_loop_client_safe e user (J : world → Prop) w rounds :
  Client e user J → inv_ok e w → J w → batch w = [] →
  match ev_loop user e rounds w with
  | Ok (r, w') => inv_ok e w' ∧ batch w' = [] ∧ J w' ∧
      (r = 0 ∧ ((∀ p, ¬ registered w' e p) ∨ ∃ v, evs w' !! e = Some v ∧ break_loop v ≠ 0) ∨
       r = - EINVAL ∧ None ∈ rounds)
  | Err f => f = Blocked
  end.
Proof. intros C. by apply loop_client. Qed.

(** Callbacks without objects of their own. *)
Definition callback_ok (e : Z) (user : Z → list Z → M world unit) : Prop :=
  ∀ cb args w, inv_ok e w → ∃ w', user cb args w = Ok (tt, w') ∧ inv_ok e w' ∧ batch w' = batch w.

Lemma inv_ok_calls e w l : inv_ok e w → inv_ok e (set_calls l w).
Proof. intros (v&reg&I). exists v, reg. by apply inv_calls. Qed.

#[export] Instance callback_client e user : callback_ok e user → Client e user (λ _, True).
Proof.
  intros Hu. split; [done|]. intros w p x pre r w0 I _ Hx Hp _ Hw0 I0.
  destruct (Hu (e_cb x) (pre ++ [e_data x]) (set_calls (calls w0 ++ [(e_cb x, pre ++ [e_data x])]) w0)) as (w'&?&?&Hb);
    [by apply inv_ok_calls|].
  exists w'. split_and!; [done|done| |done]. rewrite Hb. cbn. destruct (is_oneshot x); [|by subst].
  destruct (del_ok e w p I) as (r'&w1&Hd&_&Hb'&_); [by exists x|]. rewrite Hw0 in Hd. by injection Hd as _ <-.
Qed.

(** *** One-shot timers *)

Definition oneshot (x : ev_entry) : Prop := e_raw x = 0 ∧ e_type x = EV_TIMEOUT_ONESHOT.
(** The call that an entry is waiting for. *)
Definition call_of (w : world) (p : Z) : Z * list Z :=
  match entries w !! p with Some x => (e_cb x, [e_data x]) | None => (0, []) end.
Definition calls_of (w : world) (reg : gmap Z (Z * Z)) : list (Z * list Z) :=
  map (λ r, call_of w (snd (snd r))) (map_to_list reg).

Definition passive : Z → list Z → M world unit := λ _ _, ret tt.

Lemma oneshot_step e v reg w p ps x :
  inv e v reg (set_batch (p :: ps) w) → entries w !! p = Some x → oneshot x → is_Some (reg !! e_fd x) →
  ∃ v' w', ev_process_call_internal passive e p (set_batch ps w) = Ok (tt, w') ∧
    inv e v' (delete (e_fd x) reg) w' ∧ break_loop v' = break_loop v ∧
    batch w' = ps ∧ entries w' = entries w ∧ calls w' = calls w ++ [call_of w p].
Proof.
  intros I Hx [Hraw Hty] Hreg. destruct (inv_next _ _ _ _ _ _ I) as (x'&Hx'&_&I2&Hread).
  rewrite Hx in Hx'. injection Hx' as <-. unfold ev_process_call_internal.
  rewrite (get_entry_run _ _ _ x), Hraw, Hty by done.
  cbv [truthy EV_READ EV_WRITE EV_TIMEOUT_ONESHOT]. cbn [Z.eqb Pos.eqb negb orb].
  unfold ev_process_timer_oneshot. rewrite (get_entry_run _ _ _ x) by done.
  destruct Hread as (d&ds&Hr); [unfold reads; by rewrite Hraw, Hty|]. rewrite (bind_ok _ _ _ _ _ Hr).
  destruct (del_run _ _ _ _ p _ I2 Hx Hreg) as (v'&w'&Hd&I'&_&Hbr&Hb&He&Hc&_).
  rewrite (bind_ok _ _ _ _ _ Hd), (get_entry_run _ _ _ x) by (by rewrite He).
  exists v'. eexists. split; [reflexivity|]. split_and!; [by apply inv_calls|done|done|done|].
  cbn. rewrite Hc. unfold call_of. by rewrite Hx.
Qed.

Lemma oneshot_batch e fds : ∀ v reg w,
  inv e v reg (set_batch (map (ptr_of reg) fds) w) → (fds = [] → batch w = []) →
  NoDup fds → (∀ fd, fd ∈ fds → is_Some (reg !! fd)) →
  (∀ p, registered w e p → ∃ x, entries w !! p = Some x ∧ oneshot x) →
  ∃ v' reg' w' cs, process_batch passive e (map (ptr_of reg) fds) w = Ok (tt, w') ∧
    inv e v' reg' w' ∧ break_loop v' = break_loop v ∧ batch w' = [] ∧ entries w' = entries w ∧
    calls w' = calls w ++ cs ∧ cs ++ calls_of w reg' ≡ₚ calls_of w reg ∧
    (∀ fd r, reg' !! fd = Some r ↔ reg !! fd = Some r ∧ fd ∉ fds).
Proof.
  induction fds as [|fd fds IH]; intros v reg w I Hnil Hnd Hfds Hone; cbn [map process_batch].
  - exists v, reg, w, []. rewrite app_nil_r. split_and!; try done; [|by apply Hnil|].
    + replace w with (set_batch [] w); [done|]. specialize (Hnil eq_refl). destruct w; cbn in *. by subst.
    + intros fd r. split; [intros; split; [done|apply not_elem_of_nil]|by intros [? _]].
  - apply NoDup_cons in Hnd as [Hni Hnd]. destruct (Hfds fd) as [[fl p] Hp]; [by left|].
    assert (ptr_of reg fd = p) as Hptr by (unfold ptr_of; by rewrite Hp). cbn [map] in I. rewrite Hptr in *.
    rewrite (bind_ok _ _ _ _ _ (modify_run _ _)).
    destruct (i_reg _ _ _ _ I _ _ _ Hp) as (x&f&Hx&Hxf&_).
    destruct (Hone p) as (x'&Hx'&Ho).
    { apply (registered_inv e v reg (set_batch (p :: map (ptr_of reg) fds) w)); eauto. }
    cbn in Hx. rewrite Hx in Hx'. injection Hx' as <-.
    destruct (oneshot_step e v reg w p _ x I Hx Ho) as (v1&w1&Hr1&I1&Hbr1&Hb1&He1&Hc1); [rewrite Hxf; by eexists|].
    rewrite Hxf in I1. rewrite (bind_ok _ _ _ _ _ Hr1).
    assert (Hsame : map (ptr_of reg) fds = map (ptr_of (delete fd reg)) fds).
    { apply map_ext_in. intros fd' Hfd'%list_elem_of_In. unfold ptr_of. rewrite lookup_delete_ne; [done|]. by intros ->. }
    rewrite Hsame in *.
    destruct (IH v1 (delete fd reg) w1) as (v2&reg2&w2&cs&Hr2&I2&Hbr2&Hb2&He2&Hc2&Hperm&Hreg2).
    + by replace (set_batch (map (ptr_of (delete fd reg)) fds) w1) with w1 by (rewrite <- Hb1; by destruct w1).
    + intros ->. by rewrite Hb1.
    + done.
    + intros fd' Hfd'. rewrite lookup_delete_ne by (by intros ->). apply Hfds. by right.
    + intros q Hq. rewrite He1. apply Hone. rewrite (registered_inv _ _ _ _ _ I1) in Hq. destruct Hq as (fd'&fl'&[_ Hq]%lookup_delete_Some).
      apply (registered_inv e v reg (set_batch (p :: map (ptr_of (delete fd reg)) fds) w)); eauto.
    + exists v2, reg2, w2, (call_of w p :: cs). split_and!; [done|done|congruence|done|congruence| | |].
      * rewrite Hc2, Hc1. by rewrite <- app_assoc.
      * assert (∀ r, calls_of w1 r = calls_of w r) as Hcw.
        { intros r. unfold calls_of. apply map_ext. intros r'. unfold call_of. by rewrite He1. }
        rewrite !Hcw in Hperm. cbn [app]. rewrite Hperm.
        transitivity (calls_of w (<[fd := (fl, p)]> (delete fd reg))); [|by rewrite insert_delete_id].
        unfold calls_of. change (map ?f ?l) with (f <$> l).
        rewrite (map_to_list_insert (delete fd reg)) by (by rewrite lookup_delete_eq). done.
      * intros fd' r. rewrite Hreg2, lookup_delete_Some, not_elem_of_cons. naive_solver.
Qed.

(** C29: (one-shot timers fire once) when the registered entries are one-shot
    timers with callbacks that do not use the loop, and every one of them expires
    in some round, the loop ends with 0 and nothing registered, and has called
    the callback of every timer exactly once. *)
Theorem ev_oneshot_exactly_once e v reg w rounds :
  inv e v reg w → batch w = [] → break_loop v = 0 → None ∉ rounds →
  (∀ p, registered w e p → ∃ x, entries w !! p = Some x ∧ oneshot x) →
  (∀ fd, is_Some (reg !! fd) → ∃ ready d ds, Some ready ∈ rounds ∧ (fd, d :: ds) ∈ take EVE_EPOLL_ARRAY_SIZE ready) →
  ∃ w' cs, ev_loop passive e rounds w = Ok (0, w') ∧ calls w' = calls w ++ cs ∧
    cs ≡ₚ calls_of w reg ∧ ∀ p, ¬ registered w' e p.
Proof.
  revert v reg w. induction rounds as [|round rounds IH]; intros v reg w I Hb Hbr Hnone Hone Hall; cbn [ev_loop];
    rewrite (get_ev_run _ _ _ _ (i_ev _ _ _ _ I)); destruct (Z.eqb_spec (ev_entries v) 0) as [H0|Hne].
  1,3: rewrite (i_count _ _ _ _ I) in H0; (assert (size reg = 0%nat) as Hs%map_size_empty_inv by lia); subst reg;
    exists w, []; rewrite app_nil_r; (split_and!; [done|done|unfold calls_of; by rewrite map_to_list_empty|]);
    intros p; rewrite (registered_inv _ _ _ _ _ I); intros (fd&fl&Hr); by rewrite lookup_empty in Hr.
  { exfalso. rewrite (i_count _ _ _ _ I) in Hne. destruct (decide (reg = ∅)) as [->|Hreg]; [by rewrite map_size_empty in Hne|].
    apply map_choose in Hreg as (fd&r&Hr). destruct (Hall fd) as (ready&d&ds&Hin&_); [by eexists|]. by apply not_elem_of_nil in Hin. }
  destruct round as [ready|]; [|exfalso; apply Hnone; by left]. apply not_elem_of_cons in Hnone as [_ Hnone].
  destruct (epoll_wait_ok e v reg w ready I Hb) as (fds&w1&Hr&I1&He1&Hc1&Hb1&Hnd&Hfds&Hcomplete).
  rewrite (bind_ok _ _ _ _ _ Hr).
  destruct (oneshot_batch e fds v reg w1 I1) as (v2&reg2&w2&cs&Hr2&I2&Hbr2&Hb2&He2&Hc2&Hperm&Hreg2); try done.
  { intros p Hp. rewrite He1. apply Hone. rewrite (registered_inv _ _ _ _ _ I). 
    change (registered w1 e p) with (registered (set_batch (map (ptr_of reg) fds) w1) e p) in Hp.
    by rewrite (registered_inv _ _ _ _ _ I1) in Hp. }
  rewrite (bind_ok _ _ _ _ _ Hr2), (get_ev_run _ _ _ _ (i_ev _ _ _ _ I2)), Hbr2, Hbr. change (truthy 0) with false. cbn match.
  assert (∀ r, calls_of w2 r = calls_of w r ∧ calls_of w1 r = calls_of w r) as Hcw.
  { intros r. unfold calls_of. split; apply map_ext; intros r'; unfold call_of; by rewrite ?He2, ?He1. }
  destruct (IH v2 reg2 w2 I2 Hb2 ltac:(congruence) Hnone) as (w3&cs3&Hr3&Hc3&Hp3&Hn3).
  - intros p Hp. rewrite He2, He1. apply Hone. rewrite (registered_inv _ _ _ _ _ I).
    rewrite (registered_inv _ _ _ _ _ I2) in Hp. destruct Hp as (fd&fl&[Hp _]%Hreg2). eauto.
  - intros fd [r Hfd]. apply Hreg2 in Hfd as [Hfd Hni]. destruct (Hall fd) as (ready'&d&ds&Hin&Htake); [by eexists|].
    exists ready', d, ds. split; [|done]. apply elem_of_cons in Hin as [[= ->]|Hin]; [|done].
    destruct Hni. apply (Hcomplete fd d ds); [done|by eexists].
  - exists w3, (cs ++ cs3). split_and!; [done|by rewrite Hc3, Hc2, Hc1, app_assoc| |done].
    rewrite Hp3. rewrite (proj1 (Hcw reg2)). destruct (Hcw reg2) as [_ Heq]. rewrite Heq in Hperm.
    rewrite Hperm. by rewrite (proj2 (Hcw reg)).
Qed.

(** [ev_new] without or with success. *)
Lemma ev_new_ok fl w :
  (∀ fd, is_Some (files w !! fd) → 0 ≤ fd < 2 ^ 31) → batch w = [] →
  ∃ p w', ev_new fl w = Ok (p, w') ∧ entries w' = entries w ∧ batch w' = [] ∧
    (p = 0 ∧ files w' = files w ∨ p ≠ 0 ∧ inv_ok p w' ∧ break_of w' p = Some 0).
Proof.
  intros Hfds Hb. unfold ev_new. destruct (ev_new_flags_convert fl <? 0); [by eexists _, _; split_and!; [| | |left]|].
  unfold struct_ev_new_internal. destruct (malloc_ok w) as (p&l&Hr&Hp). rewrite !bind_assoc, (bind_ok _ _ _ _ _ Hr).
  destruct Hp as [->|(Hpos&Hev&_)]; [by eexists _, _; split_and!; [| | |left]|].
  rewrite (proj2 (Z.eqb_neq p 0)) by lia. unfold set_ev. rewrite bind_assoc, (bind_ok _ _ _ _ _ (modify_run _ _)).
  rewrite (bind_ok _ _ _ _ _ (ret_run _ _)), (proj2 (Z.eqb_neq p 0)) by lia. set (w1 := set_evs _ _). unfold epoll_create1.
  destruct (new_fd_ok (EpollFd ∅) w1) as (fd&l2&[Hn|(Hfd&Hfree&Hn)]); rewrite (bind_ok _ _ _ _ _ Hn).
  { change (-1 <? 0) with true. cbn match. eexists _, _. split_and!; [done|done|done|by left]. }
  rewrite (proj2 (Z.ltb_ge fd 0)) by lia. eexists _, _. split_and!; [done|done|done|right].
  split_and!; [lia| |unfold break_of; cbn; by rewrite lookup_insert_eq].
  exists (mk_ev fd 0 0), ∅. split; cbn; try done.
  - by rewrite lookup_insert_eq.
  - by rewrite lookup_insert_eq.
  - intros fd'. rewrite lookup_insert_is_Some. intros [<-|[_ ?]]; [done|by apply Hfds].
  - intros q Hq. cbn in Hq. rewrite Hb in Hq. by apply not_elem_of_nil in Hq.
  - rewrite Hb. apply NoDup_nil_2.
Qed.

(** C30: (the API keeps the invariant) [ev_new] establishes it, and every call
    that [allowed] admits — adding an entry that is not registered, removing any
    live entry, freeing one that nothing refers to — succeeds or fails without a
    fault, whatever the kernel answers, and keeps it. *)
Theorem ev_api_keeps_invariant e w :
  (∀ fl, (∀ fd, is_Some (files w !! fd) → 0 ≤ fd < 2 ^ 31) → batch w = [] →
    ∃ p w', ev_new fl w = Ok (p, w') ∧ (p = 0 ∨ inv_ok p w' ∧ batch w' = [])) ∧
  (∀ c, inv_ok e w → allowed e w c →
    ∃ r w', exec_cmd e c w = Ok (r, w') ∧ inv_ok e w' ∧ batch w' = batch w).
Proof.
  split; [|by apply cmd_ok]. intros fl Hfds Hb.
  destruct (ev_new_ok fl w Hfds Hb) as (p&w'&Hr&_&Hb'&[[-> _]|(_&I&_)]); do 2 eexists; (split; [exact Hr|auto]).
Qed.
End loop_proofs.

(** ** Timers *)

(** The nanoseconds of a time. *)
Definition nanoseconds (t : Z * Z) : Z := t.1 * 1000000000 + t.2.
Definition normal (t : Z * Z) : Prop := 0 ≤ t.2 < 1000000000.

Lemma oneshot_value_ok now ts :
  normal now → normal ts →
  normal (oneshot_value now ts) ∧ nanoseconds (oneshot_value now ts) = nanoseconds now + nanoseconds ts.
Proof.
  unfold normal, nanoseconds, oneshot_value. intros H1 H2.
  destruct (Z.leb_spec 1000000000 (now.2 + ts.2)); cbn; lia.
Qed.

(** Inverts a run step by step. *)
Ltac run_inv H :=
  let a := fresh "a" in let s := fresh "s" in let Ha := fresh "Ha" in
  apply bind_inv in H as (a & s & Ha & H).

Lemma answer_inv w r w' : answer w = Ok (r, w') → ∃ l, w' = set_answers l w.
Proof. intros H. destruct (answer_ok w) as (r2&l&H2). rewrite H in H2. injection H2 as _ ->. by exists l. Qed.

Lemma settime_inv fd abs val int w r w' :
  timerfd_settime fd abs val int w = Ok (r, w') → r < 0 ∨
  files w' = <[fd := TimerFd abs val int]> (files w) ∧ entries w' = entries w ∧ evs w' = evs w.
Proof.
  unfold timerfd_settime. intros H. run_inv H. destruct (answer_inv _ _ _ Ha) as [l ->].
  destruct (a <? 0); [left; injection H; lia|right]. by injection H as _ <-.
Qed.

Lemma new_fd_inv f w fd w' : new_fd f w = Ok (fd, w') → 0 ≤ fd →
  files w !! fd = None ∧ files w' = <[fd := f]> (files w) ∧ entries w' = entries w ∧ evs w' = evs w.
Proof.
  intros H Hfd. by destruct (new_fd_ok f w) as (fd'&l&[Hn|(Hr&Hfree&Hn)]); rewrite H in Hn; injection Hn as -> ->.
Qed.

Lemma armed_inv p fd w w' :
  armed p fd w = Ok (0, w') →
  ∃ x, entries w !! p = Some x ∧ entries w' = <[p := set_e_fd fd (set_flags TIMER_FLAGS x)]> (entries w) ∧
    files w' = files w ∧ evs w' = evs w ∧ fd ∈ nonblock w'.
Proof.
  unfold armed, ev_set_non_blocking. intros H. run_inv H. run_inv Ha. destruct (answer_inv _ _ _ Ha0) as [l ->].
  destruct (a0 <? 0).
  { injection Ha as <- <-. run_inv H. by injection H. }
  run_inv Ha. destruct (answer_inv _ _ _ Ha1) as [l2 ->]. destruct (a1 <? 0).
  { injection Ha as <- <-. run_inv H. by injection H. }
  injection Ha as <- <-. change (0 <? 0) with false in H. cbn match in H. run_inv H.
  unfold get_entry, gets_some in Ha. cbn [entries set_nonblock set_answers] in Ha.
  destruct (entries w !! p) as [x|] eqn:Hx; [|done]. injection Ha as <- <-. injection H as <-.
  exists x. split_and!; try done. cbn. set_solver.
Qed.

Lemma ctl_add_inv epfd fd fl p w r w' :
  EPOLL_CTL_ADD epfd fd fl p w = Ok (r, w') → r < 0 ∨
  ∃ reg, interest w epfd = Some reg ∧ fd ≠ epfd ∧
    files w' = <[epfd := EpollFd (<[fd := (fl, p)]> reg)]> (files w) ∧
    entries w' = entries w ∧ evs w' = evs w ∧ nonblock w' = nonblock w.
Proof.
  unfold EPOLL_CTL_ADD. intros H. run_inv H. destruct (answer_inv _ _ _ Ha) as [l ->].
  rewrite (bind_ok _ _ _ _ _ (gets_run _ _)) in H. change (interest (id _) epfd) with (interest w epfd) in H.
  destruct (interest w epfd) as [reg|]; [|left; injection H; lia].
  destruct (files _ !! fd); [|left; injection H; lia].
  match type of H with context [if ?b then _ else _] => destruct b eqn:Hc end; [left; injection H; lia|right].
  apply orb_false_iff in Hc as [_ Hne%Z.eqb_neq]. injection H as _ <-. by exists reg.
Qed.

(** (expiration of one-shot timers) when [ev_add] of a one-shot timer returns
    0, its descriptor is a new non-blocking timer that expires once, at a normal
    time that is exactly the delay of the entry after the time of the call, and
    it is registered with the pointer of the entry. *)
Theorem ev_add_oneshot e w p x w' :
  entries w !! p = Some x → oneshot x → normal (clock w) → normal (e_timespec x) →
  ev_add e p w = Ok (0, w') →
  ∃ fd t, entries w' !! p = Some (set_e_fd fd (set_flags TIMER_FLAGS x)) ∧
    files w !! fd = None ∧ files w' !! fd = Some (TimerFd true t (0, 0)) ∧ fd ∈ nonblock w' ∧
    normal t ∧ nanoseconds t = nanoseconds (clock w) + nanoseconds (e_timespec x) ∧
    registered w' e p.
Proof.
  intros Hx [Hraw Hty] Hclock Hts Hrun. unfold ev_add in Hrun. rewrite (get_entry_run _ _ _ _ Hx), Hraw, Hty in Hrun.
  cbn [truthy Z.eqb negb] in Hrun. change (EV_TIMEOUT_ONESHOT =? EV_TIMEOUT_ONESHOT) with true in Hrun. cbn match in Hrun.
  run_inv Hrun. destruct (Z.eqb_spec a 0) as [->|]; cbn [negb] in Hrun; [|by injection Hrun].
  unfold ev_arm_timerfd_oneshot in Ha. rewrite (get_entry_run _ _ _ _ Hx) in Ha. unfold clock_gettime in Ha.
  rewrite bind_assoc in Ha. run_inv Ha. destruct (answer_inv _ _ _ Ha0) as [l ->].
  rewrite bind_assoc, (bind_ok _ _ _ _ _ (gets_run _ _)), (bind_ok _ _ _ _ _ (ret_run _ _)) in Ha.
  cbn [clock set_answers] in Ha. destruct (a <? 0); [done|].
  change (-1 <? 0) with true in Ha. change (0 <? 0) with false in Ha. cbn match in Ha.
  run_inv Ha. rename a0 into fd. destruct (Z.ltb_spec fd 0) as [|Hfd]; [done|].
  destruct (new_fd_inv _ _ _ _ Ha1 Hfd) as (Hfree&Hf1&He1&Hv1). run_inv Ha. destruct (Z.ltb_spec a0 0).
  { run_inv Ha. by injection Ha. }
  destruct (settime_inv _ _ _ _ _ _ _ Ha2) as [|(Hf2&He2&Hv2)]; [lia|].
  destruct (armed_inv _ _ _ _ Ha) as (y&Hy&He3&Hf3&Hv3&Hnb).
  rewrite He2, He1 in Hy. cbn in Hy. rewrite Hx in Hy. injection Hy as <-.
  rewrite (get_entry_run _ _ _ (set_e_fd fd (set_flags TIMER_FLAGS x))) in Hrun by (by rewrite He3, lookup_insert_eq).
  destruct (oneshot_value_ok _ _ Hclock Hts) as [Hn1 Hn2].
  run_inv Hrun. unfold get_ev, gets_some in Ha3. destruct (evs s !! e) as [v|] eqn:Hv; [|done].
  injection Ha3 as <- <-. run_inv Hrun. destruct (Z.ltb_spec a1 0); [by injection Hrun|]. run_inv Hrun.
  injection Hrun as <-. injection Ha4 as _ <-.
  destruct (ctl_add_inv _ _ _ _ _ _ _ Ha3) as [|(reg&Hreg&Hne&Hf5&He5&Hv5&Hn5)]; [lia|].
  exists fd, (oneshot_value (clock w) (e_timespec x)). cbn [entries files nonblock set_evs].
  split_and!; [by rewrite He5, He3, lookup_insert_eq|done| |by rewrite Hn5|done|done|].
  - rewrite Hf5, lookup_insert_ne, Hf3, Hf2 by done. by rewrite lookup_insert_eq.
  - eexists _, (<[fd := _]> reg), fd, _. cbn [evs files set_evs]. rewrite Hf5. cbn.
    split_and!; [by rewrite lookup_insert_eq|cbn; by rewrite lookup_insert_eq|by rewrite lookup_insert_eq].
Qed.

(** ** A process *)

Definition after {A} (m : M world A) (w : world) : world :=
  match m w with Ok (_, w') => w' | Err _ => w end.

(** A process with its standard descriptors open. *)
Definition process (l : list Z) : world :=
  mk_world ∅ ∅ {[0 := OtherFd; 1 := OtherFd; 2 := OtherFd]} ∅ ∅ (10, 999999999) l [] [] ∅.
(** An event object at 100 with the epoll descriptor 3. *)
Definition started (l : list Z) : world := after (ev_new 0) (process ([100; 3] ++ l)).
Definition one_timer : world :=
  after (ev_timer_oneshot_new (1, 500) 1 300) (started [200; 1; 0; 4; 0; 0; 0; 0; 300; 1; 0; 5; 0; 0; 0; 0]).
Definition armed_timer : world := after (ev_add 100 200) one_timer.

(** ** Witnesses *)

Lemma started_inv l : inv 100 (mk_ev 3 0 0) ∅ (started l).
Proof.
  split; cbn; try done.
  - assert (map_Forall (λ fd _, 0 ≤ fd < 2 ^ 31) (files (started l))) as H.
    { apply (bool_decide_unpack _). by vm_compute. }
    intros fd [f Hf]. by apply (H fd f).
  - intros p Hp. by apply not_elem_of_nil in Hp.
  - apply NoDup_nil_2.
Qed.

Lemma cmd_after e w c :
  inv_ok e w → allowed e w c → inv_ok e (after (exec_cmd e c) w) ∧ batch (after (exec_cmd e c) w) = batch w.
Proof. intros I Ha. destruct (cmd_ok e w c I Ha) as (r&w'&Hr&?&?). unfold after. by rewrite Hr. Qed.

Lemma one_timer_inv : inv 100 (mk_ev 3 0 0) ∅ one_timer.
Proof.
  set (l := [200; 1; 0; 4; 0; 0; 0; 0; 300; 1; 0; 5; 0; 0; 0; 0]).
  destruct (cmd_after 100 (started l) (NewOneshot (1, 500) 1 300)) as [(v&reg&I) _].
  { eexists _, _. apply started_inv. }
  { done. }
  pose proof (i_ev _ _ _ _ I) as Hv. pose proof (i_epoll _ _ _ _ I) as Hf.
  assert (v = mk_ev 3 0 0) as -> by (vm_compute in Hv; congruence).
  assert (reg = ∅) as -> by (vm_compute in Hf; by injection Hf as <-). exact I.
Qed.

Lemma one_timer_allowed : allowed 100 one_timer (Add 200).
Proof.
  split_and!.
  - by eexists.
  - apply not_elem_of_nil.
  - rewrite (registered_inv _ _ _ _ _ one_timer_inv). intros (fd&fl&Hr). by rewrite lookup_empty in Hr.
Qed.

Definition one_registered : gmap Z (Z * Z) := {[4 := (TIMER_FLAGS, 200)]}.

Lemma armed_timer_inv : inv 100 (mk_ev 3 0 1) one_registered armed_timer.
Proof.
  destruct (cmd_after 100 one_timer (Add 200)) as [(v&reg&I) _].
  { eexists _, _. apply one_timer_inv. }
  { apply one_timer_allowed. }
  pose proof (i_ev _ _ _ _ I) as Hv. pose proof (i_epoll _ _ _ _ I) as Hf.
  assert (v = mk_ev 3 0 1) as -> by (vm_compute in Hv; congruence).
  assert (reg = one_registered) as -> by (vm_compute in Hf; by injection Hf as <-). exact I.
Qed.

Lemma passive_ok e : callback_ok e passive.
Proof. intros cb args w I. by exists w. Qed.

Lemma ev_loop_client_safe_witness :
  match ev_loop passive 100 [Some [(4, [1])]] armed_timer with
  | Ok (r, w') => inv_ok 100 w' ∧ batch w' = [] ∧ True ∧
      (r = 0 ∧ ((∀ p, ¬ registered w' 100 p) ∨ ∃ v, evs w' !! 100 = Some v ∧ break_loop v ≠ 0) ∨
       r = - EINVAL ∧ None ∈ [Some [(4, [1])]])
  | Err f => f = Blocked
  end.
Proof.
  apply (ev_loop_client_safe 100 passive (λ _, True) armed_timer [Some [(4, [1])]]).
  - apply callback_client, passive_ok.
  - eexists _, _. apply armed_timer_inv.
  - done.
  - reflexivity.
Defined.

Lemma ev_oneshot_exactly_once_witness :
  ∃ w' cs, ev_loop passive 100 [Some []; Some [(4, [1])]] armed_timer = Ok (0, w') ∧
    calls w' = calls armed_timer ++ cs ∧ cs ≡ₚ calls_of armed_timer one_registered ∧ ∀ p, ¬ registered w' 100 p.
Proof.
  apply (ev_oneshot_exactly_once 100 (mk_ev 3 0 1) one_registered armed_timer [Some []; Some [(4, [1])]]).
  - apply armed_timer_inv.
  - reflexivity.
  - reflexivity.
  - rewrite !not_elem_of_cons. split_and!; [done|done|apply not_elem_of_nil].
  - intros p. rewrite (registered_inv _ _ _ _ _ armed_timer_inv). intros (fd&fl&Hr). unfold one_registered in Hr.
    apply lookup_singleton_Some in Hr as [_ [= _ <-]]. by eexists.
  - intros fd [r Hr]. unfold one_registered in Hr. apply lookup_singleton_Some in Hr as [<- _]. exists [(4, [1])], 1, [].
    split; [right; by left|by left].
Defined.

Lemma ev_add_oneshot_witness :
  ∃ fd t, entries armed_timer !! 200 =
      Some (set_e_fd fd (set_flags TIMER_FLAGS (mk_entry 0 EV_TIMEOUT_ONESHOT 0 (1, 500) 1 300 (mk_data 0 0)))) ∧
    files one_timer !! fd = None ∧ files armed_timer !! fd = Some (TimerFd true t (0, 0)) ∧ fd ∈ nonblock armed_timer ∧
    normal t ∧ nanoseconds t = nanoseconds (clock one_timer) + nanoseconds (1, 500) ∧
    registered armed_timer 100 200.
Proof.
  apply (ev_add_oneshot 100 one_timer 200 (mk_entry 0 EV_TIMEOUT_ONESHOT 0 (1, 500) 1 300 (mk_data 0 0)) armed_timer).
  - reflexivity.
  - done.
  - vm_compute. split; congruence.
  - vm_compute. split; congruence.
  - vm_compute. reflexivity.
Defined.
