(* ===== verification/EvTests.v ===== *)
(** * The tests of event-loop/ev.c

    The test functions at the end of the file and their callbacks: clients of the
    event loop with objects of their own.  Every callback test is an instance of
    [EventLoop.Client], whose invariant says what is left to do; a [rounds]
    argument says what the [epoll_wait] calls of a test will report. *)
From S2P Require Import Prelude EventLoop.
From Stdlib Require Import String.
From stdpp Require Import gmap list strings.
#[local] Open Scope Z_scope.
#[local] Open Scope c_scope.

(** ** Objects of the tests *)

Definition set_object (p : Z) (l : list Z) : M world unit := modify (λ w, set_memory (<[p := l]> (memory w)) w).
Definition object (p : Z) : M world (list Z) := gets_some (λ w, memory w !! p).
Definition field (p : Z) (i : nat) : M world Z :=
  l ← object p;
  match l !! i with Some v => ret v | None => fail Undefined end.
Definition set_field (p : Z) (i : nat) (v : Z) : M world unit :=
  l ← object p;
  set_object p (<[i := v]> l).
Definition free (p : Z) : M world unit :=
  object p ;; modify (λ w, set_memory (delete p (memory w)) w).

(** [struct ctx_timer] and [struct ev_wrapper]: the positions of their members. *)
Definition ctx_eve : nat := 0.
Definition ctx_ev : nat := 1.
Definition ctx_periodic_runs : nat := 2.
Definition wrapper_ev : nat := 0.
Definition wrapper_ev_entry : nat := 1.

(** The functions whose addresses are stored in entries, and the variable [i]. *)
Definition CALLBACK_ONESHOT : Z := 1.
Definition CALLBACK_TIMER_PERIODIC : Z := 2.
Definition FD_CB_RAW : Z := 3.
Definition TIMER_CD : Z := 4.
Definition CANCEL_TIMER_CB : Z := 5.
Definition i_var : Z := 8.

Definition SLEEP_SECONDS : Z := 1.
Definition ITERATIO_MAX : Z := 2.

(** [exit(EXIT_FAILURE)] with the message before it. *)
Definition EXIT_FAILURE : Z := 1.
Definition entry_not_created : fault := Exited EXIT_FAILURE "Failed to create a ev_entry object"%string.
Definition no_pipe : fault := Exited EXIT_FAILURE "pipe"%string.
Definition entry_not_added : fault := Exited EXIT_FAILURE "Cannot add entry to event handler"%string.

(** ** Callbacks *)

Definition timer_cd (data : Z) : M world unit :=
  i ← field i_var 0;
  set_field i_var 0 (i + 1) ;;
  if ITERATIO_MAX <=? i then ret tt
  else
    ev_e ← ev_timer_oneshot_new (SLEEP_SECONDS, 0) TIMER_CD data;
    if ev_e =? 0 then fail (Exited 666 "failed to create a ev_entry object"%string)
    else ev_add data ev_e ;; ret tt.

Definition cancel_timer_cb (data : Z) : M world unit :=
  e ← field data wrapper_ev;
  p ← field data wrapper_ev_entry;
  r ← ev_timer_cancel e p;
  if negb (r =? 0) then fail (Exited EXIT_FAILURE "failed to cancel timer"%string)
  else
    p ← field data wrapper_ev_entry;
    ev_entry_free p.

Definition ctx_timer_new : M world Z :=
  p ← malloc;
  if p =? 0 then fail Aborted
  else set_object p [0; 0; 0] ;; ret p.

Definition callback_oneshot (data : Z) : M world unit :=
  p ← field data ctx_eve;
  ev_entry_free p ;;
  free data.

Definition callback_timer_periodic (missed data : Z) : M world unit :=
  runs ← field data ctx_periodic_runs;
  set_field data ctx_periodic_runs (u32 (runs - 1)) ;;
  runs ← field data ctx_periodic_runs;
  if runs =? 0 then
    e ← field data ctx_ev;
    p ← field data ctx_eve;
    r ← ev_timer_cancel e p;
    if r <? 0 then fail (Exited EXIT_FAILURE "failed to cancel timer"%string)
    else
      p ← field data ctx_eve;
      ev_entry_free p ;;
      free data
  else ret tt.

Definition raw_events : Z := Z.lor (Z.lor EPOLLIN EPOLLPRI) (Z.lor EPOLLERR EPOLLHUP).

Definition fd_cb_raw (fd events_ret priv_data : Z) : M world unit :=
  massert (raw_events =? events_ret) ;;
  ev_run_out priv_data ;;
  ret tt.

Definition test_callbacks (cb : Z) (args : list Z) : M world unit :=
  match args with
  | [data] =>
      if cb =? CALLBACK_ONESHOT then callback_oneshot data
      else if cb =? TIMER_CD then timer_cd data
      else if cb =? CANCEL_TIMER_CB then cancel_timer_cb data
      else fail Undefined
  | [missed; data] => if cb =? CALLBACK_TIMER_PERIODIC then callback_timer_periodic missed data else fail Undefined
  | [fd; events; data] => if cb =? FD_CB_RAW then fd_cb_raw fd events data else fail Undefined
  | _ => fail Undefined
  end.

(** ** Tests *)

Section tests.
Context (rounds : list (option (list (Z * list Z)))).

Definition do_cancel_test (e : Z) : M world Z :=
  eve1 ← ev_timer_oneshot_new (5, 0) TIMER_CD e;
  if eve1 =? 0 then fail entry_not_created
  else
    r ← ev_add e eve1;
    if negb (r =? 0) then fail entry_not_added
    else
      wrapper ← malloc;
      if wrapper =? 0 then fail (Exited EXIT_FAILURE "malloc"%string)
      else
        set_object wrapper [e; eve1] ;;
        eve2 ← ev_timer_oneshot_new (1, 0) CANCEL_TIMER_CB wrapper;
        if eve2 =? 0 then fail entry_not_created
        else
          r ← ev_add e eve2;
          if negb (r =? 0) then fail entry_not_added
          else
            ev_loop test_callbacks e rounds ;;
            free wrapper ;;
            ret 1.

Definition test_timer : M world unit :=
  e ← ev_new 0;
  if e =? 0 then ret tt
  else do_cancel_test e ;; ev_destroy e.

Definition test_timer_oneshot : M world unit :=
  e ← ev_new 0;
  if e =? 0 then ret tt
  else
    ctxo ← ctx_timer_new;
    set_field ctxo ctx_ev e ;;
    eve ← ev_timer_oneshot_new (1, 0) CALLBACK_ONESHOT ctxo;
    if eve =? 0 then fail entry_not_created
    else
      set_field ctxo ctx_eve eve ;;
      r ← ev_add e eve;
      if negb (r =? 0) then fail entry_not_added
      else
        ev_loop test_callbacks e rounds ;;
        ev_destroy e.

Definition test_timer_periodic : M world unit :=
  e ← ev_new 0;
  if e =? 0 then ret tt
  else
    ctxo ← ctx_timer_new;
    set_field ctxo ctx_ev e ;;
    set_field ctxo ctx_periodic_runs 5 ;;
    eve ← ev_timer_periodic_new (1, 0) CALLBACK_TIMER_PERIODIC ctxo;
    if eve =? 0 then fail entry_not_created
    else
      set_field ctxo ctx_eve eve ;;
      r ← ev_add e eve;
      if negb (r =? 0) then fail entry_not_added
      else
        ev_loop test_callbacks e rounds ;;
        ev_destroy e.

(** Writing to the pipe is what makes its descriptor ready, which [rounds] says. *)
Definition pipe : M world (option (Z * Z)) :=
  rd ← new_fd OtherFd;
  if rd <? 0 then ret None
  else
    wr ← new_fd OtherFd;
    if wr <? 0 then close rd ;; ret None
    else ret (Some (rd, wr)).

Definition test_events_raw : M world unit :=
  pipefd ← pipe;
  match pipefd with
  | None => fail no_pipe
  | Some (rd, _) =>
      e ← ev_new 0;
      if e =? 0 then ret tt
      else
        eve ← ev_entry_new_raw rd raw_events FD_CB_RAW e;
        if eve =? 0 then fail entry_not_created
        else
          r ← ev_add e eve;
          if negb (r =? 0) then fail entry_not_added
          else
            ev_loop test_callbacks e rounds ;;
            ev_entry_free eve ;;
            ev_destroy e
  end.
End tests.

Definition main (rounds1 rounds2 rounds3 rounds4 : list (option (list (Z * list Z)))) : M world Z :=
  test_timer_oneshot rounds1 ;;
  test_timer_periodic rounds2 ;;
  test_timer rounds3 ;;
  test_events_raw rounds4 ;;
  ret 0.

(** ** What the event loop leaves alone *)

Definition objects (w : world) : gmap Z (list Z) * list (Z * list Z) := (memory w, calls w).

Section frames.

Lemma keeps_answer : keeps objects answer.
Proof. intros w a w'. unfold answer. destruct (answers w); intros H; by injection H as _ <-. Qed.
#[local] Hint Resolve keeps_answer : sysprog.

Lemma keeps_new_fd f : keeps objects (new_fd f).
Proof. unfold new_fd. solve_keeps. Qed.
Lemma keeps_malloc : keeps objects malloc.
Proof. unfold malloc. solve_keeps. Qed.
Lemma keeps_close fd : keeps objects (close fd).
Proof. unfold close. solve_keeps. Qed.
Lemma keeps_settime fd abs val int : keeps objects (timerfd_settime fd abs val int).
Proof. unfold timerfd_settime. solve_keeps. Qed.
Lemma keeps_gettime : keeps objects clock_gettime.
Proof. unfold clock_gettime. solve_keeps. Qed.
Lemma keeps_ctl_add epfd fd fl p : keeps objects (EPOLL_CTL_ADD epfd fd fl p).
Proof. unfold EPOLL_CTL_ADD. solve_keeps. Qed.
Lemma keeps_ctl_del epfd fd : keeps objects (EPOLL_CTL_DEL epfd fd).
Proof. unfold EPOLL_CTL_DEL. solve_keeps. Qed.
Lemma keeps_get_ev e : keeps objects (get_ev e).
Proof. apply keeps_gets_some. Qed.
Lemma keeps_get_entry p : keeps objects (get_entry p).
Proof. apply keeps_gets_some. Qed.
Lemma keeps_set_ev e v : keeps objects (set_ev e v).
Proof. by apply keeps_modify. Qed.
Lemma keeps_set_entry p x : keeps objects (set_entry p x).
Proof. by apply keeps_modify. Qed.
#[local] Hint Resolve keeps_new_fd keeps_malloc keeps_close keeps_settime keeps_gettime keeps_ctl_add keeps_ctl_del
  keeps_get_ev keeps_get_entry keeps_set_ev keeps_set_entry : sysprog.

Lemma keeps_pipe : keeps objects pipe.
Proof. unfold pipe. solve_keeps. Qed.
Lemma keeps_ev_new fl : keeps objects (ev_new fl).
Proof. unfold ev_new, struct_ev_new_internal, epoll_create1. solve_keeps. Qed.
Lemma keeps_ev_destroy e : keeps objects (ev_destroy e).
Proof. unfold ev_destroy. solve_keeps. Qed.
Lemma keeps_entry_new : keeps objects ev_entry_new_epoll_internal.
Proof. unfold ev_entry_new_epoll_internal. solve_keeps. Qed.
Lemma keeps_entry_with x :
  keeps objects (bind ev_entry_new_epoll_internal (λ p, if p =? 0 then ret 0 else set_entry p x ;; ret p)).
Proof. unfold ev_entry_new_epoll_internal. solve_keeps. Qed.
Lemma keeps_entry_free p : keeps objects (ev_entry_free p).
Proof. unfold ev_entry_free, ev_entry_timer_free, ev_entry_signal_free. solve_keeps. Qed.
Lemma keeps_armed p fd : keeps objects (armed p fd).
Proof. unfold armed, ev_set_non_blocking. solve_keeps. Qed.
#[local] Hint Resolve keeps_armed : sysprog.
Lemma keeps_ev_add e p : keeps objects (ev_add e p).
Proof.
  unfold ev_add, ev_arm_timerfd_oneshot, ev_arm_timerfd_periodic, ev_arm_signal, timerfd_create, signalfd. solve_keeps.
Qed.
Lemma keeps_ev_del e p : keeps objects (ev_del e p).
Proof. unfold ev_del. solve_keeps. Qed.
End frames.

(** ** Reading and writing objects *)

Lemma object_run {B} (k : list Z → M world B) w p l : memory w !! p = Some l → bind (object p) k w = k l w.
Proof. intros Hl. apply bind_ok. unfold object, gets_some. by rewrite Hl. Qed.

Lemma field_run {B} (k : Z → M world B) w p i l v :
  memory w !! p = Some l → l !! i = Some v → bind (field p i) k w = k v w.
Proof. intros Hl Hv. unfold field. by rewrite bind_assoc, (object_run _ _ _ _ Hl), Hv. Qed.

Lemma set_field_run {B} (k : unit → M world B) w p i l v :
  memory w !! p = Some l → bind (set_field p i v) k w = k tt (set_memory (<[p := <[i := v]> l]> (memory w)) w).
Proof. intros Hl. unfold set_field. by rewrite bind_assoc, (object_run _ _ _ _ Hl). Qed.

Lemma free_run w p l : memory w !! p = Some l → free p w = Ok (tt, set_memory (delete p (memory w)) w).
Proof. intros Hl. unfold free. by rewrite (object_run _ _ _ _ Hl). Qed.

(** ** Timers *)

Section timer.
Context (e p c : Z) (mem : gmap Z (list Z)).

(** The timer of a test, which is registered and has its object. *)
Record alive (ty cb runs : Z) (w : world) : Prop := {
  al_entry : ∃ x, entries w = {[p := x]} ∧ e_raw x = 0 ∧ e_type x = ty ∧ e_cb x = cb ∧ e_data x = c;
  al_registered : registered w e p;
  al_break : break_of w e = Some 0;
  al_memory : memory w = <[c := [p; e; runs]]> mem
}.

Definition gone (w : world) : Prop := entries w = ∅ ∧ memory w = mem.

Lemma alive_stable ty cb runs w w' : alive ty cb runs w → same_objects w w' → alive ty cb runs w'.
Proof.
  intros [Hx (v&reg&fd&fl&?&?&?) Hb Hm] (Hv&He&Hf&_&Hme). split; [by rewrite He| | |by rewrite Hme].
  - exists v, reg, fd, fl. by rewrite Hv, Hf.
  - unfold break_of. by rewrite Hv.
Qed.

(** Deregistering it succeeds, and makes it possible to free it. *)
Lemma alive_del ty cb runs w :
  inv_ok e w → alive ty cb runs w → p ∉ batch w → ty = EV_TIMEOUT_ONESHOT ∨ ty = EV_TIMEOUT_PERIODIC →
  ∃ w', ev_del e p w = Ok (0, w') ∧ inv_ok e w' ∧ batch w' = batch w ∧ objects w' = objects w ∧
    entries w' = entries w ∧ allowed e w' (Free p).
Proof using Type.
  intros (v&reg&I) [(x&He&Hraw&Hty&_) Hreg _ _] Hp Hcase.
  assert (Hx : entries w !! p = Some x) by (rewrite He; apply lookup_singleton_eq).
  assert (Honly : ∀ q y, entries w !! q = Some y → q = p ∧ y = x).
  { intros q y. rewrite He. by intros [<- <-]%lookup_singleton_Some. }
  apply (registered_inv _ _ _ _ _ I) in Hreg as (fd&fl&Hr).
  destruct (i_reg _ _ _ _ I _ _ _ Hr) as (y&f&Hy&Hfd&Hf&Hw). destruct (Honly _ _ Hy) as [_ ->]. subst fd.
  destruct (del_run _ _ _ _ p x I Hx) as (v'&w'&Hd&I'&Hv'&_&Hb'&He'&_&Hf'); [by eexists|].
  assert (Hne : e_fd x ≠ ev_fd v) by (intros Heq; rewrite Heq, (i_self _ _ _ _ I) in Hr; done).
  exists w'. split; [done|]. split; [by eexists _, _|]. split; [done|]. split; [by apply (keeps_ev_del e p _ _ _ Hd)|].
  split; [done|]. exists x. assert (Hnr : ∀ q, ¬ registered w' e q).
  { intros q. rewrite (registered_inv _ _ _ _ _ I'). intros (fd&fl'&[Hne' Hq]%lookup_delete_Some).
    destruct (i_reg _ _ _ _ I _ _ _ Hq) as (y'&g&Hy'&Hfd'&_). destruct (Honly _ _ Hy') as [_ ->]. congruence. }
  split_and!; [by rewrite He'|by rewrite Hb'|apply Hnr|]. intros Hre. split; [exists f; rewrite Hf' by done; auto|].
  intros q y' [Hq|Hq] Hy'; [|by destruct (Hnr q)]. rewrite He' in Hy'. destruct (Honly _ _ Hy') as [-> _].
  rewrite Hb' in Hq. done.
Qed.

(** Freeing the timer and its object. *)
Lemma free_timer runs w :
  inv_ok e w → allowed e w (Free p) → memory w = <[c := [p; e; runs]]> mem → mem !! c = None →
  ∃ w', bind (ev_entry_free p) (λ _, free c) w = Ok (tt, w') ∧ inv_ok e w' ∧ batch w' = batch w ∧
    entries w' = delete p (entries w) ∧ memory w' = mem ∧ calls w' = calls w.
Proof using Type.
  intros I Ha Hm Hc. destruct (free_ok e w p I Ha) as (w1&Hr&(v&reg&I1)&Hb1&He1&_).
  injection (keeps_entry_free p _ _ _ Hr) as Hm1 Hc1. rewrite (bind_ok _ _ _ _ _ Hr).
  rewrite (free_run _ _ [p; e; runs]) by (rewrite Hm1, Hm; apply lookup_insert_eq).
  eexists. split; [done|]. split; [by exists v, reg; apply inv_memory|]. cbn. split_and!; [done|done| |done].
  by rewrite Hm1, Hm, delete_insert_eq, delete_id.
Qed.

(** *** The callbacks keep the invariants *)

Context (cs : list (Z * list Z)) (Hc : mem !! c = None).

Definition oneshot_test (w : world) : Prop :=
  alive EV_TIMEOUT_ONESHOT CALLBACK_ONESHOT 0 w ∧ calls w = cs ∨
  gone w ∧ calls w = cs ++ [(CALLBACK_ONESHOT, [c])].

Definition periodic_calls (ms : list Z) : list (Z * list Z) := map (λ m, (CALLBACK_TIMER_PERIODIC, [m; c])) ms.
Definition periodic_test (w : world) : Prop :=
  (∃ ms, alive EV_TIMEOUT_PERIODIC CALLBACK_TIMER_PERIODIC (5 - Z.of_nat (length ms)) w ∧
     (length ms < 5)%nat ∧ calls w = cs ++ periodic_calls ms) ∨
  gone w ∧ ∃ ms, length ms = 5%nat ∧ calls w = cs ++ periodic_calls ms.

Lemma gone_stable w w' : gone w → same_objects w w' → gone w'.
Proof using Type. intros [He Hm] (_&He'&_&_&Hm'). split; congruence. Qed.

Lemma alive_entry ty cb runs w q x :
  alive ty cb runs w → entries w !! q = Some x → q = p ∧ e_raw x = 0 ∧ e_type x = ty ∧ e_cb x = cb ∧ e_data x = c.
Proof using Type.
  intros [(y&He&?) _ _ _]. rewrite He. by intros [<- <-]%lookup_singleton_Some.
Qed.

#[export] Instance oneshot_client : Client e test_callbacks oneshot_test.
Proof using Hc.
  split.
  - intros w w' [[Ha Hcs]|[Hg Hcs]] Hs; pose proof (proj1 (proj2 (proj2 (proj2 Hs)))) as Hcs'.
    + left. split; [by apply (alive_stable _ _ _ w)|congruence].
    + right. split; [by apply (gone_stable w)|congruence].
  - intros w q x pre r w0 I [[Ha Hcs]|[[He _] _]] Hx Hq Hpre Hdel I0; [|by rewrite He, lookup_empty in Hx].
    destruct (alive_entry _ _ _ _ _ _ Ha Hx) as (->&Hraw&Hty&Hcb&Hda).
    destruct (alive_del _ _ _ _ I Ha Hq (or_introl eq_refl)) as (w1&Hd&_&Hb1&[= Hm1 Hc1]&He1&Hal).
    unfold is_oneshot in Hdel. unfold arguments in Hpre. rewrite Hraw, Hty in Hdel, Hpre. cbn in Hdel, Hpre.
    rewrite Hdel in Hd. injection Hd as _ <-. subst pre. rewrite Hcb, Hda. cbn [app].
    set (w2 := set_calls _ w0). pose proof (al_memory _ _ _ _ Ha) as Hm. unfold test_callbacks.
    change (CALLBACK_ONESHOT =? CALLBACK_ONESHOT) with true. cbn match. unfold callback_oneshot.
    rewrite (field_run _ _ _ _ [p; e; 0] p); [|cbn; by rewrite Hm1, Hm, lookup_insert_eq|done].
    destruct (free_timer 0 w2) as (w3&Hr&I3&Hb3&He3&Hm3&Hc3); [by apply inv_ok_calls|exact Hal|cbn; congruence|done|].
    exists w3. split_and!; [done|done|cbn in *; congruence|right]. split; [split; [|done]|].
    + rewrite He3. cbn. destruct (al_entry _ _ _ _ Ha) as (y&Hy&_). rewrite He1, Hy. by apply delete_singleton_eq.
    + rewrite Hc3. cbn. by rewrite Hc1, Hcs.
Qed.

(** The last call of the periodic callback, with the counter at 0. *)
Lemma periodic_finish w :
  inv_ok e w → alive EV_TIMEOUT_PERIODIC CALLBACK_TIMER_PERIODIC 0 w → p ∉ batch w →
  ∃ w', bind (ev_timer_cancel e p) (λ r, if r <? 0 then fail (Exited EXIT_FAILURE "failed to cancel timer"%string)
      else bind (field c ctx_eve) (λ p, bind (ev_entry_free p) (λ _, free c))) w = Ok (tt, w') ∧
    inv_ok e w' ∧ batch w' = batch w ∧ gone w' ∧ calls w' = calls w.
Proof using Hc.
  intros I Ha Hp. destruct (alive_del _ _ _ _ I Ha Hp (or_intror eq_refl)) as (w1&Hd&I1&Hb1&[= Hm1 Hc1]&He1&Hal).
  pose proof (al_memory _ _ _ _ Ha) as Hm. unfold ev_timer_cancel. rewrite bind_assoc, (bind_ok _ _ _ _ _ Hd).
  change (negb (0 =? 0)) with false. cbn match. rewrite (bind_ok _ _ _ _ _ (ret_run _ _)).
  change (0 <? 0) with false. cbn match.
  rewrite (field_run _ _ _ _ [p; e; 0] p); [|by rewrite Hm1, Hm, lookup_insert_eq|done].
  destruct (free_timer 0 w1) as (w3&Hr&I3&Hb3&He3&Hm3&Hc3); [done|done|congruence|done|].
  exists w3. split_and!; [done|done|congruence| |congruence]. split; [|done].
  rewrite He3, He1. destruct (al_entry _ _ _ _ Ha) as (y&Hy&_). rewrite Hy. by apply delete_singleton_eq.
Qed.

#[export] Instance periodic_client : Client e test_callbacks periodic_test.
Proof using Hc.
  split.
  - intros w w' [(ms&Ha&Hlt&Hcs)|[Hg (ms&Hlen&Hcs)]] Hs; pose proof (proj1 (proj2 (proj2 (proj2 Hs)))) as Hcs'.
    + left. exists ms. split_and!; [by apply (alive_stable _ _ _ w)|done|congruence].
    + right. split; [by apply (gone_stable w)|exists ms; split; [done|congruence]].
  - intros w q x pre r w0 I [(ms&Ha&Hlt&Hcs)|[[He _] _]] Hx Hq Hpre Hdel I0; [|by rewrite He, lookup_empty in Hx].
    destruct (alive_entry _ _ _ _ _ _ Ha Hx) as (->&Hraw&Hty&Hcb&Hda).
    unfold is_oneshot in Hdel. unfold arguments in Hpre. rewrite Hraw, Hty in Hdel, Hpre. cbn in Hdel, Hpre.
    subst w0. destruct Hpre as [missed ->]. rewrite Hcb, Hda. cbn [app].
    set (w2 := set_calls _ w). pose proof (al_memory _ _ _ _ Ha) as Hm. set (n := 5 - Z.of_nat (length ms)) in *.
    assert (Hn : 0 < n ≤ 5) by lia. unfold test_callbacks.
    change (CALLBACK_TIMER_PERIODIC =? CALLBACK_TIMER_PERIODIC) with true. cbn match. unfold callback_timer_periodic.
    rewrite (field_run _ _ _ _ [p; e; n] n); [|cbn; by rewrite Hm, lookup_insert_eq|done].
    rewrite (set_field_run _ _ _ _ [p; e; n]) by (cbn; by rewrite Hm, lookup_insert_eq).
    rewrite wrapu_small by lia. set (w3 := set_memory _ w2).
    assert (Hm3 : memory w3 = <[c := [p; e; n - 1]]> mem) by (cbn; by rewrite Hm, insert_insert_eq).
    assert (Ha3 : alive EV_TIMEOUT_PERIODIC CALLBACK_TIMER_PERIODIC (n - 1) w3) by (by destruct Ha; split).
    assert (I3 : inv_ok e w3) by (destruct I as (v&reg&I); exists v, reg; by apply inv_memory, inv_calls).
    rewrite (field_run _ _ _ _ [p; e; n - 1] (n - 1)); [|by rewrite Hm3, lookup_insert_eq|done].
    assert (Hcalls : calls w3 = cs ++ periodic_calls (ms ++ [missed])).
    { cbn. unfold periodic_calls. by rewrite Hcs, map_app, app_assoc. }
    assert (Hlen : length (ms ++ [missed]) = S (length ms)) by (rewrite length_app; cbn; lia).
    destruct (Z.eqb_spec (n - 1) 0) as [H0|H0].
    + rewrite (field_run _ _ _ _ [p; e; n - 1] e); [|by rewrite Hm3, lookup_insert_eq|done].
      rewrite (field_run _ _ _ _ [p; e; n - 1] p); [|by rewrite Hm3, lookup_insert_eq|done].
      rewrite H0 in Ha3. destruct (periodic_finish w3 I3 Ha3 Hq) as (w4&Hr&I4&Hb4&Hg&Hc4).
      exists w4. split_and!; [done|done|done|right]. split; [done|]. exists (ms ++ [missed]). split; [lia|congruence].
    + exists w3. split_and!; [done|done|done|left]. exists (ms ++ [missed]).
      replace (5 - Z.of_nat (length (ms ++ [missed]))) with (n - 1) by lia. split_and!; [done|lia|done].
Qed.

(** The loop does not end with 0 before the timer is gone. *)
Lemma alive_loops ty cb runs w :
  alive ty cb runs w → ¬ ((∀ q, ¬ registered w e q) ∨ ∃ v, evs w !! e = Some v ∧ break_loop v ≠ 0).
Proof using Type.
  intros Ha [Hn|(v&Hv&Hb)]; [by destruct (Hn p), Ha|]. pose proof (al_break _ _ _ _ Ha) as Hb'.
  unfold break_of in Hb'. rewrite Hv in Hb'. cbn in Hb'. congruence.
Qed.
End timer.

(** ** The tests *)

Definition fds_ok (w : world) : Prop := ∀ fd, is_Some (files w !! fd) → 0 ≤ fd < 2 ^ 31.

Lemma ev_destroy_ok e v w :
  evs w !! e = Some v → fds_ok w →
  ∃ w', ev_destroy e w = Ok (tt, w') ∧ entries w' = entries w ∧ objects w' = objects w ∧ batch w' = batch w ∧ fds_ok w'.
Proof.
  intros Hv Hf. unfold ev_destroy. rewrite (get_ev_run _ _ _ _ Hv). unfold close.
  rewrite (bind_ok _ _ _ _ _ (modify_run _ _)). eexists. split; [done|]. split_and!; [done..|].
  intros fd. cbn. rewrite lookup_fmap, fmap_is_Some, lookup_delete_is_Some. intros [_ ?]. by apply Hf.
Qed.

(** The end of a test, with the state [w1] in which the loop has returned. *)
Definition ended (e : Z) (J : world → Prop) (w' : world) : Prop :=
  ∃ w1, J w1 ∧ ((∀ q, ¬ registered w1 e q) ∨ ∃ v, evs w1 !! e = Some v ∧ break_loop v ≠ 0) ∧
    entries w' = entries w1 ∧ objects w' = objects w1 ∧ batch w' = [] ∧ fds_ok w'.

Lemma loop_and_destroy e J rounds w :
  Client e test_callbacks J → inv_ok e w → J w → batch w = [] → None ∉ rounds →
  match bind (ev_loop test_callbacks e rounds) (λ _, ev_destroy e) w with
  | Ok (_, w') => ended e J w'
  | Err f => f = Blocked
  end.
Proof.
  intros C I Hj Hb Hn. pose proof (loop_client e test_callbacks J w rounds I Hj Hb) as Hl.
  unfold bind. destruct (ev_loop test_callbacks e rounds w) as [[r w1]|]; [|done].
  destruct Hl as (I1&Hb1&J1&[[_ Hend]|[_ ?]]); [|done].
  pose proof I1 as (v&reg&Iv). destruct (ev_destroy_ok e v w1 (i_ev _ _ _ _ Iv) (i_fds _ _ _ _ Iv)) as (w2&->&?&?&?&?). exists w1. split_and!; try done. congruence.
Qed.

(** The exits of a test that could not create its objects. *)
Definition refusal (f : fault) : Prop := f = Aborted ∨ f = entry_not_created ∨ f = entry_not_added ∨ f = no_pipe.

(** A test, as a function of what its loop waits for, exits before its loop: with
    the same fault, whatever the events are. *)
Definition refused (test : list (option (list (Z * list Z))) → M world unit) (w : world) (f : fault) : Prop :=
  refusal f ∧ ∀ rounds, test rounds w = Err f.

Definition outcome (rounds : list (option (list (Z * list Z)))) (test : list (option (list (Z * list Z))) → M world unit)
    (w : world) (P : world → Prop) : Prop :=
  match test rounds w with
  | Ok (_, w') => P w'
  | Err f => f = Blocked ∨ refused test w f
  end.

(** What a test does before its loop depends on no event. *)
Lemma outcome_step rounds test test' w w' P :
  (∀ rs, test rs w = test' rs w') → outcome rounds test' w' P → outcome rounds test w P.
Proof.
  intros Heq. unfold outcome. rewrite Heq. destruct (test' rounds w') as [[u w2]|f]; [done|].
  intros [->|[Hf Hr]]; [by left|right]. split; [done|]. intros rs. by rewrite Heq.
Qed.

Lemma outcome_refused rounds test w f P : refusal f → (∀ rs, test rs w = Err f) → outcome rounds test w P.
Proof. intros Hf Hr. unfold outcome. rewrite Hr. by right. Qed.

Lemma outcome_mono rounds test w (P Q : world → Prop) : (∀ w', P w' → Q w') → outcome rounds test w P → outcome rounds test w Q.
Proof. intros H. unfold outcome. destruct (test rounds w) as [[u w']|]; auto. Qed.

Section setup.
Context (e c : Z) (mem : gmap Z (list Z)) (cs : list (Z * list Z)) (ty cb runs : Z) (ts : Z * Z).
Context (J : Z → world → Prop) (C : ∀ p, Client e test_callbacks (J p)).
Context (Hinit : ∀ p w, alive e p c mem ty cb runs w → calls w = cs → J p w).
Context (rounds : list (option (list (Z * list Z)))) (Hrounds : None ∉ rounds).

(** The common part of the timer tests, from the creation of the entry on. *)
Definition rest (rounds : list (option (list (Z * list Z)))) : M world unit :=
  bind (bind ev_entry_new_epoll_internal (λ p, if p =? 0 then ret 0
      else set_entry p (mk_entry 0 ty 0 ts cb c (mk_data 0 0)) ;; ret p))
    (λ eve, if eve =? 0 then fail entry_not_created
      else set_field c ctx_eve eve ;;
        bind (ev_add e eve) (λ r, if negb (r =? 0) then fail entry_not_added
          else ev_loop test_callbacks e rounds ;; ev_destroy e)).

Lemma timer_rest w :
  inv_ok e w → batch w = [] → entries w = ∅ → break_of w e = Some 0 →
  memory w = <[c := [0; e; runs]]> mem → calls w = cs →
  outcome rounds rest w (λ w', ∃ p, ended e (J p) w').
Proof using All.
  intros I Hb He Hbr Hm Hcs. set (x := mk_entry 0 ty 0 ts cb c (mk_data 0 0)).
  destruct (new_ok e w x I) as (p&w1&Hr&I1&Hb1&Hv1&Hcase).
  injection (keeps_entry_with x _ _ _ Hr) as Hm1 Hc1. destruct Hcase as [[-> _]|(Hp&_&He1&Hnr)].
  { apply (outcome_refused _ _ _ entry_not_created); [by right; left|]. intros rs. unfold rest. by rewrite (bind_ok _ _ _ _ _ Hr). }
  assert (Hx1 : memory w1 !! c = Some [0; e; runs]) by (rewrite Hm1, Hm; apply lookup_insert_eq).
  set (w2 := set_memory (<[c := [p; e; runs]]> (memory w1)) w1).
  assert (He2 : entries w2 = {[p := x]}) by (cbn; by rewrite He1, He).
  assert (Hx2 : entries w2 !! p = Some x) by (rewrite He2; apply lookup_singleton_eq).
  assert (I2 : inv_ok e w2) by (destruct I1 as (v&reg&I1); exists v, reg; by apply inv_memory).
  assert (Hb2 : batch w2 = []) by (by rewrite <- Hb, <- Hb1).
  destruct (add_ok e w2 p x I2) as (r&w3&Hr3&I3&Hb3&Hbr3&Hcase&y&He3&Hy); [|done|].
  { split_and!; [by exists x|rewrite Hb2; apply not_elem_of_nil|exact Hnr]. }
  injection (keeps_ev_add e p _ _ _ Hr3) as Hm3 Hc3.
  apply (outcome_step _ _ (λ rs, if negb (r =? 0) then fail entry_not_added
    else ev_loop test_callbacks e rs ;; ev_destroy e) _ w3).
  { intros rs. unfold rest. rewrite (bind_ok _ _ _ _ _ Hr), (proj2 (Z.eqb_neq p 0)) by done.
    by rewrite (set_field_run _ _ _ _ _ _ Hx1), (bind_ok _ _ _ _ _ Hr3). }
  destruct Hcase as [[-> Hreg]| ->]; [|by apply (outcome_refused _ _ _ entry_not_added); [right; right; left|]].
  change (negb (0 =? 0)) with false. cbn match.
  assert (J3 : J p w3).
  { apply Hinit; [split; [|done| |]|rewrite Hc3; cbn; congruence].
    - exists y. rewrite He3, He2, insert_singleton_eq. split; [done|]. by destruct Hy as [->|[fd ->]].
    - rewrite Hbr3, <- Hbr. unfold break_of. cbn. by rewrite Hv1.
    - rewrite Hm3. cbn. by rewrite Hm1, Hm, insert_insert_eq. }
  pose proof (loop_and_destroy e (J p) rounds w3 (C p) I3 J3 ltac:(congruence) Hrounds) as Hl.
  unfold outcome. destruct (bind _ _ w3) as [[u w4]|]; [|by left]. by exists p.
Qed.
End setup.

Lemma ctx_timer_new_ok w :
  ctx_timer_new w = Err Aborted ∨
  ∃ c l, ctx_timer_new w = Ok (c, set_memory (<[c := [0; 0; 0]]> (memory w)) (set_answers l w)) ∧ memory w !! c = None.
Proof.
  unfold ctx_timer_new. destruct (malloc_ok w) as (c&l&Hr&[->|(Hc&_&_&Hm)]); rewrite (bind_ok _ _ _ _ _ Hr); [by left|right].
  rewrite (proj2 (Z.eqb_neq c 0)) by lia. by exists c, l.
Qed.

(** A test that is over: it has freed everything, and the callbacks it should have
    called are the new ones; [skipped] is when there is no event object. *)
Definition passed (w w' : world) (called : list (Z * list Z) → Prop) : Prop :=
  fds_ok w' ∧ batch w' = [] ∧ entries w' = ∅ ∧ memory w' = memory w ∧
  ∃ cs, calls w' = calls w ++ cs ∧ (called cs ∨ cs = [] ∧ ∃ s, ev_new 0 w = Ok (0, s)).

Definition called_once (cs : list (Z * list Z)) : Prop := ∃ c, cs = [(CALLBACK_ONESHOT, [c])].
Definition called_five_times (cs : list (Z * list Z)) : Prop := ∃ c ms, length ms = 5%nat ∧ cs = periodic_calls c ms.

Section timer_tests.
Context (rounds : list (option (list (Z * list Z)))) (Hrounds : None ∉ rounds).

(** The beginning of a timer test. *)
Lemma test_prefix (k : Z → list (option (list (Z * list Z))) → M world unit) w called :
  fds_ok w → batch w = [] → entries w = ∅ →
  (∀ e w', inv_ok e w' → batch w' = [] → entries w' = ∅ → break_of w' e = Some 0 → objects w' = objects w →
    outcome rounds (k e) w' (λ w'', passed w w'' called)) →
  outcome rounds (λ rs, bind (ev_new 0) (λ e, if e =? 0 then ret tt else k e rs)) w (λ w', passed w w' called).
Proof using Type.
  intros Hfds Hb He Hk. destruct (ev_new_ok 0 w Hfds Hb) as (e&w1&Hr&He1&Hb1&Hcase).
  pose proof (keeps_ev_new 0 _ _ _ Hr) as Ho.
  apply (outcome_step _ _ (λ rs, if e =? 0 then ret tt else k e rs) _ w1); [intros rs; by rewrite (bind_ok _ _ _ _ _ Hr)|].
  destruct Hcase as [[-> Hf]|(Hne&I&Hbr)].
  - injection Ho as Hm Hc. cbn. split_and!; [unfold fds_ok; by rewrite Hf|done|congruence|done|].
    exists []. rewrite app_nil_r. split; [done|right]. split; [done|by exists w1].
  - rewrite (proj2 (Z.eqb_neq e 0)) by done. apply Hk; [done..|congruence|done|done].
Qed.

Lemma ended_passed e (J : world → Prop) w w' called :
  ended e J w' →
  (∀ w1, J w1 → ((∀ q, ¬ registered w1 e q) ∨ ∃ v, evs w1 !! e = Some v ∧ break_loop v ≠ 0) →
    gone (memory w) w1 ∧ ∃ cs, calls w1 = calls w ++ cs ∧ called cs) →
  passed w w' called.
Proof using Type.
  intros (w1&Hj&Hend&He&Ho&Hb&Hf) Hpost. injection Ho as Hm Hc. destruct (Hpost w1 Hj Hend) as [[He1 Hm1] (cs&Hc1&Hcs)].
  split_and!; [done|done|congruence|congruence|]. exists cs. split; [congruence|by left].
Qed.

Lemma oneshot_test_ok w :
  fds_ok w → batch w = [] → entries w = ∅ →
  outcome rounds test_timer_oneshot w (λ w', passed w w' called_once).
Proof using Hrounds.
  intros Hfds Hb He. refine (test_prefix (λ e rs,
    ctxo ← ctx_timer_new;
    set_field ctxo ctx_ev e ;;
    rest e ctxo EV_TIMEOUT_ONESHOT CALLBACK_ONESHOT (1, 0) rs) _ _ Hfds Hb He _).
  clear Hb He Hfds. intros e w1 I Hb He Hbr [= Hm Hcs]. destruct (ctx_timer_new_ok w1) as [Hr|(c&l&Hr&Hc)].
  { apply (outcome_refused _ _ _ Aborted); [by left|]. intros rs. by rewrite (bind_err _ _ _ _ Hr). }
  rewrite Hm in Hc. set (w2 := set_memory (<[c := [0; e; 0]]> (memory w)) (set_answers l w1)).
  apply (outcome_step _ _ (rest e c EV_TIMEOUT_ONESHOT CALLBACK_ONESHOT (1, 0)) _ w2).
  { intros rs. rewrite (bind_ok _ _ _ _ _ Hr), (set_field_run _ _ _ _ [0; 0; 0]) by (cbn; apply lookup_insert_eq).
    f_equal. unfold w2. rewrite Hm. cbn. by rewrite !insert_insert_eq. }
  apply (outcome_mono _ _ _ (λ w', ∃ p, ended e (oneshot_test e p c (memory w) (calls w)) w')).
  { intros w' [p Hend]. apply (ended_passed e (oneshot_test e p c (memory w) (calls w))); [done|].
    intros w4 [[Ha _]|[Hg Hc4]] Hl; [by destruct (alive_loops _ _ _ _ _ _ _ _ Ha)|].
    split; [done|]. eexists. split; [done|]. by eexists.
  }
  apply (timer_rest e c (memory w) (calls w) EV_TIMEOUT_ONESHOT CALLBACK_ONESHOT 0 (1, 0)
    (λ p, oneshot_test e p c (memory w) (calls w))); [intros p; by apply oneshot_client| |done| |done..].
  - intros. by left.
  - destruct I as (v&reg&I). exists v, reg. by apply inv_memory, inv_answers.
Qed.

Lemma periodic_test_ok w :
  fds_ok w → batch w = [] → entries w = ∅ →
  outcome rounds test_timer_periodic w (λ w', passed w w' called_five_times).
Proof using Hrounds.
  intros Hfds Hb He. refine (test_prefix (λ e rs,
    ctxo ← ctx_timer_new;
    set_field ctxo ctx_ev e ;;
    set_field ctxo ctx_periodic_runs 5 ;;
    rest e ctxo EV_TIMEOUT_PERIODIC CALLBACK_TIMER_PERIODIC (1, 0) rs) _ _ Hfds Hb He _).
  clear Hb He Hfds. intros e w1 I Hb He Hbr [= Hm Hcs]. destruct (ctx_timer_new_ok w1) as [Hr|(c&l&Hr&Hc)].
  { apply (outcome_refused _ _ _ Aborted); [by left|]. intros rs. by rewrite (bind_err _ _ _ _ Hr). }
  rewrite Hm in Hc. set (w2 := set_memory (<[c := [0; e; 5]]> (memory w)) (set_answers l w1)).
  apply (outcome_step _ _ (rest e c EV_TIMEOUT_PERIODIC CALLBACK_TIMER_PERIODIC (1, 0)) _ w2).
  { intros rs. rewrite (bind_ok _ _ _ _ _ Hr), (set_field_run _ _ _ _ [0; 0; 0]) by (cbn; apply lookup_insert_eq).
    rewrite (set_field_run _ _ _ _ [0; e; 0]) by (cbn; apply lookup_insert_eq).
    f_equal. unfold w2. rewrite Hm. cbn. by rewrite !insert_insert_eq. }
  apply (outcome_mono _ _ _ (λ w', ∃ p, ended e (periodic_test e p c (memory w) (calls w)) w')).
  { intros w' [p Hend]. apply (ended_passed e (periodic_test e p c (memory w) (calls w))); [done|].
    intros w4 [(ms&Ha&_)|[Hg (ms&Hlen&Hc4)]] Hl; [by destruct (alive_loops _ _ _ _ _ _ _ _ Ha)|].
    split; [done|]. eexists. split; [done|]. by exists c, ms.
  }
  apply (timer_rest e c (memory w) (calls w) EV_TIMEOUT_PERIODIC CALLBACK_TIMER_PERIODIC 5 (1, 0)
    (λ p, periodic_test e p c (memory w) (calls w))); [intros p; by apply periodic_client| |done| |done..].
  - intros p w3 Ha ?. left. exists []. cbn. rewrite app_nil_r. split_and!; [done|lia|done].
  - destruct I as (v&reg&I). exists v, reg. by apply inv_memory, inv_answers.
Qed.

End timer_tests.

(** *** Raw events *)

Section raw.
Context (e p : Z) (x : ev_entry) (cs : list (Z * list Z)) (mem : gmap Z (list Z)).
Context (Hraw : e_raw x = 1) (Hty : e_type x = raw_events) (Hcb : e_cb x = FD_CB_RAW) (Hda : e_data x = e).

Definition raw_calls (n : nat) : list (Z * list Z) := replicate n (FD_CB_RAW, [e_fd x; raw_events; e]).

Definition raw_test (w : world) : Prop :=
  entries w = {[p := x]} ∧ registered w e p ∧ memory w = mem ∧
  (break_of w e = Some 0 ∨ ∃ n, calls w = cs ++ raw_calls (S n)) ∧
  ∃ n, calls w = cs ++ raw_calls n.

#[export] Instance raw_client : Client e test_callbacks raw_test.
Proof using All.
  split.
  - intros w w' (He&(v&reg&fd&fl&Hr)&Hm&Hb&Hn) (Hv&He'&Hf&Hc&Hm'). unfold raw_test, break_of, registered.
    rewrite Hv, He', Hf, Hc, Hm'. split_and!; [done|by exists v, reg, fd, fl|done|done|done].
  - intros w q y pre r w0 I (He&Hr&Hm&_&n&Hc) Hx Hq Hpre Hdel I0.
    rewrite He in Hx. apply lookup_singleton_Some in Hx as [<- <-].
    unfold is_oneshot in Hdel. unfold arguments in Hpre. rewrite Hraw in Hdel, Hpre. cbn in Hdel, Hpre. subst w0 pre.
    rewrite Hcb, Hda, Hty. cbn [app]. set (w1 := set_calls _ w). unfold test_callbacks.
    change (FD_CB_RAW =? FD_CB_RAW) with true. cbn match. unfold fd_cb_raw. rewrite Z.eqb_refl.
    rewrite (bind_ok _ _ _ _ _ (massert_true _)).
    destruct (run_out_ok e w1) as (w2&Hrun&I2&Hb2&He2&Hbr2&Hr2); [by apply inv_ok_calls|].
    assert (Hk : keeps objects (ev_run_out e)).
    { unfold ev_run_out. apply keeps_seq; [apply keeps_get_ev|]. intros.
      apply keeps_seq; [apply keeps_set_ev|]. intros. apply keeps_ret. }
    injection (Hk _ _ _ Hrun) as Hm2 Hc2. rewrite (bind_ok _ _ _ _ _ Hrun). exists w2.
    assert (Hc3 : calls w2 = cs ++ raw_calls (S n)).
    { rewrite Hc2. cbn [calls w1 set_calls]. rewrite Hc, <- app_assoc. f_equal. unfold raw_calls.
      by rewrite replicate_S_end. }
    split_and!; [done|done|done|]. split_and!; [by rewrite He2|by apply Hr2|by rewrite Hm2|right; by exists n|by eexists].
Qed.
End raw.

Lemma ev_entry_free_raw w p x :
  entries w !! p = Some x → e_raw x = 1 → ev_entry_free p w = Ok (tt, set_entries (delete p (entries w)) w).
Proof. intros Hx Hr. unfold ev_entry_free. by rewrite (get_entry_run _ _ _ _ Hx), Hr. Qed.

Lemma new_fd_frame f w :
  fds_ok w → ∃ fd w', new_fd f w = Ok (fd, w') ∧ fds_ok w' ∧ batch w' = batch w ∧ entries w' = entries w.
Proof.
  intros Hf. destruct (new_fd_ok f w) as (fd&l&[Hn|(Hfd&_&Hn)]); eexists _, _; (split; [exact Hn|]); [done|].
  split_and!; [|done|done]. intros fd'. cbn. rewrite lookup_insert_is_Some. intros [<-|[_ ?]]; [done|by apply Hf].
Qed.

Lemma pipe_ok w :
  fds_ok w → ∃ r w', pipe w = Ok (r, w') ∧ fds_ok w' ∧ batch w' = batch w ∧ entries w' = entries w ∧ objects w' = objects w.
Proof.
  intros Hf. pose proof keeps_pipe as Hk.
  enough (∃ r w', pipe w = Ok (r, w') ∧ fds_ok w' ∧ batch w' = batch w ∧ entries w' = entries w) as (r&w'&Hr&?&?&?).
  { exists r, w'. split_and!; try done. apply (Hk _ _ _ Hr). }
  unfold pipe. destruct (new_fd_frame OtherFd w Hf) as (rd&w1&Hr1&Hf1&Hb1&He1). rewrite (bind_ok _ _ _ _ _ Hr1).
  destruct (rd <? 0); [by eexists _, _|].
  destruct (new_fd_frame OtherFd w1 Hf1) as (wr&w2&Hr2&Hf2&Hb2&He2). rewrite (bind_ok _ _ _ _ _ Hr2).
  destruct (wr <? 0); [|eexists _, _; split_and!; [done|done|congruence|congruence]].
  eexists _, _. split; [done|]. split_and!; [|cbn; congruence|cbn; congruence].
  intros fd. cbn. rewrite lookup_fmap, fmap_is_Some, lookup_delete_is_Some. intros [_ ?]. by apply Hf2.
Qed.


(** (the test of raw events passes) when [epoll_wait] does not fail, the test
    of raw events waits, exits before its loop because something could not be
    created, or ends: then its callback has been called, with the events of the
    entry, and stopped the loop by [ev_run_out], and the entry, which was still
    registered, has been freed without the loop using it again. *)
Theorem raw_events_pass rounds w :
  None ∉ rounds → fds_ok w → batch w = [] → entries w = ∅ →
  match test_events_raw rounds w with
  | Ok (_, w') => fds_ok w' ∧ batch w' = [] ∧ entries w' = ∅ ∧ memory w' = memory w ∧
      ∃ fd e n, calls w' = calls w ++ replicate n (FD_CB_RAW, [fd; raw_events; e]) ∧
        (n = 0%nat → ∃ rw s s', pipe w = Ok (Some rw, s) ∧ ev_new 0 s = Ok (0, s'))
  | Err f => f = Blocked ∨ refused test_events_raw w f
  end.
Proof.
  intros Hn Hf Hb He. change (outcome rounds test_events_raw w (λ w',
    fds_ok w' ∧ batch w' = [] ∧ entries w' = ∅ ∧ memory w' = memory w ∧
      ∃ fd e n, calls w' = calls w ++ replicate n (FD_CB_RAW, [fd; raw_events; e]) ∧
        (n = 0%nat → ∃ rw s s', pipe w = Ok (Some rw, s) ∧ ev_new 0 s = Ok (0, s')))).
  destruct (pipe_ok w Hf) as (r&w1&Hr&Hf1&Hb1&He1&Ho1). destruct r as [[rd wr]|].
  2: { apply (outcome_refused _ _ _ no_pipe); [by do 3 right|]. intros rs. unfold test_events_raw. by rewrite (bind_ok _ _ _ _ _ Hr). }
  destruct (ev_new_ok 0 w1 Hf1 ltac:(congruence)) as (e&w2&Hr2&He2&Hb2&Hcase).
  pose proof (keeps_ev_new 0 _ _ _ Hr2) as Ho2. rewrite Ho1 in Ho2.
  destruct Hcase as [[-> Hf2]|(Hne&I2&Hbr2)].
  { injection Ho2 as Hm Hc. apply (outcome_step _ _ (λ _, ret tt) _ w2).
    { intros rs. unfold test_events_raw. by rewrite (bind_ok _ _ _ _ _ Hr), (bind_ok _ _ _ _ _ Hr2). }
    cbn. split_and!; [unfold fds_ok; by rewrite Hf2|done|congruence|done|].
    exists 0, 0, 0%nat. cbn. rewrite app_nil_r. split; [done|]. intros _. by eexists (rd, wr), w1, w2. }
  set (x := mk_entry rd raw_events 1 (0, 0) FD_CB_RAW e (mk_data raw_events 0)).
  destruct (new_ok e w2 x I2) as (p&w3&Hr3&I3&Hb3&Hv3&Hcase).
  pose proof (keeps_entry_with x _ _ _ Hr3) as Ho3.
  apply (outcome_step _ _ (λ rs, if p =? 0 then fail entry_not_created
    else r ← ev_add e p; if negb (r =? 0) then fail entry_not_added
      else ev_loop test_callbacks e rs ;; ev_entry_free p ;; ev_destroy e) _ w3).
  { intros rs. unfold test_events_raw. rewrite (bind_ok _ _ _ _ _ Hr), (bind_ok _ _ _ _ _ Hr2), (proj2 (Z.eqb_neq e 0)) by done.
    unfold ev_entry_new_raw. fold x. by rewrite (bind_ok _ _ _ _ _ Hr3). }
  destruct Hcase as [[-> _]|(Hp&_&He3&Hnr)]; [by apply (outcome_refused _ _ _ entry_not_created); [right; left|]|].
  rewrite (proj2 (Z.eqb_neq p 0)) by done. assert (He3' : entries w3 = {[p := x]}) by (by rewrite He3, He2, He1, He).
  destruct (add_ok e w3 p x I3) as (r&w4&Hr4&I4&Hb4&Hbr4&Hcase&y&He4&Hy).
  { split_and!; [exists x; by rewrite He3', lookup_singleton_eq|rewrite Hb3, Hb2; apply not_elem_of_nil|done]. }
  { by rewrite He3', lookup_singleton_eq. }
  pose proof (keeps_ev_add e p _ _ _ Hr4) as Ho4. rewrite Ho3, Ho2 in Ho4. injection Ho4 as Hm4 Hc4.
  apply (outcome_step _ _ (λ rs, if negb (r =? 0) then fail entry_not_added
      else ev_loop test_callbacks e rs ;; ev_entry_free p ;; ev_destroy e) _ w4); [intros rs; by rewrite (bind_ok _ _ _ _ _ Hr4)|].
  destruct Hcase as [[-> Hreg]| ->]; [|by apply (outcome_refused _ _ _ entry_not_added); [right; right; left|]].
  change (negb (0 =? 0)) with false. cbn match. unfold outcome.
  assert (Hy' : e_raw y = 1 ∧ e_type y = raw_events ∧ e_cb y = FD_CB_RAW ∧ e_data y = e) by (by destruct Hy as [->|[fd ->]]).
  destruct Hy' as (Hraw&Hty&Hcb&Hda). rewrite He3', insert_singleton_eq in He4.
  assert (Hj : raw_test e p y (calls w) (memory w) w4).
  { split_and!; [done|done|done| |exists 0%nat; cbn; by rewrite app_nil_r]. left. rewrite Hbr4, <- Hbr2. unfold break_of. by rewrite Hv3. }
  pose proof (raw_client e p y (calls w) (memory w) Hraw Hty Hcb Hda) as C.
  pose proof (loop_client e test_callbacks _ w4 rounds I4 Hj ltac:(congruence)) as Hl.
  unfold bind at 1. destruct (ev_loop test_callbacks e rounds w4) as [[r w5]|]; [|by left].
  destruct Hl as ((v&reg&I5)&Hb5&(He5&Hreg5&Hm5&Hor&_)&[[_ Hend]|[_ ?]]); [|done].
  assert (Hn5 : ∃ n, calls w5 = calls w ++ raw_calls e y (S n)).
  { destruct Hor as [Hbr|]; [|done]. destruct Hend as [Hno|(v'&Hv'&Hbr')]; [by destruct (Hno p)|].
    unfold break_of in Hbr. rewrite Hv' in Hbr. cbn in Hbr. congruence. }
  destruct Hn5 as [n Hc5].
  rewrite (bind_ok _ _ _ _ _ (ev_entry_free_raw w5 p y ltac:(by rewrite He5, lookup_singleton_eq) Hraw)).
  destruct (ev_destroy_ok e v (set_entries (delete p (entries w5)) w5)) as (w6&->&He6&Ho6&Hb6&Hf6);
    [apply (i_ev _ _ _ _ I5)|exact (i_fds _ _ _ _ I5)|].
  injection Ho6 as Hm6 Hc6. split_and!; [done|by rewrite Hb6| |by rewrite Hm6|].
  - rewrite He6. cbn. rewrite He5. by apply delete_singleton_eq.
  - exists (e_fd y), e, (S n). split; [by rewrite Hc6|done].
Qed.

(** ** A run of the tests *)

(** A process with the answers of the kernel for the tests: an event object, the
    object of the test, an entry with its [priv_data], and the calls of [ev_add]. *)
Definition test_process (l : list Z) : world := set_memory {[i_var := [0]]} (process l).
Definition oneshot_answers : list Z := [100; 3; 400; 200; 1; 0; 4; 0; 0; 0; 0].
Definition periodic_answers : list Z := [100; 3; 400; 200; 1; 4; 0; 0; 0; 0].
Definition cancel_answers : list Z := [100; 3; 200; 1; 0; 4; 0; 0; 0; 0; 400; 300; 1; 0; 5; 0; 0; 0; 0].
Definition raw_answers : list Z := [6; 7; 101; 8; 201; 1; 0].
Definition five_times : list (option (list (Z * list Z))) := replicate 5 (Some [(4, [1])]).

(** (what the tests leave) when every timer expires by itself, [main] calls
    all callbacks and returns 0; the entry of the cancelling timer has not been
    freed, so that its descriptor is open, and so are both ends of the pipe. *)
Theorem main_leaves :
  match main [Some [(4, [1])]] five_times [Some [(5, [1])]] [Some [(6, [1])]]
          (test_process (oneshot_answers ++ periodic_answers ++ cancel_answers ++ raw_answers)) with
  | Ok (r, w) => r = 0 ∧ evs w = ∅ ∧ map fst (map_to_list (entries w)) = [300] ∧ memory w = {[i_var := [0]]} ∧
      map fst (calls w) = [CALLBACK_ONESHOT] ++ replicate 5 CALLBACK_TIMER_PERIODIC ++ [CANCEL_TIMER_CB; FD_CB_RAW] ∧
      (∃ x, entries w !! 300 = Some x ∧ e_cb x = CANCEL_TIMER_CB ∧ is_Some (files w !! e_fd x)) ∧
      is_Some (files w !! 6) ∧ is_Some (files w !! 7)
  | Err _ => False
  end.
Proof. vm_compute. split_and!; try done; [eexists; split_and!; [done|done|]|..]; by eexists. Qed.

(** (what the API does not catch) freeing a timer that has not been added
    closes descriptor 0, because its descriptor is still the 0 of the memset; and
    in the cancellation test, when both timers have expired when the loop looks,
    the loop goes on to the event of the entry that the cancelling callback has
    freed and reads freed memory, or, in the other order, cancelling fails. *)
Theorem ev_unsafe_uses ts cb data w p w1 :
  ev_timer_oneshot_new ts cb data w = Ok (p, w1) → p ≠ 0 →
  (∃ w2, ev_entry_free p w1 = Ok (tt, w2) ∧ files w2 !! 0 = None) ∧
  test_timer [Some [(5, [1]); (4, [1])]] (test_process cancel_answers) = Err Undefined ∧
  test_timer [Some [(4, [1]); (5, [1])]] (test_process (cancel_answers ++ [500; 1; 0; 6; 0; 0; 0; 0])) = Err (Exited EXIT_FAILURE "failed to cancel timer"%string).
Proof.
  intros Hrun Hp. split; [|by vm_compute]. unfold ev_timer_oneshot_new in Hrun. run_inv Hrun.
  destruct (Z.eqb_spec a 0) as [->|Hne]; [injection Hrun; congruence|]. run_inv Hrun.
  injection Ha0 as _ <-. injection Hrun as -> <-. unfold ev_entry_free.
  rewrite (get_entry_run _ _ _ (mk_entry 0 EV_TIMEOUT_ONESHOT 0 ts cb data (mk_data 0 0))) by (cbn; by rewrite lookup_insert_eq).
  eexists. split; [reflexivity|]. cbn. rewrite lookup_fmap. by rewrite lookup_delete_eq.
Qed.

(** ** Witnesses *)

Lemma test_process_fds l : fds_ok (test_process l).
Proof.
  assert (map_Forall (λ fd _, 0 ≤ fd < 2 ^ 31) (files (test_process l))) as H.
  { apply (bool_decide_unpack _). by vm_compute. }
  intros fd [f Hf]. by apply (H fd f).
Qed.


Lemma raw_events_pass_witness :
  match test_events_raw [Some [(6, [1])]] (test_process raw_answers) with
  | Ok (_, w') => fds_ok w' ∧ batch w' = [] ∧ entries w' = ∅ ∧ memory w' = memory (test_process raw_answers) ∧
      ∃ fd e n, calls w' = calls (test_process raw_answers) ++ replicate n (FD_CB_RAW, [fd; raw_events; e]) ∧
        (n = 0%nat → ∃ rw s s', pipe (test_process raw_answers) = Ok (Some rw, s) ∧ ev_new 0 s = Ok (0, s'))
  | Err f => f = Blocked ∨ refused test_events_raw (test_process raw_answers) f
  end.
Proof.
  apply (raw_events_pass [Some [(6, [1])]] (test_process raw_answers)).
  - apply (bool_decide_unpack _). by vm_compute.
  - apply test_process_fds.
  - reflexivity.
  - reflexivity.
Defined.

Lemma ev_unsafe_uses_witness :
  (∃ w2, ev_entry_free 200 (after (ev_timer_oneshot_new (1, 500) 1 300) (process [200; 1])) = Ok (tt, w2) ∧
    files w2 !! 0 = None) ∧
  test_timer [Some [(5, [1]); (4, [1])]] (test_process cancel_answers) = Err Undefined ∧
  test_timer [Some [(4, [1]); (5, [1])]] (test_process (cancel_answers ++ [500; 1; 0; 6; 0; 0; 0; 0])) = Err (Exited EXIT_FAILURE "failed to cancel timer"%string).
Proof.
  apply (ev_unsafe_uses (1, 500) 1 300 (process [200; 1]) 200).
  - vm_compute. reflexivity.
  - lia.
Defined.
