(* ===== verification/XorList.v ===== *)
(** * The XOR linked list of xor-linkedlist/xor-linkedlist.c

    A node holds the exclusive or of the addresses of its neighbours.  The heap
    maps addresses to nodes; [malloc] returns the address that is an argument of
    [insert_node].  Insertion, deletion, the split into halves, insertion sort
    and the merge sort that uses it below a size are translated, and sorting is
    proved to permute the nodes into order. *)
From S2P Require Import Prelude.
From stdpp Require Import gmap list sorting.
#[local] Open Scope Z_scope.
#[local] Open Scope c_scope.

Record list_node := mk_node { data : Z; addr : Z }.
Abbreviation heap := (gmap Z list_node).

Definition XOR (a b : Z) : Z := Z.lxor a b.

Definition get_node (p : Z) : M heap list_node := gets_some (λ h, h !! p).
Definition get_data (p : Z) : M heap Z := n ← get_node p; ret (data n).
Definition get_addr (p : Z) : M heap Z := n ← get_node p; ret (addr n).
Definition set_addr (p v : Z) : M heap unit :=
  n ← get_node p;
  modify (λ h, <[p := mk_node (data n) v]> h).

(** [tmp] is the address that [malloc] returns. *)
Definition insert_node (tmp : Z) (l d : Z) : M heap Z :=
  (if tmp =? 0 then fail Undefined else modify (λ h, <[tmp := mk_node d 0]> h)) ;;
  (if l =? 0 then set_addr tmp 0
   else
     a ← get_addr l;
     set_addr l (XOR tmp a) ;;
     set_addr tmp l) ;;
  ret tmp.

Definition free (p : Z) : M heap unit :=
  get_node p ;;
  modify (λ h, delete p h).

Fixpoint delete_list (fuel : nat) (l : Z) : M heap unit :=
  if l =? 0 then ret tt
  else match fuel with
  | O => fail Exhausted
  | S fuel =>
      next ← get_addr l;
      (if negb (next =? 0) then a ← get_addr next; set_addr next (XOR a l) else ret tt) ;;
      free l ;;
      delete_list fuel next
  end.

(** The loop of [to_half]: the middle, its predecessor and the size. *)
Fixpoint to_half_loop (fuel : nat) (head prev fast fast_next size : Z) : M heap (Z * Z * Z) :=
  if (fast =? 0) || (fast_next =? 0) then ret (head, prev, size)
  else match fuel with
  | O => fail Exhausted
  | S fuel =>
      a ← get_addr head;
      b ← get_addr fast_next;
      let fast := XOR b fast in
      fast_next ← (if negb (fast =? 0) then c ← get_addr fast; ret (XOR c fast_next) else ret fast_next);
      to_half_loop fuel (XOR a prev) head fast fast_next (size + 1)
  end.

Definition to_half (fuel : nat) (head : Z) : M heap (Z * Z) :=
  fast_next ← get_addr head;
  ' (head, prev, size) ← to_half_loop fuel head 0 head fast_next 0;
  a ← get_addr prev;
  set_addr prev (XOR a head) ;;
  b ← get_addr head;
  set_addr head (XOR b prev) ;;
  ret (head, size).

(** [while (pos && target && pos->data > target->data)] *)
Fixpoint find_place (fuel : nat) (target pos prev : Z) : M heap (Z * Z) :=
  if (pos =? 0) || (target =? 0) then ret (pos, prev)
  else
    x ← get_data pos;
    y ← get_data target;
    if negb (y <? x) then ret (pos, prev)
    else match fuel with
    | O => fail Exhausted
    | S fuel =>
        a ← get_addr pos;
        find_place fuel target (XOR a prev) pos
    end.

(** [len] bounds the search backwards. *)
Fixpoint insertion_loop (fuel len : nat) (head sorted sorted_prev : Z) : M heap Z :=
  if sorted =? 0 then ret head
  else match fuel with
  | O => fail Exhausted
  | S fuel =>
      a ← get_addr sorted;
      let target := XOR a sorted_prev in
      ' (pos, prev) ← find_place len target sorted target;
      if negb (sorted =? pos) then
        t ← get_addr target;
        let next := XOR t sorted in
        a ← get_addr sorted;
        set_addr sorted (XOR (XOR a target) next) ;;
        head ← (if pos =? 0 then
                  set_addr target prev ;;
                  b ← get_addr prev;
                  set_addr prev (XOR b target) ;;
                  ret target
                else
                  c ← get_addr pos;
                  set_addr pos (XOR (XOR c prev) target) ;;
                  b ← get_addr prev;
                  set_addr prev (XOR (XOR b pos) target) ;;
                  set_addr target (XOR pos prev) ;;
                  ret head);
        if next =? 0 then ret head
        else
          n ← get_addr next;
          set_addr next (XOR (XOR n target) sorted) ;;
          a ← get_addr sorted;
          insertion_loop fuel len head sorted (XOR a next)
      else
        a ← get_addr sorted;
        insertion_loop fuel len head (XOR a sorted_prev) sorted
  end.

Definition insertion_sort (fuel : nat) (head : Z) : M heap Z :=
  if head =? 0 then ret head
  else
    a ← get_addr head;
    if a =? 0 then ret head else insertion_loop fuel fuel head head 0.

(** One side of the merge loop: the head of a list is moved behind [merge]. *)
Definition take_head (merge start left_ : Z) : M heap (Z * Z * Z) :=
  next ← get_addr left_;
  (if negb (next =? 0) then a ← get_addr next; set_addr next (XOR left_ a) else ret tt) ;;
  if merge =? 0 then
    set_addr left_ 0 ;;
    ret (left_, left_, next)
  else
    m ← get_addr merge;
    set_addr merge (XOR m left_) ;;
    set_addr left_ merge ;;
    ret (start, left_, next).

Fixpoint merge_loop (fuel : nat) (start merge left_ right_ : Z) : M heap Z :=
  if (left_ =? 0) && (right_ =? 0) then ret start
  else match fuel with
  | O => fail Exhausted
  | S fuel =>
      take_left ← (if right_ =? 0 then ret true
                   else if left_ =? 0 then ret false
                   else x ← get_data left_; y ← get_data right_; ret (x <? y));
      if (take_left : bool) then
        ' (start, merge, left_) ← take_head merge start left_;
        merge_loop fuel start merge left_ right_
      else
        ' (start, merge, right_) ← take_head merge start right_;
        merge_loop fuel start merge left_ right_
  end.

(** [fuel] bounds the depth, [len] the loops. *)
Fixpoint merge_sort (fuel len : nat) (start min_split_size : Z) : M heap Z :=
  if start =? 0 then ret start
  else
    a ← get_addr start;
    if a =? 0 then ret start
    else if min_split_size =? 0 then insertion_sort len start
    else match fuel with
    | O => fail Exhausted
    | S fuel =>
        ' (right_, size) ← to_half len start;
        let min_split_size := if size <=? min_split_size then 0 else min_split_size in
        left_ ← merge_sort fuel len start min_split_size;
        right_ ← merge_sort fuel len right_ min_split_size;
        merge_loop len start 0 left_ right_
    end.

(** The test program: the allocations return the addresses of [nodes], whose
    second components are the values.  [check_sorted] exits when the list does
    not hold the sorted values; [qsort] of the C library is the sorting function
    of stdpp, and may compare any two values, so that none may overflow.  [sort]
    of the header is [merge_sort] with 1. *)
Fixpoint create_list (nodes : list (Z * Z)) (l : Z) : M heap Z :=
  match nodes with
  | [] => ret l
  | (tmp, d) :: nodes => l ← insert_node tmp l d; create_list nodes l
  end.

Fixpoint check_loop (result : list Z) (prev cur : Z) : M heap unit :=
  match result with
  | [] => if cur =? 0 then ret tt else fail AssertFailed
  | r :: result =>
      if cur =? 0 then fail AssertFailed
      else
        d ← get_data cur;
        if negb (r =? d) then fail AssertFailed
        else a ← get_addr cur; check_loop result cur (XOR a prev)
  end.

(** The comparison for [qsort]; [None] is the overflow of an [int]. *)
Definition cmp (a b : Z) : option Z := if i32 (a - b) =? a - b then Some (a - b) else None.

(** No two values of the array overflow when they are compared. *)
Definition comparable (x : list Z) : bool := forallb (λ a, forallb (λ b, bool_decide (is_Some (cmp a b))) x) x.

Definition qsort (x : list Z) : list Z := sorting.merge_sort Z.le x.
Definition check_sorted (head : Z) (x : list Z) : M heap unit :=
  if comparable x then check_loop (qsort x) 0 head else fail Undefined.

Definition randomcheck (nodes : list (Z * Z)) (min_split_size : Z) : M heap unit :=
  let n := length nodes in
  l ← create_list nodes 0;
  l ← merge_sort n n l min_split_size;
  check_sorted l nodes.*2 ;;
  delete_list n l.

(** The values of a list, from [p] on with the node [prev] before it. *)
Fixpoint traverse (fuel : nat) (prev p : Z) : M heap (list Z) :=
  if p =? 0 then ret []
  else match fuel with
  | O => fail Exhausted
  | S fuel =>
      n ← get_node p;
      vs ← traverse fuel p (XOR (addr n) prev);
      ret (data n :: vs)
  end.

(** ** Segments of lists *)

(** The nodes [l] between the neighbours [p] and [n], with the data [D]. *)
Fixpoint seg (D : Z → Z) (h : heap) (p : Z) (l : list Z) (n : Z) : Prop :=
  match l with
  | [] => True
  | x :: l => h !! x = Some (mk_node (D x) (XOR p (first n l))) ∧ seg D h x l n
  end.

(** Equations between exclusive ors. *)
Ltac xor_eq :=
  unfold XOR; apply Z.bits_inj; intros ?;
  rewrite ?Z.lxor_spec, ?Z.bits_0;
  repeat match goal with |- context [Z.testbit ?x ?i] => destruct (Z.testbit x i) end; reflexivity.

Section segments.
Context (D : Z → Z).
Implicit Types (h : heap) (p n x y : Z) (l : list Z).

Lemma last_cons x l p : List.last (x :: l) p = List.last l x.
Proof. revert x p. induction l as [|y l IH]; intros x p; [done|]. cbn in *. destruct l; [done|]. apply IH. Qed.

Lemma last_snoc l x p : List.last (l ++ [x]) p = x.
Proof. revert p. induction l as [|y l IH]; intros p; [done|]. rewrite <- app_comm_cons, last_cons. apply IH. Qed.

Lemma last_app l1 l2 p : List.last (l1 ++ l2) p = List.last l2 (List.last l1 p).
Proof. revert p. induction l1 as [|x l1 IH]; intros p; [done|]. rewrite <- app_comm_cons, !last_cons. apply IH. Qed.

Lemma seg_app h p l1 l2 n : seg D h p (l1 ++ l2) n ↔ seg D h p l1 (first n l2) ∧ seg D h (List.last l1 p) l2 n.
Proof.
  revert p. induction l1 as [|x l1 IH]; intros p; [simpl; tauto|].
  rewrite last_cons. cbn [app seg]. rewrite IH, first_app. tauto.
Qed.

Lemma seg_frame h h' p l n : (∀ x, x ∈ l → h' !! x = h !! x) → seg D h p l n → seg D h' p l n.
Proof.
  revert p. induction l as [|x l IH]; intros p Hf; [done|]. intros [Hx Hl]. split.
  - rewrite Hf by (by left). done.
  - apply IH; [|done]. intros y Hy. apply Hf. by right.
Qed.

Lemma seg_insert h p l n x v : x ∉ l → seg D h p l n → seg D (<[x := v]> h) p l n.
Proof. intros Hx. apply seg_frame. intros y Hy. rewrite lookup_insert_ne; [done|]. by intros ->. Qed.

Lemma seg_node h p l n x : seg D h p l n → x ∈ l → ∃ a, h !! x = Some (mk_node (D x) a).
Proof.
  revert p. induction l as [|y l IH]; intros p Hs Hx; [by apply not_elem_of_nil in Hx|].
  destruct Hs as [Hy Hl]. apply elem_of_cons in Hx as [->|Hx]; [eauto|by eapply IH].
Qed.

(** Changing the neighbour behind the last node, or before the first one. *)
Lemma seg_relast h p l x n n' a a' :
  seg D h p (l ++ [x]) n → x ∉ l → h !! x = Some (mk_node (D x) a) → a' = XOR (XOR a n) n' →
  seg D (<[x := mk_node (D x) a']> h) p (l ++ [x]) n'.
Proof.
  rewrite !seg_app. cbn [seg first]. intros (Hl&Hx&_) Hni Ha ->. split_and!; [by apply seg_insert| |done].
  rewrite lookup_insert_eq. rewrite Ha in Hx. injection Hx as ->. do 2 f_equal. xor_eq.
Qed.

Lemma seg_refirst h p p' x l n a a' :
  seg D h p (x :: l) n → x ∉ l → h !! x = Some (mk_node (D x) a) → a' = XOR (XOR a p) p' →
  seg D (<[x := mk_node (D x) a']> h) p' (x :: l) n.
Proof.
  cbn [seg]. intros (Hx&Hl) Hni Ha ->. split; [|by apply seg_insert].
  rewrite lookup_insert_eq. rewrite Ha in Hx. injection Hx as ->. do 2 f_equal. xor_eq.
Qed.

Lemma get_addr_run {B} (k : Z → M heap B) h p nd : h !! p = Some nd → bind (get_addr p) k h = k (addr nd) h.
Proof. intros Hp. unfold get_addr, get_node, bind, gets_some. by rewrite Hp. Qed.
Lemma get_data_run {B} (k : Z → M heap B) h p nd : h !! p = Some nd → bind (get_data p) k h = k (data nd) h.
Proof. intros Hp. unfold get_data, get_node, bind, gets_some. by rewrite Hp. Qed.
Lemma set_addr_run {B} (k : unit → M heap B) h p v nd :
  h !! p = Some nd → bind (set_addr p v) k h = k tt (<[p := mk_node (data nd) v]> h).
Proof. intros Hp. unfold set_addr, get_node, bind, gets_some. by rewrite Hp. Qed.

Lemma last_0 l : proper l → List.last l 0 = 0 ↔ l = [].
Proof.
  intros [_ H]. destruct (exists_last_or_nil l) as [->|(l'&x&->)]; [done|]. rewrite last_snoc.
  split; [intros ->; destruct H; set_solver|]. by destruct l'.
Qed.

(** *** Halving *)

Lemma to_half_loop_ok h l fuel A B F G fast_next :
  seg D h 0 l 0 → proper l → l = A ++ B → l = F ++ G → (length F = 2 * length A)%nat →
  (length G ≤ 2 * fuel + 1)%nat → (G ≠ [] → fast_next = first 0 (tail G)) →
  ∃ A' B', l = A' ++ B' ∧ length A' = (length l / 2)%nat ∧
    to_half_loop fuel (first 0 B) (List.last A 0) (first 0 G) fast_next (Z.of_nat (length A)) h =
      Ok ((first 0 B', List.last A' 0, Z.of_nat (length A')), h).
Proof.
  intros Hs Hp. revert A B F G fast_next. induction fuel as [|fuel IH]; intros A B F G fast_next HAB HFG HF Hfuel Hnext;
    assert (Hstop : (length G ≤ 1)%nat → length A = (length l / 2)%nat ∧ ((first 0 G =? 0) || (fast_next =? 0)) = true)
      by (intros Hg; split;
        [apply (Nat.div_unique _ 2 _ (length G)); [lia|rewrite HFG, length_app; lia]
        |destruct G as [|x [|y G]]; cbn in *; [done|rewrite Hnext by done; apply orb_true_r|lia]]);
    cbn [to_half_loop].
  - destruct Hstop as [H1 ->]; [lia|]. exists A, B. done.
  - destruct (decide (length G ≤ 1)%nat) as [Hg|Hg].
    { destruct (Hstop Hg) as [H1 ->]. by exists A, B. }
    destruct G as [|x [|y G]]; cbn in Hg; [lia..|]. rewrite Hnext by done. cbn [first tail].
    pose proof Hp as Hp'. rewrite HFG in Hp'. apply proper_app in Hp' as (_&Hp'&_).
    apply proper_cons in Hp' as (Hx0&_&Hp'). apply proper_cons in Hp' as (Hy0&_&HpG).
    rewrite (proj2 (Z.eqb_neq x 0)), (proj2 (Z.eqb_neq y 0)) by done. cbn [orb].
    assert (length B = S (S (length A + length G)))%nat as HB.
    { assert (length (A ++ B) = length (F ++ x :: y :: G)) as Hl by congruence.
      rewrite !length_app in Hl. cbn in Hl. lia. }
    destruct B as [|b B]; [done|]. pose proof Hs as Hs1. rewrite HAB, seg_app in Hs1. destruct Hs1 as [_ [Hb _]].
    pose proof Hs as Hs2. rewrite HFG, seg_app in Hs2. destruct Hs2 as [_ (_&Hy&HG)]. cbn [first] in Hb.
    rewrite (get_addr_run _ _ _ _ Hb), (get_addr_run _ _ _ _ Hy). cbn [addr].
    replace (XOR (XOR x (first 0 G)) x) with (first 0 G) by xor_eq.
    replace (XOR (XOR (List.last A 0) (first 0 B)) (List.last A 0)) with (first 0 B) by xor_eq.
    assert (Hcont : ∀ fn, (G ≠ [] → fn = first 0 (tail G)) → ∃ A' B', l = A' ++ B' ∧ length A' = (length l / 2)%nat ∧
      to_half_loop fuel (first 0 B) b (first 0 G) fn (Z.of_nat (length A) + 1) h =
        Ok ((first 0 B', List.last A' 0, Z.of_nat (length A')), h)).
    { intros fn Hfn. destruct (IH (A ++ [b]) B (F ++ [x; y]) G fn) as (A'&B'&H1&H2&H3).
      - by rewrite <- app_assoc.
      - by rewrite <- app_assoc.
      - rewrite !length_app. cbn. lia.
      - cbn in Hfuel. lia.
      - done.
      - exists A', B'. split_and!; [done|done|]. rewrite last_snoc, length_app in H3. cbn in H3.
        by replace (Z.of_nat (length A) + 1) with (Z.of_nat (length A + 1)) by lia. }
    destruct (Z.eqb_spec (first 0 G) 0) as [H0|H0]; cbn [negb].
    + rewrite (bind_ok _ _ _ _ _ (ret_run _ _)). apply Hcont. apply first_0 in H0; [|done]. by intros ?.
    + destruct G as [|z G]; [done|]. destruct HG as [Hz _]. cbn [first].
      rewrite bind_assoc, (get_addr_run _ _ _ _ Hz), (bind_ok _ _ _ _ _ (ret_run _ _)). cbn [addr].
      replace (XOR (XOR y (first 0 G)) y) with (first 0 G) by xor_eq. by apply Hcont.
Qed.

Lemma to_half_ok h l fuel :
  seg D h 0 l 0 → proper l → (2 ≤ length l ≤ 2 * fuel + 1)%nat →
  ∃ h' A B, l = A ++ B ∧ length A = (length l / 2)%nat ∧
    to_half fuel (first 0 l) h = Ok ((first 0 B, Z.of_nat (length A)), h') ∧
    seg D h' 0 A 0 ∧ seg D h' 0 B 0 ∧ ∀ x, x ∉ l → h' !! x = h !! x.
Proof.
  intros Hs Hp Hlen. unfold to_half. destruct l as [|x l]; [cbn in Hlen; lia|].
  pose proof Hs as [Hx _]. cbn [first]. rewrite (get_addr_run _ _ _ _ Hx). cbn [addr].
  destruct (to_half_loop_ok h (x :: l) fuel [] (x :: l) [] (x :: l) (first 0 l) Hs Hp) as (A&B&HAB&HA&Hrun); [done|done|done|lia|done|].
  cbn [first List.last length] in Hrun. replace (XOR 0 (first 0 l)) with (first 0 l) by xor_eq.
  change (Z.of_nat 0) with 0 in Hrun. rewrite (bind_ok _ _ _ _ _ Hrun). rewrite HAB in Hs, Hp.
  assert (1 ≤ length A ∧ 1 ≤ length B)%nat as [HA1 HB1].
  { assert (length (x :: l) = length A + length B)%nat by (by rewrite HAB, length_app).
    pose proof (Nat.div_mod (length (x :: l)) 2 ltac:(done)). pose proof (Nat.mod_upper_bound (length (x :: l)) 2 ltac:(done)). lia. }
  destruct (exists_last_or_nil A) as [->|(A'&y&->)]; [cbn in HA1; lia|]. destruct B as [|z B]; [cbn in HB1; lia|].
  rewrite last_snoc. cbn [first]. pose proof Hp as (HpA&HpB&Hd)%proper_app.
  apply proper_app in HpA as (_&_&Hy). apply proper_cons in HpB as (Hz0&Hz&_).
  assert (y ∉ A') as Hy' by (intros ?; apply (Hy y); [done|by left]).
  assert (y ∉ z :: B) as HyB by (apply Hd; set_solver). assert (z ∉ A' ++ [y]) as HzA.
  { intros HzA. apply (Hd z HzA). by left. }
  apply seg_app in Hs as [HsA HsB]. rewrite last_snoc in HsB. cbn [first] in HsA.
  destruct (seg_node _ _ _ _ y HsA) as [a Ha]; [set_solver|]. destruct (seg_node _ _ _ _ z HsB) as [b Hb]; [by left|].
  rewrite (get_addr_run _ _ _ _ Ha), (set_addr_run _ _ _ _ _ Ha). cbn [addr data].
  set (h1 := <[y := _]> h).
  assert (h1 !! z = Some (mk_node (D z) b)) as Hb1.
  { unfold h1. rewrite lookup_insert_ne; [done|]. intros ->. apply HyB. by left. }
  rewrite (get_addr_run _ _ _ _ Hb1), (set_addr_run _ _ _ _ _ Hb1). cbn [addr data].
  eexists _, (A' ++ [y]), (z :: B). split_and!; [done|done|reflexivity| | |].
  - apply seg_insert; [done|]. eapply seg_relast; [exact HsA|done|exact Ha|xor_eq].
  - eapply seg_refirst; [apply seg_insert; [exact HyB|exact HsB]|done|exact Hb1|xor_eq].
  - intros w Hw. unfold h1. rewrite !lookup_insert_ne; [done|..]; intros ->; apply Hw; rewrite HAB; set_solver.
Qed.

(** *** Insertion sort *)

Definition in_order (l : list Z) : Prop := StronglySorted (λ x y, D x ≤ D y) l.

(** [t] in its place, behind what is not greater. *)
Lemma in_order_move A B t : in_order (A ++ B) → (∀ x, x ∈ B → D t < D x) → A = [] ∨ D (List.last A 0) ≤ D t → in_order (A ++ t :: B).
Proof.
  intros Ho HB HA. apply StronglySorted_app in Ho as (Ho1&Ho2&Ho3). apply StronglySorted_app. split_and!; [|done|].
  - intros x y Hx [->|Hy]%elem_of_cons; [|by apply Ho1]. destruct HA as [->|HA]; [by apply not_elem_of_nil in Hx|].
    destruct (exists_last_or_nil A) as [->|(A0&a&->)]; [by apply not_elem_of_nil in Hx|]. rewrite last_snoc in HA.
    apply elem_of_app in Hx as [Hx| ->%list_elem_of_singleton]; [|done].
    apply StronglySorted_app in Ho2 as (Ho2&_). specialize (Ho2 x a Hx ltac:(set_solver)). cbn in *. lia.
  - apply StronglySorted_cons. split; [|done]. apply Forall_forall. intros x Hx. specialize (HB x Hx). lia.
Qed.

Lemma find_place_ok h fuel : ∀ A B t R,
  seg D h 0 (A ++ B ++ t :: R) 0 → proper (A ++ B ++ t :: R) → (length A ≤ fuel)%nat →
  (∀ x, x ∈ B → D t < D x) →
  ∃ A' B', A ++ B = A' ++ B' ∧
    find_place fuel t (List.last A 0) (first t B) h = Ok ((List.last A' 0, first t B'), h) ∧
    (∀ x, x ∈ B' → D t < D x) ∧ (A' = [] ∨ D (List.last A' 0) ≤ D t).
Proof.
  induction fuel as [|fuel IH]; intros A B t R Hs Hp Hfuel HB; cbn [find_place];
    destruct (exists_last_or_nil A) as [->|(A0&x&->)].
  1,3: exists [], B; cbn; by split_and!; [..|left].
  { rewrite length_app in Hfuel. cbn in Hfuel. lia. }
  rewrite last_snoc. rewrite <- !app_assoc in *. cbn [app] in *.
  pose proof Hp as (_&Hp2&_)%proper_app. apply proper_cons in Hp2 as (Hx0&_&Hp2).
  apply proper_app in Hp2 as (_&Hp2&_). apply proper_cons in Hp2 as (Ht0&_).
  rewrite (proj2 (Z.eqb_neq x 0)), (proj2 (Z.eqb_neq t 0)) by done. cbn [orb].
  pose proof Hs as [_ [Hx Hs2]]%seg_app. apply seg_app in Hs2 as [_ [Ht _]].
  rewrite (get_data_run _ _ _ _ Hx), (get_data_run _ _ _ _ Ht). cbn [data].
  destruct (Z.ltb_spec (D t) (D x)) as [Hlt|Hge]; cbn [negb].
  - rewrite (get_addr_run _ _ _ _ Hx). cbn [addr]. rewrite first_app. cbn [first].
    replace (XOR (XOR (List.last A0 0) (first t B)) (first t B)) with (List.last A0 0) by xor_eq.
    destruct (IH A0 (x :: B) t R) as (A'&B'&H1&H2&H3&H4).
    + done.
    + done.
    + rewrite length_app in Hfuel. cbn in Hfuel. lia.
    + intros y [->|Hy]%elem_of_cons; [done|by apply HB].
    + exists A', B'. by split_and!.
  - exists (A0 ++ [x]), B. rewrite <- app_assoc, last_snoc. split_and!; [done|done|done|right; lia].
Qed.

(** The node [t] gets its place between [A] and [b], as the code does it; what was
    behind [t] does not matter. *)
Lemma insert_before h A b Bt t R n ta :
  seg D h 0 A b → seg D h (List.last A 0) (b :: Bt) n → h !! t = Some (mk_node (D t) ta) → seg D h t R 0 →
  proper (A ++ (b :: Bt) ++ t :: R) →
  ∃ h1, (∀ {X} (k : Z → M heap X), bind (if List.last A 0 =? 0 then
               set_addr t b ;;
               b' ← get_addr b;
               set_addr b (XOR b' t) ;;
               ret t
             else
               c ← get_addr (List.last A 0);
               set_addr (List.last A 0) (XOR (XOR c b) t) ;;
               b' ← get_addr b;
               set_addr b (XOR (XOR b' (List.last A 0)) t) ;;
               set_addr t (XOR (List.last A 0) b) ;;
               ret (first 0 (A ++ b :: Bt))) k h = k (first 0 (A ++ t :: b :: Bt)) h1) ∧
    seg D h1 0 A t ∧ h1 !! t = Some (mk_node (D t) (XOR (List.last A 0) b)) ∧ seg D h1 t (b :: Bt) n ∧
    seg D h1 t R 0 ∧ ∀ x, x ∉ A ++ (b :: Bt) ++ t :: R → h1 !! x = h !! x.
Proof.
  intros HA HB Ht HR Hp. pose proof Hp as (HpA&(HpB&(_&HtR&_)%proper_cons&HdB)%proper_app&HdA)%proper_app.
  apply proper_cons in HpB as (_&HbBt&_).
  assert (t ∉ b :: Bt) as HtB by (intros H; apply (HdB t H); by left).
  assert (b ≠ t) as Hbt by (intros ->; apply HtB; by left).
  assert (b ∉ R) as HbR by (intros H; apply (HdB b); [by left|by right]).
  destruct (seg_node _ _ _ _ b HB ltac:(by left)) as [ba Hba].
  destruct (exists_last_or_nil A) as [->|(A0&a&->)].
  - cbn [List.last Z.eqb app first].
    assert (<[t := mk_node (D t) b]> h !! b = Some (mk_node (D b) ba)) as Hb2 by (by rewrite lookup_insert_ne).
    eexists. split; [intros X k; rewrite bind_assoc, (set_addr_run _ _ _ _ _ Ht), bind_assoc; cbn [data];
      rewrite (get_addr_run _ _ _ _ Hb2), bind_assoc, (set_addr_run _ _ _ _ _ Hb2); cbn [data addr]; reflexivity|].
    split_and!; [done| | | |].
    + rewrite lookup_insert_ne by done. by rewrite lookup_insert_eq.
    + eapply seg_refirst; [apply seg_insert; [exact HtB|exact HB]|done|exact Hb2|xor_eq].
    + apply seg_insert; [done|]. by apply seg_insert.
    + intros x Hx. rewrite !lookup_insert_ne; [done|..]; intros ->; apply Hx; set_solver.
  - rewrite last_snoc in *. apply proper_app in HpA as (_&(Ha0&_)%proper_cons&HdA0).
    assert (a ∉ A0) as HaA by (intros H; apply (HdA0 a H); by left).
    assert (a ∈ A0 ++ [a]) as HaIn by set_solver. pose proof (HdA a HaIn) as Hd. rewrite elem_of_app, !elem_of_cons in Hd.
    assert (a ∉ b :: Bt ∧ a ≠ t ∧ a ∉ R ∧ a ≠ b ∧ b ∉ A0 ++ [a] ∧ t ∉ A0 ++ [a]) as (HaB&Hat&HaR&Hab&HbA&HtA).
    { rewrite elem_of_cons. split_and!; [tauto..|intros H; apply (HdA b H); set_solver|intros H; apply (HdA t H); set_solver]. }
    rewrite (proj2 (Z.eqb_neq a 0)) by done. destruct (seg_node _ _ _ _ a HA HaIn) as [aa Haa].
    set (ha := <[a := mk_node (D a) (XOR (XOR aa b) t)]> h).
    assert (seg D ha 0 (A0 ++ [a]) t) as HA2 by (eapply seg_relast; [exact HA|done|exact Haa|done]).
    assert (seg D ha a (b :: Bt) n) as HB2 by (by apply seg_insert).
    assert (ha !! b = Some (mk_node (D b) ba)) as Hb2 by (unfold ha; by rewrite lookup_insert_ne).
    set (hb := <[b := mk_node (D b) (XOR (XOR ba a) t)]> ha).
    assert (seg D hb t (b :: Bt) n) as HB3 by (eapply seg_refirst; [exact HB2|done|exact Hb2|done]).
    assert (hb !! t = Some (mk_node (D t) ta)) as Ht3 by (unfold hb, ha; by rewrite !lookup_insert_ne).
    eexists. split; [intros X k; rewrite bind_assoc, (get_addr_run _ _ _ _ Haa), bind_assoc, (set_addr_run _ _ _ _ _ Haa);
      cbn [data addr]; rewrite bind_assoc, (get_addr_run _ _ _ _ Hb2), bind_assoc, (set_addr_run _ _ _ _ _ Hb2);
      cbn [data addr]; rewrite bind_assoc, (set_addr_run _ _ _ _ _ Ht3); cbn [data];
      rewrite !first_app; destruct A0; reflexivity|].
    split_and!.
    + apply seg_insert; [done|]. by apply seg_insert.
    + by rewrite lookup_insert_eq.
    + by apply seg_insert.
    + apply seg_insert; [done|]. apply seg_insert; [done|]. by apply seg_insert.
    + intros x Hx. unfold hb, ha. rewrite !lookup_insert_ne; [done|..]; intros ->; apply Hx; set_solver.
Qed.

(** The node [t] behind [A ++ B] is moved between [A] and [B]. *)
Lemma move_back_ok h A B s t R (head : Z) :
  seg D h 0 (A ++ (B ++ [s]) ++ t :: R) 0 → proper (A ++ (B ++ [s]) ++ t :: R) →
  head = first 0 (A ++ B ++ [s]) →
  ∃ h1 h', (* the list before and after the update of the node behind [t] *)
    (∀ {X} (k : Z → M heap X), bind (get_addr s) (λ a,
       bind (set_addr s (XOR (XOR a t) (first 0 R))) (λ _,
       bind (if List.last A 0 =? 0 then
               set_addr t (first t (B ++ [s])) ;;
               b ← get_addr (first t (B ++ [s]));
               set_addr (first t (B ++ [s])) (XOR b t) ;;
               ret t
             else
               c ← get_addr (List.last A 0);
               set_addr (List.last A 0) (XOR (XOR c (first t (B ++ [s]))) t) ;;
               b ← get_addr (first t (B ++ [s]));
               set_addr (first t (B ++ [s])) (XOR (XOR b (List.last A 0)) t) ;;
               set_addr t (XOR (List.last A 0) (first t (B ++ [s]))) ;;
               ret head) k)) h = k (first 0 (A ++ t :: B ++ [s])) h1) ∧
    (∀ {X} (k : Z → M heap X), R ≠ [] → bind (get_addr (first 0 R)) (λ n,
       bind (set_addr (first 0 R) (XOR (XOR n t) s)) (λ _, bind (get_addr s) k)) h1 =
       k (XOR (List.last (t :: B) (List.last A 0)) (first 0 R)) h') ∧
    (R = [] → seg D h1 0 (A ++ t :: B ++ [s]) 0) ∧
    (R ≠ [] → seg D h' 0 (A ++ (t :: B ++ [s]) ++ R) 0) ∧
    (∀ x, x ∉ A ++ (B ++ [s]) ++ t :: R → h1 !! x = h !! x ∧ h' !! x = h !! x).
Proof.
  intros Hs Hp ->. pose proof Hp as (HpA&Hp2&HdA)%proper_app. apply proper_app in Hp2 as (HpB&Hp3&HdB).
  apply proper_cons in Hp3 as (Ht0&HtR&HpR).
  apply seg_app in Hs as [HsA Hs]. apply seg_app in Hs as [HsB [Ht HsR]]. rewrite last_snoc in Ht.
  rewrite first_app in HsA. cbn [first] in HsA, HsB.
  set (b := first t (B ++ [s])) in *. assert (∃ Bt, B ++ [s] = b :: Bt) as [Bt HBt].
  { unfold b. destruct B as [|b' B]; cbn; eauto. }
  assert (s ∈ B ++ [s]) as HsIn by set_solver.
  assert (b ∈ B ++ [s]) as HbIn by (rewrite HBt; by left).
  assert (s ∉ B) as HsB0 by (apply proper_app in HpB as (_&_&H); intros ?; by apply (H s); [|left]).
  assert (b ∉ Bt) as HbBt by (rewrite HBt in HpB; by apply proper_cons in HpB as (_&?&_)).
  assert (t ∉ B ++ [s]) as HtB by (intros H; apply (HdB t H); by left).
  assert (t ∉ A) as HtA by (intros H; apply (HdA t H); set_solver).
  assert (∀ x, x ∈ B ++ [s] → x ∉ A) as HBA by (intros x Hx Hx'; apply (HdA x Hx'); set_solver).
  assert (∀ x, x ∈ B ++ [s] → x ∉ R) as HBR by (intros x Hx Hx'; apply (HdB x Hx); by right).
  assert (∀ x, x ∈ A → x ∉ R) as HAR by (intros x Hx Hx'; apply (HdA x Hx); set_solver).
  destruct (seg_node _ _ _ _ s HsB HsIn) as [sa Hsa].
  (* the end of the sorted part *)
  set (hs := <[s := mk_node (D s) (XOR (XOR sa t) (first 0 R))]> h).
  assert (seg D hs (List.last A 0) (B ++ [s]) (first 0 R)) as HsB1.
  { eapply seg_relast; [exact HsB|done|exact Hsa|done]. }
  assert (seg D hs 0 A b) as HsA1 by (apply seg_insert; [by apply HBA|done]).
  assert (hs !! t = Some (mk_node (D t) (XOR s (first 0 R)))) as Ht1.
  { unfold hs. rewrite lookup_insert_ne; [done|]. intros ->. by apply HtB. }
  assert (seg D hs t R 0) as HsR1 by (apply seg_insert; [by apply HBR|done]).
  destruct (seg_node _ _ _ _ b HsB1 HbIn) as [ba Hba].
  assert (proper (A ++ (b :: Bt) ++ t :: R)) as Hp' by (by rewrite <- HBt).
  rewrite HBt in HsB1. destruct (insert_before hs A b Bt t R (first 0 R) _ HsA1 HsB1 Ht1 HsR1 Hp') as (h1&Hrun&HA1&Ht2&HB1&HR1&Hf1).
  rewrite <- HBt in *. assert (∀ x, x ∉ A ++ (B ++ [s]) ++ t :: R → h1 !! x = h !! x) as Hf.
  { intros x Hx. rewrite Hf1 by done. unfold hs. rewrite lookup_insert_ne; [done|]. intros ->. apply Hx. set_solver. }
  set (h' := match R with [] => h1 | r :: _ => <[r := mk_node (D r) (XOR s (first 0 (tail R)))]> h1 end).
  exists h1, h'. split_and!.
  - intros X k. rewrite (get_addr_run _ _ _ _ Hsa), (set_addr_run _ _ _ _ _ Hsa). cbn [data addr]. apply Hrun.
  - intros X k HR. destruct R as [|r R]; [done|]. cbn [first tail] in *. destruct HR1 as [Hr _].
    rewrite (get_addr_run _ _ _ _ Hr), (set_addr_run _ _ _ _ _ Hr). cbn [data addr]. unfold h'.
    replace (XOR (XOR (XOR t (first 0 R)) t) s) with (XOR s (first 0 R)) by xor_eq.
    assert (r ≠ s) as Hrs by (intros ->; apply (HBR s HsIn); by left).
    apply seg_app in HB1 as [_ [Hs1 _]]. cbn [first] in Hs1.
    rewrite (get_addr_run _ _ _ (mk_node (D s) (XOR (List.last B t) r))) by (by rewrite lookup_insert_ne).
    by rewrite last_cons.
  - intros ->. apply seg_app. split; [done|]. cbn [seg]. split; [|done].
    rewrite Ht2. unfold b. by destruct B.
  - intros HR. destruct R as [|r R]; [done|]. unfold h'. cbn [tail first] in *.
    assert (r ∉ R) as HrR by (apply proper_cons in HpR as (_&?&_); done).
    assert (Hr' : r ∉ A ∧ r ∉ B ++ [s] ∧ r ≠ t).
    { split_and!; [intros H; apply (HAR r H); by left|intros H; apply (HBR r H); by left|intros ->; apply HtR; by left]. }
    destruct Hr' as (HrA&HrB&Hrt). cbn [app]. rewrite seg_app. cbn [first]. split; [by apply seg_insert|]. cbn [seg].
    split; [rewrite lookup_insert_ne, Ht2 by done; unfold b; by destruct B|].
    apply seg_app. rewrite last_snoc. cbn [first]. split; [by apply seg_insert|].
    destruct HR1 as [Hr HR1]. split; [by rewrite lookup_insert_eq|]. by apply seg_insert.
  - intros x Hx. split; [by apply Hf|]. unfold h'. destruct R as [|r R]; [by apply Hf|].
    rewrite lookup_insert_ne; [by apply Hf|]. intros ->. apply Hx. set_solver.
Qed.

Lemma perm_move (A B : list Z) s t (R : list Z) : A ++ t :: B ++ s :: R ≡ₚ A ++ B ++ s :: t :: R.
Proof. f_equiv. rewrite (perm_swap t s R). apply Permutation_middle. Qed.

(** What a sorting routine does to the list [l]. *)
Definition sorts (h h' : heap) (l l' : list Z) : Prop :=
  l' ≡ₚ l ∧ in_order l' ∧ seg D h' 0 l' 0 ∧ ∀ x, x ∉ l → h' !! x = h !! x.

(** The loop with [S] and [s] sorted and [R] to be sorted in. *)
Definition part_sorted (len fuel : nat) (h : heap) (S : list Z) (s : Z) (R : list Z) : Prop :=
  seg D h 0 ((S ++ [s]) ++ R) 0 ∧ proper ((S ++ [s]) ++ R) ∧ in_order (S ++ [s]) ∧
  (length R < fuel)%nat ∧ (length ((S ++ [s]) ++ R) ≤ len)%nat.
Definition sorts_in (len fuel : nat) (h : heap) (S : list Z) (s : Z) (R : list Z) : Prop :=
  ∃ h' l', insertion_loop fuel len (first 0 (S ++ [s])) s (List.last S 0) h = Ok (first 0 l', h') ∧
    sorts h h' ((S ++ [s]) ++ R) l'.

Lemma part_sorted_node len fuel h S s R : part_sorted len fuel h S s R → s ≠ 0 ∧ h !! s = Some (mk_node (D s) (XOR (List.last S 0) (first 0 R))).
Proof.
  intros (Hs&Hp&_). split; [intros ->; destruct Hp as [_ H0]; apply H0; set_solver|].
  apply seg_app in Hs as [Hs _]. by apply seg_app in Hs as [_ [Hsn _]].
Qed.

(** Nothing is left. *)
Lemma insertion_done len fuel h S s : part_sorted len (Datatypes.S fuel) h S s [] → sorts_in len (Datatypes.S fuel) h S s [].
Proof.
  intros HP. pose proof (part_sorted_node _ _ _ _ _ _ HP) as [Hs0 Hsn]. destruct HP as (Hs&Hp&Ho&_).
  unfold sorts_in. cbn [insertion_loop first] in *. rewrite (proj2 (Z.eqb_neq s 0)), (get_addr_run _ _ _ _ Hsn) by done. cbn [addr].
  replace (XOR (XOR (List.last S 0) 0) (List.last S 0)) with 0 by xor_eq.
  assert (find_place len 0 s 0 h = Ok ((s, 0), h)) as Hfp by (destruct len; cbn [find_place]; by rewrite orb_true_r).
  rewrite (bind_ok _ _ _ _ _ Hfp), Z.eqb_refl. cbn [negb].
  rewrite (get_addr_run _ _ _ _ Hsn). cbn [addr]. replace (XOR (XOR (List.last S 0) 0) (List.last S 0)) with 0 by xor_eq.
  exists h, (S ++ [s]). rewrite app_nil_r in *. split; [by destruct fuel|]. by split_and!.
Qed.

Section rounds.
Context (len fuel : nat) (IH : ∀ h S s R, part_sorted len fuel h S s R → sorts_in len fuel h S s R).

(** The next node is in its place: the sorted part grows. *)
Lemma insertion_stays h S s t R : part_sorted len (Datatypes.S fuel) h S s (t :: R) → D s ≤ D t → 
  find_place len t s t h = Ok ((s, t), h) → sorts_in len (Datatypes.S fuel) h S s (t :: R).
Proof.
  intros HP HA Hrun. pose proof (part_sorted_node _ _ _ _ _ _ HP) as [Hs0 Hsn]. destruct HP as (Hs&Hp&Ho&Hf&Hlen).
  unfold sorts_in. cbn [insertion_loop first] in *. rewrite (proj2 (Z.eqb_neq s 0)), (get_addr_run _ _ _ _ Hsn) by done. cbn [addr].
  replace (XOR (XOR (List.last S 0) t) (List.last S 0)) with t by xor_eq. rewrite (bind_ok _ _ _ _ _ Hrun), Z.eqb_refl. cbn [negb].
  rewrite (get_addr_run _ _ _ _ Hsn). cbn [addr]. replace (XOR (XOR (List.last S 0) t) (List.last S 0)) with t by xor_eq.
  replace (first 0 (S ++ [s])) with (first 0 ((S ++ [s]) ++ [t])) by (by destruct S).
  destruct (IH h (S ++ [s]) t R) as (h'&l'&Hrun'&Hsort).
  - split_and!; [by rewrite <- app_assoc|by rewrite <- app_assoc| |cbn in Hf; lia|by rewrite <- app_assoc].
    apply StronglySorted_app. split_and!; [|done|repeat constructor].
    intros x y Hx ->%list_elem_of_singleton. apply elem_of_app in Hx as [Hx| ->%list_elem_of_singleton]; [|done].
    pose proof (StronglySorted_app_1_elem_of _ _ _ x s Ho Hx ltac:(set_solver)). cbn in *. lia.
  - exists h', l'. rewrite last_snoc in Hrun'. split; [exact Hrun'|]. by rewrite <- app_assoc in Hsort.
Qed.

(** The next node belongs between [A] and [B], before [s]. *)
Lemma insertion_moves h A B s t R : part_sorted len (Datatypes.S fuel) h (A ++ B) s (t :: R) →
  find_place len t s t h = Ok ((List.last A 0, first t (B ++ [s])), h) → (∀ x, x ∈ B ++ [s] → D t < D x) → A = [] ∨ D (List.last A 0) ≤ D t →
  sorts_in len (Datatypes.S fuel) h (A ++ B) s (t :: R).
Proof.
  intros HP Hrun HB HA. pose proof (part_sorted_node _ _ _ _ _ _ HP) as [Hs0 Hsn]. destruct HP as (Hs&Hp&Ho&Hf&Hlen).
  unfold sorts_in. cbn [insertion_loop first] in *. rewrite (proj2 (Z.eqb_neq s 0)), (get_addr_run _ _ _ _ Hsn) by done. cbn [addr].
  replace (XOR (XOR (List.last (A ++ B) 0) t) (List.last (A ++ B) 0)) with t by xor_eq. rewrite (bind_ok _ _ _ _ _ Hrun).
  rewrite <- !app_assoc in Hs, Hp. cbn [app] in Hs, Hp.
  assert (s ≠ List.last A 0) as Hne.
  { intros Heq. destruct (exists_last_or_nil A) as [->|(A0&a&->)]; [done|]. rewrite last_snoc in Heq. subst a.
    apply proper_app in Hp as (_&_&Hd). apply (Hd s); set_solver. }
  rewrite (proj2 (Z.eqb_neq s (List.last A 0))) by done. cbn [negb].
  assert (seg D h 0 (A ++ (B ++ [s]) ++ t :: R) 0) as Hs' by (by rewrite <- (app_assoc B)).
  assert (proper (A ++ (B ++ [s]) ++ t :: R)) as Hp' by (by rewrite <- (app_assoc B)).
  destruct (move_back_ok h A B s t R (first 0 ((A ++ B) ++ [s])) Hs' Hp') as (h1&h2&Hr1&Hr2&Hend&Hrest&Hframe); [by rewrite <- app_assoc|].
  pose proof Hs' as [_ Ht]%seg_app. apply seg_app in Ht as [_ [Ht _]]. rewrite last_snoc in Ht.
  rewrite (get_addr_run _ _ _ _ Ht). cbn [addr]. replace (XOR (XOR s (first 0 R)) s) with (first 0 R) by xor_eq. rewrite Hr1.
  assert (in_order (A ++ t :: B ++ [s])) as Ho' by (apply in_order_move; [by rewrite app_assoc|done..]).
  destruct R as [|r R].
  - cbn [first]. rewrite Z.eqb_refl. exists h1, (A ++ t :: B ++ [s]). split; [done|]. split_and!; [|done|by apply Hend|].
    + rewrite <- !app_assoc. f_equiv. rewrite (app_assoc B). apply Permutation_cons_append.
    + intros x Hx. apply Hframe. by rewrite <- !app_assoc in *.
  - cbn [first] in *. assert (r ≠ 0) as Hr0 by (intros ->; destruct Hp as [_ H0]; apply H0; set_solver).
    rewrite (proj2 (Z.eqb_neq r 0)) by done. rewrite Hr2 by done. rewrite <- last_app.
    replace (XOR (XOR (List.last (A ++ t :: B) 0) r) r) with (List.last (A ++ t :: B) 0) by xor_eq.
    destruct (IH h2 (A ++ t :: B) s (r :: R)) as (h'&l'&Hrun'&Hperm&Hord&Hseg&Hfr); [split_and!|].
    + specialize (Hrest ltac:(done)). rewrite <- !app_assoc in *. cbn in *. by rewrite <- !app_assoc in *.
    + eapply proper_perm; [|exact Hp]. rewrite <- !app_assoc. cbn [app]. by rewrite perm_move.
    + by rewrite <- app_assoc.
    + cbn in *. lia.
    + repeat (rewrite length_app in * || cbn [length] in *). lia.
    + exists h', l'. split; [by rewrite <- app_assoc in Hrun'|]. split_and!; [|done|done|].
      * rewrite Hperm, <- !app_assoc. cbn [app]. by rewrite perm_move.
      * intros x Hx. rewrite Hfr; [apply Hframe|]; [by rewrite <- !app_assoc in *|].
        rewrite !elem_of_app, !elem_of_cons, ?elem_of_nil in *. tauto.
Qed.
End rounds.

Lemma insertion_loop_ok len fuel : ∀ h S s R, part_sorted len fuel h S s R → sorts_in len fuel h S s R.
Proof.
  induction fuel as [|fuel IH]; intros h S s R HP; [destruct HP as (_&_&_&Hf&_); lia|].
  destruct R as [|t R]; [by apply insertion_done|]. pose proof HP as (Hs&Hp&Ho&Hf&Hlen).
  destruct (find_place_ok h len (S ++ [s]) [] t R) as (A&B&HAB&Hrun&HB&HA); [done|done| |set_solver|].
  { rewrite !length_app in *. cbn in *. lia. }
  rewrite last_snoc in Hrun. cbn [first] in Hrun. rewrite app_nil_r in HAB. destruct (exists_last_or_nil B) as [->|(B0&s'&->)].
  - rewrite app_nil_r in HAB. subst A. rewrite last_snoc in *. destruct HA as [HA|HA]; [by destruct S|]. by apply insertion_stays.
  - rewrite app_assoc in HAB. apply app_inj_tail in HAB as [-> <-]. by apply insertion_moves.
Qed.

Lemma insertion_sort_ok h l fuel :
  seg D h 0 l 0 → proper l → (length l ≤ fuel)%nat →
  ∃ h' l', insertion_sort fuel (first 0 l) h = Ok (first 0 l', h') ∧ sorts h h' l l'.
Proof.
  intros Hs Hp Hf. unfold insertion_sort. destruct l as [|x l].
  - exists h, []. split; [done|]. split_and!; [done|constructor|done|done].
  - cbn [first]. pose proof Hp as (Hx0&_&_)%proper_cons. rewrite (proj2 (Z.eqb_neq x 0)) by done.
    pose proof Hs as [Hx _]. rewrite (get_addr_run _ _ _ _ Hx). cbn [addr].
    assert (in_order [x]) as Ho by repeat constructor.
    replace (XOR 0 (first 0 l)) with (first 0 l) by xor_eq. destruct (Z.eqb_spec (first 0 l) 0) as [H0|H0].
    + destruct l as [|y l]; [|destruct Hp as [_ Hp]; destruct Hp; set_solver].
      exists h, [x]. by split_and!.
    + apply (insertion_loop_ok fuel fuel h [] x l). split_and!; [done..|cbn in *; lia|cbn in *; lia].
Qed.

(** *** Merging *)

Lemma take_head_ok h O x l start :
  seg D h 0 O 0 → seg D h 0 (x :: l) 0 → proper (O ++ x :: l) → (O ≠ [] → start = first 0 O) →
  ∃ h', take_head (List.last O 0) start x h = Ok ((first 0 (O ++ [x]), x, first 0 l), h') ∧
    seg D h' 0 (O ++ [x]) 0 ∧ seg D h' 0 l 0 ∧ ∀ y, y ∉ O ++ x :: l → h' !! y = h !! y.
Proof.
  intros HO [Hx Hl] Hp Hst. unfold take_head. rewrite (get_addr_run _ _ _ _ Hx). cbn [addr].
  replace (XOR 0 (first 0 l)) with (first 0 l) by xor_eq.
  apply proper_app in Hp as (HpO&(Hx0&Hxl&Hpl)%proper_cons&Hd).
  assert (∀ y, y ∈ O → y ≠ x ∧ y ∉ l) as HOx.
  { intros y Hy. specialize (Hd y Hy). rewrite elem_of_cons in Hd. tauto. }
  set (h1 := match l with [] => h | y :: l => <[y := mk_node (D y) (first 0 l)]> h end).
  assert (∀ y, y ∉ l → h1 !! y = h !! y) as Hf1.
  { intros y Hy. destruct l as [|z l]; [done|]. unfold h1. rewrite lookup_insert_ne; [done|]. intros ->. apply Hy. by left. }
  assert (seg D h1 0 l 0) as Hl1.
  { destruct l as [|y l]; [done|]. apply proper_cons in Hpl as (_&Hy&_). destruct Hl as [Hy' Hl]. unfold h1. cbn [seg].
    rewrite lookup_insert_eq. split; [do 2 f_equal; xor_eq|]. by apply seg_insert. }
  assert (∀ {X} (k : unit → M heap X), bind (if negb (first 0 l =? 0) then
      a ← get_addr (first 0 l); set_addr (first 0 l) (XOR x a) else ret tt) k h = k tt h1) as Hrun.
  { intros X k. destruct l as [|y l]; [done|]. apply proper_cons in Hpl as (Hy0&_&_). cbn [first].
    rewrite (proj2 (Z.eqb_neq y 0)) by done. cbn [negb]. destruct Hl as [Hy _].
    rewrite bind_assoc, (get_addr_run _ _ _ _ Hy), (set_addr_run _ _ _ _ _ Hy). cbn [addr data].
    replace (XOR x (XOR x (first 0 l))) with (first 0 l) by xor_eq. done. }
  rewrite Hrun. assert (h1 !! x = Some (mk_node (D x) (first 0 l))) as Hx1.
  { rewrite Hf1, Hx by done. by replace (XOR 0 (first 0 l)) with (first 0 l) by xor_eq. }
  assert (seg D h1 0 O 0) as HO1 by (eapply seg_frame; [|exact HO]; intros y Hy; by apply Hf1, HOx).
  destruct (exists_last_or_nil O) as [->|(O0&o&->)].
  - cbn [List.last Z.eqb app first]. rewrite (set_addr_run _ _ _ _ _ Hx1). eexists. split; [done|]. split_and!.
    + cbn. rewrite lookup_insert_eq. split; [|done]. do 2 f_equal.
    + by apply seg_insert.
    + intros y Hy. rewrite lookup_insert_ne by (intros ->; apply Hy; by left). apply Hf1. intros ?. apply Hy. by right.
  - rewrite last_snoc. apply proper_app in HpO as (_&(Ho0&_)%proper_cons&HdO). assert (o ∉ O0) as Ho.
    { intros Ho. apply (HdO o Ho). by left. }
    destruct (HOx o) as [Hox Hol]; [set_solver|].
    rewrite (proj2 (Z.eqb_neq o 0)) by done. destruct (seg_node _ _ _ _ o HO1) as [a Ha]; [set_solver|].
    rewrite (get_addr_run _ _ _ _ Ha), (set_addr_run _ _ _ _ _ Ha). cbn [addr data].
    set (h2 := <[o := _]> h1). assert (h2 !! x = Some (mk_node (D x) (first 0 l))) as Hx2.
    { unfold h2. by rewrite lookup_insert_ne. }
    rewrite (set_addr_run _ _ _ _ _ Hx2). cbn [data]. eexists. split; [rewrite Hst by (by destruct O0); destruct O0; reflexivity|]. split_and!.
    + apply seg_app. cbn [first seg]. rewrite last_snoc, lookup_insert_eq. split_and!; [|do 2 f_equal; xor_eq|done].
      apply seg_insert; [intros Hx'; by destruct (HOx x Hx')|]. eapply seg_relast; [exact HO1|done|exact Ha|xor_eq].
    + apply seg_insert; [done|]. by apply seg_insert.
    + intros y Hy. unfold h2. rewrite !elem_of_app, !elem_of_cons in Hy.
      rewrite !lookup_insert_ne by (intros ->; tauto). apply Hf1. tauto.
Qed.

Lemma in_order_snoc O x : in_order O → (∀ y, y ∈ O → D y ≤ D x) → in_order (O ++ [x]).
Proof.
  intros HO Hx. apply StronglySorted_app. split_and!; [|done|repeat constructor].
  intros y z Hy ->%list_elem_of_singleton. by apply Hx.
Qed.

Lemma merge_step_ok h O x l K start :
  seg D h 0 O 0 → seg D h 0 (x :: l) 0 → seg D h 0 K 0 → proper (O ++ (x :: l) ++ K) → (O ≠ [] → start = first 0 O) →
  in_order O → in_order (x :: l) → in_order K → (∀ y z, y ∈ O → z ∈ (x :: l) ++ K → D y ≤ D z) →
  (∀ z, z ∈ K → D x ≤ D z) →
  ∃ h', take_head (List.last O 0) start x h = Ok ((first 0 (O ++ [x]), x, first 0 l), h') ∧
    seg D h' 0 (O ++ [x]) 0 ∧ seg D h' 0 l 0 ∧ seg D h' 0 K 0 ∧ in_order (O ++ [x]) ∧ in_order l ∧
    (∀ y z, y ∈ O ++ [x] → z ∈ l ++ K → D y ≤ D z) ∧ ∀ y, y ∉ O ++ x :: l → h' !! y = h !! y.
Proof.
  intros HO Hl HK Hp Hst HoO Hol HoK Hle Hx. rewrite app_assoc in Hp. apply proper_app in Hp as (Hp&_&Hd).
  destruct (take_head_ok h O x l start HO Hl Hp Hst) as (h'&Hrun&HO'&Hl'&Hf). exists h'.
  apply StronglySorted_cons in Hol as [Hxl Hol]. rewrite Forall_forall in Hxl. split_and!; [done|done|done| | |done| |done].
  - eapply seg_frame; [|exact HK]. intros y Hy. apply Hf. intros Hy'. by apply (Hd y).
  - apply in_order_snoc; [done|]. intros y Hy. apply Hle; [done|]. by left.
  - intros y z [Hy| ->%list_elem_of_singleton]%elem_of_app Hz.
    + apply Hle; [done|]. by right.
    + apply elem_of_app in Hz as [Hz|Hz]; auto.
Qed.

Lemma merge_loop_ok fuel : ∀ h O L R start,
  seg D h 0 O 0 → seg D h 0 L 0 → seg D h 0 R 0 → proper (O ++ L ++ R) → O ++ L ++ R ≠ [] →
  (O ≠ [] → start = first 0 O) → in_order O → in_order L → in_order R →
  (∀ y z, y ∈ O → z ∈ L ++ R → D y ≤ D z) → (length L + length R ≤ fuel)%nat →
  ∃ h' l', merge_loop fuel start (List.last O 0) (first 0 L) (first 0 R) h = Ok (first 0 l', h') ∧
    sorts h h' (O ++ L ++ R) l'.
Proof.
  induction fuel as [|fuel IH]; intros h O L R start HO HL HR Hp Hne Hst HoO HoL HoR Hle Hf.
  1: destruct L, R; cbn in Hf; try lia; rewrite !app_nil_r in *; exists h, O; cbn; rewrite Hst by done; by split_and!.
  cbn [merge_loop]. destruct (decide (L = [] ∧ R = [])) as [[-> ->]|Hlr].
  { rewrite !app_nil_r in *. exists h, O. cbn. rewrite Hst by done. by split_and!. }
  pose proof Hp as (_&(HpL&HpR&_)%proper_app&_)%proper_app.
  assert (((first 0 L =? 0) && (first 0 R =? 0)) = false) as ->.
  { apply andb_false_iff. rewrite !Z.eqb_neq, !first_0 by done. destruct L; [right|by left]. destruct R; [|done]. by destruct Hlr. }
  assert (∃ b, (∀ {X} (k : bool → M heap X), bind (if first 0 R =? 0 then ret true
      else if first 0 L =? 0 then ret false
      else x ← get_data (first 0 L); y ← get_data (first 0 R); ret (x <? y)) k h = k b h) ∧
    (if b then ∃ x l, L = x :: l ∧ ∀ z, z ∈ R → D x ≤ D z else ∃ x l, R = x :: l ∧ ∀ z, z ∈ L → D x ≤ D z)) as (b&Hb&Hcase).
  { destruct R as [|r R].
    - exists true. split; [done|]. destruct L as [|x l]; [by destruct Hlr|]. exists x, l. split; [done|]. intros z Hz. by apply not_elem_of_nil in Hz.
    - pose proof HpR as (Hr0&_)%proper_cons. cbn [first]. rewrite (proj2 (Z.eqb_neq r 0)) by done. destruct L as [|x l].
      + exists false. split; [done|]. exists r, R. split; [done|]. intros z Hz. by apply not_elem_of_nil in Hz.
      + pose proof HpL as (Hx0&_)%proper_cons. cbn [first]. rewrite (proj2 (Z.eqb_neq x 0)) by done. exists (D x <? D r). split.
        * intros X k. destruct HL as [HL _], HR as [HR _]. by rewrite bind_assoc, (get_data_run _ _ _ _ HL), bind_assoc, (get_data_run _ _ _ _ HR).
        * apply StronglySorted_cons in HoL as [HxL _], HoR as [HrR _]. rewrite Forall_forall in HxL, HrR.
          destruct (Z.ltb_spec (D x) (D r)).
          -- exists x, l. split; [done|]. intros z [->|Hz]%elem_of_cons; [lia|]. specialize (HrR z Hz). lia.
          -- exists r, R. split; [done|]. intros z [->|Hz]%elem_of_cons; [lia|]. specialize (HxL z Hz). lia. }
  rewrite Hb. destruct b; destruct Hcase as (x&l&->&Hx).
  - destruct (merge_step_ok h O x l R start) as (h1&Hrun&HO1&Hl1&HR1&HoO1&Hol&Hle1&Hf1); [done..|].
    cbn [first]. rewrite (bind_ok _ _ _ _ _ Hrun).
    destruct (IH h1 (O ++ [x]) l R (first 0 (O ++ [x]))) as (h'&l'&Hrun'&Hperm&Ho'&Hs'&Hf'); try done.
    + by rewrite <- app_assoc.
    + by destruct O.
    + cbn in Hf. lia.
    + rewrite last_snoc in Hrun'. exists h', l'. split; [done|]. rewrite <- app_assoc in *. split_and!; [done..|].
      intros y Hy. rewrite Hf', Hf1; [done| |done]. rewrite !elem_of_app, !elem_of_cons in *. tauto.
  - assert (O ++ L ++ x :: l ≡ₚ O ++ (x :: l) ++ L) as Hcomm by (f_equiv; apply (Permutation_app_comm L (x :: l))).
    destruct (merge_step_ok h O x l L start) as (h1&Hrun&HO1&Hl1&HL1&HoO1&Hol&Hle1&Hf1); try done.
    { by eapply proper_perm. }
    { intros y z Hy Hz. apply Hle; [done|]. rewrite elem_of_app in *. tauto. }
    cbn [first]. rewrite (bind_ok _ _ _ _ _ Hrun).
    assert (O ++ L ++ x :: l ≡ₚ (O ++ [x]) ++ L ++ l) as Hcomm1.
    { rewrite <- app_assoc. f_equiv. symmetry. apply (Permutation_middle L l x). }
    destruct (IH h1 (O ++ [x]) L l (first 0 (O ++ [x]))) as (h'&l'&Hrun'&Hperm&Ho'&Hs'&Hf'); try done.
    + by eapply proper_perm.
    + by destruct O.
    + intros y z Hy Hz. apply Hle1; [done|]. rewrite elem_of_app in *. tauto.
    + cbn in Hf. lia.
    + rewrite last_snoc in Hrun'. exists h', l'. split; [done|]. split_and!; [by rewrite Hcomm1|done..|].
      intros y Hy. rewrite Hf', Hf1; [done| |]; rewrite !elem_of_app, ?elem_of_cons, ?elem_of_nil in *; tauto.
Qed.

Lemma sorts_short h l : seg D h 0 l 0 → (length l ≤ 1)%nat → sorts h h l l.
Proof.
  intros Hs Hl. split_and!; [done| |done|done].
  destruct l as [|x [|y l]]; [constructor|repeat constructor|cbn in Hl; lia].
Qed.

Lemma merge_sort_ok len fuel : ∀ h l msz,
  seg D h 0 l 0 → proper l → (length l ≤ fuel)%nat → (length l ≤ len)%nat →
  ∃ h' l', merge_sort fuel len (first 0 l) msz h = Ok (first 0 l', h') ∧ sorts h h' l l'.
Proof.
  induction fuel as [|fuel IH]; intros h l msz Hs Hp Hf Hlen.
  { destruct l; [|cbn in Hf; lia]. exists h, []. split; [done|]. by apply sorts_short; [|cbn; lia]. }
  cbn [merge_sort]. destruct l as [|x [|y l]].
  { exists h, []. split; [done|]. by apply sorts_short; [|cbn; lia]. }
  all: pose proof Hp as (Hx0&Hxl&Hpl)%proper_cons; cbn [first]; rewrite (proj2 (Z.eqb_neq x 0)) by done;
    pose proof Hs as [Hx _]; rewrite (get_addr_run _ _ _ _ Hx); cbn [addr first].
  { exists h, [x]. split; [done|]. by apply sorts_short; [|cbn; lia]. }
  apply proper_cons in Hpl as (Hy0&_). replace (XOR 0 y) with y by xor_eq.
  rewrite (proj2 (Z.eqb_neq y 0)) by done. set (l0 := x :: y :: l) in *. destruct (Z.eqb_spec msz 0) as [Hm|Hm].
  { by apply (insertion_sort_ok h l0 len). }
  assert (2 ≤ length l0)%nat as Hl2 by (cbn; lia).
  destruct (to_half_ok h l0 len Hs Hp) as (h1&A&B&HAB&HA&Hrun&HsA&HsB&Hf1); [lia|].
  change x with (first 0 l0). rewrite (bind_ok _ _ _ _ _ Hrun). set (msz' := if _ <=? _ then _ else _).
  assert (length l0 = length A + length B)%nat as Hsum by (by rewrite HAB, length_app).
  pose proof (Nat.div_mod (length l0) 2 ltac:(done)). pose proof (Nat.mod_upper_bound (length l0) 2 ltac:(done)).
  pose proof Hp as Hp'. rewrite HAB in Hp'. pose proof Hp' as (HpA&HpB&Hd)%proper_app.
  assert (first 0 l0 = first 0 A) as -> by (rewrite HAB; destruct A; [cbn in *; lia|done]).
  destruct (IH h1 A msz' HsA HpA) as (h2&A'&HrunA&HpermA&HoA&HsA'&HfA); [lia..|]. rewrite (bind_ok _ _ _ _ _ HrunA).
  assert (seg D h2 0 B 0) as HsB2.
  { eapply seg_frame; [|exact HsB]. intros z Hz. apply HfA. intros Hz'. by apply (Hd z). }
  destruct (IH h2 B msz' HsB2 HpB) as (h3&B'&HrunB&HpermB&HoB&HsB'&HfB); [lia..|]. rewrite (bind_ok _ _ _ _ _ HrunB).
  assert (A' ++ B' ≡ₚ A ++ B) as Hperm by (by rewrite HpermA, HpermB).
  destruct (merge_loop_ok len h3 [] A' B' (first 0 A)) as (h4&l'&Hrun4&Hperm4&Ho4&Hs4&Hf4); try done.
  - eapply seg_frame; [|exact HsA']. intros z Hz. apply HfB. rewrite HpermA in Hz. by apply Hd.
  - by eapply proper_perm; [symmetry|].
  - intros Heq. cbn in Heq. rewrite Heq in Hperm. apply Permutation_length in Hperm. rewrite length_app in Hperm. cbn in Hperm. lia.
  - constructor.
  - intros z w Hz. by apply not_elem_of_nil in Hz.
  - rewrite HpermA, HpermB. lia.
  - exists h4, l'. split; [done|]. cbn [app] in *. rewrite HAB. split_and!; [by rewrite Hperm4|done|done|].
    intros z Hz. rewrite Hf4 by (by rewrite Hperm). rewrite elem_of_app in Hz. rewrite HfB, HfA by tauto.
    apply Hf1. rewrite HAB, elem_of_app. tauto.
Qed.

(** *** Insertion, deletion and traversal *)

Lemma insert_node_ok h l x :
  seg D h 0 l 0 → proper (x :: l) →
  ∃ h', insert_node x (first 0 l) (D x) h = Ok (x, h') ∧ seg D h' 0 (x :: l) 0 ∧ ∀ y, y ∉ x :: l → h' !! y = h !! y.
Proof.
  intros Hs (Hx0&Hxl&Hp)%proper_cons. unfold insert_node. rewrite (proj2 (Z.eqb_neq x 0)) by done.
  rewrite (bind_ok _ _ _ _ _ (modify_run _ _)). destruct l as [|y l].
  - cbn [first Z.eqb]. rewrite (set_addr_run _ _ _ _ (mk_node (D x) 0)) by (by rewrite lookup_insert_eq).
    eexists. split; [done|]. split; [cbn; by rewrite lookup_insert_eq|].
    intros y Hy. rewrite !lookup_insert_ne; [done|..]; intros ->; apply Hy; by left.
  - cbn [first]. apply proper_cons in Hp as (Hy0&Hyl&_). rewrite (proj2 (Z.eqb_neq y 0)) by done. rewrite bind_assoc.
    destruct (seg_node _ _ _ _ y Hs) as [a Ha]; [by left|].
    assert (y ≠ x) as Hyx by (intros ->; apply Hxl; by left).
    rewrite (get_addr_run _ _ _ (mk_node (D y) a)) by (by rewrite lookup_insert_ne). cbn [addr].
    rewrite bind_assoc, (set_addr_run _ _ _ _ (mk_node (D y) a)) by (by rewrite lookup_insert_ne). cbn [data].
    rewrite (set_addr_run _ _ _ _ (mk_node (D x) 0)) by (by rewrite lookup_insert_ne, lookup_insert_eq). cbn [data].
    eexists. split; [done|]. split.
    + split; [rewrite lookup_insert_eq; cbn [first]; by replace (XOR 0 y) with y by xor_eq|].
      apply seg_insert; [done|]. eapply seg_refirst; [apply seg_insert; [exact Hxl|exact Hs]|done|by rewrite lookup_insert_ne|xor_eq].
    + intros z Hz. rewrite !elem_of_cons in Hz. rewrite !lookup_insert_ne; [done|..]; intros ->; tauto.
Qed.

Lemma delete_list_ok : ∀ l h fuel,
  seg D h 0 l 0 → proper l → (length l ≤ fuel)%nat →
  ∃ h', delete_list fuel (first 0 l) h = Ok (tt, h') ∧ (∀ x, x ∈ l → h' !! x = None) ∧ ∀ x, x ∉ l → h' !! x = h !! x.
Proof.
  induction l as [|x l IH]; intros h fuel Hs Hp Hf.
  { exists h. split_and!; [by destruct fuel| |done]. intros x Hx. by apply not_elem_of_nil in Hx. }
  destruct fuel as [|fuel]; [cbn in Hf; lia|]. cbn [delete_list first].
  apply proper_cons in Hp as (Hx0&Hxl&Hp). rewrite (proj2 (Z.eqb_neq x 0)) by done. destruct Hs as [Hx Hl].
  rewrite (get_addr_run _ _ _ _ Hx). cbn [addr]. replace (XOR 0 (first 0 l)) with (first 0 l) by xor_eq.
  set (h1 := match l with [] => h | y :: l => <[y := mk_node (D y) (first 0 l)]> h end).
  assert (∀ {X} (k : unit → M heap X), bind (if negb (first 0 l =? 0) then
      a ← get_addr (first 0 l); set_addr (first 0 l) (XOR a x) else ret tt) k h = k tt h1) as Hrun.
  { intros X k. destruct l as [|y l]; [done|]. apply proper_cons in Hp as (Hy0&_&_). cbn [first].
    rewrite (proj2 (Z.eqb_neq y 0)) by done. cbn [negb]. destruct Hl as [Hy _].
    rewrite bind_assoc, (get_addr_run _ _ _ _ Hy), (set_addr_run _ _ _ _ _ Hy). cbn [addr data].
    by replace (XOR (XOR x (first 0 l)) x) with (first 0 l) by xor_eq. }
  rewrite Hrun. assert (∀ y, y ∉ l → h1 !! y = h !! y) as Hf1.
  { intros y Hy. unfold h1. destruct l as [|z l]; [done|]. rewrite lookup_insert_ne; [done|]. intros ->. apply Hy. by left. }
  assert (seg D h1 0 l 0) as Hl1.
  { destruct l as [|y l]; [done|]. apply proper_cons in Hp as (_&Hy&_). destruct Hl as [_ Hl]. unfold h1. cbn [seg].
    rewrite lookup_insert_eq. split; [do 2 f_equal; xor_eq|]. by apply seg_insert. }
  unfold free, get_node. rewrite bind_assoc, (bind_ok _ _ _ _ _ (gets_some_ok _ _ _ (eq_trans (Hf1 x Hxl) Hx))).
  rewrite (bind_ok _ _ _ _ _ (modify_run _ _)).
  destruct (IH (delete x h1) fuel) as (h'&Hrun'&Hin&Hout); [|done|cbn in Hf; lia|].
  - eapply seg_frame; [|exact Hl1]. intros y Hy. rewrite lookup_delete_ne; [done|]. by intros ->.
  - exists h'. split_and!; [done| |].
    + intros y [->|Hy]%elem_of_cons; [|by apply Hin]. rewrite Hout by done. by rewrite lookup_delete_eq.
    + intros y Hy. rewrite elem_of_cons in Hy. rewrite Hout, lookup_delete_ne by (try intros ->; tauto). apply Hf1. tauto.
Qed.

Lemma traverse_ok h : ∀ l p fuel, seg D h p l 0 → proper l → (length l ≤ fuel)%nat →
  traverse fuel p (first 0 l) h = Ok (D <$> l, h).
Proof.
  induction l as [|x l IH]; intros p fuel Hs Hp Hf; [by destruct fuel|].
  destruct fuel as [|fuel]; [cbn in Hf; lia|]. cbn [traverse first].
  apply proper_cons in Hp as (Hx0&Hxl&Hp). rewrite (proj2 (Z.eqb_neq x 0)) by done. destruct Hs as [Hx Hl].
  unfold get_node. rewrite (bind_ok _ _ _ _ _ (gets_some_ok _ _ _ Hx)). cbn [addr data].
  replace (XOR (XOR p (first 0 l)) p) with (first 0 l) by xor_eq.
  rewrite (bind_ok _ _ _ _ _ (IH x fuel Hl Hp ltac:(cbn in Hf; lia))). done.
Qed.

Lemma check_loop_ok h : ∀ l p, seg D h p l 0 → proper l → check_loop (D <$> l) p (first 0 l) h = Ok (tt, h).
Proof.
  induction l as [|x l IH]; intros p Hs Hp; [done|]. cbn [check_loop fmap list_fmap first].
  apply proper_cons in Hp as (Hx0&Hxl&Hp). rewrite (proj2 (Z.eqb_neq x 0)) by done. destruct Hs as [Hx Hl].
  rewrite (get_data_run _ _ _ _ Hx). cbn [data]. rewrite Z.eqb_refl. cbn [negb].
  rewrite (get_addr_run _ _ _ _ Hx). cbn [addr]. replace (XOR (XOR p (first 0 l)) p) with (first 0 l) by xor_eq.
  by apply IH.
Qed.
End segments.

(** ** The whole program *)

Definition data_of (nodes : list (Z * Z)) (x : Z) : Z := default 0 (list_to_map (M := gmap Z Z) nodes !! x).

Lemma data_of_spec nodes x d : NoDup nodes.*1 → (x, d) ∈ nodes → data_of nodes x = d.
Proof. intros Hn Hx. unfold data_of. by rewrite (elem_of_list_to_map_1 (M := gmap Z) nodes x d Hn Hx). Qed.

Lemma data_of_fmap nodes : NoDup nodes.*1 → data_of nodes <$> nodes.*1 = nodes.*2.
Proof.
  intros Hn. rewrite <- list_fmap_compose. apply list_fmap_ext. intros i [x d] Hx. cbn.
  apply data_of_spec; [done|]. by eapply list_elem_of_lookup_2.
Qed.

Lemma create_list_ok D nodes : ∀ h l,
  seg D h 0 l 0 → proper (nodes.*1 ++ l) → (∀ x d, (x, d) ∈ nodes → D x = d) →
  ∃ h', create_list nodes (first 0 l) h = Ok (first 0 (reverse nodes.*1 ++ l), h') ∧
    seg D h' 0 (reverse nodes.*1 ++ l) 0 ∧ ∀ x, x ∉ nodes.*1 ++ l → h' !! x = h !! x.
Proof.
  induction nodes as [|[x d] nodes IH]; intros h l Hs Hp HD; [by exists h|].
  cbn [create_list fmap list_fmap fst app] in *. pose proof Hp as (Hx0&Hxl&Hp')%proper_cons.
  pose proof Hp' as (_&Hpl&_)%proper_app. rewrite elem_of_app in Hxl.
  destruct (insert_node_ok D h l x Hs) as (h1&Hrun&Hs1&Hf1); [apply proper_cons; tauto|].
  rewrite (HD x d) in Hrun by (by left). rewrite (bind_ok _ _ _ _ _ Hrun).
  destruct (IH h1 (x :: l) Hs1) as (h'&Hrun'&Hs'&Hf').
  - eapply proper_perm; [apply Permutation_middle|done].
  - intros y e Hy. apply HD. by right.
  - rewrite reverse_cons, <- app_assoc. exists h'. split_and!; [done|done|]. intros y Hy.
    rewrite elem_of_cons, elem_of_app in Hy. rewrite Hf', Hf1; [done|rewrite elem_of_cons; tauto|].
    rewrite elem_of_app, elem_of_cons. tauto.
Qed.

Lemma in_order_values D l : in_order D l → StronglySorted Z.le (D <$> l).
Proof.
  induction 1 as [|x l Hl IH Hx]; [constructor|]. constructor; [done|].
  apply Forall_fmap. eapply Forall_impl; [exact Hx|]. done.
Qed.

Lemma qsort_unique vs x : vs ≡ₚ x → StronglySorted Z.le vs → qsort x = vs.
Proof.
  intros Hp Hs. unfold qsort. apply (StronglySorted_unique Z.le); [|done|by rewrite merge_sort_Permutation].
  apply StronglySorted_merge_sort; [intros ???; lia|intros a b; lia].
Qed.

(** Building, sorting, reading and deleting a list. *)
Lemma sort_round_ok (nodes : list (Z * Z)) (min_split_size : Z) (h : heap) :
  NoDup nodes.*1 → 0 ∉ nodes.*1 → (∀ x, x ∈ nodes.*1 → h !! x = None) →
  let n := length nodes in
  (∃ l h' vs, bind (create_list nodes 0) (λ l, merge_sort n n l min_split_size) h = Ok (l, h') ∧
    traverse n 0 l h' = Ok (vs, h') ∧ vs ≡ₚ nodes.*2 ∧ StronglySorted Z.le vs) ∧
  randomcheck nodes min_split_size h = if comparable nodes.*2 then Ok (tt, h) else Err Undefined.
Proof.
  intros Hn H0 Hfresh n. set (D := data_of nodes). assert (proper nodes.*1) as Hp by done.
  destruct (create_list_ok D nodes h []) as (h1&Hrun1&Hs1&Hf1); [done|by rewrite app_nil_r|intros; by apply data_of_spec|].
  rewrite !app_nil_r in *. cbn [first] in Hrun1. assert (reverse nodes.*1 ≡ₚ nodes.*1) as Hrev by apply reverse_Permutation.
  destruct (merge_sort_ok D n n h1 (reverse nodes.*1) min_split_size Hs1) as (h2&l&Hrun2&Hperm&Ho&Hs2&Hf2).
  { by eapply proper_perm. }
  1,2: by rewrite length_reverse, length_fmap.
  rewrite Hrev in Hperm. assert (length l = n) as Hlen by (by rewrite Hperm, length_fmap).
  assert (proper l) as Hpl by (by eapply proper_perm; [symmetry|]).
  destruct (delete_list_ok D l h2 n Hs2 Hpl) as (h3&Hrun3&Hin&Hout); [lia|].
  assert (h3 = h) as ->.
  { apply map_eq. intros x. destruct (decide (x ∈ l)) as [Hx|Hx].
    - rewrite Hin by done. symmetry. apply Hfresh. by rewrite <- Hperm.
    - rewrite Hout by done. rewrite Hperm in Hx. rewrite Hf2 by (by rewrite Hrev). by apply Hf1. }
  assert (D <$> l ≡ₚ nodes.*2) as Hvs by (by rewrite <- (data_of_fmap nodes Hn), Hperm).
  pose proof (in_order_values D l Ho) as Hsorted. split.
  - exists (first 0 l), h2, (D <$> l). rewrite (bind_ok _ _ _ _ _ Hrun1). split_and!; [done| |done|done].
    apply traverse_ok; [done|done|lia].
  - unfold randomcheck. fold n. rewrite (bind_ok _ _ _ _ _ Hrun1), (bind_ok _ _ _ _ _ Hrun2).
    unfold check_sorted. destruct (comparable nodes.*2); [|done].
    rewrite (qsort_unique _ _ Hvs Hsorted), (bind_ok _ _ _ _ _ (check_loop_ok D h2 l 0 Hs2 Hpl)). done.
Qed.

(** C19: (the life of a list in the test program) when the allocations return
    different addresses that are not NULL and not in use, building the list
    and sorting it with any split size runs without a fault; the values read
    from the result are a permutation of the values inserted, in ascending
    order.  The check of the program sorts them again with [qsort], whose
    comparison subtracts: when no difference of two values overflows an [int], it
    passes, and after the deletion every node of the list has been freed and
    nothing else in the heap has changed; otherwise it is undefined behaviour. *)
Theorem xor_sort_and_delete (nodes : list (Z * Z)) (min_split_size : Z) (h : heap) :
  NoDup nodes.*1 → 0 ∉ nodes.*1 → (∀ x, x ∈ nodes.*1 → h !! x = None) →
  let n := length nodes in
  (∃ l h' vs, bind (create_list nodes 0) (λ l, merge_sort n n l min_split_size) h = Ok (l, h') ∧
    traverse n 0 l h' = Ok (vs, h') ∧ vs ≡ₚ nodes.*2 ∧ StronglySorted Z.le vs) ∧
  randomcheck nodes min_split_size h = if comparable nodes.*2 then Ok (tt, h) else Err Undefined.
Proof. apply sort_round_ok. Qed.

(** When nothing overflows, the comparison orders the values as integers. *)
Lemma cmp_order a b d : cmp a b = Some d → (d < 0 ↔ a < b) ∧ (d = 0 ↔ a = b).
Proof. unfold cmp. destruct (i32 (a - b) =? a - b); [|done]. intros [= <-]. lia. Qed.

Definition sample_nodes : list (Z * Z) := [(8, 7); (3, -2); (12, 1); (5, 3); (9, 4); (6, 6); (20, 1)].

Definition far_nodes : list (Z * Z) := [(8, 2 ^ 31 - 1); (3, -2)].

Lemma xor_sort_and_delete_witness :
  randomcheck sample_nodes 1 ∅ = Ok (tt, ∅) ∧ randomcheck far_nodes 1 ∅ = Err Undefined.
Proof.
  split.
  - refine (proj2 (xor_sort_and_delete sample_nodes 1 ∅ _ _ _)); [| |done]; by apply (bool_decide_unpack _); vm_compute.
  - refine (proj2 (xor_sort_and_delete far_nodes 1 ∅ _ _ _)); [| |done]; by apply (bool_decide_unpack _); vm_compute.
Defined.
