(* ===== verification/XorTests.v ===== *)
(** * The test program of xor-linkedlist

    [check], [randomcheck], [ramping] and [main] of xor-linkedlist-unittest.c, over
    the list of XorList.  The program makes one list after the other: [address r j]
    is what [malloc] answers for the j-th node of the r-th list, and [rand k] the
    k-th random number.  The clock and what [ramping] computes from it have no
    effect on the lists and are not modelled. *)
From S2P Require Import Prelude XorList.
From Stdlib Require Import String.
From stdpp Require Import gmap list strings.
#[local] Open Scope Z_scope.
#[local] Open Scope c_scope.

Section program.
Context (address : nat → nat → Z) (rand : nat → Z).

Definition nodes_of (r : nat) (x : list Z) : list (Z * Z) := imap (λ j d, (address r j, d)) x.

(** A list of the values [x] is created, sorted with [__merge_sort(data, k)], checked
    and deleted; [check_sorted] leaves the array sorted. *)
Definition test_list (r : nat) (x : list Z) (k : Z) : M heap (list Z) :=
  let n := List.length x in
  data ← create_list (nodes_of r x) 0;
  data ← merge_sort n n data k;
  check_sorted data x ;;
  delete_list n data ;;
  ret (qsort x).

Definition check : M heap unit :=
  test_list 0 [1; 2; 3; 4; 5; 6; 7] 1 ;;
  test_list 1 [7; 6; 5; 4; 3; 2; 1] 1 ;;
  test_list 2 [7; 2; 1; 3; 4; 6; 5] 1 ;;
  ret tt.

(** [x[j] = (rand() % 10000) - 5000], from the k-th random number on. *)
Definition random_array (k num : nat) : list Z := (λ j, Z.rem (rand (k + j)%nat) 10000 - 5000) <$> seq 0 num.

(** [n] rounds, from list [r] and random number [k] on. *)
Fixpoint randomcheck_loop (n r k : nat) : M heap unit :=
  match n with
  | O => ret tt
  | S n =>
      let num := Z.to_nat (Z.rem (rand k) 1000 + 1) in
      test_list r (random_array (S k) num) 1 ;;
      randomcheck_loop n (S r) (S k + num)%nat
  end.
Definition randomcheck (r : nat) : M heap unit := randomcheck_loop 100 r 0.

Definition MAX_MERGE_SIZE : nat := 11.
Definition MAX_ARRAY_LENGTH : nat := Z.to_nat 65536.

(** [for (int j = 1; j < MAX_MERGE_SIZE; ++j)], in [n] rounds. *)
Fixpoint ramping_sizes (n : nat) (j : Z) (r : nat) (x : list Z) : M heap unit :=
  match n with
  | O => ret tt
  | S n => x ← test_list r x (Z.shiftl 1 j); ramping_sizes n (j + 1) (S r) x
  end.
Fixpoint ramping_loop (n r k : nat) : M heap unit :=
  match n with
  | O => ret tt
  | S n =>
      ramping_sizes (MAX_MERGE_SIZE - 1) 1 r (random_array k MAX_ARRAY_LENGTH) ;;
      ramping_loop n (r + (MAX_MERGE_SIZE - 1))%nat (k + MAX_ARRAY_LENGTH)%nat
  end.
Definition ramping : M heap unit := ramping_loop 5 0 0.

(** The result is the exit status. *)
Definition main (argv : list string) : M heap Z :=
  match argv with
  | [] => fail Undefined
  | [_] => ret 1
  | _ :: option :: _ =>
      if String.eqb option "check" then check ;; randomcheck 3 ;; ret 0
      else if String.eqb option "ramping" then ramping ;; ret 0
      else ret 1
  end.
End program.

(** ** The lists of the program *)

#[local] Opaque MAX_ARRAY_LENGTH.
Lemma max_array_length : Z.of_nat MAX_ARRAY_LENGTH = 65536.
Proof. exact (Z2Nat.id 65536 ltac:(done)). Qed.

Definition small (a : Z) : Prop := - 2 ^ 30 ≤ a < 2 ^ 30.

(** For numbers below 2^30 the comparison is that of integers. *)
Lemma cmp_small a b : small a → small b → cmp a b = Some (a - b).
Proof.
  unfold small, cmp, wraps. intros Ha Hb. rewrite (proj2 (Z.eqb_eq _ _)); [done|].
  rewrite Z.mod_small; lia.
Qed.

Lemma comparable_small x : Forall small x → comparable x = true.
Proof.
  intros Hx. pose proof (proj1 (Forall_forall _ _) Hx) as Hs. apply forallb_forall. intros a Ha%list_elem_of_In.
  apply forallb_forall. intros b Hb%list_elem_of_In. rewrite cmp_small by auto. by apply bool_decide_eq_true.
Qed.

Section runs.
Context (address : nat → nat → Z) (rand : nat → Z) (h : heap).

(** What [malloc] answers: addresses of no object, different ones for the nodes of a list. *)
Hypothesis fresh : ∀ r j, address r j ≠ 0 ∧ h !! address r j = None.
Hypothesis distinct : ∀ r i j, (i < MAX_ARRAY_LENGTH)%nat → (j < MAX_ARRAY_LENGTH)%nat → address r i = address r j → i = j.
Hypothesis rand_nonneg : ∀ k, 0 ≤ rand k.

Lemma nodes_values r x : (nodes_of address r x).*2 = x.
Proof using. unfold nodes_of. rewrite fmap_imap. apply list_eq. intros i. rewrite list_lookup_imap. by destruct (x !! i). Qed.

Lemma nodes_addresses r x : (nodes_of address r x).*1 = address r <$> seq 0 (List.length x).
Proof using.
  unfold nodes_of. rewrite fmap_imap. apply list_eq. intros i. rewrite list_lookup_imap, list_lookup_fmap.
  destruct (decide (i < List.length x)%nat) as [Hi|Hi].
  - rewrite lookup_seq_lt by done. by destruct (lookup_lt_is_Some_2 x i Hi) as [d ->].
  - by rewrite (lookup_ge_None_2 x), lookup_seq_ge by lia.
Qed.

(** A list of at most 65536 small values passes, and leaves the heap as it was. *)
Lemma test_list_ok r x k : (List.length x ≤ MAX_ARRAY_LENGTH)%nat → Forall small x → test_list address r x k h = Ok (qsort x, h).
Proof using fresh distinct.
  intros Hlen Hx. destruct (sort_round_ok (nodes_of address r x) k h) as [_ Hrun].
  - rewrite nodes_addresses. apply NoDup_fmap_2_strong; [|apply NoDup_seq]. intros i j Hi%elem_of_seq Hj%elem_of_seq.
    apply distinct; lia.
  - rewrite nodes_addresses. intros (j&Hj&_)%list_elem_of_fmap. by destruct (fresh r j).
  - rewrite nodes_addresses. intros a (j&->&_)%list_elem_of_fmap. apply fresh.
  - unfold test_list, XorList.randomcheck in *. rewrite nodes_values, (comparable_small _ Hx) in Hrun.
    replace (List.length (nodes_of address r x)) with (List.length x) in Hrun by (unfold nodes_of; by rewrite length_imap).
    apply bind_inv in Hrun as (l&h1&H1&Hrun). apply bind_inv in Hrun as (l'&h2&H2&Hrun).
    apply bind_inv in Hrun as (u&h3&H3&H4).
    rewrite (bind_ok _ _ _ _ _ H1), (bind_ok _ _ _ _ _ H2), (bind_ok _ _ _ _ _ H3), (bind_ok _ _ _ _ _ H4).
    reflexivity.
Qed.

Lemma random_array_small k num : Forall small (random_array rand k num) ∧ List.length (random_array rand k num) = num.
Proof using rand_nonneg.
  unfold random_array. split; [|by rewrite length_fmap, length_seq].
  apply Forall_fmap, Forall_forall. intros j _. cbn. pose proof (Z.rem_bound_pos (rand (k + j)%nat) 10000 (rand_nonneg _) ltac:(lia)).
  unfold small. lia.
Qed.

Lemma check_ok : check address h = Ok (tt, h).
Proof using fresh distinct.
  assert (∀ r x, List.length x = 7%nat → Forall (λ d, 1 ≤ d ≤ 7) x → test_list address r x 1 h = Ok (qsort x, h)) as Hrun.
  { intros r x Hl Hx. apply test_list_ok; [pose proof max_array_length; lia|].
    eapply Forall_impl; [exact Hx|]. unfold small. lia. }
  unfold check.
  do 3 (erewrite (bind_ok _ _ _ _ _ (Hrun _ _ _ _))). reflexivity.
  Unshelve. all: first [done|repeat constructor; lia].
Qed.

Lemma randomcheck_ok n : ∀ r k, randomcheck_loop address rand n r k h = Ok (tt, h).
Proof using fresh distinct rand_nonneg.
  induction n as [|n IH]; intros r k; [done|]. cbn [randomcheck_loop]. set (num := Z.to_nat _).
  destruct (random_array_small (S k) num) as [Hs Hl].
  assert (num ≤ MAX_ARRAY_LENGTH)%nat as Hn.
  { pose proof (Z.rem_bound_pos (rand k) 1000 (rand_nonneg _) ltac:(lia)). pose proof max_array_length. unfold num. lia. }
  rewrite (bind_ok _ _ _ _ _ (test_list_ok r _ 1 ltac:(rewrite Hl; lia) Hs)). apply IH.
Qed.

Lemma qsort_perm x : qsort x ≡ₚ x.
Proof using. apply sorting.merge_sort_Permutation. Qed.

Lemma ramping_sizes_ok n : ∀ j r x, (List.length x ≤ MAX_ARRAY_LENGTH)%nat → Forall small x →
  ramping_sizes address n j r x h = Ok (tt, h).
Proof using fresh distinct.
  induction n as [|n IH]; intros j r x Hl Hs; [done|]. cbn [ramping_sizes].
  rewrite (bind_ok _ _ _ _ _ (test_list_ok r x _ Hl Hs)). apply IH; by rewrite qsort_perm.
Qed.

Lemma ramping_ok n : ∀ r k, ramping_loop address rand n r k h = Ok (tt, h).
Proof using fresh distinct rand_nonneg.
  induction n as [|n IH]; intros r k; [done|]. cbn [ramping_loop].
  destruct (random_array_small k MAX_ARRAY_LENGTH) as [Hs Hl].
  rewrite (bind_ok _ _ _ _ _ (ramping_sizes_ok _ 1 r _ ltac:(rewrite Hl; lia) Hs)). apply IH.
Qed.

(** (the test program) with either of its options the program returns 0: for all
    random numbers and addresses, every one of its lists is sorted and checked
    without a fault, also those of 65536 nodes, and the heap is left as it was; every
    other option is refused with 1. *)
Theorem xor_program_passes (name option : string) (rest : list string) :
  main address rand (name :: option :: rest) h =
    Ok (if String.eqb option "check" || String.eqb option "ramping" then 0 else 1, h).
Proof using fresh distinct rand_nonneg.
  unfold main. destruct (String.eqb option "check"); cbn [orb].
  - rewrite (bind_ok _ _ _ _ _ check_ok). unfold randomcheck. by rewrite (bind_ok _ _ _ _ _ (randomcheck_ok _ _ _)).
  - destruct (String.eqb option "ramping"); [|done]. unfold ramping. by rewrite (bind_ok _ _ _ _ _ (ramping_ok _ _ _)).
Qed.
End runs.

(** Addresses of 16 bytes each from 4096 on, and every random number the same. *)
Lemma xor_program_passes_witness :
  main (λ _ j, 4096 + 16 * Z.of_nat j) (λ _, 4711) ["test"%string; "ramping"%string] ∅ = Ok (0, ∅).
Proof.
  apply (xor_program_passes (λ _ j, 4096 + 16 * Z.of_nat j) (λ _, 4711) ∅); [|lia|lia].
  intros r j. split; [lia|done].
Defined.
