(* ===== verification/SwapPairs.v ===== *)
(** * The singly linked list of swap-pairs/link-list.c

    The program works on the links themselves: a [node_t **] is the head
    variable or the [next] field of a node, the type [ref] below.  Nodes live in
    a heap, [malloc] is an argument, and the loops get the number of nodes as
    fuel.  The operations are proved to implement those of a list of values,
    and the shuffle to reach every permutation by exactly one sequence of
    choices. *)
From S2P Require Import Prelude.
From stdpp Require Import gmap list.
#[local] Open Scope Z_scope.
#[local] Open Scope c_scope.

Definition INT_MAX : Z := 2 ^ 31 - 1.

Record node_t := mk_node { value : Z; next : Z }.
Record store := mk_store { head : Z; nodes : gmap Z node_t }.

(** What a [node_t **] points to. *)
Inductive ref := Head | Next (n : Z).

Definition deref (r : ref) : M store Z :=
  match r with
  | Head => gets head
  | Next n => nd ← gets_some (λ s, nodes s !! n); ret (next nd)
  end.

Definition assign (r : ref) (v : Z) : M store unit :=
  match r with
  | Head => modify (λ s, mk_store v (nodes s))
  | Next n =>
      nd ← gets_some (λ s, nodes s !! n);
      modify (λ s, mk_store (head s) (<[n := mk_node (value nd) v]> (nodes s)))
  end.

Definition get_value (n : Z) : M store Z := nd ← gets_some (λ s, nodes s !! n); ret (value nd).

(** Enough for every loop over the list. *)
Definition fuel_of (s : store) : nat := S (size (nodes s)).

Section program.
Context (malloc : gmap Z node_t → Z).

(** [while ( *indirect) indirect = &( *indirect)->next;] *)
Fixpoint find_end (fuel : nat) (indirect : ref) : M store ref :=
  n ← deref indirect;
  if n =? 0 then ret indirect
  else match fuel with
  | O => fail Exhausted
  | S fuel => find_end fuel (Next n)
  end.

Definition add_entry (new_value : Z) : M store unit :=
  new_node ← gets (λ s, malloc (nodes s));
  massert (negb (new_node =? 0)) ;;
  modify (λ s, mk_store (head s) (<[new_node := mk_node new_value 0]> (nodes s))) ;;
  fuel ← gets fuel_of;
  indirect ← find_end fuel Head;
  assign indirect new_node.

Fixpoint find_loop (fuel : nat) (current val : Z) : M store Z :=
  if current =? 0 then ret current
  else
    v ← get_value current;
    if v =? val then ret current
    else match fuel with
    | O => fail Exhausted
    | S fuel => n ← deref (Next current); find_loop fuel n val
    end.

Definition find_entry (head : Z) (val : Z) : M store Z :=
  fuel ← gets fuel_of;
  find_loop fuel head val.

(** [while (( *indirect) != entry) indirect = &( *indirect)->next;] *)
Fixpoint find_link (fuel : nat) (indirect : ref) (entry : Z) : M store ref :=
  n ← deref indirect;
  if n =? entry then ret indirect
  else match fuel with
  | O => fail Exhausted
  | S fuel => find_link fuel (Next n) entry
  end.

Definition free (n : Z) : M store unit :=
  gets_some (λ s, nodes s !! n) ;;
  modify (λ s, mk_store (head s) (delete n (nodes s))).

Definition remove_entry (entry : Z) : M store unit :=
  fuel ← gets fuel_of;
  indirect ← find_link fuel Head entry;
  n ← deref (Next entry);
  assign indirect n ;;
  free entry.

Fixpoint swap_loop (fuel : nat) (node : ref) : M store unit :=
  n ← deref node;
  if n =? 0 then ret tt
  else
    n' ← deref (Next n);
    if n' =? 0 then ret tt
    else match fuel with
    | O => fail Exhausted
    | S fuel =>
        tmp ← deref node;
        c ← deref node; x ← deref (Next c); assign node x ;;
        c ← deref node; x ← deref (Next c); assign (Next tmp) x ;;
        c ← deref node; assign (Next c) tmp ;;
        c ← deref node; x ← deref (Next c); swap_loop fuel (Next x)
    end.

Definition swap_pair : M store unit :=
  fuel ← gets fuel_of;
  swap_loop fuel Head.

Fixpoint rev_recursive (fuel : nat) (cur : Z) : M store Z :=
  if cur =? 0 then ret cur
  else
    n ← deref (Next cur);
    if n =? 0 then ret cur
    else match fuel with
    | O => fail Exhausted
    | S fuel =>
        n ← deref (Next cur);
        head ← rev_recursive fuel n;
        n ← deref (Next cur);
        assign (Next n) cur ;;
        assign (Next cur) 0 ;;
        ret head
    end.

Definition reverse_list : M store unit :=
  fuel ← gets fuel_of;
  h ← deref Head;
  h ← rev_recursive fuel h;
  assign Head h.

(** Counts in an [int]. *)
Fixpoint count (fuel : nat) (cur len : Z) : M store Z :=
  if cur =? 0 then ret len
  else match fuel with
  | O => fail Exhausted
  | S fuel =>
      if len =? INT_MAX then fail Undefined
      else n ← deref (Next cur); count fuel n (len + 1)
  end.

Fixpoint walk (k : nat) (target : ref) : M store ref :=
  match k with
  | O => ret target
  | S k => n ← deref target; walk k (Next n)
  end.

(** The nodes that [target] and [cur] point to are exchanged. *)
Definition swap_links (target cur : ref) : M store unit :=
  tmp ← deref target;
  c ← deref cur; assign target c ;;
  assign cur tmp ;;
  t ← deref target; tmp ← deref (Next t);
  c ← deref cur; x ← deref (Next c); t ← deref target; assign (Next t) x ;;
  c ← deref cur; assign (Next c) tmp.

(** [rand i] is what [rand] returns in the round [i]. *)
Fixpoint shuffle_loop (i : nat) (rand : nat → Z) (cur : ref) : M store unit :=
  match i with
  | O => ret tt
  | S i' =>
      let j := Z.rem (rand i) (Z.of_nat i + 1) in
      target ← walk (Z.to_nat j) cur;
      swap_links target cur ;;
      c ← deref cur; shuffle_loop i' rand (Next c)
  end.

Definition fisher_yates_shuffle (rand : nat → Z) : M store unit :=
  fuel ← gets fuel_of;
  h ← deref Head;
  len ← count fuel h 0;
  shuffle_loop (Z.to_nat (len - 1)) rand Head.

(** The values that are printed. *)
Fixpoint print_loop (fuel : nat) (current : Z) : M store (list Z) :=
  if current =? 0 then ret []
  else match fuel with
  | O => fail Exhausted
  | S fuel =>
      v ← get_value current;
      n ← deref (Next current);
      vs ← print_loop fuel n;
      ret (v :: vs)
  end.

Definition print_list : M store (list Z) :=
  fuel ← gets fuel_of;
  h ← deref Head;
  print_loop fuel h.

(** The statements that [main] is made of, and the lines they print. *)
Inductive stmt :=
| Add (v : Z)
| FindRemove (v : Z)
| Swap
| Reverse
| Shuffle (rand : nat → Z)
| Print_list.

Definition exec (c : stmt) : M store (list (list Z)) :=
  match c with
  | Add v => add_entry v ;; ret []
  | FindRemove v => h ← deref Head; entry ← find_entry h v; remove_entry entry ;; ret []
  | Swap => swap_pair ;; ret []
  | Reverse => reverse_list ;; ret []
  | Shuffle rand => fisher_yates_shuffle rand ;; ret []
  | Print_list => vs ← print_list; ret [vs]
  end.

Fixpoint run (p : list stmt) : M store (list (list Z)) :=
  match p with
  | [] => ret []
  | c :: p => o ← exec c; os ← run p; ret (o ++ os)
  end.
End program.

Definition main (rand : nat → Z) : list stmt :=
  [Print_list; Add 72; Add 101; Add 108; Add 109; Add 110; Add 111; Print_list;
   FindRemove 101; FindRemove 111; Print_list; Swap; Print_list; Reverse; Print_list;
   Add 1; Add 2; Add 3; Add 4; Add 5; Add 6; Print_list; Shuffle rand; Print_list].

(** ** The operations on lists of values *)

Fixpoint swap_pairs {A} (l : list A) : list A :=
  match l with
  | x :: y :: l => y :: x :: swap_pairs l
  | l => l
  end.

Fixpoint remove_first (v : Z) (l : list Z) : option (list Z) :=
  match l with
  | [] => None
  | x :: l => if x =? v then Some l else (x ::.) <$> remove_first v l
  end.

(** The element at [j] is exchanged with the first. *)
Definition to_front {A} (j : nat) (l : list A) : list A :=
  match j, l with
  | S k, x :: l => match l !! k with Some y => y :: <[k := x]> l | None => x :: l end
  | _, _ => l
  end.

Fixpoint shuffle {A} (i : nat) (rand : nat → Z) (l : list A) : list A :=
  match i with
  | O => l
  | S i' =>
      match to_front (Z.to_nat (rand i `rem` (Z.of_nat i + 1))) l with
      | [] => []
      | x :: l => x :: shuffle i' rand l
      end
  end.

(** [None] is a run into undefined behaviour. *)
Definition exec_list (c : stmt) (l : list Z) : option (list (list Z) * list Z) :=
  match c with
  | Add v => Some ([], l ++ [v])
  | FindRemove v => (λ l, ([], l)) <$> remove_first v l
  | Swap => Some ([], swap_pairs l)
  | Reverse => Some ([], reverse l)
  | Shuffle rand => if Z.of_nat (length l) <=? INT_MAX then Some ([], shuffle (length l - 1) rand l) else None
  | Print_list => Some ([l], l)
  end.

Fixpoint run_list (p : list stmt) (l : list Z) : option (list (list Z) * list Z) :=
  match p with
  | [] => Some ([], l)
  | c :: p =>
      match exec_list c l with
      | None => None
      | Some (o, l) => match run_list p l with None => None | Some (os, l) => Some (o ++ os, l) end
      end
  end.

(** ** Paths *)

Section paths.
Context (D : Z → Z).
Implicit Types (h : gmap Z node_t) (s : store) (l pre post : list Z) (q : Z).

(** The nodes [l], the last of which points to [q]. *)
Fixpoint chain h l q : Prop :=
  match l with
  | [] => True
  | x :: l => h !! x = Some (mk_node (D x) (first q l)) ∧ chain h l q
  end.

(** The same from the head variable. *)
Definition path s l q : Prop := head s = first q l ∧ chain (nodes s) l q.

(** The link behind the nodes [pre]. *)
Fixpoint end_ref (pre : list Z) : ref :=
  match pre with [] => Head | [x] => Next x | _ :: pre => end_ref pre end.

Lemma end_ref_snoc pre x : end_ref (pre ++ [x]) = Next x.
Proof. clear D. induction pre as [|y pre IH]; [done|]. cbn. rewrite IH. by destruct pre. Qed.

Lemma chain_snoc_app h l1 l2 q : chain h (l1 ++ l2) q ↔ chain h l1 (first q l2) ∧ chain h l2 q.
Proof. induction l1 as [|x l1 IH]; [simpl; tauto|]. cbn [app chain]. rewrite IH, first_app. tauto. Qed.

Lemma path_app s pre post q : path s (pre ++ post) q ↔ path s pre (first q post) ∧ chain (nodes s) post q.
Proof. unfold path. rewrite first_app, chain_snoc_app. tauto. Qed.

Lemma chain_frame h h' l q : (∀ x, x ∈ l → h' !! x = h !! x) → chain h l q → chain h' l q.
Proof.
  induction l as [|x l IH]; intros Hf; [done|]. intros [Hx Hl]. split.
  - rewrite Hf by (by left). done.
  - apply IH; [|done]. intros y Hy. apply Hf. by right.
Qed.

Lemma chain_insert h l q x nd : x ∉ l → chain h l q → chain (<[x := nd]> h) l q.
Proof. intros Hx. apply chain_frame. intros y Hy. rewrite lookup_insert_ne; [done|]. by intros ->. Qed.

Lemma path_heap s h l q : (∀ x, x ∈ l → h !! x = nodes s !! x) → path s l q → path (mk_store (head s) h) l q.
Proof. intros Hf [H1 H2]. split; [done|]. by eapply chain_frame. Qed.

Lemma deref_next s x nd {B} (k : Z → M store B) : nodes s !! x = Some nd → bind (deref (Next x)) k s = k (next nd) s.
Proof. intros Hx. unfold deref, bind, gets_some. by rewrite Hx. Qed.

Lemma get_value_run s x nd {B} (k : Z → M store B) : nodes s !! x = Some nd → bind (get_value x) k s = k (value nd) s.
Proof. intros Hx. unfold get_value, bind, gets_some. by rewrite Hx. Qed.

Definition set_next s x v : store := mk_store (head s) (<[x := mk_node (D x) v]> (nodes s)).

Lemma assign_next s x v v' {B} (k : unit → M store B) :
  nodes s !! x = Some (mk_node (D x) v') → bind (assign (Next x) v) k s = k tt (set_next s x v).
Proof. intros Hx. unfold assign, bind, gets_some. by rewrite Hx. Qed.

Lemma deref_end s pre q {B} (k : Z → M store B) : path s pre q → bind (deref (end_ref pre)) k s = k q s.
Proof.
  intros [Hh Hc]. destruct (exists_last_or_nil pre) as [->|(l&x&->)]; [cbn in *; by rewrite <- Hh|].
  rewrite end_ref_snoc. apply chain_snoc_app in Hc as [_ [Hx _]]. cbn in Hx. by rewrite (deref_next _ _ _ _ Hx).
Qed.

(** The store after an assignment to that link. *)
Definition relink s pre q : store :=
  match end_ref pre with
  | Head => mk_store q (nodes s)
  | Next x => set_next s x q
  end.

Lemma relink_path s pre q q' : NoDup pre → path s pre q → path (relink s pre q') pre q'.
Proof.
  unfold relink. destruct (exists_last_or_nil pre) as [->|(l&x&->)]; [by split|].
  rewrite end_ref_snoc. intros (Hl&Hx&_)%NoDup_app [Hh Hc]. apply chain_snoc_app in Hc as [Hc _]. cbn in Hc.
  assert (x ∉ l) as Hxl by (intros H; apply (Hx x H); by left). split; cbn.
  - rewrite Hh, !first_app. done.
  - apply chain_snoc_app. cbn. rewrite lookup_insert_eq. by split_and!; [apply chain_insert| |].
Qed.

Lemma relink_nodes s pre q x : x ∉ pre → nodes (relink s pre q) !! x = nodes s !! x.
Proof.
  unfold relink. destruct (exists_last_or_nil pre) as [->|(l&y&->)]; [done|]. rewrite end_ref_snoc. intros Hx. cbn.
  rewrite lookup_insert_ne; [done|]. intros ->. apply Hx. set_solver.
Qed.

Lemma relink_chain s pre q l q' : (∀ x, x ∈ l → x ∉ pre) → chain (nodes s) l q' → chain (nodes (relink s pre q)) l q'.
Proof. intros Hd. apply chain_frame. intros x Hx. apply relink_nodes. by apply Hd. Qed.

Lemma relink_size s pre q q0 : path s pre q0 → size (nodes (relink s pre q)) = size (nodes s).
Proof.
  intros [_ Hc]. unfold relink. destruct (exists_last_or_nil pre) as [->|(l&x&->)]; [done|].
  rewrite end_ref_snoc. apply chain_snoc_app in Hc as [_ [Hx _]]. cbn. by rewrite map_size_insert_Some by (by eexists).
Qed.

Lemma assign_end s pre q q' {B} (k : unit → M store B) : path s pre q → bind (assign (end_ref pre) q') k s = k tt (relink s pre q').
Proof.
  intros [Hh Hc]. unfold relink. destruct (exists_last_or_nil pre) as [->|(l&x&->)]; [done|].
  rewrite end_ref_snoc. apply chain_snoc_app in Hc as [_ [Hx _]]. by apply (assign_next _ _ _ (first q [])).
Qed.

(** The store holds the list [l]: these are all of its nodes. *)
Definition holds s l : Prop := path s l 0 ∧ proper l ∧ dom (nodes s) = list_to_set l.

Lemma holds_fuel s l : holds s l → fuel_of s = S (length l).
Proof.
  intros (_&[Hn _]&Hd). unfold fuel_of. f_equal. rewrite <- size_dom, Hd. by apply size_list_to_set.
Qed.

Lemma holds_null s l : holds s l → nodes s !! 0 = None.
Proof. intros (_&[_ H0]&Hd). apply not_elem_of_dom. rewrite Hd. set_solver. Qed.

(** *** Searching *)

Lemma find_end_ok fuel : ∀ s pre post, path s (pre ++ post) 0 → proper post → (length post ≤ fuel)%nat →
  find_end fuel (end_ref pre) s = Ok (end_ref (pre ++ post), s).
Proof.
  induction fuel as [|fuel IH]; intros s pre post Hp Hpr Hf; pose proof Hp as [Hp1 _]%path_app; cbn [find_end];
    rewrite (deref_end _ _ _ _ Hp1); (destruct post as [|x post]; [by rewrite app_nil_r|]); [cbn in Hf; lia|].
  apply proper_cons in Hpr as (Hx0&_&Hpr). cbn [first]. rewrite (proj2 (Z.eqb_neq x 0)) by done.
  rewrite <- (end_ref_snoc pre), (IH _ _ post); rewrite <- ?app_assoc; [done|done|done|cbn in Hf; lia].
Qed.

Lemma find_link_ok fuel : ∀ s pre post entry rest, path s (pre ++ post ++ rest) 0 → entry ∉ post →
  first 0 rest = entry → (length post ≤ fuel)%nat → find_link fuel (end_ref pre) entry s = Ok (end_ref (pre ++ post), s).
Proof.
  induction fuel as [|fuel IH]; intros s pre post entry rest Hp Hpr He Hf; pose proof Hp as [Hp1 _]%path_app; cbn [find_link];
    rewrite (deref_end _ _ _ _ Hp1); (destruct post as [|x post];
      [rewrite app_nil_r; cbn [app]; by rewrite He, Z.eqb_refl|]); [cbn in Hf; lia|].
  cbn [app first]. rewrite elem_of_cons in Hpr. rewrite (proj2 (Z.eqb_neq x entry)) by (intros ->; tauto).
  rewrite <- (end_ref_snoc pre), (IH _ _ post entry rest); rewrite <- ?app_assoc; [done|done|tauto|done|cbn in Hf; lia].
Qed.

(** The nodes from the first one with the value [v] on. *)
Fixpoint from_value (v : Z) (l : list Z) : list Z :=
  match l with [] => [] | x :: l' => if D x =? v then l else from_value v l' end.

Lemma find_loop_ok v : ∀ l fuel s, chain (nodes s) l 0 → proper l → (length l ≤ fuel)%nat →
  find_loop fuel (first 0 l) v s = Ok (first 0 (from_value v l), s).
Proof.
  induction l as [|x l IH]; intros fuel s Hc Hp Hf; [by destruct fuel|]. cbn in Hc. destruct Hc as [Hx Hc].
  apply proper_cons in Hp as (Hx0&_&Hp). destruct fuel as [|fuel]; [cbn in Hf; lia|]. cbn [find_loop first from_value].
  rewrite (proj2 (Z.eqb_neq x 0)), (get_value_run _ _ _ _ Hx) by done. cbn [value].
  destruct (D x =? v); [done|]. rewrite (deref_next _ _ _ _ Hx). apply IH; [done|done|cbn in Hf; lia].
Qed.

Lemma from_value_split v l : ∃ pre, l = pre ++ from_value v l ∧ (∀ x, x ∈ pre → D x ≠ v) ∧
  match from_value v l with [] => True | x :: _ => D x = v end.
Proof.
  induction l as [|x l (pre&IH1&IH2&IH3)]; [exists []; split_and!; [done|intros x Hx; by apply not_elem_of_nil in Hx|done]|].
  cbn [from_value]. destruct (Z.eqb_spec (D x) v).
  - exists []. split_and!; [done|intros y Hy; by apply not_elem_of_nil in Hy|done].
  - exists (x :: pre). split_and!; [cbn; by f_equal| |done]. intros y [->|Hy]%elem_of_cons; auto.
Qed.

Lemma remove_first_app v l1 l2 : v ∉ l1 → remove_first v (l1 ++ l2) = (l1 ++.) <$> remove_first v l2.
Proof. clear D.
  induction l1 as [|x l1 IH]; intros Hv; [cbn; by destruct (remove_first v l2)|].
  rewrite elem_of_cons in Hv. cbn. rewrite (proj2 (Z.eqb_neq x v)), IH by (try intros ->; tauto).
  by destruct (remove_first v l2).
Qed.

(** *** Printing *)

Lemma print_loop_ok : ∀ l fuel s, chain (nodes s) l 0 → proper l → (length l ≤ fuel)%nat →
  print_loop fuel (first 0 l) s = Ok (D <$> l, s).
Proof.
  induction l as [|x l IH]; intros fuel s Hc Hp Hf; [by destruct fuel|]. cbn in Hc. destruct Hc as [Hx Hc].
  apply proper_cons in Hp as (Hx0&_&Hp). destruct fuel as [|fuel]; [cbn in Hf; lia|]. cbn [print_loop first].
  rewrite (proj2 (Z.eqb_neq x 0)), (get_value_run _ _ _ _ Hx), (deref_next _ _ _ _ Hx) by done. cbn [value next].
  by rewrite (bind_ok _ _ _ _ _ (IH fuel _ Hc Hp ltac:(cbn in Hf; lia))).
Qed.

(** *** Swapping pairs *)

Lemma set_next_path s l q x v : x ∉ l → path s l q → path (set_next s x v) l q.
Proof. intros Hx. apply path_heap. intros y Hy. rewrite lookup_insert_ne; [done|]. by intros ->. Qed.

Lemma set_next_dom s x v v' : nodes s !! x = Some (mk_node (D x) v') → dom (nodes (set_next s x v)) = dom (nodes s).
Proof. intros Hx. cbn. rewrite dom_insert_L. apply elem_of_dom_2 in Hx. set_solver. Qed.

Lemma relink_dom s pre q q' : path s pre q → dom (nodes (relink s pre q')) = dom (nodes s).
Proof.
  intros [_ Hc]. unfold relink. destruct (exists_last_or_nil pre) as [->|(l&x&->)]; [done|]. rewrite end_ref_snoc.
  apply chain_snoc_app in Hc as [_ [Hx _]]. by eapply set_next_dom.
Qed.

Lemma swap_loop_ok fuel : ∀ s pre post, path s (pre ++ post) 0 → proper (pre ++ post) → (length post ≤ fuel)%nat →
  ∃ s', swap_loop fuel (end_ref pre) s = Ok (tt, s') ∧ path s' (pre ++ swap_pairs post) 0 ∧ dom (nodes s') = dom (nodes s).
Proof.
  induction fuel as [|fuel IH]; intros s pre post Hp Hpr Hf; pose proof Hp as [Hp1 Hc]%path_app; cbn [swap_loop];
    rewrite (deref_end _ _ _ _ Hp1); (destruct post as [|x [|y post]]; [by exists s| |]); [cbn in Hf; lia..| |];
    pose proof Hpr as (Hnd&(Hx0&Hxp&Hpr2)%proper_cons&Hd)%proper_app; cbn [first]; rewrite (proj2 (Z.eqb_neq x 0)) by done;
    destruct Hc as [Hx Hc]; rewrite (deref_next _ _ _ _ Hx); cbn [first next]; [by exists s|].
  apply proper_cons in Hpr2 as (Hy0&Hyp&_). rewrite (proj2 (Z.eqb_neq y 0)) by done. destruct Hc as [Hy Hc].
  assert (x ∉ pre ∧ y ∉ pre ∧ ∀ z, z ∈ post → z ∉ pre) as (Hx'&Hy'&Hpost).
  { split_and!; [intros H; apply (Hd x H); by left|intros H; apply (Hd y H); right; by left|].
    intros z Hz H. apply (Hd z H). right. by right. }
  assert (x ≠ y ∧ x ∉ post) as [Hxy Hxpost] by (rewrite elem_of_cons in Hxp; tauto).
  rewrite (deref_end _ _ _ _ Hp1), (deref_end _ _ _ _ Hp1). cbn [first]. rewrite (deref_next _ _ _ _ Hx). cbn [first next].
  rewrite (assign_end _ _ _ _ _ Hp1). set (s1 := relink s pre y).
  assert (path s1 pre y) as Hp2 by (eapply relink_path; [apply Hnd|exact Hp1]).
  assert (nodes s1 !! x = Some (mk_node (D x) y)) as Hx1 by (unfold s1; by rewrite relink_nodes).
  assert (nodes s1 !! y = Some (mk_node (D y) (first 0 post))) as Hy1 by (unfold s1; by rewrite relink_nodes).
  rewrite (deref_end _ _ _ _ Hp2), (deref_next _ _ _ _ Hy1), (assign_next _ _ _ _ _ Hx1). cbn [next]. set (s2 := set_next _ _ _).
  assert (path s2 pre y) as Hp3 by (by apply set_next_path).
  assert (nodes s2 !! y = Some (mk_node (D y) (first 0 post))) as Hy2 by (cbn; by rewrite lookup_insert_ne).
  rewrite (deref_end _ _ _ _ Hp3), (assign_next _ _ _ _ _ Hy2). set (s3 := set_next _ _ _).
  assert (path s3 pre y) as Hp4 by (by apply set_next_path).
  assert (nodes s3 !! y = Some (mk_node (D y) x)) as Hy3 by (cbn; by rewrite lookup_insert_eq).
  assert (nodes s3 !! x = Some (mk_node (D x) (first 0 post))) as Hx3.
  { cbn. by rewrite lookup_insert_ne, lookup_insert_eq. }
  rewrite (deref_end _ _ _ _ Hp4), (deref_next _ _ _ _ Hy3). cbn [next]. rewrite <- (end_ref_snoc (pre ++ [y]) x), <- app_assoc. cbn [app].
  assert (chain (nodes s3) post 0) as Hc3.
  { cbn. apply chain_insert; [done|]. apply chain_insert; [done|]. by apply (relink_chain s pre). }
  destruct (IH s3 (pre ++ [y; x]) post) as (s'&Hrun&Hp'&Hdom).
  - rewrite <- app_assoc. apply path_app. split; [done|]. by split_and!.
  - eapply proper_perm; [|exact Hpr]. rewrite <- app_assoc. cbn. f_equiv. apply perm_swap.
  - cbn in Hf. lia.
  - exists s'. split_and!; [done|by rewrite <- app_assoc in Hp'|]. rewrite Hdom.
    exact (eq_trans (set_next_dom _ _ _ _ Hy2) (eq_trans (set_next_dom _ _ _ _ Hx1) (relink_dom _ _ _ _ Hp1))).
Qed.

(** *** Reversing *)

Lemma rev_recursive_ok : ∀ l fuel s, chain (nodes s) l 0 → proper l → (length l ≤ fuel)%nat →
  ∃ s', rev_recursive fuel (first 0 l) s = Ok (first 0 (reverse l), s') ∧ chain (nodes s') (reverse l) 0 ∧
    head s' = head s ∧ dom (nodes s') = dom (nodes s) ∧ ∀ x, x ∉ l → nodes s' !! x = nodes s !! x.
Proof.
  induction l as [|x l IH]; intros fuel s Hc Hp Hf; [exists s; by destruct fuel|].
  apply proper_cons in Hp as (Hx0&Hxl&Hp). destruct Hc as [Hx Hc].
  destruct fuel as [|fuel]; [cbn in Hf; lia|]. cbn [rev_recursive first].
  rewrite (proj2 (Z.eqb_neq x 0)), (deref_next _ _ _ _ Hx) by done. cbn [next].
  destruct l as [|y l]; [exists s; by split_and!|]. pose proof Hp as (Hy0&Hyl&_)%proper_cons. cbn [first].
  rewrite (proj2 (Z.eqb_neq y 0)), (deref_next _ _ _ _ Hx) by done. cbn [next].
  destruct (IH fuel s Hc Hp) as (s1&Hrun&Hc1&Hh1&Hd1&Hf1); [cbn in Hf; cbn; lia|]. cbn [first] in *.
  rewrite (bind_ok _ _ _ _ _ Hrun). rewrite <- (Hf1 x Hxl) in Hx. rewrite (deref_next _ _ _ _ Hx). cbn [next].
  rewrite reverse_cons in Hc1. apply chain_snoc_app in Hc1 as [Hc1 [Hy1 _]]. cbn [first] in *.
  rewrite (assign_next _ _ _ _ _ Hy1). rewrite elem_of_cons in Hxl.
  assert (nodes (set_next s1 y x) !! x = Some (mk_node (D x) y)) as Hx2 by (cbn; rewrite lookup_insert_ne; [done|intros ->; tauto]).
  rewrite (assign_next _ _ _ _ _ Hx2). set (s2 := set_next _ _ _). exists s2. rewrite !reverse_cons. split_and!.
  - destruct (exists_last_or_nil l) as [->|(l'&z&->)]; [done|]. by rewrite reverse_app.
  - rewrite <- app_assoc. apply chain_snoc_app. cbn. rewrite !lookup_insert_eq, lookup_insert_ne, lookup_insert_eq by (intros ->; tauto).
    split_and!; [|done..]. apply chain_insert; [rewrite elem_of_reverse; tauto|]. apply chain_insert; [by rewrite elem_of_reverse|done].
  - done.
  - rewrite <- Hd1. exact (eq_trans (set_next_dom _ _ _ _ Hx2) (set_next_dom _ _ _ _ Hy1)).
  - intros z Hz. rewrite !elem_of_cons in Hz. cbn. rewrite !lookup_insert_ne by (intros ->; tauto). apply Hf1. rewrite elem_of_cons. tauto.
Qed.

(** *** Shuffling *)

Lemma count_ok : ∀ l fuel s len, chain (nodes s) l 0 → proper l → (length l ≤ fuel)%nat → 0 ≤ len ≤ INT_MAX →
  count fuel (first 0 l) len s =
    if len + Z.of_nat (length l) <=? INT_MAX then Ok (len + Z.of_nat (length l), s) else Err Undefined.
Proof.
  induction l as [|x l IH]; intros fuel s len Hc Hp Hf Hlen.
  { cbn [length]. rewrite Z.add_0_r, (proj2 (Z.leb_le _ _)) by lia. by destruct fuel. }
  apply proper_cons in Hp as (Hx0&_&Hp). destruct Hc as [Hx Hc]. destruct fuel as [|fuel]; [cbn in Hf; lia|].
  cbn [count first length] in *. rewrite (proj2 (Z.eqb_neq x 0)) by done. destruct (Z.eqb_spec len INT_MAX) as [->|Hne].
  { by rewrite (proj2 (Z.leb_gt _ _)) by lia. }
  rewrite (deref_next _ _ _ _ Hx). cbn [next]. rewrite IH by (auto; lia).
  by replace (len + 1 + Z.of_nat (length l)) with (len + Z.of_nat (S (length l))) by lia.
Qed.

Lemma walk_ok k : ∀ s pre mid post q, path s (pre ++ mid ++ post) q → length mid = k →
  walk k (end_ref pre) s = Ok (end_ref (pre ++ mid), s).
Proof.
  induction k as [|k IH]; intros s pre mid post q Hp Hk; (destruct mid as [|x mid]; [try done|try done]); [by rewrite app_nil_r|].
  pose proof Hp as [Hp1 _]%path_app. cbn [walk]. rewrite (deref_end _ _ _ _ Hp1). cbn [app first].
  rewrite <- (end_ref_snoc pre), (IH _ _ mid post q); rewrite <- ?app_assoc; [done|done|by injection Hk].
Qed.

Lemma assign_same s pre q {B} (k : unit → M store B) : path s pre q → bind (assign (end_ref pre) q) k s = k tt s.
Proof.
  intros [Hh Hc]. destruct s as [hd h]. destruct (exists_last_or_nil pre) as [->|(l&x&->)]; [cbn in *; by rewrite Hh|].
  rewrite end_ref_snoc. apply chain_snoc_app in Hc as [_ [Hx _]]. rewrite (assign_next _ _ _ _ _ Hx). f_equal. cbn in *.
  unfold set_next. f_equal. by apply insert_id.
Qed.

Ltac run_links Hpath Hx Hy :=
  repeat (rewrite ?bind_assoc;
    first [rewrite (deref_end _ _ _ _ Hpath) | rewrite (deref_next _ _ _ _ Hx) | rewrite (deref_next _ _ _ _ Hy)];
    cbn [next first]); rewrite ?bind_assoc.

Lemma swap_links_same s pre x post {B} (k : unit → M store B) : path s (pre ++ x :: post) 0 →
  bind (swap_links (end_ref pre) (end_ref pre)) k s = k tt s.
Proof.
  intros Hp. pose proof Hp as [Hp1 [Hx _]]%path_app. cbn [first] in Hp1. unfold swap_links. rewrite !bind_assoc.
  assert (path s (pre ++ [x]) (first 0 post)) as Hp2 by (apply path_app; by split_and!).
  do 2 (rewrite (deref_end _ _ _ _ Hp1), bind_assoc). rewrite (assign_same _ _ _ _ Hp1), bind_assoc, (assign_same _ _ _ _ Hp1).
  run_links Hp1 Hx Hx. rewrite <- (end_ref_snoc pre), (assign_same _ _ _ _ Hp2). run_links Hp1 Hx Hx.
  by rewrite <- (end_ref_snoc pre), (assign_same _ _ _ _ Hp2).
Qed.

(** The nodes of a list with [x] before [y] are different. *)
Record parts (pre : list Z) (x : Z) (mid : list Z) (y : Z) (tail : list Z) : Prop := {
  parts_nodup : NoDup pre;
  parts_xy : x ≠ y;
  parts_x : x ∉ pre ∧ x ∉ mid ∧ x ∉ tail;
  parts_y : y ∉ pre ∧ y ∉ mid ∧ y ∉ tail;
  parts_mid z : z ∈ mid → z ∉ pre ∧ z ∉ tail;
  parts_tail z : z ∈ tail → z ∉ pre;
}.

Lemma proper_parts pre x mid y tail : proper (pre ++ x :: mid ++ y :: tail) → parts pre x mid y tail.
Proof.
  intros ((Hpre&_)&(Hx0&Hxm&(Hmd&(Hy0&Hyt&_)%proper_cons&Hd2)%proper_app)%proper_cons&Hd)%proper_app.
  rewrite elem_of_app, elem_of_cons in Hxm.
  assert (∀ z, z ∈ pre → z ≠ x ∧ z ∉ mid ∧ z ≠ y ∧ z ∉ tail) as Hpd.
  { intros z Hz. specialize (Hd z Hz). rewrite elem_of_cons, elem_of_app, elem_of_cons in Hd. tauto. }
  assert (∀ z, z ∈ mid → z ≠ y ∧ z ∉ tail) as Hmt by (intros z Hz; specialize (Hd2 z Hz); rewrite elem_of_cons in Hd2; tauto).
  split; [done|tauto|split_and!; [|tauto..]|split_and!; [| |done]| |].
  - intros H%Hpd. tauto.
  - intros H%Hpd. tauto.
  - intros H%Hmt. tauto.
  - intros z Hz. split; [|by apply Hmt]. intros H%Hpd. tauto.
  - intros z Hz H%Hpd. tauto.
Qed.

(** What [swap_links] does to the list. *)
Definition swapped (s : store) (target cur : ref) (l : list Z) : Prop :=
  ∃ s', (∀ {B} (k : unit → M store B), bind (swap_links target cur) k s = k tt s') ∧
    path s' l 0 ∧ dom (nodes s') = dom (nodes s).

Lemma swap_neighbours_ok s pre x y tail : path s (pre ++ x :: y :: tail) 0 → parts pre x [] y tail →
  swapped s (end_ref (pre ++ [x])) (end_ref pre) (pre ++ y :: x :: tail).
Proof.
  intros [Hp1 [Hx [Hy Htail]]]%path_app [Hnd Hxy (Hxpre&_&Hxtail) (Hypre&_&Hytail) _ Htp]. cbn [first] in *. unfold swapped, swap_links.
  rewrite end_ref_snoc. set (s1 := set_next s x x). set (s2 := relink s1 pre y).
  assert (path s1 pre x) as Hp2 by (by apply set_next_path).
  assert (path s2 pre y) as Hp3 by (by eapply relink_path).
  assert (nodes s2 !! x = Some (mk_node (D x) x)) as Hx2 by (unfold s2; rewrite relink_nodes by done; cbn; by rewrite lookup_insert_eq).
  assert (nodes s2 !! y = Some (mk_node (D y) (first 0 tail))) as Hy2 by (unfold s2; rewrite relink_nodes by done; cbn; by rewrite lookup_insert_ne).
  set (s3 := set_next s2 x (first 0 tail)). assert (path s3 pre y) as Hp4 by (by apply set_next_path).
  assert (nodes s3 !! y = Some (mk_node (D y) (first 0 tail))) as Hy3 by (cbn; by rewrite lookup_insert_ne).
  exists (set_next s3 y x). split_and!.
  - intros B k. run_links Hp1 Hx Hx. rewrite (assign_next _ _ _ _ _ Hx), bind_assoc, (assign_end _ _ _ _ _ Hp2).
    fold s1. fold s2. run_links Hp3 Hx2 Hy2. rewrite (assign_next _ _ _ _ _ Hx2). fold s3. run_links Hp4 Hy3 Hy3.
    by rewrite (assign_next _ _ _ _ _ Hy3).
  - apply path_app. split; [by apply set_next_path|]. cbn [first app chain]. unfold s3. cbn [nodes set_next].
    rewrite lookup_insert_eq, lookup_insert_ne, lookup_insert_eq by done. split_and!; [done..|].
    do 2 (apply chain_insert; [done|]). apply (relink_chain s1); [done|]. by apply chain_insert.
  - exact (eq_trans (set_next_dom _ _ _ _ Hy3) (eq_trans (set_next_dom _ _ _ _ Hx2) (eq_trans (relink_dom _ _ _ _ Hp2) (set_next_dom _ _ _ _ Hx)))).
Qed.

Lemma swap_distant_ok s pre x mid z y tail : path s (pre ++ x :: (mid ++ [z]) ++ y :: tail) 0 → NoDup (mid ++ [z]) → parts pre x (mid ++ [z]) y tail →
  swapped s (end_ref (pre ++ x :: mid ++ [z])) (end_ref pre) (pre ++ y :: (mid ++ [z]) ++ x :: tail).
Proof.
  intros [Hp1 [Hx Hmid]]%path_app Hmd [Hnd Hxy (Hxpre&Hxmid&Hxtail) (Hypre&Hymid&Hytail) Hmt Htp]. cbn [first] in *. unfold swapped, swap_links.
  apply chain_snoc_app in Hmid as [Hmid [Hy Htail]]. cbn [first] in *. apply chain_snoc_app in Hmid as [Hmid0 [Hz _]]. cbn [first] in Hmid0, Hz.
  destruct (Hmt z ltac:(set_solver)) as [Hzpre Hztail].
  rewrite elem_of_app, list_elem_of_singleton in Hxmid, Hymid. assert (x ∉ mid ∧ x ≠ z ∧ y ∉ mid ∧ y ≠ z) as (Hx0&Hxz&Hy0&Hyz) by tauto.
  assert (z ∉ mid) as Hz0 by (apply NoDup_app in Hmd as (_&Hmd&_); intros H; apply (Hmd z H); by left).
  rewrite (app_comm_cons mid), (app_assoc pre), end_ref_snoc.
  set (m := first y (mid ++ [z])) in *. set (s1 := set_next s z x). set (s2 := relink s1 pre y).
  assert (path s1 pre x) as Hp2 by (by apply set_next_path).
  assert (path s2 pre y) as Hp3 by (by eapply relink_path).
  assert (nodes s2 !! x = Some (mk_node (D x) m)) as Hx2.
  { unfold s2. rewrite relink_nodes by done. cbn. rewrite lookup_insert_ne by done. rewrite Hx. unfold m. by destruct mid. }
  assert (nodes s2 !! y = Some (mk_node (D y) (first 0 tail))) as Hy2 by (unfold s2; rewrite relink_nodes by done; cbn; by rewrite lookup_insert_ne).
  assert (nodes s2 !! z = Some (mk_node (D z) x)) as Hz2 by (unfold s2; rewrite relink_nodes by done; cbn; by rewrite lookup_insert_eq).
  set (s3 := set_next s2 x (first 0 tail)). assert (path s3 pre y) as Hp4 by (by apply set_next_path).
  assert (nodes s3 !! y = Some (mk_node (D y) (first 0 tail))) as Hy3 by (cbn; by rewrite lookup_insert_ne).
  exists (set_next s3 y m). split_and!.
  - intros B k. run_links Hp1 Hz Hz. rewrite (assign_next _ _ _ _ _ Hz), bind_assoc, (assign_end _ _ _ _ _ Hp2).
    fold s1. fold s2. run_links Hp3 Hx2 Hy2. rewrite (deref_next _ _ _ _ Hz2). cbn [next]. run_links Hp3 Hx2 Hy2.
    rewrite (deref_next _ _ _ _ Hz2). cbn [next]. rewrite ?bind_assoc. rewrite (assign_next _ _ _ _ _ Hx2). fold s3. run_links Hp4 Hy3 Hy3.
    by rewrite (assign_next _ _ _ _ _ Hy3).
  - apply path_app. split; [by apply set_next_path|]. cbn [first app chain]. rewrite chain_snoc_app. cbn [chain first app].
    rewrite chain_snoc_app. cbn [chain first]. unfold s3. cbn [nodes set_next].
    rewrite lookup_insert_eq, !(lookup_insert_ne _ y), !(lookup_insert_ne _ x z), lookup_insert_eq by done.
    assert (∀ l q, chain (nodes s) l q → x ∉ l → y ∉ l → z ∉ l → (∀ w, w ∈ l → w ∉ pre) →
      chain (<[y := mk_node (D y) m]> (<[x := mk_node (D x) (first 0 tail)]> (nodes s2))) l q) as Hkeep.
    { intros l q Hc ??? Hl. do 2 (apply chain_insert; [done|]). apply (relink_chain s1); [done|]. by apply chain_insert. }
    split_and!; [|by apply Hkeep; [..|intros w Hw; apply Hmt; set_solver]|done|done|done|by apply Hkeep].
    do 2 f_equal. unfold m. by destruct mid.
  - exact (eq_trans (set_next_dom _ _ _ _ Hy3) (eq_trans (set_next_dom _ _ _ _ Hx2) (eq_trans (relink_dom _ _ _ _ Hp2) (set_next_dom _ _ _ _ Hz)))).
Qed.

Lemma swap_links_ok s pre x mid y tail :
  path s (pre ++ x :: mid ++ y :: tail) 0 → proper (pre ++ x :: mid ++ y :: tail) →
  swapped s (end_ref (pre ++ x :: mid)) (end_ref pre) (pre ++ y :: mid ++ x :: tail).
Proof.
  intros Hp Hpr. pose proof (proper_parts _ _ _ _ _ Hpr) as HP. destruct (exists_last_or_nil mid) as [->|(mid0&z&->)].
  - by apply swap_neighbours_ok.
  - apply swap_distant_ok; [done| |done]. apply proper_app in Hpr as (_&(_&_&Hpr)%proper_cons&_). by apply proper_app in Hpr as [[? _] _].
Qed.

Lemma to_front_split {A} j (x : A) (l : list A) : (S j ≤ length l)%nat → ∃ mid y tail, l = mid ++ y :: tail ∧ length mid = j ∧
  to_front (S j) (x :: l) = y :: mid ++ x :: tail.
Proof. clear D.
  intros Hj. destruct (lookup_lt_is_Some_2 l j) as [y Hy]; [lia|]. cbn. rewrite Hy.
  pose proof (take_drop_middle l j y Hy) as Hl. exists (take j l), y, (drop (S j) l). split_and!; [done|rewrite length_take; lia|].
  f_equal. rewrite insert_take_drop by lia. done.
Qed.

(** The choice of a round is below the number of nodes left. *)
Lemma choice_bound r i : (Z.to_nat (r `rem` (Z.of_nat i + 1)) ≤ i)%nat.
Proof. clear D. pose proof (Z.rem_bound_abs r (Z.of_nat i + 1) ltac:(lia)). lia. Qed.

Lemma shuffle_loop_ok rand : ∀ i s pre post, path s (pre ++ post) 0 → proper (pre ++ post) → length post = S i →
  ∃ s', shuffle_loop i rand (end_ref pre) s = Ok (tt, s') ∧ path s' (pre ++ shuffle i rand post) 0 ∧ dom (nodes s') = dom (nodes s).
Proof.
  induction i as [|i IH]; intros s pre post Hp Hpr Hl; [by exists s|]. cbn [shuffle_loop shuffle].
  pose proof (choice_bound (rand (S i)) (S i)) as Hj. set (j := Z.to_nat _) in *.
  destruct post as [|x post]; [done|]. injection Hl as Hl.
  assert (∃ y rest s1, to_front j (x :: post) = y :: rest ∧ length rest = S i ∧ y :: rest ≡ₚ x :: post ∧
    (∀ {B} (k : unit → M store B), bind (walk j (end_ref pre)) (λ target, bind (swap_links target (end_ref pre)) k) s = k tt s1) ∧
    path s1 (pre ++ y :: rest) 0 ∧ dom (nodes s1) = dom (nodes s)) as (y&rest&s1&->&Hrest&Hperm&Hrun&Hp1&Hd1).
  { destruct j as [|j].
    - exists x, post, s. split_and!; try done. intros B k. cbn [walk].
      rewrite (bind_ok _ _ _ _ _ (ret_run _ _)). by apply (swap_links_same _ _ x post).
    - destruct (to_front_split j x post) as (mid&y&tail&->&Hmid&->); [lia|].
      destruct (swap_links_ok s pre x mid y tail Hp Hpr) as (s1&Hrun&Hp1&Hd1). exists y, (mid ++ x :: tail), s1.
      split_and!; try done; [rewrite length_app in *; cbn in *; lia| |].
      + rewrite <- !Permutation_middle. apply perm_swap.
      + intros B k. rewrite (bind_ok _ _ _ _ _ (walk_ok (S j) s pre (x :: mid) (y :: tail) 0 Hp ltac:(cbn; lia))). apply Hrun. }
  rewrite Hrun. pose proof Hp1 as [Hp1' _]%path_app. rewrite (deref_end _ _ _ _ Hp1'). cbn [first].
  rewrite <- (end_ref_snoc pre). destruct (IH s1 (pre ++ [y]) rest) as (s'&Hrun'&Hp'&Hd'); rewrite <- ?app_assoc in *.
  - done.
  - eapply proper_perm; [|exact Hpr]. by f_equiv.
  - done.
  - exists s'. split_and!; [done|done|congruence].
Qed.

Lemma shuffle_perm {A} rand i : ∀ (l : list A), shuffle i rand l ≡ₚ l.
Proof. clear D.
  induction i as [|i IH]; intros l; [done|]. cbn [shuffle]. set (j := Z.to_nat _).
  assert (to_front j l ≡ₚ l) as Hj.
  { destruct j as [|j], l as [|x l]; [done..|]. cbn. destruct (l !! j) as [y|] eqn:Hy; [|done].
    rewrite insert_take_drop by (by eapply lookup_lt_Some). rewrite <- (take_drop_middle l j y Hy) at 3.
    rewrite <- !Permutation_middle. apply perm_swap. }
  destruct (to_front j l) as [|y l'] eqn:Hl; [done|]. by rewrite <- Hj, IH.
Qed.
End paths.

(** ** Refinement of the operations on lists of values *)

Lemma to_front_fmap {A B} (f : A → B) j l : to_front j (f <$> l) = f <$> to_front j l.
Proof.
  destruct j as [|j], l as [|x l]; [done..|]. cbn. rewrite list_lookup_fmap.
  destruct (l !! j) as [y|]; [|done]. cbn. by rewrite list_fmap_insert.
Qed.

Lemma shuffle_fmap {A B} (f : A → B) rand i : ∀ l, shuffle i rand (f <$> l) = f <$> shuffle i rand l.
Proof.
  induction i as [|i IH]; intros l; [done|]. cbn [shuffle]. rewrite to_front_fmap.
  destruct (to_front _ l) as [|y l']; [done|]. cbn. by rewrite IH.
Qed.

Lemma swap_pairs_fmap {A B} (f : A → B) : ∀ l, swap_pairs (f <$> l) = f <$> swap_pairs l.
Proof. fix IH 1. intros [|x [|y l]]; [done..|]. cbn. by rewrite <- IH. Qed.

Lemma swap_pairs_perm {A} : ∀ l : list A, swap_pairs l ≡ₚ l.
Proof. fix IH 1. intros [|x [|y l]]; [done..|]. cbn. rewrite (IH l). apply perm_swap. Qed.

Lemma chain_values_ext D D' h l q : (∀ x, x ∈ l → D' x = D x) → chain D h l q → chain D' h l q.
Proof.
  induction l as [|x l IH]; intros HD; [done|]. intros [Hx Hl]. split; [rewrite HD by (by left); done|].
  apply IH; [|done]. intros y Hy. apply HD. by right.
Qed.

Definition represents (s : store) (vs : list Z) : Prop := ∃ D l, holds D s l ∧ vs = D <$> l.

(** A rearrangement of the nodes. *)
Lemma represents_perm D s s' l l' : holds D s l → path D s' l' 0 → l' ≡ₚ l → dom (nodes s') = dom (nodes s) → holds D s' l'.
Proof.
  intros (_&Hp&Hd) Hp' Hperm Hd'. split_and!; [done|by eapply proper_perm|]. rewrite Hd', Hd. apply leibniz_equiv. by rewrite Hperm.
Qed.

Section refinement.
Context (malloc : gmap Z node_t → Z)
  (malloc_fresh : ∀ h, h !! malloc h = None) (malloc_not_null : ∀ h, malloc h ≠ 0).

Lemma add_entry_ok s vs v : represents s vs → ∃ s', add_entry malloc v s = Ok (tt, s') ∧ represents s' (vs ++ [v]).
Proof using malloc_fresh malloc_not_null.
  intros (D&l&(Hp&Hpr&Hd)&->). unfold add_entry. rewrite (bind_ok _ _ _ _ _ (gets_run _ _)).
  set (t := malloc (nodes s)). pose proof (malloc_fresh (nodes s)) as Ht. fold t in Ht.
  rewrite (proj2 (Z.eqb_neq t 0)) by apply malloc_not_null. rewrite (bind_ok _ _ _ _ _ (massert_true _)), (bind_ok _ _ _ _ _ (modify_run _ _)).
  rewrite (bind_ok _ _ _ _ _ (gets_run _ _)). set (s1 := mk_store _ _).
  assert (t ∉ l) as Htl by (apply not_elem_of_dom in Ht; rewrite Hd in Ht; set_solver).
  set (D' := λ x, if x =? t then v else D x).
  assert (∀ x, x ∈ l → D' x = D x) as HD.
  { intros x Hx. unfold D'. by rewrite (proj2 (Z.eqb_neq x t)) by (intros ->; done). }
  assert (path D' s1 l 0) as Hp1.
  { destruct Hp as [Hh Hc]. split; [done|]. apply chain_insert; [done|]. by apply (chain_values_ext D). }
  assert (fuel_of s1 = S (S (length l))) as ->.
  { unfold fuel_of. cbn. rewrite map_size_insert_None by done. pose proof (holds_fuel D s l) as Hf. unfold fuel_of in Hf. by rewrite Hf. }
  rewrite (bind_ok _ _ _ _ _ (find_end_ok D' (S (S (length l))) s1 [] l Hp1 Hpr ltac:(lia))). cbn [app].
  pose proof (assign_end D' s1 l 0 t ret Hp1) as Ha. exists (relink D' s1 l t). split.
  { unfold bind in Ha. destruct (assign (end_ref l) t s1) as [[[] ?]|]; exact Ha. }
  assert (proper (l ++ [t])) as Hpr'.
  { eapply proper_perm; [apply Permutation_cons_append|]. apply proper_cons. split_and!; [apply malloc_not_null|done|done]. }
  exists D', (l ++ [t]). split; [split_and!; [|done|]|].
  - apply path_app. split; [by eapply relink_path; [apply Hpr|]|]. split; [|done]. rewrite relink_nodes by done. cbn.
    rewrite lookup_insert_eq. unfold D'. by rewrite Z.eqb_refl.
  - rewrite (relink_dom _ _ _ _ _ Hp1). cbn. rewrite dom_insert_L, Hd. set_solver.
  - rewrite fmap_app. cbn. unfold D' at 2. rewrite Z.eqb_refl. f_equal. apply list_fmap_ext. intros i x Hx.
    symmetry. apply HD. by eapply list_elem_of_lookup_2.
Qed.

Lemma find_remove_ok s vs v : represents s vs →
  match remove_first v vs with
  | Some vs' => ∃ s', bind (deref Head) (λ h, bind (find_entry h v) remove_entry) s = Ok (tt, s') ∧ represents s' vs'
  | None => bind (deref Head) (λ h, bind (find_entry h v) remove_entry) s = Err Undefined
  end.
Proof using.
  intros (D&l&Hh&->). pose proof (holds_fuel _ _ _ Hh) as Hf. pose proof Hh as (Hp&Hpr&Hd).
  destruct (from_value_split D v l) as (pre&Hl&Hpre&Hfirst).
  assert (bind (deref Head) (λ h, bind (find_entry h v) remove_entry) s = remove_entry (first 0 (from_value D v l)) s) as ->.
  { destruct Hp as [Hhd Hc]. unfold deref, find_entry. rewrite (bind_ok _ _ _ _ _ (gets_run _ _)), bind_assoc, (bind_ok _ _ _ _ _ (gets_run _ _)), Hf, Hhd.
    by rewrite (bind_ok _ _ _ _ _ (find_loop_ok D v l (S (length l)) s Hc Hpr ltac:(lia))). }
  unfold remove_entry. rewrite (bind_ok _ _ _ _ _ (gets_run _ _)), Hf. set (rest := from_value D v l) in *. clearbody rest. subst l.
  set (fuel := S (length (pre ++ rest))). assert (length pre ≤ fuel)%nat as Hfuel by (unfold fuel; rewrite length_app; lia). clearbody fuel.
  assert (v ∉ D <$> pre) as Hvpre by (intros (x&->&Hx)%list_elem_of_fmap; by apply (Hpre x)).
  rewrite fmap_app, (remove_first_app v _ _ Hvpre). destruct rest as [|x rest].
  - cbn [first fmap list_fmap remove_first option_fmap option_map]. rewrite app_nil_r in *.
    rewrite (bind_ok _ _ _ _ _ (find_link_ok D fuel s [] pre 0 [] ltac:(by rewrite app_nil_r) ltac:(apply Hpr) eq_refl Hfuel)).
    unfold deref at 1, bind, gets_some. by rewrite (holds_null _ _ _ Hh).
  - cbn [fmap list_fmap remove_first]. rewrite Hfirst, Z.eqb_refl. cbn [option_fmap option_map first].
    pose proof Hpr as (Hpr1&(Hx0&Hxr&Hpr2)%proper_cons&Hdis)%proper_app.
    assert (x ∉ pre) as Hxp by (intros H; apply (Hdis x H); by left).
    rewrite (bind_ok _ _ _ _ _ (find_link_ok D fuel s [] pre x (x :: rest) Hp Hxp eq_refl Hfuel)).
    pose proof Hp as [Hp1 [Hx Hc]]%path_app. cbn [first] in Hp1, Hx. cbn [app].
    rewrite (deref_next _ _ _ _ Hx). cbn [next]. rewrite (assign_end D _ _ _ _ _ Hp1). set (s1 := relink D s pre (first 0 rest)).
    assert (nodes s1 !! x = Some (mk_node (D x) (first 0 rest))) as Hx1 by (unfold s1; by rewrite relink_nodes).
    exists (mk_store (head s1) (delete x (nodes s1))). split.
    { unfold free, bind, gets_some, modify. by rewrite Hx1. }
    exists D, (pre ++ rest). rewrite fmap_app. split; [split_and!|done].
    + apply path_app. split; [|cbn; eapply chain_frame; [|eapply relink_chain; [|exact Hc]]].
      * apply path_heap; [|by eapply relink_path; [apply Hpr1|]]. intros y Hy. rewrite lookup_delete_ne; [done|]. by intros ->.
      * intros y Hy. rewrite lookup_delete_ne; [done|]. by intros ->.
      * intros y Hy H. apply (Hdis y H). by right.
    + apply proper_app. split_and!; [done..|]. intros y Hy H. apply (Hdis y Hy). by right.
    + cbn. rewrite dom_delete_L. unfold s1. rewrite (relink_dom _ _ _ _ _ Hp1), Hd. apply set_eq. intros y.
      rewrite elem_of_difference, !elem_of_list_to_set, !elem_of_app, elem_of_cons, elem_of_singleton.
      split; [tauto|]. intros Hy. split; [tauto|]. intros ->. tauto.
Qed.

Lemma swap_pair_ok s vs : represents s vs → ∃ s', swap_pair s = Ok (tt, s') ∧ represents s' (swap_pairs vs).
Proof using.
  intros (D&l&Hh&->). pose proof (holds_fuel _ _ _ Hh) as Hf. pose proof Hh as (Hp&Hpr&Hd).
  unfold swap_pair. rewrite (bind_ok _ _ _ _ _ (gets_run _ _)), Hf.
  destruct (swap_loop_ok D (S (length l)) s [] l Hp Hpr ltac:(lia)) as (s'&Hrun&Hp'&Hd'). exists s'. split; [done|].
  exists D, (swap_pairs l). rewrite swap_pairs_fmap. split; [|done]. by apply (represents_perm D s s' l); [..|apply swap_pairs_perm|].
Qed.

Lemma reverse_list_ok s vs : represents s vs → ∃ s', reverse_list s = Ok (tt, s') ∧ represents s' (reverse vs).
Proof using.
  intros (D&l&Hh&->). pose proof (holds_fuel _ _ _ Hh) as Hf. pose proof Hh as (Hp&Hpr&Hd). pose proof Hp as [Hhd Hc].
  unfold reverse_list. rewrite (bind_ok _ _ _ _ _ (gets_run _ _)), Hf. unfold deref. rewrite (bind_ok _ _ _ _ _ (gets_run _ _)), Hhd.
  destruct (rev_recursive_ok D l (S (length l)) s Hc Hpr ltac:(lia)) as (s1&Hrun&Hc1&_&Hd1&_). rewrite (bind_ok _ _ _ _ _ Hrun).
  eexists. split; [done|]. exists D, (reverse l). split; [|by rewrite fmap_reverse].
  apply (represents_perm D s _ l); [done|by split|apply reverse_Permutation|done].
Qed.

Lemma fisher_yates_ok s vs rand : represents s vs →
  if Z.of_nat (length vs) <=? INT_MAX
  then ∃ s', fisher_yates_shuffle rand s = Ok (tt, s') ∧ represents s' (shuffle (length vs - 1) rand vs)
  else fisher_yates_shuffle rand s = Err Undefined.
Proof using.
  intros (D&l&Hh&->). pose proof (holds_fuel _ _ _ Hh) as Hf. pose proof Hh as (Hp&Hpr&Hd). pose proof Hp as [Hhd Hc].
  rewrite length_fmap. unfold fisher_yates_shuffle. rewrite (bind_ok _ _ _ _ _ (gets_run _ _)), Hf. unfold deref.
  rewrite (bind_ok _ _ _ _ _ (gets_run _ _)), Hhd. pose proof (count_ok D l (S (length l)) s 0 Hc Hpr ltac:(lia) ltac:(done)) as Hcount.
  rewrite Z.add_0_l in Hcount. destruct (_ <=? INT_MAX); [|by rewrite (bind_err _ _ _ _ Hcount)].
  rewrite (bind_ok _ _ _ _ _ Hcount). replace (Z.to_nat (Z.of_nat (length l) - 1)) with (length l - 1)%nat by lia.
  destruct l as [|x l]; [exists s; split; [done|]; by exists D, []|].
  destruct (shuffle_loop_ok D rand (length (x :: l) - 1) s [] (x :: l) Hp Hpr ltac:(cbn; lia)) as (s'&Hrun&Hp'&Hd'). exists s'. split; [done|].
  exists D, (shuffle (length (x :: l) - 1) rand (x :: l)). rewrite shuffle_fmap. split; [|done].
  by apply (represents_perm D s s' (x :: l)); [..|apply shuffle_perm|].
Qed.

Lemma print_list_ok s vs : represents s vs → print_list s = Ok (vs, s).
Proof using.
  intros (D&l&Hh&->). pose proof (holds_fuel _ _ _ Hh) as Hf. pose proof Hh as ([Hhd Hc]&Hpr&Hd).
  unfold print_list. rewrite (bind_ok _ _ _ _ _ (gets_run _ _)), Hf. unfold deref. rewrite (bind_ok _ _ _ _ _ (gets_run _ _)), Hhd.
  apply print_loop_ok; [done|done|lia].
Qed.

Lemma exec_stmt_ok c s vs : represents s vs →
  match exec_list c vs with
  | Some (o, vs') => ∃ s', exec malloc c s = Ok (o, s') ∧ represents s' vs'
  | None => exec malloc c s = Err Undefined
  end.
Proof using malloc_fresh malloc_not_null.
  intros Hr. destruct c as [v|v| | |rand| ]; cbn [exec exec_list].
  - destruct (add_entry_ok s vs v Hr) as (s'&Hrun&Hr'). exists s'. by rewrite (bind_ok _ _ _ _ _ Hrun).
  - pose proof (find_remove_ok s vs v Hr) as H. set (m := bind (deref Head) _) in H.
    assert (bind (deref Head) (λ h, bind (find_entry h v) (λ entry, bind (remove_entry entry) (λ _, ret []))) s =
      bind m (λ _, ret ([] : list (list Z))) s) as ->.
    { unfold m, bind. destruct (deref Head s) as [[h s1]|]; [|done]. by destruct (find_entry h v s1) as [[]|]. }
    destruct (remove_first v vs) as [vs'|]; [|by rewrite (bind_err _ _ _ _ H)]. destruct H as (s'&Hrun&Hr').
    exists s'. by rewrite (bind_ok _ _ _ _ _ Hrun).
  - destruct (swap_pair_ok s vs Hr) as (s'&Hrun&Hr'). exists s'. by rewrite (bind_ok _ _ _ _ _ Hrun).
  - destruct (reverse_list_ok s vs Hr) as (s'&Hrun&Hr'). exists s'. by rewrite (bind_ok _ _ _ _ _ Hrun).
  - pose proof (fisher_yates_ok s vs rand Hr) as H. destruct (_ <=? INT_MAX); [|by rewrite (bind_err _ _ _ _ H)].
    destruct H as (s'&Hrun&Hr'). exists s'. by rewrite (bind_ok _ _ _ _ _ Hrun).
  - exists s. by rewrite (bind_ok _ _ _ _ _ (print_list_ok s vs Hr)).
Qed.

Lemma run_stmts_ok p : ∀ s vs, represents s vs →
  match run_list p vs with
  | Some (o, vs') => ∃ s', run malloc p s = Ok (o, s') ∧ represents s' vs'
  | None => run malloc p s = Err Undefined
  end.
Proof using malloc_fresh malloc_not_null.
  induction p as [|c p IH]; intros s vs Hr; [by exists s|]. cbn [run run_list].
  pose proof (exec_stmt_ok c s vs Hr) as Hc. destruct (exec_list c vs) as [[o vs1]|]; [|by rewrite (bind_err _ _ _ _ Hc)].
  destruct Hc as (s1&Hc&Hr1). rewrite (bind_ok _ _ _ _ _ Hc). specialize (IH s1 vs1 Hr1).
  destruct (run_list p vs1) as [[os vs2]|]; [|by rewrite (bind_err _ _ _ _ IH)].
  destruct IH as (s2&Hp&Hr2). exists s2. by rewrite (bind_ok _ _ _ _ _ Hp).
Qed.
End refinement.

Definition empty_list : store := mk_store 0 ∅.

Lemma represents_empty : represents empty_list [].
Proof. exists (λ _, 0), []. split; [|done]. split_and!; [done| |done]. split; [constructor|]. apply not_elem_of_nil. Qed.

(** C18: every program made of the statements of [main] does on linked nodes
    what it does on a list of values.  With a [malloc] that returns addresses
    not in use, it prints the same lists, terminates, reads and writes live
    nodes only, and leaves a NULL-terminated list of the values that owns
    every node of the heap; it runs into undefined behaviour exactly when an
    entry is removed that was not found, or when a list with more than
    [INT_MAX] nodes is shuffled. *)
Theorem list_program_refines (malloc : gmap Z node_t → Z) (p : list stmt) :
  (∀ h, h !! malloc h = None) → (∀ h, malloc h ≠ 0) →
  match run_list p [] with
  | Some (o, vs) => ∃ s, run malloc p empty_list = Ok (o, s) ∧ represents s vs
  | None => run malloc p empty_list = Err Undefined
  end.
Proof. intros Hfresh Hnull. exact (run_stmts_ok malloc Hfresh Hnull p empty_list [] represents_empty). Qed.

(** An allocator: the address behind the largest one in use. *)
Definition bump (h : gmap Z node_t) : Z := 16 + foldr Z.max 0 (elements (dom h)).

Lemma max_ge (l : list Z) x : x ∈ l → x ≤ foldr Z.max 0 l.
Proof.
  induction l as [|y l IH]; intros Hx; [by apply not_elem_of_nil in Hx|]. cbn. apply elem_of_cons in Hx as [->|Hx]; [lia|].
  specialize (IH Hx). lia.
Qed.

Lemma max_nonneg (l : list Z) : 0 ≤ foldr Z.max 0 l.
Proof. induction l; cbn; lia. Qed.

Definition sample_output : list (list Z) :=
  [[]; [72; 101; 108; 109; 110; 111]; [72; 108; 109; 110]; [108; 72; 110; 109]; [109; 110; 72; 108];
   [109; 110; 72; 108; 1; 2; 3; 4; 5; 6]; [108; 109; 110; 72; 6; 5; 4; 1; 3; 2]].

Lemma list_program_refines_witness :
  ∃ s, run bump (main (λ i, Z.of_nat i * 7)) empty_list = Ok (sample_output, s) ∧
    represents s [108; 109; 110; 72; 6; 5; 4; 1; 3; 2].
Proof.
  apply (list_program_refines bump (main (λ i, Z.of_nat i * 7))).
  - intros h. apply not_elem_of_dom. intros H%elem_of_elements%max_ge. unfold bump in H. lia.
  - intros h. unfold bump. pose proof (max_nonneg (elements (dom h))). lia.
Defined.

(** ** The shuffle reaches every permutation once *)

Lemma represents_inj s vs vs' : represents s vs → represents s vs' → vs = vs'.
Proof. intros H1%print_list_ok H2%print_list_ok. rewrite H1 in H2. by injection H2. Qed.

Lemma to_front_cons {A} j (l : list A) : (j < length l)%nat → ∃ y r, to_front j l = y :: r ∧ l !! j = Some y ∧ y :: r ≡ₚ l.
Proof.
  intros Hj. destruct l as [|x l]; [cbn in Hj; lia|]. destruct j as [|j]; [by exists x, l|].
  destruct (to_front_split j x l) as (mid&y&tail&->&<-&Hf); [cbn in Hj; lia|]. exists y, (mid ++ x :: tail).
  split_and!; [done|by apply (list_lookup_middle (x :: mid))|]. rewrite <- !Permutation_middle. apply perm_swap.
Qed.

Lemma shuffle_choices {A} i : ∀ l l' : list A, NoDup l → length l = S i → l' ≡ₚ l →
  ∃ choice : nat → Z, (∀ k, 0 ≤ choice k ≤ Z.of_nat k) ∧
    ∀ rand, (∀ k, 0 ≤ rand k) →
      (shuffle i rand l = l' ↔ ∀ k, (0 < k ≤ i)%nat → rand k mod (Z.of_nat k + 1) = choice k).
Proof.
  induction i as [|i IH]; intros l l' Hn Hl Hp.
  { destruct l as [|x [|]]; try done. apply Permutation_singleton_r in Hp as ->.
    exists (λ _, 0). split; [lia|]. intros rand _. split; [lia|done]. }
  destruct l' as [|y t']; [by apply Permutation_length in Hp; rewrite Hl in Hp|].
  assert (y ∈ l) as [j Hj]%list_elem_of_lookup by (rewrite <- Hp; by left).
  pose proof (lookup_lt_Some _ _ _ Hj) as Hjl. destruct (to_front_cons j l Hjl) as (y'&r&Hf&Hj'&Hr).
  rewrite Hj in Hj'. injection Hj' as <-. destruct (IH r t') as (choice&Hc&Hiff).
  - rewrite <- Hr in Hn. by apply NoDup_cons in Hn as [_ ?].
  - apply Permutation_length in Hr. cbn in Hr. lia.
  - apply (Permutation_cons_inv (a := y)). by rewrite Hr.
  - exists (λ k, if decide (k = S i) then Z.of_nat j else choice k). split.
    { intros k. case_decide; [lia|apply Hc]. }
    intros rand Hrand. cbn [shuffle]. rewrite Z.rem_mod_nonneg by (try apply Hrand; lia).
    pose proof (Z.mod_pos_bound (rand (S i)) (Z.of_nat (S i) + 1) ltac:(lia)) as Hb. set (m := rand (S i) mod _) in *.
    specialize (Hiff rand Hrand). destruct (decide (Z.to_nat m = j)) as [Hmj|Hmj].
    + rewrite Hmj, Hf. split.
      * intros Heq. injection Heq as Heq. intros k Hk. case_decide as Hki; [subst k; fold m; lia|]. apply Hiff; [done|lia].
      * intros Hk. f_equal. apply Hiff. intros k Hki. specialize (Hk k ltac:(lia)). by case_decide; [lia|].
    + destruct (to_front_cons (Z.to_nat m) l) as (z&r'&->&Hz&_); [lia|]. split.
      * intros Heq. injection Heq as -> _. destruct Hmj. by eapply NoDup_lookup.
      * intros Hk. specialize (Hk (S i) ltac:(lia)). case_decide; [|done]. fold m in Hk. lia.
Qed.

(** C31: the shuffle is fair as far as the random numbers are.  On a list of
    different values every permutation is the result for exactly one sequence
    of the choices [rand() % (i + 1)]: there are as many sequences of choices
    as permutations, and no two of them give the same list. *)
Theorem shuffle_reaches_once (s : store) (vs vs' : list Z) :
  represents s vs → NoDup vs → 1 ≤ Z.of_nat (length vs) ≤ INT_MAX → vs' ≡ₚ vs →
  ∃ choice : nat → Z, (∀ i, 0 ≤ choice i ≤ Z.of_nat i) ∧
    ∀ rand, (∀ i, 0 ≤ rand i) →
      ((∃ s', fisher_yates_shuffle rand s = Ok (tt, s') ∧ represents s' vs') ↔
       ∀ i, (0 < i < length vs)%nat → rand i mod (Z.of_nat i + 1) = choice i).
Proof.
  intros Hr Hn Hl Hp. destruct (shuffle_choices (length vs - 1) vs vs' Hn ltac:(lia) Hp) as (choice&Hc&Hiff).
  exists choice. split; [done|]. intros rand Hrand. specialize (Hiff rand Hrand).
  pose proof (fisher_yates_ok s vs rand Hr) as Hf. rewrite (proj2 (Z.leb_le _ _)) in Hf by lia. destruct Hf as (s'&Hrun&Hr').
  transitivity (shuffle (length vs - 1) rand vs = vs').
  - split.
    + intros (s''&Hrun'&Hr''). rewrite Hrun in Hrun'. injection Hrun' as <-. by apply (represents_inj s').
    + intros <-. by exists s'.
  - rewrite Hiff. split; intros H i Hi; apply H; lia.
Qed.

Lemma shuffle_reaches_once_witness :
  ∃ choice : nat → Z, (∀ i, 0 ≤ choice i ≤ Z.of_nat i) ∧
    ∀ rand, (∀ i, 0 ≤ rand i) →
      ((∃ s', fisher_yates_shuffle rand (mk_store 8 {[8 := mk_node 3 12; 12 := mk_node 5 4; 4 := mk_node 7 0]}) = Ok (tt, s') ∧
          represents s' [5; 7; 3]) ↔
       ∀ i, (0 < i < 3)%nat → rand i mod (Z.of_nat i + 1) = choice i).
Proof.
  apply (shuffle_reaches_once _ [3; 5; 7] [5; 7; 3]).
  - exists (λ x, if x =? 8 then 3 else if x =? 12 then 5 else 7), [8; 12; 4]. split; [split_and!|done].
    + split; [done|]. by split_and!.
    + split; [by apply (bool_decide_unpack _)|]. by apply (bool_decide_unpack _).
    + by apply (bool_decide_unpack _); vm_compute.
  - by apply (bool_decide_unpack _); vm_compute.
  - by vm_compute.
  - by apply (bool_decide_unpack _); vm_compute.
Defined.
