(* ===== verification/XString.v ===== *)
(** * The copy-on-write strings of xstring/xs.h and xstring/xs.c

    An [xs] is a union: 16 bytes that hold a string of up to 15 bytes, or the
    pointer, size and capacity of a reference-counted block.  The model keeps the
    [xs] objects and the blocks in two maps; a [char *] points into either.  A
    byte is [None] until it is written.  The build without [DISABLE_COW] is
    modelled, as in the Makefile's default target. *)
From S2P Require Import Prelude.
From stdpp Require Import gmap list.
#[local] Open Scope Z_scope.
#[local] Open Scope c_scope.

Abbreviation byte := (option Z).

(** [Stack data] are the 16 bytes, the last of which holds [space_left] in its
    low half and [is_ptr], 0, in bit 4. *)
Inductive xs :=
| Stack (data : list byte)
| Heap (ptr size capacity : Z).

Record RefCounted := mk_rc { refcnt : Z; rc_data : list byte }.

Record mem := mk_mem { vars : gmap Z xs; blocks : gmap Z RefCounted }.

(** What a [char *] points into, and where. *)
Inductive obj := InVar (x : Z) | InBlock (p : Z).
Definition cptr : Type := obj * Z.

#[export] Instance obj_eq_dec : EqDecision obj.
Proof. solve_decision. Defined.

Definition get_var (x : Z) : M mem xs := gets_some (λ m, vars m !! x).
Definition set_var (x : Z) (v : xs) : M mem unit := modify (λ m, mk_mem (<[x := v]> (vars m)) (blocks m)).
Definition get_block (p : Z) : M mem RefCounted := gets_some (λ m, blocks m !! p).
Definition set_block (p : Z) (b : RefCounted) : M mem unit := modify (λ m, mk_mem (vars m) (<[p := b]> (blocks m))).

(** ** Bytes in memory *)

Definition load (o : obj) : M mem (list byte) :=
  match o with
  | InVar x => v ← get_var x; match v with Stack d => ret d | Heap _ _ _ => fail Undefined end
  | InBlock p => b ← get_block p; ret (rc_data b)
  end.

Definition last_byte (d : list byte) : Z := default 0 (mjoin (d !! 15%nat)).
(** Setting [is_ptr] with a byte of the string would make a pointer of it. *)
Definition store (o : obj) (d : list byte) : M mem unit :=
  match o with
  | InVar x => if Z.testbit (last_byte d) 4 then fail Undefined else set_var x (Stack d)
  | InBlock p => b ← get_block p; set_block p (mk_rc (refcnt b) d)
  end.

Definition in_bounds (off n : Z) (d : list byte) : bool := (0 <=? off) && (0 <=? n) && (off + n <=? Z.of_nat (length d)).

Definition read (p : cptr) (n : Z) : M mem (list byte) :=
  d ← load p.1;
  if in_bounds p.2 n d then ret (take (Z.to_nat n) (drop (Z.to_nat p.2) d)) else fail Undefined.

Definition write (p : cptr) (bs : list byte) : M mem unit :=
  d ← load p.1;
  if in_bounds p.2 (Z.of_nat (length bs)) d
  then store p.1 (take (Z.to_nat p.2) d ++ bs ++ drop (Z.to_nat p.2 + length bs) d)
  else fail Undefined.

(** A byte that is used as a number must have been written. *)
Definition read_byte (p : cptr) : M mem Z :=
  bs ← read p 1;
  match bs with [Some b] => ret b | _ => fail Undefined end.

Definition memmove (dst src : cptr) (n : Z) : M mem unit := bs ← read src n; write dst bs.

Definition overlap (p q : cptr) (n : Z) : bool :=
  bool_decide (p.1 = q.1) && (p.2 <? q.2 + n) && (q.2 <? p.2 + n).

Definition memcpy (dst src : cptr) (n : Z) : M mem unit :=
  if overlap dst src n then fail Undefined else memmove dst src n.

Definition padd (p : cptr) (n : Z) : cptr := (p.1, p.2 + n).

Definition strlen (p : cptr) : M mem Z :=
  d ← load p.1;
  (fix go (d : list byte) (n : Z) : M mem Z :=
    match d with
    | Some c :: d => if c =? 0 then ret n else go d (n + 1)
    | _ => fail Undefined
    end) (drop (Z.to_nat p.2) d) 0.

(** ** xs.h *)

Definition is_ptr (v : xs) : bool := match v with Stack _ => false | Heap _ _ _ => true end.

Definition space_left (d : list byte) : Z := Z.land (last_byte d) 15.
Definition set_space_left (d : list byte) (n : Z) : list byte :=
  <[15%nat := Some (Z.lor (Z.land (last_byte d) 240) (wrapu 4 n))]> d.

(** [size] as the bits of the 16 bytes that it shares. *)
Definition size_bits (d : list byte) : Z := wrapu 54 (le_decode (default 0 <$> drop 8 d)).

Definition refcount_fromxs (v : xs) : M mem Z :=
  match v with Heap p _ _ => ret p | Stack _ => fail AssertFailed end.

Definition refcount_get (x : Z) : M mem Z :=
  v ← get_var x;
  if is_ptr v then p ← refcount_fromxs v; b ← get_block p; ret (refcnt b) else ret 1.

Definition refcount_increment (x : Z) : M mem unit :=
  v ← get_var x; p ← refcount_fromxs v; b ← get_block p; set_block p (mk_rc (u64 (refcnt b + 1)) (rc_data b)).
Definition refcount_decrement (x : Z) : M mem unit :=
  v ← get_var x; p ← refcount_fromxs v; b ← get_block p; set_block p (mk_rc (u64 (refcnt b - 1)) (rc_data b)).

Definition xs_size (x : Z) : M mem Z :=
  v ← get_var x; ret match v with Heap _ size _ => size | Stack d => 15 - space_left d end.
Definition xs_data (x : Z) : M mem cptr :=
  v ← get_var x; ret match v with Heap p _ _ => (InBlock p, 0) | Stack _ => (InVar x, 0) end.
Definition xs_capacity (x : Z) : M mem Z :=
  v ← get_var x; ret match v with Heap _ _ c => Z.shiftl 1 c - 1 | Stack _ => 15 end.
Definition xs_is_free (x : Z) : M mem bool := n ← refcount_get x; ret (0 =? n).

Definition empty_bytes : list byte := replicate 15 (Some 0) ++ [Some 15].
Definition xs_literal_empty : xs := Stack empty_bytes.

(** [__builtin_clz(0)] is undefined. *)
Definition ilog2 (n : Z) : M mem Z := if u32 n =? 0 then fail Undefined else ret (Z.log2 (u32 n)).

Definition xs_newempty (x : Z) : M mem unit := set_var x xs_literal_empty.

Definition free (p : Z) : M mem unit := get_block p ;; modify (λ m, mk_mem (vars m) (delete p (blocks m))).

Definition xs_free (x : Z) : M mem unit :=
  v ← get_var x;
  (if is_ptr v then
     refcount_decrement x ;;
     b ← xs_is_free x;
     if (b : bool) then p ← refcount_fromxs v; free p else ret tt
   else ret tt) ;;
  xs_newempty x.

(** ** xs.c *)

Section operations.
Context (malloc : gmap Z RefCounted → Z).

Definition sizeof_RefCounted : Z := 16.
Definition offsetof_data : Z := 8.

Definition refcount_create (size : Z) : M mem Z :=
  rc ← gets (λ m, malloc (blocks m));
  if rc =? 0 then fail Undefined
  else set_block rc (mk_rc 1 (replicate (Z.to_nat (sizeof_RefCounted + size - 1 - offsetof_data)) None)) ;; ret rc.

Definition refcount_realloc (x size : Z) : M mem Z :=
  n ← refcount_get x;
  massert (1 =? n) ;;
  v ← get_var x;
  src ← refcount_fromxs v;
  p ← refcount_create size;
  n ← xs_size x;
  memcpy (InBlock p, 0) (InBlock src, 0) (n + 1) ;;
  free src ;;
  ret p.

(** [p] is a string of the C program, without its NUL. *)
Definition xs_new (x : Z) (p : list Z) : M mem unit :=
  set_var x xs_literal_empty ;;
  let len := Z.of_nat (length p) + 1 in
  let bytes := (Some <$> p) ++ [Some 0] in
  if 16 <? len then
    n ← ilog2 len;
    let capacity := wrapu 6 (n + 1) in
    ptr ← refcount_create (Z.shiftl 1 capacity);
    set_var x (Heap ptr (wrapu 54 (len - 1)) capacity) ;;
    write (InBlock ptr, 0) bytes
  else
    write (InVar x, 0) bytes ;;
    d ← load (InVar x);
    set_var x (Stack (set_space_left d (15 - (len - 1)))).

Definition xs_grow (x len : Z) : M mem unit :=
  c ← xs_capacity x;
  if len <=? c then ret tt
  else
    n ← ilog2 len;
    let len := n + 1 in
    v ← get_var x;
    match v with
    | Heap _ size _ =>
        ptr ← refcount_realloc x (Z.shiftl 1 len);
        set_var x (Heap ptr size (wrapu 6 len))
    | Stack buf =>
        ptr ← refcount_create (Z.shiftl 1 len);
        write (InBlock ptr, 0) (take 16 buf) ;;
        set_var x (Heap ptr (size_bits buf) (wrapu 6 len))
    end.

(** The automatic variable [tmps]. *)
Definition TMPS : Z := -1.
Definition drop_tmps : M mem xs :=
  v ← get_var TMPS;
  modify (λ m, mk_mem (delete TMPS (vars m)) (blocks m)) ;;
  ret v.

Definition xs_cow (x : Z) : M mem unit :=
  n ← refcount_get x;
  if 1 <? n then
    set_var TMPS xs_literal_empty ;;
    c ← xs_capacity x; xs_grow TMPS c ;;
    dst ← xs_data TMPS; src ← xs_data x; size ← xs_size x; memcpy dst src (size + 1) ;;
    xs_free x ;;
    tmps ← drop_tmps;
    set_var x tmps
  else ret tt.

(** [x->size = n] or [x->space_left = 15 - n]. *)
Definition set_size (x n : Z) : M mem unit :=
  v ← get_var x;
  match v with
  | Heap p _ c => set_var x (Heap p (wrapu 54 n) c)
  | Stack d => set_var x (Stack (set_space_left d (15 - n)))
  end.

Definition xs_concat (string prefix suffix : Z) : M mem unit :=
  pres ← xs_size prefix; sufs ← xs_size suffix; size ← xs_size string; capacity ← xs_capacity string;
  pre ← xs_data prefix; suf ← xs_data suffix; data ← xs_data string;
  (if u64 (size + pres + sufs) <=? capacity then
     xs_cow string ;;
     data ← xs_data string;
     memmove (padd data pres) data size ;;
     memcpy data pre pres ;;
     memcpy (padd data (pres + size)) suf (sufs + 1)
   else
     set_var TMPS xs_literal_empty ;;
     xs_grow TMPS (u64 (size + pres + sufs)) ;;
     tmpdata ← xs_data TMPS;
     memcpy (padd tmpdata pres) data size ;;
     memcpy tmpdata pre pres ;;
     memcpy (padd tmpdata (pres + size)) suf (sufs + 1) ;;
     xs_free string ;;
     tmps ← drop_tmps;
     set_var string tmps) ;;
  set_size string (u64 (size + pres + sufs)).

(** [mask] has a bit for every value of a byte. *)
Definition set_bit (mask : list Z) (b : Z) : list Z :=
  alter (λ m, Z.lor m (Z.shiftl 1 (b mod 8))) (Z.to_nat (b / 8)) mask.
Definition check_bit (mask : list Z) (b : Z) : bool :=
  truthy (Z.land (nth (Z.to_nat (b / 8)) mask 0) (Z.shiftl 1 (b mod 8))).
Definition mask_of (trimset : list Z) : list Z := foldl set_bit (replicate 32 0) trimset.

(** [for (; i < slen; i++) if (!check_bit(dataptr[i])) break;], in [slen - i] rounds *)
Fixpoint skip_front (fuel : nat) (mask : list Z) (dataptr : cptr) (i : Z) : M mem Z :=
  match fuel with
  | O => ret i
  | S fuel =>
      c ← read_byte (padd dataptr i);
      if negb (check_bit mask c) then ret i else skip_front fuel mask dataptr (i + 1)
  end.

(** [for (; slen > 0; slen--) if (!check_bit(dataptr[slen - 1])) break;] *)
Fixpoint skip_back (slen : nat) (mask : list Z) (dataptr : cptr) : M mem Z :=
  match slen with
  | O => ret 0
  | S n =>
      c ← read_byte (padd dataptr (Z.of_nat slen - 1));
      if negb (check_bit mask c) then ret (Z.of_nat slen) else skip_back n mask dataptr
  end.

Definition xs_trim (x : Z) (trimset : list Z) : M mem unit :=
  match trimset with
  | [] => ret tt
  | _ :: _ =>
      dataptr ← xs_data x;
      slen ← xs_size x;
      let mask := mask_of trimset in
      i ← skip_front (Z.to_nat slen) mask dataptr 0;
      slen ← skip_back (Z.to_nat slen) mask dataptr;
      let dataptr := padd dataptr i in
      let slen := u64 (slen - i) in
      xs_cow x ;;
      orig ← xs_data x;
      memmove orig dataptr slen ;;
      c ← read_byte (padd orig slen);
      (if truthy c then write (padd orig slen) [Some 0] else ret tt) ;;
      set_size x slen
  end.

(** [for (; i < slen; ++i) if (check_bit(orig[i])) { orig[i] = 0; ++i; break; }] *)
Fixpoint cut_token (fuel : nat) (mask : list Z) (orig : cptr) (i : Z) : M mem Z :=
  match fuel with
  | O => ret i
  | S fuel =>
      c ← read_byte (padd orig i);
      if check_bit mask c then write (padd orig i) [Some 0] ;; ret (i + 1)
      else cut_token fuel mask orig (i + 1)
  end.

(** The token, NULL being [None], and [saveptr]; first what is done with [orig]. *)
Definition next_token (delim : list Z) (saveptr orig : cptr) : M mem (option cptr * cptr) :=
  let mask := mask_of delim in
  slen ← strlen orig;
  i ← skip_front (Z.to_nat slen) mask orig 0;
  c ← read_byte (padd orig i);
  if c =? 0 then ret (None, saveptr)
  else
    let start := i in
    i ← cut_token (Z.to_nat (slen - i)) mask orig i;
    ret (Some (padd orig start), padd orig i).

Definition xs_tok_r (x : option Z) (delim : list Z) (saveptr : cptr) : M mem (option cptr * cptr) :=
  match delim with
  | [] => match x with Some x => d ← xs_data x; ret (Some d, saveptr) | None => fail Undefined end
  | _ :: _ =>
      orig ← match x with Some x => xs_cow x ;; xs_data x | None => ret saveptr end;
      next_token delim saveptr orig
  end.

Definition xs_copy (src dest : Z) : M mem unit :=
  v ← get_var src;
  set_var dest v ;;
  v ← get_var dest;
  if is_ptr v then refcount_increment dest else ret tt.
End operations.

(** ** Client programs *)

(** The string behind a pointer and that of a variable, as C reads them. *)
Definition text (p : cptr) : M mem (list Z) := n ← strlen p; bs ← read p n; ret (default 0 <$> bs).
Definition c_string (x : Z) : M mem (list Z) := p ← xs_data x; text p.

(** The calls of a client.  [Decl x] is a variable initialized with
    [xs_literal_empty], [Expect] the macro [check] of the unit test. *)
Inductive call :=
| Decl (x : Z)
| New (x : Z) (p : list Z)
| Free (x : Z)
| Concat (x prefix suffix : Z)
| Trim (x : Z) (trimset : list Z)
| Copy (src dest : Z)
| Expect (x : Z) (s : list Z).

Definition exec_call (malloc : gmap Z RefCounted → Z) (c : call) : M mem unit :=
  match c with
  | Decl x => set_var x xs_literal_empty
  | New x p => xs_new malloc x p
  | Free x => xs_free x
  | Concat x p q => xs_concat malloc x p q
  | Trim x t => xs_trim malloc x t
  | Copy src dest => xs_copy src dest
  | Expect x s => c ← c_string x; massert (bool_decide (c = s))
  end.

Fixpoint run_calls (malloc : gmap Z RefCounted → Z) (cs : list call) : M mem unit :=
  match cs with
  | [] => ret tt
  | c :: cs => exec_call malloc c ;; run_calls malloc cs
  end.

(** The test [copy_on_write]; the variables 0 to 6 are [empty], [x], [y], [z],
    [w] and the two later values of [w] and [z], and [digits] is
    "0123456789abcdef". *)
Definition digits : list Z := [48; 49; 50; 51; 52; 53; 54; 55; 56; 57; 97; 98; 99; 100; 101; 102].
Definition copy_on_write : list call :=
  [Decl 0; New 0 []; Decl 1; New 1 digits; Decl 2; Copy 1 2; Decl 3; Copy 1 3; Decl 4; Copy 1 4;
   Expect 1 digits; Expect 2 digits; Expect 3 digits; Expect 4 digits;
   Concat 2 0 1; Concat 3 1 1; Trim 4 [48; 49; 50; 51]; Expect 1 digits;
   Expect 2 (digits ++ digits); Expect 3 (digits ++ digits ++ digits); Expect 4 (drop 4 digits);
   Free 4; Free 3; Decl 5; Copy 2 5; Decl 6; Copy 2 6;
   Expect 2 (digits ++ digits); Expect 5 (digits ++ digits); Expect 6 (digits ++ digits);
   Concat 1 0 6; Expect 1 (digits ++ digits ++ digits); Trim 1 [48]; Expect 1 (drop 1 digits ++ digits ++ digits);
   Free 1; Free 2; Free 6; Free 5].

(** The tokens of a string: the first call gets the string, the others NULL. *)
Fixpoint tokenize (malloc : gmap Z RefCounted → Z) (fuel : nat) (x : option Z) (delim : list Z) (saveptr : cptr) : M mem (list (list Z)) :=
  match fuel with
  | O => fail Exhausted
  | S fuel =>
      ' (tok, saveptr) ← xs_tok_r malloc x delim saveptr;
      match tok with
      | None => ret []
      | Some p => w ← text p; ws ← tokenize malloc fuel None delim saveptr; ret (w :: ws)
      end
  end.

(** *** Strings as values *)

Definition chars (s : list Z) : Prop := Forall (λ c, 0 < c < 256) s.
#[export] Instance chars_dec s : Decision (chars s).
Proof. unfold chars. apply _. Defined.

Fixpoint drop_set (t s : list Z) : list Z :=
  match s with
  | [] => []
  | c :: s' => if bool_decide (c ∈ t) then drop_set t s' else s
  end.

Definition trim_set (t s : list Z) : list Z := reverse (drop_set t (reverse (drop_set t s))).

(** The characters before the first of [t], and those behind it. *)
Fixpoint word (t s : list Z) : list Z :=
  match s with
  | [] => []
  | c :: s => if bool_decide (c ∈ t) then [] else c :: word t s
  end.
Definition after (t s : list Z) : list Z := drop (S (length (word t s))) s.

(** The words of [s] between characters of [t]; [n] is at least their number. *)
Fixpoint tokens (n : nat) (t s : list Z) : list (list Z) :=
  match n with
  | O => []
  | S n => match drop_set t s with [] => [] | r => word t r :: tokens n t (after t r) end
  end.

(** The string up to the end of its first word. *)
Definition first_cut (t s : list Z) : list Z :=
  match drop_set t s with [] => s | r => take (length s - length r + length (word t r)) s end.

(** What a call does to the strings of the variables; [None] for calls that the
    library does not support. *)
Definition call_spec (c : call) (σ : gmap Z (list Z)) : option (gmap Z (list Z)) :=
  match c with
  | Decl x => if bool_decide (σ !! x = None ∧ x ≠ TMPS) then Some (<[x := []]> σ) else None
  | New x p =>
      if bool_decide (σ !! x = Some [] ∧ chars p ∧ Z.of_nat (length p) < 2 ^ 32 - 1) then Some (<[x := p]> σ) else None
  | Free x => _ ← σ !! x; Some (<[x := []]> σ)
  | Concat x p q =>
      a ← σ !! p; b ← σ !! q; s ← σ !! x;
      if bool_decide (x ≠ p ∧ x ≠ q ∧ Z.of_nat (length (a ++ s ++ b)) < 2 ^ 32 - 1) then Some (<[x := a ++ s ++ b]> σ) else None
  | Trim x t =>
      s ← σ !! x;
      if bool_decide (chars t ∧ (t ≠ [] → s ≠ [] → trim_set t s ≠ [])) then Some (<[x := trim_set t s]> σ) else None
  | Copy src dest =>
      s ← σ !! src;
      if bool_decide (σ !! dest = Some [] ∧ Z.of_nat (size σ) < 2 ^ 64) then Some (<[dest := s]> σ) else None
  | Expect x s => if bool_decide (σ !! x = Some s) then Some σ else None
  end%stdpp.

Fixpoint calls_spec (cs : list call) (σ : gmap Z (list Z)) : option (gmap Z (list Z)) :=
  match cs with
  | [] => Some σ
  | c :: cs => match call_spec c σ with None => None | Some σ => calls_spec cs σ end
  end.

Definition no_strings : mem := mk_mem ∅ ∅.

(** ** Objects as functions on memories *)

Definition bytes (s : list Z) : list byte := (Some <$> s) ++ [Some 0].

Definition obj_data (m : mem) (o : obj) : option (list byte) :=
  match o with
  | InVar x => match vars m !! x with Some (Stack d) => Some d | _ => None end
  | InBlock p => rc_data <$> blocks m !! p
  end.

Definition upd (m : mem) (o : obj) (d : list byte) : mem :=
  match o with
  | InVar x => mk_mem (<[x := Stack d]> (vars m)) (blocks m)
  | InBlock p => mk_mem (vars m) (alter (λ b, mk_rc (refcnt b) d) p (blocks m))
  end.

Definition stack_ok (o : obj) (d : list byte) : Prop :=
  match o with InVar _ => Z.testbit (last_byte d) 4 = false | InBlock _ => True end.

Definition splice (off : nat) (bs d : list byte) : list byte := take off d ++ bs ++ drop (off + length bs) d.

Lemma length_splice off bs d : (off + length bs ≤ length d)%nat → length (splice off bs d) = length d.
Proof. intros H. unfold splice. rewrite !length_app, length_take, length_drop. lia. Qed.

Lemma get_var_run m x v {B} (k : xs → M mem B) : vars m !! x = Some v → bind (get_var x) k m = k v m.
Proof. intros Hx. unfold get_var, bind, gets_some. by rewrite Hx. Qed.

Lemma get_block_run m p b {B} (k : RefCounted → M mem B) : blocks m !! p = Some b → bind (get_block p) k m = k b m.
Proof. intros Hp. unfold get_block, bind, gets_some. by rewrite Hp. Qed.

Lemma load_obj_run m o d {B} (k : list byte → M mem B) : obj_data m o = Some d → bind (load o) k m = k d m.
Proof.
  destruct o as [x|p]; cbn.
  - destruct (vars m !! x) as [[d'|]|] eqn:Hx; [|done..]. intros [= ->]. by rewrite bind_assoc, (get_var_run _ _ _ _ Hx).
  - destruct (blocks m !! p) as [b|] eqn:Hp; [|done]. intros [= <-]. by rewrite bind_assoc, (get_block_run _ _ _ _ Hp).
Qed.

Lemma store_obj_run m o d d' : obj_data m o = Some d → stack_ok o d' → store o d' m = Ok (tt, upd m o d').
Proof.
  destruct o as [x|p]; cbn; [by intros _ ->|].
  destruct (blocks m !! p) as [b|] eqn:Hp; [|done]. intros _ _. rewrite (get_block_run _ _ _ _ Hp).
  unfold set_block, modify. do 3 f_equal. apply map_eq. intros q. destruct (decide (q = p)) as [->|Hq].
  - by rewrite lookup_insert_eq, lookup_alter_eq, Hp.
  - by rewrite lookup_insert_ne, lookup_alter_ne.
Qed.

Lemma in_bounds_true (off n : nat) d : (off + n ≤ length d)%nat → in_bounds (Z.of_nat off) (Z.of_nat n) d = true.
Proof. intros H. unfold in_bounds. rewrite !andb_true_iff, !Z.leb_le. lia. Qed.

Lemma read_run m o (off n : nat) d {B} (k : list byte → M mem B) : obj_data m o = Some d → (off + n ≤ length d)%nat →
  bind (read (o, Z.of_nat off) (Z.of_nat n)) k m = k (take n (drop off d)) m.
Proof.
  intros Ho Hb. unfold read. rewrite bind_assoc, (load_obj_run _ _ _ _ Ho). cbn [fst snd].
  by rewrite (in_bounds_true _ _ _ Hb), !Nat2Z.id.
Qed.

Lemma write_run m o (off : nat) bs d : obj_data m o = Some d → (off + length bs ≤ length d)%nat → stack_ok o (splice off bs d) →
  write (o, Z.of_nat off) bs m = Ok (tt, upd m o (splice off bs d)).
Proof.
  intros Ho Hb Hs. unfold write. rewrite (load_obj_run _ _ _ _ Ho). cbn [fst snd]. rewrite (in_bounds_true _ _ _ Hb), Nat2Z.id.
  by apply (store_obj_run _ _ d).
Qed.

Lemma memmove_run m od os (off off' n : nat) d ds : obj_data m od = Some d → obj_data m os = Some ds →
  (off + n ≤ length d)%nat → (off' + n ≤ length ds)%nat → stack_ok od (splice off (take n (drop off' ds)) d) →
  memmove (od, Z.of_nat off) (os, Z.of_nat off') (Z.of_nat n) m = Ok (tt, upd m od (splice off (take n (drop off' ds)) d)).
Proof.
  intros Hd Hs Hb Hb' Hok. unfold memmove. rewrite (read_run _ _ _ _ _ _ Hs Hb'). apply (write_run _ _ _ _ d); [done| |done].
  rewrite length_take, length_drop. lia.
Qed.

Lemma memcpy_run m od os (off off' n : nat) d ds : od ≠ os → obj_data m od = Some d → obj_data m os = Some ds →
  (off + n ≤ length d)%nat → (off' + n ≤ length ds)%nat → stack_ok od (splice off (take n (drop off' ds)) d) →
  memcpy (od, Z.of_nat off) (os, Z.of_nat off') (Z.of_nat n) m = Ok (tt, upd m od (splice off (take n (drop off' ds)) d)).
Proof.
  intros Hne. unfold memcpy, overlap. cbn [fst]. rewrite bool_decide_false by done. cbn [andb]. apply memmove_run.
Qed.

Lemma upd_same m o d d' : obj_data m o = Some d → obj_data (upd m o d') o = Some d'.
Proof.
  destruct o as [x|p]; cbn; [by rewrite lookup_insert_eq|]. rewrite lookup_alter_eq. by destruct (blocks m !! p).
Qed.

Lemma upd_other m o o' d' : o ≠ o' → obj_data (upd m o d') o' = obj_data m o'.
Proof.
  destruct o as [x|p], o' as [y|q]; intros Hne; cbn; try done.
  - rewrite lookup_insert_ne; [done|congruence].
  - rewrite lookup_alter_ne; [done|congruence].
Qed.

Lemma upd_upd m o d d' : upd (upd m o d) o d' = upd m o d'.
Proof.
  destruct o as [x|p]; unfold upd; cbn; f_equal; [by rewrite insert_insert_eq|]. apply map_eq. intros q.
  destruct (decide (q = p)) as [->|Hq]; [|by rewrite !lookup_alter_ne]. rewrite !lookup_alter_eq. by destruct (blocks m !! p).
Qed.

Lemma last_byte_app d1 d2 : (length d1 ≤ 15)%nat → last_byte (d1 ++ d2) = default 0 (mjoin (d2 !! (15 - length d1)%nat)).
Proof. intros H. unfold last_byte. by rewrite lookup_app_r. Qed.

(** A write into the first 15 bytes leaves the flags. *)
Lemma last_byte_splice off bs d : (off + length bs ≤ 15)%nat → (off ≤ length d)%nat → last_byte (splice off bs d) = last_byte d.
Proof.
  intros Hb Hd. unfold splice. rewrite app_assoc. rewrite last_byte_app; rewrite length_app, length_take; [|lia].
  unfold last_byte. rewrite lookup_drop. do 3 f_equal. lia.
Qed.

Lemma length_bytes s : length (bytes s) = S (length s).
Proof. unfold bytes. rewrite length_app, length_fmap. cbn. lia. Qed.

Lemma bytes_app s t : bytes (s ++ t) = (Some <$> s) ++ bytes t.
Proof. unfold bytes. by rewrite fmap_app, <- app_assoc. Qed.

Lemma take_bytes s r : take (length s) (bytes s ++ r) = Some <$> s.
Proof. unfold bytes. rewrite <- app_assoc, take_app_le by (by rewrite length_fmap). apply take_ge. by rewrite length_fmap. Qed.

Lemma take_bytes_all s r : take (length s + 1) (bytes s ++ r) = bytes s.
Proof. rewrite take_app_le by (rewrite length_bytes; lia). apply take_ge. rewrite length_bytes. lia. Qed.

(** ** The invariant *)

Definition vptr (v : xs) : option Z := match v with Heap p _ _ => Some p | Stack _ => None end.

(** How many variables share the block [p]. *)
Definition points (p : Z) (v : xs) : Z := if decide (vptr v = Some p) then 1 else 0.
Definition users (vs : gmap Z xs) (p : Z) : Z := map_fold (λ _ v n, points p v + n) 0 vs.

Lemma users_insert_new vs x v p : vs !! x = None → users (<[x := v]> vs) p = points p v + users vs p.
Proof. intros Hx. unfold users. rewrite map_fold_insert_L; [done| |done]. intros. lia. Qed.

Lemma users_delete vs x v p : vs !! x = Some v → users vs p = points p v + users (delete x vs) p.
Proof.
  intros Hx. rewrite <- (users_insert_new _ x) by apply lookup_delete_eq. by rewrite insert_delete_id.
Qed.

Lemma users_insert vs x v w p : vs !! x = Some v → users (<[x := w]> vs) p = users vs p - points p v + points p w.
Proof.
  intros Hx. rewrite (users_delete vs x v p Hx). rewrite <- insert_delete_eq, users_insert_new by apply lookup_delete_eq. lia.
Qed.

Lemma points_bound p v : 0 ≤ points p v ≤ 1.
Proof. unfold points. case_decide; lia. Qed.

Lemma users_bound vs p : 0 ≤ users vs p ≤ Z.of_nat (size vs).
Proof.
  induction vs as [|x v vs Hx IH] using map_ind; [done|]. rewrite users_insert_new, map_size_insert_None by done.
  pose proof (points_bound p v). lia.
Qed.

Lemma users_zero vs p : (∀ x v, vs !! x = Some v → vptr v ≠ Some p) → users vs p = 0.
Proof.
  induction vs as [|x v vs Hx IH] using map_ind; intros Hv; [done|]. rewrite users_insert_new by done.
  unfold points. rewrite decide_False by (apply (Hv x); by rewrite lookup_insert_eq).
  apply IH. intros y w Hy. apply (Hv y). rewrite lookup_insert_ne; [done|]. intros ->. by rewrite Hx in Hy.
Qed.

Lemma users_two vs x y v w p : x ≠ y → vs !! x = Some v → vs !! y = Some w → vptr v = Some p → vptr w = Some p → 2 ≤ users vs p.
Proof.
  intros Hxy Hx Hy Hv Hw. rewrite (users_delete vs x v p Hx).
  rewrite (users_delete _ y w p) by (by rewrite lookup_delete_ne).
  unfold points. rewrite !decide_True by done. pose proof (users_bound (delete y (delete x vs)) p). lia.
Qed.

(** The string [s] of a variable without the size, and the size. *)
Definition content (bl : gmap Z RefCounted) (v : xs) (s : list Z) : Prop :=
  match v with
  | Stack d => length d = 16%nat ∧ ∃ r, d = bytes s ++ r
  | Heap p _ c => 5 ≤ c ≤ 32 ∧ ∃ b r, bl !! p = Some b ∧ rc_data b = bytes s ++ r ∧ Z.of_nat (length (rc_data b)) = 2 ^ c + 7 ∧
      Z.of_nat (length s) < 2 ^ c
  end.

Definition sized (v : xs) (s : list Z) : Prop :=
  match v with
  | Stack d => last_byte d = 15 - Z.of_nat (length s)
  | Heap _ size _ => size = Z.of_nat (length s)
  end.

Definition string_ok (s : list Z) : Prop := chars s ∧ Z.of_nat (length s) < 2 ^ 32 - 1.

Definition var_ok (bl : gmap Z RefCounted) (v : xs) (s : list Z) : Prop :=
  content bl v s ∧ sized v s ∧ string_ok s ∧ (is_ptr v = true → s ≠ []).

(** The counts are the numbers of sharers, and no block is unused. *)
Definition rc_ok (m : mem) : Prop := ∀ p b, blocks m !! p = Some b → refcnt b = users (vars m) p ∧ 0 < refcnt b < 2 ^ 64.

Record inv (m : mem) (σ : gmap Z (list Z)) : Prop := {
  inv_var : ∀ x s, σ !! x = Some s → ∃ v, vars m !! x = Some v ∧ var_ok (blocks m) v s;
  inv_dom : ∀ x v, vars m !! x = Some v → is_Some (σ !! x);
  inv_rc : rc_ok m;
  inv_tmps : σ !! TMPS = None;
}.

Lemma sized_stack d s r : length d = 16%nat → d = bytes s ++ r → sized (Stack d) s → (length s ≤ 15)%nat ∧ space_left d = 15 - Z.of_nat (length s).
Proof.
  intros Hl -> Hs. rewrite length_app, length_bytes in Hl. cbn in Hs. split; [lia|]. unfold space_left. rewrite Hs.
  change 15 with (Z.ones 4) at 2. rewrite Z.land_ones by done. apply Z.mod_small. lia.
Qed.

Lemma inv_block m σ x s p sz c : inv m σ → σ !! x = Some s → vars m !! x = Some (Heap p sz c) →
  ∃ b r, blocks m !! p = Some b ∧ rc_data b = bytes s ++ r ∧ refcnt b = users (vars m) p ∧ 0 < refcnt b < 2 ^ 64 ∧ 5 ≤ c ≤ 32 ∧
    Z.of_nat (length (rc_data b)) = 2 ^ c + 7 ∧ Z.of_nat (length s) < 2 ^ c ∧ sz = Z.of_nat (length s).
Proof.
  intros Hi Hx Hv. destruct (inv_var _ _ Hi x s Hx) as (v&Hv'&Hok). rewrite Hv in Hv'. injection Hv' as <-.
  destruct Hok as (([Hc Hc2]&b&r&Hb&Hd&Hl&Hs)&Hsz&_). destruct (inv_rc _ _ Hi p b Hb) as [H1 [H2 H3]]. exists b, r. by split_and!.
Qed.

(** The object that holds the bytes of a variable. *)
Definition home (x : Z) (v : xs) : obj := match v with Heap p _ _ => InBlock p | Stack _ => InVar x end.

Lemma content_data m x v s : vars m !! x = Some v → content (blocks m) v s →
  ∃ d r, obj_data m (home x v) = Some d ∧ d = bytes s ++ r.
Proof.
  intros Hx. destruct v as [d|p sz c]; cbn.
  - intros (_&r&->). rewrite Hx. eauto.
  - intros (_&b&r&Hb&Hd&_). rewrite Hb. cbn. eauto.
Qed.

Lemma xs_data_run m x v {B} (k : cptr → M mem B) : vars m !! x = Some v → bind (xs_data x) k m = k (home x v, 0) m.
Proof. intros Hx. unfold xs_data. rewrite bind_assoc, (get_var_run _ _ _ _ Hx), (bind_ok _ _ _ _ _ (ret_run _ _)). by destruct v. Qed.

Lemma xs_size_run m x v s {B} (k : Z → M mem B) : vars m !! x = Some v → content (blocks m) v s → sized v s →
  bind (xs_size x) k m = k (Z.of_nat (length s)) m.
Proof.
  intros Hx Hc Hs. unfold xs_size. rewrite bind_assoc, (get_var_run _ _ _ _ Hx), (bind_ok _ _ _ _ _ (ret_run _ _)).
  destruct v as [d|p sz c]; [|by rewrite <- Hs]. destruct Hc as (Hl&r&Hd). destruct (sized_stack d s r Hl Hd Hs) as [? ->]. f_equal. lia.
Qed.

Definition cap (v : xs) : Z := match v with Heap _ _ c => 2 ^ c - 1 | Stack _ => 15 end.

Lemma xs_capacity_run m x v {B} (k : Z → M mem B) : vars m !! x = Some v → bind (xs_capacity x) k m = k (cap v) m.
Proof.
  intros Hx. unfold xs_capacity. rewrite bind_assoc, (get_var_run _ _ _ _ Hx), (bind_ok _ _ _ _ _ (ret_run _ _)).
  destruct v; [done|]. cbn. by rewrite Z.shiftl_1_l.
Qed.

(** *** Sharing *)

(** The counts are right and no variable dangles. *)
Definition wf (m : mem) : Prop :=
  rc_ok m ∧ ∀ x v p, vars m !! x = Some v → vptr v = Some p → is_Some (blocks m !! p).

Lemma inv_wf m σ : inv m σ → wf m.
Proof.
  intros Hi. split; [apply Hi|]. intros x v p Hx Hp. destruct (inv_dom _ _ Hi x v Hx) as [s Hs].
  destruct v as [d|p' sz c]; [done|]. injection Hp as ->. destruct (inv_block _ _ _ _ _ _ _ Hi Hs Hx) as (b&r&Hb&_). by eexists.
Qed.

(** Blocks as far as their readers see them. *)
Definition same_data (m m' : mem) (p : Z) : Prop := rc_data <$> blocks m' !! p = rc_data <$> blocks m !! p.

Lemma content_frame m m' v s : (∀ p, vptr v = Some p → same_data m m' p) → content (blocks m) v s → content (blocks m') v s.
Proof.
  destruct v as [d|p sz c]; [done|]. intros Hf (Hc&b&r&Hb&Hr). specialize (Hf p eq_refl). unfold same_data in Hf. rewrite Hb in Hf.
  destruct (blocks m' !! p) as [b'|] eqn:Hb'; [|done]. injection Hf as Hd. split; [done|]. exists b', r. by rewrite Hd.
Qed.

Lemma points_none p v : vptr v = None → points p v = 0.
Proof. intros H. unfold points. by rewrite H. Qed.

Lemma wf_set_stack m x d : wf m → (∀ v, vars m !! x = Some v → vptr v = None) → wf (mk_mem (<[x := Stack d]> (vars m)) (blocks m)).
Proof.
  intros [Hrc Hd] Hx. split.
  - intros p b Hb. cbn in *. destruct (Hrc p b Hb) as [-> ?]. split; [|done]. destruct (vars m !! x) as [v|] eqn:Hv.
    + rewrite (users_insert _ _ v) by done. rewrite !points_none by (try done; by apply Hx). lia.
    + rewrite users_insert_new by done. by rewrite points_none.
  - intros y v p Hy Hp. cbn in *. apply lookup_insert_Some in Hy as [[<- <-]|[_ Hy]]; [done|by eapply Hd].
Qed.

Lemma wf_unused m p : wf m → blocks m !! p = None → users (vars m) p = 0.
Proof. intros [_ Hd] Hp. apply users_zero. intros x v Hx Hv. destruct (Hd x v p Hx Hv) as [b Hb]. by rewrite Hp in Hb. Qed.

Lemma wf_alloc m x v q d sz c : wf m → vars m !! x = Some v → vptr v = None → blocks m !! q = None →
  wf (mk_mem (<[x := Heap q sz c]> (vars m)) (<[q := mk_rc 1 d]> (blocks m))).
Proof.
  intros Hwf Hx Hv Hq. pose proof (wf_unused m q Hwf Hq) as Hu. destruct Hwf as [Hrc Hd]. split.
  - intros p b Hb. cbn in *. rewrite (users_insert _ _ v) by done. rewrite (points_none _ v Hv). unfold points. cbn.
    apply lookup_insert_Some in Hb as [[<- <-]|[Hne Hb]].
    + rewrite decide_True by done. cbn. lia.
    + rewrite decide_False by congruence. destruct (Hrc p b Hb). lia.
  - intros y w p Hy Hp. cbn in *. apply lookup_insert_Some in Hy as [[<- <-]|[_ Hy]].
    + injection Hp as <-. rewrite lookup_insert_eq. by eexists.
    + apply lookup_insert_is_Some'. right. by eapply Hd.
Qed.

Lemma wf_upd m o d : wf m → is_Some (obj_data m o) → wf (upd m o d).
Proof.
  intros Hwf [d0 Ho]. destruct o as [x|p]; cbn in *.
  - apply wf_set_stack; [done|]. intros v Hv. rewrite Hv in Ho. by destruct v.
  - destruct Hwf as [Hrc Hd]. split.
    + intros q b Hb. cbn in *. apply lookup_alter_Some in Hb as [(<-&b0&Hb&->)|[_ Hb]]; [|by apply Hrc]. cbn. by apply Hrc.
    + intros y v q Hy Hq. cbn in *. apply lookup_alter_is_Some. by eapply Hd.
Qed.

(** The blocks after the release of one reference. *)
Definition released (m : mem) (v : xs) : gmap Z RefCounted :=
  match v with
  | Stack _ => blocks m
  | Heap p _ _ =>
      match blocks m !! p with
      | Some b => if refcnt b =? 1 then delete p (blocks m) else <[p := mk_rc (refcnt b - 1) (rc_data b)]> (blocks m)
      | None => blocks m
      end
  end.

Lemma xs_free_run m x v : wf m → vars m !! x = Some v →
  xs_free x m = Ok (tt, mk_mem (<[x := xs_literal_empty]> (vars m)) (released m v)).
Proof.
  intros [Hrc Hd] Hx. unfold xs_free. rewrite (get_var_run _ _ _ _ Hx). destruct v as [d|p sz c]; [done|]. cbn [is_ptr].
  destruct (Hd x _ p Hx eq_refl) as [b Hb]. destruct (Hrc p b Hb) as [Hn Hr]. unfold released. rewrite Hb.
  unfold refcount_decrement. rewrite !bind_assoc, (get_var_run _ _ _ _ Hx). cbn [refcount_fromxs].
  rewrite bind_assoc, (bind_ok _ _ _ _ _ (ret_run _ _)), bind_assoc, (get_block_run _ _ _ _ Hb). unfold set_block.
  rewrite (bind_ok _ _ _ _ _ (modify_run _ _)). rewrite (wrapu_small 64 (refcnt b - 1)) by lia.
  set (m1 := mk_mem _ _). assert (vars m1 !! x = Some (Heap p sz c)) as Hx1 by done.
  assert (blocks m1 !! p = Some (mk_rc (refcnt b - 1) (rc_data b))) as Hb1 by (cbn; by rewrite lookup_insert_eq).
  unfold xs_is_free, refcount_get. rewrite !bind_assoc, (get_var_run _ _ _ _ Hx1). cbn [is_ptr refcount_fromxs].
  rewrite bind_assoc, (bind_ok _ _ _ _ _ (ret_run _ _)), bind_assoc, (get_block_run _ _ _ _ Hb1). cbn [refcnt].
  do 2 rewrite (bind_ok _ _ _ _ _ (ret_run _ _)). destruct (Z.eqb_spec 0 (refcnt b - 1)) as [H0|H0].
  - rewrite (proj2 (Z.eqb_eq (refcnt b) 1)) by lia. rewrite bind_assoc, (bind_ok _ _ _ _ _ (ret_run _ _)).
    unfold free. rewrite bind_assoc, (get_block_run _ _ _ _ Hb1), (bind_ok _ _ _ _ _ (modify_run _ _)).
    unfold m1. cbn. do 2 f_equal. unfold set_var, modify. cbn. by rewrite delete_insert_eq.
  - rewrite (proj2 (Z.eqb_neq (refcnt b) 1)) by lia. by rewrite (bind_ok _ _ _ _ _ (ret_run _ _)).
Qed.

Lemma wf_free m x v : wf m → vars m !! x = Some v → wf (mk_mem (<[x := xs_literal_empty]> (vars m)) (released m v)).
Proof.
  intros Hwf Hx. destruct v as [d|p sz c]; [apply wf_set_stack; [done|]; intros v Hv; rewrite Hx in Hv; by injection Hv as <-|].
  destruct Hwf as [Hrc Hd]. destruct (Hd x _ p Hx eq_refl) as [b Hb]. cbn [released]. rewrite Hb. destruct (Hrc p b Hb) as [Hn Hr].
  assert (∀ q, users (<[x := xs_literal_empty]> (vars m)) q = users (vars m) q - points q (Heap p sz c)) as Hu.
  { intros q. rewrite (users_insert _ _ _ _ _ Hx), (points_none q xs_literal_empty eq_refl). lia. }
  unfold points in Hu. cbn in Hu. destruct (Z.eqb_spec (refcnt b) 1) as [H1|H1]; split; cbn.
  - intros q b' Hb'. cbn in Hb'. apply lookup_delete_Some in Hb' as [Hne Hb']. rewrite Hu, decide_False by congruence.
    destruct (Hrc q b' Hb'). split; [lia|done].
  - intros y w q Hy Hq. cbn in *. apply lookup_insert_Some in Hy as [[<- <-]|[Hne Hy]]; [done|].
    rewrite lookup_delete_ne; [by eapply Hd|]. intros ->.
    pose proof (users_two (vars m) x y _ _ q ltac:(congruence) Hx Hy eq_refl Hq). lia.
  - intros q b' Hb'. cbn in Hb'. rewrite Hu. apply lookup_insert_Some in Hb' as [[<- <-]|[Hne Hb']].
    + rewrite decide_True by done. cbn. lia.
    + rewrite decide_False by congruence. destruct (Hrc q b' Hb'). split; [lia|done].
  - intros y w q Hy Hq. cbn in *. apply lookup_insert_Some in Hy as [[<- <-]|[Hne Hy]]; [done|].
    apply lookup_insert_is_Some'. right. by eapply Hd.
Qed.

Lemma released_other m v p : vptr v ≠ Some p → released m v !! p = blocks m !! p.
Proof.
  destruct v as [d|q sz c]; [done|]. cbn. intros Hne. destruct (blocks m !! q) as [b|]; [|done].
  case_match; [rewrite lookup_delete_ne|rewrite lookup_insert_ne]; congruence.
Qed.

(** What other variables point to is not freed. *)
Lemma released_shared m x y v w p : wf m → x ≠ y → vars m !! x = Some v → vars m !! y = Some w → vptr w = Some p →
  rc_data <$> released m v !! p = rc_data <$> blocks m !! p.
Proof.
  intros [Hrc _] Hxy Hx Hy Hw. destruct (decide (vptr v = Some p)) as [Hv|Hv]; [|by rewrite released_other].
  destruct v as [d|q sz c]; [done|]. injection Hv as ->. cbn. destruct (blocks m !! p) as [b|] eqn:Hb; [|by rewrite Hb].
  destruct (Hrc p b Hb) as [Hn _]. pose proof (users_two (vars m) x y _ _ p Hxy Hx Hy eq_refl Hw).
  rewrite (proj2 (Z.eqb_neq _ 1)) by lia. by rewrite lookup_insert_eq.
Qed.

(** [*x = tmps] *)
Lemma wf_move m x v : wf m → x ≠ TMPS → vars m !! TMPS = Some v → (∀ w, vars m !! x = Some w → vptr w = None) →
  wf (mk_mem (<[x := v]> (delete TMPS (vars m))) (blocks m)).
Proof.
  intros [Hrc Hd] Hne Ht Hx. split.
  - intros p b Hb. cbn in *. destruct (Hrc p b Hb) as [-> ?]. split; [|done]. rewrite (users_delete _ _ _ _ Ht).
    destruct (vars m !! x) as [w|] eqn:Hw.
    + rewrite (users_insert _ _ w) by (by rewrite lookup_delete_ne). rewrite (points_none p w) by (by apply Hx). lia.
    + rewrite users_insert_new; [done|]. by rewrite lookup_delete_ne.
  - intros y w p Hy Hp. cbn in *. apply lookup_insert_Some in Hy as [[<- <-]|[_ Hy]]; [by eapply Hd|].
    apply lookup_delete_Some in Hy as [_ Hy]. by eapply Hd.
Qed.

(** *** Sets of characters *)

Lemma truthy_land_bit x k : 0 ≤ k → truthy (Z.land x (Z.shiftl 1 k)) = Z.testbit x k.
Proof.
  intros Hk. rewrite Z.shiftl_1_l. unfold truthy. destruct (Z.testbit x k) eqn:Hb.
  - apply negb_true_iff, Z.eqb_neq. intros H0. assert (Z.testbit (Z.land x (2 ^ k)) k = false) as H by (rewrite H0; apply Z.bits_0).
    by rewrite Z.land_spec, Hb, Z.pow2_bits_true in H.
  - apply negb_false_iff, Z.eqb_eq, Z.bits_inj'. intros n Hn. rewrite Z.land_spec, Z.bits_0, Z.pow2_bits_eqb by done.
    destruct (Z.eqb_spec k n) as [->|]; [by rewrite Hb|apply andb_false_r].
Qed.

Lemma check_set_bit mask b c : length mask = 32%nat → 0 ≤ b < 256 → 0 ≤ c < 256 →
  check_bit (set_bit mask b) c = check_bit mask c || (b =? c).
Proof.
  intros Hl Hb Hc. unfold check_bit, set_bit. pose proof (Z.mod_pos_bound b 8 ltac:(lia)). pose proof (Z.mod_pos_bound c 8 ltac:(lia)).
  rewrite !truthy_land_bit, !nth_lookup by lia. pose proof (Z.div_mod b 8 ltac:(lia)). pose proof (Z.div_mod c 8 ltac:(lia)).
  destruct (decide (b / 8 = c / 8)) as [Heq|Hne].
  - rewrite Heq, list_lookup_alter. destruct (lookup_lt_is_Some_2 mask (Z.to_nat (c / 8))) as [w ->]; [rewrite Hl; lia|].
    rewrite decide_True by done. cbn [fmap option_fmap option_map from_option id]. rewrite Z.lor_spec, Z.shiftl_1_l, Z.pow2_bits_eqb by lia. f_equal.
    destruct (Z.eqb_spec b c), (Z.eqb_spec (b mod 8) (c mod 8)); try done; [congruence|lia].
  - rewrite list_lookup_alter_ne by lia. rewrite (proj2 (Z.eqb_neq b c)) by congruence. by rewrite orb_false_r.
Qed.

Lemma check_mask t c : chars t → 0 ≤ c < 256 → check_bit (mask_of t) c = bool_decide (c ∈ t).
Proof.
  intros Ht Hc. unfold mask_of. assert (∀ mask, length mask = 32%nat →
    check_bit (foldl set_bit mask t) c = check_bit mask c || bool_decide (c ∈ t)) as H.
  { induction Ht as [|b t Hb Ht IH]; intros mask Hl; cbn [foldl]; [by rewrite orb_false_r|].
    rewrite IH by (unfold set_bit; by rewrite length_alter). rewrite check_set_bit by lia. rewrite <- orb_assoc. f_equal.
    destruct (Z.eqb_spec b c) as [->|Hne]; [symmetry; apply bool_decide_true; by left|].
    apply bool_decide_ext. rewrite elem_of_cons. naive_solver. }
  rewrite H by done. replace (check_bit (replicate 32 0) c) with false; [done|]. unfold check_bit.
  rewrite truthy_land_bit by (apply Z.mod_pos_bound; lia). rewrite nth_lookup.
  destruct (replicate 32 0 !! _) as [w|] eqn:Hw; [apply lookup_replicate in Hw as [-> _]|]; by rewrite Z.bits_0.
Qed.

Lemma drop_set_split t s : ∃ A, s = A ++ drop_set t s ∧ (∀ c, c ∈ A → c ∈ t) ∧ ∀ c r, drop_set t s = c :: r → c ∉ t.
Proof.
  induction s as [|c s (A&H1&H2&H3)]; [by exists []; split_and!; [done|intros c Hc; by apply not_elem_of_nil in Hc|]|].
  cbn [drop_set]. case_bool_decide as Hc.
  - exists (c :: A). split_and!; [cbn; by f_equal| |done]. intros d [->|Hd]%elem_of_cons; auto.
  - exists []. split_and!; [done|intros d Hd; by apply not_elem_of_nil in Hd|]. by intros d r [= -> _].
Qed.

Lemma drop_set_app t A s : (∀ c, c ∈ A → c ∈ t) → drop_set t (A ++ s) = drop_set t s.
Proof.
  induction A as [|c A IH]; intros H; [done|]. cbn. rewrite bool_decide_true by (apply H; by left).
  apply IH. intros d Hd. apply H. by right.
Qed.

Lemma drop_set_stop t s r : (∀ c r, s = c :: r → c ∉ t) → s ≠ [] → drop_set t (s ++ r) = s ++ r.
Proof. intros H Hs. destruct s as [|c s]; [done|]. cbn. rewrite bool_decide_false; [done|]. by apply (H c s). Qed.

(** What the two loops of [xs_trim] find. *)
Lemma trim_split t s : (s ≠ [] → trim_set t s ≠ []) → ∃ A B, s = A ++ trim_set t s ++ B ∧
  length (drop_set t s) = (length s - length A)%nat ∧ length (drop_set t (reverse s)) = (length A + length (trim_set t s))%nat.
Proof.
  intros Hne. destruct (decide (s = [])) as [->|Hs]; [by exists [], []|]. specialize (Hne Hs).
  destruct (drop_set_split t s) as (A&HA&HtA&_). destruct (drop_set_split t (reverse (drop_set t s))) as (B&HB&HtB&Hhd).
  set (s1 := drop_set t s) in *. fold (trim_set t s) in *. assert (drop_set t (reverse s1) = reverse (trim_set t s)) as Hmid.
  { unfold trim_set. by rewrite reverse_involutive. }
  rewrite Hmid in HB, Hhd. assert (s1 = trim_set t s ++ reverse B) as Hs1.
  { rewrite <- (reverse_involutive s1), HB, reverse_app, reverse_involutive. done. }
  exists A, (reverse B). split_and!.
  - by rewrite <- Hs1.
  - pose proof (f_equal length HA) as Hl. rewrite length_app in Hl. lia.
  - assert (reverse s = (B ++ reverse (trim_set t s)) ++ reverse A) as ->.
    { rewrite <- HB, <- reverse_app. f_equal. exact HA. }
    rewrite <- app_assoc, drop_set_app by done. rewrite drop_set_stop; [|done|].
    + rewrite length_app, !length_reverse. lia.
    + intros H0. apply Hne. rewrite <- (reverse_involutive (trim_set t s)), H0. done.
Qed.

Lemma read_byte_run m o d (k : nat) c {B} (f : Z → M mem B) : obj_data m o = Some d → d !! k = Some (Some c) →
  bind (read_byte (o, Z.of_nat k)) f m = f c m.
Proof.
  intros Ho Hk. pose proof (lookup_lt_Some _ _ _ Hk) as Hlt. unfold read_byte. rewrite bind_assoc.
  change 1 with (Z.of_nat 1). rewrite (read_run _ _ _ _ _ _ Ho) by lia.
  assert (take 1 (drop k d) = [Some c]) as ->; [|done].
  rewrite (drop_S _ _ _ Hk). done.
Qed.

Lemma bytes_lookup s r k c : s !! k = Some c → (bytes s ++ r) !! k = Some (Some c).
Proof.
  intros Hk. pose proof (lookup_lt_Some _ _ _ Hk). rewrite lookup_app_l by (rewrite length_bytes; lia).
  unfold bytes. rewrite lookup_app_l by (by rewrite length_fmap). by rewrite list_lookup_fmap, Hk.
Qed.

Lemma bytes_lookup_nul s r : (bytes s ++ r) !! length s = Some (Some 0).
Proof.
  rewrite lookup_app_l by (rewrite length_bytes; lia). unfold bytes. rewrite lookup_app_r by (by rewrite length_fmap).
  by rewrite length_fmap, Nat.sub_diag.
Qed.

Lemma testbit4 b : 0 ≤ b < 16 → Z.testbit b 4 = false.
Proof.
  intros H. rewrite <- (Z.mod_small b (2 ^ 4)) by (change (2 ^ 4) with 16; lia). by apply Z.mod_pow2_bits_high.
Qed.

Section scanning.
Context (m : mem) (o : obj) (d : list byte) (k : nat) (s : list Z) (r : list byte) (t : list Z).
Context (Ho : obj_data m o = Some d) (Hk : drop k d = bytes s ++ r) (Hs : chars s) (Ht : chars t).

Lemma check_char n c : s !! n = Some c → check_bit (mask_of t) c = bool_decide (c ∈ t).
Proof using Hs Ht.
  intros Hn. apply check_mask; [done|]. unfold chars in Hs. rewrite Forall_lookup in Hs. specialize (Hs n c Hn). cbn in Hs. lia.
Qed.

Lemma read_char n c {B} (f : Z → M mem B) : s !! n = Some c → bind (read_byte (padd (o, Z.of_nat k) (Z.of_nat n))) f m = f c m.
Proof using Ho Hk.
  intros Hc. unfold padd. cbn [fst snd]. rewrite <- Nat2Z.inj_add. apply (read_byte_run _ _ d); [done|].
  rewrite <- lookup_drop, Hk. by apply bytes_lookup.
Qed.

Lemma skip_front_run rest : ∀ pre, s = pre ++ rest →
  skip_front (length rest) (mask_of t) (o, Z.of_nat k) (Z.of_nat (length pre)) m = Ok (Z.of_nat (length s - length (drop_set t rest)), m).
Proof using Ho Hk Hs Ht.
  induction rest as [|c rest IH]; intros pre Hpre; cbn [skip_front drop_set length].
  { rewrite Hpre, app_nil_r. cbn. by rewrite Nat.sub_0_r. }
  assert (s !! length pre = Some c) as Hc by (rewrite Hpre; by apply list_lookup_middle).
  rewrite (read_char _ _ _ Hc), (check_char _ _ Hc).
  case_bool_decide as Hct; cbn [negb].
  - specialize (IH (pre ++ [c])). rewrite length_app in IH. cbn in IH.
    replace (Z.of_nat (length pre) + 1) with (Z.of_nat (length pre + 1)) by lia. rewrite IH by (by rewrite <- app_assoc). done.
  - unfold ret. do 2 f_equal. pose proof (f_equal length Hpre) as Hl. rewrite length_app in Hl. cbn in Hl |- *. lia.
Qed.

Lemma skip_back_run n : (n ≤ length s)%nat →
  skip_back n (mask_of t) (o, Z.of_nat k) m = Ok (Z.of_nat (length (drop_set t (reverse (take n s)))), m).
Proof using Ho Hk Hs Ht.
  induction n as [|n IH]; intros Hn; [done|]. cbn [skip_back]. destruct (lookup_lt_is_Some_2 s n) as [c Hc]; [lia|].
  replace (Z.of_nat (S n) - 1) with (Z.of_nat n) by lia. rewrite (read_char _ _ _ Hc), (check_char _ _ Hc).
  rewrite (take_S_r _ _ _ Hc), reverse_snoc. cbn [drop_set]. case_bool_decide as Hct; cbn [negb].
  - apply IH. lia.
  - cbn [length]. rewrite length_reverse, length_take. unfold ret. do 3 f_equal. lia.
Qed.

Definition cut_data (j : nat) : list byte := if decide (j < length s)%nat then splice (k + j) [Some 0] d else d.

(** A write in front of the NUL leaves the flags of a string on the stack. *)
Definition cuttable : Prop :=
  match o with InVar _ => (k + length s ≤ 15)%nat ∧ length d = 16%nat ∧ 0 ≤ last_byte d < 16 | InBlock _ => True end.

Lemma upd_id : upd m o d = m.
Proof using Ho.
  clear Hk Hs Ht. destruct m as [vs bl], o as [x|p]; cbn in *; f_equal.
  - apply insert_id. destruct (vs !! x) as [[]|]; [congruence|done|done].
  - destruct (bl !! p) as [b|] eqn:Hb; [|done]. injection Ho as <-. apply map_eq. intros q. destruct (decide (q = p)) as [->|Hq].
    + rewrite lookup_alter_eq, Hb. by destruct b.
    + by rewrite lookup_alter_ne.
Qed.

Lemma word_length t' s' : (length (word t' s') ≤ length s')%nat.
Proof using. clear. induction s' as [|c s' IH]; cbn; [lia|]. case_bool_decide; cbn; lia. Qed.

Lemma length_d : (k + length s + length r + 1 = length d)%nat.
Proof using Hk. pose proof (f_equal length Hk) as Hl. rewrite length_drop, length_app, length_bytes in Hl. lia. Qed.

Lemma cut_token_run (Hcut : cuttable) rest : ∀ pre, s = pre ++ rest →
  let j := (length pre + length (word t rest))%nat in
  cut_token (length rest) (mask_of t) (o, Z.of_nat k) (Z.of_nat (length pre)) m =
    Ok (Z.of_nat (min (S j) (length s)), upd m o (cut_data j)).
Proof using Ho Hk Hs Ht.
  induction rest as [|c rest IH]; intros pre Hpre j; cbn [cut_token word length] in *.
  - assert (length s = length pre) as Hl by (by rewrite Hpre, app_nil_r). unfold cut_data, j. cbn [length].
    rewrite decide_False by lia. rewrite upd_id. unfold ret. do 3 f_equal. lia.
  - assert (s !! length pre = Some c) as Hc by (rewrite Hpre; by apply list_lookup_middle). pose proof (lookup_lt_Some _ _ _ Hc) as Hlt.
    rewrite (read_char _ _ _ Hc), (check_char _ _ Hc). unfold j. case_bool_decide as Hct; cbn [length].
    + unfold cut_data. rewrite decide_True by lia. unfold padd. cbn [fst snd]. rewrite Nat.add_0_r, <- Nat2Z.inj_add.
      pose proof length_d as Hld. rewrite (bind_ok _ _ _ _ _ (write_run m o (k + length pre) [Some 0] d Ho ltac:(cbn; lia) ltac:(
        unfold stack_ok, cuttable in *; destruct o; [|done]; destruct Hcut as (?&?&?);
        rewrite last_byte_splice by (cbn; lia); by apply testbit4))).
      unfold ret. do 3 f_equal. lia.
    + specialize (IH (pre ++ [c])). rewrite length_app in IH. cbn in IH.
      replace (Z.of_nat (length pre) + 1) with (Z.of_nat (length pre + 1)) by lia. rewrite IH by (by rewrite <- app_assoc).
      by replace (length pre + 1 + length (word t rest))%nat with (length pre + S (length (word t rest)))%nat by lia.
Qed.
End scanning.

(** *** Reading a string *)

Lemma strlen_run m o (k : nat) d s r {B} (f : Z → M mem B) : obj_data m o = Some d → drop k d = bytes s ++ r → chars s →
  bind (strlen (o, Z.of_nat k)) f m = f (Z.of_nat (length s)) m.
Proof.
  intros Ho Hk Hs. unfold strlen. rewrite bind_assoc, (load_obj_run _ _ _ _ Ho). cbn [snd]. rewrite Nat2Z.id, Hk.
  match goal with |- bind (?g (bytes s ++ r) 0) f m = _ => set (go := g) end.
  assert (∀ n, go (bytes s ++ r) n m = Ok (n + Z.of_nat (length s), m)) as Hgo.
  { clear Hk. induction Hs as [|c s Hc Hs IH]; intros n; cbn.
    - unfold ret. do 2 f_equal. lia.
    - rewrite (proj2 (Z.eqb_neq c 0)) by lia. cbn in IH. rewrite IH. do 2 f_equal. lia. }
  by rewrite (bind_ok _ _ _ _ _ (Hgo 0)).
Qed.

Lemma text_run m o (k : nat) d s r {B} (f : list Z → M mem B) : obj_data m o = Some d → drop k d = bytes s ++ r → chars s →
  bind (text (o, Z.of_nat k)) f m = f s m.
Proof.
  intros Ho Hk Hs. unfold text. rewrite bind_assoc, (strlen_run _ _ _ _ _ _ _ Ho Hk Hs). rewrite bind_assoc, (read_run _ _ _ _ _ _ Ho).
  - rewrite (bind_ok _ _ _ _ _ (ret_run _ _)), Hk, take_bytes. f_equal. rewrite <- list_fmap_compose. apply list_fmap_id.
  - pose proof (f_equal length Hk) as Hl. rewrite length_drop, length_app, length_bytes in Hl. lia.
Qed.

Lemma c_string_run m x v s r : vars m !! x = Some v → obj_data m (home x v) = Some (bytes s ++ r) → chars s → c_string x m = Ok (s, m).
Proof.
  intros Hv Hd Hs. unfold c_string. rewrite (xs_data_run _ _ _ _ Hv).
  pose proof (text_run m (home x v) 0 _ s r ret Hd (drop_0 _) Hs) as H. unfold bind in H. change (Z.of_nat 0) with 0 in H.
  by destruct (text (home x v, 0) m) as [[]|].
Qed.

Lemma inv_c_string m σ x s : inv m σ → σ !! x = Some s → c_string x m = Ok (s, m).
Proof.
  intros Hi Hx. destruct (inv_var _ _ Hi x s Hx) as (v&Hv&Hc&_&[Hch _]&_).
  destruct (content_data m x v s Hv Hc) as (d&r&Hd&->). by apply (c_string_run m x v s r).
Qed.

(** *** Allocation *)

Section client.
Context (malloc : gmap Z RefCounted → Z)
  (malloc_fresh : ∀ h, h !! malloc h = None) (malloc_not_null : ∀ h, malloc h ≠ 0).

Definition fresh_block (n : Z) : RefCounted := mk_rc 1 (replicate (Z.to_nat (n + 7)) None).

Lemma refcount_create_run m n {B} (k : Z → M mem B) :
  bind (refcount_create malloc n) k m =
    k (malloc (blocks m)) (mk_mem (vars m) (<[malloc (blocks m) := fresh_block n]> (blocks m))).
Proof using malloc_not_null.
  unfold refcount_create. rewrite bind_assoc, (bind_ok _ _ _ _ _ (gets_run _ _)), (proj2 (Z.eqb_neq _ _) (malloc_not_null _)).
  unfold set_block. rewrite bind_assoc, (bind_ok _ _ _ _ _ (modify_run _ _)), (bind_ok _ _ _ _ _ (ret_run _ _)).
  unfold fresh_block, sizeof_RefCounted, offsetof_data. do 5 f_equal. do 2 f_equal. lia.
Qed.

Lemma ilog2_run n m {B} (k : Z → M mem B) : 0 < n < 2 ^ 32 → bind (ilog2 n) k m = k (Z.log2 n) m.
Proof.
  intros Hn. unfold ilog2. rewrite (wrapu_small 32 n) by lia. by rewrite (proj2 (Z.eqb_neq n 0)) by lia.
Qed.

Lemma pow_log2 n : 0 < n → 2 ^ (Z.log2 n + 1) ≤ 2 * n.
Proof. intros Hn. rewrite Z.pow_add_r by (try done; apply Z.log2_nonneg). pose proof (Z.log2_spec n Hn). lia. Qed.

(** The capacity that is chosen for a length. *)
Lemma log2_capacity n : 15 < n < 2 ^ 32 → 5 ≤ Z.log2 n + 1 ≤ 32 ∧ n < 2 ^ (Z.log2 n + 1).
Proof.
  intros Hn. pose proof (Z.log2_spec n ltac:(lia)) as [H1 H2]. rewrite <- Z.add_1_r in H2. split; [|done]. split.
  - enough (4 ≤ Z.log2 n) by lia. change 4 with (Z.log2 16). apply Z.log2_le_mono. lia.
  - enough (Z.log2 n < 32) by lia. apply Z.log2_lt_pow2; lia.
Qed.

Lemma wrapu_6 c : 5 ≤ c ≤ 32 → wrapu 6 c = c.
Proof. intros H. apply wrapu_small. lia. Qed.

(** Growing an empty string on the stack. *)
Lemma xs_grow_empty m x n {B} (k : unit → M mem B) : vars m !! x = Some xs_literal_empty → 15 < n < 2 ^ 32 →
  ∃ d, Z.of_nat (length d) = 2 ^ (Z.log2 n + 1) + 7 ∧
    bind (xs_grow malloc x n) k m =
      k tt (mk_mem (<[x := Heap (malloc (blocks m)) 0 (Z.log2 n + 1)]> (vars m))
              (<[malloc (blocks m) := mk_rc 1 d]> (blocks m))).
Proof using malloc_not_null.
  intros Hx Hn. destruct (log2_capacity n Hn) as [Hc Hcap]. set (c := Z.log2 n + 1) in *.
  assert (2 ^ 5 ≤ 2 ^ c) as Hpow by (apply Z.pow_le_mono_r; lia).
  exists (splice 0 (take 16 empty_bytes) (replicate (Z.to_nat (2 ^ c + 7)) None)). split.
  { rewrite length_splice, length_replicate; [lia|]. rewrite length_replicate. change (length _) with 16%nat. lia. }
  unfold xs_grow. rewrite bind_assoc, (xs_capacity_run _ _ _ _ Hx). cbn [cap xs_literal_empty].
  rewrite (proj2 (Z.leb_gt n 15)) by lia. rewrite bind_assoc, ilog2_run by lia. fold c.
  rewrite bind_assoc, (get_var_run _ _ _ _ Hx). cbn beta iota delta [xs_literal_empty].
  rewrite bind_assoc, Z.shiftl_1_l, refcount_create_run.
  set (q := malloc (blocks m)). set (m1 := mk_mem _ _).
  assert (obj_data m1 (InBlock q) = Some (replicate (Z.to_nat (2 ^ c + 7)) None)) as Hq by (cbn; by rewrite lookup_insert_eq).
  assert (0 + length (take 16 empty_bytes) ≤ length (replicate (Z.to_nat (2 ^ c + 7)) (None : byte)))%nat as Hlen.
  { rewrite length_replicate. change (length _) with 16%nat. lia. }
  rewrite bind_assoc, (bind_ok _ _ _ _ _ (write_run m1 (InBlock q) 0 _ _ Hq Hlen I)).
  unfold set_var. rewrite (bind_ok _ _ _ _ _ (modify_run _ _)). f_equal. unfold upd, m1. cbn [vars blocks]. f_equal.
  - rewrite wrapu_6 by done. do 2 f_equal.
  - apply map_eq. intros r. destruct (decide (r = q)) as [->|Hr].
    + by rewrite lookup_alter_eq, !lookup_insert_eq.
    + by rewrite lookup_alter_ne, !lookup_insert_ne.
Qed.

(** [s] copied to the block of another variable. *)
Lemma splice_copy s (r d : list byte) : (S (length s) ≤ length d)%nat →
  splice 0 (take (length s + 1) (drop 0 (bytes s ++ r))) d = bytes s ++ drop (S (length s)) d.
Proof.
  intros H. rewrite drop_0, take_bytes_all. unfold splice. cbn [take app]. by rewrite length_bytes.
Qed.

(** [xs_free(x); *x = tmps;] *)
Lemma replace_run m m3 x v w : x ≠ TMPS → vars m !! TMPS = None → vars m3 = <[TMPS := v]> (vars m) → wf m3 →
  vars m !! x = Some w →
  bind (xs_free x) (λ _, bind drop_tmps (λ tmps, set_var x tmps)) m3 = Ok (tt, mk_mem (<[x := v]> (vars m)) (released m3 w)) ∧
  wf (mk_mem (<[x := v]> (vars m)) (released m3 w)).
Proof using.
  intros Hx Ht Hm3 Hwf Hw. assert (vars m3 !! x = Some w) as Hw3 by (by rewrite Hm3, lookup_insert_ne).
  rewrite (bind_ok _ _ _ _ _ (xs_free_run m3 x w Hwf Hw3)). set (m4 := mk_mem _ _).
  assert (vars m4 !! TMPS = Some v) as Ht4 by (cbn; by rewrite lookup_insert_ne, Hm3, lookup_insert_eq).
  assert (<[x := v]> (delete TMPS (vars m4)) = <[x := v]> (vars m)) as Hvars.
  { cbn. rewrite Hm3. apply map_eq. intros y. destruct (decide (y = x)) as [->|Hy]; [by rewrite !lookup_insert_eq|].
    rewrite !(lookup_insert_ne _ x y) by done. destruct (decide (y = TMPS)) as [->|Hy']; [by rewrite lookup_delete_eq|].
    by rewrite lookup_delete_ne, !lookup_insert_ne. }
  split.
  - unfold drop_tmps. rewrite bind_assoc, (get_var_run _ _ _ _ Ht4), bind_assoc, (bind_ok _ _ _ _ _ (modify_run _ _)), (bind_ok _ _ _ _ _ (ret_run _ _)).
    unfold set_var, modify. cbn [vars blocks]. by rewrite Hvars.
  - pose proof (wf_move m4 x v (wf_free _ _ _ Hwf Hw3) Hx Ht4) as Hm. rewrite Hvars in Hm. apply Hm.
    intros u Hu. cbn in Hu. rewrite lookup_insert_eq in Hu. by injection Hu as <-.
Qed.

Lemma insert_rc_upd (bl : gmap Z RefCounted) (q : Z) b d : alter (λ b, mk_rc (refcnt b) d) q (<[q := b]> bl) = <[q := mk_rc (refcnt b) d]> bl.
Proof using.
  apply map_eq. intros r. destruct (decide (r = q)) as [->|Hr]; [by rewrite lookup_alter_eq, !lookup_insert_eq|].
  by rewrite lookup_alter_ne, !lookup_insert_ne.
Qed.

(** What copying on write makes of the variable [x] with the value [v]: [v'],
    which nobody shares. *)
Lemma tmps_none m σ : inv m σ → vars m !! TMPS = None.
Proof using.
  intros Hi. destruct (vars m !! TMPS) as [w|] eqn:Hw; [|done]. destruct (inv_dom _ _ Hi TMPS w Hw) as [t Ht]. by rewrite (inv_tmps _ _ Hi) in Ht.
Qed.

(** The temporary of [xs_cow] and [xs_concat] gets a block. *)
Lemma tmps_alloc m σ n {B} (k : unit → M mem B) : inv m σ → 15 < n < 2 ^ 32 →
  let q := malloc (blocks m) in let c := Z.log2 n + 1 in
  ∃ d, Z.of_nat (length d) = 2 ^ c + 7 ∧ blocks m !! q = None ∧
    let m' := mk_mem (<[TMPS := Heap q 0 c]> (vars m)) (<[q := mk_rc 1 d]> (blocks m)) in
    wf m' ∧ bind (set_var TMPS xs_literal_empty) (λ _, bind (xs_grow malloc TMPS n) k) m = k tt m'.
Proof using malloc_fresh malloc_not_null.
  intros Hi Hn. pose proof (tmps_none _ _ Hi) as Ht0. unfold set_var at 1. rewrite (bind_ok _ _ _ _ _ (modify_run _ _)).
  set (m1 := mk_mem (<[TMPS:=_]> _) _). assert (vars m1 !! TMPS = Some xs_literal_empty) as Ht1 by (cbn; by rewrite lookup_insert_eq).
  assert (wf m1) as Hwf1 by (apply wf_set_stack; [by apply (inv_wf _ _ Hi)|]; intros w Hw; by rewrite Ht0 in Hw).
  assert (blocks m !! malloc (blocks m) = None) as Hq by apply malloc_fresh.
  destruct (xs_grow_empty m1 TMPS n k Ht1 Hn) as (d&Hd&->). exists d. split; [done|]. split; [done|].
  pose proof (wf_alloc m1 TMPS xs_literal_empty (malloc (blocks m)) d 0 (Z.log2 n + 1) Hwf1 Ht1 eq_refl Hq) as Hwf2.
  cbn [m1 vars blocks] in *. rewrite insert_insert_eq in *. done.
Qed.

Lemma cow_capacity_run m x v {B} (f : Z → M mem B) : x ≠ TMPS → vars m !! x = Some v →
  bind (set_var TMPS xs_literal_empty) (λ _, bind (xs_capacity x) f) m = bind (set_var TMPS xs_literal_empty) (λ _, f (cap v)) m.
Proof using.
  intros Hx Hv. unfold set_var. rewrite !(bind_ok (modify _) _ _ _ _ (modify_run _ _)). apply xs_capacity_run. cbn. by rewrite lookup_insert_ne.
Qed.

Lemma xs_cow_ok m σ x s v : inv m σ → x ≠ TMPS → σ !! x = Some s → vars m !! x = Some v →
  ∃ m' v', xs_cow malloc x m = Ok (tt, m') ∧ vars m' = <[x := v']> (vars m) ∧ wf m' ∧ content (blocks m') v' s ∧
    cap v' = cap v ∧ (vptr v = None → v' = v) ∧ (∀ p, vptr v' = Some p → users (vars m') p = 1) ∧
    (∀ p, is_Some (blocks m !! p) → same_data m m' p) ∧
    (∃ n, refcount_get x m = Ok (n, m) ∧ (n ≤ 1 → v' = v) ∧ (1 < n → ∃ q c, v' = Heap q 0 c)).
Proof using malloc_fresh malloc_not_null.
  intros Hi Hxt Hs Hv. pose proof (inv_wf m σ Hi) as Hwf. destruct (inv_var _ _ Hi x s Hs) as (v0&Hv0&Hok).
  rewrite Hv in Hv0. injection Hv0 as <-. unfold xs_cow, refcount_get. rewrite bind_assoc, (get_var_run _ _ _ _ Hv).
  destruct v as [d|p sz c]; cbn [is_ptr].
  { rewrite (bind_ok _ _ _ _ _ (ret_run _ _)). exists m, (Stack d). split_and!; try done; [by symmetry; apply insert_id|apply Hok|].
    exists 1. split; [by rewrite (get_var_run _ _ _ _ Hv)|]. by split. }
  destruct (inv_block m σ x s p sz c Hi Hs Hv) as (b&r&Hb&Hd&Hn&Hr&Hc&Hl&Hcap&->). cbn [refcount_fromxs].
  rewrite bind_assoc, (bind_ok _ _ _ _ _ (ret_run _ _)), bind_assoc, (get_block_run _ _ _ _ Hb), (bind_ok _ _ _ _ _ (ret_run _ _)).
  assert (refcount_get x m = Ok (refcnt b, m)) as Hrun.
  { unfold refcount_get. rewrite (get_var_run _ _ _ _ Hv). cbn [is_ptr refcount_fromxs]. by rewrite (bind_ok _ _ _ _ _ (ret_run _ _)), (get_block_run _ _ _ _ Hb). }
  unfold refcount_get in Hrun. destruct (Z.ltb_spec 1 (refcnt b)) as [Hgt|Hle].
  2: { exists m, (Heap p (Z.of_nat (length s)) c). split_and!; try done; [by symmetry; apply insert_id|apply Hok| |].
       - intros p' [= <-]. lia.
       - exists (refcnt b). split; [done|]. split; [done|lia]. }
  assert (2 ^ 5 ≤ 2 ^ c ≤ 2 ^ 32) as Hpow by (split; apply Z.pow_le_mono_r; lia). pose proof (tmps_none _ _ Hi) as Ht0.
  rewrite (cow_capacity_run m x _ _ Hxt Hv). cbn [cap].
  match goal with |- context [bind (xs_grow malloc TMPS ?n) ?k] => destruct (tmps_alloc m σ n k Hi ltac:(lia)) as (d0&Hd0&Hq&Hwf2&->) end.
  assert (Z.log2 (2 ^ c - 1) + 1 = c) as Hlog.
  { replace (2 ^ c - 1) with (Z.pred (2 ^ c)) by lia. rewrite Z.log2_pred_pow2 by lia. lia. }
  rewrite Hlog in *. set (q := malloc (blocks m)) in *. set (m2 := mk_mem _ _) in *. assert (q ≠ p) as Hqp by (intros ->; by rewrite Hb in Hq).
  assert (vars m2 !! TMPS = Some (Heap q 0 c)) as Ht2 by (cbn; by rewrite lookup_insert_eq).
  assert (vars m2 !! x = Some (Heap p (Z.of_nat (length s)) c)) as Hv2 by (cbn; by rewrite !lookup_insert_ne).
  assert (content (blocks m2) (Heap p (Z.of_nat (length s)) c) s) as Hc2.
  { apply (content_frame m); [|apply Hok]. intros p' [= <-]. unfold same_data. cbn. by rewrite lookup_insert_ne. }
  rewrite (xs_data_run _ _ _ _ Ht2), (xs_data_run _ _ _ _ Hv2), (xs_size_run _ _ _ s _ Hv2 Hc2) by done. cbn [home].
  assert (obj_data m2 (InBlock p) = Some (bytes s ++ r)) as Hp2 by (cbn; rewrite lookup_insert_ne, Hb by done; cbn; by rewrite Hd).
  assert (obj_data m2 (InBlock q) = Some d0) as Hq2 by (cbn; by rewrite lookup_insert_eq).
  replace (Z.of_nat (length s) + 1) with (Z.of_nat (length s + 1)) by lia.
  rewrite (bind_ok _ _ _ _ _ (memcpy_run m2 (InBlock q) (InBlock p) 0 0 (length s + 1) d0 _ ltac:(congruence) Hq2 Hp2
    ltac:(lia) ltac:(rewrite length_app, length_bytes; lia) I)).
  rewrite splice_copy by lia. set (m3 := upd _ _ _).
  assert (wf m3) as Hwf3 by (apply wf_upd; [done|by eexists]).
  assert (vars m3 = <[TMPS := Heap q 0 c]> (vars m)) as Hv3 by done.
  destruct (replace_run m m3 x _ _ Hxt Ht0 Hv3 Hwf3 Hv) as [-> Hwf'].
  set (m' := mk_mem (<[x := Heap q 0 c]> (vars m)) (released m3 (Heap p (Z.of_nat (length s)) c))) in *.
  assert (∀ p', p' ≠ q → is_Some (blocks m !! p') → same_data m m' p') as Hsame.
  { intros p' Hne [b' Hb']. unfold same_data. unfold m'; cbn [blocks].
    assert (blocks m3 !! p' = blocks m !! p') as Hm3.
    { unfold m3. cbn. by rewrite lookup_alter_ne, lookup_insert_ne. }
    destruct (decide (p' = p)) as [->|Hp']; [|rewrite released_other by (cbn; congruence); by rewrite Hm3].
    cbn [released]. rewrite Hm3, Hb. rewrite (proj2 (Z.eqb_neq _ 1)) by lia. by rewrite lookup_insert_eq. }
  exists m', (Heap q 0 c). split_and!; try done.
  - cbn [content]. split; [done|]. exists (mk_rc 1 (bytes s ++ drop (S (length s)) d0)), (drop (S (length s)) d0). split_and!; [|done| |done].
    + unfold m'; cbn [blocks]. rewrite released_other by (cbn; congruence). unfold m3. cbn [upd blocks]. unfold m2. cbn [blocks].
      by rewrite insert_rc_upd, lookup_insert_eq.
    + cbn [rc_data]. rewrite length_app, length_bytes, length_drop. lia.
  - intros p' [= <-]. unfold m'; cbn [vars]. rewrite (users_insert _ _ _ _ _ Hv), (wf_unused m q Hwf Hq). unfold points. cbn [vptr].
    rewrite decide_False, decide_True by congruence. lia.
  - intros p' Hp'. apply Hsame; [|done]. intros ->. rewrite Hq in Hp'. by destruct Hp'.
  - exists (refcnt b). split; [done|]. split; [lia|eauto].
Qed.

(** Where copying on write leaves a string on the stack it has changed nothing, and the
    string may be written up to its end. *)
Lemma cow_stack m1 x v v1 bl s d r : vars m1 !! x = Some v1 → obj_data m1 (home x v1) = Some d → d = bytes s ++ r →
  content bl v s → sized v s → cap v1 = cap v → (vptr v = None → v1 = v) →
  (is_ptr v1 = false → v1 = Stack d ∧ v = Stack d) ∧ cuttable (home x v1) d 0 s.
Proof using.
  intros Hv1 Hd Hdr Hc Hz Hcap Hstack. destruct v1 as [d0|p sz c]; [|done]. cbn in Hd. rewrite Hv1 in Hd. injection Hd as ->.
  assert (v = Stack d) as ->.
  { destruct v as [d'|p sz c]; [symmetry; by apply Hstack|]. cbn in Hcap. destruct Hc as [Hc _].
    assert (2 ^ 5 ≤ 2 ^ c) by (apply Z.pow_le_mono_r; lia). lia. }
  split; [done|]. destruct Hc as [Hl _]. cbn in Hz. destruct (sized_stack d s r Hl Hdr Hz). cbn [home cuttable]. lia.
Qed.

(** A capacity is chosen for the length of the string, or that of a variable. *)
Definition bounded (m : mem) (s : list Z) (v : xs) : Prop :=
  cap v ≤ 2 * Z.of_nat (length s) + 15 ∨ ∃ y w, vars m !! y = Some w ∧ cap v ≤ cap w.

(** What a call that gives [x] the string [s] does. *)
Definition stepped (m m' : mem) (σ : gmap Z (list Z)) (x : Z) (s : list Z) : Prop :=
  inv m' (<[x := s]> σ) ∧ ∃ v, vars m' = <[x := v]> (vars m) ∧ bounded m s v.

Lemma inv_set m m' σ x v s : inv m σ → x ≠ TMPS → vars m' = <[x := v]> (vars m) → var_ok (blocks m') v s → wf m' →
  (∀ y w p, y ≠ x → vars m !! y = Some w → vptr w = Some p → same_data m m' p) → inv m' (<[x := s]> σ).
Proof using.
  intros Hi Hxt Hv Hok [Hrc Hd] Hf. split.
  - intros y t [[<- <-]|[Hne Hy]]%lookup_insert_Some; [exists v; by rewrite Hv, lookup_insert_eq|].
    destruct (inv_var _ _ Hi y t Hy) as (w&Hw&Hc&Hrest). exists w. rewrite Hv, lookup_insert_ne by done. split; [done|].
    split; [|done]. eapply content_frame; [|exact Hc]. intros p Hp. by eapply Hf.
  - intros y w Hy. rewrite Hv in Hy. apply lookup_insert_is_Some'. apply lookup_insert_Some in Hy as [[<- _]|[_ Hy]]; [by left|].
    right. by eapply inv_dom.
  - done.
  - rewrite lookup_insert_ne by done. apply Hi.
Qed.

Lemma inv_update m m' σ x v s : inv m σ → x ≠ TMPS → vars m' = <[x := v]> (vars m) → var_ok (blocks m') v s → wf m' →
  (∀ y w p, y ≠ x → vars m !! y = Some w → vptr w = Some p → same_data m m' p) → bounded m s v → stepped m m' σ x s.
Proof using. intros Hi Hxt Hv Hok Hwf Hf Hb. split; [by eapply inv_set|by exists v]. Qed.

Lemma empty_ok bl : var_ok bl xs_literal_empty [].
Proof using.
  split; [split; [done|by exists (replicate 14 (Some 0) ++ [Some 15])]|]. split; [done|]. split; [split; [constructor|done]|done].
Qed.

Lemma decl_ok m σ x : inv m σ → σ !! x = None → x ≠ TMPS → ∃ m', set_var x xs_literal_empty m = Ok (tt, m') ∧ stepped m m' σ x [].
Proof using.
  intros Hi Hx Hxt. eexists. split; [done|]. eapply inv_update; [exact Hi|done|done|apply empty_ok| |done|by left].
  apply wf_set_stack; [by eapply inv_wf|]. intros v Hv. destruct (inv_dom _ _ Hi x v Hv) as [s Hs]. by rewrite Hx in Hs.
Qed.

Lemma tmps_ne m σ x s : inv m σ → σ !! x = Some s → x ≠ TMPS.
Proof using. intros Hi Hx ->. by rewrite (inv_tmps _ _ Hi) in Hx. Qed.

Lemma xs_free_ok m σ x s : inv m σ → σ !! x = Some s → ∃ m', xs_free x m = Ok (tt, m') ∧ stepped m m' σ x [].
Proof using.
  intros Hi Hx. destruct (inv_var _ _ Hi x s Hx) as (v&Hv&_). pose proof (inv_wf _ _ Hi) as Hwf.
  eexists. split; [by apply xs_free_run|].
  eapply inv_update; [exact Hi|by eapply tmps_ne|done|apply empty_ok|by apply wf_free| |by left].
  intros y w p Hy Hw Hp. by apply (released_shared m x y v w p).
Qed.

(** The empty strings are on the stack. *)
Lemma empty_stack m σ x : inv m σ → σ !! x = Some [] → ∃ d, vars m !! x = Some (Stack d).
Proof using.
  intros Hi Hx. destruct (inv_var _ _ Hi x [] Hx) as ([d|p sz c]&Hv&_&_&_&Hne); [by exists d|]. by destruct (Hne eq_refl).
Qed.

Lemma size_dom_le m σ : inv m σ → (size (vars m) ≤ size σ)%nat.
Proof using.
  intros Hi. rewrite <- !size_dom. apply subseteq_size. intros x [v Hx]%elem_of_dom. apply elem_of_dom. by eapply inv_dom.
Qed.

Lemma copy_ok m σ src dest s : inv m σ → σ !! src = Some s → σ !! dest = Some [] → Z.of_nat (size σ) < 2 ^ 64 →
  ∃ m', xs_copy src dest m = Ok (tt, m') ∧ stepped m m' σ dest s.
Proof using.
  intros Hi Hs Hd Hsize. destruct (inv_var _ _ Hi src s Hs) as (v&Hv&Hok). destruct (empty_stack _ _ _ Hi Hd) as [d0 Hd0].
  pose proof (inv_wf _ _ Hi) as Hwf. pose proof (tmps_ne _ _ _ _ Hi Hd) as Hdt.
  unfold xs_copy. rewrite (get_var_run _ _ _ _ Hv). unfold set_var at 1. rewrite (bind_ok _ _ _ _ _ (modify_run _ _)).
  set (m1 := mk_mem _ _). assert (vars m1 !! dest = Some v) as Hv1 by (cbn; by rewrite lookup_insert_eq).
  rewrite (get_var_run _ _ _ _ Hv1). destruct v as [d|p sz c]; cbn [is_ptr].
  - exists m1. split; [done|]. eapply inv_update; [exact Hi|done|done|done| |done|by right; exists src, (Stack d)].
    apply wf_set_stack; [done|]. intros v Hv'. rewrite Hd0 in Hv'. by injection Hv' as <-.
  - destruct (inv_block m σ src s p sz c Hi Hs Hv) as (b&r&Hb&Hdata&Hn&Hr&Hc&Hl&Hcap&->).
    unfold refcount_increment. rewrite (get_var_run _ _ _ _ Hv1). cbn [refcount_fromxs].
    rewrite (bind_ok _ _ _ _ _ (ret_run _ _)), (get_block_run m1 p b) by done. eexists. split; [done|].
    assert (∀ q, users (vars m1) q = users (vars m) q + points q (Heap p (Z.of_nat (length s)) c)) as Hu.
    { intros q. cbn [vars m1]. rewrite (users_insert _ _ _ _ _ Hd0), (points_none q (Stack d0)) by done. lia. }
    assert (size (vars m1) ≤ size σ)%nat as Hs1.
    { cbn. rewrite map_size_insert_Some by (by eexists). by apply size_dom_le. }
    pose proof (users_bound (vars m1) p) as Hub. pose proof (Hu p) as Hup. unfold points in Hup. cbn [vptr] in Hup.
    rewrite decide_True in Hup by done. rewrite (wrapu_small 64 (refcnt b + 1)) by lia.
    set (m2 := mk_mem _ _). assert (∀ q, same_data m m2 q) as Hsame.
    { intros q. unfold same_data, m2, m1. cbn. destruct (decide (q = p)) as [->|Hq]; [by rewrite lookup_insert_eq, Hb|by rewrite lookup_insert_ne]. }
    eapply inv_update; [exact Hi|done|done| | |done|by right; eexists src, _].
    + destruct Hok as (Hc'&Hok). split; [|done]. eapply content_frame; [|exact Hc']. done.
    + destruct Hwf as [Hrc Hdang]. split.
      * intros q b' Hb'. unfold m2 in Hb' |- *. cbn [blocks vars] in *. rewrite Hu. unfold points. cbn [vptr].
        apply lookup_insert_Some in Hb' as [[<- <-]|[Hne Hb']]; [rewrite decide_True by done; cbn; lia|].
        rewrite decide_False by congruence. destruct (Hrc q b' Hb'). lia.
      * intros y w q Hy Hq. unfold m2, m1 in Hy |- *. cbn [blocks vars] in *. apply lookup_insert_is_Some'. right.
        apply lookup_insert_Some in Hy as [[<- <-]|[_ Hy]]; [injection Hq as <-; by eexists|by eapply Hdang].
Qed.

(** *** The size fields *)

Lemma set_space_left_ok d s r : length d = 16%nat → d = bytes s ++ r → 0 ≤ last_byte d < 16 → (length s ≤ 15)%nat →
  content ∅ (Stack (set_space_left d (15 - Z.of_nat (length s)))) s ∧ sized (Stack (set_space_left d (15 - Z.of_nat (length s)))) s.
Proof using.
  intros Hl Hd Hb Hs. unfold set_space_left.
  assert (Z.lor (Z.land (last_byte d) 240) (wrapu 4 (15 - Z.of_nat (length s))) = 15 - Z.of_nat (length s)) as ->.
  { assert (Z.land (last_byte d) 240 = 0) as ->.
    { change 240 with (Z.shiftl 15 4). rewrite land_shiftl by done. rewrite Z.shiftr_div_pow2 by done.
      rewrite Z.div_small by (change (2 ^ 4) with 16; lia). done. }
    rewrite Z.lor_0_l. apply wrapu_small. change (2 ^ 4) with 16. lia. }
  split.
  - split; [by rewrite length_insert|]. destruct (decide (length s = 15)%nat) as [H15|H15].
    + exists r. rewrite <- Hd. apply list_insert_id. rewrite Hd. unfold bytes.
      rewrite lookup_app_l, lookup_app_r by (rewrite ?length_app, length_fmap; cbn; lia).
      rewrite length_fmap, H15. done.
    + exists (<[(15 - length (bytes s))%nat := Some (15 - Z.of_nat (length s))]> r). rewrite Hd.
      rewrite insert_app_r_alt; [done|]. rewrite length_bytes. lia.
  - cbn. unfold last_byte. rewrite list_lookup_insert_eq by lia. done.
Qed.

Lemma length_bytes_Z s : Z.of_nat (length (bytes s)) = Z.of_nat (length s) + 1.
Proof using. rewrite length_bytes. lia. Qed.

(** The last byte after a string of up to 15 characters is written behind [k]
    bytes. *)
Lemma last_byte_write k s d : length d = 16%nat → 0 ≤ last_byte d < 16 → (k + length s ≤ 15)%nat →
  0 ≤ last_byte (splice k (bytes s) d) < 16.
Proof using.
  intros Hl Hb Hk. destruct (decide (k + length s = 15)%nat) as [H15|H15].
  - unfold splice. rewrite app_assoc. unfold last_byte at 1 2. rewrite lookup_app_l by (rewrite length_app, length_take, length_bytes; lia).
    rewrite lookup_app_r by (rewrite length_take; lia). unfold bytes. rewrite length_take, lookup_app_r by (rewrite length_fmap; lia).
    rewrite length_fmap. replace (15 - k `min` length d - length s)%nat with 0%nat by lia. cbn. lia.
  - rewrite last_byte_splice by (rewrite ?length_bytes; lia). done.
Qed.


Lemma xs_new_ok m σ x s : inv m σ → σ !! x = Some [] → chars s → Z.of_nat (length s) < 2 ^ 32 - 1 →
  ∃ m', xs_new malloc x s m = Ok (tt, m') ∧ stepped m m' σ x s.
Proof using malloc_fresh malloc_not_null.
  intros Hi Hx Hch Hlen. pose proof (inv_wf _ _ Hi) as Hwf. pose proof (tmps_ne _ _ _ _ Hi Hx) as Hxt.
  destruct (empty_stack _ _ _ Hi Hx) as [d0 Hd0]. unfold xs_new, set_var at 1. rewrite (bind_ok _ _ _ _ _ (modify_run _ _)).
  set (m1 := mk_mem _ _). assert (vars m1 !! x = Some xs_literal_empty) as Hv1 by (cbn; by rewrite lookup_insert_eq).
  assert (wf m1) as Hwf1 by (apply wf_set_stack; [done|]; intros v Hv; rewrite Hd0 in Hv; by injection Hv as <-).
  fold (bytes s). destruct (Z.ltb_spec 16 (Z.of_nat (length s) + 1)) as [Hgt|Hle].
  - (* a block *)
    destruct (log2_capacity (Z.of_nat (length s) + 1) ltac:(lia)) as [Hc Hcap]. set (c := Z.log2 _ + 1) in *.
    rewrite ilog2_run by lia. fold c. rewrite wrapu_6 by done. rewrite Z.shiftl_1_l, refcount_create_run.
    set (q := malloc (blocks m1)). assert (blocks m !! q = None) as Hq by (apply malloc_fresh).
    unfold set_var. rewrite (bind_ok _ _ _ _ _ (modify_run _ _)). cbn [vars blocks].
    set (m2 := mk_mem _ _). assert (wf m2) as Hwf2 by (eapply (wf_alloc m1); done).
    assert (obj_data m2 (InBlock q) = Some (replicate (Z.to_nat (2 ^ c + 7)) None)) as Hq2 by (cbn; by rewrite lookup_insert_eq).
    assert (0 + length (bytes s) ≤ length (replicate (Z.to_nat (2 ^ c + 7)) (None : byte)))%nat as Hb.
    { rewrite length_replicate, length_bytes. lia. }
    eexists. split; [exact (write_run m2 (InBlock q) 0 (bytes s) _ Hq2 Hb I)|].
    eapply inv_update; [exact Hi|done| | |by apply wf_upd; [|by eexists]| |].
    + cbn. by rewrite insert_insert_eq.
    + cbn [upd blocks m2]. rewrite insert_rc_upd. split; [|split; [|split; [by split|]]].
      * cbn [content]. split; [done|]. eexists _, _. split_and!; [by rewrite lookup_insert_eq|reflexivity| |lia].
        cbn [rc_data]. rewrite length_splice, length_replicate by done. lia.
      * cbn. rewrite wrapu_small; lia.
      * intros _ ->. cbn in Hgt. lia.
    + intros y w p Hy Hw Hp. unfold same_data. cbn [upd blocks m2].
      assert (p ≠ q) as Hne by (intros ->; destruct Hwf as [_ Hd]; destruct (Hd y w q Hw Hp) as [b Hb']; by rewrite Hq in Hb').
      by rewrite lookup_alter_ne, lookup_insert_ne.
    + left. cbn. unfold c. pose proof (pow_log2 (Z.of_nat (length s) + 1)). lia.
  - (* in place *)
    assert (obj_data m1 (InVar x) = Some empty_bytes) as Ho1 by (cbn; by rewrite lookup_insert_eq).
    pose proof (last_byte_write 0 s empty_bytes eq_refl ltac:(done) ltac:(lia)) as Hlb.
    rewrite (bind_ok _ _ _ _ _ (write_run m1 (InVar x) 0 (bytes s) empty_bytes Ho1 ltac:(rewrite length_bytes; cbn; lia) ltac:(by apply testbit4))).
    set (d := splice 0 (bytes s) empty_bytes) in *. rewrite (load_obj_run _ _ d) by (by eapply upd_same).
    replace (15 - (Z.of_nat (length s) + 1 - 1)) with (15 - Z.of_nat (length s)) by lia.
    assert (length d = 16%nat) as Hd by (unfold d; rewrite length_splice; [done|rewrite length_bytes; cbn; lia]).
    destruct (set_space_left_ok d s (drop (0 + length (bytes s)) empty_bytes) Hd eq_refl Hlb ltac:(lia)) as [Hc Hs].
    eexists. split; [done|]. eapply inv_update; [exact Hi|done| | | | |].
    + cbn. by rewrite !insert_insert_eq.
    + split; [exact Hc|]. split; [exact Hs|]. by split.
    + apply wf_set_stack; [by apply wf_upd; [|by eexists]|]. cbn. intros v Hv. rewrite lookup_insert_eq in Hv. by injection Hv as <-.
    + done.
    + left. cbn. lia.
Qed.

Lemma splice_mid (w1 w2 w3 bs : list byte) k : k = length w1 → length bs = length w2 → splice k bs (w1 ++ w2 ++ w3) = w1 ++ bs ++ w3.
Proof using.
  intros -> Hl. unfold splice. rewrite take_app_length. do 2 f_equal. rewrite Hl, <- drop_drop, drop_app_length. apply drop_app_length.
Qed.

Lemma split_at n (d : list byte) : (n ≤ length d)%nat → ∃ w r, d = w ++ r ∧ length w = n.
Proof using. intros H. exists (take n d), (drop n d). rewrite take_drop, length_take. split; [done|lia]. Qed.

(** The three parts of a concatenation, written in the order of the code. *)
Lemma concat_splices (A S B d : list byte) : (length A + length S + length B ≤ length d)%nat →
  splice (length A + length S) B (splice 0 A (splice (length A) S d)) = (A ++ S ++ B) ++ drop (length A + length S + length B) d.
Proof using.
  intros H. destruct (split_at (length A) d) as (w1&r1&->&H1); [lia|]. rewrite length_app in H.
  destruct (split_at (length S) r1) as (w2&r2&->&H2); [lia|]. rewrite length_app in H.
  destruct (split_at (length B) r2) as (w3&r3&->&H3); [lia|].
  rewrite (splice_mid w1 w2) by done. rewrite (splice_mid [] w1 _ A 0 eq_refl (eq_sym H1) : splice 0 A (w1 ++ _) = A ++ _).
  rewrite (app_assoc A S), (splice_mid (A ++ S) w3) by (by rewrite ?length_app). rewrite <- !app_assoc. do 3 f_equal.
  rewrite (app_assoc w1), (app_assoc (w1 ++ w2)). symmetry. apply drop_app_length'. rewrite !length_app. lia.
Qed.

(** The conditions under which [set_size] leaves a string with its size. *)
Definition sizeable (v : xs) (s : list Z) : Prop :=
  match v with Stack d => 0 ≤ last_byte d < 16 ∧ (length s ≤ 15)%nat | Heap _ _ _ => True end.

Lemma set_size_ok m x v s : vars m !! x = Some v → content (blocks m) v s → sizeable v s → Z.of_nat (length s) < 2 ^ 32 → wf m →
  ∃ v', set_size x (Z.of_nat (length s)) m = Ok (tt, mk_mem (<[x := v']> (vars m)) (blocks m)) ∧ content (blocks m) v' s ∧ sized v' s ∧
    (is_ptr v' = is_ptr v ∧ cap v' = cap v) ∧ wf (mk_mem (<[x := v']> (vars m)) (blocks m)).
Proof using.
  intros Hv Hc Hsz Hlen Hwf. unfold set_size. rewrite (get_var_run _ _ _ _ Hv). destruct v as [d|p sz c].
  - destruct Hc as (Hl&r&Hd), Hsz as [Hlb Hs]. destruct (set_space_left_ok d s r Hl Hd Hlb Hs) as [Hc' Hs'].
    eexists. split; [done|]. split; [exact Hc'|]. split; [exact Hs'|]. split; [done|]. apply wf_set_stack; [done|].
    intros v Hv'. rewrite Hv in Hv'. by injection Hv' as <-.
  - exists (Heap p (wrapu 54 (Z.of_nat (length s))) c). rewrite (wrapu_small 54) by lia. split; [done|]. split; [exact Hc|]. split; [done|]. split; [done|].
    destruct Hwf as [Hrc Hd]. split.
    + intros q b Hb. cbn in *. rewrite (users_insert _ _ _ _ _ Hv). unfold points. cbn. destruct (Hrc q b Hb). lia.
    + intros y w q Hy Hq. cbn in *. apply lookup_insert_Some in Hy as [[<- <-]|[_ Hy]]; [by eapply Hd|by eapply Hd].
Qed.

Lemma take_bytes_drop0 s r : take (length s) (drop 0 (bytes s ++ r)) = Some <$> s.
Proof using. by rewrite drop_0, take_bytes. Qed.

(** The bytes of another variable are not those of an unshared one. *)
Lemma home_ne m x y v w : wf m → x ≠ y → vars m !! x = Some v → vars m !! y = Some w →
  (∀ p, vptr v = Some p → users (vars m) p = 1) → home x v ≠ home y w.
Proof using.
  intros Hwf Hxy Hx Hy Hu. destruct v as [d|p sz c], w as [d'|p' sz' c']; cbn; try congruence. intros [= <-].
  specialize (Hu p eq_refl). pose proof (users_two (vars m) x y _ _ p Hxy Hx Hy eq_refl eq_refl). lia.
Qed.

(** A rewritten string in place. *)
Lemma content_upd m x v s r d' : vars m !! x = Some v → content (blocks m) v s → d' = bytes r ++ drop (length (bytes r)) d' →
  (∀ d, obj_data m (home x v) = Some d → length d' = length d) → Z.of_nat (length r) ≤ cap v → 
  let v' := match v with Stack _ => Stack d' | Heap _ _ _ => v end in
  vars (upd m (home x v) d') = <[x := v']> (vars m) ∧ content (blocks (upd m (home x v) d')) v' r.
Proof using.
  intros Hv Hc Hd Hl Hcap. destruct v as [d|p sz c]; cbn in *.
  - split; [done|]. rewrite (Hl d) by (by rewrite Hv). destruct Hc as [Hc _]. split; [done|]. eauto.
  - split; [by symmetry; apply insert_id|]. destruct Hc as (Hc&b&r0&Hb&Hr0&Hlen&_). split; [done|].
    exists (mk_rc (refcnt b) d'), (drop (length (bytes r)) d'). split_and!; [by rewrite lookup_alter_eq, Hb|done| |lia].
    cbn. rewrite (Hl (rc_data b)) by (by rewrite Hb). done.
Qed.

(** The copies of the prefix and of the suffix with its NUL. *)
Lemma copies_run m o oa ob d a ra b rb (k : nat) : obj_data m o = Some d →
  obj_data m oa = Some (bytes a ++ ra) → obj_data m ob = Some (bytes b ++ rb) → o ≠ oa → o ≠ ob →
  (length a ≤ k)%nat → (k + length b + 1 ≤ length d)%nat →
  stack_ok o (splice 0 (Some <$> a) d) → stack_ok o (splice k (bytes b) (splice 0 (Some <$> a) d)) →
  bind (memcpy (o, 0) (oa, 0) (Z.of_nat (length a))) (λ _, memcpy (o, Z.of_nat k) (ob, 0) (Z.of_nat (length b) + 1)) m =
    Ok (tt, upd m o (splice k (bytes b) (splice 0 (Some <$> a) d))).
Proof using.
  intros Ho Ha Hb Hoa Hob Hk Hl Hs1 Hs2.
  rewrite <- (take_bytes_drop0 a ra) in Hs1, Hs2 |- *.
  rewrite (bind_ok _ _ _ _ _ (memcpy_run m o oa 0 0 (length a) d _ Hoa Ho Ha ltac:(lia) ltac:(rewrite length_app, length_bytes; lia) Hs1)).
  set (d1 := splice 0 _ d) in *. set (m1 := upd m o d1). rewrite <- (upd_upd m o d1). fold m1.
  replace (Z.of_nat (length b) + 1) with (Z.of_nat (length b + 1)) by lia.
  assert (length d1 = length d) as Hd1.
  { apply length_splice. rewrite length_take, drop_0, length_app, length_bytes. lia. }
  assert (take (length b + 1) (drop 0 (bytes b ++ rb)) = bytes b) as Htb by (by rewrite drop_0, take_bytes_all).
  pose proof (memcpy_run m1 o ob k 0 (length b + 1) d1 (bytes b ++ rb) Hob) as Hrun. rewrite Htb in Hrun. apply Hrun.
  - by eapply upd_same.
  - unfold m1. by rewrite upd_other.
  - lia.
  - rewrite length_app, length_bytes. lia.
  - done.
Qed.

Lemma content_data' m x v s : vars m !! x = Some v → content (blocks m) v s → ∃ r, obj_data m (home x v) = Some (bytes s ++ r).
Proof using. intros Hx Hc. destruct (content_data m x v s Hx Hc) as (d&r&Hd&->). eauto. Qed.

Lemma content_length m x v s d : vars m !! x = Some v → content (blocks m) v s → obj_data m (home x v) = Some d → cap v + 1 ≤ Z.of_nat (length d).
Proof using.
  intros Hx Hc Hd. destruct v as [d'|p sz c]; cbn in *.
  - rewrite Hx in Hd. injection Hd as ->. destruct Hc as [-> _]. lia.
  - destruct Hc as (_&b&r&Hb&_&Hl&_). rewrite Hb in Hd. injection Hd as <-. lia.
Qed.

Lemma upd_data m o o' d' p : o = InBlock p → o' ≠ p → same_data m (upd m o d') o'.
Proof using. intros -> Hne. unfold same_data. cbn. by rewrite lookup_alter_ne. Qed.

(** The values of other variables in a rewritten memory. *)
Lemma upd_frame m x v d' y w p : wf m → vars m !! x = Some v → (∀ q, vptr v = Some q → users (vars m) q = 1) →
  y ≠ x → vars m !! y = Some w → vptr w = Some p → same_data m (upd m (home x v) d') p.
Proof using.
  intros Hwf Hx Hu Hne Hy Hp. pose proof (home_ne m x y v w Hwf ltac:(congruence) Hx Hy Hu) as Hh. unfold same_data.
  destruct v as [d|q sz c]; [done|]. destruct w as [d0|p' sz' c']; [done|]. injection Hp as ->. cbn in *. rewrite lookup_alter_ne; [done|congruence].
Qed.

Lemma same_data_trans m1 m2 m3 p : same_data m1 m2 p → same_data m2 m3 p → same_data m1 m3 p.
Proof using. unfold same_data. congruence. Qed.

Lemma concat_inplace_ok m σ x p q vx s a b : inv m σ → σ !! x = Some s → σ !! p = Some a → σ !! q = Some b → x ≠ p → x ≠ q →
  vars m !! x = Some vx → Z.of_nat (length (a ++ s ++ b)) ≤ cap vx → Z.of_nat (length (a ++ s ++ b)) < 2 ^ 32 - 1 →
  ∀ vp vq, vars m !! p = Some vp → vars m !! q = Some vq →
  ∃ m1 v, bind (xs_cow malloc x) (λ _, bind (xs_data x) (λ data,
      bind (memmove (padd data (Z.of_nat (length a))) data (Z.of_nat (length s))) (λ _,
      bind (memcpy data (home p vp, 0) (Z.of_nat (length a))) (λ _,
      memcpy (padd data (Z.of_nat (length a) + Z.of_nat (length s))) (home q vq, 0) (Z.of_nat (length b) + 1))))) m = Ok (tt, m1) ∧
    vars m1 = <[x := v]> (vars m) ∧ wf m1 ∧ content (blocks m1) v (a ++ s ++ b) ∧ sizeable v (a ++ s ++ b) ∧ (is_ptr v = is_ptr vx ∧ cap v = cap vx) ∧
    (∀ y w r, y ≠ x → vars m !! y = Some w → vptr w = Some r → same_data m m1 r).
Proof using malloc_fresh malloc_not_null.
  intros Hi Hx Hp Hq Hxp Hxq Hvx Hcap Hlen vp vq Hvp Hvq. pose proof (tmps_ne _ _ _ _ Hi Hx) as Hxt.
  destruct (xs_cow_ok m σ x s vx Hi Hxt Hx Hvx) as (m1&v1&Hrun&Hvars&Hwf&Hc&Hcap1&Hstack&Hu&Hsame&_).
  rewrite (bind_ok _ _ _ _ _ Hrun). assert (vars m1 !! x = Some v1) as Hv1 by (by rewrite Hvars, lookup_insert_eq).
  rewrite (xs_data_run _ _ _ _ Hv1). unfold padd. cbn [fst snd]. rewrite Z.add_0_l.
  assert (∀ y w t, σ !! y = Some t → vars m !! y = Some w → x ≠ y → ∃ r, obj_data m1 (home y w) = Some (bytes t ++ r) ∧ home x v1 ≠ home y w) as Hothers.
  { intros y w t Ht Hw Hne. destruct (inv_var _ _ Hi y t Ht) as (w'&Hw'&Hct&_). rewrite Hw in Hw'. injection Hw' as <-.
    assert (vars m1 !! y = Some w) as Hw1 by (by rewrite Hvars, lookup_insert_ne).
    destruct (content_data' m1 y w t Hw1) as [r Hr].
    - eapply content_frame; [|exact Hct]. intros r Hr. apply Hsame. destruct (inv_wf _ _ Hi) as [_ Hd]. by eapply Hd.
    - exists r. split; [done|]. by apply (home_ne m1). }
  destruct (Hothers p vp a Hp Hvp Hxp) as (ra&Ha&Hna). destruct (Hothers q vq b Hq Hvq Hxq) as (rb&Hb&Hnb).
  destruct (content_data' m1 x v1 s Hv1 Hc) as [r Hd]. pose proof (content_length m1 x v1 s _ Hv1 Hc Hd) as Hld.
  set (d := bytes s ++ r) in *. rewrite !length_app in Hcap. rewrite Hcap1 in Hld.
  assert (take (length s) (drop 0 d) = Some <$> s) as Hts by apply take_bytes_drop0.
  set (d1 := splice (length a) (Some <$> s) d). set (d2 := splice 0 (Some <$> a) d1).
  set (d3 := splice (length a + length s) (bytes b) d2).
  assert (length d1 = length d) as Hl1 by (apply length_splice; rewrite length_fmap; lia).
  assert (length d2 = length d) as Hl2 by (unfold d2; rewrite length_splice; rewrite ?length_fmap; lia).
  assert (length d3 = length d) as Hl3 by (unfold d3; rewrite length_splice; rewrite ?length_bytes; lia).
  (* the flags in the last byte *)
  destruct (inv_var _ _ Hi x s Hx) as (w&Hw&Hcw&Hsz&_). rewrite Hvx in Hw. injection Hw as <-.
  destruct (cow_stack m1 x vx v1 (blocks m) s d r Hv1 Hd eq_refl Hcw Hsz Hcap1 Hstack) as [Hst Hcut].
  assert (match v1 with Stack _ => 0 ≤ last_byte d < 16 ∧ (length a + length s + length b ≤ 15)%nat ∧ length d = 16%nat | Heap _ _ _ => True end) as Hflags.
  { destruct v1 as [d0|]; [|done]. destruct Hcut as (?&?&?), (Hst eq_refl) as [_ ->]. cbn in Hcap. split; [done|]. split; [lia|done]. }
  assert (stack_ok (home x v1) d1 ∧ stack_ok (home x v1) d2 ∧ stack_ok (home x v1) d3 ∧
    match v1 with Stack _ => 0 ≤ last_byte d3 < 16 | Heap _ _ _ => True end) as (Hk1&Hk2&Hk3&Hk).
  { destruct v1 as [d0|]; [|by split_and!]. destruct Hflags as (Hlb&Htot&Hl16). cbn [home stack_ok].
    assert (last_byte d1 = last_byte d) as Hb1 by (apply last_byte_splice; rewrite ?length_fmap; lia).
    assert (last_byte d2 = last_byte d) as Hb2 by (rewrite <- Hb1; apply last_byte_splice; rewrite ?length_fmap; lia).
    assert (0 ≤ last_byte d3 < 16) as Hb3 by (apply last_byte_write; [congruence|by rewrite Hb2|lia]).
    rewrite Hb1, Hb2. by rewrite !testbit4. }
  pose proof (memmove_run m1 (home x v1) (home x v1) (length a) 0 (length s) d d Hd Hd) as Hmv. rewrite Hts in Hmv. fold d1 in Hmv.
  rewrite (bind_ok _ _ _ _ _ (Hmv ltac:(lia) ltac:(lia) Hk1)). set (m2 := upd m1 (home x v1) d1).
  assert (obj_data m2 (home x v1) = Some d1) as Hd1 by (by eapply upd_same).
  rewrite <- Nat2Z.inj_add, (copies_run m2 _ _ _ d1 a ra b rb (length a + length s) Hd1); [|unfold m2; by rewrite upd_other..|done|done|lia|lia|done|done].
  fold d2. fold d3. unfold m2. rewrite upd_upd.
  assert (d3 = bytes (a ++ s ++ b) ++ drop (length (bytes (a ++ s ++ b))) d3) as Hd3.
  { assert (d3 = bytes (a ++ s ++ b) ++ drop (length a + length s + length (bytes b)) d) as ->.
    { unfold d3, d2, d1. rewrite <- (length_fmap Some a), <- (length_fmap Some s) at 1 2.
      pose proof (concat_splices (Some <$> a) (Some <$> s) (bytes b) d) as Hcs. rewrite !length_fmap, length_bytes in *.
      rewrite Hcs by lia. f_equal. by rewrite !bytes_app. }
    f_equal. symmetry. apply drop_app_length. }
  assert (Z.of_nat (length (a ++ s ++ b)) ≤ cap v1) as Hcap' by (rewrite Hcap1, !length_app; lia).
  destruct (content_upd m1 x v1 s (a ++ s ++ b) d3 Hv1 Hc Hd3) as [Hvars' Hc']; [|done|].
  { intros d' Hd'. rewrite Hd in Hd'. injection Hd' as <-. done. }
  set (v' := match v1 with Stack _ => Stack d3 | Heap _ _ _ => v1 end) in *.
  exists (upd m1 (home x v1) d3), v'. split; [done|]. split; [by rewrite Hvars', Hvars, insert_insert_eq|].
  split; [by apply wf_upd; [|by eexists]|]. split; [done|]. split; [|split].
  - unfold v'. destruct v1 as [d0|]; [|done]. cbn. rewrite !length_app. split; [done|]. lia.
  - split; [|unfold v'; by destruct v1; rewrite <- Hcap1].
    unfold v'. destruct v1 as [d0|]; [by destruct (Hst eq_refl) as [_ ->]|]. destruct vx as [|]; [|done]. by discriminate Hstack.
  - intros y w r' Hy Hw Hr'. apply (same_data_trans m m1).
    + apply Hsame. destruct (inv_wf _ _ Hi) as [_ Hd']. by eapply Hd'.
    + apply (upd_frame m1 x v1 d3 y w r' Hwf Hv1 Hu Hy); [by rewrite Hvars, lookup_insert_ne|done].
Qed.

Lemma concat_alloc_ok m σ x p q vx s a b : inv m σ → σ !! x = Some s → σ !! p = Some a → σ !! q = Some b →
  vars m !! x = Some vx → 15 < Z.of_nat (length (a ++ s ++ b)) < 2 ^ 32 - 1 →
  ∀ vp vq, vars m !! p = Some vp → vars m !! q = Some vq →
  ∃ m1 v, bind (set_var TMPS xs_literal_empty) (λ _, bind (xs_grow malloc TMPS (Z.of_nat (length (a ++ s ++ b)))) (λ _,
      bind (xs_data TMPS) (λ tmpdata,
      bind (memcpy (padd tmpdata (Z.of_nat (length a))) (home x vx, 0) (Z.of_nat (length s))) (λ _,
      bind (memcpy tmpdata (home p vp, 0) (Z.of_nat (length a))) (λ _,
      bind (memcpy (padd tmpdata (Z.of_nat (length a) + Z.of_nat (length s))) (home q vq, 0) (Z.of_nat (length b) + 1)) (λ _,
      bind (xs_free x) (λ _, bind drop_tmps (λ tmps, set_var x tmps)))))))) m = Ok (tt, m1) ∧
    vars m1 = <[x := v]> (vars m) ∧ wf m1 ∧ content (blocks m1) v (a ++ s ++ b) ∧
    (sizeable v (a ++ s ++ b) ∧ cap v ≤ 2 * Z.of_nat (length (a ++ s ++ b))) ∧
    (∀ y w r, y ≠ x → vars m !! y = Some w → vptr w = Some r → same_data m m1 r).
Proof using malloc_fresh malloc_not_null.
  intros Hi Hx Hp Hq Hvx Hlen vp vq Hvp Hvq. pose proof (tmps_ne _ _ _ _ Hi Hx) as Hxt. pose proof (inv_wf _ _ Hi) as Hwf.
  pose proof (tmps_none _ _ Hi) as Ht0.
  set (n := Z.of_nat (length (a ++ s ++ b))) in *.
  match goal with |- context [bind (xs_grow malloc TMPS n) ?k] => destruct (tmps_alloc m σ n k Hi ltac:(lia)) as (d&Hd&Hu&Hwf2&->) end.
  destruct (log2_capacity n ltac:(lia)) as [Hc Hcap]. set (c := Z.log2 n + 1) in *. set (u := malloc (blocks m)) in *. set (m2 := mk_mem _ _) in *.
  assert (vars m2 !! TMPS = Some (Heap u 0 c)) as Ht2 by (cbn; by rewrite lookup_insert_eq).
  assert (vars m2 = <[TMPS := Heap u 0 c]> (vars m)) as Hv2 by done.
  assert (∀ y w r, vars m !! y = Some w → vptr w = Some r → r ≠ u) as Hnew.
  { intros y w r Hw Hr ->. destruct Hwf as [_ Hd']. destruct (Hd' y w u Hw Hr) as [b' Hb']. by rewrite Hu in Hb'. }
  assert (∀ y w t, σ !! y = Some t → vars m !! y = Some w → ∃ r, obj_data m2 (home y w) = Some (bytes t ++ r) ∧ InBlock u ≠ home y w) as Hothers.
  { intros y w t Ht Hw. destruct (inv_var _ _ Hi y t Ht) as (w'&Hw'&Hct&_). rewrite Hw in Hw'. injection Hw' as <-.
    destruct (content_data' m2 y w t) as [r Hr].
    - rewrite Hv2, lookup_insert_ne; [done|]. intros <-. by rewrite Ht0 in Hw.
    - eapply content_frame; [|exact Hct]. intros r Hr. unfold same_data, m2. cbn [blocks].
      by rewrite lookup_insert_ne by (pose proof (Hnew y w r Hw Hr); congruence).
    - exists r. split; [done|]. destruct w as [|r0]; [done|]. cbn. intros [= ->]. by apply (Hnew y _ r0 Hw eq_refl). }
  destruct (Hothers x vx s Hx Hvx) as (rs&Hs&Hns). destruct (Hothers p vp a Hp Hvp) as (ra&Ha&Hna). destruct (Hothers q vq b Hq Hvq) as (rb&Hb&Hnb).
  assert (obj_data m2 (InBlock u) = Some d) as Hdu by (cbn; by rewrite lookup_insert_eq).
  rewrite (xs_data_run _ _ _ _ Ht2). unfold padd. cbn [fst snd home]. rewrite !Z.add_0_l.
  assert (n = Z.of_nat (length a + length s + length b)) as Hn by (unfold n; rewrite !length_app; lia).
  pose proof (memcpy_run m2 (InBlock u) (home x vx) (length a) 0 (length s) d _ Hns Hdu Hs ltac:(lia)
    ltac:(rewrite length_app, length_bytes; lia) I) as Hmv. rewrite take_bytes_drop0 in Hmv. rewrite (bind_ok _ _ _ _ _ Hmv).
  set (d1 := splice (length a) (Some <$> s) d). set (m3 := upd m2 (InBlock u) d1).
  assert (obj_data m3 (InBlock u) = Some d1) as Hd1 by (by eapply upd_same).
  assert (length d1 = length d) as Hl1 by (apply length_splice; rewrite length_fmap; lia).
  pose proof (copies_run m3 (InBlock u) (home p vp) (home q vq) d1 a ra b rb (length a + length s) Hd1) as Hcp.
  rewrite <- bind_assoc, <- Nat2Z.inj_add. erewrite bind_ok; [|apply Hcp; [unfold m3; by rewrite upd_other..|done|done|lia|lia|done|done]].
  unfold m3. rewrite upd_upd. set (d3 := splice _ (bytes b) _). set (m4 := upd m2 (InBlock u) d3).
  assert (d3 = bytes (a ++ s ++ b) ++ drop (length a + length s + length (bytes b)) d) as Hd3.
  { unfold d3, d1. pose proof (concat_splices (Some <$> a) (Some <$> s) (bytes b) d) as Hcs. rewrite !length_fmap, length_bytes in *.
    rewrite Hcs by lia. f_equal. by rewrite !bytes_app. }
  assert (wf m4) as Hwf4 by (apply wf_upd; [done|by eexists]).
  destruct (replace_run m m4 x (Heap u 0 c) vx Hxt Ht0 Hv2 Hwf4 Hvx) as [-> Hwf'].
  assert (∀ r, r ≠ u → blocks m4 !! r = blocks m !! r) as Hm4.
  { intros r Hr. unfold m4. cbn. by rewrite lookup_alter_ne, lookup_insert_ne. }
  eexists _, (Heap u 0 c). split; [done|]. split; [done|]. split; [done|]. split; [|split; [split; [done|cbn; unfold c; pose proof (pow_log2 n); lia]|]].
  - cbn [content blocks]. split; [done|]. exists (mk_rc 1 d3), (drop (length a + length s + length (bytes b)) d). split_and!; [|done| |lia].
    + rewrite released_other; [unfold m4, m2; cbn [upd blocks]; by rewrite insert_rc_upd, lookup_insert_eq|].
      intros Heq. by apply (Hnew x vx u Hvx Heq).
    + cbn [rc_data]. rewrite Hd3, length_app, length_drop, !length_bytes, !length_app. lia.
  - intros y w r Hy Hw Hr. pose proof (Hnew y w r Hw Hr) as Hru. unfold same_data. cbn [blocks].
    rewrite (released_shared m4 x y vx w r Hwf4); [by rewrite Hm4|congruence| | |done].
    + change (vars m4) with (vars m2); rewrite Hv2, lookup_insert_ne; done.
    + change (vars m4) with (vars m2); rewrite Hv2, lookup_insert_ne; [done|]. intros <-. by rewrite Ht0 in Hw.
Qed.

Lemma concat_ok m σ x p q s a b : inv m σ → σ !! x = Some s → σ !! p = Some a → σ !! q = Some b → x ≠ p → x ≠ q →
  Z.of_nat (length (a ++ s ++ b)) < 2 ^ 32 - 1 → ∃ m', xs_concat malloc x p q m = Ok (tt, m') ∧ stepped m m' σ x (a ++ s ++ b).
Proof using malloc_fresh malloc_not_null.
  intros Hi Hx Hp Hq Hxp Hxq Hlen. pose proof (tmps_ne _ _ _ _ Hi Hx) as Hxt.
  destruct (inv_var _ _ Hi x s Hx) as (vx&Hvx&Hcx&Hzx&[Hchx _]&Hnx).
  destruct (inv_var _ _ Hi p a Hp) as (vp&Hvp&Hcp&Hzp&[Hchp _]&_).
  destruct (inv_var _ _ Hi q b Hq) as (vq&Hvq&Hcq&Hzq&[Hchq _]&_).
  unfold xs_concat. rewrite (xs_size_run _ _ _ a _ Hvp Hcp Hzp), (xs_size_run _ _ _ b _ Hvq Hcq Hzq), (xs_size_run _ _ _ s _ Hvx Hcx Hzx).
  rewrite (xs_capacity_run _ _ _ _ Hvx), (xs_data_run _ _ _ _ Hvp), (xs_data_run _ _ _ _ Hvq), (xs_data_run _ _ _ _ Hvx).
  assert (u64 (Z.of_nat (length s) + Z.of_nat (length a) + Z.of_nat (length b)) = Z.of_nat (length (a ++ s ++ b))) as ->.
  { rewrite !length_app in *. rewrite wrapu_small; lia. }
  assert (15 ≤ cap vx) as Hcap15.
  { destruct vx as [|u sz c]; [done|]. destruct Hcx as [Hc _]. assert (2 ^ 5 ≤ 2 ^ c) by (apply Z.pow_le_mono_r; lia). cbn. lia. }
  assert (chars (a ++ s ++ b)) as Hch by (unfold chars; rewrite !Forall_app; done).
  match goal with |- context [bind ?w (λ _, set_size x _) m] => set (W := w) end.
  assert (∃ m1 v, W m = Ok (tt, m1) ∧ vars m1 = <[x := v]> (vars m) ∧ wf m1 ∧ content (blocks m1) v (a ++ s ++ b) ∧
    sizeable v (a ++ s ++ b) ∧ ((is_ptr v = true → a ++ s ++ b ≠ []) ∧ bounded m (a ++ s ++ b) v) ∧
    (∀ y w r, y ≠ x → vars m !! y = Some w → vptr w = Some r → same_data m m1 r)) as (m1&v&HW&Hvars&Hwf&Hc&Hsz&[Hne Hbd]&Hf).
  { unfold W. destruct (Z.leb_spec (Z.of_nat (length (a ++ s ++ b))) (cap vx)) as [Hle|Hgt].
    - destruct (concat_inplace_ok m σ x p q vx s a b Hi Hx Hp Hq Hxp Hxq Hvx Hle Hlen vp vq Hvp Hvq) as (m1&v&H1&H2&H3&H4&H5&[H6 H8]&H7).
      exists m1, v. split_and!; try done; [|right; exists x, vx; by rewrite H8].
      intros Hptr. rewrite H6 in Hptr. specialize (Hnx Hptr). by destruct a, s.
    - destruct (concat_alloc_ok m σ x p q vx s a b Hi Hx Hp Hq Hvx ltac:(lia) vp vq Hvp Hvq) as (m1&v&H1&H2&H3&H4&[H5 H8]&H7).
      exists m1, v. split_and!; try done; [|left; lia]. intros _ Hnil. rewrite Hnil in Hgt. cbn in Hgt. lia. }
  rewrite (bind_ok _ _ _ _ _ HW).
  destruct (set_size_ok m1 x v (a ++ s ++ b)) as (v'&Hrun&Hc'&Hsz'&[Hp' Hcp']&Hwf'); [by rewrite Hvars, lookup_insert_eq|done|done|lia|done|].
  eexists. split; [exact Hrun|]. eapply inv_update; [exact Hi|done| | |exact Hwf'|exact Hf|unfold bounded; by rewrite Hcp'].
  - cbn. by rewrite Hvars, insert_insert_eq.
  - split; [done|]. split; [done|]. split; [by split|]. rewrite Hp'. done.
Qed.

(** The two writes of [xs_trim]. *)
Lemma trim_splices (mid : list Z) d c : d !! length mid = Some (Some c) →
  splice 0 (Some <$> mid) d = (Some <$> mid) ++ Some c :: drop (length (bytes mid)) d ∧
  splice (length mid) [Some 0] (splice 0 (Some <$> mid) d) = bytes mid ++ drop (length (bytes mid)) d.
Proof using.
  intros Hc. pose proof (lookup_lt_Some _ _ _ Hc) as Hlt. rewrite length_bytes. assert (splice 0 (Some <$> mid) d = (Some <$> mid) ++ Some c :: drop (S (length mid)) d) as ->.
  { unfold splice. cbn [take app]. by rewrite length_fmap, Nat.add_0_l, (drop_S _ _ _ Hc). }
  split; [done|]. change (Some c :: drop (S (length mid)) d) with ([Some c] ++ drop (S (length mid)) d).
  rewrite splice_mid by (by rewrite ?length_fmap). unfold bytes. by rewrite <- app_assoc.
Qed.

(** The string [mid] in the middle of a string is moved to its start and ended there. *)
Lemma trim_writes m o os A mid B r r1 : let d := bytes (A ++ mid ++ B) ++ r1 in
  let d3 := bytes mid ++ drop (length (bytes mid)) d in
  obj_data m o = Some d → obj_data m os = Some (bytes (A ++ mid ++ B) ++ r) → cuttable o d 0 (A ++ mid ++ B) →
  (∀ {K} (k : unit → M mem K), bind (memmove (o, 0) (os, Z.of_nat (length A)) (Z.of_nat (length mid))) (λ _,
    bind (read_byte (o, Z.of_nat (length mid))) (λ c,
    bind (if truthy c then write (o, Z.of_nat (length mid)) [Some 0] else ret tt) k)) m = k tt (upd m o d3)) ∧
  (match o with InVar _ => 0 ≤ last_byte d3 < 16 | InBlock _ => True end).
Proof using.
  intros d d3 Hd Hos Hcut. set (s := A ++ mid ++ B) in *.
  assert (length s = length A + (length mid + length B))%nat as Hls by (unfold s; by rewrite !length_app).
  assert (∃ c, d !! length mid = Some (Some c) ∧ (length mid = length s → c = 0)) as (c&Hcm&Hc0).
  { destruct (decide (length mid = length s)) as [Heq|Hne'].
    - exists 0. rewrite Heq. by split; [apply bytes_lookup_nul|].
    - destruct (lookup_lt_is_Some_2 s (length mid)) as [c Hc']; [lia|]. exists c. by split; [apply bytes_lookup|]. }
  destruct (trim_splices mid d c Hcm) as [Hd2 Hd3]. fold d3 in Hd3. set (d2 := splice 0 (Some <$> mid) d) in *.
  assert (length d = S (length s + length r1))%nat as Hld by (unfold d; rewrite length_app, length_bytes; lia).
  assert (length d2 = length d) as Hl2 by (unfold d2; apply length_splice; rewrite length_fmap; lia).
  assert (take (length mid) (drop (length A) (bytes s ++ r)) = Some <$> mid) as Htake.
  { unfold s. rewrite !bytes_app, <- app_assoc, drop_app_length' by (by rewrite length_fmap). rewrite <- app_assoc.
    apply take_app_length'. by rewrite length_fmap. }
  assert (stack_ok o d2 ∧ (c ≠ 0 → stack_ok o d3) ∧ match o with InVar _ => 0 ≤ last_byte d3 < 16 | InBlock _ => True end) as (Hk2&Hk3&Hk).
  { destruct o as [x|]; [|by split_and!]. destruct Hcut as (Hl15&Hl16&Hlb). cbn [stack_ok].
    assert (last_byte d2 = last_byte d) as Hb2 by (apply last_byte_splice; rewrite ?length_fmap; lia).
    assert (0 ≤ last_byte d3 < 16) as Hb3.
    { destruct (decide (c = 0)) as [->|Hc'].
      - unfold d3, bytes. rewrite <- app_assoc. cbn [app]. unfold bytes in Hd2. rewrite <- Hd2. by rewrite Hb2.
      - rewrite <- Hd3. rewrite last_byte_splice; [by rewrite Hb2| |lia]. cbn. enough (length mid ≠ length s) by lia. auto. }
    rewrite Hb2. by rewrite !testbit4. }
  split; [|done]. intros K k.
  pose proof (memmove_run m o os 0 (length A) (length mid) d _ Hd Hos) as Hmv. rewrite Htake in Hmv. fold d2 in Hmv.
  change (Z.of_nat 0) with 0 in Hmv. rewrite (bind_ok _ _ _ _ _ (Hmv ltac:(lia) ltac:(rewrite length_app, length_bytes; lia) Hk2)).
  assert (obj_data (upd m o d2) o = Some d2) as Hm2 by (by eapply upd_same).
  assert (d2 !! length mid = Some (Some c)) as Hc2.
  { rewrite Hd2, lookup_app_r by (by rewrite length_fmap). by rewrite length_fmap, Nat.sub_diag. }
  rewrite (read_byte_run _ _ _ _ _ _ Hm2 Hc2). apply (bind_ok _ k _ tt). destruct (decide (c = 0)) as [->|Hc'].
  - change (truthy 0) with false. cbn. unfold ret. do 3 f_equal. rewrite Hd2. unfold d3, bytes. by rewrite <- app_assoc.
  - unfold truthy. rewrite (proj2 (Z.eqb_neq c 0)) by done. cbn [negb]. rewrite <- (upd_upd m o d2 d3), <- Hd3.
    apply write_run; [done|cbn; lia|]. rewrite Hd3. by apply Hk3.
Qed.

Lemma trim_ok m σ x s t : inv m σ → σ !! x = Some s → chars t → (t ≠ [] → s ≠ [] → trim_set t s ≠ []) →
  ∃ m', xs_trim malloc x t m = Ok (tt, m') ∧ stepped m m' σ x (trim_set t s).
Proof using malloc_fresh malloc_not_null.
  intros Hi Hx Ht Hne. pose proof (tmps_ne _ _ _ _ Hi Hx) as Hxt.
  destruct (inv_var _ _ Hi x s Hx) as (v&Hv&Hc&Hz&[Hch Hlen]&Hn0). unfold xs_trim. destruct t as [|t0 t'].
  { exists m. split; [done|]. assert (trim_set [] s = s) as ->.
    { assert (∀ l, drop_set [] l = l) as Hd by (intros [|c l]; [done|]; cbn; by rewrite bool_decide_false by (apply not_elem_of_nil)).
      unfold trim_set. by rewrite !Hd, reverse_involutive. }
    split; [by rewrite insert_id|]. exists v. split; [by rewrite insert_id|]. right. by eexists x, _. }
  specialize (Hne ltac:(done)). set (t := t0 :: t') in *. clearbody t.
  destruct (trim_split t s Hne) as (A&B&Hs&Hi1&Hk1). set (mid := trim_set t s) in *.
  rewrite (xs_data_run _ _ _ _ Hv), (xs_size_run _ _ _ s _ Hv Hc Hz), Nat2Z.id.
  destruct (content_data' m x v s Hv Hc) as [r Hd].
  pose proof (skip_front_run m (home x v) _ 0 s r t Hd eq_refl Hch Ht s [] eq_refl) as Hsf. cbn [length] in Hsf. change (Z.of_nat 0) with 0 in Hsf.
  rewrite (bind_ok _ _ _ _ _ Hsf), (bind_ok _ _ _ _ _ (skip_back_run m (home x v) _ 0 s r t Hd eq_refl Hch Ht (length s) ltac:(lia))).
  rewrite (take_ge s) by lia. rewrite Hk1, Hi1.
  pose proof (f_equal length Hs) as Hls. rewrite !length_app in Hls.
  replace (length s - (length s - length A))%nat with (length A) by lia. unfold padd at 1. cbn [fst snd]. rewrite Z.add_0_l.
  replace (u64 (Z.of_nat (length A + length mid) - Z.of_nat (length A))) with (Z.of_nat (length mid)) by (rewrite wrapu_small; lia).
  destruct (xs_cow_ok m σ x s v Hi Hxt Hx Hv) as (m1&v1&Hrun&Hvars&Hwf&Hc1&Hcap1&Hstack&Hu&Hsame&_).
  rewrite (bind_ok _ _ _ _ _ Hrun). assert (vars m1 !! x = Some v1) as Hv1 by (by rewrite Hvars, lookup_insert_eq).
  rewrite (xs_data_run _ _ _ _ Hv1). destruct (content_data' m1 x v1 s Hv1 Hc1) as [r1 Hd1].
  assert (obj_data m1 (home x v) = Some (bytes s ++ r)) as Hd0.
  { destruct v as [d|p sz c]; cbn in *; [by rewrite Hv1, Hstack, <- Hd, Hv by done|].
    assert (is_Some (blocks m !! p)) as Hp by (destruct (blocks m !! p); [by eexists|done]). specialize (Hsame p Hp). unfold same_data in Hsame. congruence. }
  set (d := bytes s ++ r1) in *.
  destruct (cow_stack m1 x v v1 (blocks m) s d r1 Hv1 Hd1 eq_refl Hc Hz Hcap1 Hstack) as [_ Hcut].
  pose proof (trim_writes m1 (home x v1) (home x v) A mid B r r1) as Hw. rewrite <- Hs in Hw.
  destruct (Hw Hd1 Hd0 Hcut) as [Hw' Hd3]. clear Hw. fold d in Hw', Hd3. set (d3 := bytes mid ++ drop (length (bytes mid)) d) in *.
  unfold padd. cbn [fst snd]. rewrite Z.add_0_l, Hw'.
  assert (d3 = bytes mid ++ drop (length (bytes mid)) d3) as Hd3'.
  { unfold d3 at 2. rewrite drop_app_length. done. }
  assert (length d3 = length d) as Hl3 by (unfold d3, d; rewrite !length_app, length_drop, !length_app, !length_bytes; lia).
  assert (Z.of_nat (length mid) ≤ cap v1) as Hcap'.
  { destruct v1 as [|p' sz' c']; [destruct Hcut as (?&_); cbn; lia|]. destruct Hc1 as (_&?&?&_&_&_&?). cbn. lia. }
  destruct (content_upd m1 x v1 s mid d3 Hv1 Hc1 Hd3') as [Hvars' Hc']; [intros d' Hd'; rewrite Hd1 in Hd'; by injection Hd' as <-|done|].
  set (v' := match v1 with Stack _ => Stack d3 | Heap _ _ _ => v1 end) in *.
  destruct (set_size_ok (upd m1 (home x v1) d3) x v' mid) as (v2&Hrun2&Hc2'&Hz2&[Hp2 Hcp2]&Hwf2).
  { by rewrite Hvars', lookup_insert_eq. }
  { done. }
  { unfold v'. destruct v1; [|done]. cbn. destruct Hcut as (?&_). split; [by apply Hd3|lia]. }
  { lia. }
  { by apply wf_upd; [|by eexists]. }
  eexists. split; [exact Hrun2|]. eapply inv_update; [exact Hi|done| | |exact Hwf2| |].
  - cbn. by rewrite Hvars', Hvars, !insert_insert_eq.
  - split; [done|]. split; [done|]. split; [split; [|lia]|].
    + unfold chars in *. rewrite Hs in Hch. apply Forall_app in Hch as [_ Hch]. by apply Forall_app in Hch as [? _].
    + rewrite Hp2. intros Hptr. apply Hne. apply Hn0. unfold v' in Hptr. destruct v1; [done|]. destruct v; [by discriminate Hstack|done].
  - intros y w q Hy Hyw Hq. apply (same_data_trans m m1); [apply Hsame; destruct (inv_wf _ _ Hi) as [_ Hdg]; by eapply Hdg|].
    unfold same_data. cbn [blocks]. apply (upd_frame m1 x v1 d3 y w q Hwf Hv1 Hu Hy); [by rewrite Hvars, lookup_insert_ne|done].
  - right. exists x, v. split; [done|]. rewrite Hcp2. unfold v'. by destruct v1; rewrite <- Hcap1.
Qed.

(** *** Growing a string that nobody shares *)

(** The block [p] of [x] is replaced by the new block [q]. *)
Lemma wf_replace m x p q b sz sz' c c' : wf m → vars m !! x = Some (Heap p sz c) → users (vars m) p = 1 → blocks m !! q = None →
  refcnt b = 1 → wf (mk_mem (<[x := Heap q sz' c']> (vars m)) (delete p (<[q := b]> (blocks m)))).
Proof using.
  intros Hwf Hx Hp Hq Hb. pose proof (wf_unused m q Hwf Hq) as Hu. destruct Hwf as [Hrc Hd].
  assert (p ≠ q) as Hpq by (intros ->; destruct (Hd x _ q Hx eq_refl) as [b0 Hb0]; by rewrite Hq in Hb0). split.
  - intros r b' Hr. cbn in *. apply lookup_delete_Some in Hr as [Hrp Hr]. rewrite (users_insert _ _ _ _ _ Hx).
    unfold points at 1. cbn [vptr]. rewrite (decide_False (P := Some p = Some r)) by congruence. unfold points. cbn [vptr].
    apply lookup_insert_Some in Hr as [[<- <-]|[Hne Hr]].
    + rewrite decide_True by done. lia.
    + rewrite decide_False by congruence. destruct (Hrc r b' Hr). lia.
  - intros y w r Hy Hr. cbn in *. apply lookup_insert_Some in Hy as [[<- <-]|[Hne Hy]].
    + injection Hr as <-. rewrite lookup_delete_ne, lookup_insert_eq by done. by eexists.
    + rewrite lookup_delete_ne; [apply lookup_insert_is_Some'; right; by eapply Hd|].
      intros ->. pose proof (users_two (vars m) x y _ _ r ltac:(congruence) Hx Hy eq_refl Hr). lia.
Qed.

Lemma grow_ok m σ x s p sz c len : inv m σ → σ !! x = Some s → vars m !! x = Some (Heap p sz c) → users (vars m) p = 1 →
  2 ^ c - 1 < len < 2 ^ 32 → ∃ m', xs_grow malloc x len m = Ok (tt, m') ∧ inv m' σ.
Proof using malloc_fresh malloc_not_null.
  intros Hi Hx Hv Hp Hlen. pose proof (inv_wf _ _ Hi) as Hwf. pose proof (tmps_ne _ _ _ _ Hi Hx) as Hxt.
  destruct (inv_block m σ x s p sz c Hi Hx Hv) as (b&r&Hb&Hdata&Hn&Hr&Hc&Hl&Hcap&->). rewrite Hp in Hn.
  assert (2 ^ 5 ≤ 2 ^ c) as Hpow by (apply Z.pow_le_mono_r; lia).
  destruct (log2_capacity len ltac:(lia)) as [Hc' Hcap']. set (c' := Z.log2 len + 1) in *.
  unfold xs_grow. rewrite (xs_capacity_run _ _ _ _ Hv). cbn [cap]. rewrite (proj2 (Z.leb_gt len _)) by lia.
  rewrite ilog2_run by lia. fold c'. rewrite (get_var_run _ _ _ _ Hv). unfold refcount_realloc.
  assert (refcount_get x m = Ok (1, m)) as Hrc.
  { unfold refcount_get. rewrite (get_var_run _ _ _ _ Hv). cbn [is_ptr refcount_fromxs].
    by rewrite (bind_ok _ _ _ _ _ (ret_run _ _)), (get_block_run _ _ _ _ Hb), Hn. }
  rewrite bind_assoc, (bind_ok _ _ _ _ _ Hrc), bind_assoc. change (massert (1 =? 1)) with (ret tt : M mem unit).
  rewrite (bind_ok _ _ _ _ _ (ret_run _ _)), bind_assoc, (get_var_run _ _ _ _ Hv). cbn [refcount_fromxs].
  rewrite bind_assoc, (bind_ok _ _ _ _ _ (ret_run _ _)), bind_assoc, Z.shiftl_1_l, refcount_create_run.
  set (q := malloc (blocks m)). assert (blocks m !! q = None) as Hq by (apply malloc_fresh).
  assert (p ≠ q) as Hpq by (intros ->; by rewrite Hq in Hb). set (m1 := mk_mem _ _).
  assert (vars m1 !! x = Some (Heap p (Z.of_nat (length s)) c)) as Hv1 by done.
  unfold xs_size. rewrite !bind_assoc, (get_var_run _ _ _ _ Hv1), (bind_ok _ _ _ _ _ (ret_run _ _)).
  assert (obj_data m1 (InBlock q) = Some (replicate (Z.to_nat (2 ^ c' + 7)) None)) as Hq1 by (cbn; by rewrite lookup_insert_eq).
  assert (obj_data m1 (InBlock p) = Some (bytes s ++ r)) as Hp1 by (cbn; rewrite lookup_insert_ne, Hb by done; cbn; by rewrite Hdata).
  replace (Z.of_nat (length s) + 1) with (Z.of_nat (length s + 1)) by lia.
  assert (length s + 1 ≤ Z.to_nat (2 ^ c' + 7))%nat as Hfit by lia.
  rewrite bind_assoc, (bind_ok _ _ _ _ _ (memcpy_run m1 (InBlock q) (InBlock p) 0 0 (length s + 1) _ _ ltac:(congruence) Hq1 Hp1
    ltac:(rewrite length_replicate; lia) ltac:(rewrite length_app, length_bytes; lia) I)).
  rewrite splice_copy by (rewrite length_replicate; lia). set (d := bytes s ++ _). set (m2 := upd _ _ _).
  assert (blocks m2 = <[q := mk_rc 1 d]> (blocks m)) as Hm2 by (unfold m2, m1; cbn [upd blocks]; apply insert_rc_upd).
  assert (blocks m2 !! p = Some b) as Hp2 by (by rewrite Hm2, lookup_insert_ne).
  unfold free. rewrite !bind_assoc, (get_block_run _ _ _ _ Hp2), (bind_ok _ _ _ _ _ (modify_run _ _)), (bind_ok _ _ _ _ _ (ret_run _ _)).
  eexists. split; [done|]. rewrite wrapu_6, Hm2 by done. set (m' := mk_mem _ _).
  assert (blocks m' = delete p (<[q := mk_rc 1 d]> (blocks m))) as Hm' by done.
  enough (inv m' (<[x := s]> σ)) as Hinv by (by rewrite insert_id in Hinv).
  apply (inv_set m m' σ x (Heap q (Z.of_nat (length s)) c') s Hi Hxt eq_refl);
    [|exact (wf_replace m x p q (mk_rc 1 d) _ _ c c' Hwf Hv Hp Hq eq_refl)|].
  - destruct (inv_var _ _ Hi x s Hx) as (v0&Hv0&_&_&Hs&Hne). rewrite Hv in Hv0. injection Hv0 as <-.
    split; [|split; [done|split; [done|done]]]. cbn [content]. split; [done|]. rewrite Hm'. eexists _, _.
    split; [rewrite lookup_delete_ne by done; apply lookup_insert_eq|]. split; [reflexivity|]. cbn [rc_data]. unfold d.
    rewrite length_app, length_bytes, length_drop, length_replicate. lia.
  - intros y w u Hy Hw Hu. unfold same_data. rewrite Hm'.
    assert (u ≠ p) as Hup.
    { intros ->. pose proof (users_two (vars m) x y _ _ p ltac:(congruence) Hv Hw eq_refl Hu). lia. }
    rewrite lookup_delete_ne by congruence. destruct Hwf as [_ Hdg]. destruct (Hdg y w u Hw Hu) as [b' Hb'].
    rewrite lookup_insert_ne; [done|]. intros <-. by rewrite Hq in Hb'.
Qed.

(** The variable that a call changes. *)
Definition target (c : call) : option Z :=
  match c with
  | Decl x | New x _ | Free x | Concat x _ _ | Trim x _ | Copy _ x => Some x
  | Expect _ _ => None
  end.

(** A call does what it is specified to do, and changes its target only. *)
Lemma exec_call_stepped m σ σ' c : inv m σ → call_spec c σ = Some σ' →
  ∃ m', exec_call malloc c m = Ok (tt, m') ∧
    match target c with
    | Some x => ∃ s, σ' = <[x := s]> σ ∧ stepped m m' σ x s
    | None => σ' = σ ∧ m' = m
    end.
Proof using malloc_fresh malloc_not_null.
  intros Hi Hc. destruct c as [x|x p|x|x p q|x t|src dest|x s]; cbn [call_spec exec_call target] in *.
  - case_bool_decide as H; [|done]. injection Hc as <-. destruct H. edestruct (decl_ok m σ x) as (m'&?&?); eauto.
  - case_bool_decide as H; [|done]. injection Hc as <-. destruct H as (?&?&?). edestruct (xs_new_ok m σ x p) as (m'&?&?); eauto.
  - destruct (σ !! x) as [s|] eqn:Hx; [|done]. injection Hc as <-. edestruct (xs_free_ok m σ x s) as (m'&?&?); eauto.
  - destruct (σ !! p) as [a|] eqn:Hp; [|done]. destruct (σ !! q) as [b|] eqn:Hq; [|done]. destruct (σ !! x) as [s|] eqn:Hx; [|done].
    cbn in Hc. case_bool_decide as H; [|done]. injection Hc as <-. destruct H as (?&?&?).
    edestruct (concat_ok m σ x p q s a b) as (m'&?&?); eauto.
  - destruct (σ !! x) as [s|] eqn:Hx; [|done]. cbn in Hc. case_bool_decide as H; [|done]. injection Hc as <-. destruct H.
    edestruct (trim_ok m σ x s t) as (m'&?&?); eauto.
  - destruct (σ !! src) as [s|] eqn:Hs; [|done]. cbn in Hc. case_bool_decide as H; [|done]. injection Hc as <-. destruct H.
    edestruct (copy_ok m σ src dest s) as (m'&?&?); eauto.
  - case_bool_decide as H; [|done]. injection Hc as <-. rewrite (bind_ok _ _ _ _ _ (inv_c_string _ _ _ _ Hi H)), bool_decide_true by done. by exists m.
Qed.

Lemma exec_call_ok m σ σ' c : inv m σ → call_spec c σ = Some σ' → ∃ m', exec_call malloc c m = Ok (tt, m') ∧ inv m' σ'.
Proof using malloc_fresh malloc_not_null.
  intros Hi Hc. destruct (exec_call_stepped m σ σ' c Hi Hc) as (m'&Hrun&Ht). exists m'. split; [done|].
  destruct (target c); [by destruct Ht as (s&->&[? _])|by destruct Ht as [-> ->]].
Qed.

Lemma calls_ok cs : ∀ m σ σ', inv m σ → calls_spec cs σ = Some σ' → ∃ m', run_calls malloc cs m = Ok (tt, m') ∧ inv m' σ'.
Proof using malloc_fresh malloc_not_null.
  induction cs as [|c cs IH]; intros m σ σ' Hi Hc; cbn in *; [injection Hc as <-; by exists m|].
  destruct (call_spec c σ) as [σ1|] eqn:H1; [|done]. destruct (exec_call_ok m σ σ1 c Hi H1) as (m1&Hrun&Hi1).
  rewrite (bind_ok _ _ _ _ _ Hrun). by apply (IH m1 σ1).
Qed.
End client.

Lemma inv_xs_size m σ x s : inv m σ → σ !! x = Some s → xs_size x m = Ok (Z.of_nat (length s), m).
Proof.
  intros Hi Hx. destruct (inv_var _ _ Hi x s Hx) as (v&Hv&Hc&Hz&_).
  pose proof (xs_size_run m x v s ret Hv Hc Hz) as H. unfold bind in H. by destruct (xs_size x m) as [[]|].
Qed.

(** When every string has been freed no block is left. *)
Lemma inv_no_leak m σ : inv m σ → (∀ x s, σ !! x = Some s → s = []) → blocks m = ∅.
Proof.
  intros Hi Hall. apply map_eq. intros p. rewrite lookup_empty. destruct (blocks m !! p) as [b|] eqn:Hb; [|done].
  destruct (inv_rc _ _ Hi p b Hb) as [Hn Hr]. rewrite users_zero in Hn; [lia|]. intros x v Hv Hp.
  destruct (inv_dom _ _ Hi x v Hv) as [s Hs]. rewrite (Hall x s Hs) in Hs. destruct (empty_stack m σ x Hi Hs) as [d Hd].
  rewrite Hv in Hd. by injection Hd as ->.
Qed.

Lemma inv_no_strings : inv no_strings ∅.
Proof. split; [intros x s Hx|intros x v Hx|intros p b Hb|done]; [|cbn in Hx|cbn in Hb]; by rewrite lookup_empty in *. Qed.

(** C9: copy on write is not observable.  Every sequence of declarations,
    [xs_new], [xs_copy], [xs_concat], [xs_trim], [xs_free] and checks that the
    specification admits runs without undefined behaviour, without a failed
    assertion and with its checks passing, and afterwards [xs_data] and [xs_size] of every variable
    are those of a program in which every variable has a string of its own.
    The reference counts are exact, so that no block is left when all strings
    have been freed.  The specification excludes: [xs_new] and [xs_copy] over
    a string that is not empty, strings of 2^32 - 1 bytes and more, [xs_concat]
    with the string itself as prefix or suffix, and trimming all of a string
    away. *)
Theorem xs_refines (malloc : gmap Z RefCounted → Z) (cs : list call) (σ : gmap Z (list Z)) :
  (∀ h, h !! malloc h = None) → (∀ h, malloc h ≠ 0) → calls_spec cs ∅ = Some σ →
  ∃ m, run_calls malloc cs no_strings = Ok (tt, m) ∧
    (∀ x s, σ !! x = Some s → c_string x m = Ok (s, m) ∧ xs_size x m = Ok (Z.of_nat (length s), m)) ∧
    (∀ p b, blocks m !! p = Some b → refcnt b = users (vars m) p ∧ 0 < refcnt b) ∧
    ((∀ x s, σ !! x = Some s → s = []) → blocks m = ∅).
Proof.
  intros Hfresh Hnull Hc. destruct (calls_ok malloc Hfresh Hnull cs no_strings ∅ σ inv_no_strings Hc) as (m&Hrun&Hi).
  exists m. split; [done|]. split; [intros x s Hx; split; [by eapply inv_c_string|by eapply inv_xs_size]|].
  split; [intros p b Hb; destruct (inv_rc _ _ Hi p b Hb); split; [done|lia]|]. by apply inv_no_leak.
Qed.

(** The bits of a string: sixteen bytes with the flag of the stack clear, or fields that
    fit into theirs and a block of the right size; the characters up to the size are
    characters, and the next byte is NUL. *)
Definition ends_at (d : list byte) (n : Z) : Prop :=
  0 ≤ n ∧ d !! Z.to_nat n = Some (Some 0) ∧ Forall (λ b, ∃ c, b = Some c ∧ 0 < c < 256) (take (Z.to_nat n) d).
Definition well_typed (bl : gmap Z RefCounted) (v : xs) : Prop :=
  match v with
  | Stack d => length d = 16%nat ∧ 0 ≤ last_byte d < 16 ∧ ends_at d (15 - space_left d)
  | Heap p size c =>
      5 ≤ c < 2 ^ 6 ∧ 0 < size < 2 ^ c ∧ size < 2 ^ 54 ∧
      ∃ b, bl !! p = Some b ∧ Z.of_nat (length (rc_data b)) = sizeof_RefCounted + 2 ^ c - 1 - offsetof_data ∧ ends_at (rc_data b) size
  end.

Lemma ends_at_bytes s r : chars s → ends_at (bytes s ++ r) (Z.of_nat (length s)).
Proof.
  intros Hs. split; [lia|]. rewrite Nat2Z.id. split; [apply bytes_lookup_nul|]. rewrite take_bytes. apply Forall_fmap.
  eapply Forall_impl; [exact Hs|]. intros c Hc. by exists c.
Qed.

Lemma var_ok_typed bl v s : var_ok bl v s → well_typed bl v.
Proof.
  intros (Hc&Hz&[Hch Hlen]&Hne). destruct v as [d|p size c]; cbn [content sized well_typed] in *.
  - destruct Hc as (Hl&r&Hd). destruct (sized_stack d s r Hl Hd Hz) as [H15 Hsl]. split; [done|]. split; [lia|].
    rewrite Hsl, Hd. replace (15 - (15 - Z.of_nat (length s))) with (Z.of_nat (length s)) by lia. by apply ends_at_bytes.
  - destruct Hc as (Hc&b&r&Hb&Hd&Hlb&Hls). specialize (Hne eq_refl). assert (0 < Z.of_nat (length s)) by (destruct s; [done|cbn; lia]).
    split; [lia|]. rewrite Hz. split; [lia|]. split; [lia|]. exists b. split; [done|].
    split; [unfold sizeof_RefCounted, offsetof_data; lia|]. rewrite Hd. by apply ends_at_bytes.
Qed.

(** C32: (representation) every admitted sequence of calls leaves each variable with
    bits that mean a string: on the stack 16 bytes without the flag [is_ptr], on the
    heap a size and a capacity that fit into their 54 and 6 bits and a block of that
    capacity; the size is where the NUL is, behind characters only. *)
Theorem xs_well_typed (malloc : gmap Z RefCounted → Z) (cs : list call) (σ : gmap Z (list Z)) :
  (∀ h, h !! malloc h = None) → (∀ h, malloc h ≠ 0) → calls_spec cs ∅ = Some σ →
  ∃ m, run_calls malloc cs no_strings = Ok (tt, m) ∧ dom (vars m) = dom σ ∧ ∀ x v, vars m !! x = Some v → well_typed (blocks m) v.
Proof.
  intros Hfresh Hnull Hc. destruct (calls_ok malloc Hfresh Hnull cs no_strings ∅ σ inv_no_strings Hc) as (m&Hrun&Hi).
  exists m. split; [done|]. split.
  - apply set_eq. intros x. rewrite !elem_of_dom. split; [intros [v Hv]; by eapply inv_dom|].
    intros [s Hs]. destruct (inv_var _ _ Hi x s Hs) as (v&Hv&_). by eexists.
  - intros x v Hv. destruct (inv_dom _ _ Hi x v Hv) as [s Hs]. destruct (inv_var _ _ Hi x s Hs) as (v'&Hv'&Hok).
    rewrite Hv in Hv'. injection Hv' as <-. by eapply var_ok_typed.
Qed.

(** ** Tokens *)

Lemma word_split t s : ∃ rest, s = word t s ++ rest ∧ (rest = [] ∨ ∃ c, rest = c :: after t s).
Proof.
  unfold after. induction s as [|c s (rest&H1&H2)]; [by exists []; split; [|left]|]. cbn [word]. case_bool_decide as Hc.
  - exists (c :: s). split; [done|]. right. by exists c.
  - exists rest. cbn [app length]. split; [by f_equal|]. destruct H2 as [->|(c'&->)]; [by left|]. right. exists c'. done.
Qed.

Lemma chars_app s t : chars (s ++ t) ↔ chars s ∧ chars t.
Proof. apply Forall_app. Qed.

Definition flags_kept (o : obj) (d d' : list byte) : Prop :=
  match o with InVar _ => last_byte d' = last_byte d | InBlock _ => True end.

(** One call on the string behind [(o, k)]. *)
(** The memory after the end of a word has been marked. *)
Lemma cut_data_split d k A w rest r t : drop k d = bytes (A ++ w ++ rest) ++ r → w = word t (w ++ rest) →
  rest = [] ∨ (∃ c, rest = c :: after t (w ++ rest)) → let s := A ++ w ++ rest in
  ∃ P r', cut_data d k s (length A + length w) = P ++ bytes w ++ r' ∧ length P = (k + length A)%nat ∧ take (length P + length w) d = P ++ (Some <$> w) ∧
    drop (k + min (S (length A + length w)) (length s)) (P ++ bytes w ++ r') = bytes (after t (w ++ rest)) ++ r.
Proof.
  intros Hk Hw Hrest s. pose proof (f_equal length Hk) as Hl. rewrite length_drop, length_app, length_bytes in Hl. fold s in Hl.
  assert (length s = length A + (length w + length rest))%nat as Hls by (unfold s; by rewrite !length_app).
  set (P := take k d ++ (Some <$> A)). assert (length P = (k + length A)%nat) as HP by (unfold P; rewrite length_app, length_take, length_fmap; lia).
  assert (d = P ++ (Some <$> w) ++ bytes rest ++ r) as Hd.
  { rewrite <- (take_drop k d) at 1. rewrite Hk, !bytes_app. unfold P. by rewrite <- !app_assoc. }
  assert (take (length P + length w) d = P ++ (Some <$> w)) as Htake.
  { rewrite Hd, app_assoc. apply take_app_length'. by rewrite length_app, length_fmap. }
  unfold cut_data. destruct Hrest as [->|[c Hc]].
  - exists P, r. rewrite decide_False by (cbn in Hls; lia). split; [rewrite Hd; unfold bytes; by rewrite <- !app_assoc|]. split; [done|]. split; [done|].
    assert (after t (w ++ []) = []) as -> by (unfold after; rewrite <- Hw, app_nil_r; apply drop_ge; lia).
    unfold bytes at 1. rewrite <- app_assoc, app_assoc. apply drop_app_length'. rewrite length_app, length_fmap. cbn in Hls. lia.
  - exists P, (bytes (after t (w ++ rest)) ++ r). rewrite decide_True by (rewrite Hls, Hc; cbn; lia). split; [|split; [done|split; [done|]]].
    + rewrite Hd at 1. rewrite Hc at 1. change (bytes (c :: ?l)) with ([Some c] ++ bytes l). rewrite <- (app_assoc [Some c]), (app_assoc P).
      rewrite splice_mid; [|rewrite length_app, length_fmap; lia|done]. unfold bytes at 2. by rewrite <- !app_assoc.
    + unfold bytes at 1. rewrite !app_assoc, <- (app_assoc _ (bytes _)). apply drop_app_length'. rewrite !length_app, length_fmap.
      pose proof (f_equal length Hc) as Hlr. cbn [length] in Hlr |- *. lia.
Qed.

Lemma next_token_ok m o d k s r t saveptr : obj_data m o = Some d → drop k d = bytes s ++ r → chars s → chars t → cuttable o d k s →
  match drop_set t s with
  | [] => next_token t saveptr (o, Z.of_nat k) m = Ok ((None, saveptr), m)
  | rest =>
      let i := (length s - length rest)%nat in
      let e := (k + min (S (i + length (word t rest))) (length s))%nat in
      ∃ d' r', next_token t saveptr (o, Z.of_nat k) m = Ok ((Some (o, Z.of_nat (k + i)), (o, Z.of_nat e)), upd m o d') ∧
        drop (k + i) d' = bytes (word t rest) ++ r' ∧ drop e d' = bytes (after t rest) ++ r ∧ length d' = length d ∧
        take (k + i + length (word t rest)) d' = take (k + i + length (word t rest)) d ∧ cuttable o d' e (after t rest) ∧ flags_kept o d d'
  end.
Proof.
  intros Ho Hk Hs Ht Hcut. pose proof (f_equal length Hk) as Hl. rewrite length_drop, length_app, length_bytes in Hl.
  destruct (drop_set_split t s) as (A&HA&_&_). set (rest := drop_set t s) in *.
  assert (length s = length A + length rest)%nat as Hls by (by rewrite HA, length_app).
  assert (next_token t saveptr (o, Z.of_nat k) m = bind (read_byte (padd (o, Z.of_nat k) (Z.of_nat (length A)))) (λ c,
    if c =? 0 then ret (None, saveptr) else bind (cut_token (Z.to_nat (Z.of_nat (length s) - Z.of_nat (length A))) (mask_of t) (o, Z.of_nat k) (Z.of_nat (length A)))
      (λ i, ret (Some (padd (o, Z.of_nat k) (Z.of_nat (length A))), padd (o, Z.of_nat k) i))) m) as ->.
  { unfold next_token. rewrite (strlen_run _ _ _ _ _ _ _ Ho Hk Hs), Nat2Z.id.
    pose proof (skip_front_run m o d k s r t Ho Hk Hs Ht s [] eq_refl) as Hsf. cbn [length] in Hsf. change (Z.of_nat 0) with 0 in Hsf.
    rewrite (bind_ok _ _ _ _ _ Hsf). fold rest. by replace (length s - length rest)%nat with (length A) by lia. }
  destruct rest as [|c0 rest'] eqn:Hrest.
  { unfold padd. cbn [fst snd]. cbn in Hls. rewrite <- Nat2Z.inj_add, (read_byte_run _ _ d (k + length A) 0); [done|done|].
    rewrite <- lookup_drop, Hk. replace (length A) with (length s) by lia. apply bytes_lookup_nul. }
  rewrite <- Hrest in *. cbn zeta. replace (length s - length rest)%nat with (length A) by lia.
  assert (s !! length A = Some c0) as Hc0 by (rewrite HA, Hrest; by apply list_lookup_middle).
  assert (0 < c0) as Hc0pos by (pose proof (Forall_lookup_1 _ _ _ _ Hs Hc0) as Hpos; cbn in Hpos; lia).
  rewrite (read_char m o d k s r Ho Hk _ _ _ Hc0), (proj2 (Z.eqb_neq c0 0)) by lia.
  replace (Z.to_nat (Z.of_nat (length s) - Z.of_nat (length A))) with (length rest) by lia.
  rewrite (bind_ok _ _ _ _ _ (cut_token_run m o d k s r t Ho Hk Hs Ht Hcut rest A HA)). cbn zeta.
  destruct (word_split t rest) as (rest2&Hr1&Hr2). set (w := word t rest) in *.
  destruct (cut_data_split d k A w rest2 r t) as (P&r'&Hcd&HP&Htake&Hdrop); [by rewrite <- Hr1, <- HA|by rewrite <- Hr1|by rewrite <- Hr1|].
  rewrite <- Hr1, <- HA in *. exists (cut_data d k s (length A + length w)), r'. unfold padd, ret. cbn [fst snd]. rewrite !Z.add_0_l || idtac.
  assert (length w ≤ length rest)%nat as Hwl by (rewrite Hr1; rewrite length_app; lia).
  assert (length (cut_data d k s (length A + length w)) = length d) as Hld.
  { unfold cut_data. case_decide; [|done]. apply length_splice. cbn. lia. }
  split; [by rewrite <- !Nat2Z.inj_add|]. split; [rewrite Hcd, <- HP; apply drop_app_length|]. split; [by rewrite Hcd|]. split; [done|].
  rewrite <- HP. split.
  - rewrite Htake, Hcd. unfold bytes. rewrite <- app_assoc, app_assoc. apply take_app_length'. by rewrite length_app, length_fmap.
  - unfold cuttable, flags_kept in *. destruct o as [x|p]; [|done]. destruct Hcut as (H1&H2&H3). rewrite Hld.
    assert (last_byte (cut_data d k s (length A + length w)) = last_byte d) as ->.
    { unfold cut_data. case_decide; [|done]. rewrite last_byte_splice; [done| |lia]. cbn. lia. }
    split; [|done]. split; [|by split]. unfold after. fold w. rewrite length_drop. lia.
Qed.
Lemma take_eq_le {A} n n' (l l' : list A) : (n ≤ n')%nat → take n' l = take n' l' → take n l = take n l'.
Proof.
  intros Hn H. assert (∀ l0 : list A, take n l0 = take n (take n' l0)) as Ht by (intros l0; rewrite take_take; f_equal; lia).
  by rewrite (Ht l), H, <- Ht.
Qed.

Lemma word_pos t s : drop_set t s ≠ [] → (0 < length (word t (drop_set t s)))%nat.
Proof.
  intros H. destruct (drop_set_split t s) as (A&_&_&Hc). destruct (drop_set t s) as [|c r] eqn:Hd; [done|].
  cbn [word]. rewrite bool_decide_false by (by apply (Hc c r)). cbn. lia.
Qed.

Lemma drop_set_length t s : (length (drop_set t s) ≤ length s)%nat.
Proof. destruct (drop_set_split t s) as (A&HA&_). rewrite HA at 2. rewrite length_app. lia. Qed.

Section tokenizing.
Context (malloc : gmap Z RefCounted → Z) (o : obj) (t0 : Z) (t' : list Z).
Let t : list Z := t0 :: t'.
Context (Ht : chars t).

(** Reading the words from the position [k] on. *)
Lemma words_ok fuel : ∀ m d k s r saveptr (x : option Z), obj_data m o = Some d → drop k d = bytes s ++ r → chars s →
  cuttable o d k s → (length s < fuel)%nat →
  ∃ d', bind (next_token t saveptr (o, Z.of_nat k)) (λ '(tok, saveptr),
      match tok with None => ret [] | Some p => bind (text p) (λ w, bind (tokenize malloc (pred fuel) None t saveptr) (λ ws, ret (w :: ws))) end) m =
      Ok (tokens fuel t s, upd m o d') ∧ length d' = length d ∧ flags_kept o d d' ∧ take (S k) d' = take (S k) d ∧
    (drop_set t s = [] → d' = d) ∧
    let c := (k + (length s - length (drop_set t s)) + length (word t (drop_set t s)))%nat in
    (drop_set t s ≠ [] → take (S c) d' = take c d ++ [Some 0]).
Proof.
  induction fuel as [|fuel IH]; intros m d k s r saveptr x Ho Hk Hs Hcut Hf; [lia|]. cbn [pred tokens].
  pose proof (next_token_ok m o d k s r t saveptr Ho Hk Hs Ht Hcut) as Hn. pose proof (word_pos t s) as Hwp.
  destruct (drop_set t s) as [|c0 rest'] eqn:Hrest.
  { rewrite (bind_ok _ _ _ _ _ Hn). exists d. rewrite (upd_id m o d Ho). split_and!; try done. by destruct o. }
  specialize (Hwp ltac:(done)). pose proof (drop_set_length t s) as Hrl. rewrite Hrest in Hrl. rewrite <- Hrest in *. set (rest := drop_set t s) in *.
  cbn zeta in Hn. set (i := (length s - length rest)%nat) in *. set (w := word t rest) in *.
  set (e := (k + S (i + length w) `min` length s)%nat) in *.
  destruct Hn as (d1&r1&Hrun&Hd1&He&Hl1&Ht1&Hcut1&Hfl1). rewrite (bind_ok _ _ _ _ _ Hrun). set (m1 := upd m o d1).
  assert (obj_data m1 o = Some d1) as Ho1 by (by eapply upd_same).
  destruct (word_split t rest) as (rest2&Hr1&Hr2). fold w in Hr1, Hr2.
  assert (chars rest) as Hcr. { destruct (drop_set_split t s) as (A&HA&_). fold rest in HA. rewrite HA in Hs. by apply chars_app in Hs as [_ ?]. }
  assert (chars w ∧ chars (after t rest)) as [Hcw Hca].
  { rewrite Hr1 in Hcr. apply chars_app in Hcr as [? Hcr]. split; [done|]. unfold after. apply Forall_drop. rewrite Hr1. by apply chars_app. }
  rewrite (text_run m1 o (k + i) d1 w r1 _ Ho1 Hd1 Hcw). assert (length w ≤ length rest)%nat as Hwl by (rewrite Hr1, length_app; lia).
  assert (length (after t rest) < fuel)%nat as Hfuel by (unfold after; rewrite length_drop; fold w; lia).
  destruct (IH m1 d1 e (after t rest) r (o, Z.of_nat e) None Ho1 He Hca Hcut1 Hfuel) as (d2&Hrun2&Hl2&Hfl2&Ht2&Hsame2&_).
  assert (tokenize malloc fuel None t (o, Z.of_nat e) m1 = Ok (tokens fuel t (after t rest), upd m1 o d2)) as Hrun3.
  { destruct fuel as [|fuel]; [lia|]. cbn [tokenize pred] in *. unfold t in *. cbn [xs_tok_r]. rewrite bind_assoc, (bind_ok _ _ _ _ _ (ret_run _ _)). exact Hrun2. }
  rewrite (bind_ok _ _ _ _ _ Hrun3). exists d2. unfold m1. rewrite upd_upd.
  assert (k + (i + length w) ≤ e)%nat as Hie by (unfold e, i; lia).
  split; [done|]. split; [congruence|]. split; [|split; [|split; [by intros H; rewrite H in Hrest|]]].
  - unfold flags_kept in *. destruct o; [congruence|done].
  - rewrite (take_eq_le (S k) (S e) d2 d1) by (lia || done). apply (take_eq_le _ (k + i + length w)); [lia|done].
  - intros _. rewrite (take_eq_le _ (S e) d2 d1) by (lia || done). rewrite (take_S_r d1 _ (Some 0)); [by rewrite Ht1|].
    rewrite <- (lookup_drop d1 (k + i)), Hd1. apply bytes_lookup_nul.
Qed.
End tokenizing.
(** An allocator. *)
Definition next_block (h : gmap Z RefCounted) : Z := 16 + foldr Z.max 0 (elements (dom h)).

Lemma foldr_max_ge (l : list Z) x : x ∈ l → x ≤ foldr Z.max 0 l.
Proof.
  induction l as [|y l IH]; intros Hx; [by apply not_elem_of_nil in Hx|]. cbn. apply elem_of_cons in Hx as [->|Hx]; [lia|].
  specialize (IH Hx). lia.
Qed.

Lemma foldr_max_nonneg (l : list Z) : 0 ≤ foldr Z.max 0 l.
Proof. induction l; cbn; lia. Qed.

Lemma next_block_fresh h : h !! next_block h = None.
Proof. apply not_elem_of_dom. intros H%elem_of_elements%foldr_max_ge. unfold next_block in H. lia. Qed.

Lemma next_block_not_null h : next_block h ≠ 0.
Proof. unfold next_block. pose proof (foldr_max_nonneg (elements (dom h))). lia. Qed.

Definition all_freed : gmap Z (list Z) := {[0 := []; 1 := []; 2 := []; 3 := []; 4 := []; 5 := []; 6 := []]}.

Lemma xs_refines_witness :
  ∃ m, run_calls next_block copy_on_write no_strings = Ok (tt, m) ∧
    (∀ x s, all_freed !! x = Some s → c_string x m = Ok (s, m) ∧ xs_size x m = Ok (Z.of_nat (length s), m)) ∧
    (∀ p b, blocks m !! p = Some b → refcnt b = users (vars m) p ∧ 0 < refcnt b) ∧
    ((∀ x s, all_freed !! x = Some s → s = []) → blocks m = ∅).
Proof.
  apply (xs_refines next_block copy_on_write all_freed).
  - apply next_block_fresh.
  - apply next_block_not_null.
  - by vm_compute.
Defined.

(** Two strings that share a block until one of them is trimmed. *)
Lemma xs_well_typed_witness :
  ∃ m, run_calls next_block [Decl 0; New 0 digits; Decl 1; Copy 0 1; Trim 1 [48]] no_strings = Ok (tt, m) ∧
    dom (vars m) = dom ({[0 := digits; 1 := drop 1 digits]} : gmap Z (list Z)) ∧ ∀ x v, vars m !! x = Some v → well_typed (blocks m) v.
Proof.
  apply (xs_well_typed next_block _ {[0 := digits; 1 := drop 1 digits]} next_block_fresh next_block_not_null). by vm_compute.
Defined.

(** ** Tokens of a string that may be shared *)

Lemma tokenize_ok malloc m σ x s t saveptr : (∀ h, h !! malloc h = None) → (∀ h, malloc h ≠ 0) →
  inv m σ → σ !! x = Some s → chars t → t ≠ [] →
  ∃ m' n, tokenize malloc (S (length s)) (Some x) t saveptr m = Ok (tokens (S (length s)) t s, m') ∧
    c_string x m' = Ok (first_cut t s, m') ∧
    (∀ y u, y ≠ x → σ !! y = Some u → c_string y m' = Ok (u, m')) ∧
    refcount_get x m = Ok (n, m) ∧ xs_size x m' = Ok (if 1 <? n then 0 else Z.of_nat (length s), m') ∧
    ∃ m'', xs_free x m' = Ok (tt, m'') ∧ vars m'' = <[x := xs_literal_empty]> (vars m) ∧ inv m'' (<[x := []]> σ).
Proof.
  intros Hfresh Hnull Hi Hx Ht Hne. destruct t as [|t0 t']; [done|]. set (t := t0 :: t') in *. pose proof (tmps_ne _ _ _ _ Hi Hx) as Hxt.
  destruct (inv_var _ _ Hi x s Hx) as (v&Hv&Hc&Hz&[Hch _]&_).
  destruct (xs_cow_ok malloc Hfresh Hnull m σ x s v Hi Hxt Hx Hv) as (m1&v1&Hrun&Hvars&Hwf&Hc1&Hcap1&Hstack&Hu&Hsame&n&Hn&Hn1&Hn2).
  assert (vars m1 !! x = Some v1) as Hv1 by (by rewrite Hvars, lookup_insert_eq).
  destruct (content_data m1 x v1 s Hv1 Hc1) as (d&r&Hd&Hdr).
  destruct (cow_stack m1 x v v1 (blocks m) s d r Hv1 Hd Hdr Hc Hz Hcap1 Hstack) as [Hst Hcut].
  destruct (words_ok malloc (home x v1) t0 t' Ht (S (length s)) m1 d 0 s r saveptr None Hd) as (d'&Hrun'&Hl'&Hfl&_&Hkeep&Hcutd);
    [by rewrite drop_0|done|done|lia|]. fold t in Hrun', Hkeep, Hcutd.
  set (m' := upd m1 (home x v1) d') in *.
  set (v' := match v1 with Stack _ => Stack d' | Heap _ _ _ => v1 end).
  assert (vars m' = <[x := v']> (vars m)) as Hvars'.
  { unfold m', v'. destruct v1; cbn; by rewrite Hvars, ?insert_insert_eq. }
  assert (vars m' !! x = Some v') as Hv' by (by rewrite Hvars', lookup_insert_eq).
  assert (∀ y w p, y ≠ x → vars m !! y = Some w → vptr w = Some p → same_data m m' p) as Hothers.
  { intros y w p Hy Hw Hp. apply (same_data_trans m m1).
    - apply Hsame. destruct (inv_wf _ _ Hi) as [_ Hdg]. by eapply Hdg.
    - apply (upd_frame m1 x v1 d' y w p Hwf Hv1 Hu Hy); [by rewrite Hvars, lookup_insert_ne|done]. }
  exists m', n. split; [|split; [|split; [|split; [done|split]]]].
  - unfold tokenize at 1. fold (tokenize malloc). unfold t. cbn [xs_tok_r]. rewrite bind_assoc, bind_assoc, (bind_ok _ _ _ _ _ Hrun), (xs_data_run _ _ _ _ Hv1).
    exact Hrun'.
  - assert (home x v' = home x v1) as Hh by (unfold v'; by destruct v1).
    assert (chars (first_cut t s)) as Hcf.
    { unfold first_cut. destruct (drop_set t s); [done|]. by apply Forall_take. }
    assert (∃ r', d' = bytes (first_cut t s) ++ r') as [r' Hd'].
    { unfold first_cut. destruct (drop_set t s) as [|c0 rest] eqn:Hrest; [exists r; rewrite <- Hdr; by apply Hkeep|].
      rewrite <- Hrest in *. specialize (Hcutd ltac:(rewrite Hrest; done)). set (c := (_ + _)%nat) in Hcutd.
      exists (drop (S c) d'). rewrite <- (take_drop (S c) d') at 1. rewrite Hcutd. f_equal. unfold bytes. f_equal.
      assert (c ≤ length s)%nat as Hcs.
      { pose proof (drop_set_length t s). pose proof (word_length t (drop_set t s)). unfold c. lia. }
      rewrite Hdr, take_app_le by (rewrite length_bytes; lia). unfold bytes. rewrite take_app_le by (by rewrite length_fmap).
      by rewrite <- fmap_take. }
    apply (c_string_run m' x v' _ r'); [done| |done]. rewrite Hh, <- Hd'. by eapply upd_same.
  - intros y u Hy Hyu. destruct (inv_var _ _ Hi y u Hyu) as (w&Hw&Hcw&_&[Hchu _]&_).
    assert (content (blocks m') w u) as Hcw'.
    { eapply content_frame; [|exact Hcw]. intros p Hp. by eapply Hothers. }
    assert (vars m' !! y = Some w) as Hw' by (by rewrite Hvars', lookup_insert_ne).
    destruct (content_data m' y w u Hw' Hcw') as (d2&r2&Hd2&->). by apply (c_string_run m' y w u r2).
  - unfold xs_size. destruct (Z.ltb_spec 1 n) as [H1|H1].
    + destruct (Hn2 H1) as (q&c&->). by rewrite (get_var_run m' x (Heap q 0 c)).
    + specialize (Hn1 H1). subst v1. destruct v as [d0|p sz c].
      * destruct (Hst eq_refl) as [[= ->] _]. rewrite (get_var_run m' x (Stack d')) by (unfold m'; cbn; by rewrite lookup_insert_eq).
        unfold ret. do 2 f_equal. destruct Hc as [Hl16 _]. cbn in Hz, Hfl. unfold space_left. rewrite Hfl. fold (space_left d).
        destruct (sized_stack d s r Hl16 Hdr Hz) as [_ ->]. lia.
      * rewrite (get_var_run m' x (Heap p sz c)) by done. cbn in Hz. by rewrite Hz.
  - assert (wf m') as Hwf' by (apply wf_upd; [done|by eexists]).
    eexists. split; [by apply xs_free_run|]. cbn [vars]. split; [by rewrite Hvars', insert_insert_eq|].
    eapply inv_set; [exact Hi|done|cbn [vars]; by rewrite Hvars', insert_insert_eq|apply empty_ok|by apply wf_free|].
    intros y w p Hy Hw Hp. apply (same_data_trans m m'); [by eapply Hothers|].
    apply (released_shared m' x y v' w p); [done..| |done]. by rewrite Hvars', lookup_insert_ne.
Qed.

(** Tokenizing.  After any admitted calls, calling [xs_tok_r] with a string
    and then with NULL until it returns NULL yields exactly the words between
    characters of [delim] and stops.  The other variables keep their strings,
    even those that shared the block.  The string itself ends behind its first
    word as C sees it, but [xs_size] does not follow: it is the old length for a
    string that was not shared, and 0 for one that was. *)
Theorem xs_tokens (malloc : gmap Z RefCounted → Z) (cs : list call) (σ : gmap Z (list Z)) (x : Z) (s delim : list Z) (saveptr : cptr) :
  (∀ h, h !! malloc h = None) → (∀ h, malloc h ≠ 0) → calls_spec cs ∅ = Some σ →
  σ !! x = Some s → chars delim → delim ≠ [] →
  ∃ m m' n, run_calls malloc cs no_strings = Ok (tt, m) ∧
    tokenize malloc (S (length s)) (Some x) delim saveptr m = Ok (tokens (S (length s)) delim s, m') ∧
    c_string x m' = Ok (first_cut delim s, m') ∧
    (∀ y u, y ≠ x → σ !! y = Some u → c_string y m' = Ok (u, m')) ∧
    refcount_get x m = Ok (n, m) ∧ xs_size x m' = Ok (if 1 <? n then 0 else Z.of_nat (length s), m').
Proof.
  intros Hfresh Hnull Hc Hx Ht Hne. destruct (calls_ok malloc Hfresh Hnull cs no_strings ∅ σ inv_no_strings Hc) as (m&Hrun&Hi).
  destruct (tokenize_ok malloc m σ x s delim saveptr Hfresh Hnull Hi Hx Ht Hne) as (m'&n&H1&H2&H3&H4&H5&_). by exists m, m', n.
Qed.

(** "   ; aaa ; ; bbb; ccc" of the unit test, with a copy. *)
Definition token_string : list Z := [32; 32; 32; 59; 32; 97; 97; 97; 32; 59; 32; 59; 32; 98; 98; 98; 59; 32; 99; 99; 99].
Definition token_calls : list call := [Decl 0; Decl 1; New 0 token_string; Copy 0 1].

Lemma xs_tokens_witness :
  tokens 22 [32; 59] token_string = [[97; 97; 97]; [98; 98; 98]; [99; 99; 99]] ∧
  first_cut [32; 59] token_string = [32; 32; 32; 59; 32; 97; 97; 97] ∧
  ∃ m m' n, run_calls next_block token_calls no_strings = Ok (tt, m) ∧
    tokenize next_block 22 (Some 0) [32; 59] (InVar 0, 0) m = Ok (tokens 22 [32; 59] token_string, m') ∧
    c_string 0 m' = Ok (first_cut [32; 59] token_string, m') ∧
    (∀ y u, y ≠ 0 → ({[0 := token_string; 1 := token_string]} : gmap Z (list Z)) !! y = Some u → c_string y m' = Ok (u, m')) ∧
    refcount_get 0 m = Ok (n, m) ∧ xs_size 0 m' = Ok (if 1 <? n then 0 else 21, m').
Proof.
  split; [by vm_compute|]. split; [by vm_compute|].
  apply (xs_tokens next_block token_calls {[0 := token_string; 1 := token_string]} 0 token_string [32; 59] (InVar 0, 0)).
  - apply next_block_fresh.
  - apply next_block_not_null.
  - by vm_compute.
  - done.
  - by repeat constructor.
  - done.
Defined.

(** Uses that the library does not survive.  Trimming a string that consists
    of trimmed characters lets the size wrap around and moves 2^64 bytes;
    growing to 2^32 bytes is undefined and to 2^32 + 1 bytes copies behind the
    new block, as the length is cut to 32 bits; growing a string from the stack
    takes its size from the characters; a string that is its own suffix is
    overwritten before it is copied and ends without NUL. *)
Theorem xs_misuse (malloc : gmap Z RefCounted → Z) :
  (∀ h, malloc h ≠ 0) →
  run_calls malloc [Decl 0; New 0 [32; 32]; Trim 0 [32]] no_strings = Err Undefined ∧
  bind (xs_newempty 0) (λ _, xs_grow malloc 0 (2 ^ 32)) no_strings = Err Undefined ∧
  bind (xs_newempty 0) (λ _, xs_grow malloc 0 (2 ^ 32 + 1)) no_strings = Err Undefined ∧
  (∃ m, bind (xs_new malloc 0 [97; 98; 99; 100; 101; 102; 103; 104; 105; 106]) (λ _, bind (xs_grow malloc 0 16) (λ _, xs_size 0)) no_strings =
    Ok (27241, m)) ∧
  bind (run_calls malloc [Decl 0; Decl 1; New 0 [97; 98]; New 1 [99]; Concat 0 1 0]) (λ _, load (InVar 0)) no_strings =
    Ok ((Some <$> [99; 97; 98; 99; 97; 98; 0; 0; 0; 0; 0; 0; 0; 0; 0; 10]),
        mk_mem {[0 := Stack (Some <$> [99; 97; 98; 99; 97; 98; 0; 0; 0; 0; 0; 0; 0; 0; 0; 10]);
                 1 := Stack (Some <$> [99; 0; 0; 0; 0; 0; 0; 0; 0; 0; 0; 0; 0; 0; 0; 14])]} ∅).
Proof.
  intros Hnull. split; [by vm_compute|]. split; [by vm_compute|]. split; [|split; [|by vm_compute]].
  - set (m1 := mk_mem {[0 := xs_literal_empty]} ∅). change (xs_grow malloc 0 (2 ^ 32 + 1) m1 = Err Undefined).
    assert (vars m1 !! 0 = Some xs_literal_empty) as Hv by done. unfold xs_grow. rewrite (xs_capacity_run _ _ _ _ Hv).
    change (2 ^ 32 + 1 <=? cap xs_literal_empty) with false. cbn iota. change (ilog2 (2 ^ 32 + 1)) with (ret 0 : M mem Z).
    rewrite (bind_ok _ _ _ _ _ (ret_run _ _)), (get_var_run _ _ _ _ Hv). cbn beta iota delta [xs_literal_empty].
    rewrite (refcount_create_run malloc Hnull). set (m2 := mk_mem _ _).
    assert (obj_data m2 (InBlock (malloc (blocks m1))) = Some (replicate 9 None)) as Hq by (cbn; by rewrite lookup_insert_eq).
    unfold write. rewrite bind_assoc, (load_obj_run _ _ _ _ Hq). done.
  - set (d := Some <$> [97; 98; 99; 100; 101; 102; 103; 104; 105; 106; 0; 0; 0; 0; 0; 5]).
    set (m1 := mk_mem {[0 := Stack d]} ∅).
    assert (xs_new malloc 0 [97; 98; 99; 100; 101; 102; 103; 104; 105; 106] no_strings = Ok (tt, m1)) as Hnew by (by vm_compute).
    rewrite (bind_ok _ _ _ _ _ Hnew). assert (vars m1 !! 0 = Some (Stack d)) as Hv by done.
    unfold xs_grow. rewrite bind_assoc, (xs_capacity_run _ _ _ _ Hv). change (16 <=? cap (Stack d)) with false. cbn iota.
    change (ilog2 16) with (ret 4 : M mem Z). rewrite bind_assoc, (bind_ok _ _ _ _ _ (ret_run _ _)), bind_assoc, (get_var_run _ _ _ _ Hv), bind_assoc.
    rewrite (refcount_create_run malloc Hnull). set (m2 := mk_mem _ _).
    assert (obj_data m2 (InBlock (malloc (blocks m1))) = Some (replicate 39 None)) as Hq by (cbn; by rewrite lookup_insert_eq).
    pose proof (write_run m2 _ 0 (take 16 d) _ Hq ltac:(cbn; lia) I) as Hw. rewrite bind_assoc. change (Z.of_nat 0) with 0 in Hw.
    rewrite (bind_ok _ _ _ _ _ Hw). unfold set_var. rewrite (bind_ok _ _ _ _ _ (modify_run _ _)). set (m3 := mk_mem _ _).
    exists m3. unfold xs_size. rewrite (get_var_run m3 0 (Heap (malloc (blocks m1)) (size_bits d) (wrapu 6 (4 + 1)))) by (cbn; by rewrite lookup_insert_eq).
    done.
Qed.

Lemma xs_misuse_witness :
  bind (xs_newempty 0) (λ _, xs_grow next_block 0 (2 ^ 32)) no_strings = Err Undefined ∧
  (∃ m, bind (xs_new next_block 0 [97; 98; 99; 100; 101; 102; 103; 104; 105; 106]) (λ _, bind (xs_grow next_block 0 16) (λ _, xs_size 0)) no_strings =
    Ok (27241, m)).
Proof. split; apply (xs_misuse next_block next_block_not_null). Defined.
