(* ===== verification/XsTests.v ===== *)
(** * The test program of xstring

    The tests, the benchmarks and [main] of xs-unittest.c over the strings of
    XString, in the build with copy on write.  A test is a list of calls where it
    can be; a variable of a compound literal and an object of [arr_ptr] are variables
    as well.  The blocks that a test leaves behind stay after it has returned. *)
From S2P Require Import Prelude XString.
From Stdlib Require Import Ascii String.
From stdpp Require Import gmap list strings.
#[local] Open Scope Z_scope.
#[local] Open Scope c_scope.

(** The characters of a string literal; [nl] is the character [\n]. *)
Definition str (s : string) : list Z := (λ c, Z.of_N (N_of_ascii c)) <$> list_ascii_of_string s.
Definition nl : list Z := [10].

(** The pointer NULL, which points into no object. *)
Definition null : cptr := (InBlock 0, 0).

Section program.
Context (malloc : gmap Z RefCounted → Z).

(** ** The tests *)

(** The variables 0 to 4 are [string], [space], [empty], [prefix] and [suffix]. *)
Definition test_declarations : list call :=
  [Decl 0; New 0 (nl ++ str " foobarbar"); Decl 1; New 1 (nl ++ str " "); Decl 2; New 2 (str "");
   Decl 3; New 3 (str "((("); Decl 4; New 4 (str ")))")].
Definition spaces : list Z := nl ++ str " " ++ nl ++ str " " ++ nl ++ str " ".
Definition test_before_growing : list call :=
  [Expect 0 (nl ++ str " foobarbar"); Trim 0 (nl ++ str " "); Expect 0 (str "foobarbar");
   Concat 0 2 1; Concat 0 2 1; Concat 0 2 1; Expect 0 (str "foobarbar" ++ spaces);
   Trim 0 (nl ++ str " "); Expect 0 (str "foobarbar");
   Concat 0 3 4; Concat 0 2 1; Concat 0 2 1; Concat 0 2 1; Expect 0 (str "(((foobarbar)))" ++ spaces);
   Trim 0 (nl ++ str " "); Expect 0 (str "(((foobarbar)))");
   Concat 0 3 4; Expect 0 (str "((((((foobarbar))))))"); Trim 0 (str "()"); Expect 0 (str "foobarbar");
   Concat 0 3 4; Concat 0 3 4; Concat 0 3 4; Expect 0 (str "(((((((((foobarbar)))))))))");
   Concat 0 3 4; Expect 0 (str "((((((((((((foobarbar))))))))))))")].
(** The variable 5 is the compound literal that [copy] points to. *)
Definition test_after_growing : list call :=
  [Expect 0 (str "((((((((((((foobarbar))))))))))))"); Trim 0 (str "()"); Expect 0 (str "foobarbar");
   Decl 5; Copy 0 5; Expect 5 (str "foobarbar"); Free 5; Expect 0 (str "foobarbar");
   Free 0; Free 3; Free 4; Free 1; Free 2].

Definition test : M mem unit :=
  run_calls malloc test_declarations ;;
  run_calls malloc test_before_growing ;;
  c ← xs_capacity 0; xs_grow malloc 0 (c + 1) ;;
  run_calls malloc test_after_growing.

(** [check(tok, w)]; [strcmp] reads a string. *)
Definition check_tok (tok : option cptr) (w : list Z) : M mem unit :=
  match tok with
  | None => fail Undefined
  | Some p => s ← text p; massert (bool_decide (s = w))
  end.

(** The variables 0 to 3 are the compound literals, in their order. *)
Definition token : M mem unit :=
  let delim := str " ;" in
  run_calls malloc [Decl 0; New 0 (str "   ; aaa ; ; bbb; ccc"); Decl 1; Copy 0 1; Expect 1 (str "   ; aaa ; ; bbb; ccc")] ;;
  ' (tok, saveptr) ← xs_tok_r malloc (Some 0) delim null;
  check_tok tok (str "aaa") ;;
  ' (tok, saveptr) ← xs_tok_r malloc None delim saveptr;
  check_tok tok (str "bbb") ;;
  ' (tok, saveptr) ← xs_tok_r malloc None delim saveptr;
  check_tok tok (str "ccc") ;;
  ' (tok, saveptr) ← xs_tok_r malloc None delim saveptr;
  run_calls malloc [Expect 0 (str "   ; aaa"); Expect 1 (str "   ; aaa ; ; bbb; ccc"); Free 0; Free 1; Decl 2; New 2 (str "   ; ddd;")] ;;
  ' (tok, saveptr) ← xs_tok_r malloc (Some 2) delim saveptr;
  check_tok tok (str "ddd") ;;
  ' (tok, saveptr) ← xs_tok_r malloc None delim saveptr;
  run_calls malloc [Expect 2 (str "   ; ddd"); Decl 3; New 3 (str "   ; ;")] ;;
  ' (tok, saveptr) ← xs_tok_r malloc (Some 3) delim saveptr;
  run_calls malloc [Expect 3 (str "   ; ;"); Free 2; Free 3].

(** A function returns: its variables are gone, the blocks are not. *)
Definition scope (f : M mem unit) : M mem unit := f ;; modify (λ m, mk_mem ∅ (blocks m)).

Definition checker : M mem unit :=
  scope test ;;
  scope (run_calls malloc copy_on_write) ;;
  scope token.

(** ** The benchmarks *)

Definition XS_ARRAY_SIZE : nat := Z.to_nat 5000.
Definition MAX_STRING_ORDER : nat := 12.
Definition MAX_STRING_SIZE : nat := Z.to_nat (Z.shiftl 1 (Z.of_nat MAX_STRING_ORDER)).

(** The [size] characters of [str], the last of which is the NUL. *)
Definition letters (size : nat) : list Z := (λ i, 97 + Z.of_nat i mod 26) <$> seq 0 (size - 1).

(** The variables 1 to [XS_ARRAY_SIZE] are the objects of [arr_ptr], and 0 that of [x]. *)
Definition arr_ptr : list Z := (λ i, Z.of_nat i + 1) <$> seq 0 XS_ARRAY_SIZE.
Definition cow_benchmark (run size : nat) : M mem unit :=
  massert (bool_decide (0 < run)%nat && bool_decide (0 < size)%nat) ;;
  run_calls malloc [Decl 0; New 0 (letters size)] ;;
  run_calls malloc (Decl <$> arr_ptr) ;;
  run_calls malloc (Copy 0 <$> arr_ptr) ;;
  run_calls malloc (mjoin (replicate run ((λ i, Expect i (letters size)) <$> arr_ptr))) ;;
  run_calls malloc (Free <$> arr_ptr) ;;
  run_calls malloc [Free 0].

Definition locality : M mem unit := scope (cow_benchmark 1000 MAX_STRING_SIZE).

(** The loops of [benchmark], without its measurements. *)
Fixpoint repeat_m (n : nat) (f : nat → M mem unit) : M mem unit :=
  match n with
  | O => ret tt
  | S n => repeat_m n f ;; f n
  end.
Definition benchmark : M mem unit :=
  repeat_m 1000 (λ _, repeat_m MAX_STRING_ORDER (λ j, scope (cow_benchmark 1 (Z.to_nat (Z.shiftl 1 (Z.of_nat j + 1)))))).

(** The result is the exit status. *)
Definition main (argv : list string) : M mem Z :=
  match argv with
  | [] => fail Undefined
  | [_] => ret 1
  | _ :: option :: _ =>
      (if String.eqb option "check" then checker
       else if String.eqb option "locality" then locality
       else if String.eqb option "benchmark" then benchmark
       else ret tt) ;;
      ret 0
  end.
End program.

(** ** Sequences of calls *)

Lemma calls_spec_app cs1 cs2 σ :
  calls_spec (cs1 ++ cs2) σ = match calls_spec cs1 σ with Some σ1 => calls_spec cs2 σ1 | None => None end.
Proof. revert σ. induction cs1 as [|c cs1 IH]; intros σ; [done|]. cbn. destruct (call_spec c σ); [apply IH|done]. Qed.

(** The strings that calls give to their targets leave capacities of at most [B]. *)
Fixpoint short_strings (B : Z) (cs : list call) (σ : gmap Z (list Z)) : bool :=
  match cs with
  | [] => true
  | c :: cs =>
      match call_spec c σ with
      | Some σ' =>
          match target c with Some x => 2 * Z.of_nat (List.length (σ' !!! x)) + 15 <=? B | None => true end && short_strings B cs σ'
      | None => true
      end
  end.

Definition caps_within (B : Z) (m : mem) : Prop := ∀ y v, vars m !! y = Some v → cap v ≤ B.
Definition others_kept (x : Z) (m m' : mem) : Prop := ∀ y, y ≠ x → vars m' !! y = vars m !! y.

Section runs.
Context (malloc : gmap Z RefCounted → Z)
  (malloc_fresh : ∀ h, h !! malloc h = None) (malloc_not_null : ∀ h, malloc h ≠ 0).

Lemma calls_run cs m σ σ' : inv m σ → calls_spec cs σ = Some σ' → ∃ m', run_calls malloc cs m = Ok (tt, m') ∧ inv m' σ'.
Proof using malloc_fresh malloc_not_null. by apply calls_ok. Qed.

(** Calls with one target change no other variable, and bound the capacities. *)
Lemma calls_within B x cs : ∀ m σ σ', inv m σ → calls_spec cs σ = Some σ' → short_strings B cs σ = true →
  Forall (λ c, target c = Some x ∨ target c = None) cs → caps_within B m →
  ∃ m', run_calls malloc cs m = Ok (tt, m') ∧ inv m' σ' ∧ caps_within B m' ∧ others_kept x m m'.
Proof using malloc_fresh malloc_not_null.
  induction cs as [|c cs IH]; intros m σ σ' Hi Hs Hb Hx Hcap; cbn in *.
  { injection Hs as <-. by exists m. }
  destruct (call_spec c σ) as [σ1|] eqn:Hc; [|done]. apply andb_prop in Hb as [Hb1 Hb2]. inversion_clear Hx as [|? ? Hc1 Hx'].
  destruct (exec_call_stepped malloc malloc_fresh malloc_not_null m σ σ1 c Hi Hc) as (m1&Hrun&Ht).
  assert (inv m1 σ1 ∧ caps_within B m1 ∧ others_kept x m m1) as (Hi1&Hcap1&Hk1).
  { destruct (target c) as [y|]; [|by destruct Ht as [-> ->]]. destruct Hc1 as [[= ->]|]; [|done].
    destruct Ht as (s&->&Hi1&v&Hv&Hbd). split; [done|]. split.
    - intros y w Hy. rewrite Hv in Hy. apply lookup_insert_Some in Hy as [[<- <-]|[_ Hy]]; [|by eapply Hcap].
      rewrite lookup_total_insert_eq in Hb1. apply Z.leb_le in Hb1.
      destruct Hbd as [|(z&w&Hz&?)]; [lia|]. specialize (Hcap z w Hz). lia.
    - intros y Hy. by rewrite Hv, lookup_insert_ne. }
  rewrite (bind_ok _ _ _ _ _ Hrun). destruct (IH m1 σ1 σ' Hi1 Hs Hb2 Hx' Hcap1) as (m2&Hrun2&Hi2&Hcap2&Hk2).
  exists m2. split; [done|]. split; [done|]. split; [done|]. intros y Hy. by rewrite Hk2, Hk1.
Qed.

(** ** [test] *)

Definition short_vars : gmap Z (list Z) := {[1 := nl ++ str " "; 2 := []; 3 := str "((("; 4 := str ")))"]}.
Definition long_string : list Z := str "((((((((((((foobarbar))))))))))))".

(** In front of [xs_grow] the string is in a block that nobody shares. *)
Lemma before_growing :
  ∃ m p sz c, (run_calls malloc test_declarations ;; run_calls malloc test_before_growing) no_strings = Ok (tt, m) ∧
    inv m (<[0 := long_string]> short_vars) ∧ vars m !! 0 = Some (Heap p sz c) ∧ users (vars m) p = 1 ∧ 0 < 2 ^ c - 1 ≤ 127.
Proof using malloc_fresh malloc_not_null.
  destruct (calls_run test_declarations no_strings ∅ (<[0 := nl ++ str " foobarbar"]> short_vars)) as (m1&Hrun1&Hi1);
    [apply inv_no_strings|by vm_compute|].
  assert (blocks m1 = ∅) as Hb1.
  { assert (match run_calls malloc test_declarations no_strings with Ok (_, m) => blocks m | Err _ => ∅ end = ∅) as H by (by vm_compute).
    by rewrite Hrun1 in H. }
  assert (∀ y v, vars m1 !! y = Some v → vptr v = None) as Hst.
  { intros y v Hy. destruct (vptr v) as [p|] eqn:Hp; [|done]. destruct (inv_wf _ _ Hi1) as [_ Hd].
    destruct (Hd y v p Hy Hp) as [b Hb]. by rewrite Hb1 in Hb. }
  destruct (calls_within 127 0 test_before_growing m1 _ (<[0 := long_string]> short_vars) Hi1) as (m&Hrun&Hi&Hcap&Hk).
  { by vm_compute. }
  { by vm_compute. }
  { apply (bool_decide_unpack _). by vm_compute. }
  { intros y v Hy. specialize (Hst y v Hy). by destruct v. }
  destruct (inv_var _ _ Hi 0 long_string) as (v&Hv&Hc&_); [done|]. destruct v as [d|p sz c].
  { destruct Hc as (Hl&r&->). apply (f_equal Z.of_nat) in Hl. rewrite length_app, length_bytes in Hl.
    change (List.length long_string) with 33%nat in Hl. lia. }
  exists m, p, sz, c. rewrite (bind_ok _ _ _ _ _ Hrun1). split_and!; try done.
  - rewrite (users_delete _ _ _ _ Hv). unfold points. cbn [vptr]. rewrite decide_True by done.
    rewrite users_zero; [done|]. intros y w [Hy Hw]%lookup_delete_Some. rewrite Hk in Hw by done.
    by rewrite (Hst y w Hw).
  - destruct Hc as [Hc _]. assert (2 ^ 5 ≤ 2 ^ c) by (apply Z.pow_le_mono_r; lia). lia.
  - apply (Hcap 0 _ Hv).
Qed.

Lemma test_ok : ∃ m, test malloc no_strings = Ok (tt, m) ∧ blocks m = ∅.
Proof using malloc_fresh malloc_not_null.
  destruct before_growing as (m&p&sz&c&Hrun&Hi&Hv&Hu&Hc). unfold test.
  apply bind_inv in Hrun as (u&m0&H0&Hrun). rewrite (bind_ok _ _ _ _ _ H0), (bind_ok _ _ _ _ _ Hrun), (xs_capacity_run _ _ _ _ Hv).
  cbn [cap]. destruct (grow_ok malloc malloc_fresh malloc_not_null m _ 0 long_string p sz c (2 ^ c - 1 + 1) Hi) as (m1&Hg&Hi1); [done..|lia|].
  rewrite (bind_ok _ _ _ _ _ Hg).
  destruct (calls_run test_after_growing m1 _ {[0 := []; 1 := []; 2 := []; 3 := []; 4 := []; 5 := []]} Hi1) as (m2&Hrun2&Hi2); [by vm_compute|].
  exists m2. split; [done|]. apply (inv_no_leak _ _ Hi2). apply map_Forall_to_list. repeat constructor.
Qed.

(** ** [token] *)

(** The calls of [tokenize] with a check of each token. *)
Fixpoint expect_tokens (x : option Z) (delim : list Z) (ws : list (list Z)) (saveptr : cptr) : M mem (option cptr * cptr) :=
  ' (tok, saveptr) ← xs_tok_r malloc x delim saveptr;
  match ws with
  | [] => ret (tok, saveptr)
  | w :: ws => check_tok tok w ;; expect_tokens None delim ws saveptr
  end.

Lemma expect_tokens_ok fuel : ∀ x delim ws saveptr m m', tokenize malloc fuel x delim saveptr m = Ok (ws, m') →
  ∃ sp, expect_tokens x delim ws saveptr m = Ok ((None, sp), m').
Proof using.
  induction fuel as [|fuel IH]; intros x delim ws saveptr m m' Hrun; [done|]. cbn [tokenize] in Hrun.
  apply bind_inv in Hrun as ([tok sp]&m1&H1&Hrun). destruct tok as [p|].
  - apply bind_inv in Hrun as (w&m2&H2&Hrun). apply bind_inv in Hrun as (ws'&m3&H3&Hrun). injection Hrun as <- <-.
    destruct (IH _ _ _ _ _ _ H3) as [sp' H4]. exists sp'. cbn [expect_tokens]. rewrite (bind_ok _ _ _ _ _ H1).
    unfold check_tok. rewrite bind_assoc, (bind_ok _ _ _ _ _ H2). rewrite bool_decide_true by done. exact H4.
  - injection Hrun as <- <-. exists sp. cbn [expect_tokens]. by rewrite (bind_ok _ _ _ _ _ H1).
Qed.

(** The first string and its copy, up to the calls that free them. *)
Lemma token_shared : ∃ m m' sp,
  run_calls malloc [Decl 0; New 0 (str "   ; aaa ; ; bbb; ccc"); Decl 1; Copy 0 1; Expect 1 (str "   ; aaa ; ; bbb; ccc")] no_strings = Ok (tt, m) ∧
  expect_tokens (Some 0) (str " ;") [str "aaa"; str "bbb"; str "ccc"] null m = Ok ((None, sp), m') ∧
  run_calls malloc [Expect 0 (str "   ; aaa"); Expect 1 (str "   ; aaa ; ; bbb; ccc"); Free 0; Free 1] m' =
    Ok (tt, mk_mem {[0 := xs_literal_empty; 1 := xs_literal_empty]} ∅).
Proof using malloc_fresh malloc_not_null.
  set (s := str "   ; aaa ; ; bbb; ccc").
  destruct (calls_run [Decl 0; New 0 s; Decl 1; Copy 0 1; Expect 1 s] no_strings ∅ {[0 := s; 1 := s]} inv_no_strings) as (m&Hrun&Hi); [by vm_compute|].
  destruct (tokenize_ok malloc m _ 0 s (str " ;") null malloc_fresh malloc_not_null Hi) as (m'&n&Htok&Hx&Hy&_&_&m1&Hfree&Hv1&Hi1);
    [done|by repeat constructor|done|].
  destruct (expect_tokens_ok _ _ _ _ _ _ _ Htok) as [sp Hexp].
  exists m, m', sp. split; [exact Hrun|]. split; [exact Hexp|].
  destruct (inv_var _ _ Hi1 1 s) as (v&Hv&_); [done|].
  destruct (xs_free_ok m1 _ 1 s Hi1) as (m2&Hfree2&Hi2&_); [done|].
  pose proof (xs_free_run m1 1 v (inv_wf _ _ Hi1) Hv) as Hm2. rewrite Hfree2 in Hm2. injection Hm2 as Hm2.
  assert (blocks m2 = ∅) as Hb2 by (apply (inv_no_leak _ _ Hi2), map_Forall_to_list; repeat constructor).
  assert (vars m2 = {[0 := xs_literal_empty; 1 := xs_literal_empty]}) as Hv2.
  { rewrite Hm2. cbn [vars]. rewrite Hv1. apply map_eq. intros y. destruct (decide (y = 1)) as [->|H1]; [by rewrite lookup_insert_eq|].
    destruct (decide (y = 0)) as [->|H0]; [by rewrite lookup_insert_ne, lookup_insert_eq by done|].
    rewrite !lookup_insert_ne by done. rewrite lookup_singleton_ne by done.
    destruct (vars m !! y) as [w|] eqn:Hw; [|done]. destruct (inv_dom _ _ Hi y w Hw) as [t Ht].
    by rewrite lookup_insert_ne, lookup_singleton_ne in Ht. }
  specialize (Hy 1 s ltac:(done) ltac:(done)). change (first_cut (str " ;") s) with (str "   ; aaa") in Hx.
  cbn [run_calls exec_call]. rewrite bind_assoc, (bind_ok _ _ _ _ _ Hx), bool_decide_true by done.
  change (massert true) with (ret tt : M mem unit). rewrite (bind_ok _ _ _ _ _ (ret_run _ _)).
  rewrite bind_assoc, (bind_ok _ _ _ _ _ Hy), bool_decide_true by done.
  change (massert true) with (ret tt : M mem unit). rewrite (bind_ok _ _ _ _ _ (ret_run _ _)).
  rewrite (bind_ok _ _ _ _ _ Hfree), (bind_ok _ _ _ _ _ Hfree2). destruct m2 as [vs bl]. cbn in Hv2, Hb2. by subst.
Qed.

Lemma run_calls_app cs1 cs2 m : run_calls malloc (cs1 ++ cs2) m = bind (run_calls malloc cs1) (λ _, run_calls malloc cs2) m.
Proof using.
  revert m. induction cs1 as [|c cs1 IH]; intros m; [done|]. cbn [run_calls app]. rewrite bind_assoc.
  destruct (exec_call malloc c m) as [[[] m1]|e] eqn:He.
  - rewrite !(bind_ok _ _ _ _ _ He). apply IH.
  - by rewrite !(bind_err _ _ _ _ He).
Qed.

Lemma bind_prefix {A} cs1 cs2 (k : unit → M mem A) m m' : run_calls malloc cs1 m = Ok (tt, m') →
  bind (run_calls malloc (cs1 ++ cs2)) k m = bind (run_calls malloc cs2) k m'.
Proof using.
  intros H. unfold bind at 1. rewrite run_calls_app, (bind_ok _ _ _ _ _ H). reflexivity.
Qed.

Lemma token_ok : ∃ m, token malloc no_strings = Ok (tt, m) ∧ blocks m = ∅.
Proof using malloc_fresh malloc_not_null.
  destruct token_shared as (m&m'&sp&H1&H2&H3). unfold token. rewrite (bind_ok _ _ _ _ _ H1).
  cbn [expect_tokens] in H2.
  apply bind_inv in H2 as ([tok1 sp1]&n1&T1&H2). apply bind_inv in H2 as ([]&n2&C1&H2). rewrite (bind_ok _ _ _ _ _ T1), (bind_ok _ _ _ _ _ C1).
  apply bind_inv in H2 as ([tok2 sp2]&n3&T2&H2). apply bind_inv in H2 as ([]&n4&C2&H2). rewrite (bind_ok _ _ _ _ _ T2), (bind_ok _ _ _ _ _ C2).
  apply bind_inv in H2 as ([tok3 sp3]&n5&T3&H2). apply bind_inv in H2 as ([]&n6&C3&H2). rewrite (bind_ok _ _ _ _ _ T3), (bind_ok _ _ _ _ _ C3).
  apply bind_inv in H2 as ([tok4 sp4]&n7&T4&H2). injection H2 as -> -> ->. rewrite (bind_ok _ _ _ _ _ T4).
  match goal with |- context [bind (run_calls malloc ?l) ?k m'] =>
    rewrite (bind_prefix (take 4 l) (drop 4 l) k _ _ H3 : bind (run_calls malloc l) k m' = _) end.
  clear. match goal with |- context [?c = Ok (tt, _)] => set (r := c) end. vm_compute in r. subst r. by eexists.
Qed.

(** ** [cow_benchmark] *)

(** Calls that give the string [w] to one variable after the other. *)
Definition sets (ids : list Z) (w : list Z) (σ : gmap Z (list Z)) : gmap Z (list Z) := foldl (λ σ i, <[i := w]> σ) σ ids.

Lemma lookup_sets ids w : ∀ σ j, sets ids w σ !! j = if decide (j ∈ ids) then Some w else σ !! j.
Proof using.
  induction ids as [|i ids IH]; intros σ j; cbn [sets foldl].
  - by rewrite decide_False by apply not_elem_of_nil.
  - unfold sets in IH. rewrite IH. destruct (decide (j ∈ ids)) as [Hj|Hj]; [by rewrite decide_True by (by right)|].
    destruct (decide (j = i)) as [->|Hne]; [by rewrite lookup_insert_eq, decide_True by (by left)|].
    rewrite lookup_insert_ne by done. rewrite decide_False; [done|]. by intros [->|?]%elem_of_cons.
Qed.

Lemma size_sets ids w : ∀ σ, (size (sets ids w σ) ≤ List.length ids + size σ)%nat.
Proof using.
  induction ids as [|i ids IH]; intros σ; cbn [sets foldl List.length]; [done|]. etrans; [apply IH|].
  rewrite map_size_insert. destruct (σ !! i); cbn; lia.
Qed.

Lemma calls_spec_each (f : Z → call) w (Q : Z → gmap Z (list Z) → Prop) ids :
  (∀ i σ, Q i σ → call_spec (f i) σ = Some (<[i := w]> σ)) →
  (∀ i j σ, i ≠ j → Q i σ → Q j σ → Q i (<[j := w]> σ)) →
  NoDup ids → ∀ σ, (∀ i, i ∈ ids → Q i σ) → calls_spec (f <$> ids) σ = Some (sets ids w σ).
Proof using.
  intros Hf Hq. induction 1 as [|i ids Hi _ IH]; intros σ Hall; [done|]. cbn.
  rewrite (Hf i σ) by (apply Hall; by left). apply IH. intros j Hj.
  apply Hq; [by intros ->|apply Hall; by right|apply Hall; by left].
Qed.

Lemma expects_spec n s ids σ : (∀ i, i ∈ ids → σ !! i = Some s) →
  calls_spec (mjoin (replicate n ((λ i, Expect i s) <$> ids))) σ = Some σ.
Proof using.
  intros Hall. induction n as [|n IH]; [done|]. cbn [replicate mjoin list_join]. rewrite calls_spec_app.
  assert (calls_spec ((λ i, Expect i s) <$> ids) σ = Some σ) as ->; [|exact IH].
  clear IH. induction ids as [|i ids IHi]; [done|]. cbn. rewrite bool_decide_true by (apply Hall; by left).
  apply IHi. intros j Hj. apply Hall. by right.
Qed.

#[local] Opaque XS_ARRAY_SIZE.
Lemma array_size : Z.of_nat XS_ARRAY_SIZE = 5000.
Proof using. exact (Z2Nat.id 5000 ltac:(done)). Qed.

Lemma arr_ptr_spec : NoDup arr_ptr ∧ List.length arr_ptr = XS_ARRAY_SIZE ∧ ∀ i, i ∈ arr_ptr → 0 < i.
Proof using.
  unfold arr_ptr. split; [|split].
  - apply NoDup_fmap_2_strong; [intros; lia|apply NoDup_seq].
  - by rewrite length_fmap, length_seq.
  - intros i (j&->&_)%list_elem_of_fmap. lia.
Qed.

Lemma letters_ok n : chars (letters n) ∧ List.length (letters n) = (n - 1)%nat.
Proof using.
  unfold letters. split; [|by rewrite length_fmap, length_seq]. apply Forall_fmap, Forall_forall. intros i _.
  cbn. pose proof (Z.mod_pos_bound (Z.of_nat i) 26 ltac:(lia)). lia.
Qed.

Lemma cow_benchmark_ok run n : (0 < run)%nat → (0 < n)%nat → Z.of_nat n < 2 ^ 32 →
  ∃ m, cow_benchmark malloc run n no_strings = Ok (tt, m) ∧ blocks m = ∅.
Proof using malloc_fresh malloc_not_null.
  intros Hrun Hsize Hlim. unfold cow_benchmark. rewrite !bool_decide_true by done.
  change (massert (true && true)) with (ret tt : M mem unit). rewrite (bind_ok _ _ _ _ _ (ret_run _ _)).
  destruct arr_ptr_spec as (Hnd&Hlen&Hpos), (letters_ok n) as [Hch Hll]. set (s := letters n) in *.
  set (σ0 := <[0 := s]> (<[0 := []]> ∅) : gmap Z (list Z)).
  destruct (calls_run [Decl 0; New 0 s] no_strings ∅ σ0 inv_no_strings) as (m1&H1&Hi1).
  { cbn. rewrite bool_decide_true, lookup_insert_eq by done. rewrite bool_decide_true; [done|]. split; [done|]. split; [done|lia]. }
  rewrite (bind_ok _ _ _ _ _ H1).
  destruct (calls_run (Decl <$> arr_ptr) m1 σ0 (sets arr_ptr [] σ0) Hi1) as (m2&H2&Hi2).
  { apply (calls_spec_each Decl [] (λ i σ, σ !! i = None ∧ i ≠ TMPS)); [| |done|].
    - intros i σ HQ. cbn. by rewrite bool_decide_true.
    - intros i j σ Hij [? ?] _. by rewrite lookup_insert_ne.
    - intros i Hi%Hpos. unfold σ0, TMPS. rewrite !lookup_insert_ne by lia. split; [done|lia]. }
  rewrite (bind_ok _ _ _ _ _ H2). set (σ1 := sets arr_ptr [] σ0) in *.
  destruct (calls_run (Copy 0 <$> arr_ptr) m2 σ1 (sets arr_ptr s σ1) Hi2) as (m3&H3&Hi3).
  { apply (calls_spec_each (Copy 0) s (λ i σ, i ≠ 0 ∧ σ !! 0 = Some s ∧ σ !! i = Some [] ∧ Z.of_nat (size σ) ≤ 5001)); [| |done|].
    - intros i σ (Hi&H0&HQ&Hsz). cbn. rewrite H0. cbn. rewrite bool_decide_true; [done|]. split; [done|]. lia.
    - intros i j σ Hij (Hi&H0&HQ&Hsz) (Hj&_&HQj&_). split; [done|]. rewrite !lookup_insert_ne by done. split; [done|]. split; [done|]. by rewrite map_size_insert_Some by (by eexists).
    - intros i Hi. pose proof (Hpos i Hi). split; [lia|]. unfold σ1. rewrite !lookup_sets.
      rewrite decide_False by (intros H0%Hpos; lia). rewrite decide_True by done. split; [done|]. split; [done|].
      pose proof (size_sets arr_ptr [] σ0) as Hsz.
      pose proof array_size. change (size σ0) with 1%nat in Hsz. lia. }
  rewrite (bind_ok _ _ _ _ _ H3). set (σ2 := sets arr_ptr s σ1) in *.
  destruct (calls_run _ m3 σ2 σ2 Hi3 (expects_spec run s arr_ptr σ2 ltac:(intros i Hi; unfold σ2; by rewrite lookup_sets, decide_True))) as (m4&H4&Hi4).
  rewrite (bind_ok _ _ _ _ _ H4).
  destruct (calls_run (Free <$> arr_ptr) m4 σ2 (sets arr_ptr [] σ2) Hi4) as (m5&H5&Hi5).
  { apply (calls_spec_each Free [] (λ i σ, is_Some (σ !! i))); [| |done|].
    - intros i σ [t Ht]. cbn. by rewrite Ht.
    - intros i j σ Hij ? _. by rewrite lookup_insert_ne.
    - intros i Hi. unfold σ2. rewrite lookup_sets, decide_True by done. by eexists. }
  rewrite (bind_ok _ _ _ _ _ H5). set (σ3 := sets arr_ptr [] σ2) in *.
  assert (∀ j t, σ3 !! j = Some t → j = 0 ∨ t = []) as Hσ3.
  { intros j t Hj. unfold σ3, σ2, σ1 in Hj. rewrite !lookup_sets in Hj. destruct (decide (j ∈ arr_ptr)); [right; congruence|].
    left. unfold σ0 in Hj. destruct (decide (j = 0)); [done|]. by rewrite !lookup_insert_ne, lookup_empty in Hj. }
  assert (is_Some (σ3 !! 0)) as [t0 Ht0].
  { unfold σ3, σ2, σ1. rewrite !lookup_sets. rewrite !decide_False by (intros H0%Hpos; lia). by eexists. }
  destruct (calls_run [Free 0] m5 σ3 (<[0 := []]> σ3) Hi5) as (m6&H6&Hi6); [cbn; by rewrite Ht0|].
  exists m6. split; [done|]. apply (inv_no_leak _ _ Hi6). intros j t Hj.
  apply lookup_insert_Some in Hj as [[_ <-]|[Hne Hj]]; [done|]. destruct (Hσ3 j t Hj); [congruence|done].
Qed.

(** ** The program *)

(** A function that leaves no block can be called again. *)
Lemma scope_run f : (∃ m, f no_strings = Ok (tt, m) ∧ blocks m = ∅) → scope f no_strings = Ok (tt, no_strings).
Proof using.
  intros (m&Hrun&Hb). unfold scope. rewrite (bind_ok _ _ _ _ _ Hrun). unfold modify. by rewrite Hb.
Qed.

Lemma repeat_run n f : (∀ j, (j < n)%nat → f j no_strings = Ok (tt, no_strings)) → repeat_m n f no_strings = Ok (tt, no_strings).
Proof using.
  induction n as [|n IH]; intros Hf; [done|]. cbn [repeat_m]. rewrite (bind_ok _ _ _ _ _ (IH ltac:(intros j Hj; apply Hf; lia))). apply Hf. lia.
Qed.

Lemma cow_test_ok : ∃ m, run_calls malloc copy_on_write no_strings = Ok (tt, m) ∧ blocks m = ∅.
Proof using malloc_fresh malloc_not_null.
  destruct (calls_run copy_on_write no_strings ∅ all_freed inv_no_strings) as (m&Hrun&Hi); [by vm_compute|].
  exists m. split; [done|]. apply (inv_no_leak _ _ Hi). apply map_Forall_to_list. repeat constructor.
Qed.

Lemma checker_ok : checker malloc no_strings = Ok (tt, no_strings).
Proof using malloc_fresh malloc_not_null.
  unfold checker. rewrite (bind_ok _ _ _ _ _ (scope_run _ test_ok)), (bind_ok _ _ _ _ _ (scope_run _ cow_test_ok)).
  apply scope_run, token_ok.
Qed.

Lemma benchmark_ok : benchmark malloc no_strings = Ok (tt, no_strings).
Proof using malloc_fresh malloc_not_null.
  unfold benchmark. apply repeat_run. intros _ _. apply repeat_run. intros j Hj. apply scope_run.
  unfold MAX_STRING_ORDER in Hj. assert (2 ^ 1 ≤ Z.shiftl 1 (Z.of_nat j + 1) ≤ 2 ^ 12).
  { rewrite Z.shiftl_1_l. split; apply Z.pow_le_mono_r; lia. }
  apply cow_benchmark_ok; lia.
Qed.

Lemma locality_ok : locality malloc no_strings = Ok (tt, no_strings).
Proof using malloc_fresh malloc_not_null.
  unfold locality. apply scope_run, cow_benchmark_ok; [lia| |]; unfold MAX_STRING_SIZE, MAX_STRING_ORDER.
  - change (Z.shiftl 1 (Z.of_nat 12)) with 4096. lia.
  - by rewrite Z2Nat.id.
Qed.

(** C33: (the test program) with each of its options the program returns 0, for every
    allocator: all checks of the three tests and of the benchmarks pass, among them
    those of 5000 variables that share a string, and when a function returns no block
    is left. *)
Theorem xs_program_passes (name option : string) (rest : list string) :
  main malloc (name :: option :: rest) no_strings = Ok (0, no_strings).
Proof using malloc_fresh malloc_not_null.
  unfold main. destruct (String.eqb option "check"); [by rewrite (bind_ok _ _ _ _ _ checker_ok)|].
  destruct (String.eqb option "locality"); [by rewrite (bind_ok _ _ _ _ _ locality_ok)|].
  destruct (String.eqb option "benchmark"); [by rewrite (bind_ok _ _ _ _ _ benchmark_ok)|done].
Qed.
End runs.

Lemma xs_program_passes_witness : main next_block ["test"%string; "check"%string] no_strings = Ok (0, no_strings).
Proof. apply (xs_program_passes next_block next_block_fresh next_block_not_null). Defined.
