(* ===== verification/XVec.v ===== *)
(** * The vector of xvector/xvec.h and xvector/xvec.c

    A vector keeps its elements in a buffer of its own or, once that is full,
    in a block of the heap.  Offsets are multiples of the element size, so that
    the model counts in elements; an element is [None] until it is written.
    The two ways to choose capacities, powers of two and the factor
    [POW_FACTOR] (1.5 in the Makefile), are instances of an interface, against
    which the refinement of a dynamic array is proved. *)
From S2P Require Import Prelude.
From stdpp Require Import gmap list.
#[local] Open Scope Z_scope.
#[local] Open Scope c_scope.

Abbreviation cell := (option Z).

(** The storage is a union whose member [on_heap] selects. *)
Inductive storage :=
| Buf (buf : list cell)
| Ptr (ptr : Z).

Record vec := mk_vec { size : Z; capacity : Z; where_ : storage }.
Record state := mk_state { this : vec; heap : gmap Z (list cell) }.

Definition on_heap (v : vec) : bool := match where_ v with Ptr _ => true | Buf _ => false end.

Definition set_size (n : Z) : M state unit :=
  modify (λ s, mk_state (mk_vec (wrapu 54 n) (capacity (this s)) (where_ (this s))) (heap s)).
Definition set_capacity (c : Z) : M state unit :=
  modify (λ s, mk_state (mk_vec (size (this s)) c (where_ (this s))) (heap s)).
Definition set_where (w : storage) : M state unit :=
  modify (λ s, mk_state (mk_vec (size (this s)) (capacity (this s)) w) (heap s)).
Definition set_heap (h : gmap Z (list cell)) : M state unit := modify (λ s, mk_state (this s) h).

(** [vec_data(v)] *)
Definition load_cells : M state (list cell) :=
  gets_some (λ s, match where_ (this s) with Buf b => Some b | Ptr p => heap s !! p end).
Definition store_cells (d : list cell) : M state unit :=
  v ← gets this;
  match where_ v with
  | Buf _ => set_where (Buf d)
  | Ptr p => h ← gets heap; set_heap (<[p := d]> h)
  end.

Definition in_range (i n : Z) (d : list cell) : bool := (0 <=? i) && (0 <=? n) && (i + n <=? Z.of_nat (length d)).

Definition read_cells (i n : Z) : M state (list cell) :=
  d ← load_cells;
  if in_range i n d then ret (take (Z.to_nat n) (drop (Z.to_nat i) d)) else fail Undefined.
Definition write_cells (i : Z) (e : list cell) : M state unit :=
  d ← load_cells;
  if in_range i (Z.of_nat (length e)) d
  then store_cells (take (Z.to_nat i) d ++ e ++ drop (Z.to_nat i + length e) d)
  else fail Undefined.

(** ** Capacities *)

(** [STACK_SIZE], [to_capacity] and [expand_capacity]; [None] is undefined. *)
Class Capacities := {
  STACK_SIZE : Z → Z;
  to_capacity : Z → option Z;
  expand_capacity : Z → option Z;
}.

(** [__builtin_clzl(0)] is undefined. *)
Definition clzl (n : Z) : Z := 63 - Z.log2 n.
Definition ilog2 (n : Z) : option Z :=
  if n =? 0 then None else Some (64 - clzl n - of_bool (Z.land n (n - 1) =? 0)).

(** [expand_capacity] of xvec.c with [POW_FACTOR], where its argument is not used, and
    without it. *)
Definition expand_capacity_pow_factor (c : Z) : option Z := Some 1.
Definition expand_capacity_ilog2 (c : Z) : option Z := match ilog2 c with Some k => Some (k + 1) | None => None end.

(** The shift of an [int] is undefined from 31 bits on. *)
#[export] Instance powers_of_two : Capacities := {
  STACK_SIZE s := if 0 =? Z.land s (s - 1) then s else Z.shiftl 1 (64 - clzl s);
  to_capacity n := if n <? 31 then Some (Z.shiftl 1 n) else None;
  expand_capacity := expand_capacity_ilog2;
}.

(** [ceil(pow(1.5, n)) * 4]: for [n] up to 63, the values of the field, the
    power in a [double] has the same [ceil] as the exact power. *)
Definition ceil_div (a b : Z) : Z := (a + b - 1) / b.
Definition pow_factor : Capacities := {|
  STACK_SIZE _ := 4;
  to_capacity n := Some (ceil_div (3 ^ n) (2 ^ n) * 4);
  expand_capacity := expand_capacity_pow_factor;
|}.

(** ** Operations *)

Section operations.
Context `{Capacities} (malloc : gmap Z (list cell) → Z) (elemsize : Z).

Definition lift {A} (o : option A) : M state A := match o with Some a => ret a | None => fail Undefined end.

(** [v(t, s, name, ...)] with the elements [init]. *)
Definition v (s : Z) (init : list Z) : vec :=
  let n := STACK_SIZE s in
  mk_vec (wrapu 54 (Z.of_nat (length init))) (wrapu 6 n)
    (Buf ((Some <$> init) ++ replicate (Z.to_nat n - length init) (Some 0))).

Definition vec_capacity : M state Z :=
  v ← gets this;
  match where_ v with
  | Ptr _ => lift (to_capacity (capacity v))
  | Buf b => ret (Z.of_nat (length b))
  end.

(** The elements that a block of [elemsize * n] bytes holds. *)
Definition elements_of (n : Z) : nat := Z.to_nat (u64 (elemsize * n) / elemsize).

Definition alloc (n : Z) : M state Z :=
  h ← gets heap;
  let p := malloc h in
  set_heap (<[p := replicate (elements_of n) None]> h) ;;
  ret p.

(** The block [p] with a new length; its address may change. *)
Definition realloc (p n : Z) : M state Z :=
  h ← gets heap;
  d ← gets_some (λ s, heap s !! p);
  let h := delete p h in
  let q := malloc h in
  let len := elements_of n in
  set_heap (<[q := take len d ++ replicate (len - length d) None]> h) ;;
  ret q.

(** [tmp = malloc(...); memcpy(tmp, v->buf, elemsize * v->size); v->ptr = tmp;] *)
Definition move_to_heap (n : Z) : M state unit :=
  v ← gets this;
  d ← read_cells 0 (size v);
  tmp ← alloc n;
  set_where (Ptr tmp) ;;
  write_cells 0 d.

Definition vec_reserve_ (n cap : Z) : M state unit :=
  if cap <? n then
    v ← gets this;
    k ← lift (ilog2 n);
    let k := wrapu 6 k in
    match where_ v with
    | Ptr p =>
        set_capacity k ;;
        q ← realloc p (Z.shiftl 1 k);
        set_where (Ptr q)
    | Buf _ =>
        set_capacity k ;;
        move_to_heap (Z.shiftl 1 k)
    end
  else ret tt.

(** What [__vec_push_back] and [__vec_insert] do first: a full vector grows. *)
Definition make_room (cap : Z) : M state unit :=
  v ← gets this;
  if size v =? cap then
    match where_ v with
    | Ptr p =>
        let k := wrapu 6 (capacity v + 1) in
        set_capacity k ;;
        n ← lift (to_capacity k);
        q ← realloc p n;
        set_where (Ptr q)
    | Buf _ =>
        k ← lift (expand_capacity cap);
        set_capacity (wrapu 6 k) ;;
        n ← lift (to_capacity (wrapu 6 k));
        move_to_heap n
    end
  else ret tt.

(** [memcpy(&data[v->size++ * elemsize], e, elemsize);] *)
Definition push_cell (e : Z) : M state unit :=
  v ← gets this;
  set_size (size v + 1) ;;
  write_cells (size v) [Some e].

Definition vec_push_back_ (e cap : Z) : M state unit :=
  make_room cap ;;
  push_cell e.

Definition vec_insert_ (index e cap : Z) : M state unit :=
  v ← gets this;
  massert (index <? size v) ;;
  make_room cap ;;
  d ← read_cells index (size v - index);
  write_cells (1 + index) d ;;
  write_cells index [Some e] ;;
  set_size (size v + 1).

Definition vec_erase_ (index : Z) : M state unit :=
  v ← gets this;
  massert (index <? size v) ;;
  d ← read_cells (1 + index) (size v - index);
  write_cells index d ;;
  set_size (size v - 1).

Definition vec_reserve (n : Z) : M state unit := cap ← vec_capacity; vec_reserve_ n cap.
Definition vec_push_back (e : Z) : M state unit := cap ← vec_capacity; vec_push_back_ e cap.
Definition vec_insert (i e : Z) : M state unit := cap ← vec_capacity; vec_insert_ i e cap.
Definition vec_erase (i : Z) : M state unit := vec_erase_ i.

Definition vec_pop_back : M state unit :=
  v ← gets this;
  set_size (size v - of_bool (truthy (size v))).

(** The value of [vec_pos(v, n)]. *)
Definition vec_pos (n : Z) : M state Z :=
  v ← gets this;
  massert (n <? size v) ;;
  d ← read_cells n 1;
  match d with [Some e] => ret e | _ => fail Undefined end.

Definition vec_free : M state unit :=
  v ← gets this;
  match where_ v with
  | Ptr p => gets_some (λ s, heap s !! p) ;; h ← gets heap; set_heap (delete p h)
  | Buf _ => ret tt
  end.

(** The statements of a client, and the values and capacities that it reads. *)
Inductive op :=
| Reserve (n : Z)
| PushBack (e : Z)
| InsertAt (i e : Z)
| Erase (i : Z)
| PopBack
| Pos (i : Z)
| GetSize
| GetCapacity.

Definition exec_op (c : op) : M state (list Z) :=
  match c with
  | Reserve n => vec_reserve n ;; ret []
  | PushBack e => vec_push_back e ;; ret []
  | InsertAt i e => vec_insert i e ;; ret []
  | Erase i => vec_erase i ;; ret []
  | PopBack => vec_pop_back ;; ret []
  | Pos i => e ← vec_pos i; ret [e]
  | GetSize => v ← gets this; ret [size v]
  | GetCapacity => c ← vec_capacity; ret [c]
  end.

(** A scope with a vector: its destructor runs at the end. *)
Fixpoint run_ops (cs : list op) : M state (list Z) :=
  match cs with
  | [] => vec_free ;; ret []
  | c :: cs => o ← exec_op c; os ← run_ops cs; ret (o ++ os)
  end.
End operations.

(** ** A dynamic array *)

(** The elements, the number of cells, and the field [capacity] of a vector on
    the heap. *)
Record array := mk_array { elems : list Z; cells : Z; field : option Z }.

Section specification.
Context `{Capacities}.

(** The capacity that the array announces: on the heap it is what [to_capacity]
    makes of the field, which after a reservation need not be the number of cells. *)
Definition announced (a : array) : option Z :=
  match field a with Some k => to_capacity k | None => Some (cells a) end.

Definition next_exponent (a : array) : option Z :=
  match field a with Some k => Some (k + 1) | None => expand_capacity (cells a) end.

(** An array grows when it has as many elements as it announces.  Nothing is
    specified beyond 2^30 cells. *)
Definition grown (a : array) (cap : Z) : option (result array) :=
  if Z.of_nat (length (elems a)) =? cap then
    match next_exponent a with
    | Some k =>
        match to_capacity k with
        | Some n => if n <=? 2 ^ 30 then Some (Ok (mk_array (elems a) n (Some k))) else None
        | None => Some (Err Undefined)
        end
    | None => Some (Err Undefined)
    end
  else Some (Ok a).

Definition with_elems (a : array) (l : list Z) : array := mk_array l (cells a) (field a).

(** The array with the elements [l], one more than it has, after it has grown: without
    a free cell they overflow. *)
Definition grown_with (a : array) (cap : Z) (l : list Z) : option (result (list Z * array)) :=
  match grown a cap with
  | Some (Ok a) =>
      Some (if Z.of_nat (length (elems a)) <? cells a then Ok ([], with_elems a l) else Err Undefined)
  | Some (Err e) => Some (Err e)
  | None => None
  end.

(** A reservation beyond the announced capacity [cap] makes the cells the next
    power of two, more or fewer than there are; nothing is specified when they
    are too few for the elements. *)
Definition reserve_spec (a : array) (cap n : Z) : option (result (list Z * array)) :=
  if cap <? n then
    match ilog2 n with
    | Some k =>
        if bool_decide (n ≤ 2 ^ 30 ∧ Z.of_nat (length (elems a)) ≤ 2 ^ k)
        then Some (Ok ([], mk_array (elems a) (2 ^ k) (Some k))) else None
    | None => None
    end
  else Some (Ok ([], a)).

(** What an operation with [vec_capacity] does. *)
Definition with_capacity {A} (a : array) (f : Z → option (result A)) : option (result A) :=
  match announced a with Some cap => f cap | None => Some (Err Undefined) end.

(** What an operation yields; [None] where nothing is specified: indices and
    reservations that are no [size_t], capacities of more than 2^30 elements, and
    reservations that cut elements off. *)
Definition op_spec (c : op) (a : array) : option (result (list Z * array)) :=
  let l := elems a in
  match c with
  | Reserve n => if n <? 0 then None else with_capacity a (λ cap, reserve_spec a cap n)
  | PushBack e => with_capacity a (λ cap, grown_with a cap (l ++ [e]))
  | InsertAt i e =>
      if i <? 0 then None
      else with_capacity a (λ cap,
        if Z.of_nat (length l) <=? i then Some (Err AssertFailed)
        else grown_with a cap (take (Z.to_nat i) l ++ e :: drop (Z.to_nat i) l))
  | Erase i =>
      if i <? 0 then None
      else if Z.of_nat (length l) <=? i then Some (Err AssertFailed)
      else if Z.of_nat (length l) =? cells a then Some (Err Undefined)
      else Some (Ok ([], with_elems a (delete (Z.to_nat i) l)))
  | PopBack => Some (Ok ([], with_elems a (take (length l - 1) l)))
  | Pos i =>
      if i <? 0 then None
      else match l !! Z.to_nat i with Some e => Some (Ok ([e], a)) | None => Some (Err AssertFailed) end
  | GetSize => Some (Ok ([Z.of_nat (length l)], a))
  | GetCapacity => with_capacity a (λ cap, Some (Ok ([cap], a)))
  end.

Fixpoint ops_spec (cs : list op) (a : array) : option (result (list Z)) :=
  match cs with
  | [] => Some (Ok [])
  | c :: cs =>
      match op_spec c a with
      | Some (Ok (o, a)) =>
          match ops_spec cs a with Some (Ok os) => Some (Ok (o ++ os)) | r => r end
      | Some (Err e) => Some (Err e)
      | None => None
      end
  end.
End specification.

(** What the choice of capacities has to satisfy. *)
Class GrowthLaws `{Capacities} := {
  capacity_bound : ∀ k n, 0 ≤ k → to_capacity k = Some n → n ≤ 2 ^ 30 → k < 63 ∧ 0 < n;
  capacity_grows : ∀ k n n', 0 ≤ k → to_capacity k = Some n → to_capacity (k + 1) = Some n' → n' ≤ 2 ^ 30 → n < n';
  expand_grows : ∀ s k, 1 ≤ s ≤ 2 ^ 31 → expand_capacity (STACK_SIZE s) = Some k →
    0 ≤ k < 64 ∧ ∀ n, to_capacity k = Some n → STACK_SIZE s < n;
  stack_size_fits : ∀ s, 1 ≤ s ≤ 2 ^ 31 → 0 < STACK_SIZE s ≤ 2 ^ 32;
}.

(** *** Logarithms *)

Lemma power_of_two_test n : 0 < n → (Z.land n (n - 1) =? 0) = (n =? 2 ^ Z.log2 n).
Proof.
  intros Hn. pose proof (Z.log2_spec n Hn) as [H1 H2]. pose proof (Z.log2_nonneg n) as H0.
  destruct (Z.eqb_spec n (2 ^ Z.log2 n)) as [Heq|Hne].
  - apply Z.eqb_eq. rewrite Heq at 1 2. replace (2 ^ Z.log2 n - 1) with (Z.ones (Z.log2 n)) by (rewrite Z.ones_equiv; lia).
    rewrite Z.land_ones by done. by apply Z.mod_same, Z.pow_nonzero.
  - apply Z.eqb_neq. intros H. assert (Z.testbit (Z.land n (n - 1)) (Z.log2 n) = false) as Hb by (rewrite H; apply Z.bits_0).
    rewrite Z.land_spec, Z.bit_log2 in Hb by done. cbn in Hb.
    assert (Z.log2 (n - 1) = Z.log2 n) as Hl by (apply Z.log2_unique; lia).
    rewrite <- Hl, Z.bit_log2 in Hb; [done|]. assert (0 < 2 ^ Z.log2 n) by (by apply Z.pow_pos_nonneg). lia.
Qed.

Lemma ilog2_up n : 0 < n → ilog2 n = Some (Z.log2_up n).
Proof.
  intros Hn. unfold ilog2, clzl. rewrite (proj2 (Z.eqb_neq n 0)) by lia. rewrite power_of_two_test by done. f_equal.
  pose proof (Z.le_log2_log2_up n) as Ha. pose proof (Z.le_log2_up_succ_log2 n) as Hb.
  destruct (Z.eqb_spec n (2 ^ Z.log2 n)) as [Heq|Hne]; cbn [of_bool].
  - rewrite Heq at 2. rewrite Z.log2_up_pow2 by apply Z.log2_nonneg. lia.
  - enough (Z.log2_up n ≠ Z.log2 n) by lia. intros Heq. apply Hne. destruct (Z.eq_dec n 1) as [->|H1]; [done|].
    pose proof (Z.log2_up_spec n ltac:(lia)) as [_ Hu]. rewrite Heq in Hu. pose proof (Z.log2_spec n Hn). lia.
Qed.

Lemma log2_up_bound n : 0 < n → n ≤ 2 ^ Z.log2_up n.
Proof.
  intros Hn. destruct (Z.eq_dec n 1) as [->|H1]; [done|]. by apply Z.log2_up_spec; lia.
Qed.

Lemma ilog2_bounds n k : 0 < n ≤ 2 ^ 30 → ilog2 n = Some k → 0 ≤ k ≤ 30 ∧ n ≤ 2 ^ k ≤ 2 ^ 30.
Proof.
  intros Hn. rewrite ilog2_up by lia. intros [= <-]. pose proof (log2_up_bound n ltac:(lia)).
  assert (Z.log2_up n ≤ 30) by (change 30 with (Z.log2_up (2 ^ 30)); apply Z.log2_up_le_mono; lia).
  split; [split; [apply Z.log2_up_nonneg|done]|]. split; [done|]. apply Z.pow_le_mono_r; lia.
Qed.

#[export] Instance powers_of_two_laws : @GrowthLaws powers_of_two.
Proof.
  split; cbn [STACK_SIZE to_capacity expand_capacity powers_of_two].
  - intros k n Hk. destruct (Z.ltb_spec k 31); [|done]. intros [= <-] _. rewrite Z.shiftl_1_l. split; [lia|by apply Z.pow_pos_nonneg].
  - intros k n n' Hk. destruct (Z.ltb_spec k 31); [|done]. destruct (Z.ltb_spec (k + 1) 31); [|done]. intros [= <-] [= <-] _.
    rewrite !Z.shiftl_1_l, Z.pow_add_r by lia. assert (0 < 2 ^ k) by (by apply Z.pow_pos_nonneg). lia.
  - intros s k Hs. set (c := if 0 =? Z.land s (s - 1) then s else Z.shiftl 1 (64 - clzl s)). unfold expand_capacity_ilog2. destruct (ilog2 c) as [j|] eqn:Hj; [|done]. intros [= <-].
    assert (0 < c ≤ 2 ^ 32) as Hc.
    { unfold c, clzl. destruct (0 =? _); [lia|]. rewrite Z.shiftl_1_l. pose proof (Z.log2_nonneg s).
      assert (Z.log2 s ≤ 31) by (change 31 with (Z.log2 (2 ^ 31)); apply Z.log2_le_mono; lia).
      split; [apply Z.pow_pos_nonneg; lia|apply Z.pow_le_mono_r; lia]. }
    rewrite ilog2_up in Hj by lia. injection Hj as <-. pose proof (Z.log2_up_nonneg c). pose proof (log2_up_bound c ltac:(lia)) as Hb.
    assert (Z.log2_up c ≤ 32) by (change 32 with (Z.log2_up (2 ^ 32)); apply Z.log2_up_le_mono; lia).
    split; [lia|]. intros n. destruct (_ <? 31); [|done]. intros [= <-]. rewrite Z.shiftl_1_l, Z.pow_add_r by lia. lia.
  - intros s Hs. unfold clzl. destruct (0 =? _); [lia|]. rewrite Z.shiftl_1_l. pose proof (Z.log2_nonneg s).
    assert (Z.log2 s ≤ 31) by (change 31 with (Z.log2 (2 ^ 31)); apply Z.log2_le_mono; lia).
    split; [apply Z.pow_pos_nonneg; lia|apply Z.pow_le_mono_r; lia].
Qed.

Lemma pow_factor_exponent k : 0 ≤ k → ceil_div (3 ^ k) (2 ^ k) * 4 ≤ 2 ^ 30 → k < 48.
Proof.
  intros Hk Hn. unfold ceil_div in Hn. destruct (Z.lt_ge_cases k 48) as [|Hge]; [done|exfalso]. set (j := k - 48).
  assert (3 ^ k = 3 ^ j * 3 ^ 48) as H3 by (rewrite <- Z.pow_add_r by lia; f_equal; lia).
  assert (2 ^ k = 2 ^ j * 2 ^ 48) as H2 by (rewrite <- Z.pow_add_r by lia; f_equal; lia).
  assert (2 ^ j ≤ 3 ^ j) as Hj by (apply Z.pow_le_mono_l; lia). assert (0 < 2 ^ j) as Hj0 by (apply Z.pow_pos_nonneg; lia).
  assert (2 ^ 28 < (3 ^ k + 2 ^ k - 1) / 2 ^ k); [|lia]. apply Z.lt_le_trans with (2 ^ 28 + 1); [done|].
  apply Z.div_le_lower_bound; [lia|]. rewrite H2, H3. assert (2 ^ 48 * (2 ^ 28 + 1) ≤ 3 ^ 48) as H48 by (by vm_compute).
  assert (2 ^ j * (2 ^ 48 * (2 ^ 28 + 1)) ≤ 3 ^ j * 3 ^ 48) by (apply Z.mul_le_mono_nonneg; lia). lia.
Qed.

Lemma pow_factor_table k : 0 ≤ k < 48 →
  0 < ceil_div (3 ^ k) (2 ^ k) * 4 < ceil_div (3 ^ (k + 1)) (2 ^ (k + 1)) * 4.
Proof.
  intros Hk. assert (forallb (λ i, (0 <? ceil_div (3 ^ i) (2 ^ i)) && (ceil_div (3 ^ i) (2 ^ i) <? ceil_div (3 ^ (i + 1)) (2 ^ (i + 1))))
    (seqZ 0 48) = true) as H by (by vm_compute).
  rewrite forallb_forall in H. specialize (H k). rewrite <- list_elem_of_In, elem_of_seqZ in H. specialize (H ltac:(lia)).
  bool_to_prop. lia.
Qed.

#[export] Instance pow_factor_laws : @GrowthLaws pow_factor.
Proof.
  split; cbn [STACK_SIZE to_capacity expand_capacity pow_factor].
  - intros k n Hk [= <-] Hn. apply pow_factor_exponent in Hn; [|done]. pose proof (pow_factor_table k ltac:(lia)). lia.
  - intros k n n' Hk [= <-] [= <-] Hn. apply pow_factor_exponent in Hn; [|lia]. pose proof (pow_factor_table k ltac:(lia)). lia.
  - intros s k _ [= <-]. split; [done|]. intros n [= <-]. by vm_compute.
  - done.
Qed.

(** ** The representation of an array *)

Section layout.
Context `{Capacities}.

(** The vector of [s] has the cells [d], on the heap with the field [f]. *)
Definition layout (d : list cell) (f : option Z) (s : state) : Prop :=
  match f with
  | None => where_ (this s) = Buf d ∧ heap s = ∅
  | Some k => ∃ p, where_ (this s) = Ptr p ∧ heap s = {[p := d]} ∧ capacity (this s) = k
  end.

Lemma layout_load d f s : layout d f s → load_cells s = Ok (d, s).
Proof.
  unfold load_cells, gets_some. destruct f as [k|]; cbn; [|by intros [-> _]].
  intros (p&->&->&_). by rewrite lookup_singleton_eq.
Qed.

Lemma layout_read d f s i n : layout d f s → 0 ≤ i → 0 ≤ n → i + n ≤ Z.of_nat (length d) →
  read_cells i n s = Ok (take (Z.to_nat n) (drop (Z.to_nat i) d), s).
Proof.
  intros HL Hi Hn Hd. unfold read_cells. rewrite (bind_ok _ _ _ _ _ (layout_load _ _ _ HL)).
  unfold in_range. by rewrite !(proj2 (Z.leb_le _ _)) by lia.
Qed.

Lemma layout_store d f s d' : layout d f s →
  ∃ s', store_cells d' s = Ok (tt, s') ∧ layout d' f s' ∧ size (this s') = size (this s).
Proof.
  unfold store_cells, bind, gets, set_where, set_heap, modify. destruct f as [k|]; cbn; [|intros [-> Hh]; eauto].
  intros (p&Hw&Hh&Hc). rewrite Hw. eexists. split; [done|]. cbn. split; [|done]. exists p. by rewrite Hh, insert_singleton_eq.
Qed.

Lemma layout_write l1 l2 l3 f s i e : layout (l1 ++ l2 ++ l3) f s → i = Z.of_nat (length l1) → length l2 = length e →
  ∃ s', write_cells i e s = Ok (tt, s') ∧ layout (l1 ++ e ++ l3) f s' ∧ size (this s') = size (this s).
Proof.
  intros HL -> He. destruct (layout_store _ _ _ (l1 ++ e ++ l3) HL) as (s'&Hs&HL'&Hn). exists s'. split; [|done].
  unfold write_cells. rewrite (bind_ok _ _ _ _ _ (layout_load _ _ _ HL)). unfold in_range.
  rewrite !(proj2 (Z.leb_le _ _)) by (rewrite ?length_app; lia). cbn [andb]. rewrite <- Hs. do 2 f_equal.
  - by rewrite Nat2Z.id, take_app_length.
  - f_equal. rewrite Nat2Z.id, <- He, <- length_app, app_assoc. by rewrite drop_app_length.
Qed.

Lemma layout_size d f s n : layout d f s → 0 ≤ n < 2 ^ 54 →
  ∃ s', set_size n s = Ok (tt, s') ∧ layout d f s' ∧ size (this s') = n.
Proof.
  intros HL Hn. eexists. split; [done|]. cbn. rewrite wrapu_small by done. split; [|done]. by destruct f.
Qed.

Lemma push_cell_run l rest f s e : layout ((Some <$> l) ++ rest) f s → size (this s) = Z.of_nat (length l) →
  Z.of_nat (length l) ≤ 2 ^ 32 →
  match rest with
  | [] => push_cell e s = Err Undefined
  | _ :: rest => ∃ s', push_cell e s = Ok (tt, s') ∧ layout ((Some <$> (l ++ [e])) ++ rest) f s' ∧
                 size (this s') = Z.of_nat (length (l ++ [e]))
  end.
Proof.
  intros HL Hs Hb. unfold push_cell. rewrite (bind_ok _ _ _ _ _ (gets_run _ _)), Hs, length_app.
  destruct (layout_size _ _ _ (Z.of_nat (length l) + 1) HL) as (s1&Hs1&HL1&Hsz); [lia|]. rewrite (bind_ok _ _ _ _ _ Hs1).
  destruct rest as [|x rest].
  - unfold write_cells. rewrite (bind_ok _ _ _ _ _ (layout_load _ _ _ HL1)). unfold in_range.
    by rewrite (proj2 (Z.leb_gt (_ + _) _)), andb_false_r by (rewrite app_nil_r, length_fmap; cbn; lia).
  - destruct (layout_write _ [x] rest _ _ (Z.of_nat (length l)) [Some e] HL1) as (s2&Hs2&HL2&Hsz2); [by rewrite length_fmap|done|].
    exists s2. rewrite Hs2, Hsz2, Hsz, fmap_app, <- app_assoc. cbn [length]. split; [done|]. split; [done|lia].
Qed.
End layout.

(** ** Growth *)

Section growth.
Context `{GrowthLaws} (malloc : gmap Z (list cell) → Z) (elemsize : Z).
Context (elemsize_fits : 1 ≤ elemsize ≤ 2 ^ 32).

Lemma elements_of_fits n : 0 ≤ n ≤ 2 ^ 30 → elements_of elemsize n = Z.to_nat n.
Proof.
  intros Hn. unfold elements_of. rewrite wrapu_small by nia. f_equal. rewrite Z.mul_comm. apply Z.div_mul. lia.
Qed.

(** Elements are kept by [realloc] when the new block has room for them. *)
Lemma realloc_run sz k p l rest n : Z.of_nat (length l) ≤ n ≤ 2 ^ 30 →
  ∃ q rest', bind (realloc malloc elemsize p n) (λ q, set_where (Ptr q)) (mk_state (mk_vec sz k (Ptr p)) {[p := l ++ rest]}) =
    Ok (tt, mk_state (mk_vec sz k (Ptr q)) {[q := l ++ rest']}) ∧ Z.of_nat (length l + length rest') = n.
Proof.
  intros Hn. set (m := Z.to_nat n).
  exists (malloc ∅), (take (m - length l) rest ++ replicate (m - length (l ++ rest)) None). split.
  - unfold realloc, bind, gets, gets_some, ret, set_heap, set_where, modify. cbn [heap this].
    rewrite lookup_singleton_eq, elements_of_fits, delete_singleton_eq, insert_empty by lia. cbn [size capacity where_]. fold m.
    by rewrite take_app, (take_ge l) by lia; rewrite <- app_assoc.
  - rewrite length_app, length_take, length_replicate, length_app. lia.
Qed.

Lemma move_to_heap_run k l rest n : Z.of_nat (length l) ≤ n ≤ 2 ^ 30 →
  ∃ p, move_to_heap malloc elemsize n (mk_state (mk_vec (Z.of_nat (length l)) k (Buf (l ++ rest))) ∅) =
  Ok (tt, mk_state (mk_vec (Z.of_nat (length l)) k (Ptr p)) {[p := l ++ replicate (Z.to_nat n - length l) None]}).
Proof.
  intros Hn. exists (malloc ∅). unfold move_to_heap. rewrite (bind_ok _ _ _ _ _ (gets_run _ _)). cbn [this size].
  erewrite bind_ok; [|apply (layout_read (l ++ rest) None); [by split|done|lia|rewrite length_app; lia]].
  rewrite drop_0, Nat2Z.id, take_app_length.
  unfold alloc, bind, gets, ret, set_heap, set_where, modify. cbn [this heap size capacity where_].
  unfold write_cells, bind, load_cells, gets_some. cbn [this heap size capacity where_].
  rewrite lookup_insert_eq, elements_of_fits by lia. unfold in_range.
  rewrite length_replicate, !(proj2 (Z.leb_le _ _)) by lia. cbn [andb Z.to_nat take app Nat.add].
  unfold store_cells, bind, gets, set_heap, modify. cbn [this heap size capacity where_].
  by rewrite insert_insert_eq, insert_empty, drop_replicate.
Qed.

(** What a state holds of an array: the elements, then cells that are free. *)
Definition repr (a : array) (s : state) : Prop :=
  ∃ rest, let d := (Some <$> elems a) ++ rest in
  layout d (field a) s ∧ size (this s) = Z.of_nat (length (elems a)) ∧ Z.of_nat (length d) = cells a ∧ cells a ≤ 2 ^ 32 ∧
  match field a with
  | Some k => 0 ≤ k < 63
  | None => ∀ k, expand_capacity (cells a) = Some k → 0 ≤ k < 64 ∧ ∀ n, to_capacity k = Some n → cells a < n
  end.

(** The outcome that a specification allows. *)
Definition yields {A} (m : M state A) (s : state) (r : result (A * array)) : Prop :=
  match r with
  | Ok (o, a) => ∃ s', m s = Ok (o, s') ∧ repr a s'
  | Err e => m s = Err e
  end.

Lemma repr_capacity a s : repr a s →
  vec_capacity s = match announced a with Some cap => Ok (cap, s) | None => Err Undefined end.
Proof.
  intros (rest&HL&_&Hn&_). unfold vec_capacity, announced. rewrite (bind_ok _ _ _ _ _ (gets_run _ _)). destruct (field a) as [k|]; cbn in HL.
  - destruct HL as (p&->&_&->). by destruct (to_capacity k).
  - destruct HL as [-> _]. by rewrite <- Hn.
Qed.

Lemma repr_bound a s : repr a s → Z.of_nat (length (elems a)) ≤ cells a ≤ 2 ^ 32.
Proof. intros (rest&_&_&<-&?&_). rewrite length_app, length_fmap in *. lia. Qed.

(** A block of the heap with [n] cells. *)
Lemma repr_heap l rest k n p : 0 ≤ k < 63 → n ≤ 2 ^ 30 → Z.of_nat (length (l : list Z) + length rest) = n →
  repr (mk_array l n (Some k)) (mk_state (mk_vec (Z.of_nat (length l)) k (Ptr p)) {[p := (Some <$> l) ++ rest]}).
Proof.
  intros Hk Hn30 Hl. exists rest. cbn. split; [by exists p|]. rewrite length_app, length_fmap. by repeat split; lia.
Qed.

Lemma realloc_repr l rest k p n : 0 ≤ k < 63 → Z.of_nat (length l) ≤ n ≤ 2 ^ 30 →
  ∃ s', bind (realloc malloc elemsize p n) (λ q, set_where (Ptr q))
      (mk_state (mk_vec (Z.of_nat (length l)) k (Ptr p)) {[p := (Some <$> l) ++ rest]}) = Ok (tt, s') ∧
    repr (mk_array l n (Some k)) s'.
Proof.
  intros Hk Hn. destruct (realloc_run (Z.of_nat (length l)) k p (Some <$> l) rest n) as (q&rest'&Hq&Hlen); rewrite length_fmap in *; [lia|].
  eexists. split; [exact Hq|]. apply repr_heap; lia.
Qed.

Lemma move_to_heap_repr l rest k n : 0 ≤ k < 63 → Z.of_nat (length l) ≤ n ≤ 2 ^ 30 →
  ∃ s', move_to_heap malloc elemsize n (mk_state (mk_vec (Z.of_nat (length l)) k (Buf ((Some <$> l) ++ rest))) ∅) = Ok (tt, s') ∧
    repr (mk_array l n (Some k)) s'.
Proof.
  intros Hk Hn. pose proof (move_to_heap_run k (Some <$> l) rest n) as Hm. rewrite length_fmap in Hm. destruct Hm as [p Hp]; [lia|].
  eexists. split; [exact Hp|]. apply repr_heap; [lia..|]. rewrite length_replicate. lia.
Qed.

Lemma make_room_run a s cap : repr a s → announced a = Some cap →
  match grown a cap with
  | Some (Ok a') => (∃ s', make_room malloc elemsize cap s = Ok (tt, s') ∧ repr a' s') ∧ elems a' = elems a
  | Some (Err e) => make_room malloc elemsize cap s = Err e
  | None => True
  end.
Proof.
  intros HR Hcap. pose proof HR as (rest&HL&Hs&Hn&Hn32&Hf).
  unfold grown, next_exponent, announced, make_room, bind, gets in *. rewrite Hs.
  destruct (Z.eqb_spec (Z.of_nat (length (elems a))) cap) as [Heq|Hne]; [|split; [by exists s|done]].
  destruct a as [l n f], s as [[sz c w] h]. cbn [elems cells field this size] in *. subst sz.
  unfold set_capacity, modify. cbn [this heap size capacity where_].
  destruct f as [k|]; cbn in HL.
  - destruct HL as (p&->&->&->). rewrite wrapu_small by lia. destruct (to_capacity (k + 1)) as [n'|] eqn:Hn'; [|done].
    destruct (Z.leb_spec n' (2 ^ 30)) as [H30|]; [|done]. split; [|done].
    pose proof (capacity_grows _ _ _ (proj1 Hf) Hcap Hn' H30). pose proof (capacity_bound (k + 1) n' ltac:(lia) Hn' H30).
    destruct (realloc_repr l rest (k + 1) p n') as (s'&Hrun&HR'); [lia..|]. by exists s'.
  - destruct HL as [-> ->]. injection Hcap as <-. destruct (expand_capacity n) as [k|] eqn:Hk; [|done]. destruct (Hf k eq_refl) as [Hk' Hg].
    cbn [lift ret]. rewrite wrapu_small by lia. destruct (to_capacity k) as [n'|] eqn:Hn'; [|done]. specialize (Hg _ eq_refl).
    destruct (Z.leb_spec n' (2 ^ 30)) as [H30|]; [|done]. split; [|done]. pose proof (capacity_bound k n' ltac:(lia) Hn' H30).
    destruct (move_to_heap_repr l rest k n') as (s'&Hrun&HR'); [lia..|]. by exists s'.
Qed.

(** *** Each operation *)

Lemma repr_with a s l' rest' s' : repr a s → layout ((Some <$> l') ++ rest') (field a) s' →
  size (this s') = Z.of_nat (length l') → Z.of_nat (length l' + length rest') = cells a → repr (with_elems a l') s'.
Proof.
  intros (rest&_&_&_&Hb&Hf) HL Hs Hn. exists rest'. cbn. split; [done|]. rewrite length_app, length_fmap. by repeat split.
Qed.

Lemma repr_size a s : repr a s → gets this s = Ok (this s, s) ∧ size (this s) = Z.of_nat (length (elems a)).
Proof. intros (rest&_&Hs&_). done. Qed.

(** The operations begin with [vec_capacity]. *)
Lemma capacity_yields {A} (f : Z → M state A) (g : A → list Z) a s spec r :
  repr a s → with_capacity a spec = Some r →
  (∀ cap, announced a = Some cap → spec cap = Some r → yields (bind (f cap) (λ o, ret (g o))) s r) →
  yields (bind (bind vec_capacity f) (λ o, ret (g o))) s r.
Proof.
  intros HR. pose proof (repr_capacity _ _ HR) as Hc. unfold with_capacity. destruct (announced a) as [cap|].
  - intros Hr Hy. specialize (Hy cap eq_refl Hr). unfold yields in *. by rewrite bind_assoc, (bind_ok _ _ _ _ _ Hc).
  - intros [= <-] _. unfold yields. by rewrite bind_assoc, (bind_err _ _ _ _ Hc).
Qed.

Lemma push_back_yields a s e r : repr a s → op_spec (PushBack e) a = Some r →
  yields (exec_op malloc elemsize (PushBack e)) s r.
Proof.
  intros HR Hr. cbn [exec_op op_spec] in *. unfold vec_push_back. eapply capacity_yields; [done..|]. clear Hr.
  intros cap Hcap. cbv beta. unfold grown_with, yields, vec_push_back_. rewrite bind_assoc. pose proof (make_room_run _ _ _ HR Hcap) as Hm.
  destruct (grown a cap) as [[a'|err]|]; [| |done]; intros [= <-]; [|by rewrite (bind_err _ _ _ _ Hm)].
  destruct Hm as ((s1&Hm&HR1)&He). rewrite (bind_ok _ _ _ _ _ Hm). pose proof (repr_bound _ _ HR1).
  pose proof HR1 as (rest&HL&Hs&Hn&_). rewrite <- He in *. rewrite length_app, length_fmap in Hn.
  pose proof (push_cell_run _ _ _ _ e HL Hs ltac:(lia)) as Hp. destruct rest as [|x rest]; cbn [length] in Hn.
  - rewrite (proj2 (Z.ltb_ge _ _)) by lia. by rewrite (bind_err _ _ _ _ Hp).
  - rewrite (proj2 (Z.ltb_lt _ _)) by lia. destruct Hp as (s2&Hs2&HL2&Hsz). rewrite (bind_ok _ _ _ _ _ Hs2).
    exists s2. split; [done|]. apply (repr_with _ _ _ rest _ HR1); [done..|]. rewrite length_app. cbn. lia.
Qed.

(** Shifting the elements from [i] on and writing a new one. *)
Lemma insert_shift a s i e : repr a s → 0 ≤ i < Z.of_nat (length (elems a)) →
  yields (bind (d ← read_cells i (Z.of_nat (length (elems a)) - i);
      write_cells (1 + i) d ;; write_cells i [Some e] ;; set_size (Z.of_nat (length (elems a)) + 1)) (λ _, ret ([] : list Z))) s
    (if Z.of_nat (length (elems a)) <? cells a
     then Ok ([], with_elems a (take (Z.to_nat i) (elems a) ++ e :: drop (Z.to_nat i) (elems a))) else Err Undefined).
Proof.
  intros HR Hi. pose proof (repr_bound _ _ HR). pose proof HR as (rest&HL&Hs&Hn&_). set (n := length (elems a)) in *.
  assert (elems a = take (Z.to_nat i) (elems a) ++ drop (Z.to_nat i) (elems a)) as Hl by (by rewrite take_drop).
  assert (length (take (Z.to_nat i) (elems a)) = Z.to_nat i) as Hp by (rewrite length_take; lia).
  set (p := take (Z.to_nat i) (elems a)) in *. set (q := drop (Z.to_nat i) (elems a)) in *.
  assert (n = Z.to_nat i + length q)%nat as Hq by (unfold n; rewrite Hl, length_app; lia).
  destruct q as [|y q]; [cbn in Hq; lia|]. rewrite length_app, length_fmap in Hn. fold n in Hn. cbn [length] in Hq.
  rewrite Hl, fmap_app, fmap_cons in HL. unfold yields. rewrite bind_assoc.
  erewrite bind_ok; [|apply (layout_read _ _ _ i (Z.of_nat n - i) HL); [lia..|rewrite !length_app; cbn; rewrite !length_fmap; lia]].
  replace (take _ (drop _ _)) with (Some <$> (y :: q)) by
    (rewrite <- app_assoc, drop_app_length' by (by rewrite length_fmap);
     rewrite <- fmap_cons, take_app_length' by (rewrite length_fmap; cbn; lia); done).
  destruct rest as [|x rest]; cbn [length] in Hn.
  { rewrite (proj2 (Z.ltb_ge _ _)) by lia. rewrite bind_assoc. apply bind_err. unfold write_cells. rewrite (bind_ok _ _ _ _ _ (layout_load _ _ _ HL)).
    unfold in_range. rewrite (proj2 (Z.leb_gt (_ + _) _)), andb_false_r; [done|].
    rewrite app_nil_r, length_app, fmap_cons. cbn [length]. rewrite !length_fmap. lia. }
  rewrite (proj2 (Z.ltb_lt _ _)) by lia.
  assert (layout (((Some <$> p) ++ [Some y]) ++ ((Some <$> q) ++ [x]) ++ rest) (field a) s) as HL1 by (by rewrite <- !app_assoc in *).
  destruct (layout_write _ _ _ _ _ (1 + i) (Some <$> (y :: q)) HL1) as (s2&Hs2&HL2&Hsz2);
    [rewrite length_app, length_fmap; cbn; lia|rewrite length_app, !length_fmap; cbn; lia|].
  rewrite bind_assoc, (bind_ok _ _ _ _ _ Hs2), bind_assoc. rewrite <- (app_assoc (Some <$> p)) in HL2.
  destruct (layout_write _ _ _ _ _ i [Some e] HL2) as (s3&Hs3&HL3&Hsz3); [rewrite length_fmap; lia|done|].
  rewrite (bind_ok _ _ _ _ _ Hs3). destruct (layout_size _ _ _ (Z.of_nat n + 1) HL3) as (s4&Hs4&HL4&Hsz4); [lia|].
  rewrite (bind_ok _ _ _ _ _ Hs4). exists s4. split; [done|].
  apply (repr_with _ _ _ rest _ HR).
  - by rewrite fmap_app, fmap_cons, <- app_assoc.
  - rewrite Hsz4, length_app. cbn [length]. lia.
  - rewrite length_app. cbn [length]. lia.
Qed.

Lemma insert_yields a s i e r : repr a s → op_spec (InsertAt i e) a = Some r →
  yields (exec_op malloc elemsize (InsertAt i e)) s r.
Proof.
  intros HR. cbn [exec_op op_spec]. destruct (Z.ltb_spec i 0) as [|Hi0]; [done|]. intros Hr. unfold vec_insert.
  eapply capacity_yields; [done..|]. clear Hr. intros cap Hcap. cbv beta. unfold yields, vec_insert_. destruct (repr_size _ _ HR) as [Hg Hs].
  rewrite bind_assoc, (bind_ok _ _ _ _ _ Hg), Hs. destruct (Z.leb_spec (Z.of_nat (length (elems a))) i) as [Hi|Hi].
  { intros [= <-]. by rewrite (proj2 (Z.ltb_ge _ _)) by lia. }
  unfold grown_with. rewrite (proj2 (Z.ltb_lt _ _)), bind_assoc, (bind_ok _ _ _ _ _ (massert_true _)), bind_assoc by lia.
  pose proof (make_room_run _ _ _ HR Hcap) as Hm.
  destruct (grown a cap) as [[a'|err]|]; [| |done]; intros [= <-]; [|by rewrite (bind_err _ _ _ _ Hm)].
  destruct Hm as ((s1&Hm&HR1)&He). rewrite (bind_ok _ _ _ _ _ Hm), <- He in *.
  pose proof (insert_shift a' s1 i e HR1 ltac:(lia)) as Hy. unfold yields in Hy.
  exact Hy.
Qed.

Lemma erase_yields a s i : repr a s → 0 ≤ i < Z.of_nat (length (elems a)) →
  yields (exec_op malloc elemsize (Erase i)) s
    (if Z.of_nat (length (elems a)) =? cells a then Err Undefined
     else Ok ([], with_elems a (delete (Z.to_nat i) (elems a)))).
Proof.
  intros HR Hi. pose proof (repr_bound _ _ HR) as Hb. cbn [exec_op]. unfold vec_erase, vec_erase_, yields.
  destruct (repr_size _ _ HR) as [Hg Hs]. rewrite bind_assoc, (bind_ok _ _ _ _ _ Hg), Hs, (proj2 (Z.ltb_lt _ _)) by lia.
  rewrite bind_assoc, (bind_ok _ _ _ _ _ (massert_true _)), bind_assoc. clear Hg.
  pose proof HR as (rest&HL&_&Hn&_). set (n := length (elems a)) in *. rewrite length_app, length_fmap in Hn. fold n in Hn.
  destruct (Z.eqb_spec (Z.of_nat n) (cells a)) as [Heq|Hne].
  { apply bind_err. unfold read_cells. rewrite (bind_ok _ _ _ _ _ (layout_load _ _ _ HL)). unfold in_range.
    rewrite (proj2 (Z.leb_gt (1 + i + _) _)), andb_false_r by (rewrite length_app, length_fmap; fold n; lia). done. }
  destruct (lookup_lt_is_Some_2 (elems a) (Z.to_nat i) ltac:(lia)) as [y Hy].
  rewrite delete_take_drop. pose proof (take_drop_middle _ _ _ Hy) as Hl.
  assert (length (take (Z.to_nat i) (elems a)) = Z.to_nat i) as Hp by (rewrite length_take; lia).
  set (p := take (Z.to_nat i) (elems a)) in *. set (q := drop (S (Z.to_nat i)) (elems a)) in *.
  assert (n = Z.to_nat i + S (length q))%nat as Hq by (unfold n; rewrite <- Hl, length_app; cbn; lia).
  destruct rest as [|x rest]; [cbn in Hn; lia|]. cbn [length] in Hn.
  rewrite <- Hl, fmap_app, fmap_cons in HL.
  assert (layout (((Some <$> p) ++ [Some y]) ++ ((Some <$> q) ++ [x]) ++ rest) (field a) s) as HL1 by (by rewrite <- !app_assoc in *).
  erewrite bind_ok; [|apply (layout_read _ _ _ _ _ HL1); [lia..|rewrite !length_app, !length_fmap; cbn; lia]].
  rewrite drop_app_length' by (rewrite length_app, length_fmap; cbn; lia).
  rewrite take_app_length' by (rewrite length_app, length_fmap; cbn; lia).
  assert (layout ((Some <$> p) ++ (Some <$> (y :: q)) ++ x :: rest) (field a) s) as HL2 by (by rewrite <- app_assoc in HL).
  destruct (layout_write _ _ _ _ _ i ((Some <$> q) ++ [x]) HL2) as (s2&Hs2&HL3&Hsz2);
    [rewrite length_fmap; lia|rewrite length_app, !length_fmap; cbn; lia|].
  rewrite bind_assoc, (bind_ok _ _ _ _ _ Hs2). destruct (layout_size _ _ _ (Z.of_nat n - 1) HL3) as (s3&Hs3&HL4&Hsz3); [lia|].
  rewrite (bind_ok _ _ _ _ _ Hs3). exists s3. split; [done|]. apply (repr_with _ _ _ (x :: x :: rest) _ HR).
  - rewrite fmap_app, <- !app_assoc in *. done.
  - rewrite Hsz3, length_app. lia.
  - rewrite length_app. cbn [length]. lia.
Qed.

Lemma pop_back_yields a s : repr a s →
  yields (exec_op malloc elemsize PopBack) s (Ok ([], with_elems a (take (length (elems a) - 1) (elems a)))).
Proof.
  intros HR. pose proof (repr_bound _ _ HR) as Hb. cbn [exec_op]. unfold vec_pop_back, yields.
  destruct (repr_size _ _ HR) as [Hg Hs]. rewrite bind_assoc, (bind_ok _ _ _ _ _ Hg), Hs. pose proof HR as (rest&HL&_&Hn&_).
  rewrite length_app, length_fmap in Hn. set (m := (length (elems a) - 1)%nat) in *.
  replace (Z.of_nat (length (elems a)) - of_bool (truthy _)) with (Z.of_nat m) by (unfold truthy, m; destruct (Z.eqb_spec (Z.of_nat (length (elems a))) 0); cbn [negb of_bool]; lia).
  destruct (layout_size _ _ _ (Z.of_nat m) HL) as (s1&Hs1&HL1&Hsz1); [lia|]. rewrite (bind_ok _ _ _ _ _ Hs1).
  exists s1. split; [done|]. apply (repr_with _ _ _ ((Some <$> drop m (elems a)) ++ rest) _ HR).
  - by rewrite app_assoc, <- fmap_app, take_drop.
  - rewrite Hsz1, length_take. lia.
  - rewrite length_app, length_fmap, length_take, length_drop. lia.
Qed.

Lemma pos_yields a s i : repr a s → 0 ≤ i →
  yields (exec_op malloc elemsize (Pos i)) s
    (match elems a !! Z.to_nat i with Some e => Ok ([e], a) | None => Err AssertFailed end).
Proof.
  intros HR Hi. cbn [exec_op]. unfold vec_pos, yields. destruct (repr_size _ _ HR) as [Hg Hs].
  rewrite bind_assoc, (bind_ok _ _ _ _ _ Hg), Hs. destruct (elems a !! Z.to_nat i) as [e|] eqn:He.
  - pose proof (lookup_lt_Some _ _ _ He). rewrite (proj2 (Z.ltb_lt _ _)) by lia.
    rewrite bind_assoc, (bind_ok _ _ _ _ _ (massert_true _)), bind_assoc. pose proof HR as (rest&HL&_).
    erewrite bind_ok; [|apply (layout_read _ _ _ _ _ HL); [lia..|rewrite length_app, length_fmap; lia]].
    rewrite <- (take_drop_middle _ _ _ He), fmap_app, <- app_assoc, drop_app_length' by (rewrite length_fmap, length_take; lia).
    by exists s.
  - apply lookup_ge_None in He. by rewrite (proj2 (Z.ltb_ge _ _)) by lia.
Qed.

(** A reservation moves the elements to a block of the next power of two of cells,
    whatever [vec_capacity] makes of it. *)
Lemma reserve_yields a s n r : repr a s → op_spec (Reserve n) a = Some r →
  yields (exec_op malloc elemsize (Reserve n)) s r.
Proof.
  intros HR. cbn [exec_op op_spec]. destruct (Z.ltb_spec n 0) as [|Hn0]; [done|]. intros Hr. unfold vec_reserve.
  eapply capacity_yields; [done..|]. clear Hr. intros cap Hcap. cbv beta. unfold reserve_spec, yields, vec_reserve_.
  destruct (Z.ltb_spec cap n) as [Hn|Hn]; [|intros [= <-]; by exists s].
  destruct (ilog2 n) as [k|] eqn:Hk; [|done]. case_bool_decide as Hb; [|done]. destruct Hb as [H30 Hfit]. intros [= <-].
  assert (n ≠ 0) by (by intros ->). destruct (ilog2_bounds n k ltac:(lia) Hk) as (Hk0&_&Hk30).
  rewrite bind_assoc, (bind_ok _ _ _ _ _ (gets_run _ _)), bind_assoc. cbn [lift]. rewrite (bind_ok _ _ _ _ _ (ret_run _ _)).
  cbv zeta. rewrite wrapu_small, Z.shiftl_1_l by lia.
  destruct a as [l m f], s as [[sz c w] h], HR as (rest&HL&Hs&Hm&_&_). cbn [elems cells field this size where_] in *. subst sz.
  destruct f as [j|]; cbn in HL.
  - destruct HL as (p&->&->&_). destruct (realloc_repr l rest k p (2 ^ k)) as (s'&Hrun&HR'); [lia..|].
    exists s'. split; [|done]. unfold set_capacity at 1. rewrite bind_assoc, (bind_ok _ _ _ _ _ (modify_run _ _)).
    cbn [this heap size where_]. by rewrite (bind_ok _ _ _ _ _ Hrun).
  - destruct HL as [-> ->]. destruct (move_to_heap_repr l rest k (2 ^ k)) as (s'&Hrun&HR'); [lia..|].
    exists s'. split; [|done]. unfold set_capacity at 1. rewrite bind_assoc, (bind_ok _ _ _ _ _ (modify_run _ _)).
    cbn [this heap size where_]. by rewrite (bind_ok _ _ _ _ _ Hrun).
Qed.

(** Every operation refines that of the array. *)
Lemma exec_op_yields a s c r : repr a s → op_spec c a = Some r → yields (exec_op malloc elemsize c) s r.
Proof.
  intros HR. destruct c as [n|e|i e|i| |i| |].
  - by apply reserve_yields.
  - by apply push_back_yields.
  - by apply insert_yields.
  - cbn [op_spec]. case_bool (i <? 0) as Hi0; [done|]. destruct (Z.leb_spec (Z.of_nat (length (elems a))) i) as [Hi|Hi].
    + intros [= <-]. cbn [exec_op yields]. unfold vec_erase, vec_erase_.
      destruct (repr_size _ _ HR) as [Hg Hs]. by rewrite bind_assoc, (bind_ok _ _ _ _ _ Hg), Hs, (proj2 (Z.ltb_ge _ _)) by lia.
    + pose proof (erase_yields a s i HR ltac:(lia)) as He. destruct (_ =? cells a); by intros [= <-].
  - intros [= <-]. by apply pop_back_yields.
  - cbn [op_spec]. case_bool (i <? 0) as Hi0; [done|]. pose proof (pos_yields a s i HR ltac:(lia)) as Hp. destruct (elems a !! _); by intros [= <-].
  - intros [= <-]. exists s. split; [|done]. destruct (repr_size _ _ HR) as [Hg Hs]. cbn [exec_op]. by rewrite (bind_ok _ _ _ _ _ Hg), Hs.
  - cbn [op_spec exec_op]. unfold with_capacity, yields. pose proof (repr_capacity _ _ HR) as Hc.
    destruct (announced a) as [cap|]; intros [= <-]; [exists s; by rewrite (bind_ok _ _ _ _ _ Hc)|by rewrite (bind_err _ _ _ _ Hc)].
Qed.

Lemma vec_free_run a s : repr a s → ∃ s', vec_free s = Ok (tt, s') ∧ heap s' = ∅.
Proof.
  intros (rest&HL&_). unfold vec_free. rewrite (bind_ok _ _ _ _ _ (gets_run _ _)). destruct (field a) as [k|]; cbn in HL.
  - destruct HL as (p&->&Hh&_). exists (mk_state (this s) ∅). split; [|done].
    erewrite bind_ok; [|apply gets_some_ok; by rewrite Hh, lookup_singleton_eq].
    rewrite (bind_ok _ _ _ _ _ (gets_run _ _)), Hh, delete_singleton_eq. done.
  - destruct HL as [-> Hh]. by exists s.
Qed.

Lemma run_ops_spec cs a s r : repr a s → ops_spec cs a = Some r →
  match r with
  | Ok out => ∃ s', run_ops malloc elemsize cs s = Ok (out, s') ∧ heap s' = ∅
  | Err e => run_ops malloc elemsize cs s = Err e
  end.
Proof.
  revert a s r. induction cs as [|c cs IH]; intros a s r HR; cbn [ops_spec run_ops].
  - intros [= <-]. destruct (vec_free_run _ _ HR) as (s'&Hs&Hh). exists s'. by rewrite (bind_ok _ _ _ _ _ Hs).
  - destruct (op_spec c a) as [[[o a']|e]|] eqn:Hc; [| |done]; pose proof (exec_op_yields _ _ _ _ HR Hc) as Hy.
    + destruct Hy as (s1&Hs1&HR1). rewrite (bind_ok _ _ _ _ _ Hs1).
      destruct (ops_spec cs a') as [[os|e]|] eqn:Hcs; intros [= <-]; specialize (IH _ _ _ HR1 Hcs); cbn in IH.
      * destruct IH as (s2&Hs2&Hh). exists s2. by rewrite (bind_ok _ _ _ _ _ Hs2).
      * by rewrite (bind_err _ _ _ _ IH).
    + intros [= <-]. by rewrite (bind_err _ _ _ _ Hy).
Qed.

Lemma v_repr n init : 1 ≤ n ≤ 2 ^ 31 → Z.of_nat (length init) ≤ STACK_SIZE n →
  repr (mk_array init (STACK_SIZE n) None) (mk_state (v n init) ∅).
Proof.
  intros Hn Hi. pose proof (stack_size_fits _ Hn). exists (replicate (Z.to_nat (STACK_SIZE n) - length init) (Some 0)).
  cbn -[expand_capacity to_capacity STACK_SIZE wrapu replicate]. rewrite wrapu_small, length_app, length_fmap, length_replicate by lia.
  split; [done|]. split; [done|]. split; [lia|]. split; [lia|]. intros k Hk. by apply (expand_grows _ _ Hn Hk).
Qed.

(** C10: (the vector refines a dynamic array) a scope that declares a vector with
    initial elements and runs a program of reservations, pushes, insertions,
    removals and accesses behaves like an array with a number of cells and an
    announced capacity: it reads the same elements, sizes and capacities, grows
    when it has as many elements as it announces, fails an [assert] for the same
    index out of range, is undefined for the same calls (an element behind the
    last cell, growth past the largest capacity, removal without a free cell),
    and leaves no block allocated.  A reservation makes a power of two of cells;
    what is announced then is that number or, with [POW_FACTOR], another one.
    This holds for both choices of capacities in the code, as for every one with
    the laws of growth, for every [malloc] and elements of up to 2^32 bytes, as
    long as no more than 2^30 elements are allocated and no reservation makes
    the block too small for the elements in it. *)
Theorem vec_refines n init cs r :
  1 ≤ n ≤ 2 ^ 31 → Z.of_nat (length init) ≤ STACK_SIZE n →
  ops_spec cs (mk_array init (STACK_SIZE n) None) = Some r →
  match r with
  | Ok out => ∃ s, run_ops malloc elemsize cs (mk_state (v n init) ∅) = Ok (out, s) ∧ heap s = ∅
  | Err e => run_ops malloc elemsize cs (mk_state (v n init) ∅) = Err e
  end.
Proof. intros Hn Hi. by apply run_ops_spec, v_repr. Qed.
End growth.

(** The script of [check] in xvec-unittest.c on [vec3], with other elements. *)
Definition check_script : list op :=
  concat (imap (λ k _, [InsertAt (Z.of_nat k) (Z.of_nat k); GetSize; GetCapacity]) (replicate 5 tt)) ++
  concat (imap (λ k _, [InsertAt 1 (Z.of_nat k); Pos 1]) (replicate 5 tt)) ++
  concat (replicate 9 [Erase 1; Pos 0]) ++ [GetSize; GetCapacity; PopBack; PopBack; PopBack; GetSize; Reserve 100; GetCapacity].

(** The reservation of [check] on [vec2]; with [POW_FACTOR] it makes 128 cells of which
    72 are announced, so that the 73rd element moves to a block of 104. *)
Definition reserve_script : list op := [Reserve 100; GetCapacity] ++ (PushBack <$> seqZ 0 71) ++ [GetCapacity; Pos 72].

Example vec_refines_witness :
  (ops_spec (H := powers_of_two) check_script (mk_array [99] 2 None) =
     Some (Ok [2; 2; 3; 4; 4; 4; 5; 8; 6; 8; 0; 1; 2; 3; 4; 0; 0; 0; 0; 0; 0; 0; 0; 0; 2; 16; 0; 128]) ∧
   ∃ s, run_ops (H := powers_of_two) (λ _, 4096) 8 check_script (mk_state (v (H := powers_of_two) 2 [99]) ∅) =
     Ok ([2; 2; 3; 4; 4; 4; 5; 8; 6; 8; 0; 1; 2; 3; 4; 0; 0; 0; 0; 0; 0; 0; 0; 0; 2; 16; 0; 128], s) ∧ heap s = ∅) ∧
  ∃ s, run_ops (H := pow_factor) (λ _, 4096) 4 reserve_script (mk_state (v (H := pow_factor) 2 [13; 42]) ∅) =
    Ok ([72; 104; 70], s) ∧ heap s = ∅.
Proof.
  split; [split; [vm_compute; reflexivity|]|].
  - exact (vec_refines (H := powers_of_two) (λ _, 4096) 8 ltac:(lia) 2 [99] check_script (Ok _) ltac:(lia) ltac:(vm_compute; discriminate)
      ltac:(vm_compute; reflexivity)).
  - exact (vec_refines (H := pow_factor) (λ _, 4096) 4 ltac:(lia) 2 [13; 42] reserve_script (Ok _) ltac:(lia) ltac:(vm_compute; discriminate)
      ltac:(vm_compute; reflexivity)).
Defined.

(** ** Reservations with [POW_FACTOR] *)

Section pow_factor.
Context (malloc : gmap Z (list cell) → Z) (elemsize : Z) (elemsize_fits : 1 ≤ elemsize ≤ 2 ^ 32).
#[local] Existing Instance pow_factor | 0.

(** Pushes onto a block that is smaller than its field [capacity] says. *)
Lemma push_overflow es a k c : field a = Some k → to_capacity k = Some c → cells a < c →
  Z.of_nat (length (elems a)) ≤ cells a < Z.of_nat (length (elems a) + length es) →
  ops_spec (PushBack <$> es) a = Some (Err Undefined).
Proof using Type.
  intros Hk Hc Hcells. revert a Hk Hcells. induction es as [|e es IH]; intros a Hk Hcells Hlen; [cbn in Hlen; lia|].
  rewrite fmap_cons. cbn [ops_spec op_spec]. unfold with_capacity, announced. rewrite Hk, Hc. unfold grown_with, grown.
  rewrite (proj2 (Z.eqb_neq _ _)) by lia. destruct (Z.ltb_spec (Z.of_nat (length (elems a))) (cells a)); [|done].
  rewrite IH; [done..|]. cbn [elems cells with_elems]. rewrite length_app. cbn [length] in *. lia.
Qed.

(** When xvec is built with [POW_FACTOR] (as its Makefile does),
    [vec_reserve(vec, n)] of 5 to 16 elements allocates the next power of two
    of cells, while [vec_capacity] then answers 16 cells for a block of 8, and
    24 for a block of 16: pushing as many elements as the capacity announces
    writes behind the block, for every [malloc] and element size. *)
Theorem reserve_overstates n init es :
  (length init ≤ 4)%nat → 5 ≤ n ≤ 16 → 2 ^ Z.log2_up n < Z.of_nat (length init + length es) →
  (∃ c s, run_ops malloc elemsize [Reserve n; GetCapacity] (mk_state (v 4 init) ∅) = Ok ([c], s) ∧ 2 ^ Z.log2_up n < c) ∧
  run_ops malloc elemsize (Reserve n :: (PushBack <$> es)) (mk_state (v 4 init) ∅) = Err Undefined.
Proof.
  intros Hi Hn He. set (k := Z.log2_up n) in *.
  pose proof (v_repr (H := pow_factor) 4 init ltac:(lia) ltac:(change (STACK_SIZE 4) with 4; lia)) as HR.
  assert (∃ c, to_capacity k = Some c ∧ 2 ^ k < c) as (c&Hc&Hkc).
  { assert (k = 3 ∨ k = 4) as [Hk|Hk]; [|rewrite Hk; by eexists..].
    assert (3 ≤ k ≤ 4); [|lia]. split; [change 3 with (Z.log2_up 5)|change 4 with (Z.log2_up 16)]; apply Z.log2_up_le_mono; lia. }
  pose proof (log2_up_bound n ltac:(lia)) as Hle. fold k in Hle.
  assert (op_spec (Reserve n) (mk_array init (STACK_SIZE 4) None) = Some (Ok ([], mk_array init (2 ^ k) (Some k)))) as Hres.
  { cbn [op_spec]. unfold with_capacity, announced, reserve_spec. cbn [field cells elems]. change (STACK_SIZE 4) with 4.
    rewrite (proj2 (Z.ltb_ge n 0)), (proj2 (Z.ltb_lt 4 n)), ilog2_up by lia. fold k. by rewrite bool_decide_eq_true_2 by lia. }
  split.
  - destruct (run_ops_spec malloc elemsize elemsize_fits [Reserve n; GetCapacity] _ _ (Ok [c]) HR) as (s&Hrun&_); [|by exists c, s].
    cbn [ops_spec]. rewrite Hres. cbn [op_spec]. unfold with_capacity, announced. cbn [field]. by rewrite Hc.
  - refine (run_ops_spec malloc elemsize elemsize_fits _ _ _ (Err Undefined) HR _). cbn [ops_spec]. rewrite Hres.
    rewrite (push_overflow es _ k c); cbn [field cells elems]; done || lia.
Qed.

End pow_factor.

(** (reservations that shrink) with [POW_FACTOR] a reservation beyond the announced
    capacity can make a block smaller than its elements: a vector of 300 announces
    156 after a reservation of 349, and one of 157 then cuts off the elements from
    the 257th on. *)
Theorem reserve_truncates :
  let script := (PushBack <$> seqZ 0 300) ++ [Reserve 349; GetCapacity] in
  let run cs := run_ops (H := pow_factor) (λ _, 4096) 8 (script ++ cs) (mk_state (v (H := pow_factor) 4 []) ∅) in
  (∃ s, run [Pos 299] = Ok ([156; 299], s)) ∧ (∃ s, run [Reserve 157; Pos 255] = Ok ([156; 255], s)) ∧
  run [Reserve 157; Pos 256] = Err Undefined.
Proof. cbv zeta. split; [|split]; [eexists; vm_compute; reflexivity..|vm_compute; reflexivity]. Qed.

Example reserve_overstates_witness :
  run_ops (H := pow_factor) (λ _, 4096) 4 (Reserve 5 :: (PushBack <$> [1; 2; 3; 4; 5; 6; 7]))
    (mk_state (v (H := pow_factor) 4 [13; 42]) ∅) = Err Undefined.
Proof.
  apply (reserve_overstates (λ _, 4096) 4 ltac:(lia) 5 [13; 42] [1; 2; 3; 4; 5; 6; 7]); [cbn; lia|lia|vm_compute; reflexivity].
Defined.
