(* ===== verification/XVecTests.v ===== *)
(** * The test program of xvector

    [check], [benchmark] and [main] of xvec-unittest.c over the vectors of XVec, for
    both choices of capacities.  A vector is modelled with the blocks that are its
    own.  The elements of the vectors of [float] and [double] are counted in
    hundredths, as they are printed; the clock of [benchmark] and its statistics are
    not modelled. *)
From Stdlib Require Import String.
From stdpp Require Import gmap list strings.
From S2P Require Import Prelude XVec.
#[local] Open Scope Z_scope.
#[local] Open Scope c_scope.

(** The three vectors of [check]. *)
Inductive name := Vec1 | Vec2 | Vec3.
Record triple (A : Type) := mk_triple { vec1 : A; vec2 : A; vec3 : A }.
Arguments mk_triple {A}.
Arguments vec1 {A}.
Arguments vec2 {A}.
Arguments vec3 {A}.

Definition get {A} (k : name) (t : triple A) : A := match k with Vec1 => vec1 t | Vec2 => vec2 t | Vec3 => vec3 t end.
Definition put {A} (k : name) (x : A) (t : triple A) : triple A :=
  match k with
  | Vec1 => mk_triple x (vec2 t) (vec3 t)
  | Vec2 => mk_triple (vec1 t) x (vec3 t)
  | Vec3 => mk_triple (vec1 t) (vec2 t) x
  end.

Definition on {A} (k : name) (m : M state A) : M (triple state) A := λ t,
  match m (get k t) with Ok (a, s) => Ok (a, put k s t) | Err e => Err e end.

(** What is printed: a line with numbers, or the elements of a vector and "heap" or
    "stack". *)
Inductive line :=
| Numbers (l : list Z)
| Elements (l : list Z) (heap : bool).

(** The statements of [check]. *)
Inductive stmt :=
| Do (k : name) (c : op)
| Print (l : list (name * op))
| Show (k : name).

Section program.
Context `{Capacities} (malloc : gmap Z (list cell) → Z).

Definition elemsize (k : name) : Z := match k with Vec1 | Vec2 => 4 | Vec3 => 8 end.

(** The macro [display]: its loop reads [vec_pos(v, i)] for [i] below [vec_size(v)]. *)
Fixpoint display_loop (n : nat) (i : Z) : M state (list Z) :=
  match n with
  | O => ret []
  | S n => e ← vec_pos i; es ← display_loop n (i + 1); ret (e :: es)
  end.
Definition display : M state line :=
  v ← gets this;
  es ← display_loop (Z.to_nat (size v)) 0;
  ret (Elements es (on_heap v)).

Fixpoint print (l : list (name * op)) : M (triple state) (list Z) :=
  match l with
  | [] => ret []
  | (k, c) :: l => o ← on k (exec_op malloc (elemsize k) c); os ← print l; ret (o ++ os)
  end.

Definition exec_stmt (c : stmt) : M (triple state) (list line) :=
  match c with
  | Do k c => on k (exec_op malloc (elemsize k) c) ;; ret []
  | Print l => o ← print l; ret [Numbers o]
  | Show k => l ← on k display; ret [l]
  end.
Fixpoint run_stmts (cs : list stmt) : M (triple state) (list line) :=
  match cs with
  | [] => ret []
  | c :: cs => o ← exec_stmt c; os ← run_stmts cs; ret (o ++ os)
  end.

Definition check_stmts : list stmt :=
  [Print [(Vec2, Pos 0); (Vec2, Pos 1)]; Do Vec2 (PushBack 88); Do Vec2 (Reserve 100);
   Print [(Vec1, GetCapacity); (Vec2, GetCapacity)]; Print [(Vec2, Pos 2)];
   Show Vec1;
   Do Vec1 (PushBack 0); Show Vec1; Do Vec1 (PushBack 110); Show Vec1; Do Vec1 (PushBack 220); Show Vec1;
   Do Vec1 (PushBack 330); Show Vec1; Do Vec1 (PushBack 440); Show Vec1; Do Vec1 (PushBack 550); Show Vec1;
   Do Vec1 PopBack; Show Vec1; Do Vec1 PopBack; Show Vec1; Do Vec1 PopBack; Show Vec1;
   Do Vec1 PopBack; Show Vec1; Do Vec1 PopBack; Show Vec1; Do Vec1 PopBack; Show Vec1] ++
  mjoin ((λ i, [Do Vec3 (InsertAt i (100 * i)); Show Vec3]) <$> seqZ 0 5) ++
  mjoin ((λ i, [Do Vec3 (InsertAt 1 (100 * i)); Show Vec3]) <$> seqZ 0 5) ++
  mjoin ((λ i, [Do Vec3 (Erase 1); Show Vec3]) <$> seqZ 0 9).

(** The vectors are declared, and released at the end, the last one first. *)
Definition declared : triple state :=
  mk_triple (mk_state (v 3 []) ∅) (mk_state (v 2 [13; 42]) ∅) (mk_state (v 2 [9999]) ∅).
Definition check : M (triple state) (list line) :=
  modify (λ _, declared) ;;
  o ← run_stmts check_stmts;
  on Vec3 vec_free ;; on Vec2 vec_free ;; on Vec1 vec_free ;;
  ret o.

Definition INSERT_SIZE : Z := 1024 * 64.
Definition INSERT_BASE : Z := 1024.
Definition INSERT_STEP : Z := 32.

(** A vector in the scope of the inner loop, from its declaration on. *)
Definition insertions (j : Z) : M state unit :=
  modify (λ s, mk_state (v 1 []) (heap s)) ;;
  run_ops malloc 4 (PushBack <$> seqZ 0 (j + INSERT_BASE)) ;;
  ret tt.

(** [for (int j = 0; j < INSERT_SIZE; j += INSERT_STEP)], in [n] rounds from [j] on. *)
Fixpoint benchmark_loop (n : nat) (j : Z) : M state unit :=
  match n with
  | O => ret tt
  | S n => insertions j ;; benchmark_loop n (j + INSERT_STEP)
  end.
Definition benchmark : M state unit :=
  let round := benchmark_loop (Z.to_nat (INSERT_SIZE / INSERT_STEP)) 0 in
  round ;; round ;; round ;; round ;; round.

(** The exit status and what is printed on success. *)
Definition main (argv : list string) : M (triple state) (Z * list line) :=
  match argv with
  | [] => fail Undefined
  | [_] => ret (1, [])
  | _ :: option :: _ =>
      if String.eqb option "check" then o ← check; ret (0, o)
      else if String.eqb option "benchmark" then on Vec1 benchmark ;; ret (0, [])
      else ret (1, [])
  end.
End program.

(** ** Vectors as arrays *)

Section specification.
Context `{Capacities}.

(** A statement that succeeds. *)
Definition step_spec (c : op) (a : array) : option (list Z * array) :=
  match op_spec c a with Some (Ok r) => Some r | _ => None end.

Fixpoint print_spec (l : list (name * op)) (t : triple array) : option (list Z * triple array) :=
  match l with
  | [] => Some ([], t)
  | (k, c) :: l =>
      match step_spec c (get k t) with
      | Some (o, x) => match print_spec l (put k x t) with Some (os, t) => Some (o ++ os, t) | None => None end
      | None => None
      end
  end.

Definition shown (a : array) : line := Elements (elems a) (bool_decide (is_Some (field a))).

Definition stmt_spec (c : stmt) (t : triple array) : option (list line * triple array) :=
  match c with
  | Do k c => match step_spec c (get k t) with Some (_, x) => Some ([], put k x t) | None => None end
  | Print l => match print_spec l t with Some (o, t) => Some ([Numbers o], t) | None => None end
  | Show k => Some ([shown (get k t)], t)
  end.
Fixpoint stmts_spec (cs : list stmt) (t : triple array) : option (list line * triple array) :=
  match cs with
  | [] => Some ([], t)
  | c :: cs =>
      match stmt_spec c t with
      | Some (o, t) => match stmts_spec cs t with Some (os, t) => Some (o ++ os, t) | None => None end
      | None => None
      end
  end.

Definition declared_arrays : triple array :=
  mk_triple (mk_array [] (STACK_SIZE 3) None) (mk_array [13; 42] (STACK_SIZE 2) None) (mk_array [9999] (STACK_SIZE 2) None).
End specification.

(** Pushing is always specified while the capacity at most doubles. *)
Class Doubling `{Capacities} := {
  doubles : ∀ k n, 0 ≤ k → to_capacity k = Some n → n ≤ 2 ^ 20 → ∃ n', to_capacity (k + 1) = Some n' ∧ n' ≤ 2 * n;
  first_block : ∃ k n, expand_capacity (STACK_SIZE 1) = Some k ∧ to_capacity k = Some n ∧ n ≤ 2 ^ 20;
}.
#[export] Instance powers_of_two_doubling : @Doubling powers_of_two.
Proof.
  split; cbn [to_capacity expand_capacity STACK_SIZE powers_of_two]; [|by exists 1, 2].
  intros k n Hk. destruct (Z.ltb_spec k 31); [|done]. intros [= <-] Hn. rewrite Z.shiftl_1_l in *.
  assert (k ≤ 20) by (apply Z.nlt_ge; intros H'; apply (Z.pow_lt_mono_r 2 20 k) in H'; lia).
  rewrite (proj2 (Z.ltb_lt (k + 1) 31)) by lia. eexists. split; [done|]. rewrite Z.shiftl_1_l, Z.pow_add_r; lia.
Qed.
#[export] Instance pow_factor_doubling : @Doubling pow_factor.
Proof.
  split; cbn [to_capacity expand_capacity STACK_SIZE pow_factor]; [|by exists 1, 8].
  intros k n Hk [= <-] Hn. eexists. split; [done|]. pose proof (pow_factor_exponent k Hk ltac:(lia)) as Hk48.
  assert (forallb (λ i, ceil_div (3 ^ (i + 1)) (2 ^ (i + 1)) * 4 <=? 2 * (ceil_div (3 ^ i) (2 ^ i) * 4)) (seqZ 0 48) = true) as Htab by (by vm_compute).
  rewrite forallb_forall in Htab. specialize (Htab k). rewrite <- list_elem_of_In, elem_of_seqZ in Htab.
  by apply Z.leb_le, Htab.
Qed.

(** ** The program refines its specification *)

Section refinement.
Context `{GrowthLaws} (malloc : gmap Z (list cell) → Z).

Lemma elemsize_fits k : 1 ≤ elemsize k ≤ 2 ^ 32.
Proof. destruct k; cbn; lia. Qed.

Lemma step_ok k c a s o a' : repr a s → step_spec c a = Some (o, a') →
  ∃ s', exec_op malloc (elemsize k) c s = Ok (o, s') ∧ repr a' s'.
Proof.
  unfold step_spec. intros Ha Hc. destruct (op_spec c a) as [[r|]|] eqn:Hop; [|done..]. injection Hc as ->.
  apply (exec_op_yields malloc (elemsize k) (elemsize_fits k) a s c _ Ha Hop).
Qed.

(** Reading an element. *)
Lemma vec_pos_ok a s (i : nat) e : repr a s → elems a !! i = Some e → vec_pos (Z.of_nat i) s = Ok (e, s).
Proof.
  intros (rest&HL&Hs&_) He. pose proof (lookup_lt_Some _ _ _ He) as Hi. unfold vec_pos.
  rewrite (bind_ok _ _ _ _ _ (gets_run _ _)), Hs, (proj2 (Z.ltb_lt _ _)) by lia.
  rewrite (bind_ok _ _ _ _ _ (massert_true _)).
  erewrite bind_ok; [|apply (layout_read _ _ _ _ _ HL); [lia..|rewrite length_app, length_fmap; lia]].
  by rewrite Nat2Z.id, <- (take_drop_middle _ _ _ He), fmap_app, <- app_assoc, drop_app_length'
    by (rewrite length_fmap, length_take; lia).
Qed.

Lemma display_ok a s : repr a s → display s = Ok (shown a, s).
Proof.
  intros Ha. pose proof Ha as (rest&HL&Hs&_).
  assert (∀ l pre, elems a = pre ++ l → display_loop (List.length l) (Z.of_nat (List.length pre)) s = Ok (l, s)) as Hloop.
  { induction l as [|e l IH]; intros pre Hpre; [done|]. cbn [List.length display_loop].
    rewrite (bind_ok _ _ _ _ _ (vec_pos_ok a s (List.length pre) e Ha ltac:(rewrite Hpre; by apply list_lookup_middle))).
    specialize (IH (pre ++ [e])). rewrite length_app in IH. cbn [List.length] in IH.
    replace (Z.of_nat (List.length pre) + 1) with (Z.of_nat (List.length pre + 1)) by lia.
    by rewrite (bind_ok _ _ _ _ _ (IH ltac:(by rewrite <- app_assoc))). }
  unfold display. rewrite (bind_ok _ _ _ _ _ (gets_run _ _)), Hs, Nat2Z.id. rewrite (bind_ok _ _ _ _ _ (Hloop (elems a) [] eq_refl)).
  unfold shown, on_heap, ret. do 3 f_equal. destruct (field a); [by destruct HL as (p&->&_)|by destruct HL as [-> _]].
Qed.

(** *** The three vectors *)

Definition all_hold (t : triple array) (s : triple state) : Prop := ∀ k, repr (get k t) (get k s).

Lemma get_put {A} k j (x : A) t : get k (put j x t) = match k, j with
  | Vec1, Vec1 | Vec2, Vec2 | Vec3, Vec3 => x | _, _ => get k t end.
Proof. by destruct k, j. Qed.

Lemma all_hold_put k x s t u : all_hold t u → repr x s → all_hold (put k x t) (put k s u).
Proof. intros Ht Hx j. rewrite !get_put. destruct j, k; try done; apply Ht. Qed.

Lemma on_run {A} k (m : M state A) t a s : m (get k t) = Ok (a, s) → on k m t = Ok (a, put k s t).
Proof. intros Hm. unfold on. by rewrite Hm. Qed.

Lemma put_get {A} k (t : triple A) : put k (get k t) t = t.
Proof. by destruct k, t. Qed.

Lemma print_ok l : ∀ t u o t', all_hold t u → print_spec l t = Some (o, t') → ∃ u', print malloc l u = Ok (o, u') ∧ all_hold t' u'.
Proof.
  induction l as [|[k c] l IH]; intros t u o t' Hu; cbn; [intros [= <- <-]; by exists u|].
  destruct (step_spec c (get k t)) as [[o1 x]|] eqn:Hc; [|done]. destruct (step_ok k c _ _ _ _ (Hu k) Hc) as (s&Hrun&Hx).
  destruct (print_spec l (put k x t)) as [[os t1]|] eqn:Hl; [|done]. intros [= <- <-].
  destruct (IH _ _ _ _ (all_hold_put k x s t u Hu Hx) Hl) as (u'&Hrun'&Hu'). exists u'. split; [|done].
  by rewrite (bind_ok _ _ _ _ _ (on_run _ _ _ _ _ Hrun)), (bind_ok _ _ _ _ _ Hrun').
Qed.

Lemma stmt_ok c t u o t' : all_hold t u → stmt_spec c t = Some (o, t') → ∃ u', exec_stmt malloc c u = Ok (o, u') ∧ all_hold t' u'.
Proof.
  intros Hu. destruct c as [k c|l|k]; cbn.
  - destruct (step_spec c (get k t)) as [[o1 x]|] eqn:Hc; [|done]. intros [= <- <-].
    destruct (step_ok k c _ _ _ _ (Hu k) Hc) as (s&Hrun&Hx). rewrite (bind_ok _ _ _ _ _ (on_run _ _ _ _ _ Hrun)).
    eexists. split; [done|]. by apply all_hold_put.
  - destruct (print_spec l t) as [[o1 t1]|] eqn:Hl; [|done]. intros [= <- <-].
    destruct (print_ok l t u o1 t1 Hu Hl) as (u'&Hrun&Hu'). rewrite (bind_ok _ _ _ _ _ Hrun). by exists u'.
  - intros [= <- <-]. rewrite (bind_ok _ _ _ _ _ (on_run _ _ _ _ _ (display_ok _ _ (Hu k)))), put_get. by exists u.
Qed.

Lemma stmts_ok cs : ∀ t u o t', all_hold t u → stmts_spec cs t = Some (o, t') → ∃ u', run_stmts malloc cs u = Ok (o, u') ∧ all_hold t' u'.
Proof.
  induction cs as [|c cs IH]; intros t u o t' Hu; cbn; [intros [= <- <-]; by exists u|].
  destruct (stmt_spec c t) as [[o1 t1]|] eqn:Hc; [|done]. destruct (stmt_ok c t u o1 t1 Hu Hc) as (u1&Hrun&Hu1).
  destruct (stmts_spec cs t1) as [[os t2]|] eqn:Hcs; [|done]. intros [= <- <-].
  destruct (IH _ _ _ _ Hu1 Hcs) as (u'&Hrun'&Hu'). exists u'. split; [|done].
  by rewrite (bind_ok _ _ _ _ _ Hrun), (bind_ok _ _ _ _ _ Hrun').
Qed.

(** [check] prints what the arrays prescribe, and frees every block. *)
Lemma vec_check_ok u o t : 2 ≤ STACK_SIZE 2 → stmts_spec check_stmts declared_arrays = Some (o, t) →
  ∃ u', check malloc u = Ok (o, u') ∧ heap (vec1 u') = ∅ ∧ heap (vec2 u') = ∅ ∧ heap (vec3 u') = ∅.
Proof.
  intros Hst Hspec. pose proof (stack_size_fits 3 ltac:(lia)) as Hst3.
  assert (all_hold declared_arrays declared) as Hd.
  { intros []; cbn [get declared declared_arrays vec1 vec2 vec3]; apply v_repr; cbn [List.length]; lia. }
  unfold check. rewrite (bind_ok _ _ _ _ _ (modify_run _ _)).
  destruct (stmts_ok _ _ _ _ _ Hd Hspec) as ([u1 u2 u3]&Hrun&Hu). rewrite (bind_ok _ _ _ _ _ Hrun).
  destruct (vec_free_run _ _ (Hu Vec1)) as (s1&H1&Hh1), (vec_free_run _ _ (Hu Vec2)) as (s2&H2&Hh2), (vec_free_run _ _ (Hu Vec3)) as (s3&H3&Hh3).
  rewrite (bind_ok _ _ _ _ _ (on_run Vec3 _ _ _ _ H3)), (bind_ok _ _ _ _ _ (on_run Vec2 _ (mk_triple u1 u2 s3) _ _ H2)).
  rewrite (bind_ok _ _ _ _ _ (on_run Vec1 _ (mk_triple u1 s2 s3) _ _ H1)). by eexists.
Qed.

(** *** The insertions of the benchmark *)

Context `{!Doubling}.

(** The arrays between the insertions have the cells they announce. *)
Definition pushed (a : array) : Prop :=
  announced a = Some (cells a) ∧ Z.of_nat (List.length (elems a)) ≤ cells a ∧
  match field a with Some k => 0 ≤ k | None => cells a = STACK_SIZE 1 end.

Lemma grown_ok a : pushed a → Z.of_nat (List.length (elems a)) ≤ 2 ^ 20 →
  ∃ a', grown a (cells a) = Some (Ok a') ∧ pushed a' ∧ elems a' = elems a ∧ Z.of_nat (List.length (elems a)) < cells a'.
Proof.
  intros (Hann&Hle&Ha) Hlen. unfold grown, next_exponent. destruct (Z.eqb_spec (Z.of_nat (List.length (elems a))) (cells a)) as [Heq|].
  2: { exists a. split_and!; done || lia. }
  unfold announced in Hann. destruct (field a) as [k|].
  - destruct (doubles k (cells a) Ha Hann ltac:(lia)) as (n&Hn&Hn2). rewrite Hn, (proj2 (Z.leb_le _ _)) by lia.
    pose proof (capacity_grows k _ n Ha Hann Hn ltac:(lia)).
    eexists. split; [done|]. split_and!; [|done|cbn; lia]. split_and!; [done|cbn; lia|cbn; lia].
  - rewrite Ha in *. destruct first_block as (k&n&Hk&Hn&Hn2). rewrite Hk, Hn, (proj2 (Z.leb_le _ _)) by lia.
    destruct (expand_grows 1 k ltac:(lia) Hk) as [? Hg]. specialize (Hg n Hn).
    eexists. split; [done|]. split_and!; [|done|cbn; lia]. split_and!; [done|cbn; lia|cbn; lia].
Qed.

Lemma pushes_spec es : ∀ a, pushed a → Z.of_nat (List.length (elems a) + List.length es) ≤ 2 ^ 20 →
  ops_spec (PushBack <$> es) a = Some (Ok []).
Proof.
  induction es as [|e es IH]; intros a Ha Hlen; [done|]. rewrite fmap_cons. cbn [ops_spec op_spec List.length] in *.
  destruct (grown_ok a Ha ltac:(lia)) as (a'&Hg&Ha'&He&Hlt). unfold with_capacity. rewrite (proj1 Ha).
  unfold grown_with. rewrite Hg, He, (proj2 (Z.ltb_lt _ _)), IH; [done| | |done].
  - destruct Ha' as (?&?&?). split_and!; [done| |done]. cbn [with_elems elems cells]. rewrite length_app. cbn [List.length]. lia.
  - cbn [with_elems elems]. rewrite length_app. cbn [List.length]. lia.
Qed.

Lemma insertions_ok j s : 0 ≤ j ≤ INSERT_SIZE → heap s = ∅ → ∃ s', insertions malloc j s = Ok (tt, s') ∧ heap s' = ∅.
Proof.
  intros Hj Hs. unfold insertions. rewrite (bind_ok _ _ _ _ _ (modify_run _ _)), Hs. unfold INSERT_SIZE, INSERT_BASE in *.
  pose proof (stack_size_fits 1 ltac:(lia)) as Hst.
  pose proof (v_repr 1 [] ltac:(lia) ltac:(cbn; lia)) as HR.
  pose proof (pushes_spec (seqZ 0 (j + 1024)) (mk_array [] (STACK_SIZE 1) None)
    ltac:(split_and!; [done|cbn; lia|done]) ltac:(rewrite length_seqZ; cbn; lia)) as Hspec.
  destruct (run_ops_spec malloc 4 ltac:(lia) _ _ _ _ HR Hspec) as (s'&Hrun&Hh).
  rewrite (bind_ok _ _ _ _ _ Hrun). by exists s'.
Qed.

Lemma benchmark_loop_ok n : ∀ j s, 0 ≤ j → j + Z.of_nat n * INSERT_STEP ≤ INSERT_SIZE → heap s = ∅ →
  ∃ s', benchmark_loop malloc n j s = Ok (tt, s') ∧ heap s' = ∅.
Proof.
  induction n as [|n IH]; intros j s Hj Hn Hs; [by exists s|]. cbn [benchmark_loop]. unfold INSERT_STEP in *.
  destruct (insertions_ok j s ltac:(lia) Hs) as (s1&Hrun&Hs1). rewrite (bind_ok _ _ _ _ _ Hrun). apply IH; lia || done.
Qed.

Lemma vec_benchmark_ok s : heap s = ∅ → ∃ s', benchmark malloc s = Ok (tt, s') ∧ heap s' = ∅.
Proof.
  intros Hs. unfold benchmark. set (round := benchmark_loop _ _ _).
  assert (∀ s, heap s = ∅ → ∃ s', round s = Ok (tt, s') ∧ heap s' = ∅) as Hround.
  { intros u Hu. by apply benchmark_loop_ok; [|vm_compute|]. }
  clearbody round.
  destruct (Hround s Hs) as (s1&R1&E1). rewrite (bind_ok _ _ _ _ _ R1).
  destruct (Hround s1 E1) as (s2&R2&E2). rewrite (bind_ok _ _ _ _ _ R2).
  destruct (Hround s2 E2) as (s3&R3&E3). rewrite (bind_ok _ _ _ _ _ R3).
  destruct (Hround s3 E3) as (s4&R4&E4). rewrite (bind_ok _ _ _ _ _ R4).
  by apply Hround.
Qed.
End refinement.

(** ** What the program prints *)

Definition hundreds : list Z := [0; 100; 200; 300; 400].

(** [capacity] is the capacity of [vec2] after the reservation; the first [n] insertions
    into [vec3] leave it on the stack. *)
Definition check_output (capacity : Z) (n : nat) : list line :=
  [Numbers [13; 42]; Numbers [4; capacity]; Numbers [88]] ++
  ((λ i, Elements (take i [0; 110; 220; 330; 440; 550]) false) <$> [0; 1; 2; 3; 4]%nat) ++
  ((λ i, Elements (take i [0; 110; 220; 330; 440; 550]) true) <$> [5; 6; 5; 4; 3; 2; 1; 0]%nat) ++
  ((λ i, Elements (take i hundreds ++ [9999]) (n <? i)%nat) <$> seq 1 5) ++
  ((λ i, Elements (0 :: reverse (take i hundreds) ++ drop 1 hundreds ++ [9999]) true) <$> seq 1 5) ++
  ((λ i, Elements (0 :: drop i (reverse hundreds ++ drop 1 hundreds ++ [9999])) true) <$> seq 1 9).

Definition outcome (capacity : Z) (n : nat) (option : string) : Z * list line :=
  if String.eqb option "check" then (0, check_output capacity n)
  else if String.eqb option "benchmark" then (0, []) else (1, []).

Definition released (u : triple state) : Prop := heap (vec1 u) = ∅ ∧ heap (vec2 u) = ∅ ∧ heap (vec3 u) = ∅.

Lemma main_ok `{GrowthLaws, !Doubling} malloc capacity n t name option rest : 2 ≤ STACK_SIZE 2 →
  stmts_spec check_stmts declared_arrays = Some (check_output capacity n, t) →
  ∃ u, main malloc (name :: option :: rest) declared = Ok (outcome capacity n option, u) ∧ released u.
Proof.
  intros Hst Hspec. unfold main, outcome. destruct (String.eqb option "check").
  - destruct (vec_check_ok malloc declared _ t Hst Hspec) as (u&Hrun&Hu). rewrite (bind_ok _ _ _ _ _ Hrun). by exists u.
  - destruct (String.eqb option "benchmark"); [|by exists declared].
    destruct (vec_benchmark_ok malloc (get Vec1 declared) eq_refl) as (s&Hrun&Hs).
    rewrite (bind_ok _ _ _ _ _ (on_run Vec1 _ _ _ _ Hrun)). by eexists.
Qed.

(** The test program: for both ways to choose capacities and every [malloc] the
    program returns 0 for its two options and 1 for others, frees every block, and
    [check] prints the elements of dynamic arrays: the builds differ in the capacity
    after [vec_reserve(vec2, 100)], 128 or 72, and in when [vec3] leaves the stack. *)
Theorem xvec_program_passes (malloc : gmap Z (list cell) → Z) (name option : string) (rest : list string) :
  (∃ u, main (H := powers_of_two) malloc (name :: option :: rest) (declared (H := powers_of_two)) = Ok (outcome 128 1 option, u) ∧ released u) ∧
  (∃ u, main (H := pow_factor) malloc (name :: option :: rest) (declared (H := pow_factor)) = Ok (outcome 72 3 option, u) ∧ released u).
Proof.
  split.
  - eapply (main_ok (H := powers_of_two)); [done|by vm_compute].
  - eapply (main_ok (H := pow_factor)); [done|by vm_compute].
Qed.
