(* ===== verification/Coroutine.v ===== *)
(** * The stackless coroutines of coroutine/coroutine.c

    A subroutine is a [switch] on the continuation that its caller keeps: a
    number of a line, [ASYNC_INIT] or [ASYNC_DONE].  [producer] and [consumer]
    are modelled with their entry points, the start of the function and the
    line of their [await_sem]; [driver_thread] and [main] call them as the
    program does.  The operands of [&] in [driver_thread] may be evaluated in
    either order, which is an argument of the model. *)
From S2P Require Import Prelude.
From stdpp Require Import gmap list.
#[local] Open Scope Z_scope.
#[local] Open Scope c_scope.

(** What the program prints. *)
Inductive event :=
| Produced (item : Z)
| Added (item place : Z)
| Retrieved (item place : Z)
| Consumed (item : Z).

(** The static variables of the program, and its output. *)
Record state := mk_state {
  buffer : list Z;
  bufptr : Z;
  item : Z;
  full : Z;
  empty_ : Z;
  produced : Z;
  consumed : Z;
  cr_producer : Z;
  cr_consumer : Z;
  driver_pt : Z;
  output : list event;
}.

Definition set_buffer x := modify (λ s, mk_state x (bufptr s) (item s) (full s) (empty_ s) (produced s) (consumed s) (cr_producer s) (cr_consumer s) (driver_pt s) (output s)).
Definition set_bufptr x := modify (λ s, mk_state (buffer s) x (item s) (full s) (empty_ s) (produced s) (consumed s) (cr_producer s) (cr_consumer s) (driver_pt s) (output s)).
Definition set_item x := modify (λ s, mk_state (buffer s) (bufptr s) x (full s) (empty_ s) (produced s) (consumed s) (cr_producer s) (cr_consumer s) (driver_pt s) (output s)).
Definition set_full x := modify (λ s, mk_state (buffer s) (bufptr s) (item s) x (empty_ s) (produced s) (consumed s) (cr_producer s) (cr_consumer s) (driver_pt s) (output s)).
Definition set_empty x := modify (λ s, mk_state (buffer s) (bufptr s) (item s) (full s) x (produced s) (consumed s) (cr_producer s) (cr_consumer s) (driver_pt s) (output s)).
Definition set_produced x := modify (λ s, mk_state (buffer s) (bufptr s) (item s) (full s) (empty_ s) x (consumed s) (cr_producer s) (cr_consumer s) (driver_pt s) (output s)).
Definition set_consumed x := modify (λ s, mk_state (buffer s) (bufptr s) (item s) (full s) (empty_ s) (produced s) x (cr_producer s) (cr_consumer s) (driver_pt s) (output s)).
Definition set_cr_producer x := modify (λ s, mk_state (buffer s) (bufptr s) (item s) (full s) (empty_ s) (produced s) (consumed s) x (cr_consumer s) (driver_pt s) (output s)).
Definition set_cr_consumer x := modify (λ s, mk_state (buffer s) (bufptr s) (item s) (full s) (empty_ s) (produced s) (consumed s) (cr_producer s) x (driver_pt s) (output s)).
Definition set_driver_pt x := modify (λ s, mk_state (buffer s) (bufptr s) (item s) (full s) (empty_ s) (produced s) (consumed s) (cr_producer s) (cr_consumer s) x (output s)).
Definition print (e : event) := modify (λ s, mk_state (buffer s) (bufptr s) (item s) (full s) (empty_ s) (produced s) (consumed s) (cr_producer s) (cr_consumer s) (driver_pt s) (output s ++ [e])).

Definition ASYNC_INIT : Z := 0.
Definition ASYNC_DONE : Z := -1.
Definition async_done (kcont : Z) : bool := kcont =? ASYNC_DONE.

(** [__LINE__] of the three waits. *)
Definition PRODUCER_WAIT : Z := 142.
Definition CONSUMER_WAIT : Z := 157.
Definition DRIVER_WAIT : Z := 176.

(** [buffer[p]] *)
Definition load_place (p : Z) : M state Z :=
  gets_some (λ s, if 0 <=? p then buffer s !! Z.to_nat p else None).
Definition store_place (p x : Z) : M state unit :=
  b ← gets buffer;
  if (0 <=? p) && (p <? Z.of_nat (length b)) then set_buffer (<[Z.to_nat p := x]> b) else fail Undefined.

Section program.
Context (NUM_ITEMS BUFSIZE : Z).

Definition add_to_buffer (x : Z) : M state unit :=
  p ← gets bufptr;
  print (Added x p) ;;
  store_place p x ;;
  set_bufptr (Z.rem (p + 1) BUFSIZE).

Definition get_from_buffer : M state Z :=
  p ← gets bufptr;
  x ← load_place p;
  print (Retrieved x p) ;;
  set_bufptr (Z.rem (p + 1) BUFSIZE) ;;
  ret x.

Definition produce_item : M state Z :=
  x ← gets item;
  print (Produced x) ;;
  set_item (x + 1) ;;
  ret x.

Definition consume_item (x : Z) : M state unit := print (Consumed x).

(** [producer] from the test of its loop, and from its wait. *)
Fixpoint producer_loop (fuel : nat) : M state Z :=
  match fuel with
  | O => fail Exhausted
  | S fuel =>
      n ← gets produced;
      if n <? NUM_ITEMS then producer_wait fuel else ret ASYNC_DONE
  end
with producer_wait (fuel : nat) : M state Z :=
  match fuel with
  | O => fail Exhausted
  | S fuel =>
      c ← gets full;
      if negb (0 <? c) then ret PRODUCER_WAIT
      else
        set_full (u32 (c - 1)) ;;
        x ← produce_item;
        add_to_buffer x ;;
        e ← gets empty_;
        set_empty (u32 (e + 1)) ;;
        n ← gets produced;
        set_produced (n + 1) ;;
        producer_loop fuel
  end.

Definition producer (fuel : nat) (kcont : Z) : M state Z :=
  if kcont =? ASYNC_INIT then set_produced 0 ;; producer_loop fuel
  else if kcont =? PRODUCER_WAIT then producer_wait fuel
  else ret ASYNC_DONE.

(** [consumer] from the test of its loop, and from its wait. *)
Fixpoint consumer_loop (fuel : nat) : M state Z :=
  match fuel with
  | O => fail Exhausted
  | S fuel =>
      n ← gets consumed;
      if n <? NUM_ITEMS then consumer_wait fuel else ret ASYNC_DONE
  end
with consumer_wait (fuel : nat) : M state Z :=
  match fuel with
  | O => fail Exhausted
  | S fuel =>
      c ← gets empty_;
      if negb (0 <? c) then ret CONSUMER_WAIT
      else
        set_empty (u32 (c - 1)) ;;
        x ← get_from_buffer;
        consume_item x ;;
        f ← gets full;
        set_full (u32 (f + 1)) ;;
        n ← gets consumed;
        set_consumed (n + 1) ;;
        consumer_loop fuel
  end.

Definition consumer (fuel : nat) (kcont : Z) : M state Z :=
  if kcont =? ASYNC_INIT then set_consumed 0 ;; consumer_loop fuel
  else if kcont =? CONSUMER_WAIT then consumer_wait fuel
  else ret ASYNC_DONE.

(** [producer(&cr_producer) & consumer(&cr_consumer)]: neither call stores the
    continuation that it returns.  [left_first]: the order of evaluation. *)
Definition both (fuel : nat) (left_first : bool) : M state Z :=
  if left_first then
    k ← gets cr_producer;
    p ← producer fuel k;
    k ← gets cr_consumer;
    c ← consumer fuel k;
    ret (Z.land p c)
  else
    k ← gets cr_consumer;
    c ← consumer fuel k;
    k ← gets cr_producer;
    p ← producer fuel k;
    ret (Z.land p c).

Definition driver_wait (fuel : nat) (left_first : bool) : M state Z :=
  r ← both fuel left_first;
  if negb (truthy r) then ret DRIVER_WAIT else ret ASYNC_DONE.

Definition driver_thread (fuel : nat) (left_first : bool) (kcont : Z) : M state Z :=
  if kcont =? ASYNC_INIT then
    set_empty 0 ;;
    set_full (u32 BUFSIZE) ;;
    set_cr_producer ASYNC_INIT ;;
    set_cr_consumer ASYNC_INIT ;;
    driver_wait fuel left_first
  else if kcont =? DRIVER_WAIT then driver_wait fuel left_first
  else ret ASYNC_DONE.

(** [async_call(driver_thread, &driver_pt)] *)
Definition async_call_driver (fuel : nat) (left_first : bool) : M state bool :=
  k ← gets driver_pt;
  if async_done k then ret true
  else
    k ← driver_thread fuel left_first k;
    set_driver_pt k ;;
    ret (k =? ASYNC_DONE).

(** The loop of [main]; [rounds] bounds its iterations. *)
Fixpoint main_loop (rounds fuel : nat) (left_first : bool) : M state unit :=
  match rounds with
  | O => fail Exhausted
  | S rounds =>
      done ← async_call_driver fuel left_first;
      if done then ret tt else main_loop rounds fuel left_first
  end.

Definition main (rounds fuel : nat) (left_first : bool) : M state unit :=
  set_driver_pt ASYNC_INIT ;;
  main_loop rounds fuel left_first.

(** [async_call(producer, &cr_producer)] and [async_call(consumer,
    &cr_consumer)], which store the continuation. *)
Definition async_call_producer (fuel : nat) : M state bool :=
  k ← gets cr_producer;
  if async_done k then ret true
  else
    k ← producer fuel k;
    set_cr_producer k ;;
    ret (k =? ASYNC_DONE).

Definition async_call_consumer (fuel : nat) : M state bool :=
  k ← gets cr_consumer;
  if async_done k then ret true
  else
    k ← consumer fuel k;
    set_cr_consumer k ;;
    ret (k =? ASYNC_DONE).

(** Static variables start as zero. *)
Definition start : state := mk_state (replicate (Z.to_nat BUFSIZE) 0) 0 0 0 0 0 0 0 0 0 [].
End program.

(** ** Batches

    When the buffer is empty, a call of [producer] fills it, and when it is full
    a call of [consumer] empties it. *)

Definition produce (base i : Z) : list event := [Produced (base + i); Added (base + i) i].
Definition consume (base i : Z) : list event := [Retrieved (base + i) i; Consumed (base + i)].

(** The output for a batch of items from [base] on. *)
Definition produce_batch (BUFSIZE base : Z) : list event := concat (produce base <$> seqZ 0 BUFSIZE).
Definition consume_batch (BUFSIZE base : Z) : list event := concat (consume base <$> seqZ 0 BUFSIZE).

Section batches.
Context (NUM_ITEMS BUFSIZE : Z).
Context (HB : 0 < BUFSIZE < 2 ^ 31).

(** [i] items of the batch are in the buffer. *)
Definition filling (buf : list Z) (base i c kp kc kd : Z) (out : list event) : state :=
  mk_state (seqZ base i ++ drop (Z.to_nat i) buf) (i mod BUFSIZE) (base + i) (BUFSIZE - i) i (base + i) c kp kc kd out.

(** [i] items of the batch have been taken out of the buffer. *)
Definition emptying (base i p kp kc kd : Z) (out : list event) : state :=
  mk_state (seqZ base BUFSIZE) (i mod BUFSIZE) p i (BUFSIZE - i) p (base + i) kp kc kd out.

Lemma bufptr_step i : 0 ≤ i < BUFSIZE → Z.rem (i mod BUFSIZE + 1) BUFSIZE = (i + 1) mod BUFSIZE.
Proof. intros Hi. rewrite (Z.mod_small i) by done. apply Z.rem_mod_nonneg; lia. Qed.

Lemma insert_seqZ base i (buf : list Z) : 0 ≤ i < Z.of_nat (length buf) →
  <[Z.to_nat i := base + i]> (seqZ base i ++ drop (Z.to_nat i) buf) = seqZ base (i + 1) ++ drop (Z.to_nat (i + 1)) buf.
Proof.
  intros Hi. rewrite insert_app_r_alt by (rewrite length_seqZ; lia). rewrite length_seqZ, Nat.sub_diag.
  destruct (lookup_lt_is_Some_2 buf (Z.to_nat i) ltac:(lia)) as [y Hy]. rewrite (drop_S _ _ _ Hy). cbn [insert list_insert].
  rewrite seqZ_app by lia. rewrite <- app_assoc. replace (Z.to_nat (i + 1)) with (S (Z.to_nat i)) by lia. done.
Qed.

Lemma producer_loop_S fuel : producer_loop NUM_ITEMS BUFSIZE (S fuel) =
  (n ← gets produced; if n <? NUM_ITEMS then producer_wait NUM_ITEMS BUFSIZE fuel else ret ASYNC_DONE).
Proof. done. Qed.

Lemma producer_wait_S fuel : producer_wait NUM_ITEMS BUFSIZE (S fuel) =
  (c ← gets full;
   if negb (0 <? c) then ret PRODUCER_WAIT
   else
     set_full (u32 (c - 1)) ;;
     x ← produce_item;
     add_to_buffer BUFSIZE x ;;
     e ← gets empty_;
     set_empty (u32 (e + 1)) ;;
     n ← gets produced;
     set_produced (n + 1) ;;
     producer_loop NUM_ITEMS BUFSIZE fuel).
Proof. done. Qed.

Lemma consumer_loop_S fuel : consumer_loop NUM_ITEMS BUFSIZE (S fuel) =
  (n ← gets consumed; if n <? NUM_ITEMS then consumer_wait NUM_ITEMS BUFSIZE fuel else ret ASYNC_DONE).
Proof. done. Qed.

Lemma consumer_wait_S fuel : consumer_wait NUM_ITEMS BUFSIZE (S fuel) =
  (c ← gets empty_;
   if negb (0 <? c) then ret CONSUMER_WAIT
   else
     set_empty (u32 (c - 1)) ;;
     x ← get_from_buffer BUFSIZE;
     consume_item x ;;
     f ← gets full;
     set_full (u32 (f + 1)) ;;
     n ← gets consumed;
     set_consumed (n + 1) ;;
     consumer_loop NUM_ITEMS BUFSIZE fuel).
Proof. done. Qed.

Lemma producer_step fuel buf base i c kp kc kd out : length buf = Z.to_nat BUFSIZE → 0 ≤ i < BUFSIZE →
  producer_wait NUM_ITEMS BUFSIZE (S fuel) (filling buf base i c kp kc kd out) =
  producer_loop NUM_ITEMS BUFSIZE fuel (filling buf base (i + 1) c kp kc kd (out ++ produce base i)).
Proof.
  intros Hbuf Hi. rewrite producer_wait_S. generalize (producer_loop NUM_ITEMS BUFSIZE fuel). intros loop. unfold bind at 1, gets at 1. cbn [full filling]. rewrite (proj2 (Z.ltb_lt _ _)) by lia. cbn [negb].
  unfold produce_item, add_to_buffer, store_place, print, set_full, set_item, set_buffer, set_bufptr, set_empty, set_produced, bind, gets, modify, ret.
  cbn [buffer bufptr item full empty_ produced consumed cr_producer cr_consumer driver_pt output filling].
  rewrite bufptr_step by done. rewrite (Z.mod_small i), (proj2 (Z.leb_le _ _)), (proj2 (Z.ltb_lt _ _)) by (rewrite ?length_app, ?length_seqZ, ?length_drop; lia).
  cbn [andb]. rewrite insert_seqZ by lia. cbn [buffer bufptr item full empty_ produced consumed cr_producer cr_consumer driver_pt output].
  rewrite !wrapu_small by lia. unfold filling. rewrite <- app_assoc, !Z.add_assoc, Z.sub_add_distr. done.
Qed.

Lemma consumer_step fuel base i p kp kc kd out : 0 ≤ i < BUFSIZE →
  consumer_wait NUM_ITEMS BUFSIZE (S fuel) (emptying base i p kp kc kd out) =
  consumer_loop NUM_ITEMS BUFSIZE fuel (emptying base (i + 1) p kp kc kd (out ++ consume base i)).
Proof.
  intros Hi. rewrite consumer_wait_S. generalize (consumer_loop NUM_ITEMS BUFSIZE fuel). intros loop. unfold bind at 1, gets at 1. cbn [empty_ emptying]. rewrite (proj2 (Z.ltb_lt _ _)) by lia. cbn [negb].
  unfold get_from_buffer, load_place, consume_item, print, gets_some, set_empty, set_bufptr, set_full, set_consumed, bind, gets, modify, ret.
  cbn [buffer bufptr item full empty_ produced consumed cr_producer cr_consumer driver_pt output emptying].
  rewrite bufptr_step by done. rewrite (Z.mod_small i), (proj2 (Z.leb_le _ _)) by lia.
  rewrite (proj2 (lookup_seqZ _ _ _ (base + i))) by lia.
  cbn [buffer bufptr item full empty_ produced consumed cr_producer cr_consumer driver_pt output].
  rewrite !wrapu_small by lia. unfold emptying. rewrite <- app_assoc, !Z.add_assoc, Z.sub_add_distr. done.
Qed.

(** What a call returns: there are more items, or not. *)
Definition after_batch (base wait : Z) : Z := if base + BUFSIZE <? NUM_ITEMS then wait else ASYNC_DONE.

Lemma concat_snoc {A} (f : Z → list A) i m : 0 ≤ m →
  f i ++ concat (f <$> seqZ (i + 1) m) = concat (f <$> seqZ i (m + 1)).
Proof. intros Hm. rewrite (seqZ_cons i) by lia. by replace (Z.pred (m + 1)) with m by lia. Qed.

Lemma producer_batch m fuel buf base i c kp kc kd out : length buf = Z.to_nat BUFSIZE →
  i + Z.of_nat m = BUFSIZE → 0 ≤ i → base + BUFSIZE ≤ NUM_ITEMS → (2 * m + 2 ≤ fuel)%nat →
  producer_loop NUM_ITEMS BUFSIZE fuel (filling buf base i c kp kc kd out) =
  Ok (after_batch base PRODUCER_WAIT, filling buf base BUFSIZE c kp kc kd (out ++ concat (produce base <$> seqZ i (Z.of_nat m)))).
Proof.
  intros Hbuf. unfold after_batch. revert fuel i out. induction m as [|m IH]; intros fuel i out Hm Hi Hn Hf.
  - destruct fuel as [|[|fuel]]; [lia..|]. assert (i = BUFSIZE) as -> by lia.
    rewrite producer_loop_S, (bind_ok _ _ _ _ _ (gets_run _ _)). cbn [produced filling seqZ]. rewrite app_nil_r.
    destruct (base + BUFSIZE <? NUM_ITEMS); [|done]. rewrite producer_wait_S, (bind_ok _ _ _ _ _ (gets_run _ _)).
    cbn [full filling]. by rewrite Z.sub_diag.
  - destruct fuel as [|[|fuel]]; [lia..|]. rewrite producer_loop_S, (bind_ok _ _ _ _ _ (gets_run _ _)).
    cbn [produced filling]. rewrite (proj2 (Z.ltb_lt _ _)) by lia. rewrite producer_step, IH by lia.
    rewrite <- app_assoc, concat_snoc by lia. by replace (Z.of_nat m + 1) with (Z.of_nat (S m)) by lia.
Qed.

Lemma consumer_batch m fuel base i p kp kc kd out :
  i + Z.of_nat m = BUFSIZE → 0 ≤ i → base + BUFSIZE ≤ NUM_ITEMS → (2 * m + 2 ≤ fuel)%nat →
  consumer_loop NUM_ITEMS BUFSIZE fuel (emptying base i p kp kc kd out) =
  Ok (after_batch base CONSUMER_WAIT, emptying base BUFSIZE p kp kc kd (out ++ concat (consume base <$> seqZ i (Z.of_nat m)))).
Proof.
  unfold after_batch. revert fuel i out. induction m as [|m IH]; intros fuel i out Hm Hi Hn Hf.
  - destruct fuel as [|[|fuel]]; [lia..|]. assert (i = BUFSIZE) as -> by lia.
    rewrite consumer_loop_S, (bind_ok _ _ _ _ _ (gets_run _ _)). cbn [consumed emptying seqZ]. rewrite app_nil_r.
    destruct (base + BUFSIZE <? NUM_ITEMS); [|done]. rewrite consumer_wait_S, (bind_ok _ _ _ _ _ (gets_run _ _)).
    cbn [empty_ emptying]. by rewrite Z.sub_diag.
  - destruct fuel as [|[|fuel]]; [lia..|]. rewrite consumer_loop_S, (bind_ok _ _ _ _ _ (gets_run _ _)).
    cbn [consumed emptying]. rewrite (proj2 (Z.ltb_lt _ _)) by lia. rewrite consumer_step, IH by lia.
    rewrite <- app_assoc, concat_snoc by lia. by replace (Z.of_nat m + 1) with (Z.of_nat (S m)) by lia.
Qed.

Lemma filling_full buf base kp kc kd out : length buf = Z.to_nat BUFSIZE →
  filling buf base BUFSIZE base kp kc kd out = emptying base 0 (base + BUFSIZE) kp kc kd out.
Proof.
  intros Hbuf. unfold filling, emptying. rewrite drop_ge, app_nil_r by lia. rewrite Z.mod_same, Z.mod_0_l by lia.
  by rewrite Z.sub_diag, Z.sub_0_r, Z.add_0_r.
Qed.

Lemma emptying_empty base kp kc kd out :
  emptying base BUFSIZE (base + BUFSIZE) kp kc kd out = filling (seqZ base BUFSIZE) (base + BUFSIZE) 0 (base + BUFSIZE) kp kc kd out.
Proof.
  unfold filling, emptying. rewrite Z.mod_same, Z.mod_0_l by lia. by rewrite Z.sub_diag, Z.sub_0_r, Z.add_0_r.
Qed.

(** *** Calls of the subroutines *)

(** A call of [producer] at the start of a batch, the first one or a resumed one. *)
Lemma producer_call fuel buf base c k kp kc kd out : length buf = Z.to_nat BUFSIZE → 0 ≤ base →
  base + BUFSIZE ≤ NUM_ITEMS → (2 * Z.to_nat BUFSIZE + 3 ≤ fuel)%nat →
  k = (if base =? 0 then ASYNC_INIT else PRODUCER_WAIT) →
  producer NUM_ITEMS BUFSIZE fuel k (filling buf base 0 c kp kc kd out) =
  Ok (after_batch base PRODUCER_WAIT, filling buf base BUFSIZE c kp kc kd (out ++ produce_batch BUFSIZE base)).
Proof.
  intros Hbuf Hb Hn Hf ->. unfold producer, produce_batch. rewrite <- (Z2Nat.id BUFSIZE) at 3 by lia. destruct (Z.eqb_spec base 0) as [->|Hne].
  - rewrite Z.eqb_refl. unfold set_produced. rewrite (bind_ok _ _ _ _ _ (modify_run _ _)).
    apply (producer_batch (Z.to_nat BUFSIZE) fuel buf 0 0); lia.
  - change (PRODUCER_WAIT =? ASYNC_INIT) with false. rewrite Z.eqb_refl.
    pose proof (producer_batch (Z.to_nat BUFSIZE) (S fuel) buf base 0 c kp kc kd out Hbuf) as H. rewrite producer_loop_S, (bind_ok _ _ _ _ _ (gets_run _ _)) in H. cbn [produced filling] in H. rewrite (proj2 (Z.ltb_lt _ _)) in H by lia.
    apply H; lia.
Qed.

Lemma consumer_call fuel base p k kp kc kd out : 0 ≤ base →
  base + BUFSIZE ≤ NUM_ITEMS → (2 * Z.to_nat BUFSIZE + 3 ≤ fuel)%nat →
  k = (if base =? 0 then ASYNC_INIT else CONSUMER_WAIT) →
  consumer NUM_ITEMS BUFSIZE fuel k (emptying base 0 p kp kc kd out) =
  Ok (after_batch base CONSUMER_WAIT, emptying base BUFSIZE p kp kc kd (out ++ consume_batch BUFSIZE base)).
Proof.
  intros Hb Hn Hf ->. unfold consumer, consume_batch. rewrite <- (Z2Nat.id BUFSIZE) at 3 by lia. destruct (Z.eqb_spec base 0) as [->|Hne].
  - rewrite Z.eqb_refl. unfold set_consumed. rewrite (bind_ok _ _ _ _ _ (modify_run _ _)).
    apply (consumer_batch (Z.to_nat BUFSIZE) fuel 0 0); lia.
  - change (CONSUMER_WAIT =? ASYNC_INIT) with false. rewrite Z.eqb_refl.
    pose proof (consumer_batch (Z.to_nat BUFSIZE) (S fuel) base 0 p kp kc kd out) as H. rewrite consumer_loop_S, (bind_ok _ _ _ _ _ (gets_run _ _)) in H. cbn [consumed emptying] in H. rewrite (proj2 (Z.ltb_lt _ _)) in H by lia.
    apply H; lia.
Qed.
End batches.

(** ** The program *)

Section main.
Context (NUM_ITEMS BUFSIZE : Z).
Context (HB : 0 < BUFSIZE < 2 ^ 31) (HN : BUFSIZE ≤ NUM_ITEMS).

(** The state when [driver_thread] reaches its wait. *)
Definition ready : state := filling BUFSIZE (replicate (Z.to_nat BUFSIZE) 0) 0 0 0 0 0 0 [].

Lemma after_batch_wait base wait : wait ≠ 0 → after_batch NUM_ITEMS BUFSIZE base wait ≠ 0.
Proof. intros Hw. unfold after_batch. by destruct (_ <? _). Qed.

Lemma both_run fuel left_first : (2 * Z.to_nat BUFSIZE + 3 ≤ fuel)%nat →
  ∃ r s, both NUM_ITEMS BUFSIZE fuel left_first ready = Ok (r, s) ∧ r ≠ 0 ∧
    output s = produce_batch BUFSIZE 0 ++ (if left_first then consume_batch BUFSIZE 0 else []) ∧ produced s = BUFSIZE.
Proof.
  intros Hf. assert (length (replicate (Z.to_nat BUFSIZE) 0) = Z.to_nat BUFSIZE) as Hl by apply length_replicate.
  pose proof (producer_call NUM_ITEMS BUFSIZE HB fuel _ 0 0 ASYNC_INIT 0 0 0 [] Hl ltac:(lia) ltac:(lia) Hf eq_refl) as Hp.
  unfold both, ready. destruct left_first; rewrite (bind_ok _ _ _ _ _ (gets_run _ _)); cbn [cr_producer cr_consumer filling].
  - rewrite (bind_ok _ _ _ _ _ Hp), (bind_ok _ _ _ _ _ (gets_run _ _)). cbn [cr_consumer filling].
    rewrite filling_full by done.
    rewrite (bind_ok _ _ _ _ _ (consumer_call NUM_ITEMS BUFSIZE HB fuel 0 _ ASYNC_INIT 0 0 0 _ ltac:(lia) ltac:(lia) Hf eq_refl)).
    eexists _, _. split; [done|]. split; [|done]. unfold after_batch. by destruct (_ <? _).
  - assert (consumer NUM_ITEMS BUFSIZE fuel 0 ready = Ok (CONSUMER_WAIT, ready)) as Hc.
    { unfold consumer. cbn [Z.eqb ASYNC_INIT]. unfold set_consumed. rewrite (bind_ok _ _ _ _ _ (modify_run _ _)).
      destruct fuel as [|[|fuel]]; [lia..|]. rewrite consumer_loop_S, (bind_ok _ _ _ _ _ (gets_run _ _)). cbn [consumed].
      rewrite (proj2 (Z.ltb_lt _ _)) by lia. by rewrite consumer_wait_S, (bind_ok _ _ _ _ _ (gets_run _ _)). }
    rewrite (bind_ok _ _ _ _ _ Hc), (bind_ok _ _ _ _ _ (gets_run _ _)). cbn [cr_producer filling ready]. rewrite (bind_ok _ _ _ _ _ Hp).
    eexists _, _. split; [done|]. rewrite app_nil_r. split; [|done]. unfold after_batch. by destruct (_ <? _).
Qed.

(** The program ends after one call of each subroutine and a single batch
    of items: [driver_thread] neither stores the continuations that [producer]
    and [consumer] return nor tests for their end, and the [&] of two numbers
    of lines (142 and 157) is not 0.  Only [BUFSIZE] of the [NUM_ITEMS] items
    are produced; they are all consumed in order if the compiler calls the
    producer first, and none is if it calls the consumer first. *)
Theorem main_one_batch rounds fuel left_first : (2 * Z.to_nat BUFSIZE + 3 ≤ fuel)%nat →
  ∃ s, main NUM_ITEMS BUFSIZE (S rounds) fuel left_first (start BUFSIZE) = Ok (tt, s) ∧
    output s = produce_batch BUFSIZE 0 ++ (if left_first then consume_batch BUFSIZE 0 else []) ∧ produced s = BUFSIZE.
Proof.
  intros Hf. destruct (both_run fuel left_first Hf) as (r&s&Hb&Hr&Ho&Hp).
  assert (driver_thread NUM_ITEMS BUFSIZE fuel left_first ASYNC_INIT (start BUFSIZE) = Ok (ASYNC_DONE, s)) as Hd.
  { unfold driver_thread, driver_wait, set_empty, set_full, set_cr_producer, set_cr_consumer, start. cbn [Z.eqb ASYNC_INIT].
    rewrite !(bind_ok (modify _) _ _ _ _ (modify_run _ _)).
    cbn [buffer bufptr item full empty_ produced consumed cr_producer cr_consumer driver_pt output].
    replace (mk_state _ _ _ _ _ _ _ _ _ _ _) with ready
      by (unfold ready, filling; rewrite Z.mod_0_l, wrapu_small, Z.sub_0_r by lia; done).
    rewrite (bind_ok _ _ _ _ _ Hb). unfold truthy. by rewrite (proj2 (Z.eqb_neq _ _) Hr). }
  unfold main, set_driver_pt. rewrite (bind_ok _ _ _ _ _ (modify_run _ _)). cbn [main_loop]. unfold async_call_driver.
  rewrite bind_assoc, (bind_ok _ _ _ _ _ (gets_run _ _)). cbn [driver_pt]. change (async_done ASYNC_INIT) with false. cbn iota.
  rewrite bind_assoc. fold (start BUFSIZE). rewrite (bind_ok _ _ _ _ _ Hd). eexists. split; [done|done].
Qed.
End main.

Example main_one_batch_witness :
  ∃ s, main 32 8 1 19 true (start 8) = Ok (tt, s) ∧ output s = produce_batch 8 0 ++ consume_batch 8 0 ∧ produced s = 8.
Proof. exact (main_one_batch 32 8 ltac:(lia) ltac:(lia) 0 19 true ltac:(vm_compute; lia)). Defined.

(** ** Continuations that are kept

    What the macros promise: with [async_call] a subroutine resumes at its
    wait, so that alternating calls deliver all items. *)

Section resumed.
Context (NUM_ITEMS BUFSIZE : Z).
Context (HB : 0 < BUFSIZE < 2 ^ 31).

(** [async_call(producer, &cr_producer) & async_call(consumer, &cr_consumer)] *)
Definition call_both (fuel : nat) : M state bool :=
  p ← async_call_producer NUM_ITEMS BUFSIZE fuel;
  c ← async_call_consumer NUM_ITEMS BUFSIZE fuel;
  ret (p && c).

(** Both subroutines are called until both are done; [rounds] bounds the
    iterations. *)
Fixpoint run_both (rounds fuel : nat) : M state unit :=
  match rounds with
  | O => fail Exhausted
  | S rounds =>
      done ← call_both fuel;
      if done then ret tt else run_both rounds fuel
  end.

(** The output for [r] batches from [base] on. *)
Fixpoint batches_output (base : Z) (r : nat) : list event :=
  match r with
  | O => []
  | S r => produce_batch BUFSIZE base ++ consume_batch BUFSIZE base ++ batches_output (base + BUFSIZE) r
  end.

Definition kcont_at (base wait : Z) : Z := if base =? 0 then ASYNC_INIT else wait.

Lemma round_run fuel buf base out : length buf = Z.to_nat BUFSIZE → 0 ≤ base → base + BUFSIZE ≤ NUM_ITEMS →
  (2 * Z.to_nat BUFSIZE + 3 ≤ fuel)%nat →
  call_both fuel (filling BUFSIZE buf base 0 base (kcont_at base PRODUCER_WAIT) (kcont_at base CONSUMER_WAIT) 0 out) =
  Ok (base + BUFSIZE =? NUM_ITEMS,
    filling BUFSIZE (seqZ base BUFSIZE) (base + BUFSIZE) 0 (base + BUFSIZE)
      (after_batch NUM_ITEMS BUFSIZE base PRODUCER_WAIT) (after_batch NUM_ITEMS BUFSIZE base CONSUMER_WAIT) 0
      (out ++ produce_batch BUFSIZE base ++ consume_batch BUFSIZE base)).
Proof.
  intros Hbuf Hb Hn Hf. unfold call_both, async_call_producer. rewrite bind_assoc, (bind_ok _ _ _ _ _ (gets_run _ _)). cbn [cr_producer filling].
  replace (async_done (kcont_at base PRODUCER_WAIT)) with false by (unfold kcont_at; by destruct (base =? 0)).
  rewrite bind_assoc, (bind_ok _ _ _ _ _ (producer_call NUM_ITEMS BUFSIZE HB fuel buf base base _ _ _ 0 out Hbuf Hb Hn Hf eq_refl)).
  rewrite filling_full by done. unfold set_cr_producer. rewrite bind_assoc, (bind_ok _ _ _ _ _ (modify_run _ _)).
  rewrite (bind_ok (ret _) _ _ _ _ (ret_run _ _)).
  unfold async_call_consumer. rewrite bind_assoc, (bind_ok _ _ _ _ _ (gets_run _ _)). cbn [cr_consumer emptying].
  replace (async_done (kcont_at base CONSUMER_WAIT)) with false by (unfold kcont_at; by destruct (base =? 0)).
  cbn [buffer bufptr item full empty_ produced consumed cr_producer cr_consumer driver_pt output emptying].
  fold (emptying BUFSIZE base 0 (base + BUFSIZE) (after_batch NUM_ITEMS BUFSIZE base PRODUCER_WAIT) (kcont_at base CONSUMER_WAIT) 0
    (out ++ produce_batch BUFSIZE base)).
  rewrite bind_assoc, (bind_ok _ _ _ _ _ (consumer_call NUM_ITEMS BUFSIZE HB fuel base _ _ _ _ 0 _ Hb Hn Hf eq_refl)).
  rewrite emptying_empty by done. unfold set_cr_consumer. rewrite bind_assoc, (bind_ok _ _ _ _ _ (modify_run _ _)).
  rewrite (bind_ok (ret _) _ _ _ _ (ret_run _ _)). rewrite <- app_assoc. unfold ret. apply (f_equal (λ b, Ok (b, _))).
  unfold after_batch. destruct (Z.ltb_spec (base + BUFSIZE) NUM_ITEMS).
  - by rewrite (proj2 (Z.eqb_neq (base + BUFSIZE) NUM_ITEMS)) by lia.
  - by rewrite (proj2 (Z.eqb_eq (base + BUFSIZE) NUM_ITEMS)) by lia.
Qed.

Lemma run_both_batches r fuel buf base out : length buf = Z.to_nat BUFSIZE → 0 ≤ base → (0 < r)%nat →
  base + BUFSIZE * Z.of_nat r = NUM_ITEMS → (2 * Z.to_nat BUFSIZE + 3 ≤ fuel)%nat →
  ∃ s, run_both r fuel
    (filling BUFSIZE buf base 0 base (kcont_at base PRODUCER_WAIT) (kcont_at base CONSUMER_WAIT) 0 out) = Ok (tt, s) ∧
  output s = out ++ batches_output base r ∧ cr_producer s = ASYNC_DONE ∧ cr_consumer s = ASYNC_DONE ∧ bufptr s = 0.
Proof.
  revert buf base out. induction r as [|r IH]; intros buf base out Hbuf Hb Hr Hn Hf; [lia|]. cbn [run_both batches_output].
  rewrite (bind_ok _ _ _ _ _ (round_run fuel buf base out Hbuf Hb ltac:(lia) Hf)). unfold after_batch.
  destruct (Z.eqb_spec (base + BUFSIZE) NUM_ITEMS) as [Heq|Hne].
  - assert (r = 0%nat) as -> by nia. rewrite (proj2 (Z.ltb_ge _ _)) by lia. eexists. split; [done|].
    cbn [batches_output output cr_producer cr_consumer bufptr filling]. rewrite app_nil_r. split_and!; [done..|]. by apply Z.mod_0_l; lia.
  - rewrite (proj2 (Z.ltb_lt _ _)) by nia.
    destruct (IH (seqZ base BUFSIZE) (base + BUFSIZE) (out ++ produce_batch BUFSIZE base ++ consume_batch BUFSIZE base))
      as (s&Hs&Ho&Hd); [by rewrite length_seqZ|lia|nia|lia|done|].
    unfold kcont_at in Hs. rewrite (proj2 (Z.eqb_neq (base + BUFSIZE) 0)) in Hs by lia. exists s. split; [exact Hs|].
    by rewrite Ho, <- !app_assoc.
Qed.
End resumed.

(** C22: a subroutine that is called with [async_call], which stores its
    continuation, resumes in the loop where it waited: calls of [producer] and
    [consumer] in turn, from the initial state, end with both done and have
    produced and consumed all items in order and in batches of the size of the
    buffer, when that divides their number. *)
Theorem async_call_delivers NUM_ITEMS BUFSIZE r fuel :
  0 < BUFSIZE < 2 ^ 31 → (0 < r)%nat → NUM_ITEMS = BUFSIZE * Z.of_nat r → (2 * Z.to_nat BUFSIZE + 3 ≤ fuel)%nat →
  ∃ s, run_both NUM_ITEMS BUFSIZE r fuel (ready BUFSIZE) = Ok (tt, s) ∧ output s = batches_output BUFSIZE 0 r ∧
    async_done (cr_producer s) = true ∧ async_done (cr_consumer s) = true.
Proof.
  intros HB Hr Hn Hf.
  destruct (run_both_batches NUM_ITEMS BUFSIZE HB r fuel (replicate (Z.to_nat BUFSIZE) 0) 0 []) as (s&Hs&Ho&Hp&Hc&_);
    [apply length_replicate|lia..|].
  exists s. by rewrite Hp, Hc.
Qed.

Example async_call_delivers_witness :
  ∃ s, run_both 32 8 4 19 (ready 8) = Ok (tt, s) ∧ output s = batches_output 8 0 4 ∧
    async_done (cr_producer s) = true ∧ async_done (cr_consumer s) = true.
Proof. exact (async_call_delivers 32 8 4 19 ltac:(lia) ltac:(lia) ltac:(lia) ltac:(vm_compute; lia)). Defined.
