(* ===== verification/SortTask.v ===== *)
(** * The task of user-level-thread/task_sched.c

    Every task of the program fills an array with the values of
    [random_shuffle], sorts it with [qsort_r] and [cmp_u32], and aborts when two
    neighbours are out of order.  [qsort_r] is a parameter with the contract of
    the C library. *)
From S2P Require Import Prelude.
From stdpp Require Import gmap list sorting.
#[local] Open Scope Z_scope.
#[local] Open Scope c_scope.

Definition cmp_u32 (x y : Z) : Z :=
  let diff := Z.lxor x y in
  if negb (truthy diff) then 0
  else
    let diff := Z.lor diff (Z.shiftr diff 1) in
    let diff := Z.lor diff (Z.shiftr diff 2) in
    let diff := Z.lor diff (Z.shiftr diff 4) in
    let diff := Z.lor diff (Z.shiftr diff 8) in
    let diff := Z.lor diff (Z.shiftr diff 16) in
    let diff := Z.lxor diff (Z.shiftr diff 1) in
    if truthy (Z.land x diff) then 1 else -1.

(** The constants are [unsigned long]. *)
Definition random_shuffle (x : Z) : Z :=
  let x := Z.lxor x (Z.shiftr x 16) in
  let x := u32 (u64 (x * 0x7feb352d)) in
  let x := Z.lxor x (Z.shiftr x 15) in
  let x := u32 (u64 (x * 0x846ca68b)) in
  Z.lxor x (Z.shiftr x 16).

(** [for (...) arr[i] = (r = random_shuffle(r));] *)
Fixpoint fill (n : nat) (r : Z) : list Z :=
  match n with
  | O => []
  | S n => let r := random_shuffle r in r :: fill n r
  end.

(** The loop over neighbours. *)
Fixpoint check_sorted (arr : list Z) : result unit :=
  match arr with
  | a :: (b :: _) as arr' => if b <? a then Err AssertFailed else check_sorted arr'
  | _ => Ok tt
  end.

Section task.
Context (qsort_r : (Z → Z → Z) → list Z → list Z) (ARR_SIZE : nat).

Definition sort (pid : Z) : result unit :=
  let arr := fill ARR_SIZE (u32 pid) in
  check_sorted (qsort_r cmp_u32 arr).
End task.

(** ** The comparison *)

(** The [w] highest of the bits up to [L] are set, and none above. *)
Definition smeared (L w e : Z) : Prop :=
  ∀ i, 0 ≤ i → (L < i → Z.testbit e i = false) ∧ (L - w < i ≤ L → Z.testbit e i = true).

Lemma smeared_step L w e : 0 ≤ w → smeared L w e → smeared L (2 * w) (Z.lor e (Z.shiftr e w)).
Proof.
  intros Hw H i Hi. rewrite Z.lor_spec, Z.shiftr_spec by done. destruct (H i Hi) as [H1 H2], (H (i + w) ltac:(lia)) as [H3 H4]. split.
  - intros Hl. by rewrite H1, H3 by lia.
  - intros Hl. destruct (Z.lt_ge_cases (L - w) i); [by rewrite H2 by lia|]. rewrite H4 by lia. apply orb_true_r.
Qed.

Lemma highest_bit L e : 0 ≤ L → smeared L (L + 1) e → Z.lxor e (Z.shiftr e 1) = 2 ^ L.
Proof.
  intros HL H. apply Z.bits_inj'. intros i Hi. rewrite Z.lxor_spec, Z.shiftr_spec, Z.pow2_bits_eqb by done.
  destruct (H i Hi) as [H1 H2], (H (i + 1) ltac:(lia)) as [H3 H4]. destruct (Z.eqb_spec L i) as [->|Hne].
  - by rewrite H2, H3 by lia.
  - destruct (Z.lt_ge_cases L i); [by rewrite H1, H3 by lia|by rewrite H2, H4 by lia].
Qed.

Lemma smeared_log2 d : 0 < d → smeared (Z.log2 d) 1 d.
Proof.
  intros Hd i Hi. split; [intros HL; by apply Z.bits_above_log2; lia|]. intros HL. replace i with (Z.log2 d) by lia. by apply Z.bit_log2.
Qed.

Lemma smeared_weaken L w w' e : w' ≤ w → smeared L w e → smeared L w' e.
Proof. intros Hw H i Hi. destruct (H i Hi) as [H1 H2]. split; [done|]. intros. apply H2. lia. Qed.

(** The highest bit in which two numbers differ decides their order. *)
Lemma highest_difference x y : 0 ≤ x → 0 ≤ y → x ≠ y →
  let L := Z.log2 (Z.lxor x y) in
  if Z.testbit x L then y < x else x < y.
Proof.
  intros Hx Hy Hne L. assert (0 < Z.lxor x y) as Hd.
  { assert (0 ≤ Z.lxor x y) by (by apply Z.lxor_nonneg). enough (Z.lxor x y ≠ 0) by lia. by intros ?%Z.lxor_eq. }
  pose proof (Z.log2_nonneg (Z.lxor x y)) as HL. fold L in HL.
  assert (Z.testbit (Z.lxor x y) L = true) as Hb by (by apply Z.bit_log2). rewrite Z.lxor_spec in Hb.
  assert (x / 2 ^ L / 2 = y / 2 ^ L / 2) as Hq.
  { rewrite !Z.div_div by lia. replace (2 ^ L * 2) with (2 ^ (L + 1)) by (rewrite Z.pow_add_r; lia). rewrite <- !Z.shiftr_div_pow2 by lia. apply Z.lxor_eq. rewrite <- Z.shiftr_lxor.
    apply Z.shiftr_eq_0; [lia|]. unfold L. lia. }
  assert (0 < 2 ^ L) as HP by (by apply Z.pow_pos_nonneg).
  pose proof (Z.div_mod (x / 2 ^ L) 2 ltac:(lia)). pose proof (Z.div_mod (y / 2 ^ L) 2 ltac:(lia)).
  destruct (Z.testbit x L) eqn:Hbx, (Z.testbit y L) eqn:Hby; try done.
  - apply Z.testbit_true in Hbx; [|done]. apply Z.testbit_false in Hby; [|done].
    destruct (Z.lt_ge_cases y x) as [|Hle]; [done|]. pose proof (Z.div_le_mono x y _ HP Hle). lia.
  - apply Z.testbit_false in Hbx; [|done]. apply Z.testbit_true in Hby; [|done].
    destruct (Z.lt_ge_cases x y) as [|Hle]; [done|]. pose proof (Z.div_le_mono y x _ HP Hle). lia.
Qed.

Lemma cmp_u32_spec x y : 0 ≤ x < 2 ^ 32 → 0 ≤ y < 2 ^ 32 → cmp_u32 x y = Z.sgn (x - y).
Proof.
  intros Hx Hy. unfold cmp_u32, truthy. destruct (Z.eqb_spec (Z.lxor x y) 0) as [Heq|Hne]; cbn [negb].
  - apply Z.lxor_eq in Heq as ->. by rewrite Z.sub_diag.
  - assert (x ≠ y) as Hxy by (intros ->; by rewrite Z.lxor_nilpotent in Hne).
    pose proof (highest_difference x y ltac:(lia) ltac:(lia) Hxy) as Ho. cbn in Ho. set (d := Z.lxor x y) in *.
    assert (0 ≤ d) by (apply Z.lxor_nonneg; lia). assert (0 < d) as Hd by lia.
    assert (∀ z, 0 ≤ z < 2 ^ 32 → Z.log2 z < 32) as Hl32.
    { intros z Hz. destruct (Z.eq_dec z 0) as [->|]; [done|]. apply Z.log2_lt_pow2; lia. }
    assert (Z.log2 d < 32) as HL by (pose proof (Z.log2_lxor x y ltac:(lia) ltac:(lia)); pose proof (Hl32 x Hx); pose proof (Hl32 y Hy); unfold d; lia).
    pose proof (smeared_log2 d Hd) as H1. do 5 (apply smeared_step in H1; [|lia]).
    change (2 * 1) with 2 in H1. change (2 * 2) with 4 in H1. change (2 * 4) with 8 in H1. change (2 * 8) with 16 in H1.
    set (e := Z.lor _ (Z.shiftr _ 16)). pose proof (Z.log2_nonneg d).
    rewrite (highest_bit (Z.log2 d) e); [|done|by apply (smeared_weaken _ (2 * 16)); [lia|]].
    replace (Z.land x (2 ^ Z.log2 d) =? 0) with (negb (Z.testbit x (Z.log2 d))).
    { rewrite negb_involutive. destruct (Z.testbit x (Z.log2 d)); lia. }
    destruct (Z.eqb_spec (Z.land x (2 ^ Z.log2 d)) 0) as [Hz|Hz].
    + apply negb_true_iff. assert (Z.testbit (Z.land x (2 ^ Z.log2 d)) (Z.log2 d) = false) as Hb by (rewrite Hz; apply Z.bits_0).
      rewrite Z.land_spec, Z.pow2_bits_true, andb_true_r in Hb by done. done.
    + apply negb_false_iff. destruct (Z.testbit x (Z.log2 d)) eqn:Hb; [done|]. destruct Hz. apply Z.bits_inj'. intros i Hi.
      rewrite Z.land_spec, Z.pow2_bits_eqb, Z.bits_0 by done. destruct (Z.eqb_spec (Z.log2 d) i) as [<-|]; [by rewrite Hb|apply andb_false_r].
Qed.

(** ** The random numbers *)

Lemma lxor_fits w x y : 0 ≤ w → 0 ≤ x < 2 ^ w → 0 ≤ y < 2 ^ w → 0 ≤ Z.lxor x y < 2 ^ w.
Proof.
  intros Hw Hx Hy. split; [apply Z.lxor_nonneg; lia|].
  replace (Z.lxor x y) with (Z.lxor x y mod 2 ^ w); [apply Z.mod_pos_bound; lia|].
  apply Z.bits_inj'. intros i Hi. destruct (Z.lt_ge_cases i w); [by rewrite Z.mod_pow2_bits_low|].
  rewrite Z.mod_pow2_bits_high by lia. rewrite <- (Z.mod_small x (2 ^ w)), <- (Z.mod_small y (2 ^ w)), Z.lxor_spec by done.
  by rewrite !Z.mod_pow2_bits_high by lia.
Qed.

Lemma shiftr_fits w k x : 0 ≤ k → 0 ≤ x < 2 ^ w → 0 ≤ Z.shiftr x k < 2 ^ w.
Proof.
  intros Hk Hx. rewrite Z.shiftr_div_pow2 by done. assert (0 < 2 ^ k) by (by apply Z.pow_pos_nonneg).
  split; [apply Z.div_pos; lia|]. apply Z.le_lt_trans with x; [|lia]. apply Z.div_le_upper_bound; nia.
Qed.

Lemma xorshift_fits w k x : 0 ≤ w → 0 ≤ k → 0 ≤ x < 2 ^ w → 0 ≤ Z.lxor x (Z.shiftr x k) < 2 ^ w.
Proof. intros. by apply lxor_fits; [|done|apply shiftr_fits]. Qed.

Lemma shiftr_out w k x : 0 ≤ w ≤ k → 0 ≤ x < 2 ^ w → Z.shiftr x k = 0.
Proof.
  intros Hk Hx. rewrite Z.shiftr_div_pow2 by lia. apply Z.div_small. split; [lia|].
  apply Z.lt_le_trans with (2 ^ w); [lia|]. by apply Z.pow_le_mono_r; lia.
Qed.

(** The steps back: two shifts for 16 bits are none, three for 15 bits. *)
Definition unshift16 (x : Z) : Z := Z.lxor x (Z.shiftr x 16).
Definition unshift15 (x : Z) : Z := Z.lxor (Z.lxor x (Z.shiftr x 15)) (Z.shiftr x 30).

Lemma unshift16_ok x : 0 ≤ x < 2 ^ 32 → unshift16 (Z.lxor x (Z.shiftr x 16)) = x.
Proof.
  intros Hx. unfold unshift16. rewrite Z.shiftr_lxor, Z.shiftr_shiftr, (shiftr_out 32 (16 + 16)) by lia.
  by rewrite Z.lxor_0_r, Z.lxor_assoc, Z.lxor_nilpotent, Z.lxor_0_r.
Qed.

Lemma shift16_ok x : 0 ≤ x < 2 ^ 32 → Z.lxor (unshift16 x) (Z.shiftr (unshift16 x) 16) = x.
Proof. exact (unshift16_ok x). Qed.

Lemma unshift15_ok x : 0 ≤ x < 2 ^ 32 → unshift15 (Z.lxor x (Z.shiftr x 15)) = x.
Proof.
  intros Hx. unfold unshift15. rewrite !Z.shiftr_lxor, !Z.shiftr_shiftr, (shiftr_out 32 (15 + 30)) by lia. change (15 + 15) with 30.
  rewrite Z.lxor_0_r. set (a := Z.shiftr x 15). set (b := Z.shiftr x 30).
  rewrite <- (Z.lxor_assoc (Z.lxor x a) a b), (Z.lxor_assoc x a a), Z.lxor_nilpotent, Z.lxor_0_r.
  by rewrite Z.lxor_assoc, Z.lxor_nilpotent, Z.lxor_0_r.
Qed.

Lemma shift15_ok x : 0 ≤ x < 2 ^ 32 → Z.lxor (unshift15 x) (Z.shiftr (unshift15 x) 15) = x.
Proof.
  intros Hx. unfold unshift15. rewrite !Z.shiftr_lxor, !Z.shiftr_shiftr, (shiftr_out 32 (30 + 15)) by lia. change (15 + 15) with 30.
  rewrite Z.lxor_0_r. set (a := Z.shiftr x 15). set (b := Z.shiftr x 30).
  rewrite (Z.lxor_comm a b), (Z.lxor_assoc (Z.lxor x a) b), <- (Z.lxor_assoc b b a), Z.lxor_nilpotent, Z.lxor_0_l.
  by rewrite Z.lxor_assoc, Z.lxor_nilpotent, Z.lxor_0_r.
Qed.

Lemma mul_inverse c c' x : (c * c') mod 2 ^ 32 = 1 → 0 ≤ x < 2 ^ 32 → u32 (u64 (u32 (u64 (x * c)) * c')) = x.
Proof.
  intros Hc Hx. unfold wrapu. rewrite !Z.mod_mod_divide by (by exists (2 ^ 32)).
  rewrite Z.mul_mod_idemp_l, <- Z.mul_assoc, <- Z.mul_mod_idemp_r, Hc, Z.mul_1_r by lia. by apply Z.mod_small.
Qed.

(** The inverse of [random_shuffle]. *)
Definition random_unshuffle (x : Z) : Z :=
  let x := unshift16 x in
  let x := u32 (u64 (x * 0x43021123)) in
  let x := unshift15 x in
  let x := u32 (u64 (x * 0x1d69e2a5)) in
  unshift16 x.

Lemma u32_range x : 0 ≤ u32 x < 2 ^ 32.
Proof. by apply wrapu_bound. Qed.

Lemma random_shuffle_range x : 0 ≤ random_shuffle x < 2 ^ 32.
Proof. apply xorshift_fits; [done..|apply u32_range]. Qed.

Lemma fill_range n r : Forall (λ x, 0 ≤ x < 2 ^ 32) (fill n r).
Proof. revert r. induction n as [|n IH]; intros r; constructor; [apply random_shuffle_range|apply IH]. Qed.

(** [random_shuffle] permutes the 32-bit integers: [random_unshuffle] undoes
    it, and it undoes [random_unshuffle], so that no two states of the generator
    have the same successor. *)
Theorem random_shuffle_roundtrip x : 0 ≤ x < 2 ^ 32 →
  random_unshuffle (random_shuffle x) = x ∧ random_shuffle (random_unshuffle x) = x ∧ 0 ≤ random_shuffle x < 2 ^ 32.
Proof.
  intros Hx. pose proof (xorshift_fits 32 16) as H16. pose proof (xorshift_fits 32 15) as H15. split; [|split; [|apply random_shuffle_range]].
  - unfold random_unshuffle, random_shuffle. cbv zeta. rewrite unshift16_ok by apply u32_range.
    rewrite (mul_inverse 0x846ca68b 0x43021123) by first [done|apply H15; [done..|apply u32_range]].
    rewrite unshift15_ok by apply u32_range. rewrite (mul_inverse 0x7feb352d 0x1d69e2a5) by first [done|by apply H16].
    by apply unshift16_ok.
  - unfold random_unshuffle, random_shuffle. cbv zeta. set (y := unshift16 x).
    assert (0 ≤ y < 2 ^ 32) as Hy by (by apply H16).
    assert (0 ≤ unshift15 (u32 (u64 (y * 0x43021123))) < 2 ^ 32) as Hz.
    { unfold unshift15. pose proof (u32_range (u64 (y * 0x43021123))) as Hu. by apply lxor_fits; [|apply H15|apply shiftr_fits]. }
    rewrite shift16_ok by apply u32_range.
    rewrite (mul_inverse 0x1d69e2a5 0x7feb352d) by done. rewrite shift15_ok by apply u32_range.
    rewrite (mul_inverse 0x43021123 0x846ca68b) by done. unfold y. by apply shift16_ok.
Qed.

Example random_shuffle_roundtrip_witness :
  random_shuffle 1 = 1753845952 ∧
  random_unshuffle (random_shuffle 1) = 1 ∧ random_shuffle (random_unshuffle 1) = 1 ∧ 0 ≤ random_shuffle 1 < 2 ^ 32.
Proof. split; [vm_compute; reflexivity|]. exact (random_shuffle_roundtrip 1 ltac:(lia)). Defined.

(** ** The task *)

(** The comparison as [qsort_r] reads it. *)
Definition ordered (cmp : Z → Z → Z) : relation Z := λ a b, cmp a b ≤ 0.

(** What the C library says of a comparison on the elements of an array. *)
Definition consistent (cmp : Z → Z → Z) (l : list Z) : Prop :=
  (∀ a b, a ∈ l → b ∈ l → Z.sgn (cmp a b) = - Z.sgn (cmp b a)) ∧
  (∀ a b c, a ∈ l → b ∈ l → c ∈ l → cmp a b ≤ 0 → cmp b c ≤ 0 → cmp a c ≤ 0).

Section sorted.
Context (qsort_r : (Z → Z → Z) → list Z → list Z).
Context (qsort_r_sorts : ∀ cmp l, consistent cmp l → qsort_r cmp l ≡ₚ l ∧ Sorted (ordered cmp) (qsort_r cmp l)).

Lemma cmp_u32_consistent l : Forall (λ x, 0 ≤ x < 2 ^ 32) l → consistent cmp_u32 l.
Proof.
  rewrite Forall_forall. intros Hl. split.
  - intros a b Ha Hb. rewrite !cmp_u32_spec by (by apply Hl). lia.
  - intros a b c Ha Hb Hc. rewrite !cmp_u32_spec by (by apply Hl). lia.
Qed.

Lemma check_sorted_ok l : Forall (λ x, 0 ≤ x < 2 ^ 32) l → Sorted (ordered cmp_u32) l → check_sorted l = Ok tt.
Proof.
  intros Hl Hs. induction Hs as [|a l Hs IH Hh]; [done|]. apply Forall_cons in Hl as [Ha Hl].
  destruct l as [|b l]; [done|]. cbn [check_sorted]. apply HdRel_inv in Hh. unfold ordered in Hh.
  rewrite cmp_u32_spec in Hh by (try done; by apply Forall_cons in Hl as [? _]).
  rewrite (proj2 (Z.ltb_ge b a)) by lia. by apply IH.
Qed.

(** The task never aborts: [cmp_u32] compares 32-bit integers as the order
    of the integers does, so that any sorting function that keeps the contract
    of [qsort_r] leaves no two neighbours out of order, for every process id
    and every length of the array. *)
Theorem sort_never_aborts ARR_SIZE pid :
  sort qsort_r ARR_SIZE pid = Ok tt ∧ ∀ a b, a ∈ fill ARR_SIZE (u32 pid) → b ∈ fill ARR_SIZE (u32 pid) → cmp_u32 a b = Z.sgn (a - b).
Proof.
  pose proof (fill_range ARR_SIZE (u32 pid)) as Hf. split.
  - destruct (qsort_r_sorts cmp_u32 _ (cmp_u32_consistent _ Hf)) as [Hp Hs]. apply check_sorted_ok; [|done]. by rewrite Hp.
  - intros a b Ha Hb. rewrite Forall_forall in Hf. by apply cmp_u32_spec; apply Hf.
Qed.
End sorted.

(** Insertion sort keeps the contract. *)
Fixpoint insert_by (cmp : Z → Z → Z) (x : Z) (l : list Z) : list Z :=
  match l with
  | [] => [x]
  | y :: l' => if cmp x y <=? 0 then x :: l else y :: insert_by cmp x l'
  end.
Definition isort (cmp : Z → Z → Z) (l : list Z) : list Z := foldr (insert_by cmp) [] l.

Lemma insert_by_perm cmp x l : insert_by cmp x l ≡ₚ x :: l.
Proof. induction l as [|y l IH]; [done|]. cbn. destruct (_ <=? _); [done|]. rewrite IH. apply perm_swap. Qed.

Lemma isort_perm cmp l : isort cmp l ≡ₚ l.
Proof. induction l as [|x l IH]; [done|]. cbn. by rewrite insert_by_perm, IH. Qed.

Lemma insert_by_sorted cmp x l : (∀ y, y ∈ l → Z.sgn (cmp x y) = - Z.sgn (cmp y x)) →
  Sorted (ordered cmp) l → Sorted (ordered cmp) (insert_by cmp x l).
Proof.
  intros Hx Hs. induction Hs as [|y l Hs IH Hh]; [by repeat constructor|]. cbn. destruct (Z.leb_spec (cmp x y) 0) as [Hle|Hlt].
  - constructor; [by constructor|by constructor].
  - constructor; [apply IH; intros z Hz; apply Hx; by right|]. pose proof (Hx y ltac:(by left)).
    destruct l as [|z l]; cbn; [constructor; unfold ordered; lia|]. apply HdRel_inv in Hh.
    destruct (_ <=? _); constructor; [unfold ordered; lia|done].
Qed.

Lemma isort_sorts cmp l : consistent cmp l → isort cmp l ≡ₚ l ∧ Sorted (ordered cmp) (isort cmp l).
Proof.
  intros [Ha _]. split; [apply isort_perm|]. induction l as [|x l IH]; [constructor|]. cbn. apply insert_by_sorted.
  - intros y Hy. apply Ha; [by left|]. right. by rewrite <- (isort_perm cmp l).
  - apply IH. intros a b Hia Hib. apply Ha; by right.
Qed.

Example sort_never_aborts_witness :
  sort isort 5 4711 = Ok tt ∧
  ∀ a b, a ∈ fill 5 (u32 4711) → b ∈ fill 5 (u32 4711) → cmp_u32 a b = Z.sgn (a - b).
Proof. exact (sort_never_aborts isort isort_sorts 5 4711). Defined.
