(* ===== verification/TaskSched.v ===== *)
(** * The preemptive scheduler of user-level-thread/task_sched.c

    The tasks are a ring of list.h nodes through [task_main]; the list
    [task_reap] holds the tasks that have returned.  A context switch leaves
    the code of one task and enters that of another, so that each task has a
    record of where it left: a context made by [makecontext], which enters
    [task_trampoline], or a call of [schedule] that waits in [swapcontext] and
    was made by the signal handler or by the trampoline.  The model runs from
    one event of the running code, a timer signal, a call, the return of a
    callback, to the next one; [masked] says whether SIGALRM is blocked. *)
From S2P Require Import Prelude ListHead.
From stdpp Require Import gmap list.
#[local] Open Scope Z_scope.
#[local] Open Scope c_scope.

(** ** State *)

(** Who called [schedule]: the signal handler, with the mask of the code that
    it interrupted, or [task_trampoline]. *)
Inductive caller :=
| FromHandler (interrupted_mask : bool)
| FromTrampoline.

(** [ucontext_t]: its mask and where it continues; [set] is the variable of
    [schedule]. *)
Inductive context :=
| Trampoline (uc_sigmask : bool)
| InSchedule (uc_sigmask set : bool) (k : caller).

Record task_struct := mk_task { ctx : context; callback : Z; reap_self : bool }.

(** Callbacks that start, and tasks that are released. *)
Inductive log_entry :=
| Started (task callback : Z)
| Destroyed (task : Z).

Record state := mk_state {
  links_ : gmap Z list_head;
  tasks : gmap Z task_struct;
  task_current : Z;
  preempt_count : Z;
  masked : bool;
  main_waits : bool;
  exited : bool;
  log : list log_entry;
}.

Definition set_links x := modify (λ s, mk_state x (tasks s) (task_current s) (preempt_count s) (masked s) (main_waits s) (exited s) (log s)).
Definition set_tasks x := modify (λ s, mk_state (links_ s) x (task_current s) (preempt_count s) (masked s) (main_waits s) (exited s) (log s)).
Definition set_task_current x := modify (λ s, mk_state (links_ s) (tasks s) x (preempt_count s) (masked s) (main_waits s) (exited s) (log s)).
Definition set_preempt_count x := modify (λ s, mk_state (links_ s) (tasks s) (task_current s) x (masked s) (main_waits s) (exited s) (log s)).
Definition set_masked x := modify (λ s, mk_state (links_ s) (tasks s) (task_current s) (preempt_count s) x (main_waits s) (exited s) (log s)).
Definition set_main_waits x := modify (λ s, mk_state (links_ s) (tasks s) (task_current s) (preempt_count s) (masked s) x (exited s) (log s)).
Definition set_exited x := modify (λ s, mk_state (links_ s) (tasks s) (task_current s) (preempt_count s) (masked s) (main_waits s) x (log s)).
Definition record_ (e : log_entry) := modify (λ s, mk_state (links_ s) (tasks s) (task_current s) (preempt_count s) (masked s) (main_waits s) (exited s) (log s ++ [e])).

(** An operation of list.h. *)
Definition on_links {A} (m : M (gmap Z list_head) A) : M state A :=
  h ← gets links_;
  match m h with
  | Ok (a, h') => set_links h' ;; ret a
  | Err e => fail e
  end.

Definition get_task (t : Z) : M state task_struct := gets_some (λ s, tasks s !! t).
Definition set_ctx (t : Z) (c : context) : M state unit :=
  x ← get_task t;
  ts ← gets tasks;
  set_tasks (<[t := mk_task c (callback x) (reap_self x)]> ts).
Definition set_reap_self (t : Z) (b : bool) : M state unit :=
  x ← get_task t;
  ts ← gets tasks;
  set_tasks (<[t := mk_task (ctx x) (callback x) b]> ts).

Definition preempt_disable : M state unit := n ← gets preempt_count; set_preempt_count (i32 (n + 1)).
Definition preempt_enable : M state unit := n ← gets preempt_count; set_preempt_count (i32 (n - 1)).

(** ** Operations *)

Section operations.
(** The addresses of [task_main] and [task_reap], and the allocator. *)
Context (task_main task_reap : Z) (calloc : gmap Z list_head → Z).

Definition task_init : M state unit :=
  on_links (INIT_LIST_HEAD task_main) ;;
  set_task_current task_main.

Definition task_alloc (func : Z) : M state Z :=
  h ← gets links_;
  let task := calloc h in
  set_links (<[task := mk_list_head 0 0]> h) ;;
  ts ← gets tasks;
  set_tasks (<[task := mk_task (Trampoline false) func false]> ts) ;;
  ret task.

Definition task_destroy (task : Z) : M state unit :=
  on_links (list_del task) ;;
  get_task task ;;
  ts ← gets tasks;
  set_tasks (delete task ts) ;;
  h ← gets links_;
  set_links (delete task h) ;;
  record_ (Destroyed task).

(** [list_for_each_entry_safe (task, tmp, &task_reap, list) task_destroy(task);] *)
Fixpoint reap_loop (fuel : nat) (task tmp : Z) : M state unit :=
  if task =? task_reap then ret tt
  else match fuel with
  | O => fail Exhausted
  | S fuel =>
      task_destroy task ;;
      tmp' ← on_links (get_next tmp);
      reap_loop fuel tmp tmp'
  end.

Definition clean_reaps : M state unit :=
  ts ← gets tasks;
  task ← on_links (get_next task_reap);
  tmp ← on_links (get_next task);
  reap_loop (size ts) task tmp.

(** [main] with preemption disabled, up to the next [timer_wait] or the end. *)
Definition main_test : M state unit :=
  e1 ← on_links (list_empty task_main);
  e2 ← on_links (list_empty task_reap);
  preempt_enable ;;
  if e1 && e2 then set_exited true else ret tt.

(** [main] after [timer_wait]. *)
Definition main_loop : M state unit :=
  set_main_waits false ;;
  preempt_disable ;;
  main_test.

(** The handler returns to the code that the signal interrupted. *)
Definition sigreturn (interrupted_mask : bool) : M state unit :=
  set_masked interrupted_mask ;;
  cur ← gets task_current;
  w ← gets main_waits;
  if (cur =? task_main) && w then main_loop else ret tt.

(** [schedule] after the switch. *)
Definition schedule_rest (set : bool) (k : caller) : M state unit :=
  clean_reaps ;;
  set_masked set ;;
  match k with
  | FromHandler m => sigreturn m
  | FromTrampoline => fail Undefined
  end.

(** [task_trampoline] up to the call of the callback. *)
Definition task_trampoline (task : Z) : M state unit :=
  set_masked false ;;
  x ← get_task task;
  record_ (Started task (callback x)).

(** [task_switch_to], and the code that it switches to. *)
Definition task_switch_to (from to : Z) (set : bool) (k : caller) : M state unit :=
  set_task_current to ;;
  m ← gets masked;
  set_ctx from (InSchedule m set k) ;;
  x ← get_task to;
  match ctx x with
  | Trampoline m => set_masked m ;; task_trampoline to
  | InSchedule m set k => set_masked m ;; schedule_rest set k
  end.

Definition schedule (k : caller) : M state unit :=
  set ← gets masked;
  set_masked true ;;
  cur ← gets task_current;
  next_task ← on_links (get_next cur);
  if truthy next_task then
    x ← get_task cur;
    (if reap_self x then on_links (list_move cur task_reap) else ret tt) ;;
    task_switch_to cur next_task set k
  else schedule_rest set k.

(** SIGALRM: a blocked signal stays pending. *)
Definition timer_signal : M state unit :=
  m ← gets masked;
  if m then ret tt
  else
    set_masked true ;;
    n ← gets preempt_count;
    if truthy n then sigreturn m else schedule (FromHandler m).

(** The callback of the running task returns to [task_trampoline]. *)
Definition callback_return : M state unit :=
  cur ← gets task_current;
  set_reap_self cur true ;;
  schedule FromTrampoline.

Definition task_add (func : Z) : M state unit :=
  task ← task_alloc func;
  m ← gets masked;
  set_ctx task (Trampoline (m || true)) ;;
  preempt_disable ;;
  on_links (list_add_tail task task_main) ;;
  preempt_enable.

(** What happens to the running code: the timer expires, it disables or enables
    preemption, its callback returns, and, in [main], [timer_wait] begins. *)
Inductive event :=
| Tick
| Disable
| Enable
| Return
| Wait.

Definition exec_event (e : event) : M state unit :=
  match e with
  | Tick => timer_signal
  | Disable => preempt_disable
  | Enable => preempt_enable
  | Return => callback_return
  | Wait => set_main_waits true
  end.

Fixpoint exec (es : list event) : M state unit :=
  match es with
  | [] => ret tt
  | e :: es => exec_event e ;; exec es
  end.

(** The program up to [task_init]: [LIST_HEAD(task_reap)] is static. *)
Definition boot : state :=
  mk_state (<[task_reap := mk_list_head task_reap task_reap]> {[task_main := mk_list_head 0 0]})
    {[task_main := mk_task (Trampoline false) 0 false]} 0 0 false false false [].

Fixpoint add_all (funcs : list Z) : M state unit :=
  match funcs with
  | [] => ret tt
  | f :: funcs => task_add f ;; add_all funcs
  end.

(** [main], whose tasks have the callbacks [funcs], and its events. *)
Definition program (funcs : list Z) (es : list event) : M state unit :=
  task_init ;;
  add_all funcs ;;
  preempt_disable ;;
  main_test ;;
  exec es.
End operations.

(** ** A round-robin scheduler

    The tasks in the order in which they run, the running one first; those that
    have returned; and those that have not started, with their callbacks. *)
Record sched := mk_sched {
  ring : list Z;
  zombies : list Z;
  unstarted : gmap Z Z;
  depth : Z;
  waits : bool;
  done_ : bool;
  trace : list log_entry;
}.

Section specification.
Context (task_main : Z).

Definition current (a : sched) : Z := hd 0 (ring a).

(** The program ends when no task is left. *)
Definition finished (a : sched) : bool := bool_decide (ring a = [task_main] ∧ zombies a = []).

(** [main] goes on when it has waited. *)
Definition main_goes_on (a : sched) : sched :=
  if (current a =? task_main) && waits a
  then mk_sched (ring a) (zombies a) (unstarted a) (depth a) false (finished a) (trace a)
  else a.

(** The first task of the ring runs: it starts, or it goes on and releases those
    that have returned. *)
Definition run_first (a : sched) : sched :=
  match unstarted a !! current a with
  | Some f =>
      mk_sched (ring a) (zombies a) (delete (current a) (unstarted a)) (depth a) (waits a) (done_ a)
        (trace a ++ [Started (current a) f])
  | None =>
      main_goes_on (mk_sched (ring a) [] (unstarted a) (depth a) (waits a) (done_ a) (trace a ++ (Destroyed <$> zombies a)))
  end.

Definition with_ring (a : sched) (r zs : list Z) : sched :=
  mk_sched r zs (unstarted a) (depth a) (waits a) (done_ a) (trace a).
Definition with_depth (a : sched) (n : Z) : sched :=
  mk_sched (ring a) (zombies a) (unstarted a) n (waits a) (done_ a) (trace a).

(** [None]: the running code does not do this. *)
Definition sched_step (e : event) (a : sched) : option sched :=
  if done_ a then None
  else match e with
  | Tick =>
      Some (if depth a =? 0 then run_first (with_ring a (tail (ring a) ++ [current a]) (zombies a)) else main_goes_on a)
  | Disable => if bool_decide (current a ≠ task_main ∧ depth a < 2 ^ 31 - 2) then Some (with_depth a (depth a + 1)) else None
  | Enable => if bool_decide (current a ≠ task_main ∧ 0 < depth a) then Some (with_depth a (depth a - 1)) else None
  | Return =>
      if bool_decide (current a ≠ task_main) then Some (run_first (with_ring a (tail (ring a)) (current a :: zombies a)))
      else None
  | Wait =>
      if bool_decide (current a = task_main)
      then Some (mk_sched (ring a) (zombies a) (unstarted a) (depth a) true (done_ a) (trace a))
      else None
  end.

Fixpoint sched_run (es : list event) (a : sched) : option sched :=
  match es with
  | [] => Some a
  | e :: es => match sched_step e a with Some a => sched_run es a | None => None end
  end.

(** [main] runs, after it has added the tasks [ps] with their callbacks. *)
Definition sched_start (ps : list (Z * Z)) : sched :=
  mk_sched (task_main :: ps.*1) [] (list_to_map ps) 0 false (bool_decide (ps = [])) [].
End specification.

(** ** The representation *)

Lemma on_links_run {A B} (m : M (gmap Z list_head) A) (f : A → M state B) s a h' :
  m (links_ s) = Ok (a, h') →
  bind (on_links m) f s =
  f a (mk_state h' (tasks s) (task_current s) (preempt_count s) (masked s) (main_waits s) (exited s) (log s)).
Proof. intros H. unfold on_links, bind, gets. rewrite H. done. Qed.

(** A load leaves the state as it is. *)
Lemma on_links_get {A B} (m : M (gmap Z list_head) A) (f : A → M state B) s a :
  m (links_ s) = Ok (a, links_ s) → bind (on_links m) f s = f a s.
Proof. intros H. erewrite on_links_run by exact H. by destruct s. Qed.

Lemma get_task_run {B} (f : task_struct → M state B) s t x :
  tasks s !! t = Some x → bind (get_task t) f s = f x s.
Proof. intros H. apply bind_ok. by apply gets_some_ok. Qed.

Section refinement.
Context (task_main task_reap : Z) (calloc : gmap Z list_head → Z).
Context (heads_differ : NoDup [0; task_main; task_reap]).
Context (calloc_fresh : ∀ h, h !! calloc h = None ∧ calloc h ≠ 0).

(** The lists of a state: the ring from its first task on, and the zombies. *)
Definition lists_ok (h : gmap Z list_head) (r zs : list Z) : Prop :=
  ∃ c l, r = c :: l ∧ dlist h c l ∧ dlist h task_reap zs ∧ NoDup (0 :: task_reap :: r ++ zs) ∧ task_main ∈ r.

(** A task that is not running: it has not started, or it waits in [schedule]
    below the signal handler. *)
Definition suspended (a : sched) (s : state) (t : Z) : Prop :=
  ∃ x, tasks s !! t = Some x ∧ reap_self x = false ∧
  match unstarted a !! t with
  | Some f => ctx x = Trampoline true ∧ callback x = f
  | None => ctx x = InSchedule true true (FromHandler false)
  end.

(** The allocated tasks are those of the ring and the zombies. *)
Definition allocated (a : sched) (ts : gmap Z task_struct) : Prop :=
  (∀ t, t ∈ zombies a → is_Some (ts !! t)) ∧ ∀ t, is_Some (ts !! t) → t ∈ ring a ∨ t ∈ zombies a.

(** What holds before and after a context switch. *)
Definition same_fields (a : sched) (s : state) : Prop :=
  lists_ok (links_ s) (ring a) (zombies a) ∧ allocated a (tasks s) ∧
  unstarted a !! task_main = None ∧ 0 ≤ depth a < 2 ^ 31 - 1 ∧
  preempt_count s = depth a ∧ main_waits s = waits a ∧ exited s = done_ a ∧ log s = trace a ∧ task_current s = current a.

(** The whole ring is suspended, and its first task is about to run. *)
Definition switching (a : sched) (s : state) : Prop :=
  same_fields a s ∧ ∀ t, t ∈ ring a → suspended a s t.

(** The first task of the ring runs. *)
Definition running (a : sched) (s : state) : Prop :=
  same_fields a s ∧ masked s = false ∧ unstarted a !! current a = None ∧
  (∃ x, tasks s !! current a = Some x ∧ reap_self x = false) ∧
  ∀ t, t ∈ tail (ring a) → suspended a s t.

Lemma reap_loop_run zs fuel s : (length zs ≤ fuel)%nat → dlist (links_ s) task_reap zs →
  (∀ t, t ∈ zs → is_Some (tasks s !! t)) →
  ∃ s', reap_loop task_reap fuel (hd task_reap zs) (hd task_reap (tail zs)) s = Ok (tt, s') ∧
    dlist (links_ s') task_reap [] ∧ (∀ p, p ∉ task_reap :: zs → links_ s' !! p = links_ s !! p) ∧
    (∀ t, tasks s' !! t = if decide (t ∈ zs) then None else tasks s !! t) ∧
    s' = mk_state (links_ s') (tasks s') (task_current s) (preempt_count s) (masked s) (main_waits s) (exited s)
      (log s ++ (Destroyed <$> zs)).
Proof.
  revert fuel s. induction zs as [|z zs IH]; intros fuel s Hf Hd Ht.
  - exists s. destruct fuel; cbn; rewrite Z.eqb_refl; (split_and!; [done..|]); rewrite app_nil_r; by destruct s.
  - pose proof Hd as [Hnd _]. apply NoDup_cons in Hnd as [Hz Hnd]. apply NoDup_cons in Hnd as [Hz' Hnd].
    destruct fuel as [|fuel]; [cbn in Hf; lia|]. cbn [hd tail reap_loop]. rewrite (proj2 (Z.eqb_neq z task_reap)) by set_solver.
    destruct (list_del_spec _ _ [] z zs Hd) as (h1&Hr1&Hd1&Hf1). cbn in Hd1.
    unfold task_destroy. rewrite !bind_assoc, (on_links_run _ _ _ _ _ Hr1).
    destruct (Ht z ltac:(set_solver)) as [x Hx]. rewrite bind_assoc, (get_task_run _ _ _ x) by done.
    unfold set_tasks, set_links, record_. rewrite !bind_assoc, (bind_ok _ _ _ _ _ (gets_run _ _)).
    rewrite bind_assoc, (bind_ok _ _ _ _ _ (modify_run _ _)), bind_assoc, (bind_ok _ _ _ _ _ (gets_run _ _)).
    rewrite bind_assoc, (bind_ok _ _ _ _ _ (modify_run _ _)), (bind_ok _ _ _ _ _ (modify_run _ _)).
    cbn [links_ tasks task_current preempt_count masked main_waits exited log].
    assert (dlist (delete z h1) task_reap zs) as Hd2 by (eapply dlist_agree; [|exact Hd1]; intros p Hp; apply lookup_delete_ne; set_solver).
    erewrite on_links_get by exact (dlist_second _ _ _ Hd2).
    match goal with |- context [reap_loop _ _ _ _ ?s1] => set (s' := s1) end.
    destruct (IH fuel s') as (s2&Hs2&Hd3&Hh&Hts&Heq); [cbn in Hf; lia|done| |].
    { intros t Ht'. cbn. rewrite lookup_delete_ne by set_solver. apply Ht. set_solver. }
    exists s2. split; [done|]. split; [done|]. split_and!.
    + intros p Hp. rewrite Hh by set_solver. cbn. rewrite lookup_delete_ne by set_solver. apply Hf1. set_solver.
    + intros t. rewrite Hts. cbn. destruct (decide (t = z)) as [->|Hne].
      * rewrite lookup_delete_eq. case_decide as H1; case_decide as H2; [done..|]. destruct H2. by left.
      * rewrite lookup_delete_ne by done. apply decide_ext. rewrite elem_of_cons. tauto.
    + rewrite Heq. cbn. by rewrite <- app_assoc.
Qed.

Lemma clean_reaps_run a s : switching a s →
  ∃ s', clean_reaps task_reap s = Ok (tt, s') ∧ masked s' = masked s ∧
    switching (mk_sched (ring a) [] (unstarted a) (depth a) (waits a) (done_ a) (trace a ++ (Destroyed <$> zombies a))) s'.
Proof.
  intros [((c&l&Hr&Hdc&Hdr&Hnd&Hmain)&[Hz Hz']&Hum&Hdep&Hpc&Hw&He&Hlog&Hcur) Hsus]. unfold clean_reaps.
  rewrite (bind_ok _ _ _ _ _ (gets_run _ _)).
  erewrite on_links_get by (apply gets_some_ok; exact (dlist_first _ _ _ Hdr)).
  erewrite on_links_get by exact (dlist_second _ _ _ Hdr).
  rewrite Hr in *. pose proof Hdr as [Hndz _]. apply NoDup_cons in Hndz as [Hzr Hndz].
  destruct (reap_loop_run (zombies a) (size (tasks s)) s) as (s'&Hs'&Hd'&Hh&Hts&Heq); [by apply length_le_size|done..|].
  exists s'. split; [done|]. split; [by rewrite Heq|].
  assert (∀ t, t ∈ c :: l → t ∉ task_reap :: zombies a) as Hdisj by (clear -Hnd; intros t Ht; nodup; set_solver).
  split; [split_and!|].
  - exists c, l. cbn. split_and!; [done| |done| |done].
    + eapply dlist_agree; [|exact Hdc]. intros p Hp. by apply Hh, Hdisj.
    + rewrite app_nil_r. clear -Hnd. nodup. rewrite !NoDup_cons. set_solver.
  - cbn. split; [set_solver|]. intros t. rewrite Hts. case_decide; [by intros [??]|]. intros Ht. left. by destruct (Hz' t Ht).
  - done.
  - cbn. lia.
  - cbn. lia.
  - by rewrite Heq.
  - by rewrite Heq.
  - by rewrite Heq.
  - rewrite Heq. cbn. by rewrite Hlog.
  - rewrite Heq. cbn. rewrite Hcur. unfold current. by rewrite Hr.
  - cbn. intros t Ht. destruct (Hsus t Ht) as (x&Hx&Hx'). exists x. split; [|done]. rewrite Hts, decide_False; [done|].
    pose proof (Hdisj t Ht). set_solver.
Qed.

Definition with_done (a : sched) (d : bool) : sched :=
  mk_sched (ring a) (zombies a) (unstarted a) (depth a) (waits a) d (trace a).

(** [preempt_disable(); while (...) { preempt_enable(); timer_wait(); ...]: the
    test, between calls that leave the depth as it is. *)
Lemma main_test_run a s : running a s → current a = task_main →
  ∃ s', bind preempt_disable (λ _, main_test task_main task_reap) s = Ok (tt, s') ∧
    running (with_done a (done_ a || finished task_main a)) s'.
Proof.
  intros [((c&l&Hr&Hdc&Hdr&Hnd&Hmain)&Hz&Hum&Hdep&Hpc&Hw&He&Hlog&Hcur) (Hm&Hu&Hx&Hsus)] Hcm.
  assert (c = task_main) as -> by (unfold current in Hcm; by rewrite Hr in Hcm).
  unfold preempt_disable, main_test, preempt_enable, set_preempt_count.
  rewrite bind_assoc, (bind_ok _ _ _ _ _ (gets_run _ _)), (bind_ok _ _ _ _ _ (modify_run _ _)), Hpc.
  pose proof (list_empty_run ret (links_ s) _ _ Hdc) as H1. pose proof (list_empty_run ret (links_ s) _ _ Hdr) as H2.
  erewrite on_links_get by (unfold bind, ret in H1; cbn; destruct (list_empty task_main (links_ s)) as [[]|]; [exact H1|done]).
  erewrite on_links_get by (unfold bind, ret in H2; cbn; destruct (list_empty task_reap (links_ s)) as [[]|]; [exact H2|done]).
  rewrite bind_assoc, (bind_ok _ _ _ _ _ (gets_run _ _)), (bind_ok _ _ _ _ _ (modify_run _ _)). cbn [preempt_count].
  rewrite !wraps_small by (rewrite ?wraps_small; lia).
  assert (bool_decide (l = []) && bool_decide (zombies a = []) = finished task_main a) as ->.
  { unfold finished. rewrite <- bool_decide_and. apply bool_decide_ext. rewrite Hr. naive_solver. }
  exists (mk_state (links_ s) (tasks s) (task_current s) (depth a) (masked s) (main_waits s) (exited s || finished task_main a) (log s)).
  split.
  { cbn. rewrite Z.add_simpl_r. destruct (finished task_main a); cbn; [by rewrite orb_true_r|by rewrite orb_false_r]. }
  split; [split_and!|split_and!]; try done; cbn; [by eexists _, _|lia..|by rewrite He].
Qed.

Definition unmask (s : state) : state :=
  mk_state (links_ s) (tasks s) (task_current s) (preempt_count s) false (main_waits s) (exited s) (log s).

Lemma sigreturn_run a s : running a (unmask s) → done_ a = false →
  ∃ s', sigreturn task_main task_reap false s = Ok (tt, s') ∧ running (main_goes_on task_main a) s'.
Proof.
  intros HR Hdone. unfold sigreturn, set_masked. rewrite (bind_ok _ _ _ _ _ (modify_run _ _)). fold (unmask s).
  rewrite !(bind_ok _ _ _ _ _ (gets_run _ _)). pose proof HR as [(_&_&_&_&_&Hw&_&_&Hcur) _]. rewrite Hw, Hcur.
  unfold main_goes_on. destruct (Z.eqb_spec (current a) task_main) as [Hc|]; cbn [andb]; [|by exists (unmask s)].
  destruct (waits a) eqn:Hwa; [|by exists (unmask s)]. unfold main_loop, set_main_waits.
  rewrite (bind_ok _ _ _ _ _ (modify_run _ _)).
  set (a' := mk_sched (ring a) (zombies a) (unstarted a) (depth a) false (done_ a) (trace a)).
  match goal with |- ∃ s', bind _ _ ?s1 = _ ∧ _ => set (s1' := s1) end.
  destruct (main_test_run a' s1') as (s'&Hs'&HR'); [|done|].
  { destruct HR as [(?&?&?&?&?&?&?&?&?) HR]. by split. }
  exists s'. split; [exact Hs'|]. unfold with_done in HR'. cbn in HR'. by rewrite Hdone in HR'.
Qed.

Lemma lists_ok_nodup h r zs : lists_ok h r zs → NoDup r ∧ 0 ∉ r ∧ task_reap ∉ r ∧ (∀ t, t ∈ r → t ∉ zs).
Proof.
  intros (c&l&->&_&_&Hnd&_). apply NoDup_cons in Hnd as [H0 Hnd]. apply NoDup_cons in Hnd as [H1 Hnd].
  apply NoDup_app in Hnd as (H2&H3&_). rewrite elem_of_app in H1. rewrite elem_of_cons, elem_of_app in H0. tauto.
Qed.

(** The switched-to task starts, or goes on in [schedule]. *)
Lemma run_first_run a s : switching a s → done_ a = false →
  ∃ s', bind (get_task (current a)) (λ x, match ctx x with
    | Trampoline m => bind (set_masked m) (λ _, task_trampoline (current a))
    | InSchedule m set k => bind (set_masked m) (λ _, schedule_rest task_main task_reap set k)
    end) s = Ok (tt, s') ∧ running (run_first task_main a) s'.
Proof.
  intros HS Hdone. pose proof HS as [HF Hsus]. pose proof HF as (HL&Hz&Hum&Hdep&Hpc&Hw&He&Hlog&Hcur).
  destruct (lists_ok_nodup _ _ _ HL) as (Hnd&_). destruct HL as (c&l&Hr&HL').
  assert (current a = c) as Hc by (unfold current; by rewrite Hr). rewrite Hr in Hnd. apply NoDup_cons in Hnd as [Hcl Hndl].
  destruct (Hsus (current a)) as (x&Hx&Hrs&Hctx); [rewrite Hc, Hr; by left|]. rewrite (get_task_run _ _ _ x Hx).
  unfold run_first, set_masked. destruct (unstarted a !! current a) as [f|] eqn:Hu.
  - destruct Hctx as [-> Hcb]. rewrite (bind_ok _ _ _ _ _ (modify_run _ _)). unfold task_trampoline, set_masked.
    rewrite (bind_ok _ _ _ _ _ (modify_run _ _)). erewrite get_task_run by exact Hx. unfold record_. rewrite modify_run, Hcb.
    eexists. split; [done|]. cbn. split; [split_and!|split_and!]; try done; cbn.
    + by exists c, l.
    + rewrite lookup_delete_ne; [done|]. intros Heq. by rewrite Heq, Hum in Hu.
    + lia.
    + lia.
    + by rewrite Hlog.
    + apply lookup_delete_eq.
    + by exists x.
    + rewrite Hr. intros t Ht. destruct (Hsus t) as (y&Hy&Hy'); [rewrite Hr; by right|]. exists y. split; [done|].
      cbn. rewrite lookup_delete_ne; [done|]. rewrite Hc. set_solver.
  - rewrite Hctx, (bind_ok _ _ _ _ _ (modify_run _ _)). unfold schedule_rest.
    match goal with |- ∃ s', bind _ _ ?s1 = _ ∧ _ => assert (switching a s1) as HS1 by (split; [exact HF|exact Hsus]) end.
    destruct (clean_reaps_run _ _ HS1) as (s2&Hs2&_&HF2&Hsus2). rewrite (bind_ok _ _ _ _ _ Hs2). unfold set_masked.
    rewrite (bind_ok _ _ _ _ _ (modify_run _ _)). apply sigreturn_run; [|done].
    split; [exact HF2|]. split_and!; [done|exact Hu| |].
    + destruct (Hsus2 (current a)) as (y&Hy&Hy'&_); [cbn; rewrite Hc, Hr; by left|]. by exists y.
    + intros t Ht. apply Hsus2. cbn in *. rewrite Hr in *. by right.
Qed.

(** The ring from the next task on. *)
Lemma lists_ok_rotate h c l zs : lists_ok h (c :: l) zs → lists_ok h (l ++ [c]) zs.
Proof.
  intros (c'&l'&[= <- <-]&Hdc&Hdr&Hnd&Hmain). destruct l as [|d l]; [by exists c, []|]. exists d, (l ++ [c]).
  split_and!; [done|by apply (dlist_rotate _ _ [])|done| |].
  - eapply NoDup_Permutation_proper; [|exact Hnd]. rewrite (Permutation_app_comm _ [c]). done.
  - rewrite elem_of_app, list_elem_of_singleton. apply elem_of_cons in Hmain. tauto.
Qed.

(** The fields of a task change. *)
Lemma allocated_insert a ts c x y : ts !! c = Some x → allocated a ts → allocated a (<[c := y]> ts).
Proof.
  intros Hx [H1 H2]. split; intros t; destruct (decide (t = c)) as [->|Hne]; rewrite ?lookup_insert_eq, ?lookup_insert_ne by done; [done|apply H1| |apply H2].
  intros _. apply H2. by exists x.
Qed.

(** [task_switch_to] from the task [c], which has left the front of the ring. *)
Lemma task_switch_run a s c x set k : same_fields a (mk_state (links_ s) (tasks s) (current a) (preempt_count s) (masked s) (main_waits s) (exited s) (log s)) →
  tasks s !! c = Some x → done_ a = false →
  (∀ t, t ∈ ring a → t ≠ c → suspended a s t) →
  (c ∈ ring a → reap_self x = false ∧ unstarted a !! c = None ∧ masked s = true ∧ set = true ∧ k = FromHandler false) →
  ∃ s', task_switch_to task_main task_reap c (current a) set k s = Ok (tt, s') ∧ running (run_first task_main a) s'.
Proof.
  intros HF Hx Hdone Hsus Hc. unfold task_switch_to, set_task_current, set_ctx, set_tasks.
  rewrite (bind_ok _ _ _ _ _ (modify_run _ _)), (bind_ok _ _ _ _ _ (gets_run _ _)).
  rewrite bind_assoc. erewrite get_task_run by exact Hx. rewrite bind_assoc, (bind_ok _ _ _ _ _ (gets_run _ _)), (bind_ok _ _ _ _ _ (modify_run _ _)).
  cbn [links_ tasks task_current preempt_count masked main_waits exited log]. apply run_first_run; [|done]. split.
  - destruct HF as (HL&Hz&HF). split; [exact HL|]. split; [|exact HF]. by apply (allocated_insert _ _ _ x).
  - intros t Ht. destruct (decide (t = c)) as [->|Hne].
    + destruct (Hc Ht) as (Hr&Hu&Hm&->&->). eexists. cbn. rewrite lookup_insert_eq, Hu, Hm. split; [done|]. by split.
    + destruct (Hsus t Ht Hne) as (y&Hy&Hy'). exists y. split; [|done]. cbn. by rewrite lookup_insert_ne.
Qed.

Lemma truthy_next h r zs c : lists_ok h r zs → c ∈ r → truthy c = true.
Proof.
  intros HL Hc. destruct (lists_ok_nodup _ _ _ HL) as (_&H0&_). unfold truthy. rewrite (proj2 (Z.eqb_neq c 0)); [done|]. by intros ->.
Qed.

Lemma current_next l c : hd c l = hd 0 (l ++ [c]).
Proof. by destruct l. Qed.

(** The timer expires while preemption is enabled. *)
Lemma tick_run a s : running a s → done_ a = false → depth a = 0 →
  ∃ s', timer_signal task_main task_reap s = Ok (tt, s') ∧
    running (run_first task_main (with_ring a (tail (ring a) ++ [current a]) (zombies a))) s'.
Proof.
  intros [(HL&Hz&Hum&Hdep&Hpc&Hw&He&Hlog&Hcur) (Hm&Hu&(x&Hx&Hrs)&Hsus)] Hdone Hd0. unfold timer_signal, schedule, set_masked.
  rewrite (bind_ok _ _ _ _ _ (gets_run _ _)), Hm, (bind_ok _ _ _ _ _ (modify_run _ _)), (bind_ok _ _ _ _ _ (gets_run _ _)).
  cbn [preempt_count masked]. rewrite Hpc, Hd0. cbn [truthy negb Z.eqb].
  rewrite (bind_ok _ _ _ _ _ (gets_run _ _)), (bind_ok _ _ _ _ _ (modify_run _ _)), (bind_ok _ _ _ _ _ (gets_run _ _)).
  cbn [links_ tasks task_current preempt_count masked main_waits exited log]. rewrite Hcur.
  pose proof HL as (c&l&Hr&Hdc&_). assert (current a = c) as Hc by (unfold current; by rewrite Hr). rewrite Hc, Hr in *. cbn [tail].
  erewrite on_links_get by (apply gets_some_ok; exact (dlist_first _ _ _ Hdc)).
  set (a' := with_ring a (l ++ [c]) (zombies a)). assert (hd c l = current a') as Hn by apply current_next.
  pose proof (lists_ok_rotate _ _ _ _ HL) as HL'. rewrite Hn, (truthy_next _ _ _ _ HL').
  2: { unfold a', current. cbn. destruct l; by left. }
  erewrite get_task_run by exact Hx. rewrite Hrs, (bind_ok _ _ _ _ _ (ret_run _ _)).
  eapply task_switch_run; [|exact Hx|done| |done].
  - unfold same_fields. cbn. rewrite Hd0. split_and!; try done; try lia.
    destruct Hz as [Hz1 Hz2]. split; [done|]. intros t Ht. specialize (Hz2 t Ht). rewrite Hr in Hz2. cbn.
    rewrite elem_of_cons in Hz2. rewrite elem_of_app, list_elem_of_singleton. tauto.
  - intros t Ht Htc. apply Hsus. cbn in Ht. rewrite elem_of_app, list_elem_of_singleton in Ht. tauto.
Qed.

(** [list_move(&task_current->list, &task_reap)] *)
Lemma list_move_run h c l zs : lists_ok h (c :: l) zs → c ≠ task_main →
  ∃ h', list_move c task_reap h = Ok (tt, h') ∧ lists_ok h' l (c :: zs).
Proof.
  intros (c'&l'&[= <- <-]&Hdc&Hdr&Hnd&Hmain) Hc. apply elem_of_cons in Hmain as [->|Hmain]; [done|].
  destruct l as [|d l]; [by apply not_elem_of_nil in Hmain|].
  apply NoDup_cons in Hnd as [H0 Hnd]. apply NoDup_cons in Hnd as [H1 Hnd]. apply NoDup_app in Hnd as (H2&H3&H4).
  apply (dlist_rotate _ _ []) in Hdc. destruct (list_del_spec _ _ _ _ _ Hdc) as (h1&Hr1&Hd1&Hf1). rewrite app_nil_r in *.
  rewrite elem_of_app in H1. assert (H1' : task_reap ∉ zs) by tauto. assert (H1'' : task_reap ∉ c :: d :: l) by tauto. clear H1; rename H1'' into H1.
  assert (dlist h1 task_reap zs) as Hz1.
  { eapply dlist_frame; [exact Hf1| |exact Hdr]. intros p [->|Hp]%elem_of_cons Hp'; [apply H1; by right|].
    apply (H3 p); [by right|done]. }
  assert (live h1 c) as Hlive by (apply Hf1; eapply dlist_live; [exact Hdc|]; right; apply elem_of_app; right; by left).
  assert (c ∉ task_reap :: zs) as Hcz.
  { rewrite elem_of_cons. intros [->|Hcz]; [apply H1; by left|]. apply (H3 c); [by left|done]. }
  destruct (list_add_spec _ _ _ _ Hz1 Hlive Hcz) as (h2&Hr2&Hd2&Hf2).
  exists h2. split; [unfold list_move; by rewrite (bind_ok _ _ _ _ _ Hr1)|]. apply NoDup_cons in H2 as [H5 H2].
  exists d, l. split; [done|]. split; [|split; [done|split; [|done]]].
  - eapply dlist_frame; [exact Hf2| |exact Hd1]. intros p Hp [->|[->|Hp']%elem_of_cons]%elem_of_cons; [done| |].
    + apply H1. by right.
    + apply (H3 p); [by right|done].
  - eapply NoDup_Permutation_proper; [|apply list.NoDup_cons; split; [exact H0|]; apply list.NoDup_cons; split;
      [|apply list.NoDup_app; split; [|split; [exact H3|exact H4]]]].
    + by rewrite <- Permutation_middle.
    + rewrite elem_of_app. tauto.
    + by apply list.NoDup_cons.
Qed.

(** The callback of a task returns. *)
Lemma return_run a s : running a s → done_ a = false → current a ≠ task_main →
  ∃ s', callback_return task_main task_reap s = Ok (tt, s') ∧
    running (run_first task_main (with_ring a (tail (ring a)) (current a :: zombies a))) s'.
Proof.
  intros [(HL&Hz&Hum&Hdep&Hpc&Hw&He&Hlog&Hcur) (Hm&Hu&(x&Hx&Hrs)&Hsus)] Hdone Hcm.
  pose proof HL as (c&l&Hr&Hdc&_&_&Hmain). assert (current a = c) as Hc by (unfold current; by rewrite Hr). rewrite Hc, Hr in *. cbn [tail].
  destruct l as [|d l]; [by apply list_elem_of_singleton in Hmain|].
  unfold callback_return, set_reap_self, schedule, set_masked, set_tasks.
  rewrite (bind_ok _ _ _ _ _ (gets_run _ _)), Hcur, bind_assoc. erewrite get_task_run by exact Hx.
  rewrite bind_assoc, (bind_ok _ _ _ _ _ (gets_run _ _)), (bind_ok _ _ _ _ _ (modify_run _ _)).
  rewrite (bind_ok _ _ _ _ _ (gets_run _ _)), (bind_ok _ _ _ _ _ (modify_run _ _)), (bind_ok _ _ _ _ _ (gets_run _ _)).
  cbn [links_ tasks task_current preempt_count masked main_waits exited log]. rewrite Hcur, Hm.
  erewrite on_links_get by (apply gets_some_ok; exact (dlist_first _ _ _ Hdc)). cbn [hd].
  rewrite (truthy_next _ _ _ d HL) by (right; by left).
  erewrite get_task_run by (cbn; apply lookup_insert_eq). cbn [reap_self].
  destruct (list_move_run _ _ _ _ HL Hcm) as (h'&Hh'&HL'). erewrite on_links_run by exact Hh'.
  cbn [links_ tasks task_current preempt_count masked main_waits exited log].
  set (a' := with_ring a (d :: l) (c :: zombies a)). change d with (current a') at 1.
  destruct (lists_ok_nodup _ _ _ HL) as (Hnd&_). apply NoDup_cons in Hnd as [Hcl _].
  eapply (task_switch_run a'); [|cbn; apply lookup_insert_eq|done| |].
  - unfold same_fields. cbn. split_and!; try done; try lia. apply (allocated_insert _ _ _ x); [done|]. destruct Hz as [Hz1 Hz2].
    split; [intros t [->|Ht]%elem_of_cons; [by exists x|by apply Hz1]|]. intros t Ht. specialize (Hz2 t Ht). rewrite Hr in Hz2. cbn.
    rewrite !elem_of_cons in Hz2. rewrite !elem_of_cons. tauto.
  - intros t Ht Htc. destruct (Hsus t Ht) as (y&Hy&Hy'). exists y. split; [|done]. cbn. by rewrite lookup_insert_ne.
  - intros Hin. by destruct (Hcl Hin).
Qed.

(** The running code, in every other respect as before, with a depth. *)
Lemma depth_run a s n : running a s → 0 ≤ n < 2 ^ 31 - 1 → ∃ s', set_preempt_count n s = Ok (tt, s') ∧ running (with_depth a n) s'.
Proof.
  intros [(?&?&?&?&?&?&?&?&?) HR] Hn. eexists. split; [done|]. split; [split_and!|exact HR]; try done; cbn; lia.
Qed.

Lemma sched_step_run e a a' s : running a s → sched_step task_main e a = Some a' →
  ∃ s', exec_event task_main task_reap e s = Ok (tt, s') ∧ running a' s'.
Proof.
  intros HR. unfold sched_step. destruct (done_ a) eqn:Hdone; [done|].
  pose proof HR as [(HL&Hz&Hum&Hdep&Hpc&Hw&He&Hlog&Hcur) (Hm&Hrest)]. destruct e; cbn [exec_event].
  - intros [= <-]. destruct (Z.eqb_spec (depth a) 0) as [Hd|Hd]; [by apply tick_run|].
    unfold timer_signal, set_masked. rewrite (bind_ok _ _ _ _ _ (gets_run _ _)), Hm, (bind_ok _ _ _ _ _ (modify_run _ _)).
    rewrite (bind_ok _ _ _ _ _ (gets_run _ _)). cbn [preempt_count]. unfold truthy. rewrite Hpc, (proj2 (Z.eqb_neq _ _) Hd). cbn [negb].
    apply sigreturn_run; [|done]. by destruct HR as [(?&?&?&?&?&?&?&?&?) (?&?)].
  - case_bool_decide as Hc; [|done]. destruct Hc as [_ Hlt]. intros [= <-]. unfold preempt_disable.
    rewrite (bind_ok _ _ _ _ _ (gets_run _ _)), Hpc, wraps_small by lia. apply depth_run; [done|lia].
  - case_bool_decide as Hc; [|done]. destruct Hc as [_ Hlt]. intros [= <-]. unfold preempt_enable.
    rewrite (bind_ok _ _ _ _ _ (gets_run _ _)), Hpc, wraps_small by lia. apply depth_run; [done|lia].
  - case_bool_decide as Hc; [|done]. intros [= <-]. by apply return_run.
  - case_bool_decide as Hc; [|done]. intros [= <-]. eexists. split; [done|].
    split; [split_and!|split; [done|exact Hrest]]; try done; cbn; first [lia|congruence].
Qed.

Lemma sched_run_exec es a a' s : running a s → sched_run task_main es a = Some a' →
  ∃ s', exec task_main task_reap es s = Ok (tt, s') ∧ running a' s'.
Proof.
  revert a s. induction es as [|e es IH]; intros a s HR; cbn [sched_run exec]; [intros [= <-]; by exists s|].
  destruct (sched_step task_main e a) as [a1|] eqn:Hs; [|done]. intros Hes.
  destruct (sched_step_run _ _ _ _ HR Hs) as (s1&Hs1&HR1). rewrite (bind_ok _ _ _ _ _ Hs1). by apply (IH a1).
Qed.

(** *** The start of the program *)

(** [main] runs and has added tasks. *)
Definition starting (l : list Z) (m : gmap Z Z) : sched := mk_sched (task_main :: l) [] m 0 false false [].

Lemma task_add_run l m f s : running (starting l m) s →
  ∃ p s', task_add task_main calloc f s = Ok (tt, s') ∧ p ∉ task_main :: l ∧ running (starting (l ++ [p]) (<[p := f]> m)) s'.
Proof.
  intros [((c&l'&[= <- <-]&Hdc&Hdr&Hnd&Hmain)&Hz&Hum&Hdep&Hpc&Hw&He&Hlog&Hcur) (Hm&Hu&(x&Hx&Hrs)&Hsus)].
  set (p := calloc (links_ s)). destruct (calloc_fresh (links_ s)) as [Hp Hp0]. fold p in Hp, Hp0.
  assert (p ∉ task_main :: l) as Hpl by (intros Hin; destruct (dlist_live _ _ _ _ Hdc Hin); congruence).
  assert (p ∉ [task_reap]) as Hpr by (intros Hin; destruct (dlist_live _ _ _ _ Hdr Hin); congruence).
  exists p. unfold task_add, task_alloc. rewrite bind_assoc, (bind_ok _ _ _ _ _ (gets_run _ _)). fold p. unfold set_links, set_tasks.
  rewrite bind_assoc, (bind_ok _ _ _ _ _ (modify_run _ _)), bind_assoc, (bind_ok _ _ _ _ _ (gets_run _ _)).
  rewrite bind_assoc, (bind_ok _ _ _ _ _ (modify_run _ _)), (bind_ok _ _ _ _ _ (ret_run _ _)), (bind_ok _ _ _ _ _ (gets_run _ _)).
  unfold set_ctx, set_tasks. rewrite bind_assoc. erewrite get_task_run by (cbn; apply lookup_insert_eq).
  rewrite bind_assoc, (bind_ok _ _ _ _ _ (gets_run _ _)), (bind_ok _ _ _ _ _ (modify_run _ _)).
  unfold preempt_disable, preempt_enable, set_preempt_count. rewrite bind_assoc, (bind_ok _ _ _ _ _ (gets_run _ _)), (bind_ok _ _ _ _ _ (modify_run _ _)).
  cbn [links_ tasks task_current preempt_count masked main_waits exited log callback reap_self]. rewrite insert_insert_eq, Hm, Hpc. cbn [orb depth starting].
  assert (dlist (<[p := mk_list_head 0 0]> (links_ s)) task_main l) as Hdc1.
  { eapply dlist_agree; [|exact Hdc]. intros q Hq. apply lookup_insert_ne. by intros ->. }
  destruct (list_add_tail_spec _ _ _ p Hdc1) as (h2&Hr2&Hd2&Hf2); [eexists; apply lookup_insert_eq|done|].
  erewrite on_links_run by exact Hr2. rewrite (bind_ok _ _ _ _ _ (gets_run _ _)), modify_run.
  eexists. split; [done|]. split; [done|]. cbn.
  cbn in Hnd. rewrite app_nil_r in *. apply NoDup_cons in Hnd as [H0 Hnd]. apply NoDup_cons in Hnd as [H1 Hnd].
  assert (NoDup (0 :: task_reap :: task_main :: l ++ [p])) as Hnd'.
  { eapply NoDup_Permutation_proper; [rewrite (Permutation_app_comm l); do 3 constructor; reflexivity|].
    clear -H0 H1 Hnd Hp0 Hpl Hpr. rewrite elem_of_cons in H0. rewrite !elem_of_cons in Hpl. rewrite list_elem_of_singleton in Hpr. cbn.
    apply NoDup_cons in Hnd as [H2 Hnd]. rewrite !list.NoDup_cons, !elem_of_cons. rewrite elem_of_cons in H1, H0. intuition congruence. }
  split; [split_and!|split_and!]; try done; cbn.
  - exists task_main, (l ++ [p]). split_and!; [done|done| |by rewrite app_nil_r|by left].
    eapply dlist_frame; [exact Hf2| |].
    + intros q ->%list_elem_of_singleton Hin. rewrite !elem_of_cons in Hin. rewrite elem_of_cons in H1.
      rewrite list_elem_of_singleton in Hpr. intuition congruence.
    + eapply dlist_agree; [|exact Hdr]. intros q Hq. apply lookup_insert_ne. by intros ->.
  - destruct Hz as [Hz1 Hz2]. split; [intros t Ht; by apply not_elem_of_nil in Ht|]. intros t Ht. cbn. rewrite elem_of_cons, elem_of_app, list_elem_of_singleton.
    destruct (decide (t = p)) as [->|Hne]; [left; right; by right|]. rewrite lookup_insert_ne in Ht by done. left.
    destruct (Hz2 t Ht) as [Hin|Hin]; [|by apply not_elem_of_nil in Hin]. cbn in Hin. rewrite elem_of_cons in Hin. tauto.
  - rewrite lookup_insert_ne; [done|]. intros ->. apply Hpl. by left.
  - rewrite lookup_insert_ne; [done|]. intros ->. apply Hpl. by left.
  - exists x. rewrite lookup_insert_ne; [done|]. intros ->. apply Hpl. by left.
  - intros t Ht. unfold suspended. cbn. destruct (decide (t = p)) as [->|Hne].
    + rewrite !lookup_insert_eq. eexists. split; [done|]. by split.
    + rewrite !lookup_insert_ne by done. apply Hsus. cbn. rewrite elem_of_app, list_elem_of_singleton in Ht. tauto.
Qed.

Lemma add_all_run funcs l m s : running (starting l m) s →
  ∃ ps s', add_all task_main calloc funcs s = Ok (tt, s') ∧ ps.*2 = funcs ∧
    running (starting (l ++ ps.*1) (list_to_map ps ∪ m)) s'.
Proof.
  revert l m s. induction funcs as [|f funcs IH]; intros l m s HR; cbn [add_all].
  - exists [], s. assert (list_to_map ([] : list (Z * Z)) ∪ m = m) as -> by apply (left_id_L ∅ (∪)). by rewrite app_nil_r.
  - destruct (task_add_run _ _ f _ HR) as (p&s1&Hs1&Hp&HR1). rewrite (bind_ok _ _ _ _ _ Hs1).
    destruct (IH _ _ _ HR1) as (ps&s2&Hs2&Hps&HR2). exists ((p, f) :: ps), s2. split; [done|]. split; [by cbn; rewrite Hps|].
    rewrite <- app_assoc in HR2. cbn [fmap list_fmap fst list_to_map foldr uncurry]. rewrite <- insert_union_l, insert_union_r; [exact HR2|].
    apply not_elem_of_list_to_map. destruct HR2 as [(HL&_) _]. destruct (lists_ok_nodup _ _ _ HL) as (Hnd&_).
    cbn in Hnd. apply NoDup_cons in Hnd as [_ Hnd]. apply NoDup_app in Hnd as (_&_&Hnd). by apply NoDup_cons in Hnd as [Hnd _].
Qed.

Lemma boot_running : ∃ s, task_init task_main (boot task_main task_reap) = Ok (tt, s) ∧ running (starting [] ∅) s.
Proof.
  apply NoDup_cons in heads_differ as [H0 Hnd]. apply NoDup_cons in Hnd as [H1 _].
  assert (task_reap ≠ task_main) as Hne by (intros ->; apply H1; by left).
  unfold task_init, boot, set_task_current. set (h := <[task_reap := _]> _).
  destruct (init_list_head_spec h task_main) as (h'&Hh'&Hd'&Hf'); [unfold h; eexists; by rewrite lookup_insert_ne, lookup_singleton_eq|].
  erewrite on_links_run by exact Hh'. rewrite modify_run. eexists. split; [done|]. cbn.
  split; [split_and!|split_and!]; try done; cbn.
  - exists task_main, []. split_and!; [done|done| | |by left].
    + eapply dlist_frame; [exact Hf'|by intros p ->%list_elem_of_singleton ->%list_elem_of_singleton|].
      split; [apply NoDup_singleton|]. unfold h. cbn. unfold next_of, prev_of. by rewrite lookup_insert_eq.
    + clear -H0 H1 Hne. cbn. rewrite !list.NoDup_cons. split_and!; [set_solver..|apply NoDup_nil_2].
  - split; cbn; [intros t Ht; by apply not_elem_of_nil in Ht|]. intros t [x [<- _]%lookup_singleton_Some]. left. by left.
  - eexists. by rewrite lookup_singleton_eq.
  - intros t Ht. by apply not_elem_of_nil in Ht.
Qed.

(** The tasks that the program adds, with their callbacks, in the order of the
    ring. *)
Definition added (funcs : list Z) : list (Z * Z) :=
  match bind (task_init task_main) (λ _, add_all task_main calloc funcs) (boot task_main task_reap) with
  | Ok (_, s) =>
      match list_for_each (length funcs) task_main (links_ s) with
      | Ok (ts, _) => zip ts funcs
      | Err _ => []
      end
  | Err _ => []
  end.

Lemma program_run funcs : (added funcs).*2 = funcs ∧ NoDup (task_main :: (added funcs).*1) ∧
  ∀ es a, sched_run task_main es (sched_start task_main (added funcs)) = Some a →
  ∃ s, program task_main task_reap calloc funcs es (boot task_main task_reap) = Ok (tt, s) ∧ running a s.
Proof.
  destruct boot_running as (s0&Hs0&HR0). destruct (add_all_run funcs _ _ _ HR0) as (ps&s1&Hs1&Hps&HR1).
  assert (added funcs = ps) as ->.
  { unfold added. rewrite (bind_ok _ _ _ _ _ Hs0), Hs1. destruct HR1 as [((c&l&[= <- <-]&Hd&_)&_) _].
    rewrite (list_for_each_spec _ _ _ _ Hd) by (rewrite <- Hps; cbn; by rewrite !length_fmap).
    rewrite <- Hps at 1. cbn. apply zip_fst_snd. }
  destruct (main_test_run _ _ HR1 eq_refl) as (s2&Hs2&HR2).
  assert (with_done (starting ([] ++ ps.*1) (list_to_map ps ∪ ∅)) (false || finished task_main (starting ([] ++ ps.*1) (list_to_map ps ∪ ∅))) =
    sched_start task_main ps) as Heq.
  { unfold with_done, starting, sched_start, finished. cbn. rewrite (right_id_L ∅ (∪)). f_equal. apply bool_decide_ext.
    destruct ps; naive_solver. }
  cbn [done_ starting] in HR2. rewrite Heq in HR2. split; [done|]. split.
  - destruct HR1 as [(HL&_) _]. by destruct (lists_ok_nodup _ _ _ HL) as (Hnd&_).
  - intros es a Ha. unfold program. rewrite (bind_ok _ _ _ _ _ Hs0), (bind_ok _ _ _ _ _ Hs1).
    rewrite <- (bind_assoc preempt_disable (λ _, main_test task_main task_reap)), (bind_ok _ _ _ _ _ Hs2).
    by apply (sched_run_exec es (sched_start task_main ps) a).
Qed.
End refinement.

(** ** The life of a task *)

Definition about (e : log_entry) : Z := match e with Started t _ => t | Destroyed t => t end.
Definition events_of (t : Z) (l : list log_entry) : list log_entry := filter (λ e, about e = t) l.

#[local] Arguments events_of : simpl never.

Lemma events_of_app t l1 l2 : events_of t (l1 ++ l2) = events_of t l1 ++ events_of t l2.
Proof. apply filter_app. Qed.

Lemma events_of_destroyed t zs : NoDup zs → events_of t (Destroyed <$> zs) = if decide (t ∈ zs) then [Destroyed t] else [].
Proof.
  unfold events_of. induction zs as [|z zs IH]; intros Hnd; [done|]. apply NoDup_cons in Hnd as [Hz Hnd].
  rewrite fmap_cons, filter_cons. cbn [about]. rewrite IH by done. destruct (decide (z = t)) as [->|Hne].
  - rewrite decide_False by done. by rewrite decide_True by (by left).
  - apply decide_ext. rewrite elem_of_cons. split; [by right|]. intros [->|?]; [done|done].
Qed.

Section life.
Context (task_main : Z) (ps : list (Z * Z)) (ps_nodup : NoDup (task_main :: ps.*1)).

(** A task waits to start, has started, or has been released. *)
Definition life (a : sched) (t f : Z) : Prop :=
  (t ∈ ring a ∧ unstarted a !! t = Some f ∧ events_of t (trace a) = []) ∨
  ((t ∈ ring a ∨ t ∈ zombies a) ∧ unstarted a !! t = None ∧ events_of t (trace a) = [Started t f]) ∨
  (t ∉ ring a ∧ t ∉ zombies a ∧ unstarted a !! t = None ∧ events_of t (trace a) = [Started t f; Destroyed t]).

Record inv (a : sched) : Prop := {
  inv_nodup : NoDup (ring a ++ zombies a);
  inv_main : task_main ∈ ring a;
  inv_life : ∀ t f, (t, f) ∈ ps → life a t f;
  inv_tasks : ∀ t, t ∈ ring a ++ zombies a → t = task_main ∨ t ∈ ps.*1;
  inv_others : ∀ t, t ∉ ps.*1 → events_of t (trace a) = [] ∧ unstarted a !! t = None;
  inv_done : done_ a = true → ring a = [task_main] ∧ zombies a = [];
}.

Lemma inv_with_ring a r zs : inv a → done_ a = false → r ++ zs ≡ₚ ring a ++ zombies a → task_main ∈ r →
  (∀ t, t ∈ zs → unstarted a !! t = None) → inv (with_ring a r zs).
Proof.
  intros [H1 H2 H3 H4 H5 H6] Hdone Hp Hm Hz. split; cbn; [|done| | |done|congruence].
  - by apply (NoDup_Permutation_proper _ _ Hp).
  - intros t f Ht. assert (t ∈ r ∨ t ∈ zs ↔ t ∈ ring a ∨ t ∈ zombies a) as He.
    { rewrite <- !elem_of_app. by apply elem_of_Permutation_proper. }
    specialize (Hz t). unfold life. cbn. destruct (H3 t f Ht) as [(Hr&Hu&Hev)|[(Hr&Hu&Hev)|(Hr&Hr'&Hu&Hev)]].
    + left. split; [|done]. destruct (proj2 He (or_introl Hr)) as [|Hz']; [done|]. specialize (Hz Hz'). congruence.
    + right; left. split; [|done]. tauto.
    + right; right. tauto.
  - intros t Ht. apply H4. by apply (elem_of_Permutation_proper t _ _ Hp).
Qed.

Lemma inv_main_goes_on a : inv a → inv (main_goes_on task_main a).
Proof.
  unfold main_goes_on. intros HI. destruct (_ && _); [|done]. destruct HI as [H1 H2 H3 H4 H5 H6]. split; try done.
  cbn. unfold finished. by intros Hf%bool_decide_eq_true.
Qed.

Lemma main_goes_on_unstarted a : unstarted (main_goes_on task_main a) = unstarted a ∧ current (main_goes_on task_main a) = current a.
Proof. unfold main_goes_on. by destruct (_ && _). Qed.

Lemma task_callback t : t ∈ ps.*1 → ∃ f, (t, f) ∈ ps.
Proof. intros ([t' f]&->&Hin)%list_elem_of_fmap. by exists f. Qed.

Lemma run_first_inv a : inv a → done_ a = false → current a ∈ ring a →
  inv (run_first task_main a) ∧ unstarted (run_first task_main a) !! current (run_first task_main a) = None.
Proof.
  intros HI Hdone Hin. pose proof HI as [H1 H2 H3 H4 H5 H6]. unfold run_first. set (c := current a) in *.
  apply NoDup_app in H1 as (Hr&Hrz&Hz). destruct (unstarted a !! c) as [f|] eqn:Hu.
  - assert (c ∈ ps.*1) as Hc by (destruct (decide (c ∈ ps.*1)) as [|Hn]; [done|]; by rewrite (proj2 (H5 c Hn)) in Hu).
    assert (∀ t, t ≠ c → events_of t [Started c f] = []) as Hev.
    { intros t Ht. unfold events_of. rewrite filter_cons. cbn. by rewrite decide_False by done. }
    split; [|apply lookup_delete_eq]. split; cbn; [by apply NoDup_app|done| |done| |congruence].
    + intros t g Ht. unfold life. cbn. rewrite events_of_app. destruct (decide (t = c)) as [->|Hne].
      * destruct (H3 _ _ Ht) as [(_&Hu'&He)|[(_&Hu'&_)|(_&_&Hu'&_)]]; rewrite Hu in Hu'; [|done..].
        injection Hu' as <-. right; left. rewrite He, lookup_delete_eq. split; [by left|]. split; [done|].
        unfold events_of. rewrite filter_cons. cbn. by rewrite decide_True.
      * rewrite Hev, app_nil_r, lookup_delete_ne by done. by apply H3.
    + intros t Ht. rewrite events_of_app, Hev, app_nil_r by (by intros ->). rewrite lookup_delete_ne by (by intros ->). by apply H5.
  - destruct (main_goes_on_unstarted (mk_sched (ring a) [] (unstarted a) (depth a) (waits a) (done_ a) (trace a ++ (Destroyed <$> zombies a))))
      as [-> ->]. split; [|exact Hu]. apply inv_main_goes_on. split; cbn; [by rewrite app_nil_r|done| | | |congruence].
    + intros t g Ht. unfold life. cbn. rewrite events_of_app, events_of_destroyed by done.
      destruct (H3 _ _ Ht) as [(Hr1&Hu1&He1)|[(Hr1&Hu1&He1)|(Hr1&Hr2&Hu1&He1)]]; rewrite He1.
      * left. rewrite decide_False by (by apply Hrz). done.
      * right. destruct (decide (t ∈ zombies a)) as [Hzt|Hzt]; [right|left].
        -- split; [|split; [apply not_elem_of_nil|done]]. intros Hr'. by apply (Hrz t).
        -- split; [|done]. tauto.
      * right; right. rewrite decide_False by done. split; [done|]. split; [apply not_elem_of_nil|done].
    + intros t Ht. apply H4. rewrite app_nil_r in Ht. apply elem_of_app. by left.
    + intros t Ht. rewrite events_of_app, events_of_destroyed by done. rewrite decide_False; [rewrite app_nil_r; by apply H5|].
      intros Hzt. destruct (H4 t) as [->|]; [apply elem_of_app; by right| |done]. by apply (Hrz task_main).
Qed.

Lemma zombies_started a t : inv a → t ∈ zombies a → unstarted a !! t = None.
Proof.
  intros [H1 H2 H3 H4 H5 H6] Ht. apply NoDup_app in H1 as (_&Hrz&_).
  destruct (H4 t) as [->|Hp]; [apply elem_of_app; by right|by apply H5; apply NoDup_cons in ps_nodup as [? _]|].
  destruct (task_callback t Hp) as [f Hf]. destruct (H3 _ _ Hf) as [(Hr&_)|[(_&Hu&_)|(_&_&Hu&_)]]; [|done..].
  by destruct (Hrz t Hr).
Qed.

Lemma current_in a : inv a → ∃ l, ring a = current a :: l.
Proof. intros [_ H2 _ _ _ _]. unfold current. destruct (ring a) as [|c l]; [by apply not_elem_of_nil in H2|]. by exists l. Qed.

Lemma sched_step_inv e a a' : inv a → unstarted a !! current a = None → sched_step task_main e a = Some a' →
  inv a' ∧ unstarted a' !! current a' = None.
Proof.
  intros HI Hu. unfold sched_step. destruct (done_ a) eqn:Hdone; [done|]. destruct (current_in a HI) as [l Hr].
  pose proof HI as [H1 H2 H3 H4 H5 H6]. destruct e.
  - intros [= <-]. destruct (depth a =? 0).
    + apply run_first_inv; [|done|cbn; rewrite Hr; unfold current; cbn; destruct l; by left].
      apply inv_with_ring; [done|done| | |intros t; by apply zombies_started].
      * rewrite Hr. cbn. by rewrite (Permutation_app_comm l).
      * rewrite Hr in *. cbn. rewrite elem_of_app, list_elem_of_singleton. apply elem_of_cons in H2. tauto.
    + destruct (main_goes_on_unstarted a) as [-> ->]. split; [by apply inv_main_goes_on|done].
  - case_bool_decide; [|done]. intros [= <-]. by split.
  - case_bool_decide; [|done]. intros [= <-]. by split.
  - case_bool_decide as Hc; [|done]. intros [= <-]. assert (task_main ∈ l) as Hm.
    { rewrite Hr in H2. apply elem_of_cons in H2 as [H2|H2]; [by rewrite <- H2 in Hc|done]. }
    apply run_first_inv; [|done|cbn; rewrite Hr; unfold current; cbn; destruct l; [by apply not_elem_of_nil in Hm|by left]].
    apply inv_with_ring; [done|done| | |].
    + rewrite Hr. cbn. by rewrite <- Permutation_middle.
    + by rewrite Hr.
    + intros t [->|Ht]%elem_of_cons; [done|by apply zombies_started].
  - case_bool_decide; [|done]. intros [= <-]. split; [|done]. by split.
Qed.

Lemma sched_run_inv es a a' : inv a → unstarted a !! current a = None → sched_run task_main es a = Some a' →
  inv a' ∧ unstarted a' !! current a' = None.
Proof.
  revert a. induction es as [|e es IH]; intros a HI Hu; cbn [sched_run]; [by intros [= <-]|].
  destruct (sched_step task_main e a) as [a1|] eqn:Hs; [|done]. destruct (sched_step_inv _ _ _ HI Hu Hs). by apply IH.
Qed.

Lemma sched_start_inv : inv (sched_start task_main ps) ∧ unstarted (sched_start task_main ps) !! task_main = None.
Proof.
  apply NoDup_cons in ps_nodup as [Hm Hnd]. split; [|by apply not_elem_of_list_to_map].
  split; cbn.
  - rewrite app_nil_r. by apply list.NoDup_cons.
  - by left.
  - intros t f Ht. left. split; [|split; [|done]]; cbn.
    + right. apply list_elem_of_fmap. by exists (t, f).
    + by apply elem_of_list_to_map.
  - intros t Ht. rewrite app_nil_r in Ht. by apply elem_of_cons in Ht.
  - intros t Ht. split; [done|]. by apply not_elem_of_list_to_map.
  - intros Hp%bool_decide_eq_true. by rewrite Hp.
Qed.

(** *** Rounds *)

Lemma run_first_keeps a : ring (run_first task_main a) = ring a ∧ depth (run_first task_main a) = depth a ∧
  ((1 < length (ring a))%nat → done_ a = false → done_ (run_first task_main a) = false).
Proof.
  unfold run_first, main_goes_on. destruct (_ !! _); [done|]. cbn. destruct (_ && _); cbn; [|done].
  split; [done|]. split; [done|]. intros Hl _. unfold finished. cbn. apply bool_decide_eq_false_2.
  intros [Hr _]. rewrite Hr in Hl. cbn in Hl. lia.
Qed.

Lemma ticks_rotate i a l1 l2 : ring a = l1 ++ l2 → length l1 = i → l2 ≠ [] → depth a = 0 → done_ a = false →
  ∃ a', sched_run task_main (replicate i Tick) a = Some a' ∧ ring a' = l2 ++ l1.
Proof.
  revert a l1 l2. induction i as [|i IH]; intros a l1 l2 Hr Hl H2 Hd Hdone.
  - apply length_zero_iff_nil in Hl as ->. exists a. by rewrite app_nil_r.
  - destruct l1 as [|c l1]; [done|]. cbn in Hl. cbn [replicate sched_run]. unfold sched_step. rewrite Hdone, Hd. cbn [Z.eqb].
    set (a1 := run_first _ _). destruct (run_first_keeps (with_ring a (tail (ring a) ++ [current a]) (zombies a))) as (Hr1&Hd1&Hdone1).
    fold a1 in Hr1, Hd1, Hdone1. unfold current in Hr1. rewrite Hr in Hr1, Hdone1. cbn in Hr1, Hd1, Hdone1.
    destruct (IH a1 l1 (l2 ++ [c])) as (a'&Ha'&Hr'); [by rewrite Hr1, <- app_assoc|lia|by destruct l2|congruence| |].
    + apply Hdone1; [|done]. rewrite !length_app. cbn. destruct l2; cbn; [done|lia].
    + exists a'. split; [done|]. by rewrite Hr', <- app_assoc.
Qed.

Lemma sched_run_app es1 es2 a a1 : sched_run task_main es1 a = Some a1 →
  sched_run task_main (es1 ++ es2) a = sched_run task_main es2 a1.
Proof.
  revert a. induction es1 as [|e es1 IH]; intros a; cbn [sched_run app]; [by intros [= <-]|].
  destruct (sched_step task_main e a); [apply IH|done].
Qed.
End life.

(** ** Properties *)

Section properties.
Context (task_main task_reap : Z) (calloc : gmap Z list_head → Z).
Context (heads_differ : NoDup [0; task_main; task_reap]).
Context (calloc_fresh : ∀ h, h !! calloc h = None ∧ calloc h ≠ 0).

(** C6: the scheduler refines a round-robin scheduler: for every sequence of
    timer signals, preemption calls, returns of callbacks and waits of [main]
    that the running code can make, the program runs without undefined
    behaviour (no use of a released task, no return into a finished
    [task_trampoline]) and starts and releases the tasks in the order of the
    specification; the same task runs, SIGALRM is unblocked whenever code of a
    task or of [main] runs, and the allocated tasks are [main], those that have
    not returned and those that nobody has released yet. *)
Theorem sched_refines funcs es a :
  sched_run task_main es (sched_start task_main (added task_main task_reap calloc funcs)) = Some a →
  ∃ s, program task_main task_reap calloc funcs es (boot task_main task_reap) = Ok (tt, s) ∧
    log s = trace a ∧ exited s = done_ a ∧ task_current s = current a ∧ preempt_count s = depth a ∧ masked s = false ∧
    ∀ t, is_Some (tasks s !! t) ↔ t ∈ ring a ∨ t ∈ zombies a.
Proof.
  intros Ha. destruct (program_run _ _ _ heads_differ calloc_fresh funcs) as (_&_&Hrun).
  destruct (Hrun _ _ Ha) as (s&Hs&(HL&[Hz1 Hz2]&_&_&?&_&?&?&?)&?&_&(x&Hx&_)&Hsus).
  exists s. split_and!; try done. intros t. split; [apply Hz2|]. intros [Ht|Ht]; [|by apply Hz1].
  destruct HL as (c&l&Hr&_). unfold current in Hx. rewrite Hr in Ht, Hx, Hsus.
  apply elem_of_cons in Ht as [->|Ht]; [by exists x|]. destruct (Hsus t Ht) as (y&Hy&_). by exists y.
Qed.

(** C20: whatever the running code does, every task starts at most once, with its
    callback, and is released at most once, after it has started; the running
    task is never released.  When [main] has ended, every task has been started
    and released, and only [task_main] is left. *)
Theorem tasks_run_once funcs es a :
  sched_run task_main es (sched_start task_main (added task_main task_reap calloc funcs)) = Some a →
  ∃ s, program task_main task_reap calloc funcs es (boot task_main task_reap) = Ok (tt, s) ∧
    (added task_main task_reap calloc funcs).*2 = funcs ∧
    (∀ t f, (t, f) ∈ added task_main task_reap calloc funcs →
      ∃ l, events_of t (log s) ++ l = [Started t f; Destroyed t] ∧ (exited s = true → l = [])) ∧
    Destroyed (task_current s) ∉ log s ∧
    (exited s = true → task_current s = task_main ∧ dom (tasks s) = {[task_main]}).
Proof.
  intros Ha. destruct (program_run _ _ _ heads_differ calloc_fresh funcs) as (Hsnd&Hnd&Hrun).
  destruct (Hrun _ _ Ha) as (s&Hs&(HL&[Hz1 Hz2]&_&_&_&_&He&Hlog&Hcur)&_&_&(x&Hx&_)&Hsus).
  set (ps := added task_main task_reap calloc funcs) in *. destruct (sched_start_inv task_main ps Hnd) as [HI0 Hu0].
  destruct (sched_run_inv task_main ps Hnd es _ _ HI0 Hu0 Ha) as [HI Hu]. destruct (current_in _ _ _ HI) as [l Hr].
  pose proof HI as [H1 H2 H3 H4 H5 H6].
  exists s. rewrite Hlog, He, Hcur. split; [done|]. split; [done|]. split; [|split].
  - intros t f Ht. destruct (H3 _ _ Ht) as [(Hin&Hut&->)|[(Hin&Hut&->)|(Hr1&Hr2&Hut&->)]].
    + eexists. split; [done|]. intros Hd. destruct (H6 Hd) as [Hr' _]. rewrite Hr' in Hin. apply list_elem_of_singleton in Hin as ->.
      apply NoDup_cons in Hnd as [Hm _]. by rewrite (proj2 (H5 _ Hm)) in Hut.
    + eexists. split; [done|]. intros Hd. destruct (H6 Hd) as [Hr' Hz']. rewrite Hr', Hz' in Hin.
      apply NoDup_cons in Hnd as [Hm _]. destruct Hin as [->%list_elem_of_singleton|Hin%not_elem_of_nil]; [|done].
      destruct Hm. apply list_elem_of_fmap. by exists (task_main, f).
    + by exists [].
  - intros Hin. assert (Destroyed (current a) ∈ events_of (current a) (trace a)) as Hev by (by apply list_elem_of_filter).
    assert (current a ∈ ring a) as Hc by (rewrite Hr; by left).
    destruct (decide (current a ∈ ps.*1)) as [Hp|Hp]; [|rewrite (proj1 (H5 _ Hp)) in Hev; by apply not_elem_of_nil in Hev].
    destruct (task_callback ps _ Hp) as [f Hf]. destruct (H3 _ _ Hf) as [(_&_&He')|[(_&_&He')|(Hn&_)]]; [| |done]; rewrite He' in Hev.
    + by apply not_elem_of_nil in Hev.
    + by apply list_elem_of_singleton in Hev.
  - intros Hd. destruct (H6 Hd) as [Hr' Hz']. unfold current. rewrite Hr'. split; [done|]. apply set_eq. intros t.
    rewrite elem_of_dom, elem_of_singleton. split.
    + intros Ht. destruct (Hz2 t Ht) as [Hin|Hin]; [rewrite Hr' in Hin; by apply list_elem_of_singleton in Hin|].
      rewrite Hz' in Hin. by apply not_elem_of_nil in Hin.
    + intros ->. exists x. unfold current in Hx. by rewrite Hr' in Hx.
Qed.

(** C34: round robin: while preemption is enabled, the task at place [i] of the
    ring runs after [i] expirations of the timer, wherever the program is. *)
Theorem sched_round_robin funcs es a i t :
  sched_run task_main es (sched_start task_main (added task_main task_reap calloc funcs)) = Some a →
  done_ a = false → depth a = 0 → ring a !! i = Some t →
  ∃ s, program task_main task_reap calloc funcs (es ++ replicate i Tick) (boot task_main task_reap) = Ok (tt, s) ∧
    task_current s = t.
Proof.
  intros Ha Hdone Hd Hi. destruct (program_run _ _ _ heads_differ calloc_fresh funcs) as (_&_&Hrun).
  pose proof (lookup_lt_Some _ _ _ Hi) as Hlt.
  destruct (ticks_rotate task_main i a (take i (ring a)) (drop i (ring a))) as (a'&Ha'&Hr'); [by rewrite take_drop|
    rewrite length_take; lia|rewrite (drop_S _ _ _ Hi); done|done|done|].
  rewrite <- (sched_run_app _ _ _ _ _ Ha) in Ha'. destruct (Hrun _ _ Ha') as (s&Hs&(_&_&_&_&_&_&_&_&Hcur)&_).
  exists s. split; [done|]. rewrite Hcur. unfold current. rewrite Hr', (drop_S _ _ _ Hi). done.
Qed.
End properties.

(** *** Instances *)

(** An allocator. *)
Definition fresh_address (h : gmap Z list_head) : Z := fresh (dom h ∪ {[0]}).

Lemma fresh_address_fresh h : h !! fresh_address h = None ∧ fresh_address h ≠ 0.
Proof.
  pose proof (is_fresh (dom h ∪ {[0]})) as Hf. fold (fresh_address h) in Hf. rewrite elem_of_union, elem_of_singleton in Hf.
  split; [apply not_elem_of_dom|]; tauto.
Qed.

Lemma sample_heads : NoDup [0; 16; 32].
Proof. by apply (bool_decide_unpack _). Qed.

(** [main] adds two tasks with the callbacks 101 and 102 and waits; both run in
    turns, one of them with preemption disabled for a while, and return. *)
Definition sample_events : list event :=
  [Wait; Tick; Tick; Disable; Tick; Enable; Tick; Wait; Tick; Return; Tick; Tick; Return; Wait; Tick].

Definition sample_end (es : list event) : sched :=
  default (sched_start 16 []) (sched_run 16 es (sched_start 16 (added 16 32 fresh_address [101; 102]))).

Example sched_refines_witness :
  done_ (sample_end sample_events) = true ∧
  ∃ s, program 16 32 fresh_address [101; 102] sample_events (boot 16 32) = Ok (tt, s) ∧
    log s = trace (sample_end sample_events) ∧ exited s = done_ (sample_end sample_events) ∧
    task_current s = current (sample_end sample_events) ∧ preempt_count s = depth (sample_end sample_events) ∧ masked s = false ∧
    ∀ t, is_Some (tasks s !! t) ↔ t ∈ ring (sample_end sample_events) ∨ t ∈ zombies (sample_end sample_events).
Proof.
  split; [vm_compute; reflexivity|].
  exact (sched_refines 16 32 fresh_address sample_heads fresh_address_fresh [101; 102] sample_events _ ltac:(vm_compute; reflexivity)).
Defined.

Example tasks_run_once_witness :
  ∃ s, program 16 32 fresh_address [101; 102] sample_events (boot 16 32) = Ok (tt, s) ∧
    (added 16 32 fresh_address [101; 102]).*2 = [101; 102] ∧
    (∀ t f, (t, f) ∈ added 16 32 fresh_address [101; 102] →
      ∃ l, events_of t (log s) ++ l = [Started t f; Destroyed t] ∧ (exited s = true → l = [])) ∧
    Destroyed (task_current s) ∉ log s ∧
    (exited s = true → task_current s = 16 ∧ dom (tasks s) = {[16]}).
Proof.
  exact (tasks_run_once 16 32 fresh_address sample_heads fresh_address_fresh [101; 102] sample_events
    (sample_end sample_events) ltac:(vm_compute; reflexivity)).
Defined.

Example sched_round_robin_witness :
  ∃ s, program 16 32 fresh_address [101; 102] ([Wait; Tick] ++ [Tick; Tick]) (boot 16 32) = Ok (tt, s) ∧ task_current s = 16.
Proof.
  exact (sched_round_robin 16 32 fresh_address sample_heads fresh_address_fresh [101; 102] [Wait; Tick]
    (sample_end [Wait; Tick]) 2 16 ltac:(vm_compute; reflexivity) ltac:(vm_compute; reflexivity) ltac:(vm_compute; reflexivity)
    ltac:(vm_compute; reflexivity)).
Defined.
