(* ===== verification/Proxy.v ===== *)
(** * The port forwarder of proxy/proxy.c

    Connections live on the heap and in [expire_list], a list of list.h whose
    nodes are part of them; here a node has the address of its connection.  The
    kernel has sockets with the bytes that are still to be read and those that
    were written, pipes, and the set of descriptors that epoll watches; its
    answers are the state's, so that every result a call can have occurs.  A
    negative answer is a failure. *)
From S2P Require Import Prelude ListHead.
From stdpp Require Import gmap list.
#[local] Open Scope Z_scope.
#[local] Open Scope c_scope.

(** ** State *)

Record buffer := mk_buffer { pipe0 : Z; pipe1 : Z; bytes : Z }.
Record conn := mk_conn { other : Z; fd : Z; buf : buffer; expire : Z }.

(** A pipe is known by its write end. *)
Inductive file :=
| Socket (input output : list Z)
| PipeRead (pipe : Z)
| PipeWrite (content : list Z).

(** [events] is the address of the array of events. *)
Record world := mk_world {
  nodes : gmap Z list_head;
  conns : gmap Z conn;
  files : gmap Z file;
  status : gmap Z Z;
  watched : gmap Z Z;
  events : Z;
  num_events : Z;
  max_events : Z;
  answers : list Z;
}.

Definition with_nodes x w := mk_world x (conns w) (files w) (status w) (watched w) (events w) (num_events w) (max_events w) (answers w).
Definition with_conns x w := mk_world (nodes w) x (files w) (status w) (watched w) (events w) (num_events w) (max_events w) (answers w).
Definition with_files x w := mk_world (nodes w) (conns w) x (status w) (watched w) (events w) (num_events w) (max_events w) (answers w).
Definition with_status x w := mk_world (nodes w) (conns w) (files w) x (watched w) (events w) (num_events w) (max_events w) (answers w).
Definition with_watched x w := mk_world (nodes w) (conns w) (files w) (status w) x (events w) (num_events w) (max_events w) (answers w).
Definition with_events x w := mk_world (nodes w) (conns w) (files w) (status w) (watched w) x (num_events w) (max_events w) (answers w).
Definition with_num_events x w := mk_world (nodes w) (conns w) (files w) (status w) (watched w) (events w) x (max_events w) (answers w).
Definition with_max_events x w := mk_world (nodes w) (conns w) (files w) (status w) (watched w) (events w) (num_events w) x (answers w).
Definition with_answers x w := mk_world (nodes w) (conns w) (files w) (status w) (watched w) (events w) (num_events w) (max_events w) x.
Definition set_nodes x := modify (with_nodes x).
Definition set_conns x := modify (with_conns x).
Definition set_files x := modify (with_files x).
Definition set_status x := modify (with_status x).
Definition set_watched x := modify (with_watched x).
Definition set_events x := modify (with_events x).
Definition set_num_events x := modify (with_num_events x).
Definition set_max_events x := modify (with_max_events x).
Definition set_answers x := modify (with_answers x).

(** ** The system *)

Definition answer : M world Z :=
  l ← gets answers;
  match l with
  | [] => ret (-1)
  | a :: l => set_answers l ;; ret a
  end.

(** A descriptor that is not open. *)
Definition new_fd (f : file) : M world Z :=
  a ← answer;
  fs ← gets files;
  if (a <? 0) || (2 ^ 31 <=? a) || bool_decide (is_Some (fs !! a)) then ret (-1)
  else set_files (<[a := f]> fs) ;; ret a.

(** Closing a descriptor also takes it out of the epoll set. *)
Definition close (fd : Z) : M world unit :=
  fs ← gets files;
  set_files (delete fd fs) ;;
  st ← gets status;
  set_status (delete fd st) ;;
  ws ← gets watched;
  set_watched (delete fd ws).

(** The status flags of a descriptor; a socket starts with [O_RDWR]. *)
Definition O_RDWR : Z := 2.
Definition O_NONBLOCK : Z := 2048.
Definition F_GETFL (fd : Z) : M world Z := st ← gets status; ret (default O_RDWR (st !! fd)).
Definition F_SETFL (fd flags : Z) : M world unit := st ← gets status; set_status (<[fd := flags]> st).

Definition EPOLL_CTL_ADD (fd ptr : Z) : M world Z :=
  a ← answer;
  ws ← gets watched;
  if (a <? 0) || bool_decide (is_Some (ws !! fd)) then ret (-1)
  else set_watched (<[fd := ptr]> ws) ;; ret 0.

Definition EPOLL_CTL_DEL (fd : Z) : M world Z :=
  ws ← gets watched;
  set_watched (delete fd ws) ;; ret 0.

(** The number of bytes that [splice] moves: at most [len], those that there are
    and those for which there is room; the kernel may move fewer. *)
Definition amount (a len available room : Z) : Z := Z.min (Z.min a len) (Z.min available room).

(** What [splice] returns: bytes that were moved, the end of the input, EAGAIN, or
    another error. *)
Inductive splice_result :=
| Moved (n : Z)
| AtEnd
| Again
| Failed.

Section system.
(** How many bytes a pipe holds. *)
Context (PIPE_SIZE : Z).

Definition splice (in_fd out_fd len : Z) : M world splice_result :=
  a ← answer;
  fs ← gets files;
  match fs !! in_fd, fs !! out_fd with
  | Some (Socket input output), Some (PipeWrite content) =>
      let n := amount a len (Z.of_nat (length input)) (PIPE_SIZE - Z.of_nat (length content)) in
      if a =? 0 then ret AtEnd
      else if a =? -1 then ret Again
      else if a <? 0 then ret Failed
      else if n <=? 0 then ret Again
      else
        set_files (<[out_fd := PipeWrite (content ++ take (Z.to_nat n) input)]>
                   (<[in_fd := Socket (drop (Z.to_nat n) input) output]> fs)) ;;
        ret (Moved n)
  | Some (PipeRead p), Some (Socket input output) =>
      match fs !! p with
      | Some (PipeWrite content) =>
          let n := amount a len (Z.of_nat (length content)) a in
          if a =? 0 then ret AtEnd
          else if a =? -1 then ret Again
          else if a <? 0 then ret Failed
          else if n <=? 0 then ret Again
          else
            set_files (<[p := PipeWrite (drop (Z.to_nat n) content)]>
                       (<[out_fd := Socket input (output ++ take (Z.to_nat n) content)]> fs)) ;;
            ret (Moved n)
      | _ => ret Failed
      end
  | _, _ => ret Failed
  end.

(** ** Objects *)

Definition get_conn (p : Z) : M world conn := gets_some (λ w, conns w !! p).
Definition put_conn (p : Z) (c : conn) : M world unit :=
  get_conn p ;;
  cs ← gets conns;
  set_conns (<[p := c]> cs).

Definition on_nodes {A} (m : M (gmap Z list_head) A) : M world A :=
  h ← gets nodes;
  match m h with
  | Ok (a, h') => set_nodes h' ;; ret a
  | Err e => fail e
  end.

(** [&expire_list], and what [malloc] returns: an address and what the memory
    there holds. *)
Context (expire_list connection_timeout : Z).
Context (malloc : gmap Z list_head → Z) (garbage : Z → list_head * conn).

Definition setnonblock (fd : Z) (cache : Z) : M world Z :=
  flags ← if cache =? -1 then F_GETFL fd else ret cache;
  F_SETFL fd (Z.lor flags O_NONBLOCK) ;;
  ret flags.

Definition MIN_EVENTS : Z := 32.

(** The array may move when it grows. *)
Definition epoll_add (fd ptr : Z) : M world Z :=
  n ← gets num_events;
  set_num_events (n + 1) ;;
  m ← gets max_events;
  (if m <=? n + 1 then
     set_max_events (Z.max (m * 2) MIN_EVENTS) ;;
     a ← answer;
     set_events a
   else ret tt) ;;
  EPOLL_CTL_ADD fd ptr.

Definition epoll_del (fd : Z) : M world Z :=
  n ← gets num_events;
  set_num_events (n - 1) ;;
  massert (0 <=? n - 1) ;;
  EPOLL_CTL_DEL fd.

(** [newbuffer(&conn->buf)] *)
Definition newbuffer (p : Z) : M world bool :=
  w ← new_fd (PipeWrite []);
  if w <? 0 then ret false
  else
    r ← new_fd (PipeRead w);
    if r <? 0 then close w ;; ret false
    else
      c ← get_conn p;
      put_conn p (mk_conn (other c) (fd c) (mk_buffer r w (bytes (buf c))) (expire c)) ;;
      ret true.

Definition delbuffer (b : buffer) : M world unit :=
  close (pipe0 b) ;;
  close (pipe1 b).

Definition delconn (p : Z) : M world unit :=
  on_nodes (list_del p) ;;
  c ← get_conn p;
  delbuffer (buf c) ;;
  epoll_del (fd c) ;;
  close (fd c) ;;
  h ← gets nodes;
  set_nodes (delete p h) ;;
  cs ← gets conns;
  set_conns (delete p cs).

Definition newconn (fd_ now : Z) : M world Z :=
  h ← gets nodes;
  let p := malloc h in
  let '(n, c) := garbage p in
  set_nodes (<[p := n]> h) ;;
  cs ← gets conns;
  set_conns (<[p := mk_conn (other c) fd_ (buf c) (expire c)]> cs) ;;
  b ← newbuffer p;
  if negb b then delconn p ;; ret 0
  else
    r ← epoll_add fd_ p;
    if r <? 0 then delconn p ;; ret 0
    else
      c ← get_conn p;
      put_conn p (mk_conn (other c) (fd c) (buf c) (now + connection_timeout)) ;;
      on_nodes (list_add_tail p expire_list) ;;
      ret p.

(** The new socket has [input] to read. *)
Definition new_request (input : list Z) (cache now : Z) : M world Z :=
  newsk ← new_fd (Socket input []);
  if newsk <? 0 then ret cache
  else
    cache ← setnonblock newsk cache;
    newconn newsk now ;;
    ret cache.

(** -2 is EINPROGRESS. *)
Definition openconn (input : list Z) (cache other_ now : Z) : M world (Z * Z) :=
  outfd ← new_fd (Socket input []);
  if outfd <? 0 then ret (0, cache)
  else
    cache ← setnonblock outfd cache;
    n ← answer;
    if (n <? 0) && negb (n =? -2) then close outfd ;; ret (0, cache)
    else
      p ← newconn outfd now;
      (if truthy p then
         c ← get_conn p;
         put_conn p (mk_conn other_ (fd c) (buf c) (expire c)) ;;
         c ← get_conn other_;
         put_conn other_ (mk_conn p (fd c) (buf c) (expire c))
       else ret tt) ;;
      ret (p, cache).

Definition BUFSZ : Z := 16384.

Definition set_bytes (p n : Z) : M world unit :=
  c ← get_conn p;
  put_conn p (mk_conn (other c) (fd c) (mk_buffer (pipe0 (buf c)) (pipe1 (buf c)) n) (expire c)).

(** [move_data_in(srcfd, &conn->buf)] *)
Fixpoint move_data_in (fuel : nat) (srcfd p : Z) : M world bool :=
  match fuel with
  | O => fail Exhausted
  | S fuel =>
      c ← get_conn p;
      n ← splice srcfd (pipe1 (buf c)) BUFSZ;
      match n with
      | Moved n => set_bytes p (i32 (bytes (buf c) + n)) ;; move_data_in fuel srcfd p
      | AtEnd => ret false
      | Again => ret true
      | Failed => ret false
      end
  end.

(** [move_data_out(&conn->buf, dstfd)] *)
Fixpoint move_data_out (fuel : nat) (p dstfd : Z) : M world bool :=
  match fuel with
  | O => fail Exhausted
  | S fuel =>
      c ← get_conn p;
      if 0 <? bytes (buf c) then
        n ← splice (pipe0 (buf c)) dstfd (Z.min (bytes (buf c)) BUFSZ);
        match n with
        | Moved n => set_bytes p (i32 (bytes (buf c) - n)) ;; move_data_out fuel p dstfd
        | AtEnd | Again => ret true
        | Failed => ret false
        end
      else ret true
  end.

Definition closeconn (p : Z) : M world unit :=
  c ← get_conn p;
  (if truthy (other c) then delconn (other c) else ret tt) ;;
  delconn p.

(** [list_for_each_entry_safe (conn, tmp, &expire_list, expire_node)] *)
Fixpoint expire_loop (fuel : nat) (p tmp now : Z) : M world Z :=
  if p =? expire_list then ret (-1)
  else match fuel with
  | O => fail Exhausted
  | S fuel =>
      c ← get_conn p;
      if now <? expire c then ret (i32 ((expire c - now) * 1000))
      else
        closeconn p ;;
        next ← on_nodes (get_next tmp);
        expire_loop fuel tmp next now
  end.

Definition expire_connections (now : Z) : M world Z :=
  h ← gets nodes;
  p ← on_nodes (get_next expire_list);
  tmp ← on_nodes (get_next p);
  expire_loop (size h) p tmp now.

Definition touch_conn (p now : Z) : M world unit :=
  c ← get_conn p;
  put_conn p (mk_conn (other c) (fd c) (buf c) (now + connection_timeout)) ;;
  on_nodes (list_del p) ;;
  on_nodes (list_add_tail p expire_list).

(** ** The loop of [main] *)

Definition EPOLLIN : Z := 1.
Definition EPOLLOUT : Z := 4.
Definition EPOLLERR : Z := 8.
Definition EPOLLHUP : Z := 16.
Definition has (flags m : Z) : bool := truthy (Z.land flags m).

(** A load of [ev->events], where [ev] points into the array at [block]. *)
Definition load_flags (block flags : Z) : M world Z :=
  e ← gets events;
  if e =? block then ret flags else fail Undefined.

(** [ioctl(fd, FIONREAD, &len)], with [len] 0 when it fails. *)
Definition FIONREAD (fd : Z) : M world Z :=
  a ← answer;
  fs ← gets files;
  match fs !! fd with
  | Some (Socket input _) => ret (if a <? 0 then 0 else Z.of_nat (length input))
  | _ => ret 0
  end.

(** Enough rounds for all bytes that can be moved. *)
Definition rounds (w : world) : nat :=
  S (sum_list_with (λ x, match x.2 with Socket i _ => length i | PipeWrite c => length c | _ => 0%nat end) (map_to_list (files w))).

Definition lift_in (srcfd p : Z) : M world bool := w ← gets id; move_data_in (rounds w) srcfd p.
Definition lift_out (p dstfd : Z) : M world bool := w ← gets id; move_data_out (rounds w) p dstfd.

Section event.
(** What new sockets have to read, and the time. *)
Context (incoming outgoing : list Z) (now : Z).

(** The first part of an event with input: [None] when the connection is closed,
    or the other connection. *)
Definition handle_input (p other_ cache_out : Z) : M world (option Z * Z) :=
  touch_conn p now ;;
  '(o, cache_out) ← if negb (truthy other_) then openconn outgoing cache_out p now else ret (other_, cache_out);
  c ← get_conn p;
  in_ ← lift_in (fd c) p;
  oc ← get_conn o;
  out ← lift_out p (fd oc);
  if negb in_ || negb out then closeconn p ;; ret (None, cache_out)
  else
    touch_conn o now ;;
    ret (Some o, cache_out).

Definition handle_output (p o : Z) : M world unit :=
  c ← get_conn p;
  r ← lift_out o (fd c);
  (if negb r then delconn p else touch_conn p now) ;;
  oc ← get_conn o;
  len ← FIONREAD (fd oc);
  if 0 <? len then
    r ← lift_in (fd oc) o;
    if negb r then closeconn o else ret tt
  else ret tt.

(** An event: its connection (NULL for the listening socket) and its flags. *)
Definition handle_event (p flags : Z) (caches : Z * Z) : M world (Z * Z) :=
  let '(cache_in, cache_out) := caches in
  block ← gets events;
  if negb (truthy p) then
    if has flags EPOLLIN then cache_in ← new_request incoming cache_in now; ret (cache_in, cache_out)
    else ret caches
  else if has flags (Z.lor EPOLLERR EPOLLHUP) then closeconn p ;; ret caches
  else
    c ← get_conn p;
    '(o, cache_out) ←
      (if has flags EPOLLIN then handle_input p (other c) cache_out else ret (Some (other c), cache_out));
    match o with
    | None => ret (cache_in, cache_out)
    | Some o =>
        flags ← load_flags block flags;
        (if has flags EPOLLOUT && truthy o then handle_output p o else ret tt) ;;
        ret (cache_in, cache_out)
    end.

Fixpoint handle_events (evs : list (Z * Z)) (caches : Z * Z) : M world (Z * Z) :=
  match evs with
  | [] => ret caches
  | (p, flags) :: evs => caches ← handle_event p flags caches; handle_events evs caches
  end.

(** A round of the loop: the events of [epoll_wait], and the new time-out. *)
Definition round (evs : list (Z * Z)) (caches : Z * Z) : M world (Z * Z * Z) :=
  '(cache_in, cache_out) ← handle_events evs caches;
  timeo ← expire_connections now;
  ret (cache_in, cache_out, timeo).
End event.
End system.

(** ** Forwarding *)

Section forwarding.
Context (PIPE_SIZE : Z) (PIPE_SIZE_fits : 0 < PIPE_SIZE < 2 ^ 31).

(** The connection [p] with its pipe, which holds [content], between the socket
    [s], which still has [input] to read, and [d], to which [output] was
    written. *)
Definition forwards (p s d : Z) (input content output : list Z) (w : world) : Prop :=
  ∃ c so di, conns w !! p = Some c ∧ s ≠ d ∧
  files w !! s = Some (Socket input so) ∧ files w !! d = Some (Socket di output) ∧
  files w !! pipe1 (buf c) = Some (PipeWrite content) ∧ files w !! pipe0 (buf c) = Some (PipeRead (pipe1 (buf c))) ∧
  bytes (buf c) = Z.of_nat (length content) ∧ Z.of_nat (length content) ≤ PIPE_SIZE.

Lemma get_conn_run {B} (f : conn → M world B) w p c : conns w !! p = Some c → bind (get_conn p) f w = f c w.
Proof. intros H. apply bind_ok. by apply gets_some_ok. Qed.

Lemma answer_run w : ∃ a l, answer w = Ok (a, with_answers l w).
Proof.
  unfold answer, bind, gets, set_answers, modify, ret. destruct (answers w) as [|a l] eqn:H; [|by eexists _, _].
  exists (-1), []. unfold with_answers. rewrite <- H. by destruct w.
Qed.

Lemma set_bytes_run w p c n : conns w !! p = Some c →
  set_bytes p n w = Ok (tt, mk_world (nodes w) (<[p := mk_conn (other c) (fd c) (mk_buffer (pipe0 (buf c)) (pipe1 (buf c)) n) (expire c)]> (conns w))
    (files w) (status w) (watched w) (events w) (num_events w) (max_events w) (answers w)).
Proof. intros H. unfold set_bytes, put_conn. do 2 erewrite get_conn_run by exact H. done. Qed.

(** The write end of the pipe of a connection. *)
Definition write_end (w : world) (p : Z) : option Z := (λ c, pipe1 (buf c)) <$> conns w !! p.

(** What forwarding for [p] from [s] to [d] leaves alone: the pipes, and the
    forwarding of other connections in the other direction. *)
Definition kept (p s d : Z) (w w' : world) : Prop :=
  (∀ q, write_end w' q = write_end w q) ∧
  ∀ q i ct o, q ≠ p → write_end w q ≠ write_end w p → forwards q d s i ct o w → forwards q d s i ct o w'.

Lemma kept_refl p s d w w' : conns w' = conns w → files w' = files w → kept p s d w w'.
Proof.
  intros Hc Hf. split; [intros q; unfold write_end; by rewrite Hc|].
  intros q i ct o _ _ (c&so&di&HF). exists c, so, di. by rewrite Hc, Hf.
Qed.

Lemma kept_transitive p s d w1 w2 w3 : kept p s d w1 w2 → kept p s d w2 w3 → kept p s d w1 w3.
Proof.
  intros [H1 H2] [H3 H4]. split; [intros q; by rewrite H3, H1|]. intros q i ct o Hq Hw HF. apply H4; [done|by rewrite !H1|by apply H2].
Qed.

(** Storing a new state of the sockets and of the pipe of [p]. *)
Lemma kept_store p s d w w' c n ip op ip' op' id od id' od' ct : conns w !! p = Some c →
  conns w' = <[p := mk_conn (other c) (fd c) (mk_buffer (pipe0 (buf c)) (pipe1 (buf c)) n) (expire c)]> (conns w) →
  files w !! s = Some (Socket ip op) → files w !! d = Some (Socket id od) → s ≠ d → files w !! pipe1 (buf c) = Some (PipeWrite ct) →
  op' = op → id' = id →
  (∃ ct', files w' = <[pipe1 (buf c) := PipeWrite ct']> (<[s := Socket ip' op']> (<[d := Socket id' od']> (files w)))) →
  kept p s d w w'.
Proof.
  intros Hc Hcs Hs Hd Hsd H1 -> -> [ct' Hfs]. split.
  - intros q. unfold write_end. rewrite Hcs. destruct (decide (q = p)) as [->|Hq]; [by rewrite lookup_insert_eq, Hc|by rewrite lookup_insert_ne].
  - intros q i ctq o Hq Hw (cq&so&di&Hcq&_&Hs'&Hd'&Hq1&Hq0&Hbq). exists cq, od', ip'.
    assert (pipe1 (buf cq) ≠ pipe1 (buf c)) by (intros Heq; apply Hw; unfold write_end; rewrite Hcq, Hc; cbn; by rewrite Heq).
    rewrite Hs in Hd'. injection Hd' as -> ->. rewrite Hd in Hs'. injection Hs' as -> ->.
    assert (pipe1 (buf c) ≠ s ∧ pipe1 (buf c) ≠ d ∧ pipe1 (buf cq) ≠ s ∧ pipe1 (buf cq) ≠ d ∧ pipe0 (buf cq) ≠ s ∧ pipe0 (buf cq) ≠ d ∧
      pipe0 (buf cq) ≠ pipe1 (buf c)) as (?&?&?&?&?&?&?) by (split_and!; intros Heq; rewrite Heq in *; congruence).
    rewrite Hcs, lookup_insert_ne, Hfs by done. split; [done|]. split; [done|].
    split; [rewrite 2!lookup_insert_ne by done; by rewrite lookup_insert_eq|].
    split; [rewrite lookup_insert_ne by done; by rewrite lookup_insert_eq|].
    split; [by rewrite !lookup_insert_ne|]. split; [by rewrite !lookup_insert_ne|]. done.
Qed.

(** A call of [splice] on the way in moves bytes from the socket to the pipe, or
    nothing. *)
Lemma splice_in_run p s d i ct o w c len : forwards p s d i ct o w → conns w !! p = Some c →
  ∃ r w', splice PIPE_SIZE s (pipe1 (buf c)) len w = Ok (r, w') ∧ conns w' = conns w ∧
  match r with
  | Moved n => ∃ i1 i2 so, i = i1 ++ i2 ∧ 0 < n ∧ n = Z.of_nat (length i1) ∧ Z.of_nat (length (ct ++ i1)) ≤ PIPE_SIZE ∧
      files w' = <[pipe1 (buf c) := PipeWrite (ct ++ i1)]> (<[s := Socket i2 so]> (files w)) ∧ ∃ x, files w !! s = Some (Socket x so)
  | _ => files w' = files w
  end.
Proof.
  intros (c'&so&di&Hc'&Hsd&Hs&Hd&H1&H0&Hb&Hl) Hc. rewrite Hc in Hc'. injection Hc' as <-.
  unfold splice. destruct (answer_run w) as (a&l&Ha). rewrite (bind_ok _ _ _ _ _ Ha), (bind_ok _ _ _ _ _ (gets_run _ _)).
  cbn [files with_answers]. rewrite Hs, H1. set (n := amount a len _ _).
  destruct (a =? 0); [by eexists _, _|]. destruct (a =? -1); [by eexists _, _|]. destruct (a <? 0); [by eexists _, _|].
  destruct (Z.leb_spec n 0) as [Hn|Hn]; [by eexists _, _|].
  assert (n ≤ Z.of_nat (length i) ∧ n ≤ PIPE_SIZE - Z.of_nat (length ct)) as [Hn1 Hn2] by (unfold n, amount; lia).
  eexists _, _. split; [done|]. split; [done|]. exists (take (Z.to_nat n) i), (drop (Z.to_nat n) i), so.
  rewrite take_drop, length_app, length_take. split_and!; [done|done|lia|lia|done|by eexists].
Qed.

Lemma move_data_in_run fuel p s d i ct o w : forwards p s d i ct o w → (length i < fuel)%nat →
  ∃ b w' i1 i2, move_data_in PIPE_SIZE fuel s p w = Ok (b, w') ∧ i = i1 ++ i2 ∧ forwards p s d i2 (ct ++ i1) o w' ∧ kept p s d w w'.
Proof.
  revert i ct w. induction fuel as [|fuel IH]; intros i ct w HF Hf; [lia|]. pose proof HF as (c&so&di&Hc&Hsd&Hs&Hd&H1&H0&Hb&Hl).
  cbn [move_data_in]. erewrite get_conn_run by exact Hc.
  destruct (splice_in_run _ _ _ _ _ _ _ _ BUFSZ HF Hc) as (r&w1&Hr&Hcs&Hw1). rewrite (bind_ok _ _ _ _ _ Hr).
  destruct r as [n| | |].
  - destruct Hw1 as (i1&i2&so'&->&Hn0&->&Hle&Hfs&x&Hx). rewrite Hs in Hx. injection Hx as <- <-.
    rewrite (bind_ok _ _ _ _ _ (set_bytes_run w1 p c _ ltac:(by rewrite Hcs))).
    match goal with |- context [move_data_in _ _ _ _ ?w2] => assert (forwards p s d i2 (ct ++ i1) o w2) as HF2; [|assert (kept p s d w w2) as HK2] end.
    { assert (pipe1 (buf c) ≠ s ∧ pipe1 (buf c) ≠ d ∧ pipe0 (buf c) ≠ s ∧ pipe0 (buf c) ≠ pipe1 (buf c)) as (?&?&?&?)
        by (split_and!; intros Heq; rewrite Heq in *; congruence).
      eexists _, so, di. split; [apply lookup_insert_eq|]. cbn [files buf pipe0 pipe1 bytes]. rewrite length_app in *.
      rewrite Hfs, wraps_small, Hb by lia. split; [done|].
      split; [by rewrite lookup_insert_ne, lookup_insert_eq|]. split; [by rewrite !lookup_insert_ne|].
      split; [by rewrite lookup_insert_eq|]. split; [by rewrite !lookup_insert_ne|]. lia. }
    { eapply (kept_store _ _ _ _ _ c _ _ _ i2 so _ _ di o); [exact Hc|cbn; by rewrite Hcs|exact Hs|exact Hd|done|exact H1|done..|].
      exists (ct ++ i1). cbn. rewrite Hfs. f_equal. by rewrite (insert_id _ d). }
    rewrite length_app in Hf. destruct (IH _ _ _ HF2) as (b&w'&j1&j2&Hr'&->&HF'&HK'); [lia|].
    exists b, w', (i1 ++ j1), j2. rewrite <- !app_assoc in *. split_and!; [done..|]. by eapply kept_transitive.
  - exists false, w1, [], i. rewrite app_nil_r. split_and!; [done..| |by apply kept_refl]. exists c, so, di. by rewrite Hcs, Hw1.
  - exists true, w1, [], i. rewrite app_nil_r. split_and!; [done..| |by apply kept_refl]. exists c, so, di. by rewrite Hcs, Hw1.
  - exists false, w1, [], i. rewrite app_nil_r. split_and!; [done..| |by apply kept_refl]. exists c, so, di. by rewrite Hcs, Hw1.
Qed.

Lemma splice_out_run p s d i ct o w c len : forwards p s d i ct o w → conns w !! p = Some c →
  ∃ r w', splice PIPE_SIZE (pipe0 (buf c)) d len w = Ok (r, w') ∧ conns w' = conns w ∧
  match r with
  | Moved n => ∃ c1 c2 di, ct = c1 ++ c2 ∧ 0 < n ∧ n = Z.of_nat (length c1) ∧ files w !! d = Some (Socket di o) ∧
      files w' = <[pipe1 (buf c) := PipeWrite c2]> (<[d := Socket di (o ++ c1)]> (files w))
  | _ => files w' = files w
  end.
Proof.
  intros (c'&so&di&Hc'&Hsd&Hs&Hd&H1&H0&Hb&Hl) Hc. rewrite Hc in Hc'. injection Hc' as <-.
  unfold splice. destruct (answer_run w) as (a&l&Ha). rewrite (bind_ok _ _ _ _ _ Ha), (bind_ok _ _ _ _ _ (gets_run _ _)).
  cbn [files with_answers]. rewrite H0, Hd, H1. set (n := amount a len _ _).
  destruct (a =? 0); [by eexists _, _|]. destruct (a =? -1); [by eexists _, _|]. destruct (a <? 0); [by eexists _, _|].
  destruct (Z.leb_spec n 0) as [Hn|Hn]; [by eexists _, _|].
  assert (n ≤ Z.of_nat (length ct)) as Hn1 by (unfold n, amount; lia).
  eexists _, _. split; [done|]. split; [done|]. exists (take (Z.to_nat n) ct), (drop (Z.to_nat n) ct), di.
  rewrite take_drop, length_take. split_and!; [done|done|lia|done|done].
Qed.

Lemma move_data_out_run fuel p s d i ct o w : forwards p s d i ct o w → (length ct < fuel)%nat →
  ∃ b w' c1 c2, move_data_out PIPE_SIZE fuel p d w = Ok (b, w') ∧ ct = c1 ++ c2 ∧ forwards p s d i c2 (o ++ c1) w' ∧ kept p s d w w'.
Proof.
  revert ct o w. induction fuel as [|fuel IH]; intros ct o w HF Hf; [lia|]. pose proof HF as (c&so&di&Hc&Hsd&Hs&Hd&H1&H0&Hb&Hl).
  cbn [move_data_out]. erewrite get_conn_run by exact Hc.
  destruct (0 <? bytes (buf c)); [|exists true, w, [], ct; rewrite app_nil_r; split_and!; [done..|by apply kept_refl]].
  destruct (splice_out_run _ _ _ _ _ _ _ _ (Z.min (bytes (buf c)) BUFSZ) HF Hc) as (r&w1&Hr&Hcs&Hw1). rewrite (bind_ok _ _ _ _ _ Hr).
  destruct r as [n| | |].
  - destruct Hw1 as (c1&c2&di'&->&Hn0&->&Hdi&Hfs).
    rewrite (bind_ok _ _ _ _ _ (set_bytes_run w1 p c _ ltac:(by rewrite Hcs))).
    match goal with |- context [move_data_out _ _ _ _ ?w2] => assert (forwards p s d i c2 (o ++ c1) w2) as HF2; [|assert (kept p s d w w2) as HK2] end.
    { assert (pipe1 (buf c) ≠ s ∧ pipe1 (buf c) ≠ d ∧ pipe0 (buf c) ≠ d ∧ pipe0 (buf c) ≠ pipe1 (buf c)) as (?&?&?&?)
        by (split_and!; intros Heq; rewrite Heq in *; congruence).
      rewrite length_app in *. eexists _, so, di'. split; [apply lookup_insert_eq|]. cbn [files buf pipe0 pipe1 bytes].
      rewrite Hfs, wraps_small, Hb by lia. split; [done|].
      split; [by rewrite !lookup_insert_ne|]. split; [by rewrite lookup_insert_ne, lookup_insert_eq|].
      split; [by rewrite lookup_insert_eq|]. split; [by rewrite !lookup_insert_ne|]. lia. }
    { eapply (kept_store _ _ _ _ _ c _ _ _ i so _ _ di' (o ++ c1)); [exact Hc|cbn; by rewrite Hcs|exact Hs|exact Hd|done|exact H1|done|congruence|].
      exists c2. cbn. rewrite Hfs. f_equal. rewrite insert_insert_ne by done. by rewrite (insert_id _ s). }
    rewrite length_app in Hf. destruct (IH _ _ _ HF2) as (b&w'&j1&j2&Hr'&->&HF'&HK'); [lia|].
    exists b, w', (c1 ++ j1), j2. rewrite <- !app_assoc in *. split_and!; [done..|]. by eapply kept_transitive.
  - exists true, w1, [], ct. rewrite app_nil_r. split_and!; [done..| |by apply kept_refl]. exists c, so, di. by rewrite Hcs, Hw1.
  - exists true, w1, [], ct. rewrite app_nil_r. split_and!; [done..| |by apply kept_refl]. exists c, so, di. by rewrite Hcs, Hw1.
  - exists false, w1, [], ct. rewrite app_nil_r. split_and!; [done..| |by apply kept_refl]. exists c, so, di. by rewrite Hcs, Hw1.
Qed.

(** The fuel of the program is enough. *)
Lemma rounds_enough w q f n : files w !! q = Some f →
  n = match f with Socket i _ => length i | PipeWrite c => length c | _ => 0%nat end → (n < rounds w)%nat.
Proof.
  intros Hq ->. unfold rounds. apply elem_of_map_to_list in Hq. apply Nat.lt_succ_r.
  induction (map_to_list (files w)) as [|x l IH]; [by apply not_elem_of_nil in Hq|]. cbn. apply elem_of_cons in Hq as [<-|Hq]; cbn; [lia|].
  specialize (IH Hq). lia.
Qed.

(** Two connections that forward to each other. *)
Definition linked (p q s d : Z) (ip cp op iq cq oq : list Z) (w : world) : Prop :=
  p ≠ q ∧ write_end w p ≠ write_end w q ∧ forwards p s d ip cp op w ∧ forwards q d s iq cq oq w.

(** Calls of [move_data_in] and [move_data_out] for the two. *)
Inductive transfer := FromP | ToD | FromD | ToP.

Definition exec_transfer (p q s d : Z) (t : transfer) : M world bool :=
  match t with
  | FromP => lift_in PIPE_SIZE s p
  | ToD => lift_out PIPE_SIZE p d
  | FromD => lift_in PIPE_SIZE d q
  | ToP => lift_out PIPE_SIZE q s
  end.

Fixpoint exec_transfers (p q s d : Z) (ts : list transfer) : M world unit :=
  match ts with
  | [] => ret tt
  | t :: ts => exec_transfer p q s d t ;; exec_transfers p q s d ts
  end.

Lemma lift_in_run p s d i ct o w : forwards p s d i ct o w →
  ∃ b w' i' ct', lift_in PIPE_SIZE s p w = Ok (b, w') ∧ ct' ++ i' = ct ++ i ∧ forwards p s d i' ct' o w' ∧ kept p s d w w'.
Proof.
  intros HF. pose proof HF as (c&so&di&_&_&Hs&_). unfold lift_in. rewrite (bind_ok _ _ _ _ _ (gets_run _ _)).
  destruct (move_data_in_run (rounds w) p s d i ct o w HF) as (b&w1&i1&i2&Hr&->&HF1&HK1); [by apply (rounds_enough w s _ _ Hs)|].
  exists b, w1, i2, (ct ++ i1). by rewrite <- app_assoc.
Qed.

Lemma lift_out_run p s d i ct o w : forwards p s d i ct o w →
  ∃ b w' ct' o', lift_out PIPE_SIZE p d w = Ok (b, w') ∧ o' ++ ct' = o ++ ct ∧ forwards p s d i ct' o' w' ∧ kept p s d w w'.
Proof.
  intros HF. pose proof HF as (c&so&di&_&_&_&_&H1&_). unfold lift_out. rewrite (bind_ok _ _ _ _ _ (gets_run _ _)).
  destruct (move_data_out_run (rounds w) p s d i ct o w HF) as (b&w1&c1&c2&Hr&->&HF1&HK1); [by apply (rounds_enough w _ _ _ H1)|].
  exists b, w1, c2, (o ++ c1). by rewrite <- app_assoc.
Qed.

Lemma linked_kept p q s d ip cp op ip' cp' op' iq cq oq w w' : linked p q s d ip cp op iq cq oq w →
  forwards p s d ip' cp' op' w' → kept p s d w w' → linked p q s d ip' cp' op' iq cq oq w'.
Proof. intros (Hpq&Hw&HF&HQ) HF' [HK1 HK2]. split_and!; [done|by rewrite !HK1|done|]. apply HK2; [done|by apply not_eq_sym|done]. Qed.

Lemma linked_sym p q s d ip cp op iq cq oq w : linked p q s d ip cp op iq cq oq w ↔ linked q p d s iq cq oq ip cp op w.
Proof. split; intros (Hpq&Hw&HF&HQ); split_and!; try done; by apply not_eq_sym. Qed.

Lemma exec_transfers_run ts p q s d ip cp op iq cq oq w : linked p q s d ip cp op iq cq oq w →
  ∃ w' ip' cp' op' iq' cq' oq', exec_transfers p q s d ts w = Ok (tt, w') ∧ linked p q s d ip' cp' op' iq' cq' oq' w' ∧
    op' ++ cp' ++ ip' = op ++ cp ++ ip ∧ oq' ++ cq' ++ iq' = oq ++ cq ++ iq.
Proof.
  revert ip cp op iq cq oq w. induction ts as [|t ts IH]; intros ip cp op iq cq oq w HL; cbn [exec_transfers]; [by eexists w, _, _, _, _, _, _|].
  pose proof HL as (_&_&HF&HQ). pose proof (proj1 (linked_sym _ _ _ _ _ _ _ _ _ _ _) HL) as HL'. destruct t; cbn [exec_transfer].
  - destruct (lift_in_run _ _ _ _ _ _ _ HF) as (b&w1&i'&ct'&Hr&Heq&HF1&HK). rewrite (bind_ok _ _ _ _ _ Hr), <- Heq.
    by apply IH, (linked_kept _ _ _ _ _ _ _ _ _ _ _ _ _ _ _ HL HF1 HK).
  - destruct (lift_out_run _ _ _ _ _ _ _ HF) as (b&w1&ct'&o'&Hr&Heq&HF1&HK). rewrite (bind_ok _ _ _ _ _ Hr), !app_assoc, <- Heq.
    rewrite <- !(app_assoc _ _ ip), <- app_assoc. by apply IH, (linked_kept _ _ _ _ _ _ _ _ _ _ _ _ _ _ _ HL HF1 HK).
  - destruct (lift_in_run _ _ _ _ _ _ _ HQ) as (b&w1&i'&ct'&Hr&Heq&HF1&HK). rewrite (bind_ok _ _ _ _ _ Hr), <- Heq.
    by apply IH, linked_sym, (linked_kept _ _ _ _ _ _ _ _ _ _ _ _ _ _ _ HL' HF1 HK).
  - destruct (lift_out_run _ _ _ _ _ _ _ HQ) as (b&w1&ct'&o'&Hr&Heq&HF1&HK). rewrite (bind_ok _ _ _ _ _ Hr), (app_assoc oq), <- Heq.
    rewrite <- (app_assoc o'). by apply IH, linked_sym, (linked_kept _ _ _ _ _ _ _ _ _ _ _ _ _ _ _ HL' HF1 HK).
Qed.
End forwarding.

(** ** Expiration *)

Section expiration.
Context (expire_list : Z).

(** The descriptors that a connection owns. *)
Definition descriptors (c : conn) : list Z := [pipe0 (buf c); pipe1 (buf c); fd c].

Definition closed (d : Z) (w : world) : world :=
  with_watched (delete d (watched w)) (with_status (delete d (status w)) (with_files (delete d (files w)) w)).

Lemma close_run d w : close d w = Ok (tt, closed d w).
Proof. done. Qed.

(** [delconn] of a connection in the list. *)
Lemma delconn_run w l1 p l2 c : dlist (nodes w) expire_list (l1 ++ p :: l2) → conns w !! p = Some c → 0 < num_events w →
  ∃ w', delconn p w = Ok (tt, w') ∧ dlist (nodes w') expire_list (l1 ++ l2) ∧ conns w' = delete p (conns w) ∧
    files w' = delete (fd c) (delete (pipe1 (buf c)) (delete (pipe0 (buf c)) (files w))) ∧
    watched w' = delete (fd c) (delete (fd c) (delete (pipe1 (buf c)) (delete (pipe0 (buf c)) (watched w)))) ∧
    num_events w' = num_events w - 1 ∧ nodes w' !! p = None ∧ (∀ q, nodes w !! q = None → nodes w' !! q = None).
Proof.
  intros Hd Hc Hn. destruct (list_del_spec _ _ _ _ _ Hd) as (h'&Hr&Hd'&Hf). pose proof Hd as [Hnd _].
  unfold delconn. unfold on_nodes at 1. rewrite bind_assoc, (bind_ok _ _ _ _ _ (gets_run _ _)), Hr.
  unfold set_nodes at 1. rewrite bind_assoc, (bind_ok _ _ _ _ _ (modify_run _ _)), (bind_ok _ _ _ _ _ (ret_run _ _)).
  erewrite get_conn_run by exact Hc. unfold delbuffer. rewrite bind_assoc.
  rewrite (bind_ok _ _ _ _ _ (close_run _ _)), (bind_ok _ _ _ _ _ (close_run _ _)).
  unfold epoll_del. rewrite bind_assoc, (bind_ok _ _ _ _ _ (gets_run _ _)). unfold set_num_events at 1.
  rewrite bind_assoc, (bind_ok _ _ _ _ _ (modify_run _ _)). cbn [num_events closed with_nodes with_files with_status with_watched with_num_events].
  rewrite (proj2 (Z.leb_le _ _)) by lia. rewrite bind_assoc, (bind_ok _ _ _ _ _ (massert_true _)).
  unfold EPOLL_CTL_DEL. rewrite bind_assoc, (bind_ok _ _ _ _ _ (gets_run _ _)). unfold set_watched at 1.
  rewrite bind_assoc, (bind_ok _ _ _ _ _ (modify_run _ _)), (bind_ok _ _ _ _ _ (ret_run _ _)).
  rewrite (bind_ok _ _ _ _ _ (close_run _ _)), (bind_ok _ _ _ _ _ (gets_run _ _)).
  unfold set_nodes at 1. rewrite (bind_ok _ _ _ _ _ (modify_run _ _)), (bind_ok _ _ _ _ _ (gets_run _ _)).
  unfold set_conns. rewrite modify_run. eexists. split; [done|]. unfold closed.
  cbn [nodes conns files watched num_events with_nodes with_conns with_files with_status with_watched with_num_events].
  split_and!; try done; [|apply lookup_delete_eq|].
  2: { intros q Hq. destruct (decide (q = p)) as [->|]; [apply lookup_delete_eq|]. rewrite lookup_delete_ne by done.
    destruct (h' !! q) eqn:He; [|done]. destruct (proj1 (proj2 Hf q)) as [x Hx]; [by eexists|congruence]. }
  eapply dlist_agree; [|exact Hd']. intros q Hq. apply lookup_delete_ne. intros ->.
  rewrite app_comm_cons in Hnd. apply NoDup_app in Hnd as (_&Hnd1&Hnd2). apply NoDup_cons in Hnd2 as [Hnd2 _].
  rewrite app_comm_cons in Hq. apply elem_of_app in Hq as [Hq|Hq]; [|done]. apply (Hnd1 _ Hq). by left.
Qed.

(** Connections that wait alone. *)
Definition alone (w : world) (p : Z) : Prop := ∃ c, conns w !! p = Some c ∧ other c = 0.

(** The connections in front whose time is over, and the rest. *)
Definition expired (w : world) (now p : Z) : Prop := ∃ c, conns w !! p = Some c ∧ expire c ≤ now.

(** The descriptors of some connections. *)
Definition owned (w : world) (ps : list Z) : list Z :=
  ps ≫= λ p, match conns w !! p with Some c => descriptors c | None => [] end.

Lemma owned_same w w' ps : (∀ p, p ∈ ps → conns w' !! p = conns w !! p) → owned w' ps = owned w ps.
Proof.
  intros H. unfold owned. induction ps as [|p ps IH]; [done|]. cbn. rewrite H by (by left). f_equal. apply IH. intros q Hq. apply H. by right.
Qed.

Lemma get_next_on_nodes {B} (f : Z → M world B) w q v : get_next q (nodes w) = Ok (v, nodes w) → bind (on_nodes (get_next q)) f w = f v w.
Proof. intros H. unfold on_nodes, bind, gets. rewrite H. unfold set_nodes, modify, ret. by destruct w. Qed.

Lemma closeconn_run w p l c : dlist (nodes w) expire_list (p :: l) → conns w !! p = Some c → other c = 0 → 0 < num_events w →
  ∃ w', closeconn p w = Ok (tt, w') ∧ dlist (nodes w') expire_list l ∧ conns w' = delete p (conns w) ∧
    (∀ d, files w' !! d = if decide (d ∈ descriptors c) then None else files w !! d) ∧ num_events w' = num_events w - 1.
Proof.
  intros Hd Hc Ho Hn. unfold closeconn. erewrite get_conn_run by exact Hc. rewrite Ho. change (truthy 0) with false. cbn match.
  rewrite (bind_ok _ _ _ _ _ (ret_run _ _)). destruct (delconn_run w [] p l c Hd Hc Hn) as (w'&Hr&Hd'&Hcs&Hfs&_&Hn'&_).
  exists w'. split_and!; try done. intros d. rewrite Hfs. unfold descriptors.
  destruct (decide (d = fd c)) as [->|H1]; [rewrite lookup_delete_eq, decide_True by set_solver; done|].
  destruct (decide (d = pipe1 (buf c))) as [->|H2]; [rewrite lookup_delete_ne, lookup_delete_eq, decide_True by set_solver; done|].
  destruct (decide (d = pipe0 (buf c))) as [->|H3]; [rewrite !lookup_delete_ne, lookup_delete_eq, decide_True by set_solver; done|].
  rewrite !lookup_delete_ne, decide_False by set_solver. done.
Qed.

(** What the loop returns for the connections that are left. *)
Definition timeout (w : world) (now : Z) (alive : list Z) : Z :=
  match alive with
  | [] => -1
  | p :: _ => match conns w !! p with Some c => i32 ((expire c - now) * 1000) | None => 0 end
  end.

Lemma expire_loop_run dead alive fuel w now : dlist (nodes w) expire_list (dead ++ alive) →
  (∀ p, p ∈ dead ++ alive → alone w p) → (∀ p, p ∈ dead → expired w now p) →
  match alive with [] => True | p :: _ => ∃ c, conns w !! p = Some c ∧ now < expire c end →
  Z.of_nat (length dead) ≤ num_events w → (length dead < fuel)%nat →
  ∃ w', expire_loop expire_list fuel (hd expire_list (dead ++ alive)) (hd expire_list (tail (dead ++ alive))) now w =
    Ok (timeout w now alive, w') ∧ dlist (nodes w') expire_list alive ∧
    (∀ p, conns w' !! p = if decide (p ∈ dead) then None else conns w !! p) ∧
    (∀ d, files w' !! d = if decide (d ∈ owned w dead) then None else files w !! d) ∧
    num_events w' = num_events w - Z.of_nat (length dead).
Proof.
  revert fuel w. induction dead as [|p dead IH]; intros fuel w Hd Hal Hex Hfirst Hn Hf; (destruct fuel as [|fuel]; [lia|]).
  - exists w. split; [|split_and!; [done|done|done|cbn; lia]].
    destruct alive as [|p alive]; cbn [hd tail app expire_loop timeout]; [by rewrite Z.eqb_refl|].
    destruct Hd as [Hnd _]. apply NoDup_cons in Hnd as [Hin _]. rewrite (proj2 (Z.eqb_neq p expire_list)) by set_solver.
    destruct Hfirst as (c&Hc&Hlt). erewrite get_conn_run by exact Hc. rewrite Hc, (proj2 (Z.ltb_lt _ _)) by done. done.
  - cbn [hd tail app expire_loop]. pose proof Hd as [Hnd _]. apply NoDup_cons in Hnd as [Hin Hnd]. apply NoDup_cons in Hnd as [Hp Hnd].
    rewrite (proj2 (Z.eqb_neq p expire_list)) by (intros ->; apply Hin; by left).
    destruct (Hex p ltac:(by left)) as (c&Hc&Hle). destruct (Hal p ltac:(by left)) as (c'&Hc'&Ho). rewrite Hc in Hc'. injection Hc' as <-.
    erewrite get_conn_run by exact Hc. rewrite (proj2 (Z.ltb_ge _ _)) by done.
    destruct (closeconn_run w p (dead ++ alive) c Hd Hc Ho) as (w1&Hr1&Hd1&Hcs1&Hfs1&Hn1); [cbn in Hn; lia|].
    rewrite (bind_ok _ _ _ _ _ Hr1), (get_next_on_nodes _ _ _ _ (dlist_second _ _ _ Hd1)).
    assert (∀ q, q ∈ dead ++ alive → conns w1 !! q = conns w !! q) as Hsame.
    { intros q Hq. rewrite Hcs1. apply lookup_delete_ne. by intros ->. }
    destruct (IH fuel w1) as (w'&Hr&Hd'&Hcs&Hfs&Hn'); [done| | | |cbn in Hn; lia|cbn in Hf; lia|].
    + intros q Hq. unfold alone. rewrite Hsame by done. apply Hal. by right.
    + intros q Hq. unfold expired. rewrite Hsame by (apply elem_of_app; by left). apply Hex. by right.
    + destruct alive as [|q alive]; [done|]. rewrite Hsame; [done|]. apply elem_of_app. right. by left.
    + exists w'. split.
      { rewrite Hr. do 2 f_equal. unfold timeout. destruct alive as [|q alive]; [done|]. rewrite Hsame; [done|]. apply elem_of_app. right. by left. }
      split; [done|]. split; [|split].
      * intros q. rewrite Hcs, Hcs1. destruct (decide (q = p)) as [->|Hqp].
        -- rewrite lookup_delete_eq. rewrite (decide_True (P := p ∈ p :: dead)) by (by left). by destruct (decide _).
        -- rewrite lookup_delete_ne by done. apply decide_ext. rewrite elem_of_cons. tauto.
      * intros d. rewrite Hfs, Hfs1. rewrite (owned_same w w1) by (intros q Hq; apply Hsame, elem_of_app; by left).
        assert (owned w (p :: dead) = descriptors c ++ owned w dead) as -> by (unfold owned; cbn; by rewrite Hc).
        destruct (decide (d ∈ descriptors c)) as [Hdc|Hdc].
        -- rewrite (decide_True (P := d ∈ descriptors c ++ _)) by (apply elem_of_app; by left). by destruct (decide _).
        -- apply decide_ext. rewrite elem_of_app. tauto.
      * rewrite Hn', Hn1. cbn [length]. lia.
Qed.

(** The list of the connections in [w]. *)
Definition listed (w : world) (ps : list Z) : Prop :=
  dlist (nodes w) expire_list ps ∧ Z.of_nat (length ps) ≤ num_events w.

Lemma expire_connections_run dead alive w now : listed w (dead ++ alive) →
  (∀ p, p ∈ dead ++ alive → alone w p) → (∀ p, p ∈ dead → expired w now p) →
  match alive with [] => True | p :: _ => ∃ c, conns w !! p = Some c ∧ now < expire c end →
  ∃ w', expire_connections expire_list now w = Ok (timeout w now alive, w') ∧ listed w' alive ∧
    (∀ p, conns w' !! p = if decide (p ∈ dead) then None else conns w !! p) ∧
    (∀ d, files w' !! d = if decide (d ∈ owned w dead) then None else files w !! d).
Proof.
  intros [Hd Hn] Hal Hex Hfirst. rewrite length_app in Hn. unfold expire_connections. rewrite (bind_ok _ _ _ _ _ (gets_run _ _)).
  erewrite get_next_on_nodes by (apply gets_some_ok; exact (dlist_first _ _ _ Hd)).
  erewrite get_next_on_nodes by exact (dlist_second _ _ _ Hd).
  destruct (expire_loop_run dead alive (size (nodes w)) w now Hd Hal Hex Hfirst) as (w'&Hr&Hd'&Hcs&Hfs&Hn'); [lia| |].
  - pose proof Hd as [Hnd _]. pose proof (length_le_size (expire_list :: dead ++ alive) (nodes w) Hnd (λ x, dlist_live _ _ _ x Hd)) as Hl.
    cbn in Hl. rewrite length_app in Hl. lia.
  - exists w'. split; [done|]. split; [split; [done|lia]|]. by split.
Qed.

(** A connected pair that is due: the loop still holds the address of the second
    connection when [closeconn] of the first one releases both. *)
Lemma expire_pair_run w p o ps c co now : listed w (p :: o :: ps) →
  conns w !! p = Some c → other c = o → o ≠ 0 → conns w !! o = Some co → expire c ≤ now →
  expire_connections expire_list now w = Err Undefined.
Proof.
  intros [Hd Hn] Hc Ho Ho0 Hco Hle. pose proof Hd as [Hnd Hl0]. apply NoDup_cons in Hnd as [Hin Hnd]. apply NoDup_cons in Hnd as [Hp Hnd].
  unfold expire_connections. rewrite (bind_ok _ _ _ _ _ (gets_run _ _)).
  erewrite get_next_on_nodes by (apply gets_some_ok; exact (dlist_first _ _ _ Hd)).
  erewrite get_next_on_nodes by exact (dlist_second _ _ _ Hd). cbn [hd tail].
  destruct (size (nodes w)) as [|fuel] eqn:Hsz.
  { apply map_size_empty_iff in Hsz. destruct (dlist_live _ _ _ p Hd ltac:(right; by left)) as [x Hx]. by rewrite Hsz, lookup_empty in Hx. }
  cbn [expire_loop]. rewrite (proj2 (Z.eqb_neq p expire_list)) by (intros ->; apply Hin; by left).
  erewrite get_conn_run by exact Hc. rewrite (proj2 (Z.ltb_ge _ _)) by done.
  cbn [length] in Hn. unfold closeconn. rewrite bind_assoc. erewrite get_conn_run by exact Hc. rewrite Ho. unfold truthy.
  rewrite (proj2 (Z.eqb_neq o 0) Ho0). cbn [negb].
  destruct (delconn_run w [p] o ps co Hd Hco) as (w1&Hr1&Hd1&Hcs1&_&_&Hn1&Ho1&_); [lia|]. rewrite bind_assoc, (bind_ok _ _ _ _ _ Hr1).
  assert (conns w1 !! p = Some c) as Hc1 by (rewrite Hcs1, lookup_delete_ne; [done|]; intros ->; apply Hp; by left).
  destruct (delconn_run w1 [] p ps c Hd1 Hc1) as (w2&Hr2&_&_&_&_&_&_&Ho2); [lia|]. rewrite (bind_ok _ _ _ _ _ Hr2).
  apply bind_err. unfold on_nodes, bind, gets, get_next, gets_some, next_of. by rewrite (Ho2 _ Ho1).
Qed.
End expiration.

(** ** An accepted connection *)

Section accepted.
Context (expire_list connection_timeout PIPE_SIZE : Z).
Context (malloc : gmap Z list_head → Z) (garbage : Z → list_head * conn).

(** The steps of a command are related by [R]. *)
Definition preserves {A} (R : relation world) (m : M world A) : Prop := ∀ w a w', m w = Ok (a, w') → R w w'.

Lemma preserves_ret {A} R `{!Reflexive R} (a : A) : preserves R (ret a).
Proof. intros w b w' [= <- <-]. done. Qed.
Lemma preserves_fail {A} R e : preserves R (fail e : M world A).
Proof. by intros w b w' ?. Qed.
Lemma preserves_gets {A} R `{!Reflexive R} (f : world → A) : preserves R (gets f).
Proof. intros w b w' [= <- <-]. done. Qed.
Lemma preserves_gets_some {A} R `{!Reflexive R} (f : world → option A) : preserves R (gets_some f).
Proof. unfold gets_some. intros w b w' H. case_match; by simplify_eq. Qed.
Lemma preserves_massert R `{!Reflexive R} b : preserves R (massert b).
Proof. destruct b; [by apply preserves_ret|apply preserves_fail]. Qed.
Lemma preserves_bind {A B} R `{!Transitive R} (m : M world A) (f : A → M world B) :
  preserves R m → (∀ a, preserves R (f a)) → preserves R (bind m f).
Proof. intros Hm Hf w b w' (a&w1&H1&H2)%bind_inv. etrans; [by eapply Hm|by eapply Hf]. Qed.
Lemma preserves_weaken {A} (R R' : relation world) (m : M world A) : (∀ w w', R w w' → R' w w') → preserves R m → preserves R' m.
Proof. intros H Hm w a w' Hr. by eapply H, Hm. Qed.

Ltac preserves_tac :=
  repeat first [solve [auto with sysprog] | apply preserves_bind; [tc_solve| |intros ?] | apply preserves_ret; tc_solve | apply preserves_fail
    | apply preserves_gets; tc_solve | apply preserves_gets_some; tc_solve | apply preserves_massert; tc_solve | case_match].

(** Commands that change neither the list nor the connections. *)
Definition same_objects (w w' : world) : Prop := nodes w' = nodes w ∧ conns w' = conns w.
#[local] Instance same_objects_preorder : PreOrder same_objects.
Proof. split; [done|]. intros w1 w2 w3 [H1 H2] [H3 H4]. unfold same_objects. by rewrite H3, H4. Qed.

Lemma set_files_keeps x : preserves same_objects (set_files x).
Proof. intros w a w' [= <- <-]. done. Qed.
Lemma set_status_keeps x : preserves same_objects (set_status x).
Proof. intros w a w' [= <- <-]. done. Qed.
Lemma set_watched_keeps x : preserves same_objects (set_watched x).
Proof. intros w a w' [= <- <-]. done. Qed.
Lemma set_events_keeps x : preserves same_objects (set_events x).
Proof. intros w a w' [= <- <-]. done. Qed.
Lemma set_num_events_keeps x : preserves same_objects (set_num_events x).
Proof. intros w a w' [= <- <-]. done. Qed.
Lemma set_max_events_keeps x : preserves same_objects (set_max_events x).
Proof. intros w a w' [= <- <-]. done. Qed.
Lemma answer_keeps : preserves same_objects answer.
Proof. intros w b w'. destruct (answer_run w) as (a&l&->). intros [= <- <-]. done. Qed.
#[local] Hint Resolve set_files_keeps set_status_keeps set_watched_keeps set_events_keeps set_num_events_keeps set_max_events_keeps answer_keeps : sysprog.

Lemma new_fd_keeps f : preserves same_objects (new_fd f).
Proof. unfold new_fd. preserves_tac. Qed.
Lemma setnonblock_keeps d cache : preserves same_objects (setnonblock d cache).
Proof. unfold setnonblock, F_GETFL, F_SETFL. preserves_tac. Qed.
Lemma close_keeps d : preserves same_objects (close d).
Proof. unfold close. preserves_tac. Qed.
Lemma epoll_add_keeps d p : preserves same_objects (epoll_add d p).
Proof. unfold epoll_add, EPOLL_CTL_ADD. preserves_tac. Qed.
Lemma epoll_del_keeps d : preserves same_objects (epoll_del d).
Proof. unfold epoll_del, EPOLL_CTL_DEL. preserves_tac. Qed.

(** Commands that change no connection but [p], and not its [other]. *)
Definition only (p : Z) (w w' : world) : Prop :=
  (∀ q, q ≠ p → conns w' !! q = conns w !! q) ∧ ∀ c', conns w' !! p = Some c' → ∃ c, conns w !! p = Some c ∧ other c' = other c.
#[local] Instance only_preorder p : PreOrder (only p).
Proof.
  split; [split; by eauto|]. intros w1 w2 w3 [H1 H2] [H3 H4]. split; [intros q Hq; by rewrite H3, H1|].
  intros c3 Hc3. destruct (H4 _ Hc3) as (c2&Hc2&->). by apply H2.
Qed.

Lemma keeps_only {A} p (m : M world A) : preserves same_objects m → preserves (only p) m.
Proof. apply preserves_weaken. intros w w' [_ H]. split; rewrite H; by eauto. Qed.
#[local] Hint Resolve keeps_only new_fd_keeps setnonblock_keeps close_keeps epoll_add_keeps epoll_del_keeps : sysprog.

Lemma set_nodes_only p h : preserves (only p) (set_nodes h).
Proof. intros w a w' [= <- <-]. split; by eauto. Qed.
#[local] Hint Resolve set_nodes_only : sysprog.
Lemma on_nodes_only {A} p (m : M (gmap Z list_head) A) : preserves (only p) (on_nodes m).
Proof. unfold on_nodes. preserves_tac. Qed.
#[local] Hint Resolve on_nodes_only : sysprog.

(** A store to [p] of what was loaded from there, but for the other members. *)
Lemma update_only {A} p (f : conn → conn) (m : M world A) : (∀ c, other (f c) = other c) → preserves (only p) m →
  preserves (only p) (c ← get_conn p; put_conn p (f c) ;; m).
Proof.
  intros Hf Hm w a w' (c&w1&Hc&(u&w2&H&Hr)%bind_inv)%bind_inv. unfold get_conn, gets_some in Hc.
  destruct (conns w !! p) eqn:Hp; [|done]. injection Hc as -> <-.
  unfold put_conn, bind, get_conn, gets_some, gets, set_conns, modify in H. rewrite Hp in H. injection H as <- <-.
  etrans; [|by eapply Hm]. split; cbn [conns with_conns]; [intros q Hq; by rewrite lookup_insert_ne|].
  rewrite lookup_insert_eq, Hp. intros ? [= <-]. by eauto.
Qed.
Lemma remove_only p : preserves (only p) (cs ← gets conns; set_conns (delete p cs)).
Proof.
  intros w a w' [= <- <-]. split; cbn [conns with_conns]; [intros q Hq; by rewrite lookup_delete_ne|]. by rewrite lookup_delete_eq.
Qed.
Lemma delbuffer_keeps b : preserves same_objects (delbuffer b).
Proof. unfold delbuffer. preserves_tac. Qed.
Lemma get_conn_only p q : preserves (only p) (get_conn q).
Proof. apply preserves_gets_some. tc_solve. Qed.
#[local] Hint Resolve delbuffer_keeps remove_only get_conn_only : sysprog.

Lemma delconn_only p : preserves (only p) (delconn p).
Proof. unfold delconn. preserves_tac. Qed.
Lemma newbuffer_only p : preserves (only p) (newbuffer p).
Proof.
  unfold newbuffer. apply preserves_bind; [tc_solve|by auto with sysprog|intros x]. case_match; [preserves_tac|].
  apply preserves_bind; [tc_solve|by auto with sysprog|intros r]. case_match; [preserves_tac|].
  apply (update_only p (λ c, mk_conn (other c) (fd c) (mk_buffer r x (bytes (buf c))) (expire c))); [done|preserves_tac].
Qed.
#[local] Hint Resolve delconn_only newbuffer_only : sysprog.

(** [newconn] sets [other] nowhere. *)
Lemma newconn_other d now w r w' : newconn expire_list connection_timeout malloc garbage d now w = Ok (r, w') →
  (∀ q, q ≠ malloc (nodes w) → conns w' !! q = conns w !! q) ∧
  ∀ c', conns w' !! malloc (nodes w) = Some c' → other c' = other (garbage (malloc (nodes w))).2.
Proof.
  unfold newconn. set (p := malloc _). rewrite (bind_ok _ _ _ _ _ (gets_run _ _)). fold p. destruct (garbage p) as [n c] eqn:Hg.
  unfold set_nodes at 1. rewrite (bind_ok _ _ _ _ _ (modify_run _ _)), (bind_ok _ _ _ _ _ (gets_run _ _)).
  unfold set_conns. rewrite (bind_ok _ _ _ _ _ (modify_run _ _)). intros H.
  match type of H with ?m ?w1 = _ => assert (preserves (only p) m) as Hm; [|apply Hm in H as [H1 H2]] end.
  - apply preserves_bind; [tc_solve|by auto with sysprog|intros b]. case_match; [preserves_tac|].
    apply preserves_bind; [tc_solve|by auto with sysprog|intros x]. case_match; [preserves_tac|].
    apply (update_only p (λ c, mk_conn (other c) (fd c) (buf c) (now + connection_timeout))); [done|preserves_tac].
  - cbn [conns with_conns with_nodes] in *. split.
    + intros q Hq. by rewrite H1, lookup_insert_ne.
    + intros c' Hc'. destruct (H2 _ Hc') as (c2&Hc2&->). rewrite lookup_insert_eq in Hc2. by injection Hc2 as <-.
Qed.

Lemma new_request_other incoming cache now w r w' :
  new_request expire_list connection_timeout malloc garbage incoming cache now w = Ok (r, w') → conns w !! malloc (nodes w) = None →
  (∀ q, q ≠ malloc (nodes w) → conns w' !! q = conns w !! q) ∧
  ∀ c', conns w' !! malloc (nodes w) = Some c' → other c' = other (garbage (malloc (nodes w))).2.
Proof.
  unfold new_request. intros (s&w1&H1&H)%bind_inv Hp. apply new_fd_keeps in H1 as [Hn1 Hc1]. destruct (s <? 0).
  { injection H as <- <-. rewrite Hc1. split; [done|]. by rewrite Hp. }
  apply bind_inv in H as (ca&w2&H2&(x&w3&H3&H)%bind_inv). apply setnonblock_keeps in H2 as [Hn2 Hc2]. injection H as <- <-.
  apply newconn_other in H3. by rewrite Hn2, Hn1, Hc2, Hc1 in H3.
Qed.
End accepted.

(** ** Properties *)

(** C35: two connected connections forward the bytes both ways: after any calls of
    [move_data_in] and [move_data_out] for them, whatever [splice] answers (fewer
    bytes than asked for, EAGAIN, an end of the input or an error), no call has
    faulted, and in each direction what was written, what is in the pipe and what is
    still to be read is together what it was, in order; [buf.bytes] is the number of
    bytes in the pipe, and the pipe holds no more than it can. *)
Theorem proxy_forwards PIPE_SIZE ts p q s d ip cp op iq cq oq w : 0 < PIPE_SIZE < 2 ^ 31 →
  linked PIPE_SIZE p q s d ip cp op iq cq oq w →
  ∃ w' ip' cp' op' iq' cq' oq', exec_transfers PIPE_SIZE p q s d ts w = Ok (tt, w') ∧
    linked PIPE_SIZE p q s d ip' cp' op' iq' cq' oq' w' ∧
    op' ++ cp' ++ ip' = op ++ cp ++ ip ∧ oq' ++ cq' ++ iq' = oq ++ cq ++ iq.
Proof. intros H. by apply exec_transfers_run. Qed.

(** [expire_connections] for connections that wait alone closes those in front
    whose time is over, and no others: they are gone from the list and from the heap,
    their descriptors are closed and all other descriptors are as they were; the result
    is the time until the first one left is due, or -1. *)
Theorem proxy_expires expire_list dead alive w now : listed expire_list w (dead ++ alive) →
  (∀ p, p ∈ dead ++ alive → alone w p) → (∀ p, p ∈ dead → expired w now p) →
  match alive with [] => True | p :: _ => ∃ c, conns w !! p = Some c ∧ now < expire c end →
  ∃ w', expire_connections expire_list now w = Ok (timeout w now alive, w') ∧ listed expire_list w' alive ∧
    (∀ p, conns w' !! p = if decide (p ∈ dead) then None else conns w !! p) ∧
    (∀ d, files w' !! d = if decide (d ∈ owned w dead) then None else files w !! d).
Proof. apply expire_connections_run. Qed.

(** C36: two connected connections next to each other in the list (what [openconn] and
    [touch_conn] make of a pair): when the first one is due, [expire_connections] is
    undefined behaviour, since [tmp] is the second one, which [closeconn] has freed. *)
Theorem proxy_pair_expiry_faults expire_list w p o ps c co now : listed expire_list w (p :: o :: ps) →
  conns w !! p = Some c → other c = o → o ≠ 0 → conns w !! o = Some co → expire c ≤ now →
  expire_connections expire_list now w = Err Undefined.
Proof. apply expire_pair_run. Qed.

(** An accepted connection has in [other] what the memory that [malloc] returned
    held there: unless that is NULL or happens to be a connection, the first event that
    says that it can be written to is undefined behaviour. *)
Theorem accepted_other_uninitialised PIPE_SIZE expire_list connection_timeout malloc garbage incoming outgoing cache now w r w' p o c caches :
  malloc (nodes w) = p → p ≠ 0 → conns w !! p = None → other (garbage p).2 = o → o ≠ 0 → o ≠ p → conns w !! o = None →
  new_request expire_list connection_timeout malloc garbage incoming cache now w = Ok (r, w') → conns w' !! p = Some c →
  handle_event PIPE_SIZE expire_list connection_timeout malloc garbage incoming outgoing now p EPOLLOUT caches w' = Err Undefined.
Proof.
  intros <- Hp0 Hp Ho Ho0 Hop Hco Hr Hc. destruct (new_request_other _ _ _ _ _ _ _ _ _ _ Hr Hp) as [Hq Hother].
  pose proof (Hother _ Hc) as Hoc. rewrite Ho in Hoc. unfold handle_event. destruct caches as [cache_in cache_out].
  rewrite (bind_ok _ _ _ _ _ (gets_run _ _)). unfold truthy at 1. rewrite (proj2 (Z.eqb_neq _ 0) Hp0). cbn [negb].
  change (has EPOLLOUT _) with false. cbn match. erewrite get_conn_run by exact Hc. change (has EPOLLOUT EPOLLIN) with false.
  change (has EPOLLOUT EPOLLOUT) with true. cbn match. rewrite (bind_ok _ _ _ _ _ (ret_run _ _)). cbn beta match.
  unfold load_flags. rewrite bind_assoc, (bind_ok _ _ _ _ _ (gets_run _ _)), Z.eqb_refl, (bind_ok _ _ _ _ _ (ret_run _ _)).
  change (has EPOLLOUT EPOLLOUT) with true. unfold truthy. rewrite Hoc, (proj2 (Z.eqb_neq _ 0) Ho0). cbn [negb andb].
  apply bind_err. unfold handle_output. erewrite get_conn_run by exact Hc. apply bind_err.
  unfold lift_out. rewrite (bind_ok _ _ _ _ _ (gets_run _ _)). unfold rounds. cbn [move_data_out].
  apply bind_err. unfold get_conn, gets_some. by rewrite Hq, Hco.
Qed.

(** ** Concrete states *)

(** Connections 10 and 20, with sockets 3 and 4, that forward to each other. *)
Definition pair_world : world :=
  mk_world {[100 := mk_list_head 20 10; 10 := mk_list_head 100 20; 20 := mk_list_head 10 100]}
    {[10 := mk_conn 20 3 (mk_buffer 5 6 0) 5; 20 := mk_conn 10 4 (mk_buffer 7 8 0) 5]}
    {[3 := Socket [1; 2; 3; 4; 5] []; 4 := Socket [9] []; 5 := PipeRead 6; 6 := PipeWrite []; 7 := PipeRead 8; 8 := PipeWrite []]}
    ∅ {[3 := 10; 4 := 20]} 1000 3 32 [2; 9; -1; 1; 7; -1; 0; 4; -1].

(** Two that wait alone. *)
Definition alone_world : world :=
  mk_world {[100 := mk_list_head 20 10; 10 := mk_list_head 100 20; 20 := mk_list_head 10 100]}
    {[10 := mk_conn 0 3 (mk_buffer 5 6 0) 5; 20 := mk_conn 0 4 (mk_buffer 7 8 0) 9]}
    {[3 := Socket [1; 2; 3; 4; 5] []; 4 := Socket [9] []; 5 := PipeRead 6; 6 := PipeWrite []; 7 := PipeRead 8; 8 := PipeWrite []]}
    ∅ {[3 := 10; 4 := 20]} 1000 3 32 [].

Ltac concrete := repeat match goal with
  | |- _ ∧ _ => split
  | |- NoDup _ => by apply (bool_decide_unpack _); vm_compute
  | |- dlist _ _ _ => split
  | |- _ ≠ _ => done
  | |- _ => by vm_compute
  end.

Lemma pair_listed : listed 100 pair_world [10; 20].
Proof. unfold listed. concrete. Qed.
Lemma alone_listed : listed 100 alone_world [10; 20].
Proof. unfold listed. concrete. Qed.

Lemma proxy_forwards_witness :
  linked 4 10 20 3 4 [1; 2; 3; 4; 5] [] [] [9] [] [] pair_world ∧
  (∃ w' ip' cp' op' iq' cq' oq', exec_transfers 4 10 20 3 4 [FromP; ToD; FromD; FromP; ToP] pair_world = Ok (tt, w') ∧
    linked 4 10 20 3 4 ip' cp' op' iq' cq' oq' w' ∧ op' ++ cp' ++ ip' = [1; 2; 3; 4; 5] ∧ oq' ++ cq' ++ iq' = [9]).
Proof.
  assert (linked 4 10 20 3 4 [1; 2; 3; 4; 5] [] [] [9] [] [] pair_world) as H.
  { unfold linked. split; [done|]. split; [done|]. split; eexists _, _, _; (split; [by vm_compute|]); concrete. }
  split; [exact H|]. exact (proxy_forwards 4 _ 10 20 3 4 _ _ _ _ _ _ _ ltac:(lia) H).
Defined.

Lemma proxy_expires_witness : ∃ w', expire_connections 100 7 alone_world = Ok (2000, w') ∧ listed 100 w' [20] ∧
  (∀ p, conns w' !! p = if decide (p ∈ [10]) then None else conns alone_world !! p) ∧
  (∀ d, files w' !! d = if decide (d ∈ [5; 6; 3]) then None else files alone_world !! d).
Proof.
  apply (proxy_expires 100 [10] [20] alone_world 7 alone_listed).
  - intros p Hp. apply elem_of_cons in Hp as [->|Hp]; [by eexists|]. apply list_elem_of_singleton in Hp as ->. by eexists.
  - intros p Hp. apply list_elem_of_singleton in Hp as ->. by eexists.
  - by eexists.
Defined.

Lemma proxy_pair_expiry_faults_witness : expire_connections 100 7 pair_world = Err Undefined.
Proof.
  by apply (proxy_pair_expiry_faults 100 pair_world 10 20 [] (mk_conn 20 3 (mk_buffer 5 6 0) 5) (mk_conn 10 4 (mk_buffer 7 8 0) 5) 7 pair_listed).
Defined.

Definition empty_world : world :=
  mk_world {[100 := mk_list_head 100 100]} ∅ ∅ ∅ ∅ 1000 1 32 [3; 4; 5; 0].
Definition dirty (p : Z) : list_head * conn := (mk_list_head 0 0, mk_conn 77 0 (mk_buffer 0 0 0) 0).

Lemma accepted_other_uninitialised_witness :
  match new_request 100 5 (λ _, 40) dirty [1] (-1) 0 empty_world with
  | Ok (_, w') => is_Some (conns w' !! 40) ∧ handle_event 4 100 5 (λ _, 40) dirty [1] [] 0 40 EPOLLOUT (-1, -1) w' = Err Undefined
  | Err _ => False
  end.
Proof.
  destruct (new_request 100 5 (λ _, 40) dirty [1] (-1) 0 empty_world) as [[r w']|] eqn:H; [|by vm_compute in H].
  assert (is_Some (conns w' !! 40)) as Hc by (revert H; vm_compute; intros [= <- <-]; by eexists).
  split; [exact Hc|]. destruct Hc as [c Hc].
  by apply (accepted_other_uninitialised 4 100 5 (λ _, 40) dirty [1] [] (-1) 0 empty_world r w' 40 77 c).
Defined.
