(* ===== verification/ProxyMain.v ===== *)
(** * The start of proxy/proxy.c and its loop

    [resolve], [listen_socket] and [main] over the connections of Proxy.  What
    [epoll_wait] and the clock give in each round is an argument; the program runs
    until it is stopped, so that a run has as many rounds as that argument. *)
From S2P Require Import Prelude CircularList ListHead Proxy.
From stdpp Require Import gmap list.
#[local] Open Scope Z_scope.
#[local] Open Scope c_scope.

(** A round: the events, or None when [epoll_wait] fails; the time; what new sockets
    have to read. *)
Record wait := mk_wait { ready : option (list (Z * Z)); now : Z; incoming : list Z; outgoing : list Z }.

(** [err(x)] *)
Definition err {A} : M world A := fail AssertFailed.

Definition resolve : M world unit :=
  r ← answer;
  if truthy r then err else ret tt.

Section program.
Context (expire_list connection_timeout PIPE_SIZE : Z).
Context (malloc : gmap Z list_head → Z) (garbage : Z → list_head * conn).

(** A call whose negative result ends the program. *)
Definition checked : M world unit :=
  r ← answer;
  if r <? 0 then err else ret tt.

Definition listen_socket : M world Z :=
  resolve ;;
  lfd ← new_fd (Socket [] []);
  if lfd <? 0 then err
  else
    checked ;;
    checked ;;
    checked ;;
    setnonblock lfd (-1) ;;
    r ← epoll_add lfd 0;
    if r <? 0 then err else ret lfd.

(** The time-outs that are passed to [epoll_wait]. *)
Fixpoint main_loop (waits : list wait) (caches : Z * Z) (timeo : Z) : M world (list Z) :=
  match waits with
  | [] => ret []
  | w :: waits =>
      ts ← match ready w with
           | None => main_loop waits caches timeo
           | Some evs =>
               '(cache_in, cache_out, timeo) ← round PIPE_SIZE expire_list connection_timeout malloc garbage (incoming w) (outgoing w) (now w) evs caches;
               main_loop waits (cache_in, cache_out) timeo
           end;
      ret (timeo :: ts)
  end.

(** The preparations of [main], for [ac] arguments. *)
Definition start (ac : Z) : M world Z :=
  if negb (ac =? 4) && negb (ac =? 5) then err
  else
    resolve ;;
    checked ;;
    listen_socket.

Definition main (ac : Z) (waits : list wait) : M world (list Z) :=
  start ac ;;
  main_loop waits (-1, -1) (-1).
End program.

(** ** What the start leaves *)

Section runs.
Context (expire_list connection_timeout PIPE_SIZE : Z).
Context (malloc : gmap Z list_head → Z) (garbage : Z → list_head * conn).

(** The program is loaded: the list of connections is empty, nothing is open. *)
Definition loaded (w : world) : Prop :=
  nodes w = {[expire_list := mk_list_head expire_list expire_list]} ∧ conns w = ∅ ∧ files w = ∅ ∧ status w = ∅ ∧ watched w = ∅ ∧
  num_events w = 0 ∧ max_events w = 0.

(** It listens: [lfd] does not block and is watched without a connection, and there
    is room for more events. *)
Definition listening (lfd : Z) (w : world) : Prop :=
  nodes w = {[expire_list := mk_list_head expire_list expire_list]} ∧ conns w = ∅ ∧ files w = {[lfd := Socket [] []]} ∧
  status w = {[lfd := Z.lor O_RDWR O_NONBLOCK]} ∧ watched w = {[lfd := 0]} ∧ num_events w = 1 ∧ max_events w = MIN_EVENTS.

(** The program ends with 1, or goes on in a world like before. *)
Definition exits_or {A} (r : result A) (P : A → Prop) : Prop := match r with Ok a => P a | Err e => e = AssertFailed end.

Lemma exits_or_bind {A B} (m : M world A) (f : A → M world B) w (P : A * world → Prop) Q :
  exits_or (m w) P → (∀ a w', P (a, w') → exits_or (f a w') Q) → exits_or (bind m f w) Q.
Proof. unfold bind. destruct (m w) as [[a w']|e]; cbn; auto. Qed.

Lemma checked_ok w (R : world → Prop) : (∀ l w, R w → R (with_answers l w)) → R w → exits_or (checked w) (λ x, R x.2).
Proof.
  intros Hkeep HR. unfold checked. destruct (answer_run w) as (a&l&Ha). rewrite (bind_ok _ _ _ _ _ Ha). destruct (a <? 0); [done|]. by apply Hkeep.
Qed.
Lemma resolve_ok w : loaded w → exits_or (resolve w) (λ x, loaded x.2).
Proof.
  intros HL. unfold resolve. destruct (answer_run w) as (a&l&Ha). rewrite (bind_ok _ _ _ _ _ Ha). by destruct (truthy a).
Qed.

(** The socket of [listen_socket] is open, and not yet set up. *)
Definition opened (lfd : Z) (w : world) : Prop :=
  nodes w = {[expire_list := mk_list_head expire_list expire_list]} ∧ conns w = ∅ ∧ files w = {[lfd := Socket [] []]} ∧ status w = ∅ ∧ watched w = ∅ ∧
  num_events w = 0 ∧ max_events w = 0.

Lemma socket_ok w : loaded w → ∃ a w', new_fd (Socket [] []) w = Ok (a, w') ∧ (a = -1 ∨ 0 ≤ a ∧ opened a w').
Proof.
  intros (H1&H2&H3&H4). unfold new_fd. destruct (answer_run w) as (a&l&Ha). rewrite (bind_ok _ _ _ _ _ Ha), (bind_ok _ _ _ _ _ (gets_run _ _)).
  destruct (Z.ltb_spec a 0); [cbn [orb]; eexists _, _; split; [done|by left]|]. cbn [orb].
  destruct (_ || _); [eexists _, _; split; [done|by left]|]. unfold set_files. rewrite (bind_ok _ _ _ _ _ (modify_run _ _)).
  exists a. eexists. split; [done|]. right. split; [done|]. unfold opened. cbn. rewrite H3. by rewrite insert_empty.
Qed.

Lemma watch_ok lfd w : opened lfd w → exits_or ((setnonblock lfd (-1) ;; r ← epoll_add lfd 0; if r <? 0 then err else ret lfd) w) (λ x, x.1 = lfd ∧ listening lfd x.2).
Proof.
  intros (H1&H2&H3&H4&H5&H6&H7). unfold setnonblock, F_GETFL, F_SETFL. change (-1 =? -1) with true. cbn match.
  rewrite !bind_assoc, (bind_ok _ _ _ _ _ (gets_run _ _)), (bind_ok _ _ _ _ _ (ret_run _ _)), !bind_assoc, (bind_ok _ _ _ _ _ (gets_run _ _)).
  rewrite H4, lookup_empty. cbn [default]. unfold set_status. rewrite ?bind_assoc, (bind_ok _ _ _ _ _ (modify_run _ _)). rewrite ?bind_assoc, (bind_ok _ _ _ _ _ (ret_run _ _)).
  unfold epoll_add, set_num_events. rewrite bind_assoc, (bind_ok _ _ _ _ _ (gets_run _ _)), bind_assoc, (bind_ok _ _ _ _ _ (modify_run _ _)).
  rewrite bind_assoc, (bind_ok _ _ _ _ _ (gets_run _ _)). cbn [num_events max_events with_num_events with_status]. rewrite H6, H7. change (0 <=? 0 + 1) with true. cbn match.
  unfold set_max_events. rewrite !bind_assoc, (bind_ok _ _ _ _ _ (modify_run _ _)), bind_assoc.
  match goal with |- context [bind answer _ ?w1] => destruct (answer_run w1) as (a&l&Ha); rewrite (bind_ok _ _ _ _ _ Ha) end.
  unfold set_events. rewrite (bind_ok _ _ _ _ _ (modify_run _ _)). unfold EPOLL_CTL_ADD. rewrite bind_assoc.
  match goal with |- context [bind answer _ ?w1] => destruct (answer_run w1) as (b&l2&Hb); rewrite (bind_ok _ _ _ _ _ Hb) end.
  rewrite bind_assoc, (bind_ok _ _ _ _ _ (gets_run _ _)). cbn. rewrite H5, lookup_empty, bool_decide_false by (by intros []).
  destruct (b <? 0); cbn [orb]; [by rewrite (bind_ok _ _ _ _ _ (ret_run _ _))|]. unfold listening. cbn. by rewrite !insert_empty.
Qed.

Lemma listen_socket_ok w : loaded w → exits_or (listen_socket w) (λ x, listening x.1 x.2).
Proof.
  intros HL. unfold listen_socket. eapply exits_or_bind; [by apply resolve_ok|]. cbn [snd]. intros _ w1 H1.
  destruct (socket_ok w1 H1) as (a&w2&Hr&Ha). rewrite (bind_ok _ _ _ _ _ Hr). destruct Ha as [->|[Ha H2]]; [done|].
  rewrite (proj2 (Z.ltb_ge _ _)) by done. do 3 (eapply exits_or_bind; [apply (checked_ok _ (opened a)); [done|eassumption]|]; cbn [snd]; intros ???).
  pose proof (watch_ok a _ ltac:(eassumption)) as Hw. unfold exits_or in *. destruct (bind _ _ _) as [[r u]|]; [|done]. by destruct Hw as [-> ?].
Qed.

Lemma proxy_start_ok ac w : loaded w → exits_or (start ac w) (λ x, (ac = 4 ∨ ac = 5) ∧ listening x.1 x.2).
Proof.
  intros HL. unfold start. destruct (Z.eqb_spec ac 4), (Z.eqb_spec ac 5); cbn [negb andb]; try done;
    (eapply exits_or_bind; [by apply resolve_ok|]; cbn [snd]; intros _ w1 H1; eapply exits_or_bind; [by apply (checked_ok _ loaded)|]; cbn [snd]; intros _ w2 H2;
     pose proof (listen_socket_ok w2 H2) as Hl; unfold exits_or in *; destruct (listen_socket w2); [|done]; split; [tauto|done]).
Qed.

(** Rounds in which nothing happens. *)
Definition quiet (w : wait) : Prop := ready w = None ∨ ready w = Some [].

Lemma quiet_round lfd w t caches i o : listening lfd w →
  round PIPE_SIZE expire_list connection_timeout malloc garbage i o t [] caches w = Ok (caches.1, caches.2, -1, w).
Proof.
  intros (H1&_). destruct caches as [ci co]. unfold round. cbn [handle_events]. rewrite (bind_ok _ _ _ _ _ (ret_run _ _)).
  unfold expire_connections. rewrite bind_assoc, (bind_ok _ _ _ _ _ (gets_run _ _)).
  assert (∀ {B} (f : Z → M world B), bind (on_nodes (get_next expire_list)) f w = f expire_list w) as Hn.
  { intros B f. apply bind_ok. unfold on_nodes. rewrite (bind_ok _ _ _ _ _ (gets_run _ _)), H1. unfold get_next, gets_some, next_of, bind, gets, ret.
    rewrite lookup_singleton_eq. cbn. unfold set_nodes, modify. do 2 f_equal. destruct w; cbn in *. by rewrite H1. }
  rewrite bind_assoc, Hn, bind_assoc, Hn. destruct (size (nodes w)); cbn [expire_loop]; by rewrite Z.eqb_refl.
Qed.

Lemma quiet_loop lfd w waits caches : listening lfd w → Forall quiet waits →
  main_loop expire_list connection_timeout PIPE_SIZE malloc garbage waits caches (-1) w = Ok (replicate (length waits) (-1), w).
Proof.
  intros Hl Hq. revert caches. induction Hq as [|x waits Hx Hq IH]; intros caches; [done|]. cbn [main_loop length replicate].
  destruct Hx as [-> | ->].
  - by rewrite (bind_ok _ _ _ _ _ (IH caches)).
  - rewrite bind_assoc. rewrite (bind_ok _ _ _ _ _ (quiet_round lfd w (now x) caches (incoming x) (outgoing x) Hl)).
    by rewrite (bind_ok _ _ _ _ _ (IH _)).
Qed.

(** The start of the program: whatever the system answers, it ends with 1, or it has
    been called with three or four arguments and listens, with a socket that does not
    block and that is watched without a connection; and it then waits without a
    time-out until something happens, also when [epoll_wait] fails. *)
Theorem proxy_starts ac waits w : loaded w → Forall quiet waits →
  exits_or (main expire_list connection_timeout PIPE_SIZE malloc garbage ac waits w)
    (λ x, (ac = 4 ∨ ac = 5) ∧ x.1 = replicate (length waits) (-1) ∧ ∃ lfd, listening lfd x.2).
Proof.
  intros HL Hq. unfold main. eapply exits_or_bind; [by apply proxy_start_ok|]. cbn [fst snd]. intros lfd w' [Hac Hl].
  rewrite (quiet_loop lfd w' waits _ Hl Hq). cbn. split; [done|]. split; [done|]. by exists lfd.
Qed.
End runs.

(** The socket gets the descriptor 4. *)
Lemma proxy_starts_witness :
  exits_or (main 100 5 65536 (λ _, 40) (λ _, (mk_list_head 0 0, mk_conn 0 0 (mk_buffer 0 0 0) 0)) 4 [mk_wait None 7 [] []; mk_wait (Some []) 8 [] []]
      (mk_world {[100 := mk_list_head 100 100]} ∅ ∅ ∅ ∅ 0 0 0 [0; 3; 0; 4; 0; 0; 0; 1000; 0]))
    (λ x, (4 = 4 ∨ 4 = 5) ∧ x.1 = replicate 2 (-1) ∧ ∃ lfd, listening 100 lfd x.2) ∧
  exits_or (start 4 (mk_world {[100 := mk_list_head 100 100]} ∅ ∅ ∅ ∅ 0 0 0 [0; 3; 0; 4; 0; 0; 0; 1000; 0])) (λ x, x.1 = 4).
Proof.
  split; [|by vm_compute].
  apply (proxy_starts 100 5 65536 (λ _, 40) (λ _, (mk_list_head 0 0, mk_conn 0 0 (mk_buffer 0 0 0) 0)) 4); [done|].
  constructor; [by left|]. constructor; [by right|]. constructor.
Defined.
