(* ===== verification/MmapAlloc.v ===== *)
(** * The page-wise allocator of mmap-alloc/alloc.c

    [naive_malloc] maps fresh pages for every request and puts a header with their
    number in front; [naive_free] unmaps them.  The memory is a map from the mapped
    addresses to their bytes; where [mmap] places pages, and whether it does, is the
    kernel's choice.  The program's own tests are modelled too. *)
From S2P Require Import Prelude.
From stdpp Require Import gmap list.
#[local] Open Scope Z_scope.
#[local] Open Scope c_scope.

(** ** Memory *)

(** [page_size] is the static variable of [get_page_size]; [calls] counts the system
    calls. *)
Record state := mk_state { memory : gmap Z Z; page_size : Z; calls : nat }.

Definition set_memory m := modify (λ s, mk_state m (page_size s) (calls s)).
Definition set_page_size n := modify (λ s, mk_state (memory s) n (calls s)).
Definition tick : M state unit := modify (λ s, mk_state (memory s) (page_size s) (S (calls s))).

(** [n] bytes from [a] on: set to zero, or taken out. *)
Fixpoint fill (n : nat) (a : Z) (m : gmap Z Z) : gmap Z Z :=
  match n with O => m | S n => <[a := 0]> (fill n (a + 1) m) end.
Fixpoint clear (n : nat) (a : Z) (m : gmap Z Z) : gmap Z Z :=
  match n with O => m | S n => delete a (clear n (a + 1) m) end.
Fixpoint store_bytes (a : Z) (bs : list Z) (m : gmap Z Z) : gmap Z Z :=
  match bs with [] => m | b :: bs => <[a := b]> (store_bytes (a + 1) bs m) end.
Fixpoint load_bytes (n : nat) (a : Z) (m : gmap Z Z) : option (list Z) :=
  match n with
  | O => Some []
  | S n => match m !! a, load_bytes n (a + 1) m with Some b, Some bs => Some (b :: bs) | _, _ => None end
  end.

(** Loads and stores of a [size_t]. *)
Definition load64 (a : Z) : M state Z :=
  bs ← gets_some (λ s, load_bytes 8 a (memory s));
  ret (le_decode bs).
Definition store64 (a v : Z) : M state unit :=
  gets_some (λ s, load_bytes 8 a (memory s)) ;;
  m ← gets memory;
  set_memory (store_bytes a (le_encode 8 v) m).

(** ** The system *)

Section alloc.
(** [sysconf(_SC_PAGESIZE)], and the address at which the kernel wants to place some
    bytes. *)
Context (PAGESIZE : Z) (kernel : nat → gmap Z Z → Z → Z).

Definition round_up (len : Z) : Z := (len + PAGESIZE - 1) / PAGESIZE * PAGESIZE.

(** The kernel may place [len] bytes at [a]. *)
Definition placeable (m : gmap Z Z) (a len : Z) : bool :=
  if (0 <? a) && (a mod PAGESIZE =? 0) && (0 <? len) && (a + len <=? 2 ^ 64)
  then bool_decide (map_Forall (λ x _, ¬ (a ≤ x < a + len)) m) else false.

Definition MAP_FAILED : Z := -1.

Definition mmap (len : Z) : M state Z :=
  k ← gets calls;
  m ← gets memory;
  tick ;;
  let a := kernel k m (round_up len) in
  if placeable m a (round_up len) then set_memory (fill (Z.to_nat (round_up len)) a m) ;; ret a
  else ret MAP_FAILED.

(** A range of whole pages is always unmapped; the allocator only passes ranges
    that were mapped by one call. *)
Definition munmap (a len : Z) : M state Z :=
  m ← gets memory;
  tick ;;
  if (a mod PAGESIZE =? 0) && (0 <? len) && (a + round_up len <=? 2 ^ 64)
  then set_memory (clear (Z.to_nat (round_up len)) a m) ;; ret 0
  else ret (-1).

(** ** The allocator *)

Definition get_page_size : M state Z :=
  n ← gets page_size;
  (if n =? 0 then set_page_size (if PAGESIZE <? 0 then 4096 else u64 PAGESIZE) else ret tt) ;;
  gets page_size.

(** [struct page_header]: [pages] and [page_size] of eight bytes each. *)
Definition sizeof_page_header : Z := 16.
Definition get_pages (h : Z) : M state Z := load64 h.
Definition get_header_page_size (h : Z) : M state Z := load64 (h + 8).
Definition set_pages (h n : Z) : M state unit := store64 h n.
Definition set_header_page_size (h n : Z) : M state unit := store64 (h + 8) n.
Definition page_data (h : Z) : Z := h + 16.

Definition any_to_page_header (ptr : Z) : Z := u64 (ptr - sizeof_page_header).

Definition naive_free_internal (header : Z) : M state unit :=
  if negb (truthy header) then ret tt
  else
    pages ← get_pages header;
    ps ← get_header_page_size header;
    munmap header (u64 (pages * ps)) ;;
    ret tt.

Definition naive_free (ptr : Z) : M state unit :=
  if truthy ptr then naive_free_internal (any_to_page_header ptr) else ret tt.

Definition naive_malloc_internal (size : Z) : M state Z :=
  if size =? 0 then ret 0
  else
    ps ← get_page_size;
    let pages := u64 (u64 (size + sizeof_page_header) / ps + 1) in
    let mmap_size := u64 (pages * ps) in
    ptr ← mmap mmap_size;
    if ptr =? MAP_FAILED then ret 0
    else
      set_pages ptr pages ;;
      set_header_page_size ptr ps ;;
      ret ptr.

Definition naive_malloc (size : Z) : M state Z :=
  result ← naive_malloc_internal size;
  ret (if negb (truthy result) then 0 else page_data result).

(** ** The tests *)

Definition TEST_SUCCESS : Z := 0.
Definition ALLOC_LARGE : Z := 1.
Definition ALLOC_SMALL : Z := 2.
Definition NOT_FREED : Z := 4.
Definition ALLOC_FAILED : Z := 8.

(** The first number of /proc/self/statm: how many pages are mapped. *)
Definition get_used_memory : M state Z :=
  m ← gets memory;
  ret (Z.of_nat (size m) / PAGESIZE).

Definition test_variable_malloc (size : Z) : M state Z :=
  ps ← get_page_size;
  let min_expected_page_alloc := u64 (size + sizeof_page_header) / ps in
  let max_expected_page_alloc := u64 (u64 (size + sizeof_page_header) / ps + 1) in
  before_malloc ← get_used_memory;
  ptr ← naive_malloc size;
  if negb (truthy ptr) && negb (size =? 0) then ret ALLOC_FAILED
  else
    after_malloc ← get_used_memory;
    let allocated := u64 (after_malloc - before_malloc) in
    let r := TEST_SUCCESS in
    let r := if allocated <? min_expected_page_alloc then Z.lor r ALLOC_SMALL else r in
    let r := if max_expected_page_alloc <? allocated then Z.lor r ALLOC_LARGE else r in
    naive_free ptr ;;
    after_free ← get_used_memory;
    ret (if negb (before_malloc =? after_free) then Z.lor r NOT_FREED else r).

Definition test_alloc_zero : M state unit :=
  result ← test_variable_malloc 0;
  massert (result =? TEST_SUCCESS).

Fixpoint test_alloc_small_loop (fuel : nat) (i : Z) : M state unit :=
  ps ← get_page_size;
  if negb (i <? u64 (ps - sizeof_page_header)) then ret tt
  else match fuel with
  | O => fail Exhausted
  | S fuel =>
      result ← test_variable_malloc i;
      massert (result =? TEST_SUCCESS) ;;
      test_alloc_small_loop fuel (u64 (i + 1))
  end.

Definition test_alloc_small : M state unit := test_alloc_small_loop (Z.to_nat PAGESIZE) 1.

Definition two_pow_64_div_10 : Z := (2 ^ 64 - 1) / 10.
Definition increment : Z := 2.

Fixpoint test_alloc_large_loop (fuel : nat) (size : Z) : M state Z :=
  if negb (size <? two_pow_64_div_10) then ret size
  else match fuel with
  | O => fail Exhausted
  | S fuel =>
      result ← test_variable_malloc size;
      if truthy (Z.land result ALLOC_FAILED) then ret size
      else
        massert (result =? TEST_SUCCESS) ;;
        test_alloc_large_loop fuel (u64 (size * increment))
  end.

(** The result is what is printed as the largest allocation. *)
Definition test_alloc_large : M state Z :=
  ps ← get_page_size;
  size ← test_alloc_large_loop 64 (u64 (ps - sizeof_page_header));
  ret (size / increment).

Definition main : M state Z :=
  test_alloc_zero ;;
  test_alloc_small ;;
  test_alloc_large.
End alloc.

(** ** Lemmas on the memory *)

Lemma fill_lookup n a m x : fill n a m !! x = if decide (a ≤ x < a + Z.of_nat n) then Some 0 else m !! x.
Proof.
  revert a. induction n as [|n IH]; intros a; cbn [fill]; [by rewrite decide_False by lia|].
  destruct (decide (x = a)) as [->|]; [by rewrite lookup_insert_eq, decide_True by lia|].
  rewrite lookup_insert_ne, IH by done. apply decide_ext. lia.
Qed.

Lemma clear_lookup n a m x : clear n a m !! x = if decide (a ≤ x < a + Z.of_nat n) then None else m !! x.
Proof.
  revert a. induction n as [|n IH]; intros a; cbn [clear]; [by rewrite decide_False by lia|].
  destruct (decide (x = a)) as [->|]; [by rewrite lookup_delete_eq, decide_True by lia|].
  rewrite lookup_delete_ne, IH by done. apply decide_ext. lia.
Qed.

Lemma store_bytes_lookup a bs m x :
  store_bytes a bs m !! x = if decide (a ≤ x < a + Z.of_nat (length bs)) then bs !! Z.to_nat (x - a) else m !! x.
Proof.
  revert a. induction bs as [|b bs IH]; intros a; cbn [store_bytes]; [by rewrite decide_False by (cbn; lia)|]. cbn [length].
  destruct (decide (x = a)) as [->|]; [rewrite lookup_insert_eq, decide_True, Z.sub_diag by lia; done|].
  rewrite lookup_insert_ne, IH by done. destruct (decide (a + 1 ≤ x < _)) as [H|H].
  - rewrite decide_True by lia. by replace (Z.to_nat (x - a)) with (S (Z.to_nat (x - (a + 1)))) by lia.
  - by rewrite decide_False by lia.
Qed.

Lemma load_bytes_lookup n a m bs : length bs = n → (∀ i, (i < n)%nat → m !! (a + Z.of_nat i) = bs !! i) → load_bytes n a m = Some bs.
Proof.
  revert a bs. induction n as [|n IH]; intros a bs Hl Hm; (destruct bs as [|b bs]; [by try done|]); [done|]. cbn [load_bytes].
  pose proof (Hm 0%nat ltac:(lia)) as H0. rewrite Z.add_0_r in H0. rewrite H0. cbn. rewrite (IH _ bs); [done|by injection Hl|].
  intros i Hi. etrans; [|exact (Hm (S i) ltac:(lia))]. f_equal. lia.
Qed.

Lemma fill_size n a m : (∀ x, a ≤ x < a + Z.of_nat n → m !! x = None) → size (fill n a m) = (n + size m)%nat.
Proof.
  revert a. induction n as [|n IH]; intros a Hm; cbn [fill]; [done|].
  rewrite map_size_insert_None, IH; [done|intros x Hx; apply Hm; lia|]. rewrite fill_lookup, decide_False by lia. apply Hm. lia.
Qed.

Lemma store_bytes_size a bs m : (∀ x, a ≤ x < a + Z.of_nat (length bs) → is_Some (m !! x)) → size (store_bytes a bs m) = size m.
Proof.
  revert a. induction bs as [|b bs IH]; intros a Hm; cbn [store_bytes]; [done|]. cbn [length] in Hm.
  rewrite map_size_insert_Some, IH; [done|intros x Hx; apply Hm; lia|]. rewrite store_bytes_lookup, decide_False by lia. apply Hm. lia.
Qed.

(** The bytes [bs] lie at [a]. *)
Definition bytes_at (m : gmap Z Z) (a : Z) (bs : list Z) : Prop :=
  ∀ x, a ≤ x < a + Z.of_nat (length bs) → m !! x = bs !! Z.to_nat (x - a).

Lemma bytes_at_app m a bs ds : bytes_at m a (bs ++ ds) ↔ bytes_at m a bs ∧ bytes_at m (a + Z.of_nat (length bs)) ds.
Proof.
  unfold bytes_at. rewrite length_app. split.
  - intros H. split; intros x Hx; rewrite H by lia; [by rewrite lookup_app_l by lia|]. rewrite lookup_app_r by lia. f_equal. lia.
  - intros [H1 H2] x Hx. destruct (decide (x < a + Z.of_nat (length bs))).
    + by rewrite H1, lookup_app_l by lia.
    + rewrite H2, lookup_app_r by lia. f_equal. lia.
Qed.

Lemma load64_run s a v : 0 ≤ v < 2 ^ 64 → bytes_at (memory s) a (le_encode 8 v) → load64 a s = Ok (v, s).
Proof.
  intros Hv Hb. unfold load64. erewrite bind_ok; [unfold ret; by rewrite (le_decode_encode_id 8 v)|].
  apply gets_some_ok, load_bytes_lookup; [apply length_le_encode|]. intros i Hi.
  rewrite Hb by (rewrite length_le_encode; lia). f_equal. lia.
Qed.

Definition with_memory (m : gmap Z Z) (s : state) : state := mk_state m (page_size s) (calls s).

Lemma store64_run s a v bs : bytes_at (memory s) a bs → length bs = 8%nat →
  store64 a v s = Ok (tt, with_memory (store_bytes a (le_encode 8 v) (memory s)) s).
Proof.
  intros Hb Hl. unfold store64. erewrite bind_ok; [reflexivity|]. apply gets_some_ok, (load_bytes_lookup _ _ _ bs); [done|].
  intros i Hi. rewrite Hb by lia. f_equal. lia.
Qed.

Lemma store_bytes_same a bs m : bytes_at (store_bytes a bs m) a bs.
Proof. intros x Hx. by rewrite store_bytes_lookup, decide_True. Qed.

Lemma store_bytes_other a bs m b ds : b + Z.of_nat (length ds) ≤ a ∨ a + Z.of_nat (length bs) ≤ b →
  bytes_at m b ds → bytes_at (store_bytes a bs m) b ds.
Proof. intros H Hb x Hx. rewrite store_bytes_lookup, decide_False by lia. by apply Hb. Qed.

Lemma fill_bytes n a m : bytes_at (fill n a m) a (replicate n 0).
Proof.
  intros x Hx. rewrite length_replicate in Hx. rewrite fill_lookup, decide_True by done. symmetry. apply lookup_replicate_2. lia.
Qed.

(** ** The allocator, call by call *)

Section runs.
(** The page size is a power of two. *)
Context (k : Z) (k_range : 1 ≤ k < 63) (kernel : nat → gmap Z Z → Z → Z).
Notation PS := (2 ^ k).

Lemma PS_range : 2 ≤ PS < 2 ^ 63.
Proof. split; [apply (Z.pow_le_mono_r 2 1 k); lia|apply Z.pow_lt_mono_r; lia]. Qed.

Lemma round_up_pages n : round_up PS (n * PS) = n * PS.
Proof.
  pose proof PS_range. unfold round_up. f_equal. replace (n * PS + PS - 1) with (PS - 1 + n * PS) by lia.
  rewrite Z.div_add by lia. rewrite Z.div_small by lia. lia.
Qed.

(** The pages and the bytes for a request. *)
Definition pages_for (size : Z) : Z := (size + sizeof_page_header) / PS + 1.
Definition bytes_for (size : Z) : Z := pages_for size * PS.

Lemma bytes_for_bound size : 0 ≤ size → size + 16 < bytes_for size ≤ size + 16 + PS ∧ 0 < pages_for size.
Proof.
  pose proof PS_range. intros Hs. unfold bytes_for, pages_for, sizeof_page_header.
  pose proof (Z.div_mod (size + 16) PS ltac:(lia)). pose proof (Z.mod_pos_bound (size + 16) PS ltac:(lia)).
  pose proof (Z.div_pos (size + 16) PS ltac:(lia) ltac:(lia)). nia.
Qed.

Lemma pages_for_bound size : 0 ≤ size < 2 ^ 64 - 16 → pages_for size < 2 ^ 64 ∧ bytes_for size ≤ 2 ^ 64.
Proof.
  pose proof PS_range. intros Hs. unfold bytes_for, pages_for, sizeof_page_header.
  assert ((size + 16) / PS < 2 ^ (64 - k)) as Hlt.
  { apply Z.div_lt_upper_bound; [lia|]. rewrite <- Z.pow_add_r by lia. replace (k + (64 - k)) with 64 by lia. lia. }
  assert (2 ^ (64 - k) * PS = 2 ^ 64) as Heq by (rewrite <- Z.pow_add_r by lia; f_equal; lia).
  pose proof (Z.pow_le_mono_r 2 (64 - k) 63 ltac:(lia) ltac:(lia)). split; [lia|]. nia.
Qed.

(** The static variable is not set yet, or set. *)
Definition cached (s : state) : Prop := page_size s = 0 ∨ page_size s = PS.

Lemma get_page_size_run s : cached s → get_page_size PS s = Ok (PS, mk_state (memory s) PS (calls s)).
Proof.
  pose proof PS_range. unfold get_page_size, bind, gets, set_page_size, modify, ret. intros [H0|H0]; rewrite H0.
  - cbn. rewrite (proj2 (Z.ltb_ge _ _)) by lia. by rewrite wrapu_small by lia.
  - rewrite (proj2 (Z.eqb_neq _ _)) by lia. rewrite H0. destruct s. cbn in *. by rewrite H0.
Qed.

Lemma placeable_true m a len : placeable PS m a len = true ↔
  0 < a ∧ a mod PS = 0 ∧ 0 < len ∧ a + len ≤ 2 ^ 64 ∧ ∀ x, a ≤ x < a + len → m !! x = None.
Proof.
  unfold placeable. destruct (_ && _ && _ && _) eqn:E.
  - bool_to_prop. rewrite bool_decide_eq_true. split.
    + intros Hf. split_and!; try done. intros x Hx. destruct (m !! x) eqn:Hm; [|done]. destruct (Hf x _ Hm Hx).
    + intros (_&_&_&_&Hf) x v Hm Hx. by rewrite Hf in Hm.
  - split; [done|]. intros (H1&H2&H3&H4&_). apply Z.ltb_lt in H1, H3. apply Z.leb_le in H4. apply Z.eqb_eq in H2.
    by rewrite H1, H2, H3, H4 in E.
Qed.

(** The memory with a new block at [a]. *)
Definition alloc_memory (a size : Z) (m : gmap Z Z) : gmap Z Z :=
  store_bytes (a + 8) (le_encode 8 PS) (store_bytes a (le_encode 8 (pages_for size)) (fill (Z.to_nat (bytes_for size)) a m)).

(** A block of [n] pages with the data [l]. *)
Definition block_bytes (n : Z) (l : list Z) : list Z := le_encode 8 n ++ le_encode 8 PS ++ l.

Lemma length_block_bytes n l : length (block_bytes n l) = (16 + length l)%nat.
Proof. unfold block_bytes. by rewrite !length_app, !length_le_encode. Qed.

Definition capacity (size : Z) : nat := Z.to_nat (bytes_for size - 16).

Lemma filled_bytes a size m : 0 ≤ size → bytes_at (fill (Z.to_nat (bytes_for size)) a m) a
  (replicate 8 0 ++ replicate 8 0 ++ replicate (capacity size) 0).
Proof.
  intros Hs. destruct (bytes_for_bound size Hs). rewrite <- !replicate_add.
  replace (8 + (8 + capacity size))%nat with (Z.to_nat (bytes_for size)) by (unfold capacity; lia). apply fill_bytes.
Qed.

Lemma alloc_memory_spec a sz m : 0 ≤ sz → (∀ x, a ≤ x < a + bytes_for sz → m !! x = None) →
  bytes_at (alloc_memory a sz m) a (block_bytes (pages_for sz) (replicate (capacity sz) 0)) ∧
  (∀ x, ¬ (a ≤ x < a + bytes_for sz) → alloc_memory a sz m !! x = m !! x) ∧
  size (alloc_memory a sz m) = (Z.to_nat (bytes_for sz) + size m)%nat.
Proof.
  intros Hs Hm. pose proof (filled_bytes a sz m Hs) as HB. destruct (bytes_for_bound sz Hs) as [Hb _].
  apply bytes_at_app in HB as [H1 HB]. apply bytes_at_app in HB as [H2 H3]. rewrite !length_replicate in *.
  unfold alloc_memory, block_bytes. split_and!.
  - rewrite !bytes_at_app, !length_le_encode. split_and!.
    + apply store_bytes_other; [rewrite length_le_encode; lia|]. apply store_bytes_same.
    + apply store_bytes_same.
    + apply store_bytes_other; [rewrite length_le_encode; lia|]. by apply store_bytes_other; [rewrite length_le_encode; lia|].
  - intros x Hx. rewrite store_bytes_lookup, length_le_encode, decide_False by lia.
    rewrite store_bytes_lookup, length_le_encode, decide_False by lia. rewrite fill_lookup, decide_False by lia. done.
  - rewrite store_bytes_size; [rewrite store_bytes_size; [apply fill_size; intros x Hx; apply Hm; lia|]|].
    + intros x Hx. rewrite length_le_encode in Hx. rewrite fill_lookup, decide_True by lia. by eexists.
    + intros x Hx. rewrite length_le_encode in Hx. rewrite store_bytes_lookup, length_le_encode, decide_False by lia.
      rewrite fill_lookup, decide_True by lia. by eexists.
Qed.

(** What [mmap] answers for a request. *)
Definition granted (sz : Z) (s : state) : option Z :=
  let a := kernel (calls s) (memory s) (bytes_for sz) in
  if placeable PS (memory s) a (bytes_for sz) then Some a else None.

Lemma mmap_eq len s : mmap PS kernel len s =
  Ok (let a := kernel (calls s) (memory s) (round_up PS len) in
      if placeable PS (memory s) a (round_up PS len)
      then (a, mk_state (fill (Z.to_nat (round_up PS len)) a (memory s)) (page_size s) (S (calls s)))
      else (-1, mk_state (memory s) (page_size s) (S (calls s)))).
Proof. unfold mmap, bind, gets, tick, modify, set_memory, ret. by destruct (placeable _ _ _ _). Qed.

Lemma placeable_not m a len : len = 0 ∨ len = 2 ^ 64 → placeable PS m a len = false.
Proof. intros Hl. destruct (placeable _ _ _ _) eqn:E; [|done]. apply placeable_true in E. lia. Qed.

Lemma mmap_run sz s : 0 ≤ sz < 2 ^ 64 - 16 → mmap PS kernel (u64 (bytes_for sz)) s =
  Ok (match granted sz s with
      | Some a => (a, mk_state (fill (Z.to_nat (bytes_for sz)) a (memory s)) (page_size s) (S (calls s)))
      | None => (-1, mk_state (memory s) (page_size s) (S (calls s)))
      end).
Proof.
  intros Hs. destruct (pages_for_bound sz Hs) as [Hp Hb]. destruct (bytes_for_bound sz ltac:(lia)) as [Hb' Hp0].
  rewrite mmap_eq. unfold granted. cbn zeta. destruct (decide (bytes_for sz = 2 ^ 64)) as [He|He].
  - rewrite (placeable_not _ _ (bytes_for sz)) by lia. rewrite placeable_not; [done|]. left.
    rewrite He. exact (round_up_pages 0).
  - rewrite wrapu_small by lia. replace (round_up PS (bytes_for sz)) with (bytes_for sz) by (symmetry; apply round_up_pages).
    by destruct (placeable _ _ _ _).
Qed.

(** [naive_malloc] gives a block of fresh, zeroed pages, or NULL when nothing is
    asked for or the kernel refuses; in the second case nothing has changed. *)
Lemma naive_malloc_run sz s : 0 ≤ sz < 2 ^ 64 - 16 → cached s →
  ∃ r s', naive_malloc PS kernel sz s = Ok (r, s') ∧ cached s' ∧
  match granted sz (mk_state (memory s) PS (calls s)) with
  | Some a => if sz =? 0 then r = 0 ∧ memory s' = memory s else r = a + 16 ∧ memory s' = alloc_memory a sz (memory s)
  | None => r = 0 ∧ memory s' = memory s
  end.
Proof.
  intros Hs Hc. destruct (pages_for_bound sz Hs) as [Hp Hb]. destruct (bytes_for_bound sz ltac:(lia)) as [Hb' Hp0].
  unfold naive_malloc, naive_malloc_internal. destruct (Z.eqb_spec sz 0) as [->|Hz].
  { exists 0, s. rewrite (bind_ok _ _ _ _ _ (ret_run _ _)). split; [done|]. split; [done|]. by destruct (granted _ _). }
  rewrite bind_assoc, (bind_ok _ _ _ _ _ (get_page_size_run s Hc)). unfold sizeof_page_header.
  rewrite (wrapu_small 64 (sz + 16)) by lia. change ((sz + 16) / PS + 1) with (pages_for sz). cbn zeta.
  rewrite (wrapu_small 64 (pages_for sz)) by lia. change (pages_for sz * PS) with (bytes_for sz).
  rewrite bind_assoc. pose proof (mmap_run sz (mk_state (memory s) PS (calls s)) Hs) as Hr.
  destruct (granted sz _) as [a|] eqn:Hg; rewrite (bind_ok _ _ _ _ _ Hr); cbn [memory page_size calls].
  - unfold granted in Hg. cbn [memory calls] in Hg. destruct (placeable _ _ _ _) eqn:Hpl; [|done]. injection Hg as Hg. rewrite Hg in Hpl. apply placeable_true in Hpl as (Ha&Hal&_&Hend&Hfree).
    unfold MAP_FAILED. rewrite (proj2 (Z.eqb_neq a (-1))) by lia.
    pose proof (filled_bytes a sz (memory s) ltac:(lia)) as HB. apply bytes_at_app in HB as [H1 HB]. apply bytes_at_app in HB as [H2 _].
    rewrite !length_replicate in *. unfold set_pages, set_header_page_size. rewrite bind_assoc.
    erewrite bind_ok by (eapply store64_run; [exact H1|done]). cbn [memory with_memory]. rewrite bind_assoc.
    erewrite bind_ok by (eapply store64_run; [apply (store_bytes_other a _ _ (a + 8) (replicate 8 0)); [rewrite length_le_encode; lia|exact H2]|done]).
    rewrite (bind_ok _ _ _ _ _ (ret_run _ _)). unfold truthy. rewrite (proj2 (Z.eqb_neq a 0)) by lia. cbn [negb].
    eexists _, _. split; [done|]. split; [by right|]. done.
  - eexists _, _. split; [done|]. split; [by right|]. done.
Qed.

(** The block at [a] of [n] pages with the data [l]. *)
Definition block (m : gmap Z Z) (a n : Z) (l : list Z) : Prop :=
  0 < a ∧ a mod PS = 0 ∧ 0 < n ∧ a + n * PS ≤ 2 ^ 64 ∧ 16 + Z.of_nat (length l) = n * PS ∧ bytes_at m a (block_bytes n l).

Lemma naive_free_run s a n l : block (memory s) a n l →
  naive_free PS (a + 16) s = Ok (tt, mk_state (clear (Z.to_nat (n * PS)) a (memory s)) (page_size s) (S (calls s))).
Proof.
  intros (Ha&Hal&Hn&Hend&Hl&HB). pose proof PS_range. apply bytes_at_app in HB as [H1 HB]. apply bytes_at_app in HB as [H2 _].
  rewrite !length_le_encode in *. unfold naive_free, naive_free_internal, any_to_page_header, sizeof_page_header, truthy.
  rewrite (proj2 (Z.eqb_neq _ _)) by lia. cbn [negb]. replace (a + 16 - 16) with a by lia. rewrite (wrapu_small 64 a) by nia.
  rewrite (proj2 (Z.eqb_neq _ _)) by lia. cbn [negb]. unfold get_pages, get_header_page_size.
  rewrite (bind_ok _ _ _ _ _ (load64_run s a n ltac:(nia) H1)), (bind_ok _ _ _ _ _ (load64_run s (a + 8) PS ltac:(lia) H2)).
  rewrite (wrapu_small 64) by nia. unfold munmap. rewrite round_up_pages, Hal. rewrite (proj2 (Z.ltb_lt _ _)) by nia.
  rewrite (proj2 (Z.leb_le _ _)) by lia. done.
Qed.
End runs.

(** ** The allocator as its clients see it *)

Inductive op :=
| Malloc (size : Z)
| Free (p : Z)
| Load (p i : Z)
| Store (p i b : Z).

Definition store_byte (a b : Z) : M state unit :=
  gets_some (λ s, memory s !! a) ;;
  m ← gets memory;
  set_memory (<[a := b]> m).

Definition exec (PAGESIZE : Z) (kernel : nat → gmap Z Z → Z → Z) (o : op) : M state Z :=
  match o with
  | Malloc n => naive_malloc PAGESIZE kernel n
  | Free p => naive_free PAGESIZE p ;; ret 0
  | Load p i => gets_some (λ s, memory s !! (p + i))
  | Store p i b => store_byte (p + i) b ;; ret 0
  end.

(** The blocks that are allocated, with their bytes, and what an operation may
    answer and do to them. *)
Inductive spec : op → Z → gmap Z (list Z) → gmap Z (list Z) → Prop :=
| spec_malloc_null n bl : spec (Malloc n) 0 bl bl
| spec_malloc n r cap bl : n ≠ 0 → r ≠ 0 → bl !! r = None → n ≤ Z.of_nat cap → spec (Malloc n) r bl (<[r := replicate cap 0]> bl)
| spec_free_null bl : spec (Free 0) 0 bl bl
| spec_free p l bl : bl !! p = Some l → spec (Free p) 0 bl (delete p bl)
| spec_load p i l v bl : bl !! p = Some l → 0 ≤ i → l !! Z.to_nat i = Some v → spec (Load p i) v bl bl
| spec_store p i b l bl : bl !! p = Some l → 0 ≤ i < Z.of_nat (length l) → spec (Store p i b) 0 bl (<[p := <[Z.to_nat i := b]> l]> bl).

(** What a client may ask for. *)
Definition allowed (o : op) (bl : gmap Z (list Z)) : Prop :=
  match o with
  | Malloc n => 0 ≤ n < 2 ^ 64 - 16
  | Free p => p = 0 ∨ is_Some (bl !! p)
  | Load p i | Store p i _ => ∃ l, bl !! p = Some l ∧ 0 ≤ i < Z.of_nat (length l)
  end.

(** What has been asked for and answered, the last first. *)
Inductive history : list (op * Z) → gmap Z (list Z) → Prop :=
| history_nil : history [] ∅
| history_cons t bl o r bl' : history t bl → spec o r bl bl' → history ((o, r) :: t) bl'.

(** A client chooses its next operation by the answers so far. *)
Definition client : Type := list (op * Z) → option op.
Definition legal (c : client) : Prop := ∀ t bl o, history t bl → c t = Some o → allowed o bl.

Fixpoint run (PAGESIZE : Z) (kernel : nat → gmap Z Z → Z → Z) (c : client) (n : nat) (t : list (op * Z)) : M state (list (op * Z)) :=
  match n with
  | O => ret t
  | S n =>
      match c t with
      | None => ret t
      | Some o => r ← exec PAGESIZE kernel o; run PAGESIZE kernel c n ((o, r) :: t)
      end
  end.

Section refinement.
Context (k : Z) (k_range : 1 ≤ k < 63) (kernel : nat → gmap Z Z → Z → Z).
Notation PS := (2 ^ k).

(** The addresses of a block with the data [l] at [p], the header included. *)
Definition within (p : Z) (l : list Z) (x : Z) : Prop := p - 16 ≤ x < p + Z.of_nat (length l).

(** The blocks [bl] lie in the memory, apart from each other and from the memory
    [m0] that was mapped before, and nothing else is mapped. *)
Record rep (m0 : gmap Z Z) (bl : gmap Z (list Z)) (s : state) : Prop := {
  rep_cached : cached k s;
  rep_block p l : bl !! p = Some l → ∃ n, block k (memory s) (p - 16) n l;
  rep_apart p l q l' x : bl !! p = Some l → bl !! q = Some l' → within p l x → within q l' x → p = q;
  rep_fresh p l x : bl !! p = Some l → within p l x → m0 !! x = None;
  rep_rest x : (∀ p l, bl !! p = Some l → ¬ within p l x) → memory s !! x = m0 !! x;
}.

Lemma block_data m p n l i : block k m (p - 16) n l → 0 ≤ i < Z.of_nat (length l) → m !! (p + i) = l !! Z.to_nat i.
Proof.
  intros (_&_&_&_&_&HB) Hi. rewrite HB by (rewrite length_block_bytes; lia).
  unfold block_bytes. rewrite app_assoc, lookup_app_r by (rewrite length_app, !length_le_encode; lia).
  f_equal. rewrite length_app, !length_le_encode. lia.
Qed.

Lemma block_ext m m' p n l : (∀ x, within p l x → m' !! x = m !! x) → block k m (p - 16) n l → block k m' (p - 16) n l.
Proof.
  intros Hx (H1&H2&H3&H4&H5&HB). split_and!; try done. intros x Hr. rewrite <- HB by done. apply Hx.
  rewrite length_block_bytes in Hr. unfold within. lia.
Qed.

Lemma block_size p n l m : block k m (p - 16) n l → n * 2 ^ k = 16 + Z.of_nat (length l).
Proof. intros (_&_&_&_&H&_). lia. Qed.

Lemma block_mapped m p n l x : block k m (p - 16) n l → within p l x → is_Some (m !! x).
Proof.
  intros (_&_&_&_&_&HB) Hw. unfold within in Hw. rewrite HB by (rewrite length_block_bytes; lia).
  apply lookup_lt_is_Some. rewrite length_block_bytes. lia.
Qed.

Lemma spec_store_block m p n l i b : block k m (p - 16) n l → 0 ≤ i < Z.of_nat (length l) →
  block k (<[p + i := b]> m) (p - 16) n (<[Z.to_nat i := b]> l).
Proof.
  intros HB Hi. pose proof HB as (H1&H2&H3&H4&H5&HBy). split_and!; try done; [by rewrite length_insert|].
  intros x Hx. rewrite length_block_bytes, length_insert in Hx. unfold block_bytes. rewrite app_assoc.
  destruct (decide (x = p + i)) as [->|Hne].
  - rewrite lookup_insert_eq, lookup_app_r by (rewrite length_app, !length_le_encode; lia).
    rewrite length_app, !length_le_encode. replace (Z.to_nat (p + i - (p - 16)) - (8 + 8))%nat with (Z.to_nat i) by lia.
    symmetry. apply list_lookup_insert_eq. lia.
  - rewrite lookup_insert_ne, HBy by (rewrite ?length_block_bytes; lia). unfold block_bytes. rewrite app_assoc.
    destruct (decide (x < p)).
    + by rewrite !(lookup_app_l (le_encode 8 n ++ le_encode 8 PS)) by (rewrite length_app, !length_le_encode; lia).
    + rewrite !(lookup_app_r (le_encode 8 n ++ le_encode 8 PS)) by (rewrite length_app, !length_le_encode; lia).
      rewrite length_app, !length_le_encode, list_lookup_insert_ne by lia. done.
Qed.

Lemma rep_malloc m0 bl s n : rep m0 bl s → 0 ≤ n < 2 ^ 64 - 16 →
  ∃ r s' bl', naive_malloc PS kernel n s = Ok (r, s') ∧ spec (Malloc n) r bl bl' ∧ rep m0 bl' s'.
Proof.
  intros [Hc Hb Ha Hf Hr] Hn. destruct (bytes_for_bound k k_range n ltac:(lia)) as [Hbn Hpn].
  destruct (naive_malloc_run k k_range kernel n s Hn Hc) as (r&s'&Hrun&Hc'&Hres). exists r, s'.
  assert (r = 0 ∧ memory s' = memory s → ∃ bl', naive_malloc PS kernel n s = Ok (r, s') ∧ spec (Malloc n) r bl bl' ∧ rep m0 bl' s') as Hnull.
  { intros [-> Hm]. exists bl. split_and!; [done|constructor|]. split; rewrite ?Hm; eauto. }
  destruct (granted k kernel n _) as [a|] eqn:Hg; [|by apply Hnull]. destruct (Z.eqb_spec n 0) as [|Hn0]; [by apply Hnull|].
  destruct Hres as [-> Hm]. unfold granted in Hg. cbn [memory calls] in Hg. destruct (placeable _ _ _ _) eqn:Hpl; [|done]. injection Hg as Hg.
  rewrite Hg in Hpl. apply placeable_true in Hpl as (Ha0&Hal&_&Hend&Hfree).
  destruct (alloc_memory_spec k k_range a n (memory s) ltac:(lia) Hfree) as (HB&Hother&_).
  set (l := replicate (capacity k n) 0). assert (Z.of_nat (length l) = bytes_for k n - 16) as Hl by (unfold l, capacity; rewrite length_replicate; lia).
  assert (∀ x, within (a + 16) l x ↔ a ≤ x < a + bytes_for k n) as Hw by (intros x; unfold within; lia).
  assert (∀ p l' x, bl !! p = Some l' → within p l' x → ¬ within (a + 16) l x) as Hapart.
  { intros p l' x Hp Hx Hx'%Hw. destruct (Hb _ _ Hp) as [m HBp]. destruct (block_mapped _ _ _ _ _ HBp Hx) as [v Hv]. by rewrite Hfree in Hv. }
  assert (bl !! (a + 16) = None) as Hnew.
  { destruct (bl !! (a + 16)) as [l'|] eqn:Hp; [|done]. destruct (Hapart (a + 16) l' a Hp); unfold within; lia. }
  exists (<[a + 16 := l]> bl). split; [done|]. split; [apply spec_malloc; unfold l in *; try done; [lia|rewrite length_replicate in Hl; lia]|].
  split; [done| | | |].
  - intros p l' [[<- <-]|[Hne Hp]]%lookup_insert_Some.
    + exists (pages_for k n). replace (a + 16 - 16) with a by lia. rewrite Hm. split_and!; try done; unfold bytes_for in *; lia.
    + destruct (Hb _ _ Hp) as [m HBp]. exists m. eapply block_ext; [|exact HBp]. intros x Hx. rewrite Hm. apply Hother.
      rewrite <- Hw. by apply (Hapart p l').
  - intros p lp q lq x [[<- <-]|[Hne Hp]]%lookup_insert_Some [[<- <-]|[Hne' Hq]]%lookup_insert_Some Hx Hx'; [done| | |by eapply Ha].
    + by destruct (Hapart _ _ _ Hq Hx').
    + by destruct (Hapart _ _ _ Hp Hx).
  - intros p l' x [[<- <-]|[Hne Hp]]%lookup_insert_Some Hx; [|by eapply Hf].
    rewrite <- Hr; [by apply Hfree, Hw|]. intros q lq Hq Hx'. by apply (Hapart _ _ _ Hq Hx').
  - intros x Hx. rewrite Hm, Hother.
    + apply Hr. intros p l' Hp. apply (Hx p). rewrite lookup_insert_ne; [done|]. intros <-. congruence.
    + rewrite <- Hw. apply (Hx (a + 16)), lookup_insert_eq.
Qed.

Lemma rep_free m0 bl s p l : rep m0 bl s → bl !! p = Some l → ∃ s', naive_free PS p s = Ok (tt, s') ∧ rep m0 (delete p bl) s'.
Proof.
  intros [Hc Hb Ha Hf Hr] Hp. destruct (Hb _ _ Hp) as [n HB]. pose proof (block_size _ _ _ _ HB) as Hsz.
  pose proof (naive_free_run k k_range s _ _ _ HB) as Hrun. replace (p - 16 + 16) with p in Hrun by lia.
  eexists. split; [exact Hrun|]. rewrite Hsz.
  assert (∀ x, clear (Z.to_nat (16 + Z.of_nat (length l))) (p - 16) (memory s) !! x = if decide (within p l x) then None else memory s !! x) as Hcl.
  { intros x. rewrite clear_lookup. apply decide_ext. unfold within. lia. }
  split; cbn [memory]; [done| | | |].
  - intros q lq [Hne Hq]%lookup_delete_Some. destruct (Hb _ _ Hq) as [m HBq]. exists m. eapply block_ext; [|exact HBq].
    intros x Hx. rewrite Hcl, decide_False; [done|]. intros Hx'. by destruct Hne; eapply Ha.
  - intros q lq q' lq' x [_ Hq]%lookup_delete_Some [_ Hq']%lookup_delete_Some. by eapply Ha.
  - intros q lq x [_ Hq]%lookup_delete_Some. by eapply Hf.
  - intros x Hx. rewrite Hcl. destruct (decide (within p l x)) as [Hw|Hw]; [symmetry; by eapply Hf|].
    apply Hr. intros q lq Hq Hwq. destruct (decide (q = p)) as [->|Hne]; [by simplify_eq|]. apply (Hx q lq); [|done]. by rewrite lookup_delete_ne.
Qed.

Lemma rep_store m0 bl s p l i b : rep m0 bl s → bl !! p = Some l → 0 ≤ i < Z.of_nat (length l) →
  ∃ s', store_byte (p + i) b s = Ok (tt, s') ∧ rep m0 (<[p := <[Z.to_nat i := b]> l]> bl) s'.
Proof.
  intros [Hc Hb Ha Hf Hr] Hp Hi. destruct (Hb _ _ Hp) as [n HB].
  destruct (block_mapped _ _ _ _ (p + i) HB) as [v Hv]; [unfold within; lia|].
  exists (with_memory (<[p + i := b]> (memory s)) s). split; [unfold store_byte; by erewrite bind_ok by (by apply gets_some_ok)|].
  assert (∀ q lq, <[p := <[Z.to_nat i := b]> l]> bl !! q = Some lq → ∃ l', bl !! q = Some l' ∧ length lq = length l') as Hold.
  { intros q lq [[<- <-]|[_ Hq]]%lookup_insert_Some; [exists l; by rewrite length_insert|by exists lq]. }
  split; cbn [memory with_memory]; [done| | | |].
  - intros q lq [[<- <-]|[Hne Hq]]%lookup_insert_Some; [exists n; by apply spec_store_block|].
    destruct (Hb _ _ Hq) as [m HBq]. exists m. eapply block_ext; [|exact HBq]. intros x Hx. rewrite lookup_insert_ne; [done|].
    intros <-. apply Hne. eapply Ha; [exact Hp|exact Hq| |exact Hx]. unfold within. lia.
  - intros q lq q' lq' x (l1&Hq&Hl1)%Hold (l2&Hq'&Hl2)%Hold. unfold within. rewrite Hl1, Hl2. by eapply Ha.
  - intros q lq x (l1&Hq&Hl1)%Hold. unfold within. rewrite Hl1. by eapply Hf.
  - intros x Hx. rewrite lookup_insert_ne.
    + apply Hr. intros q lq Hq Hw. destruct (decide (q = p)) as [->|Hne].
      * apply (Hx p (<[Z.to_nat i := b]> l)); [apply lookup_insert_eq|]. unfold within. rewrite length_insert. by simplify_eq.
      * apply (Hx q lq); [by rewrite lookup_insert_ne|done].
    + intros <-. apply (Hx p (<[Z.to_nat i := b]> l)); [apply lookup_insert_eq|]. unfold within. rewrite length_insert. lia.
Qed.

(** Every allowed operation does what the specification says. *)
Lemma rep_exec m0 bl s o : rep m0 bl s → allowed o bl → ∃ r s' bl', exec PS kernel o s = Ok (r, s') ∧ spec o r bl bl' ∧ rep m0 bl' s'.
Proof.
  intros HR Ho. destruct o as [n|p|p i|p i b]; cbn [exec allowed] in *.
  - by apply rep_malloc.
  - destruct Ho as [->|[l Hp]]; [exists 0, s, bl; split_and!; [done|constructor|done]|].
    destruct (rep_free _ _ _ _ _ HR Hp) as (s'&Hr&HR'). rewrite (bind_ok _ _ _ _ _ Hr). eexists _, _, _. split_and!; [done|by econstructor|done].
  - destruct Ho as (l&Hp&Hi). destruct (lookup_lt_is_Some_2 l (Z.to_nat i) ltac:(lia)) as [v Hv]. exists v, s, bl. split_and!; [|eapply spec_load; [done|lia|done]|done].
    apply gets_some_ok. destruct (rep_block _ _ _ HR _ _ Hp) as [n HB]. by rewrite (block_data _ _ _ _ _ HB Hi).
  - destruct Ho as (l&Hp&Hi). destruct (rep_store _ _ _ _ _ _ b HR Hp Hi) as (s'&Hr&HR'). rewrite (bind_ok _ _ _ _ _ Hr).
    eexists _, _, _. split_and!; [done|by eapply spec_store|done].
Qed.

Lemma run_refines m0 c n t bl s : legal c → history t bl → rep m0 bl s →
  ∃ t' s' bl', run PS kernel c n t s = Ok (t', s') ∧ history t' bl' ∧ rep m0 bl' s'.
Proof.
  intros Hc. revert t bl s. induction n as [|n IH]; intros t bl s Ht HR; cbn [run]; [by eexists _, _, _|].
  destruct (c t) as [o|] eqn:Ho; [|by eexists _, _, _]. destruct (rep_exec _ _ _ o HR) as (r&s'&bl'&Hr&Hs&HR'); [by eapply Hc|].
  rewrite (bind_ok _ _ _ _ _ Hr). eapply IH; [|exact HR']. by econstructor.
Qed.
End refinement.

(** ** The tests *)

Section tests.
Context (k : Z) (k_range : 5 ≤ k < 63) (kernel : nat → gmap Z Z → Z → Z).
Notation PS := (2 ^ k).

Lemma k_range' : 1 ≤ k < 63.
Proof. lia. Qed.
Lemma PS_32 : 32 ≤ PS < 2 ^ 63.
Proof. split; [apply (Z.pow_le_mono_r 2 5 k); lia|apply Z.pow_lt_mono_r; lia]. Qed.

Lemma free_after_alloc a sz m : 0 ≤ sz → (∀ x, a ≤ x < a + bytes_for k sz → m !! x = None) →
  clear (Z.to_nat (bytes_for k sz)) a (alloc_memory k a sz m) = m.
Proof.
  intros Hs Hfree. destruct (bytes_for_bound k k_range' sz Hs). destruct (alloc_memory_spec k k_range' a sz m Hs Hfree) as (_&Hother&_).
  apply map_eq. intros x. rewrite clear_lookup, Z2Nat.id by lia. destruct (decide _) as [Hx|Hx]; [by rewrite Hfree|by apply Hother].
Qed.

Lemma used_memory_run s : get_used_memory PS s = Ok (Z.of_nat (size (memory s)) / PS, s).
Proof. done. Qed.

(** A test finds what it expects, and leaves the memory as it was. *)
Lemma test_variable_malloc_run sz s : 0 ≤ sz < 2 ^ 64 - 16 → cached k s →
  ∃ r s', test_variable_malloc PS kernel sz s = Ok (r, s') ∧ cached k s' ∧ memory s' = memory s ∧
    (r = TEST_SUCCESS ∨ r = ALLOC_FAILED ∧ granted k kernel sz (mk_state (memory s) PS (calls s)) = None).
Proof.
  intros Hs Hc. pose proof PS_32. destruct (pages_for_bound k k_range' sz Hs) as [Hp _]. destruct (bytes_for_bound k k_range' sz ltac:(lia)) as [Hb Hp0].
  unfold test_variable_malloc. rewrite (bind_ok _ _ _ _ _ (get_page_size_run k k_range' s Hc)), (bind_ok _ _ _ _ _ (used_memory_run _)). cbn [memory].
  destruct (naive_malloc_run k k_range' kernel sz (mk_state (memory s) PS (calls s)) Hs) as (r&s1&Hr&Hc1&Hres); [by right|].
  rewrite (bind_ok _ _ _ _ _ Hr). cbn [memory calls] in Hres.
  unfold sizeof_page_header. rewrite (wrapu_small 64 (sz + 16)) by lia. change ((sz + 16) / PS + 1) with (pages_for k sz).
  assert ((sz + 16) / PS = pages_for k sz - 1) as -> by (unfold pages_for, sizeof_page_header; lia).
  rewrite (wrapu_small 64 (pages_for k sz)) by lia.
  unfold truthy. destruct (decide (sz = 0)) as [->|Hz].
  - assert (r = 0 ∧ memory s1 = memory s) as [-> Hm] by (by destruct (granted _ _ _ _)).
    cbn [Z.eqb negb andb]. rewrite (bind_ok _ _ _ _ _ (used_memory_run _)), Hm, Z.sub_diag. change (u64 0) with 0.
    assert (pages_for k 0 = 1) as -> by (unfold pages_for, sizeof_page_header; rewrite Z.div_small by lia; done). cbn zeta.
    change (naive_free PS 0) with (ret tt : M state unit). rewrite (bind_ok _ _ _ _ _ (ret_run _ _)), (bind_ok _ _ _ _ _ (used_memory_run _)), Hm, Z.eqb_refl.
    eexists _, _. split; [done|]. split; [done|]. split; [done|]. by left.
  - rewrite (proj2 (Z.eqb_neq sz 0) Hz) in *. destruct (granted _ _ _ _) as [a|] eqn:Hg.
    + destruct Hres as [-> Hm]. unfold granted in Hg. cbn [memory calls] in Hg. destruct (placeable _ _ _ _) eqn:Hpl; [|done]. injection Hg as Hg.
      rewrite Hg in Hpl. apply placeable_true in Hpl as (Ha0&Hal&_&Hend&Hfree).
      destruct (alloc_memory_spec k k_range' a sz (memory s) ltac:(lia) Hfree) as (HB&_&Hsz).
      rewrite (proj2 (Z.eqb_neq (a + 16) 0)) by lia. cbn [negb andb].
      rewrite (bind_ok _ _ _ _ _ (used_memory_run _)), Hm, Hsz.
      assert (Z.of_nat (Z.to_nat (bytes_for k sz) + size (memory s)) / PS - Z.of_nat (size (memory s)) / PS = pages_for k sz) as ->.
      { rewrite Nat2Z.inj_add, Z2Nat.id by lia. unfold bytes_for. rewrite Z.div_add_l by lia. lia. }
      rewrite (wrapu_small 64 (pages_for k sz)) by lia. do 2 rewrite (proj2 (Z.ltb_ge _ _)) by lia. cbn zeta.
      erewrite bind_ok by (apply (naive_free_run k k_range' s1 a (pages_for k sz) (replicate (capacity k sz) 0)); unfold block;
        rewrite Hm, length_replicate; split_and!; try done; unfold capacity, bytes_for in *; lia).
      change (pages_for k sz * PS) with (bytes_for k sz). rewrite Hm, free_after_alloc by (done || lia).
      rewrite (bind_ok _ _ _ _ _ (used_memory_run _)). cbn [memory]. rewrite Z.eqb_refl.
      eexists _, _. split; [done|]. split; [done|]. split; [done|]. by left.
    + destruct Hres as [-> Hm]. eexists _, _. split; [done|]. split; [done|]. split; [done|]. by right.
Qed.

Lemma test_alloc_zero_run s : cached k s → ∃ s', test_alloc_zero PS kernel s = Ok (tt, s') ∧ cached k s' ∧ memory s' = memory s.
Proof.
  intros Hc. destruct (test_variable_malloc_run 0 s) as (r&s'&Hr&Hc'&Hm&Hres); [lia|done|]. unfold test_alloc_zero. rewrite (bind_ok _ _ _ _ _ Hr).
  destruct Hres as [->|[-> Hg]]; [by exists s'|].
  unfold test_variable_malloc in Hr. rewrite (bind_ok _ _ _ _ _ (get_page_size_run k k_range' s Hc)) in Hr.
  cbn in Hr. unfold bind, get_used_memory, gets, ret in Hr. repeat case_match; simplify_eq.
Qed.

Lemma test_alloc_small_loop_run fuel i s : cached k s → 1 ≤ i → PS - 16 - i ≤ Z.of_nat fuel →
  (∀ c, placeable PS (memory s) (kernel c (memory s) PS) PS = true) →
  ∃ s', test_alloc_small_loop PS kernel fuel i s = Ok (tt, s') ∧ cached k s' ∧ memory s' = memory s.
Proof.
  pose proof PS_32. revert i s. induction fuel as [|fuel IH]; intros i s Hc Hi Hf Hk; cbn [test_alloc_small_loop];
    rewrite (bind_ok _ _ _ _ _ (get_page_size_run k k_range' s Hc)); unfold sizeof_page_header; rewrite wrapu_small by lia.
  { rewrite (proj2 (Z.ltb_ge _ _)) by lia. eexists. split; [done|]. split; [by right|done]. }
  destruct (Z.ltb_spec i (PS - 16)) as [Hlt|Hge]; cbn [negb]; [|eexists; split; [done|]; split; [by right|done]].
  destruct (test_variable_malloc_run i (mk_state (memory s) PS (calls s))) as (r&s1&Hr&Hc1&Hm&Hres); [lia|by right|].
  rewrite (bind_ok _ _ _ _ _ Hr). destruct Hres as [->|[-> Hg]].
  - rewrite (bind_ok _ _ _ _ _ (massert_true _)). rewrite wrapu_small by lia. cbn [memory] in Hm.
    destruct (IH (i + 1) s1) as (s'&Hr'&Hc'&Hm'); [done|lia|lia|by rewrite Hm|]. exists s'. by rewrite Hr', Hm', Hm.
  - unfold granted in Hg. cbn [memory calls] in Hg.
    assert (bytes_for k i = PS) as Hb by (unfold bytes_for, pages_for, sizeof_page_header; rewrite Z.div_small by lia; lia).
    by rewrite Hb, Hk in Hg.
Qed.

Lemma test_alloc_large_loop_run fuel sz s : cached k s → 0 < sz → sz < 2 ^ 63 → two_pow_64_div_10 ≤ sz * 2 ^ Z.of_nat fuel →
  ∃ r s', test_alloc_large_loop PS kernel fuel sz s = Ok (r, s') ∧ cached k s' ∧ memory s' = memory s.
Proof.
  unfold two_pow_64_div_10. revert sz s. induction fuel as [|fuel IH]; intros sz s Hc Hs Hlt Hf; cbn [test_alloc_large_loop]; unfold two_pow_64_div_10.
  { change (2 ^ Z.of_nat 0) with 1 in Hf. rewrite (proj2 (Z.ltb_ge _ _)) by lia. by eexists _, _. }
  destruct (Z.ltb_spec sz ((2 ^ 64 - 1) / 10)) as [Hb|Hge]; cbn [negb]; [|by eexists _, _].
  change ((2 ^ 64 - 1) / 10) with 1844674407370955161 in *.
  destruct (test_variable_malloc_run sz s) as (r&s1&Hr&Hc1&Hm&Hres); [lia|done|]. rewrite (bind_ok _ _ _ _ _ Hr).
  destruct Hres as [->|[-> _]]; [|by eexists _, _]. change (truthy (Z.land TEST_SUCCESS ALLOC_FAILED)) with false. change (TEST_SUCCESS =? TEST_SUCCESS) with true. cbn match.
  rewrite (bind_ok _ _ _ _ _ (massert_true _)). unfold increment. rewrite wrapu_small by lia.
  rewrite Nat2Z.inj_succ, Z.pow_succ_r in Hf by lia.
  destruct (IH (sz * 2) s1) as (r'&s'&Hr'&Hc'&Hm'); [done|lia|lia|lia|]. exists r', s'. by rewrite Hr', Hm', Hm.
Qed.

Lemma main_run s : cached k s → (∀ c, placeable PS (memory s) (kernel c (memory s) PS) PS = true) →
  ∃ r s', main PS kernel s = Ok (r, s') ∧ memory s' = memory s.
Proof.
  pose proof PS_32. intros Hc Hk. unfold main. destruct (test_alloc_zero_run s Hc) as (s1&Hr1&Hc1&Hm1). rewrite (bind_ok _ _ _ _ _ Hr1).
  unfold test_alloc_small. destruct (test_alloc_small_loop_run (Z.to_nat PS) 1 s1) as (s2&Hr2&Hc2&Hm2); [done|lia|lia|by rewrite Hm1|].
  rewrite (bind_ok _ _ _ _ _ Hr2). unfold test_alloc_large. rewrite (bind_ok _ _ _ _ _ (get_page_size_run k k_range' s2 Hc2)).
  unfold sizeof_page_header. rewrite wrapu_small by lia.
  destruct (test_alloc_large_loop_run 64 (PS - 16) (mk_state (memory s2) PS (calls s2))) as (r&s3&Hr3&Hc3&Hm3); [by right|lia|lia| |].
  { unfold two_pow_64_div_10. change (2 ^ Z.of_nat 64) with (2 ^ 64). change ((2 ^ 64 - 1) / 10) with 1844674407370955161. lia. }
  rewrite (bind_ok _ _ _ _ _ Hr3). eexists _, _. split; [done|]. by rewrite Hm3, Hm2, Hm1.
Qed.
End tests.

(** ** Properties *)

(** C14: the allocator refines its specification: however the kernel places or refuses
    pages, a client that keeps to the rules (it may choose its operations by the
    answers) is never answered with a fault, and what it sees is what the
    specification allows: fresh blocks that hold what was asked for, are zeroed, and
    keep what was stored in them until they are freed.  The blocks lie apart from each
    other and from what was mapped before; nothing else is mapped, so that when all
    blocks are freed the memory is what it was. *)
Theorem naive_refines k kernel c n s : 1 ≤ k < 63 → legal c → page_size s = 0 →
  ∃ t s' bl, run (2 ^ k) kernel c n [] s = Ok (t, s') ∧ history t bl ∧ rep k (memory s) bl s' ∧
    (bl = ∅ → memory s' = memory s).
Proof.
  intros Hk Hc Hs. destruct (run_refines k Hk kernel (memory s) c n [] ∅ s Hc history_nil) as (t&s'&bl&Hr&Ht&HR).
  { split; [by left|intros p l Hp|intros p l q l' x Hp|intros p l x Hp|done]; by rewrite lookup_empty in Hp. }
  exists t, s', bl. split_and!; [done..|]. intros ->. apply map_eq. intros x. apply (rep_rest _ _ _ _ HR). intros p l. by rewrite lookup_empty.
Qed.

(** The header is added to the size without a check: a request within 16 bytes of
    [2^64] is answered like a request for one byte. *)
Theorem naive_malloc_overflow k kernel sz s : 5 ≤ k < 63 → 2 ^ 64 - 16 ≤ sz < 2 ^ 64 → cached k s →
  naive_malloc (2 ^ k) kernel sz s = naive_malloc (2 ^ k) kernel 1 s.
Proof.
  intros Hk Hs Hc. pose proof (PS_32 k Hk). unfold naive_malloc, naive_malloc_internal.
  rewrite (proj2 (Z.eqb_neq sz 0)) by lia. change (1 =? 0) with false. cbn match. unfold sizeof_page_header.
  rewrite !bind_assoc. do 2 rewrite (bind_ok _ _ s _ _ (get_page_size_run k ltac:(lia) s Hc)).
  assert (u64 (sz + 16) / 2 ^ k = u64 (1 + 16) / 2 ^ k) as ->; [|done].
  assert (u64 (sz + 16) = sz + 16 - 2 ^ 64) as -> by (symmetry; apply (Z.mod_unique _ _ 1); lia).
  rewrite (wrapu_small 64 (1 + 16)) by lia. rewrite !Z.div_small by lia. done.
Qed.

(** The tests of alloc.c pass, on every machine and whatever the kernel does with
    large requests, as long as it gives single pages; they end and leave the memory as
    it was. *)
Theorem naive_tests_pass k kernel s : 5 ≤ k < 63 → cached k s →
  (∀ c, placeable (2 ^ k) (memory s) (kernel c (memory s) (2 ^ k)) (2 ^ k) = true) →
  ∃ r s', main (2 ^ k) kernel s = Ok (r, s') ∧ memory s' = memory s.
Proof. intros Hk. by apply main_run. Qed.

(** ** Concrete clients and kernels *)

Definition fresh_pages (c : nat) (_ : gmap Z Z) (_ : Z) : Z := 32 * (1 + 4 * Z.of_nat c).
Definition one_page (_ : nat) (_ : gmap Z Z) (len : Z) : Z := if len <=? 1000 then 32 else -1.

(** A client that allocates, stores, loads and frees. *)
Definition demo : client := λ t,
  match t with
  | [] => Some (Malloc 20)
  | (Malloc n, p) :: _ => if (p =? 0) || negb (n =? 20) then None else Some (Store p 3 7)
  | (Store p i _, _) :: _ => Some (Load p i)
  | (Load p _, _) :: _ => Some (Free p)
  | (Free _, _) :: _ => None
  end.

Lemma demo_legal : legal demo.
Proof.
  intros t bl o Ht Ho. destruct Ht as [|t0 bl0 o0 r0 bl1 Ht0 Hs0]; [by injection Ho as <-|].
  destruct Hs0; cbn [demo] in Ho; [done| |done|done| |].
  - destruct (_ || _) eqn:E; [done|]. bool_to_prop. injection Ho as <-. cbn [allowed]. eexists. rewrite lookup_insert_eq. split; [done|].
    rewrite length_replicate. lia.
  - injection Ho as <-. right. by eexists.
  - injection Ho as <-. eexists. rewrite lookup_insert_eq. split; [done|]. by rewrite length_insert.
Qed.

Definition empty_state : state := mk_state ∅ 0 0.

Lemma naive_refines_witness : legal demo ∧
  ∃ t s' bl, run (2 ^ 5) fresh_pages demo 4 [] empty_state = Ok (t, s') ∧ history t bl ∧ rep 5 ∅ bl s' ∧ (bl = ∅ → memory s' = ∅).
Proof. split; [exact demo_legal|]. exact (naive_refines 5 fresh_pages demo 4 empty_state ltac:(lia) demo_legal eq_refl). Defined.

(** What the client sees. *)
Example demo_run : ∃ s', run (2 ^ 5) fresh_pages demo 4 [] empty_state =
  Ok ([(Free 48, 0); (Load 48 3, 7); (Store 48 3 7, 0); (Malloc 20, 48)], s') ∧ memory s' = ∅.
Proof. eexists. split; [vm_compute; reflexivity|]. by vm_compute. Qed.

Lemma naive_malloc_overflow_witness :
  naive_malloc (2 ^ 12) one_page (2 ^ 64 - 5) empty_state = naive_malloc (2 ^ 12) one_page 1 empty_state.
Proof. apply (naive_malloc_overflow 12); [lia|lia|by left]. Defined.

Lemma naive_tests_pass_witness : ∃ r s', main (2 ^ 5) one_page empty_state = Ok (r, s') ∧ memory s' = ∅.
Proof. apply (naive_tests_pass 5 one_page empty_state); [lia|by left|]. intros c. by vm_compute. Defined.
