(* ===== verification/Defer.v ===== *)
(** * The deferred statements of cdefer/defer.h, and defer.c

    The macros [Defer] and [Return] use the address of a label as a value and jump to
    such addresses; a function that uses them is modelled as the flow graph that they
    expand to, a list of instructions whose places are the labels.  The specification
    is a semantics of the source, in which [Return] runs what was deferred, the last
    first. *)
From S2P Require Import Prelude.
From stdpp Require Import list relations strings.
#[local] Open Scope nat_scope.

(** ** Source *)

Section defer.
(** What the function computes on, its variables and output. *)
Context {St : Type}.

(** The statements of a function.  [Return f] is [Return e;], where the evaluation of
    [e] does [f]; the branches of [If] and [While] are in braces, those of [IfReturn]
    are not. *)
Inductive stmt :=
| Skip
| Seq (s1 s2 : stmt)
| Act (f : St → St)
| Defer (f : St → St)
| Return (f : St → St)
| If (c : St → bool) (s : stmt)
| While (c : St → bool) (s : stmt)
| IfReturn (c : St → bool) (f : St → St).

(** ** Expansion *)

(** [Push l]: [__deferrals[__deferral_num++] = &&l].  [PopGoto]: [if (__deferral_num)
    goto *__deferrals[--__deferral_num];].  [GotoReturn]: [goto *__defer_return_label].
    [ReturnPop l]: the [if] statement of [__Return], with [l] for [__defer_fini_n]. *)
Inductive instr :=
| Do (f : St → St)
| Push (l : nat)
| Jump (l : nat)
| JumpUnless (c : St → bool) (l : nat)
| PopGoto
| GotoReturn
| ReturnPop (l : nat)
| Ret (f : St → St).

(** The first instruction is not executed when the macro is reached, but is where the
    pushed label is, three instructions before the place behind the macro. *)
Definition __Defer (b : nat) (f : St → St) : list instr :=
  [Push (b + 2); Jump (b + 5); Do f; PopGoto; GotoReturn].

Definition __Return (b : nat) (f : St → St) : list instr :=
  [ReturnPop (b + 1); Ret f].

Fixpoint expand (b : nat) (s : stmt) : list instr :=
  match s with
  | Skip => []
  | Seq s1 s2 => let c1 := expand b s1 in c1 ++ expand (b + length c1) s2
  | Act f => [Do f]
  | Defer f => __Defer b f
  | Return f => __Return b f
  | If c s => let cs := expand (b + 1) s in JumpUnless c (b + 1 + length cs) :: cs
  | While c s => let cs := expand (b + 1) s in JumpUnless c (b + 2 + length cs) :: cs ++ [Jump b]
  | IfReturn c f =>
      (* only the first statement of [__Return] belongs to the branch *)
      JumpUnless c (b + 2) :: __Return (b + 1) f
  end.

(** ** Execution *)

Definition MAX_DEFERRED_STATEMENTS : nat := 32.

(** NULL is [None]. *)
Record machine := mk_machine {
  store : St;
  pc : nat;
  deferral_num : nat;
  deferrals : list (option nat);
  defer_return_label : option nat;
}.

Definition DEFER_INIT (st : St) : machine := mk_machine st 0 0 (replicate MAX_DEFERRED_STATEMENTS None) None.

(** The end of the function is reached, or a [return]. *)
Inductive outcome :=
| Running (m : machine)
| Ended (st : St)
| Returned (st : St).

Definition goto (l : option nat) (m : machine) : result outcome :=
  match l with
  | Some l => Ok (Running (mk_machine (store m) l (deferral_num m) (deferrals m) (defer_return_label m)))
  | None => Err Undefined
  end.

(** [goto *__deferrals[--__deferral_num]] *)
Definition pop_goto (m : machine) : result outcome :=
  let n := deferral_num m - 1 in
  match deferrals m !! n with
  | Some l => goto l (mk_machine (store m) (pc m) n (deferrals m) (defer_return_label m))
  | None => Err Undefined
  end.

Definition next (m : machine) : machine := mk_machine (store m) (S (pc m)) (deferral_num m) (deferrals m) (defer_return_label m).

Definition step (code : list instr) (m : machine) : result outcome :=
  match code !! pc m with
  | None => Ok (Ended (store m))
  | Some (Do f) => Ok (Running (next (mk_machine (f (store m)) (pc m) (deferral_num m) (deferrals m) (defer_return_label m))))
  | Some (Push l) =>
      if decide (deferral_num m < length (deferrals m))
      then Ok (Running (next (mk_machine (store m) (pc m) (S (deferral_num m)) (<[deferral_num m := Some l]> (deferrals m)) (defer_return_label m))))
      else Err Undefined
  | Some (Jump l) => goto (Some l) m
  | Some (JumpUnless c l) => if c (store m) then Ok (Running (next m)) else goto (Some l) m
  | Some PopGoto => if decide (deferral_num m = 0) then Ok (Running (next m)) else pop_goto m
  | Some GotoReturn => goto (defer_return_label m) m
  | Some (ReturnPop l) =>
      if decide (deferral_num m = 0) then Ok (Running (next m))
      else pop_goto (mk_machine (store m) (pc m) (deferral_num m) (deferrals m) (Some l))
  | Some (Ret f) => Ok (Returned (f (store m)))
  end.

(** The state at the end, and whether it was a [return]. *)
Fixpoint exec (fuel : nat) (code : list instr) (m : machine) : result (bool * St) :=
  match fuel with
  | O => Err Exhausted
  | S fuel =>
      match step code m with
      | Ok (Running m) => exec fuel code m
      | Ok (Ended st) => Ok (false, st)
      | Ok (Returned st) => Ok (true, st)
      | Err e => Err e
      end
  end.

Definition call (fuel : nat) (body : stmt) (st : St) : result (bool * St) := exec fuel (expand 0 body) (DEFER_INIT st).

(** ** Specification *)

(** What a statement leads to: the next one, with what has been deferred, the last
    first; a return; or too many deferred statements. *)
Inductive flow :=
| Next (st : St) (ds : list (St → St))
| Returns (st : St)
| TooMany.

Definition run_deferred (ds : list (St → St)) (st : St) : St := foldl (λ st f, f st) st ds.

(** [None] when the fuel does not suffice for the loops. *)
Fixpoint sem (fuel : nat) (s : stmt) (st : St) (ds : list (St → St)) : option flow :=
  match fuel with
  | O => None
  | S fuel =>
      match s with
      | Skip => Some (Next st ds)
      | Seq s1 s2 =>
          match sem fuel s1 st ds with
          | Some (Next st ds) => sem fuel s2 st ds
          | r => r
          end
      | Act f => Some (Next (f st) ds)
      | Defer f => Some (if decide (length ds < MAX_DEFERRED_STATEMENTS) then Next st (f :: ds) else TooMany)
      | Return f => Some (Returns (f (run_deferred ds st)))
      | If c s => if c st then sem fuel s st ds else Some (Next st ds)
      | While c s =>
          if c st then
            match sem fuel s st ds with
            | Some (Next st ds) => sem fuel (While c s) st ds
            | r => r
            end
          else Some (Next st ds)
      | IfReturn c f => Some (if c st then Returns (f (run_deferred ds st)) else Returns (f st))
      end
  end.

(** What the execution gives for it. *)
Definition answer (o : flow) : result (bool * St) :=
  match o with
  | Next st _ => Ok (false, st)
  | Returns st => Ok (true, st)
  | TooMany => Err Undefined
  end.
End defer.
Arguments stmt : clear implicits.
Arguments instr : clear implicits.
Arguments machine : clear implicits.
Arguments outcome : clear implicits.

(** ** Simulation *)

Section simulation.
Context {St : Type}.
Implicit Types (code cs : list (instr St)) (m : machine St) (ds : list (St → St)).

(** The instructions [cs] lie in [code] at [b]. *)
Definition code_at code (b : nat) cs : Prop := ∃ c1 c3, code = c1 ++ cs ++ c3 ∧ length c1 = b.

Lemma code_at_lookup code b cs i x : code_at code b cs → cs !! i = Some x → code !! (b + i) = Some x.
Proof.
  intros (c1&c3&->&<-) Hi. rewrite lookup_app_r by lia. replace (length c1 + i - length c1) with i by lia. by apply lookup_app_l_Some.
Qed.

Lemma code_at_app code b cs cs' : code_at code b (cs ++ cs') → code_at code b cs ∧ code_at code (b + length cs) cs'.
Proof.
  intros (c1&c3&->&<-). split.
  - exists c1, (cs' ++ c3). by rewrite <- !app_assoc.
  - exists (c1 ++ cs), c3. by rewrite length_app, <- !app_assoc.
Qed.

Lemma code_at_cons code b x cs : code_at code b (x :: cs) → code !! b = Some x ∧ code_at code (b + 1) cs.
Proof.
  intros H. split; [rewrite <- (Nat.add_0_r b); by eapply code_at_lookup|].
  by apply (code_at_app _ _ [x] cs) in H as [_ H].
Qed.

Definition one_step code m m' : Prop := step code m = Ok (Running m').
Definition steps code := rtc (one_step code).

(** What a label of a deferred statement [f] stands for. *)
Definition deferred_at code (l : nat) (f : St → St) : Prop :=
  code !! l = Some (Do f) ∧ code !! (l + 1) = Some PopGoto ∧ code !! (l + 2) = Some GotoReturn.

(** The array holds the labels of [ds], the last one on top. *)
Record holds code m ds : Prop := {
  holds_num : deferral_num m = length ds;
  holds_length : length (deferrals m) = MAX_DEFERRED_STATEMENTS;
  holds_labels i f : reverse ds !! i = Some f → ∃ l, deferrals m !! i = Some (Some l) ∧ deferred_at code l f;
}.

Lemma holds_room code m ds : holds code m ds → length ds ≤ MAX_DEFERRED_STATEMENTS.
Proof.
  intros [Hn Hl Hf]. destruct ds as [|f ds]; [cbn; lia|]. destruct (Hf (length ds) f) as (l&H&_); [|apply lookup_lt_Some in H; cbn; lia].
  rewrite reverse_cons, lookup_app_r by (rewrite length_reverse; lia). by rewrite length_reverse, Nat.sub_diag.
Qed.

Lemma holds_same code m m' ds : deferral_num m' = deferral_num m → deferrals m' = deferrals m → holds code m ds → holds code m' ds.
Proof. intros Hn Hd [H1 H2 H3]. split; rewrite ?Hn, ?Hd; done. Qed.

Lemma holds_push code m ds f l : holds code m ds → length ds < MAX_DEFERRED_STATEMENTS → deferred_at code l f →
  holds code (mk_machine (store m) (pc m) (S (deferral_num m)) (<[deferral_num m := Some l]> (deferrals m)) (defer_return_label m)) (f :: ds).
Proof.
  intros [Hn Hl Hf] Hlt Hd. split; cbn [deferral_num deferrals]; [by rewrite Hn|by rewrite length_insert|].
  intros i g. rewrite reverse_cons. destruct (decide (i = length ds)) as [->|Hi].
  - rewrite lookup_app_r by (rewrite length_reverse; lia). rewrite length_reverse, Nat.sub_diag. intros [= <-].
    exists l. split; [|done]. rewrite Hn. apply list_lookup_insert_eq. lia.
  - intros Hg. assert (i < length ds).
    { apply lookup_lt_Some in Hg. rewrite length_app, length_reverse in Hg. cbn in Hg. lia. }
    rewrite lookup_app_l in Hg by (rewrite length_reverse; lia). rewrite Hn, list_lookup_insert_ne by lia. by apply Hf.
Qed.

(** Taking the last label from the array. *)
Lemma pop_goto_run code m ds f : holds code m (f :: ds) →
  ∃ l, pop_goto m = Ok (Running (mk_machine (store m) l (length ds) (deferrals m) (defer_return_label m))) ∧ deferred_at code l f.
Proof.
  intros [Hn Hl Hf]. destruct (Hf (length ds) f) as (l&H&Hd).
  { rewrite reverse_cons, lookup_app_r by (rewrite length_reverse; lia). by rewrite length_reverse, Nat.sub_diag. }
  exists l. split; [|done]. unfold pop_goto. rewrite Hn. cbn [length]. rewrite Nat.sub_1_r. cbn. by rewrite H.
Qed.

Lemma holds_pop code m ds f st l b : holds code m (f :: ds) →
  holds code (mk_machine st l (length ds) (deferrals m) b) ds.
Proof.
  intros [Hn Hl Hf]. split; cbn; [done|done|]. intros i g Hg. apply Hf. rewrite reverse_cons. by apply lookup_app_l_Some.
Qed.

(** From the start of a deferred statement to the place behind the [return]. *)
Lemma deferred_steps code ds f m l : holds code m ds → deferred_at code (pc m) f → defer_return_label m = Some l →
  ∃ m', steps code m m' ∧ pc m' = l ∧ deferral_num m' = 0 ∧ store m' = run_deferred ds (f (store m)).
Proof.
  revert f m. induction ds as [|g ds IH]; intros f m HH (Hf&Hp&Hg) Hr; rewrite Nat.add_1_r in Hp; pose proof (holds_num _ _ _ HH) as Hn.
  - exists (mk_machine (f (store m)) l 0 (deferrals m) (Some l)). split; [|done].
    eapply rtc_l; [unfold one_step, step; by rewrite Hf|]. eapply rtc_l; [unfold one_step, step; cbn [next pc deferral_num]; by rewrite Hp, Hn|].
    apply rtc_once. unfold one_step, step. cbn [next pc defer_return_label]. replace (S (S (pc m))) with (pc m + 2) by lia.
    by rewrite Hg, Hr.
  - set (m1 := next (mk_machine (f (store m)) (pc m) (deferral_num m) (deferrals m) (defer_return_label m))).
    assert (holds code m1 (g :: ds)) as H1 by (by apply (holds_same _ m)). destruct (pop_goto_run _ _ _ _ H1) as (lg&Hpop&Hd).
    destruct (IH g (mk_machine (store m1) lg (length ds) (deferrals m1) (defer_return_label m1))) as (m'&Hs&Hpc&Hn'&Hst).
    + by eapply holds_pop.
    + done.
    + done.
    + exists m'. split; [|by rewrite Hst]. eapply rtc_l; [unfold one_step, step; by rewrite Hf|]. fold m1.
      eapply rtc_l; [|exact Hs]. unfold one_step, step. change (pc m1) with (S (pc m)). rewrite Hp.
      rewrite decide_False by (change (deferral_num m1) with (deferral_num m); rewrite Hn; done). exact Hpop.
Qed.

(** [Return] runs what was deferred. *)
Lemma return_steps code b f m ds : code_at code b (__Return b f) → holds code m ds → pc m = b →
  ∃ m', steps code m m' ∧ step code m' = Ok (Returned (f (run_deferred ds (store m)))).
Proof.
  intros [Hc1 Hc2]%code_at_cons HH Hpc. apply code_at_cons in Hc2 as [Hc2 _]. pose proof (holds_num _ _ _ HH) as Hn.
  destruct ds as [|g ds].
  - exists (next m). split; [|unfold step; cbn [next pc store]; by rewrite Hpc, <- Nat.add_1_r, Hc2].
    apply rtc_once. unfold one_step, step. by rewrite Hpc, Hc1, Hn.
  - set (m1 := mk_machine (store m) (pc m) (deferral_num m) (deferrals m) (Some (b + 1))).
    assert (holds code m1 (g :: ds)) as H1 by (by apply (holds_same _ m)). destruct (pop_goto_run _ _ _ _ H1) as (lg&Hpop&Hd).
    destruct (deferred_steps code ds g (mk_machine (store m1) lg (length ds) (deferrals m1) (defer_return_label m1)) (b + 1)) as (m'&Hs&Hpc'&Hn'&Hst).
    + by eapply holds_pop.
    + done.
    + done.
    + exists m'. split; [|unfold step; by rewrite Hpc', Hc2, Hst]. eapply rtc_l; [|exact Hs]. unfold one_step, step.
      rewrite Hpc, Hc1, decide_False by (rewrite Hn; done). unfold m1 in Hpop. rewrite Hpc in Hpop. exact Hpop.
Qed.

(** Where a statement leads the machine. *)
Definition leads code (e : nat) m (o : @flow St) : Prop :=
  match o with
  | Next st ds => ∃ m', steps code m m' ∧ store m' = st ∧ pc m' = e ∧ holds code m' ds
  | Returns st => ∃ m', steps code m m' ∧ step code m' = Ok (Returned st)
  | TooMany => ∃ m', steps code m m' ∧ step code m' = Err Undefined
  end.

Lemma leads_steps code e m m' o : steps code m m' → leads code e m' o → leads code e m o.
Proof. intros Hs. destruct o; intros (m2&Hs'&H); exists m2; (split; [by etrans|done]). Qed.

Lemma defer_steps code b f m ds : code_at code b (__Defer b f) → holds code m ds → pc m = b →
  leads code (b + 5) m (if decide (length ds < MAX_DEFERRED_STATEMENTS) then Next (store m) (f :: ds) else TooMany).
Proof.
  intros Hc HH Hpc. pose proof (holds_num _ _ _ HH) as Hn. pose proof (holds_length _ _ _ HH) as Hl.
  assert (code !! b = Some (Push (b + 2))) as H0 by (rewrite <- (Nat.add_0_r b) at 1; by eapply code_at_lookup).
  assert (code !! (b + 1) = Some (Jump (b + 5))) as H1 by (by eapply code_at_lookup).
  assert (deferred_at code (b + 2) f) as Hd.
  { split; [by eapply code_at_lookup|]. rewrite <- !Nat.add_assoc. split; by eapply code_at_lookup. }
  destruct (decide _) as [Hlt|Hge].
  - exists (mk_machine (store m) (b + 5) (S (deferral_num m)) (<[deferral_num m := Some (b + 2)]> (deferrals m)) (defer_return_label m)).
    split_and!; [|done|done|by refine (holds_same _ _ _ _ _ _ (holds_push code m ds f (b + 2) HH Hlt Hd))].
    eapply rtc_l; [unfold one_step, step; rewrite Hpc, H0, decide_True by (rewrite Hl, Hn; done); reflexivity|].
    apply rtc_once. unfold one_step, step. cbn [next pc]. by rewrite <- Nat.add_1_r, H1.
  - exists m. split; [done|]. unfold step. by rewrite Hpc, H0, decide_False by (rewrite Hl, Hn; done).
Qed.

Lemma jump_unless_steps code b c l m ds : code !! b = Some (JumpUnless c l) → pc m = b → holds code m ds →
  ∃ m', steps code m m' ∧ store m' = store m ∧ pc m' = (if c (store m) then b + 1 else l) ∧ holds code m' ds.
Proof.
  intros Hc Hpc HH. destruct (c (store m)) eqn:E.
  - exists (next m). split_and!; [|done|cbn; lia|by apply (holds_same _ m)]. apply rtc_once. unfold one_step, step. by rewrite Hpc, Hc, E.
  - exists (mk_machine (store m) l (deferral_num m) (deferrals m) (defer_return_label m)).
    split_and!; [|done|done|by apply (holds_same _ m)]. apply rtc_once. unfold one_step, step. by rewrite Hpc, Hc, E.
Qed.

Lemma expand_leads fuel code b s m ds o : code_at code b (expand b s) → pc m = b → holds code m ds →
  sem fuel s (store m) ds = Some o → leads code (b + length (expand b s)) m o.
Proof.
  revert b s m ds o. induction fuel as [|fuel IH]; intros b s m ds o Hc Hpc HH Ho; [done|]. destruct s as [|s1 s2|f|f|f|c s|c s|c f]; cbn [sem expand] in *.
  - injection Ho as <-. exists m. by rewrite Nat.add_0_r.
  - apply code_at_app in Hc as [Hc1 Hc2]. rewrite length_app, Nat.add_assoc.
    destruct (sem fuel s1 (store m) ds) as [[st ds'|st|]|] eqn:H1; try done; pose proof (IH _ _ _ _ _ Hc1 Hpc HH H1) as HL; [|by simplify_eq..].
    destruct HL as (m'&Hs&Hst&Hpc'&HH'). apply (leads_steps _ _ _ _ _ Hs). eapply IH; [done..|]. by rewrite Hst.
  - injection Ho as <-. apply code_at_cons in Hc as [Hc _]. exists (next (mk_machine (f (store m)) (pc m) (deferral_num m) (deferrals m) (defer_return_label m))).
    split_and!; [|done|cbn; lia|by apply (holds_same _ m)]. apply rtc_once. unfold one_step, step. by rewrite Hpc, Hc.
  - injection Ho as <-. by apply defer_steps.
  - injection Ho as <-. by apply (return_steps code b).
  - apply code_at_cons in Hc as [Hc1 Hc2]. destruct (jump_unless_steps _ _ _ _ _ _ Hc1 Hpc HH) as (m1&Hs&Hst&Hpc1&HH1).
    apply (leads_steps _ _ _ _ _ Hs). cbn [length]. rewrite <- Nat.add_1_l, Nat.add_assoc. destruct (c (store m)).
    + rewrite <- Hst in Ho. by eapply IH.
    + injection Ho as <-. by exists m1.
  - pose proof Hc as Hwhile. apply code_at_cons in Hc as [Hc1 Hc2]. apply code_at_app in Hc2 as [Hc2 Hc3].
    destruct (jump_unless_steps _ _ _ _ _ _ Hc1 Hpc HH) as (m1&Hs&Hst&Hpc1&HH1). apply (leads_steps _ _ _ _ _ Hs).
    cbn [length]. rewrite length_app. cbn [length]. set (e := b + S (length (expand (b + 1) s) + 1)).
    destruct (c (store m)) eqn:Hcs; [|injection Ho as <-; exists m1; split_and!; [done|done|unfold e; lia|done]].
    rewrite <- Hst in Ho. destruct (sem fuel s (store m1) ds) as [[st ds'|st|]|] eqn:H1; try done;
      pose proof (IH _ _ _ _ _ Hc2 Hpc1 HH1 H1) as HL; [|by simplify_eq..].
    destruct HL as (m2&Hs2&Hst2&Hpc2&HH2). apply (leads_steps _ _ _ _ _ Hs2). apply code_at_cons in Hc3 as [Hc3 _].
    set (m3 := mk_machine (store m2) b (deferral_num m2) (deferrals m2) (defer_return_label m2)).
    apply (leads_steps _ _ _ m3); [apply rtc_once; unfold one_step, step; by rewrite Hpc2, Hc3|].
    replace e with (b + length (expand b (While c s))) by (unfold e; cbn [expand length]; rewrite length_app; cbn; lia).
    eapply (IH b (While c s) m3 ds'); [done|done|by apply (holds_same _ m2)|]. cbn [m3 store]. by rewrite Hst2.
  - apply code_at_cons in Hc as [Hc1 Hc2]. destruct (jump_unless_steps _ _ _ _ _ _ Hc1 Hpc HH) as (m1&Hs&Hst&Hpc1&HH1).
    apply (leads_steps _ _ _ _ _ Hs). destruct (c (store m)); injection Ho as <-; rewrite <- Hst.
    + by apply (return_steps code (b + 1)).
    + apply code_at_cons in Hc2 as [_ Hc2]. apply code_at_cons in Hc2 as [Hc2 _]. exists m1. split; [done|].
      unfold step. rewrite Hpc1. replace (b + 2) with (b + 1 + 1) by lia. by rewrite Hc2.
Qed.

(** Enough fuel for a run. *)
Lemma exec_steps code m m' : steps code m m' → ∃ n, ∀ fuel, exec (n + fuel) code m = exec fuel code m'.
Proof.
  induction 1 as [m|m1 m2 m3 H1 _ [n IH]]; [by exists 0|]. exists (S n). intros fuel. cbn. unfold one_step in H1. by rewrite H1.
Qed.

Lemma exec_leads code m o : leads code (length code) m o → ∃ n, ∀ k, exec (n + k) code m = answer o.
Proof.
  destruct o as [st ds|st|]; cbn [leads]; intros (m'&Hs&H); destruct (exec_steps _ _ _ Hs) as [n Hn]; exists (n + 1);
    intros k; rewrite <- Nat.add_assoc, Hn; cbn; [|by rewrite H..].
  destruct H as (Hst&Hpc&_). unfold step. by rewrite lookup_ge_None_2, Hst by lia.
Qed.
End simulation.

(** ** The functions of defer.c *)

(** test2 has no variables: the state is its output. *)
Definition puts (s : string) (out : list string) : list string := out ++ [s].
Definition test2 : stmt (list string) :=
  Seq (Act (puts "0")) (Seq (Defer (puts "3")) (Seq (Defer (puts "2")) (Seq (Act (puts "1")) (Return (puts "4"))))).

(** test1 has the string that [x] points to, until it is freed. *)
Record test1_state := mk_test1 { x : option string; output : list string }.
Definition test1_malloc (st : test1_state) : test1_state := mk_test1 (Some "") (output st).
Definition test1_strcpy (st : test1_state) : test1_state := mk_test1 (Some "Hello world") (output st).
Definition test1_free (st : test1_state) : test1_state := mk_test1 None (output st).
Definition test1_print (st : test1_state) : test1_state :=
  match x st with
  | Some s => mk_test1 (Some (String.substring 0 5 s)) (output st ++ ["x   : " +:+ s; "now : " +:+ String.substring 0 5 s])
  | None => st
  end.
Definition test1 : stmt test1_state :=
  Seq (Act test1_malloc) (Seq (Defer test1_free) (Seq (Defer test1_print) (Seq (Act test1_strcpy) (Return id)))).

Example test1_run : call 20 test1 (mk_test1 None []) = Ok (true, mk_test1 None ["x   : Hello world"; "now : Hello"]).
Proof. reflexivity. Qed.
Example test2_run : call 20 test2 [] = Ok (true, ["0"; "1"; "2"; "3"; "4"]).
Proof. reflexivity. Qed.

(** ** Properties *)

(** C17: the jumps that [Defer] and [Return] expand to do what the macros are for: the
    execution of a function ends in the state of the specification, in which [Return]
    runs what has been deferred, the last first, before it evaluates its expression;
    the 33rd statement that is deferred at the same time is stored outside of the
    array. *)
Theorem defer_refines {St} fuel (body : stmt St) st o : sem fuel body st [] = Some o →
  ∃ n, ∀ k, call (n + k) body st = answer o.
Proof.
  intros Ho. apply exec_leads. change (length (expand 0 body)) with (0 + length (expand 0 body)). eapply expand_leads; [|done| |exact Ho].
  - exists [], []. by rewrite app_nil_r.
  - split; [done|done|]. intros i f H. by destruct i.
Qed.

(** [Return] expands to two statements: as the branch of an [if] without braces,
    its [return] is executed when the condition is false too, and what was deferred is
    not. *)
Theorem unbraced_return {St} (d : St → St) c f rest st k : c st = false →
  call (4 + k) (Seq (Defer d) (Seq (IfReturn c f) rest)) st = Ok (true, f st).
Proof. intros Hc. unfold call, exec, step. cbn. rewrite decide_True by lia. cbn. by rewrite Hc. Qed.

Lemma defer_refines_witness : sem 10 test2 [] [] = Some (Returns ["0"; "1"; "2"; "3"; "4"]) ∧
  ∃ n, ∀ k, call (n + k) test2 [] = Ok (true, ["0"; "1"; "2"; "3"; "4"]).
Proof. split; [reflexivity|]. exact (defer_refines 10 test2 [] (Returns ["0"; "1"; "2"; "3"; "4"]) eq_refl). Defined.

(** 33 statements deferred by a loop. *)
Definition many : stmt nat := While (λ n, n <? 33) (Seq (Defer id) (Act S)).
Example many_run : sem 50 many 0 [] = Some TooMany.
Proof. reflexivity. Qed.

Lemma unbraced_return_witness :
  call 4 (Seq (Defer (puts "deferred")) (Seq (IfReturn (λ _, false) (puts "returned")) (Act (puts "rest")))) [] = Ok (true, ["returned"]).
Proof. exact (unbraced_return (puts "deferred") (λ _, false) (puts "returned") (Act (puts "rest")) [] 0 eq_refl). Defined.
