(* ===== verification/MutexPerf.v ===== *)
(** * The lock benchmark of mutex-perf/mutexperf.c

    Four threads move hand over hand along a ring of five mutexes, after a barrier of
    a condition variable and a mutex per thread.  The model is [contention] and its
    threads as a transition system: a step is one call of pthread, or the code between
    two of them; any thread may take the next step, and the wait for the condition may
    end without a signal. *)
From S2P Require Import Prelude.
From stdpp Require Import list fin_maps.
#[local] Open Scope Z_scope.

(** ** State *)

Definition CONTENTION_THREAD_COUNT : nat := 4.
Definition CONTENTION_MUTEX_COUNT : nat := 5.

(** [info.mutexes[i]], [info.ready_mutex] and [thread_infos[i].start_mutex]. *)
Inductive mutex := Ring (i : nat) | Ready | Start (i : nat).
Inductive thread := Main | Worker (t : nat).
#[export] Instance mutex_eq_dec : EqDecision mutex.
Proof. solve_decision. Defined.
#[export] Instance thread_eq_dec : EqDecision thread.
Proof. solve_decision. Defined.

(** Where [contention_thread] is. *)
Inductive worker_pc :=
| NotCreated | LockFirst | LockReady | CountReady | UnlockReady | LockStart | UnlockStart
| TakeStart | LoopTest | LockNext | UnlockPrev | TakeStop | UnlockLast | Finished.
#[export] Instance worker_pc_eq_dec : EqDecision worker_pc.
Proof. solve_decision. Defined.

Record worker := mk_worker { pc : worker_pc; i : nat; j : Z; start : Z; stop : Z }.

(** Where [contention] is. *)
Inductive main_pc :=
| Create (k : nat) | MLockReady | TestCount | Waiting | Relock | MUnlockReady | Release (k : nat) | Join (k : nat)
| Destroy | Compute | Ended.

(** [owners m]: who holds [m]. *)
Record state := mk_state {
  owners : mutex → option thread;
  ready_count : Z;
  workers : nat → worker;
  main : main_pc;
  res_start : Z;
  res_stop : Z;
}.

(** The function [f] with another value at [a]. *)
Definition update {A B} `{EqDecision A} (a : A) (b : B) (f : A → B) : A → B := λ x, if decide (x = a) then b else f x.

Definition set_owner m o s := mk_state (update m o (owners s)) (ready_count s) (workers s) (main s) (res_start s) (res_stop s).
Definition set_ready_count n s := mk_state (owners s) n (workers s) (main s) (res_start s) (res_stop s).
Definition set_worker t w s := mk_state (owners s) (ready_count s) (update t w (workers s)) (main s) (res_start s) (res_stop s).
Definition set_main p s := mk_state (owners s) (ready_count s) (workers s) p (res_start s) (res_stop s).
Definition set_res a b s := mk_state (owners s) (ready_count s) (workers s) (main s) a b.

Definition goto (p : worker_pc) (w : worker) : worker := mk_worker p (i w) (j w) (start w) (stop w).

(** ** Steps *)

(** [pthread_mutex_lock] waits while the mutex is locked; unlocking one that another
    thread holds, or destroying a locked one, is undefined. *)
Definition lock (m : mutex) (th : thread) (s : state) : result state :=
  match owners s m with
  | None => Ok (set_owner m (Some th) s)
  | Some _ => Err Blocked
  end.
Definition unlock (m : mutex) (th : thread) (s : state) : result state :=
  if decide (owners s m = Some th) then Ok (set_owner m None s) else Err Undefined.
Definition destroy (m : mutex) (s : state) : result state :=
  if decide (owners s m = None) then Ok s else Err Undefined.

Section steps.
(** [res->reps] *)
Context (reps : Z).

Definition thread_reps : Z := Z.quot reps (Z.of_nat CONTENTION_THREAD_COUNT).
Definition next (i : nat) : nat := (i + 1) mod CONTENTION_MUTEX_COUNT.

(** [pthread_cond_signal(&info->ready_cond)] *)
Definition signal (s : state) : state :=
  match main s with Waiting => set_main Relock s | _ => s end.

Definition worker_step (t : nat) (now : Z) (s : state) : result state :=
  let w := workers s t in
  let to p s := Ok (set_worker t (goto p w) s) in
  match pc w with
  | NotCreated | Finished => Err Blocked
  | LockFirst => rbind (lock (Ring (i w)) (Worker t) s) (to LockReady)
  | LockReady => rbind (lock Ready (Worker t) s) (to CountReady)
  | CountReady =>
      let n := ready_count s + 1 in
      let s := set_ready_count n s in
      to UnlockReady (if n =? Z.of_nat CONTENTION_THREAD_COUNT then signal s else s)
  | UnlockReady => rbind (unlock Ready (Worker t) s) (to LockStart)
  | LockStart => rbind (lock (Start t) (Worker t) s) (to UnlockStart)
  | UnlockStart => rbind (unlock (Start t) (Worker t) s) (to TakeStart)
  | TakeStart => Ok (set_worker t (mk_worker LoopTest (i w) 1 now (stop w)) s)
  | LoopTest => to (if j w <? thread_reps then LockNext else TakeStop) s
  | LockNext => rbind (lock (Ring (next (i w))) (Worker t) s) (to UnlockPrev)
  | UnlockPrev =>
      rbind (unlock (Ring (i w)) (Worker t) s)
        (λ s, Ok (set_worker t (mk_worker LoopTest (next (i w)) (j w + 1) (start w) (stop w)) s))
  | TakeStop => Ok (set_worker t (mk_worker UnlockLast (i w) (j w) (start w) now) s)
  | UnlockLast => rbind (unlock (Ring (i w)) (Worker t) s) (to Finished)
  end.

Definition destroy_all (s : state) : result state :=
  rbind (foldr (λ m r, rbind r (destroy (Ring m))) (Ok s) (seq 0 CONTENTION_MUTEX_COUNT)) (destroy Ready).

Definition compute (s : state) : state :=
  let ws := map (workers s) (seq 1 (CONTENTION_THREAD_COUNT - 1)) in
  let a := fold_left (λ a w, if start w <? a then start w else a) ws (start (workers s 0%nat)) in
  let b := fold_left (λ b w, if b <? stop w then stop w else b) ws (stop (workers s 0%nat)) in
  set_res a b s.

Definition main_step (s : state) : result state :=
  let to p s := Ok (set_main p s) in
  match main s with
  | Create k =>
      if decide (k < CONTENTION_THREAD_COUNT)%nat then
        rbind (lock (Start k) Main s) (λ s, to (Create (S k)) (set_worker k (mk_worker LockFirst k 0 0 0) s))
      else to MLockReady s
  | MLockReady | Relock => rbind (lock Ready Main s) (to TestCount)
  | TestCount =>
      if ready_count s <? Z.of_nat CONTENTION_THREAD_COUNT then rbind (unlock Ready Main s) (to Waiting)
      else to MUnlockReady s
  | Waiting => Err Blocked
  | MUnlockReady => rbind (unlock Ready Main s) (to (Release 0))
  | Release k =>
      if decide (k < CONTENTION_THREAD_COUNT)%nat then rbind (unlock (Start k) Main s) (to (Release (S k)))
      else to (Join 0) s
  | Join k =>
      if decide (k < CONTENTION_THREAD_COUNT)%nat then
        if decide (pc (workers s k) = Finished) then rbind (destroy (Start k) s) (to (Join (S k))) else Err Blocked
      else to Destroy s
  | Destroy => rbind (destroy_all s) (to Compute)
  | Compute => to Ended (compute s)
  | Ended => Err Blocked
  end.

(** Who takes the next step; [Spurious] ends the wait for the condition. *)
Inductive actor := AMain | AWorker (t : nat) | Spurious.

Definition step (a : actor) (now : Z) (s : state) : result state :=
  match a with
  | AMain => main_step s
  | AWorker t => if decide (t < CONTENTION_THREAD_COUNT)%nat then worker_step t now s else Err Blocked
  | Spurious => match main s with Waiting => Ok (set_main Relock s) | _ => Err Blocked end
  end.

(** A schedule: who is to take the next step, and the time of day.  The turn of a
    thread that has to wait passes.  The number counts the steps that were taken. *)
Fixpoint run (sched : list (actor * Z)) (n : nat) (s : state) : result (nat * state) :=
  match sched with
  | [] => Ok (n, s)
  | (a, now) :: sched =>
      match step a now s with
      | Ok s => run sched (S n) s
      | Err Blocked => run sched n s
      | Err e => Err e
      end
  end.
End steps.

(** [contention] is entered. *)
Definition init : state :=
  mk_state (λ _, None) 0 (λ t, mk_worker NotCreated t 0 0 0) (Create 0) 0 0.

(** ** The invariant *)

(** How far a thread is; the steps of the loop are one place. *)
Definition place (p : worker_pc) : Z :=
  match p with
  | NotCreated => 0 | LockFirst => 1 | LockReady => 2 | CountReady => 3 | UnlockReady => 4 | LockStart => 5 | UnlockStart => 6
  | TakeStart => 7 | LoopTest | LockNext | UnlockPrev => 8 | TakeStop => 9 | UnlockLast => 10 | Finished => 11
  end.

(** The mutexes that a thread holds. *)
Definition worker_holds (t : nat) (w : worker) : list mutex :=
  match pc w with
  | NotCreated | LockFirst | Finished => []
  | CountReady | UnlockReady => [Ready; Ring (i w)]
  | UnlockStart => [Start t; Ring (i w)]
  | UnlockPrev => [Ring (next (i w)); Ring (i w)]
  | _ => [Ring (i w)]
  end.

Definition main_holds (p : main_pc) : list mutex :=
  match p with
  | Create k => Start <$> seq 0 k
  | MLockReady | Waiting | Relock => Start <$> seq 0 CONTENTION_THREAD_COUNT
  | TestCount | MUnlockReady => Ready :: (Start <$> seq 0 CONTENTION_THREAD_COUNT)
  | Release k => Start <$> seq k (CONTENTION_THREAD_COUNT - k)
  | _ => []
  end.

Definition holds (s : state) (th : thread) : list mutex :=
  match th with Main => main_holds (main s) | Worker t => worker_holds t (workers s t) end.

(** Threads [k] and up are not created; those below [k] may start. *)
Definition created (p : main_pc) (t : nat) : Prop := match p with Create k => (t < k)%nat | _ => True end.
Definition released (p : main_pc) (t : nat) : Prop :=
  match p with Release k => (t < k)%nat | Join _ | Destroy | Compute | Ended => True | _ => False end.
(** The barrier is behind. *)
Definition counted (p : main_pc) : Prop :=
  match p with MUnlockReady | Release _ | Join _ | Destroy | Compute | Ended => True | _ => False end.
Definition joined (p : main_pc) (t : nat) : Prop :=
  match p with Join k => (t < k)%nat | Destroy | Compute | Ended => True | _ => False end.
Definition main_ok (p : main_pc) : Prop :=
  match p with Create k | Release k | Join k => (k ≤ CONTENTION_THREAD_COUNT)%nat | _ => True end.

Definition is_counted (w : worker) : Z := if 4 <=? place (pc w) then 1 else 0.

(** The threads that exist. *)
Definition below (t : nat) : Prop := (t < CONTENTION_THREAD_COUNT)%nat.

Record worker_ok (s : state) (t : nat) : Prop := {
  ok_index : (i (workers s t) < CONTENTION_MUTEX_COUNT)%nat;
  ok_created : pc (workers s t) = NotCreated ↔ ¬ created (main s) t;
  ok_early : place (pc (workers s t)) ≤ 7 → i (workers s t) = t;
  ok_released : 6 ≤ place (pc (workers s t)) → released (main s) t;
  ok_counted : counted (main s) → 4 ≤ place (pc (workers s t));
  ok_joined : joined (main s) t → pc (workers s t) = Finished;
}.

Record inv (s : state) : Prop := {
  inv_owners m th : owners s m = Some th ↔ m ∈ holds s th;
  inv_outside t : ¬ below t → pc (workers s t) = NotCreated;
  inv_workers t : below t → worker_ok s t;
  inv_main : main_ok (main s);
  inv_count : ready_count s = is_counted (workers s 0%nat) + is_counted (workers s 1%nat) + is_counted (workers s 2%nat) + is_counted (workers s 3%nat);
  inv_waiting : main s = Waiting → ready_count s < 4;
}.

(** ** Ownership *)

Lemma update_same {A B} `{EqDecision A} (a : A) (b : B) f : update a b f a = b.
Proof. unfold update. by rewrite decide_True. Qed.
Lemma update_other {A B} `{EqDecision A} (a : A) (b : B) f x : x ≠ a → update a b f x = f x.
Proof. intros. unfold update. by rewrite decide_False. Qed.

Section owners.
Implicit Types (ow : mutex → option thread) (h : thread → list mutex).
Definition owned ow h : Prop := ∀ m th, ow m = Some th ↔ m ∈ h th.

Lemma owned_lock ow h h' m th : owned ow h → ow m = None → (∀ x, x ∈ h' th ↔ x = m ∨ x ∈ h th) → (∀ th', th' ≠ th → h' th' = h th') →
  owned (update m (Some th) ow) h'.
Proof.
  intros Ho Hm Hth Hother x y. destruct (decide (x = m)) as [->|Hx]; [rewrite update_same|rewrite update_other by done].
  - split; [intros [= <-]; apply Hth; by left|]. intros Hy. destruct (decide (y = th)) as [->|Hne]; [done|].
    rewrite Hother in Hy by done. apply Ho in Hy. congruence.
  - rewrite (Ho x y). destruct (decide (y = th)) as [->|Hne]; [rewrite Hth; naive_solver|by rewrite Hother].
Qed.

Lemma owned_unlock ow h h' m th : owned ow h → ow m = Some th → (∀ x, x ∈ h' th ↔ x ≠ m ∧ x ∈ h th) → (∀ th', th' ≠ th → h' th' = h th') →
  owned (update m None ow) h'.
Proof.
  intros Ho Hm Hth Hother x y. destruct (decide (x = m)) as [->|Hx]; [rewrite update_same|rewrite update_other by done].
  - split; [done|]. intros Hy. destruct (decide (y = th)) as [->|Hne]; [apply Hth in Hy; naive_solver|].
    rewrite Hother in Hy by done. apply Ho in Hy. congruence.
  - rewrite (Ho x y). destruct (decide (y = th)) as [->|Hne]; [rewrite Hth; naive_solver|by rewrite Hother].
Qed.

Lemma owners_same ow h h' : owned ow h → (∀ th x, x ∈ h' th ↔ x ∈ h th) → owned ow h'.
Proof. intros Ho Hh x y. by rewrite Hh. Qed.
End owners.

Lemma next_lt n : (next n < CONTENTION_MUTEX_COUNT)%nat.
Proof. apply Nat.mod_upper_bound. done. Qed.
Lemma next_ne n : (n < CONTENTION_MUTEX_COUNT)%nat → next n ≠ n.
Proof. unfold CONTENTION_MUTEX_COUNT. intros H. destruct n as [|[|[|[|[|]]]]]; try done. lia. Qed.

Lemma elem_of_starts k n l : Start k ∈ Start <$> seq n l ↔ (n ≤ k < n + l)%nat.
Proof. rewrite list_elem_of_fmap. setoid_rewrite elem_of_seq. split; [intros (x&[= ->]&H); lia|]. intros H. by exists k. Qed.
Lemma only_starts m n l : m ∈ Start <$> seq n l → ∃ k, m = Start k.
Proof. intros (k&->&_)%list_elem_of_fmap. by exists k. Qed.

Lemma start_free p t : below t → created p t → main_ok p → Start t ∉ main_holds p → released p t.
Proof.
  unfold below. intros Ht Hc Hok Hn.
  destruct p as [k| | | | | |k|k| | |]; cbn [created released main_holds main_ok] in *; try done; rewrite ?elem_of_cons, elem_of_starts in Hn;
    unfold CONTENTION_THREAD_COUNT in *; destruct (decide (t < k)%nat) || idtac; try done; destruct Hn; first [lia|right; lia].
Qed.

(** ** Preservation *)

(** A step of a thread that changes no counter. *)
Lemma worker_update s t w ow : inv s → below t → owned ow (holds (set_worker t w s)) → 
  (i w < CONTENTION_MUTEX_COUNT)%nat → 1 ≤ place (pc (workers s t)) ≤ 10 → 1 ≤ place (pc w) →
  (place (pc w) ≤ 7 → i w = t) → (6 ≤ place (pc w) → released (main s) t) → is_counted w = is_counted (workers s t) →
  inv (mk_state ow (ready_count s) (update t w (workers s)) (main s) (res_start s) (res_stop s)).
Proof.
  intros [Ho Hout Hw Hm Hc Hwait] Ht How Hi Hpc Hpc' Hearly Hrel Hcount. pose proof (Hw t Ht) as [_ Hcr _ _ Hcd Hj].
  split; cbn [owners ready_count workers main]; try done.
  - intros u Hu. rewrite update_other; [by apply Hout|]. by intros ->.
  - intros u Hu. destruct (decide (u = t)) as [->|Hne].
    + split; cbn [workers main]; rewrite ?update_same; try done.
      * rewrite <- Hcr. split; intros H; rewrite H in *; cbn in *; lia.
      * intros H. specialize (Hcd H). unfold is_counted in Hcount. destruct (Z.leb_spec 4 (place (pc w))); [done|]. rewrite (proj2 (Z.leb_le _ _)) in Hcount by done. done.
      * intros H. specialize (Hj H). rewrite Hj in Hpc. cbn in Hpc. lia.
    + destruct (Hw u Hu). split; cbn [workers main]; rewrite ?update_other by done; done.
  - rewrite Hc. unfold below, CONTENTION_THREAD_COUNT in Ht. unfold update. repeat case_decide; subst; lia.
Qed.

(** A step keeps the invariant, or the thread has to wait. *)
Definition fine (r : result state) : Prop := match r with Ok s => inv s | Err e => e = Blocked end.

(** What a step of a thread must leave to be right. *)
Record good_step (s : state) (t : nat) (w : worker) : Prop := {
  good_index : (i w < CONTENTION_MUTEX_COUNT)%nat;
  good_from : 1 ≤ place (pc (workers s t)) ≤ 10;
  good_to : 1 ≤ place (pc w);
  good_early : place (pc w) ≤ 7 → i w = t;
  good_counted : is_counted w = is_counted (workers s t);
}.

Lemma holds_worker s t w : holds (set_worker t w s) (Worker t) = worker_holds t w.
Proof. cbn. by rewrite update_same. Qed.
Lemma holds_other s t w th : th ≠ Worker t → holds (set_worker t w s) th = holds s th.
Proof. destruct th as [|u]; [done|]. intros H. cbn. rewrite update_other; [done|]. by intros ->. Qed.

Lemma worker_lock s t m w : inv s → below t → good_step s t w → (owners s m = None → 6 ≤ place (pc w) → released (main s) t) →
  (∀ x, x ∈ worker_holds t w ↔ x = m ∨ x ∈ worker_holds t (workers s t)) →
  fine (rbind (lock m (Worker t) s) (λ s, Ok (set_worker t w s))).
Proof.
  intros HI Ht [H1 H2 H3 H4 H5] Hrel Hh. unfold lock. destruct (owners s m) as [|] eqn:Hm; [done|]. cbn [rbind fine].
  apply (worker_update s t w (update m (Some (Worker t)) (owners s))); try done; [|by apply Hrel].
  apply (owned_lock (owners s) (holds s)); [exact (inv_owners _ HI)|done|rewrite holds_worker; exact Hh|apply holds_other].
Qed.

Lemma worker_unlock s t m w : inv s → below t → good_step s t w → (6 ≤ place (pc w) → released (main s) t) →
  m ∈ worker_holds t (workers s t) → (∀ x, x ∈ worker_holds t w ↔ x ≠ m ∧ x ∈ worker_holds t (workers s t)) →
  fine (rbind (unlock m (Worker t) s) (λ s, Ok (set_worker t w s))).
Proof.
  intros HI Ht [H1 H2 H3 H4 H5] Hrel Hm Hh. assert (owners s m = Some (Worker t)) as Hown by (by apply HI).
  unfold unlock. rewrite decide_True by done. cbn [rbind fine].
  apply (worker_update s t w (update m None (owners s))); try done.
  apply (owned_unlock (owners s) (holds s) _ _ (Worker t)); [exact (inv_owners _ HI)|done|rewrite holds_worker; exact Hh|apply holds_other].
Qed.

Lemma worker_local s t w : inv s → below t → good_step s t w → (6 ≤ place (pc w) → released (main s) t) →
  (∀ x, x ∈ worker_holds t w ↔ x ∈ worker_holds t (workers s t)) → fine (Ok (set_worker t w s)).
Proof.
  intros HI Ht [H1 H2 H3 H4 H5] Hrel Hh. apply (worker_update s t w (owners s)); try done.
  apply (owners_same (owners s) (holds s)); [exact (inv_owners _ HI)|]. intros th x. destruct (decide (th = Worker t)) as [->|Hne]; [by rewrite holds_worker|by rewrite holds_other].
Qed.

(** The membership of the lists of a thread. *)
Ltac holdings Hp := unfold worker_holds, goto; rewrite Hp; cbn [pc i]; intros x; rewrite ?elem_of_cons, ?elem_of_nil; intuition congruence.

Lemma worker_step_fine reps t now s : inv s → below t → pc (workers s t) ≠ CountReady → fine (worker_step reps t now s).
Proof.
  intros HI Ht Hncr. pose proof (inv_workers _ HI t Ht) as [Hi Hcr Hearly Hrel Hcd Hj].
  pose proof (next_ne _ Hi) as Hne. pose proof (next_lt (i (workers s t))) as Hlt.
  unfold worker_step. destruct (pc (workers s t)) eqn:Hp; cbn [place] in *; try done;
    (* the place of the thread before and after the step *)
    assert (∀ w, (i w < CONTENTION_MUTEX_COUNT)%nat → 1 ≤ place (pc w) → (place (pc w) ≤ 7 → i w = t) →
      is_counted w = is_counted (workers s t) → good_step s t w) as Hgood by (intros; split; rewrite ?Hp; cbn; done || lia).
  - apply worker_lock; [done..| |done|holdings Hp]. apply Hgood; [done|done|by intros _; apply Hearly|by unfold is_counted; rewrite Hp].
  - apply worker_lock; [done..| |done|holdings Hp]. apply Hgood; [done|done|by intros _; apply Hearly|by unfold is_counted; rewrite Hp].
  - apply worker_unlock; [done..| |done| |holdings Hp].
    + apply Hgood; [done|done|by intros _; apply Hearly|by unfold is_counted; rewrite Hp].
    + unfold worker_holds. rewrite Hp. by left.
  - apply worker_lock; [done..| | |holdings Hp].
    + apply Hgood; [done|done|by intros _; apply Hearly|by unfold is_counted; rewrite Hp].
    + intros Hfree _. apply start_free; [done| |apply HI|].
      * destruct (main s); cbn in *; try done. apply dec_stable. rewrite <- Hcr. done.
      * intros Hin. apply (inv_owners _ HI _ Main) in Hin. congruence.
  - apply worker_unlock; [done..| |by intros _; apply Hrel| |holdings Hp].
    + apply Hgood; [done|done|by intros _; apply Hearly|by unfold is_counted; rewrite Hp].
    + unfold worker_holds. rewrite Hp. by left.
  - apply worker_local; [done..| |by intros _; apply Hrel|holdings Hp]. apply Hgood; [done|done|done|by unfold is_counted; rewrite Hp].
  - apply worker_local; [done..| |by intros _; apply Hrel|].
    + apply Hgood; [done|by destruct (_ <? _)|by destruct (_ <? _)|unfold is_counted; rewrite Hp; by destruct (_ <? _)].
    + case_match; holdings Hp.
  - apply worker_lock; [done..| |by intros _ _; apply Hrel|holdings Hp]. apply Hgood; [done|done|done|by unfold is_counted; rewrite Hp].
  - apply (worker_unlock s t (Ring (i (workers s t))) (mk_worker LoopTest (next (i (workers s t))) (j (workers s t) + 1) (start (workers s t)) (stop (workers s t))));
      [done..| |by intros _; apply Hrel| |holdings Hp].
    + apply Hgood; [done|done|done|by unfold is_counted; rewrite Hp].
    + unfold worker_holds. rewrite Hp. right. by left.
  - apply worker_local; [done..| |by intros _; apply Hrel|holdings Hp]. apply Hgood; [done|done|done|by unfold is_counted; rewrite Hp].
  - apply worker_unlock; [done..| |by intros _; apply Hrel| |holdings Hp].
    + apply Hgood; [done|done|done|by unfold is_counted; rewrite Hp].
    + unfold worker_holds. rewrite Hp. by left.
Qed.

Lemma is_counted_range w : 0 ≤ is_counted w ≤ 1.
Proof. unfold is_counted. destruct (4 <=? _); lia. Qed.

Lemma count_update s t w : below t → is_counted (workers s t) = 0 → is_counted w = 1 →
  let f := update t w (workers s) in
  is_counted (f 0%nat) + is_counted (f 1%nat) + is_counted (f 2%nat) + is_counted (f 3%nat) =
  is_counted (workers s 0%nat) + is_counted (workers s 1%nat) + is_counted (workers s 2%nat) + is_counted (workers s 3%nat) + 1.
Proof.
  unfold below, CONTENTION_THREAD_COUNT, update. intros Ht H0 H1. cbn zeta. repeat case_decide; subst; lia.
Qed.

Lemma count_full s : is_counted (workers s 0%nat) + is_counted (workers s 1%nat) + is_counted (workers s 2%nat) + is_counted (workers s 3%nat) = 4 →
  ∀ t, below t → 4 ≤ place (pc (workers s t)).
Proof.
  intros Hc t Ht. assert (is_counted (workers s t) = 1) as H1.
  { pose proof (is_counted_range (workers s 0%nat)). pose proof (is_counted_range (workers s 1%nat)).
    pose proof (is_counted_range (workers s 2%nat)). pose proof (is_counted_range (workers s 3%nat)).
    unfold below, CONTENTION_THREAD_COUNT in Ht. destruct t as [|[|[|[|]]]]; lia. }
  unfold is_counted in H1. destruct (Z.leb_spec 4 (place (pc (workers s t)))); [done|lia].
Qed.

(** The main thread after a signal. *)
Definition awake (p : main_pc) : main_pc := match p with Waiting => Relock | _ => p end.

Lemma signal_eq s : signal s = set_main (awake (main s)) s.
Proof. unfold signal, awake. destruct s as [? ? ? p ? ?]. by destruct p. Qed.

(** Waiting and having been woken differ in nothing that the threads see. *)
Lemma count_ready_inv s t p : inv s → below t → pc (workers s t) = CountReady → p = main s ∨ main s = Waiting ∧ p = Relock →
  (p = Waiting → ready_count s + 1 ≠ 4) →
  inv (set_worker t (goto UnlockReady (workers s t)) (set_main p (set_ready_count (ready_count s + 1) s))).
Proof.
  intros HI Ht Hp Hpm Hw. pose proof HI as [Ho Hout Hwk Hm Hc Hwait]. pose proof (Hwk t Ht) as [Hi Hcr Hearly Hrel Hcd Hj].
  assert (is_counted (workers s t) = 0) as H0 by (unfold is_counted; by rewrite Hp).
  assert (main_holds p = main_holds (main s)) as Hmh by (by destruct Hpm as [->|[-> ->]]).
  assert (∀ u, (created p u ↔ created (main s) u) ∧ (released (main s) u → released p u) ∧ (counted p → counted (main s)) ∧
    (joined p u → joined (main s) u)) as Hsame by (intros u; by destruct Hpm as [->|[-> ->]]).
  rewrite Hp in *. cbn [place] in *. split; cbn [owners ready_count workers main set_worker set_main set_ready_count].
  - apply (owners_same (owners s) (holds s)); [exact Ho|]. intros [|u] x; cbn [holds main workers set_worker set_main set_ready_count owners].
    + by rewrite Hmh.
    + unfold update. case_decide; [|done]. subst u. unfold worker_holds. by rewrite Hp.
  - intros u Hu. rewrite update_other; [by apply Hout|]. by intros ->.
  - intros u Hu. destruct (Hsame u) as (S1&S2&S3&S4). destruct (decide (u = t)) as [->|Hne].
    + split; cbn [workers main set_worker set_main set_ready_count owners]; rewrite ?update_same; cbn [goto pc i place]; try done.
      * rewrite S1, <- Hcr. done.
      * intros H%S4. by apply Hj in H.
    + destruct (Hwk u Hu) as [G1 G2 G3 G4 G5 G6]. split; cbn [workers main set_worker set_main set_ready_count owners]; rewrite ?update_other by done; try done.
      * by rewrite S1.
      * intros H. by apply S2, G4.
      * intros H. by apply G5, S3.
      * intros H. by apply G6, S4.
  - by destruct Hpm as [->|[_ ->]].
  - rewrite count_update by done. rewrite Hc. done.
  - intros ->. specialize (Hw eq_refl). rewrite Hc in *. pose proof (count_update s t (goto UnlockReady (workers s t)) Ht H0 eq_refl) as Hcu. cbn zeta in Hcu.
    match type of Hcu with is_counted ?a + is_counted ?b + is_counted ?c + is_counted ?d = _ =>
      pose proof (is_counted_range a); pose proof (is_counted_range b); pose proof (is_counted_range c); pose proof (is_counted_range d) end.
    lia.
Qed.

Lemma count_ready_fine reps t now s : inv s → below t → pc (workers s t) = CountReady → fine (worker_step reps t now s).
Proof.
  intros HI Ht Hp. unfold worker_step. rewrite Hp. cbn zeta. cbn [fine]. change (Z.of_nat CONTENTION_THREAD_COUNT) with 4.
  destruct (Z.eqb_spec (ready_count s + 1) 4) as [He|He].
  - rewrite signal_eq. apply (count_ready_inv s t (awake (main s))); [done..| |]; unfold awake; cbn; destruct (main s); naive_solver.
  - pose proof (count_ready_inv s t (main s) HI Ht Hp ltac:(by left) ltac:(done)) as H. by destruct s.
Qed.

(** A step of the main thread that leaves the threads alone. *)
Lemma main_update s p ow a b : inv s → owned ow (holds (set_main p s)) → main_ok p →
  (∀ t, below t → (created p t ↔ created (main s) t) ∧ (released (main s) t → released p t) ∧
    (counted p → 4 ≤ place (pc (workers s t))) ∧ (joined p t → pc (workers s t) = Finished)) →
  (p = Waiting → ready_count s < 4) → inv (mk_state ow (ready_count s) (workers s) p a b).
Proof.
  intros [Ho Hout Hwk Hm Hc Hwait] How Hok Hp Hw. split; cbn [owners ready_count workers main]; try done.
  intros t Ht. destruct (Hwk t Ht) as [G1 G2 G3 G4 G5 G6]. destruct (Hp t Ht) as (S1&S2&S3&S4). split; cbn [workers main]; try done.
  - by rewrite S1.
  - intros H. by apply S2, G4.
Qed.

Lemma holds_main s p th : th ≠ Main → holds (set_main p s) th = holds s th.
Proof. by destruct th. Qed.

Section main_moves.
Context (s : state) (HI : inv s).

(** What a step to [p] must leave to be right. *)
Definition good_move (p : main_pc) : Prop :=
  main_ok p ∧ (∀ t, below t → (created p t ↔ created (main s) t) ∧ (released (main s) t → released p t) ∧
    (counted p → 4 ≤ place (pc (workers s t))) ∧ (joined p t → pc (workers s t) = Finished)) ∧ (p = Waiting → ready_count s < 4).

Lemma main_lock m p : good_move p → (∀ x, x ∈ main_holds p ↔ x = m ∨ x ∈ main_holds (main s)) →
  fine (rbind (lock m Main s) (λ s, Ok (set_main p s))).
Proof.
  intros (H1&H2&H3) Hh. unfold lock. destruct (owners s m) eqn:Hm; [done|]. cbn [rbind fine].
  apply (main_update s p (update m (Some Main) (owners s))); try done.
  apply (owned_lock (owners s) (holds s)); [exact (inv_owners _ HI)|done|exact Hh|apply holds_main].
Qed.

Lemma main_unlock m p : good_move p → m ∈ main_holds (main s) → (∀ x, x ∈ main_holds p ↔ x ≠ m ∧ x ∈ main_holds (main s)) →
  fine (rbind (unlock m Main s) (λ s, Ok (set_main p s))).
Proof.
  intros (H1&H2&H3) Hm Hh. assert (owners s m = Some Main) as Hown by (by apply (inv_owners _ HI _ Main)).
  unfold unlock. rewrite decide_True by done. cbn [rbind fine]. apply (main_update s p (update m None (owners s))); try done.
  apply (owned_unlock (owners s) (holds s) _ _ Main); [exact (inv_owners _ HI)|done|exact Hh|apply holds_main].
Qed.

Lemma main_local p a b : good_move p → (∀ x, x ∈ main_holds p ↔ x ∈ main_holds (main s)) → inv (mk_state (owners s) (ready_count s) (workers s) p a b).
Proof.
  intros (H1&H2&H3) Hh. apply main_update; try done. apply (owners_same (owners s) (holds s)); [exact (inv_owners _ HI)|].
  intros th x. destruct (decide (th = Main)) as [->|Hne]; [apply Hh|by rewrite holds_main].
Qed.

(** A mutex that nobody holds. *)
Lemma nobody m : m ∉ main_holds (main s) → (∀ t, m ∉ worker_holds t (workers s t)) → owners s m = None.
Proof.
  intros Hm Hw. destruct (owners s m) as [[|t]|] eqn:E; [| |done]; apply (inv_owners _ HI) in E; [done|by destruct (Hw t)].
Qed.

Lemma start_holder k t : Start k ∈ worker_holds t (workers s t) → t = k ∧ pc (workers s t) = UnlockStart.
Proof.
  unfold worker_holds. destruct (pc (workers s t)) eqn:E; rewrite ?elem_of_cons, ?elem_of_nil; intros H; naive_solver.
Qed.

Lemma finished_holds t : pc (workers s t) = Finished → worker_holds t (workers s t) = [].
Proof. unfold worker_holds. by intros ->. Qed.

Lemma all_finished_holds : (∀ t, below t → pc (workers s t) = Finished) → ∀ t, worker_holds t (workers s t) = [].
Proof.
  intros Hf t. destruct (decide (t < CONTENTION_THREAD_COUNT)%nat) as [Ht|Ht]; [by apply finished_holds, Hf|].
  unfold worker_holds. by rewrite (inv_outside _ HI).
Qed.

Lemma destroy_ok m : owners s m = None → destroy m s = Ok s.
Proof. intros H. unfold destroy. by rewrite decide_True. Qed.
End main_moves.

Ltac starts := unfold CONTENTION_THREAD_COUNT in *; intros x; cbn [main_holds]; rewrite ?elem_of_cons;
  split; intros Hx; naive_solver.

Lemma create_fine s k : inv s → main s = Create k → below k →
  fine (rbind (lock (Start k) Main s) (λ s, Ok (set_main (Create (S k)) (set_worker k (mk_worker LockFirst k 0 0 0) s)))).
Proof.
  intros HI Hm Hk. pose proof HI as [Ho Hout Hwk Hok Hc Hwait]. rewrite Hm in *. pose proof (Hwk k Hk) as [_ Hcr _ _ _ _].
  rewrite Hm in Hcr. cbn [created] in Hcr.
  assert (pc (workers s k) = NotCreated) as Hnc by (apply Hcr; lia).
  unfold lock. destruct (owners s (Start k)) eqn:Hfree; [done|]. cbn [rbind fine].
  split; cbn [owners ready_count workers main set_main set_worker set_owner].
  - apply (owned_lock (owners s) (holds s) _ _ Main); [exact Ho|done| |].
    + intros x. cbn [holds main]. rewrite Hm. cbn [main_holds main set_main]. rewrite seq_S, fmap_app, elem_of_app. cbn. set_solver.
    + intros [|u] Hu; [done|]. cbn [holds workers set_main set_worker set_owner]. unfold update. case_decide; [|done]. subst u. unfold worker_holds. by rewrite Hnc.
  - intros u Hu. rewrite update_other; [by apply Hout|]. by intros ->.
  - intros u Hu. destruct (Hwk u Hu) as [G1 G2 G3 G4 G5 G6]. rewrite Hm in *. destruct (decide (u = k)) as [->|Hne].
    + split; cbn [workers main set_main set_worker set_owner]; rewrite ?update_same; try done; cbn; [unfold below, CONTENTION_THREAD_COUNT, CONTENTION_MUTEX_COUNT in *; lia|split; [done|lia]].
    + split; cbn [workers main set_main set_worker set_owner]; rewrite ?update_other by done; try done. rewrite G2. cbn. lia.
  - unfold below in Hk. cbn. lia.
  - rewrite Hc. unfold update. repeat case_decide; subst; try done; unfold is_counted; rewrite Hnc; done.
  - done.
Qed.

Lemma join_fine s k : inv s → main s = Join k → below k → fine (main_step s).
Proof.
  intros HI Hm Hk. pose proof HI as [Ho Hout Hwk Hok Hc Hwait]. unfold main_step. rewrite Hm. rewrite decide_True by done.
  destruct (decide _) as [Hf|]; [|done]. rewrite (destroy_ok s); cbn [rbind fine].
  - apply (main_local s HI (Join (S k))); [|by rewrite Hm]. unfold below in *. split; [cbn; lia|]. split; [|done]. intros t Ht. rewrite Hm.
    destruct (Hwk t Ht) as [_ _ _ _ G5 G6]. rewrite Hm in *. cbn in *. split; [done|]. split; [done|]. split; [done|]. intros Htk.
    destruct (decide (t = k)) as [->|]; [done|]. apply G6. lia.
  - apply (nobody s HI); [rewrite Hm; apply not_elem_of_nil|]. intros t Hin%start_holder. destruct Hin as [-> Hin]. congruence.
Qed.

Lemma destroy_fine s : inv s → main s = Destroy → fine (main_step s).
Proof.
  intros HI Hm. pose proof HI as [Ho Hout Hwk Hok Hc Hwait]. unfold main_step. rewrite Hm.
  assert (∀ t, below t → pc (workers s t) = Finished) as Hf by (intros t Ht; apply (ok_joined _ _ (Hwk t Ht)); by rewrite Hm).
  assert (∀ m, destroy m s = Ok s) as Hd.
  { intros m. apply destroy_ok, (nobody s HI); [rewrite Hm; apply not_elem_of_nil|]. intros t. rewrite all_finished_holds by done. apply not_elem_of_nil. }
  unfold destroy_all. cbn [seq foldr CONTENTION_MUTEX_COUNT rbind]. rewrite !Hd. cbn [rbind]. rewrite !Hd. cbn [rbind]. rewrite !Hd. cbn [rbind].
  rewrite !Hd. cbn [rbind]. rewrite !Hd. cbn [rbind]. rewrite !Hd. cbn [rbind fine].
  apply (main_local s HI Compute); [|by rewrite Hm]. split; [done|]. split; [|done]. intros t Ht. rewrite Hm. cbn. rewrite (Hf t Ht). done.
Qed.

(** What the threads see of the main thread does not change. *)
Lemma good_silent s p : inv s → main_ok p → p ≠ Waiting → (∀ t, below t → (created p t ↔ created (main s) t) ∧ (released (main s) t → released p t)) →
  (counted p → counted (main s)) → (∀ t, below t → joined p t → joined (main s) t) → good_move s p.
Proof.
  intros HI Hok Hw Hs Hcd Hj. split; [done|]. split; [|done]. intros t Ht. destruct (Hs t Ht). destruct (inv_workers _ HI t Ht) as [_ _ _ _ G5 G6].
  split_and!; [done|done| |].
  - intros Hp. by apply G5, Hcd.
  - intros Hp. by apply G6, (Hj t Ht).
Qed.

Lemma main_step_fine s : inv s → fine (main_step s).
Proof.
  intros HI. pose proof HI as [Ho Hout Hwk Hok Hc Hwait]. destruct (main s) as [k| | | | | |k|k| | |] eqn:Hm.
  - destruct (decide (below k)) as [Hk|Hk]; unfold main_step; rewrite Hm; [rewrite decide_True by done; by apply create_fine|].
    rewrite decide_False by done. unfold below in Hk. cbn in Hok. assert (k = CONTENTION_THREAD_COUNT) as -> by lia.
    apply (main_local s HI); [|by rewrite Hm]. apply good_silent; rewrite ?Hm; try done.
  - unfold main_step. rewrite Hm. apply (main_lock s HI); [|rewrite Hm; intros x; apply elem_of_cons]. by apply good_silent; rewrite ?Hm.
  - unfold main_step. rewrite Hm. destruct (Z.ltb_spec (ready_count s) (Z.of_nat CONTENTION_THREAD_COUNT)) as [Hlt|Hge].
    + apply (main_unlock s HI); rewrite ?Hm; [|by left|].
      * split; [done|]. split; [|intros _; exact Hlt]. intros t Ht. by rewrite Hm.
      * intros x. cbn [main_holds]. rewrite elem_of_cons. split; [|naive_solver]. intros Hx. split; [|by right]. by apply only_starts in Hx as [? ->].
    + apply (main_local s HI); [|rewrite Hm; done]. split; [done|]. split; [|done]. intros t Ht. rewrite Hm. split; [done|]. split; [done|]. split; [|done].
      intros _. apply count_full; [|done]. rewrite <- Hc. change (Z.of_nat CONTENTION_THREAD_COUNT) with 4 in Hge.
      pose proof (is_counted_range (workers s 0%nat)). pose proof (is_counted_range (workers s 1%nat)).
      pose proof (is_counted_range (workers s 2%nat)). pose proof (is_counted_range (workers s 3%nat)). lia.
  - unfold main_step. by rewrite Hm.
  - unfold main_step. rewrite Hm. apply (main_lock s HI); [|rewrite Hm; intros x; apply elem_of_cons]. by apply good_silent; rewrite ?Hm.
  - unfold main_step. rewrite Hm. apply (main_unlock s HI); rewrite ?Hm; [|by left|].
    + apply good_silent; rewrite ?Hm; try done. cbn. lia.
    + intros x. cbn [main_holds]. rewrite elem_of_cons, Nat.sub_0_r. split; [|naive_solver]. intros Hx. split; [|by right]. by apply only_starts in Hx as [? ->].
  - unfold main_step. rewrite Hm. cbn in Hok. destruct (decide (k < CONTENTION_THREAD_COUNT)%nat) as [Hk|Hk].
    + apply (main_unlock s HI); rewrite ?Hm; cbn [main_holds].
      * apply good_silent; rewrite ?Hm; try done. intros t Ht. cbn. split; [done|lia].
      * apply elem_of_starts. lia.
      * intros x. split.
        -- intros Hx. pose proof (only_starts _ _ _ Hx) as [u ->]. apply elem_of_starts in Hx. rewrite elem_of_starts.
           split; [intros [= ->]; lia|lia].
        -- intros [Hne Hx]. pose proof (only_starts _ _ _ Hx) as [u ->]. apply elem_of_starts in Hx. rewrite elem_of_starts.
           assert (u ≠ k) by (by intros ->). lia.
    + apply (main_local s HI); [|rewrite Hm; cbn [main_holds]; by replace (CONTENTION_THREAD_COUNT - k)%nat with 0%nat by lia].
      apply good_silent; rewrite ?Hm; try done; [cbn; lia|]. intros t _ H. cbn in H. lia.
  - destruct (decide (below k)) as [Hk|Hk]; [by apply (join_fine s k)|]. unfold main_step. rewrite Hm, decide_False by done.
    unfold below in Hk. cbn in Hok. apply (main_local s HI); [|by rewrite Hm]. apply good_silent; rewrite ?Hm; try done.
    intros t Ht _. unfold below in Ht. cbn. lia.
  - by apply destroy_fine.
  - unfold main_step. rewrite Hm. apply (main_local s HI); [|by rewrite Hm]. by apply good_silent; rewrite ?Hm.
  - unfold main_step. by rewrite Hm.
Qed.

Lemma step_fine reps a now s : inv s → fine (step reps a now s).
Proof.
  intros HI. destruct a as [|t|]; cbn [step]; [by apply main_step_fine| |].
  - destruct (decide _) as [Ht|]; [|done]. destruct (decide (pc (workers s t) = CountReady)); [by apply count_ready_fine|by apply worker_step_fine].
  - destruct (main s) eqn:Hm; try done. apply (main_local s HI); [|by rewrite Hm]. by apply good_silent; rewrite ?Hm.
Qed.

Lemma init_inv : inv init.
Proof.
  split; cbn [init owners ready_count workers main]; try done.
  - intros m [|t]; cbn; [by rewrite elem_of_nil|]. by rewrite elem_of_nil.
  - intros t Ht. unfold below, CONTENTION_THREAD_COUNT in Ht. split; cbn; try done; [unfold CONTENTION_MUTEX_COUNT; lia|split; [lia|done]].
  - cbn. lia.
Qed.

(** ** Termination *)

Section termination.
Context (reps : Z).

(** How often the loop of a thread runs from [j] on. *)
Definition rest (j : Z) : nat := Z.to_nat (thread_reps reps - j).

Definition worker_measure (w : worker) : nat :=
  match pc w with
  | NotCreated => 21 + 3 * rest 1 | LockFirst => 20 + 3 * rest 1 | LockReady => 19 + 3 * rest 1 | CountReady => 18 + 3 * rest 1
  | UnlockReady => 7 + 3 * rest 1 | LockStart => 6 + 3 * rest 1 | UnlockStart => 5 + 3 * rest 1 | TakeStart => 4 + 3 * rest 1
  | LoopTest => 3 + 3 * rest (j w) | LockNext => 5 + 3 * rest (j w + 1) | UnlockPrev => 4 + 3 * rest (j w + 1)
  | TakeStop => 2 | UnlockLast => 1 | Finished => 0
  end.

Definition main_measure (p : main_pc) : nat :=
  match p with
  | Create k => 40 - k | MLockReady | Relock => 30 | TestCount => 29 | Waiting => 28 | MUnlockReady => 27
  | Release k => 26 - k | Join k => 20 - k | Destroy => 10 | Compute => 9 | Ended => 0
  end.

Definition total (f : nat → worker) : nat :=
  worker_measure (f 0%nat) + worker_measure (f 1%nat) + worker_measure (f 2%nat) + worker_measure (f 3%nat).
Definition measure (s : state) : nat := main_measure (main s) + total (workers s).

Lemma total_update f t w : below t → (total (update t w f) + worker_measure (f t) = total f + worker_measure w)%nat.
Proof. unfold below, CONTENTION_THREAD_COUNT, total, update. intros Ht. repeat case_decide; subst; lia. Qed.

Lemma measure_worker s t w : below t → (worker_measure w < worker_measure (workers s t) → measure (set_worker t w s) < measure s)%nat.
Proof. intros Ht Hlt. unfold measure. cbn [main workers set_worker]. pose proof (total_update (workers s) t w Ht). lia. Qed.

Lemma rbind_lock_inv m th s (f : state → result state) s' : rbind (lock m th s) f = Ok s' → ∃ s1, lock m th s = Ok s1 ∧ f s1 = Ok s' ∧ workers s1 = workers s ∧ main s1 = main s.
Proof. unfold lock. destruct (owners s m); [done|]. intros H. by eexists. Qed.
Lemma rbind_unlock_inv m th s (f : state → result state) s' : rbind (unlock m th s) f = Ok s' → ∃ s1, unlock m th s = Ok s1 ∧ f s1 = Ok s' ∧ workers s1 = workers s ∧ main s1 = main s.
Proof. unfold unlock. destruct (decide _); [|done]. intros H. by eexists. Qed.

Lemma worker_step_measure t now s s' : below t → worker_step reps t now s = Ok s' → (measure s' < measure s)%nat.
Proof.
  intros Ht. unfold worker_step.
  assert (∀ s1 w, workers s1 = workers s → main s1 = main s → (worker_measure w < worker_measure (workers s t))%nat →
    measure (set_worker t w s1) < measure s)%nat as Hm.
  { intros s1 w Hw Hp Hlt. pose proof (measure_worker s t w Ht Hlt) as H. unfold measure in *. cbn [main workers set_worker] in *. by rewrite Hw, Hp. }
  destruct (pc (workers s t)) eqn:Hp; try done;
    try (intros (s1&_&[= <-]&Hw1&Hm1)%rbind_lock_inv; apply Hm; [done|done|unfold worker_measure; rewrite Hp; cbn [pc j goto]; lia]);
    try (intros (s1&_&[= <-]&Hw1&Hm1)%rbind_unlock_inv; apply Hm; [done|done|unfold worker_measure; rewrite Hp; cbn [pc j goto]; lia]).
  - intros [= <-]. pose proof (total_update (workers s) t (goto UnlockReady (workers s t)) Ht) as H.
    assert (worker_measure (workers s t) = 18 + 3 * rest 1)%nat as H1 by (unfold worker_measure; by rewrite Hp).
    assert (worker_measure (goto UnlockReady (workers s t)) = 7 + 3 * rest 1)%nat as H2 by done. unfold measure. destruct (_ =? _); cbn [main workers set_worker set_ready_count]; [|lia].
    rewrite signal_eq. cbn [main workers set_main set_ready_count]. assert (main_measure (awake (main s)) ≤ main_measure (main s) + 2)%nat by (destruct (main s); cbn; lia). lia.
  - intros [= <-]. apply Hm; [done|done|]. unfold worker_measure. rewrite Hp. cbn [pc j goto]. lia.
  - intros [= <-]. apply Hm; [done|done|]. unfold worker_measure. rewrite Hp. destruct (Z.ltb_spec (j (workers s t)) (thread_reps reps)); cbn [pc j goto]; [unfold rest; lia|lia].
  - intros [= <-]. apply Hm; [done|done|]. unfold worker_measure. rewrite Hp. cbn [pc j goto]. lia.
Qed.

Lemma measure_main s s1 p : workers s1 = workers s → (main_measure p < main_measure (main s))%nat → (measure (set_main p s1) < measure s)%nat.
Proof. intros Hw Hlt. unfold measure. cbn [main workers set_main]. rewrite Hw. lia. Qed.

Lemma rbind_destroy_inv m s (f : state → result state) s' : rbind (destroy m s) f = Ok s' → f s = Ok s'.
Proof. unfold destroy. by destruct (decide _). Qed.

Lemma destroy_all_inv s s' : destroy_all s = Ok s' → s' = s.
Proof.
  unfold destroy_all. cbn [seq foldr CONTENTION_MUTEX_COUNT rbind]. unfold destroy. repeat (case_decide; cbn [rbind]; try done). by intros [= <-].
Qed.

Lemma main_step_measure s s' : inv s → main_step s = Ok s' → (measure s' < measure s)%nat.
Proof.
  intros HI. pose proof (inv_main _ HI) as Hok. unfold main_step. destruct (main s) as [k| | | | | |k|k| | |] eqn:Hm; try done.
  - destruct (decide _) as [Hk|Hk]; [|intros [= <-]; apply measure_main; rewrite ?Hm; [done|cbn in *; unfold CONTENTION_THREAD_COUNT in *; lia]].
    intros (s1&_&[= <-]&Hw1&Hm1)%rbind_lock_inv. unfold measure. cbn [main workers set_main set_worker]. rewrite Hw1, Hm.
    pose proof (total_update (workers s) k (mk_worker LockFirst k 0 0 0) Hk) as H.
    pose proof (ok_created _ _ (inv_workers _ HI k Hk)) as Hc. rewrite Hm in Hc. cbn in Hc.
    assert (worker_measure (workers s k) = 21 + 3 * rest 1)%nat as H1 by (unfold worker_measure; by rewrite (proj2 Hc) by lia).
    assert (worker_measure (mk_worker LockFirst k 0 0 0) = 20 + 3 * rest 1)%nat as H2 by done. cbn [main_measure]. lia.
  - intros (s1&_&[= <-]&Hw1&Hm1)%rbind_lock_inv. apply measure_main; [done|]. rewrite Hm. cbn. lia.
  - destruct (_ <? _); [intros (s1&_&[= <-]&Hw1&Hm1)%rbind_unlock_inv|intros [= <-]]; apply measure_main; rewrite ?Hm; [done|cbn; lia|done|cbn; lia].
  - intros (s1&_&[= <-]&Hw1&Hm1)%rbind_lock_inv. apply measure_main; [done|]. rewrite Hm. cbn. lia.
  - intros (s1&_&[= <-]&Hw1&Hm1)%rbind_unlock_inv. apply measure_main; [done|]. rewrite Hm. cbn. lia.
  - cbn in Hok. unfold CONTENTION_THREAD_COUNT in *. destruct (decide _) as [Hk|Hk].
    + intros (s1&_&[= <-]&Hw1&Hm1)%rbind_unlock_inv. apply measure_main; [done|]. rewrite Hm. cbn [main_measure]. lia.
    + intros [= <-]. apply measure_main; [done|]. rewrite Hm. cbn [main_measure]. lia.
  - cbn in Hok. unfold CONTENTION_THREAD_COUNT in *. destruct (decide _) as [Hk|Hk].
    + destruct (decide _); [|done]. intros [= <-]%rbind_destroy_inv. apply measure_main; [done|]. rewrite Hm. cbn [main_measure]. lia.
    + intros [= <-]. apply measure_main; [done|]. rewrite Hm. cbn [main_measure]. lia.
  - destruct (destroy_all s) as [s1|] eqn:Hd; [|done]. apply destroy_all_inv in Hd as ->. intros [= <-]. apply measure_main; [done|]. rewrite Hm. cbn. lia.
  - intros [= <-]. apply measure_main; [done|]. rewrite Hm. cbn. lia.
Qed.

(** The waits that end without a signal. *)
Definition cost (a : actor) : nat := match a with Spurious => 3 | _ => 0 end.
Definition costs (sched : list (actor * Z)) : nat := sum_list_with (λ x, cost x.1) sched.

Lemma step_measure a now s s' : inv s → step reps a now s = Ok s' → (measure s' < measure s + cost a)%nat.
Proof.
  intros HI. destruct a as [|t|]; cbn [step cost].
  - intros H%main_step_measure; [lia|done].
  - destruct (decide _); [|done]. intros H%worker_step_measure; [lia|done].
  - destruct (main s) eqn:Hm; try done. intros [= <-]. unfold measure. rewrite Hm. cbn. lia.
Qed.

Lemma run_inv sched n s : inv s → ∃ n' s', run reps sched n s = Ok (n', s') ∧ inv s' ∧ (n' + measure s' ≤ n + measure s + costs sched)%nat.
Proof.
  revert n s. induction sched as [|[a now] sched IH]; intros n s HI; [exists n, s; split_and!; [done|done|cbn; lia]|].
  cbn [run]. pose proof (step_fine reps a now s HI) as Hf. unfold costs. cbn [sum_list_with fst].
  change (sum_list_with _ sched) with (costs sched). destruct (step reps a now s) as [s1|e] eqn:Hs.
  - pose proof (step_measure _ _ _ _ HI Hs). destruct (IH (S n) s1 Hf) as (n'&s'&Hr&HI'&Hle). exists n', s'. split_and!; [done|done|lia].
  - cbn in Hf. subst e. destruct (IH n s HI) as (n'&s'&Hr&HI'&Hle). exists n', s'. split_and!; [done|done|lia].
Qed.
End termination.

(** ** Progress *)

(** Of threads at different places of the ring, one at least finds the next place
    free: there are more places than threads. *)
Definition places : list (option nat) := [None; Some 0; Some 1; Some 2; Some 3; Some 4]%nat.
Definition apart (a b : option nat) : bool := match a, b with Some x, Some y => negb (x =? y)%nat | _, _ => true end.
Definition ring_moves (l : list (option nat)) : bool :=
  existsb (λ a, match a with Some x => negb (existsb (λ b, match b with Some y => (y =? next x)%nat | None => false end) l) | None => false end) l.
Definition ring_check (a b c d : option nat) : bool :=
  implb (apart a b && apart a c && apart a d && apart b c && apart b d && apart c d && existsb (λ x, match x with Some _ => true | None => false end) [a; b; c; d])
    (ring_moves [a; b; c; d]).

Lemma ring_checked : forallb (λ a, forallb (λ b, forallb (λ c, forallb (λ d, ring_check a b c d) places) places) places) places = true.
Proof. by vm_compute. Qed.

Lemma ring_moves_spec (f : nat → option nat) : (∀ t x, f t = Some x → (x < CONTENTION_MUTEX_COUNT)%nat) →
  (∀ t u x, below t → below u → f t = Some x → f u = Some x → t = u) → (∃ t, below t ∧ is_Some (f t)) →
  ∃ t x, below t ∧ f t = Some x ∧ ∀ u, below u → f u ≠ Some (next x).
Proof.
  intros Hlt Hap Hsome.
  assert (∀ t, In (f t) places) as Hin.
  { intros t. destruct (f t) as [x|] eqn:Hf; [|by left]. apply Hlt in Hf. unfold CONTENTION_MUTEX_COUNT in Hf.
    destruct x as [|[|[|[|[|]]]]]; cbn; auto 10. lia. }
  assert (∀ t u, below t → below u → t ≠ u → apart (f t) (f u) = true) as Hapart.
  { intros t u Ht Hu Hne. unfold apart. destruct (f t) as [x|] eqn:Hx; [|done]. destruct (f u) as [y|] eqn:Hy; [|done].
    apply negb_true_iff, Nat.eqb_neq. intros ->. by apply Hne, (Hap t u y). }
  assert (ring_check (f 0) (f 1) (f 2) (f 3) = true)%nat as H.
  { pose proof ring_checked as H. rewrite forallb_forall in H. specialize (H _ (Hin 0%nat)). rewrite forallb_forall in H. specialize (H _ (Hin 1%nat)).
    rewrite forallb_forall in H. specialize (H _ (Hin 2%nat)). rewrite forallb_forall in H. exact (H _ (Hin 3%nat)). }
  assert (∀ t, below t → In (f t) [f 0; f 1; f 2; f 3])%nat as Hall.
  { unfold below, CONTENTION_THREAD_COUNT. intros t Ht. destruct t as [|[|[|[|]]]]; cbn; auto. lia. }
  assert (∀ a, In a [f 0; f 1; f 2; f 3] → ∃ t, below t ∧ f t = a)%nat as Hback.
  { intros a [<-|[<-|[<-|[<-|[]]]]]; eexists; (split; [|done]); unfold below, CONTENTION_THREAD_COUNT; lia. }
  unfold ring_check in H. rewrite !Hapart in H by (done || (unfold below, CONTENTION_THREAD_COUNT; lia)). cbn [andb] in H.
  replace (existsb _ _) with true in H.
  2: { symmetry. apply existsb_exists. destruct Hsome as (t&Ht&x&Hx). exists (f t). split; [by apply Hall|by rewrite Hx]. }
  cbn [implb] in H. apply existsb_exists in H as (a&Ha&H). destruct a as [x|]; [|done]. apply Hback in Ha as (t&Ht&Hx).
  exists t, x. split; [done|]. split; [done|]. intros u Hu Hfu. apply negb_true_iff in H. apply not_true_iff_false in H. apply H.
  apply existsb_exists. exists (f u). split; [by apply Hall|]. rewrite Hfu. apply Nat.eqb_refl.
Qed.

Section progress.
Context (reps : Z) (s : state) (HI : inv s).

(** A thread that does not have to wait. *)
Definition can (a : actor) : Prop := ∀ now, ∃ s', step reps a now s = Ok s'.

Lemma can_step a : (∀ now, step reps a now s ≠ Err Blocked) → can a.
Proof.
  intros Hb now. pose proof (step_fine reps a now s HI) as Hf. destruct (step reps a now s) as [s'|e] eqn:E; [by eexists|].
  cbn in Hf. subst e. by destruct (Hb now).
Qed.

(** The places in front of a [pthread_mutex_lock]. *)
Definition locks (t : nat) : option mutex :=
  let w := workers s t in
  match pc w with
  | LockFirst => Some (Ring (i w)) | LockReady => Some Ready | LockStart => Some (Start t) | LockNext => Some (Ring (next (i w))) | _ => None
  end.

Lemma worker_can t : below t → pc (workers s t) ≠ NotCreated → pc (workers s t) ≠ Finished →
  match locks t with Some m => owners s m = None | None => True end → can (AWorker t).
Proof.
  intros Ht H1 H2 Hl. apply can_step. intros now. cbn [step]. rewrite decide_True by done. unfold worker_step, locks in *.
  destruct (pc (workers s t)); try done; unfold lock, unlock; rewrite ?Hl; try (destruct (decide _)); done.
Qed.

Lemma not_created t : pc (workers s t) ≠ NotCreated → below t.
Proof. intros H. destruct (decide (below t)); [done|]. by destruct H; apply (inv_outside _ HI). Qed.

(** The threads that hold a mutex of the ring, or the mutex of the barrier. *)
Lemma ring_holder t x : Ring x ∈ worker_holds t (workers s t) →
  x = i (workers s t) ∨ pc (workers s t) = UnlockPrev.
Proof. unfold worker_holds. destruct (pc (workers s t)) eqn:E; rewrite ?elem_of_cons, ?elem_of_nil; naive_solver. Qed.
Lemma ready_holder t : Ready ∈ worker_holds t (workers s t) → pc (workers s t) = CountReady ∨ pc (workers s t) = UnlockReady.
Proof. unfold worker_holds. destruct (pc (workers s t)) eqn:E; rewrite ?elem_of_cons, ?elem_of_nil; naive_solver. Qed.
Lemma main_not_ring x : Ring x ∉ main_holds (main s).
Proof.
  destruct (main s); cbn [main_holds]; rewrite ?elem_of_cons, ?elem_of_nil; try tauto; try (intros H; by apply only_starts in H as [? ?]).
  - intros [?|H]; [done|]. by apply only_starts in H as [? ?].
  - intros [?|H]; [done|]. by apply only_starts in H as [? ?].
Qed.
Lemma main_ready : Ready ∈ main_holds (main s) → main s = TestCount ∨ main s = MUnlockReady.
Proof.
  destruct (main s); cbn [main_holds]; rewrite ?elem_of_cons, ?elem_of_nil; try tauto; intros H; by apply only_starts in H as [? ?].
Qed.

Lemma main_can : match main s with Create _ | MLockReady | Relock | Waiting | Join _ | Ended => False | _ => True end → can AMain.
Proof.
  intros Hm. apply can_step. intros now. cbn [step]. unfold main_step. destruct (main s) as [k| | | | | |k|k| | |]; try done.
  - destruct (_ <? _); [|done]. unfold unlock. by destruct (decide _).
  - unfold unlock. by destruct (decide _).
  - destruct (decide _); [|done]. unfold unlock. by destruct (decide _).
  - unfold destroy_all. cbn [seq foldr CONTENTION_MUTEX_COUNT rbind]. unfold destroy. repeat (case_decide; cbn [rbind]; try done).
Qed.

(** Who waits for the mutex of the barrier waits for a thread that can go on. *)
Lemma ready_progress a : a ≠ Spurious → (owners s Ready = None → can a) → ∃ a, a ≠ Spurious ∧ can a.
Proof.
  intros Ha Hc. destruct (owners s Ready) as [[|t]|] eqn:Ho; [| |by exists a; auto].
  - apply (inv_owners _ HI), main_ready in Ho. exists AMain. split; [done|]. apply main_can. by destruct Ho as [-> | ->].
  - apply (inv_owners _ HI), ready_holder in Ho. exists (AWorker t). split; [done|].
    assert (below t) by (apply not_created; by destruct Ho as [-> | ->]).
    apply worker_can; [done|by destruct Ho as [-> | ->]..|]. unfold locks. by destruct Ho as [-> | ->].
Qed.

Lemma waiting_progress : main s = Waiting → ∃ a, a ≠ Spurious ∧ can a.
Proof.
  intros Hm. pose proof (inv_waiting _ HI Hm) as Hlt. pose proof (inv_count _ HI) as Hc.
  assert (∃ t, below t ∧ place (pc (workers s t)) < 4) as (t&Ht&Hp).
  { unfold below, CONTENTION_THREAD_COUNT, is_counted in *.
    destruct (Z.leb_spec 4 (place (pc (workers s 0%nat)))); [|exists 0%nat; by auto with lia].
    destruct (Z.leb_spec 4 (place (pc (workers s 1%nat)))); [|exists 1%nat; by auto with lia].
    destruct (Z.leb_spec 4 (place (pc (workers s 2%nat)))); [|exists 2%nat; by auto with lia].
    destruct (Z.leb_spec 4 (place (pc (workers s 3%nat)))); [|exists 3%nat; by auto with lia]. lia. }
  destruct (inv_workers _ HI t Ht) as [_ Hcr Hearly _ _ _]. rewrite Hm in Hcr. cbn [created] in Hcr.
  assert (pc (workers s t) ≠ NotCreated) as Hnc by tauto. destruct (pc (workers s t)) eqn:Hpc; cbn in Hp; try lia; [done| | |].
  - exists (AWorker t). split; [done|]. apply worker_can; rewrite ?Hpc; [done..|]. unfold locks. rewrite Hpc, Hearly by (cbn; lia).
    apply (nobody s HI); [apply main_not_ring|]. intros u Hu. pose proof (ring_holder _ _ Hu) as Hi.
    assert (pc (workers s u) ≠ NotCreated) as Hnu by (intros Hn; unfold worker_holds in Hu; rewrite Hn in Hu; by apply elem_of_nil in Hu).
    pose proof (not_created _ Hnu) as Hbu. destruct (inv_workers _ HI u Hbu) as [_ _ Hearlyu Hrelu _ _]. rewrite Hm in Hrelu. cbn [released] in Hrelu.
    assert (place (pc (workers s u)) ≤ 5) as Hpu by lia. destruct Hi as [->|Hi]; [|rewrite Hi in Hpu; cbn in Hpu; lia].
    rewrite Hearlyu in * by lia. unfold worker_holds in Hu. rewrite Hpc in Hu. by apply elem_of_nil in Hu.
  - apply (ready_progress (AWorker t)); [done|]. intros Hr. apply worker_can; rewrite ?Hpc; [done..|]. unfold locks. by rewrite Hpc.
  - exists (AWorker t). split; [done|]. apply worker_can; rewrite ?Hpc; [done..|]. unfold locks. by rewrite Hpc.
Qed.

Lemma join_progress k : main s = Join k → ∃ a, a ≠ Spurious ∧ can a.
Proof.
  intros Hm. destruct (decide (below k)) as [Hk|Hk]; [destruct (decide (pc (workers s k) = Finished)) as [Hf|Hf]|].
  - exists AMain. split; [done|]. apply can_step. intros now. cbn [step]. unfold main_step. rewrite Hm, decide_True, decide_True by done.
    unfold destroy. by case_decide.
  - assert (∀ t, below t → pc (workers s t) ≠ NotCreated ∧ 4 ≤ place (pc (workers s t))) as Hall.
    { intros t Ht. destruct (inv_workers _ HI t Ht) as [_ Hcr _ _ Hcd _]. rewrite Hm in *. cbn in Hcr, Hcd. split; [tauto|auto]. }
    (* the places of the threads that want to move on in the ring *)
    set (f := λ t, if decide (pc (workers s t) = LockNext) then Some (i (workers s t)) else None).
    assert ((∃ t, below t ∧ pc (workers s t) ≠ Finished ∧ pc (workers s t) ≠ LockNext) ∨
      (∀ t, below t → pc (workers s t) = Finished ∨ pc (workers s t) = LockNext)) as [(t&Ht&H1&H2)|Hloop].
    { destruct (decide (Exists (λ t, pc (workers s t) ≠ Finished ∧ pc (workers s t) ≠ LockNext) (seq 0 CONTENTION_THREAD_COUNT))) as [He|He].
      - left. apply Exists_exists in He as (t&Ht%elem_of_seq&H). exists t. split; [unfold below; lia|done].
      - right. intros t Ht. apply dec_stable. intros H. apply He, Exists_exists. exists t. rewrite elem_of_seq. unfold below in Ht. split; [lia|tauto]. }
    + exists (AWorker t). split; [done|]. destruct (Hall t Ht) as [H3 H4]. apply worker_can; [done..|]. unfold locks.
      destruct (pc (workers s t)) eqn:Hpc; cbn in H4; try lia; try done.
      apply (nobody s HI); [rewrite Hm; apply not_elem_of_nil|]. intros u Hu%start_holder. destruct Hu as [-> Hu]. congruence.
    + destruct (ring_moves_spec f) as (t&x&Ht&Hx&Hfree).
      * intros t x. unfold f. case_decide; [|done]. intros [= <-]. destruct (decide (below t)) as [Ht|Ht]; [by apply (inv_workers _ HI t)|].
        pose proof (inv_outside _ HI t Ht). congruence.
      * intros t u x Ht Hu. unfold f. do 2 (case_decide; [|done]). intros [= Htx] [= Hux].
        assert (owners s (Ring x) = Some (Worker t)) as Ho1 by (apply (inv_owners _ HI); cbn; unfold worker_holds; rewrite H, Htx; by left).
        assert (owners s (Ring x) = Some (Worker u)) as Ho2 by (apply (inv_owners _ HI); cbn; unfold worker_holds; rewrite H0, Hux; by left).
        congruence.
      * exists k. split; [done|]. unfold f. destruct (Hloop k Hk) as [?|Hl]; [done|]. rewrite decide_True by done. by eexists.
      * unfold f in Hx. case_decide as Hpc; [|done]. injection Hx as <-. exists (AWorker t). split; [done|].
        apply worker_can; rewrite ?Hpc; [done..|]. unfold locks. rewrite Hpc. apply (nobody s HI); [apply main_not_ring|]. intros u Hu.
        assert (pc (workers s u) ≠ NotCreated) as Hnu by (intros Hn; unfold worker_holds in Hu; rewrite Hn in Hu; by apply elem_of_nil in Hu).
        pose proof (not_created _ Hnu) as Hbu. destruct (Hloop u Hbu) as [Hfu|Hlu]; [rewrite (finished_holds s u Hfu) in Hu; by apply elem_of_nil in Hu|].
        destruct (ring_holder _ _ Hu) as [Hi|Hi]; [|congruence]. apply (Hfree u Hbu). unfold f. by rewrite decide_True, Hi by done.
  - exists AMain. split; [done|]. apply can_step. intros now. cbn [step]. unfold main_step. by rewrite Hm, decide_False.
Qed.

Lemma progress : main s ≠ Ended → ∃ a, a ≠ Spurious ∧ can a.
Proof.
  intros He. destruct (main s) as [k| | | | | |k|k| | |] eqn:Hm; try done; try (by apply waiting_progress); try (by apply (join_progress k));
    try (exists AMain; split; [done|]; apply main_can; by rewrite Hm).
  - exists AMain. split; [done|]. apply can_step. intros now. cbn [step]. unfold main_step. rewrite Hm. destruct (decide _) as [Hk|]; [|done].
    unfold lock. rewrite (nobody s HI); [done| |].
    + rewrite Hm. cbn [main_holds]. rewrite elem_of_starts. lia.
    + intros t Ht%start_holder. destruct Ht as [-> Ht]. pose proof (ok_created _ _ (inv_workers _ HI k Hk)) as Hc. rewrite Hm, Ht in Hc. cbn in Hc.
      assert (UnlockStart = NotCreated) by (apply Hc; lia). done.
  - apply (ready_progress AMain); [done|]. intros Hr. apply can_step. intros now. cbn [step]. unfold main_step. rewrite Hm. unfold lock. by rewrite Hr.
  - apply (ready_progress AMain); [done|]. intros Hr. apply can_step. intros now. cbn [step]. unfold main_step. rewrite Hm. unfold lock. by rewrite Hr.
Qed.
End progress.

(** ** The result *)

(** The times that [contention] reports cover those of all threads. *)
Definition covers (s : state) : Prop :=
  (∀ t, below t → res_start s ≤ start (workers s t) ∧ stop (workers s t) ≤ res_stop s) ∧
  (∃ t, below t ∧ res_start s = start (workers s t)) ∧ ∃ t, below t ∧ res_stop s = stop (workers s t).

Lemma fold_least (ws : list worker) a : let r := fold_left (λ a w, if start w <? a then start w else a) ws a in
  r ≤ a ∧ (∀ w, w ∈ ws → r ≤ start w) ∧ (r = a ∨ ∃ w, w ∈ ws ∧ r = start w).
Proof.
  revert a. induction ws as [|w ws IH]; intros a; cbn [fold_left]; cbn zeta.
  { split_and!; [lia| |by left]. intros w Hw. by apply elem_of_nil in Hw. }
  destruct (IH (if start w <? a then start w else a)) as (H1&H2&H3). cbn zeta in *.
  destruct (Z.ltb_spec (start w) a); (split_and!; [lia|intros x [->|Hx]%elem_of_cons; [lia|by apply H2]|]).
  - right. destruct H3 as [H3|(x&Hx&H3)]; [exists w|exists x]; split; [by left|done|by right|done].
  - destruct H3 as [H3|(x&Hx&H3)]; [by left|right; exists x; split; [by right|done]].
Qed.

Lemma fold_greatest (ws : list worker) b : let r := fold_left (λ b w, if b <? stop w then stop w else b) ws b in
  b ≤ r ∧ (∀ w, w ∈ ws → stop w ≤ r) ∧ (r = b ∨ ∃ w, w ∈ ws ∧ r = stop w).
Proof.
  revert b. induction ws as [|w ws IH]; intros b; cbn [fold_left]; cbn zeta.
  { split_and!; [lia| |by left]. intros w Hw. by apply elem_of_nil in Hw. }
  destruct (IH (if b <? stop w then stop w else b)) as (H1&H2&H3). cbn zeta in *.
  destruct (Z.ltb_spec b (stop w)); (split_and!; [lia|intros x [->|Hx]%elem_of_cons; [lia|by apply H2]|]).
  - right. destruct H3 as [H3|(x&Hx&H3)]; [exists w|exists x]; split; [by left|done|by right|done].
  - destruct H3 as [H3|(x&Hx&H3)]; [by left|right; exists x; split; [by right|done]].
Qed.

Lemma compute_covers s : covers (compute s).
Proof.
  unfold covers, compute. set (ws := map _ _).
  destruct (fold_least ws (start (workers s 0%nat))) as (A1&A2&A3). destruct (fold_greatest ws (stop (workers s 0%nat))) as (B1&B2&B3).
  cbn [set_res res_start res_stop workers]. cbn zeta in *.
  assert (∀ t, below t → t ≠ 0%nat → workers s t ∈ ws) as Hin.
  { intros t Ht Hne. apply list_elem_of_fmap. exists t. split; [done|]. apply elem_of_seq. unfold below in Ht. lia. }
  assert (∀ w, w ∈ ws → ∃ t, below t ∧ w = workers s t) as Hout.
  { intros w (t&->&Ht%elem_of_seq)%list_elem_of_fmap. exists t. split; [|done]. unfold below, CONTENTION_THREAD_COUNT in *. lia. }
  assert (below 0) as H0 by (unfold below, CONTENTION_THREAD_COUNT; lia). split_and!.
  - intros t Ht. destruct (decide (t = 0%nat)) as [->|Hne]; [done|]. split; [apply A2|apply B2]; by apply Hin.
  - destruct A3 as [A3|(w&(t&Ht&->)%Hout&A3)]; [by exists 0%nat|by exists t].
  - destruct B3 as [B3|(w&(t&Ht&->)%Hout&B3)]; [by exists 0%nat|by exists t].
Qed.

(** At the end there is a result. *)
Definition ended_ok (s : state) : Prop := main s = Ended → covers s.

Lemma main_step_ended s s' : main_step s = Ok s' → main s' = Ended → covers s'.
Proof.
  unfold main_step. destruct (main s) as [k| | | | | |k|k| | |] eqn:Hm; try done.
  9: { intros [= <-] _. exact (compute_covers s). }
  all: intros Hs Hm'; exfalso; revert Hs; try destruct (decide _); try destruct (_ <? _);
    try (by intros [= <-]); try (by intros (?&_&[= <-]&_)%rbind_lock_inv); try (by intros (?&_&[= <-]&_)%rbind_unlock_inv).
  - destruct (decide _); [|done]. by intros [= <-]%rbind_destroy_inv.
  - destruct (destroy_all s) as [s1|] eqn:Hd; [|done]. by intros [= <-].
Qed.

Lemma worker_step_main reps t now s s' : worker_step reps t now s = Ok s' → main s' = main s ∨ main s' = awake (main s).
Proof.
  unfold worker_step. destruct (pc (workers s t)); try done;
    try (intros (s1&_&[= <-]&_&Hm1)%rbind_lock_inv; by left); try (intros (s1&_&[= <-]&_&Hm1)%rbind_unlock_inv; by left);
    try (intros [= <-]; by left).
  intros [= <-]. destruct (_ =? _); [|by left]. rewrite signal_eq. by right.
Qed.

Lemma step_ended reps a now s s' : inv s → ended_ok s → step reps a now s = Ok s' → ended_ok s'.
Proof.
  intros HI He Hs Hm'. destruct a as [|t|]; cbn [step] in Hs.
  - by apply (main_step_ended s).
  - destruct (decide _) as [Ht|]; [|done]. exfalso.
    assert (main s = Ended) as Hm by (destruct (worker_step_main _ _ _ _ _ Hs) as [H|H]; rewrite H in Hm'; [done|by destruct (main s)]).
    pose proof (ok_joined _ _ (inv_workers _ HI t Ht)) as Hj. rewrite Hm in Hj. unfold worker_step in Hs. by rewrite Hj in Hs.
  - destruct (main s); try done. by injection Hs as <-.
Qed.

Lemma run_ended reps sched n s n' s' : inv s → ended_ok s → run reps sched n s = Ok (n', s') → ended_ok s'.
Proof.
  revert n s. induction sched as [|[a now] sched IH]; intros n s HI He; cbn [run]; [by intros [= <- <-]|].
  pose proof (step_fine reps a now s HI) as Hf. destruct (step reps a now s) as [s1|e] eqn:Hs.
  - apply IH; [done|exact (step_ended _ _ _ _ _ HI He Hs)].
  - cbn in Hf. subst e. by apply IH.
Qed.

Lemma all_free s : inv s → main s = Ended → ∀ m, owners s m = None.
Proof.
  intros HI Hm m. apply (nobody s HI); [rewrite Hm; apply not_elem_of_nil|]. intros t.
  rewrite all_finished_holds; [apply not_elem_of_nil|done|]. intros u Hu. apply (ok_joined _ _ (inv_workers _ HI u Hu)). by rewrite Hm.
Qed.

(** ** Properties *)

(** C16: in no schedule of [contention] does a thread unlock a mutex that it does not
    hold, or is a locked mutex destroyed; two threads never hold the same mutex; and
    when [contention] ends, no mutex is locked, all threads have ended, and the times
    that it reports are the first start and the last stop of a thread. *)
Theorem contention_safe reps sched : ∃ n s, run reps sched 0 init = Ok (n, s) ∧
  (∀ t u m, m ∈ holds s (Worker t) → m ∈ holds s (Worker u) → t = u) ∧
  (main s = Ended → (∀ m, owners s m = None) ∧ (∀ t, below t → pc (workers s t) = Finished) ∧ covers s).
Proof.
  destruct (run_inv reps sched 0 init init_inv) as (n&s&Hr&HI&_). exists n, s. split; [done|]. split.
  - intros t u m H1%(inv_owners _ HI) H2%(inv_owners _ HI). congruence.
  - intros Hm. split; [by apply all_free|]. split; [|by apply (run_ended reps sched 0 init n s init_inv)].
    intros t Ht. apply (ok_joined _ _ (inv_workers _ HI t Ht)). by rewrite Hm.
Qed.

(** C15: [contention] has no deadlock and ends: at any time some thread can take a step
    without a spurious wake-up, as long as the main thread has not ended, and a
    schedule has at most a fixed number of steps more than three for each spurious
    wake-up. *)
Theorem contention_ends reps sched n s : run reps sched 0 init = Ok (n, s) →
  (main s = Ended ∨ ∃ a, a ≠ Spurious ∧ ∀ now, ∃ s', step reps a now s = Ok s') ∧
  (n ≤ 124 + 12 * rest reps 1 + costs sched)%nat.
Proof.
  intros Hr. destruct (run_inv reps sched 0 init init_inv) as (n'&s'&Hr'&HI&Hle). rewrite Hr in Hr'. injection Hr' as <- <-. split.
  - destruct (main s) eqn:Hm; try (right; destruct (progress reps s HI) as (a&Ha&Hc); [by rewrite Hm|by exists a]). by left.
  - unfold measure, total, worker_measure in Hle. cbn [init main workers pc main_measure] in Hle. lia.
Qed.

(** Round after round, each thread takes a step when it can. *)
Definition rounds (n : nat) : list (actor * Z) :=
  flat_map (λ x, [(AMain, Z.of_nat x); (AWorker 0, Z.of_nat x); (AWorker 1, Z.of_nat x); (AWorker 2, Z.of_nat x); (AWorker 3, Z.of_nat x)]) (seq 0 n).

Definition after (reps : Z) (sched : list (actor * Z)) : nat * state :=
  match run reps sched 0 init with Ok x => x | Err _ => (0%nat, init) end.

Lemma contention_safe_witness : ∃ n s, run 12 (rounds 60) 0 init = Ok (n, s) ∧
  (∀ t u m, m ∈ holds s (Worker t) → m ∈ holds s (Worker u) → t = u) ∧
  (main s = Ended → (∀ m, owners s m = None) ∧ (∀ t, below t → pc (workers s t) = Finished) ∧ covers s).
Proof. apply (contention_safe 12 (rounds 60)). Defined.

(** It has ended after these rounds. *)
Example contention_run : main (after 12 (rounds 60)).2 = Ended.
Proof. by vm_compute. Qed.

Lemma contention_ends_witness : main (after 12 (rounds 10)).2 ≠ Ended ∧
  ((main (after 12 (rounds 10)).2 = Ended ∨ ∃ a, a ≠ Spurious ∧ ∀ now, ∃ s', step 12 a now (after 12 (rounds 10)).2 = Ok s') ∧
  ((after 12 (rounds 10)).1 ≤ 124 + 12 * rest 12 1 + costs (rounds 10))%nat).
Proof.
  split; [by vm_compute|]. apply contention_ends. unfold after. destruct (run 12 (rounds 10) 0 init) as [[n s]|] eqn:E; [done|].
  destruct (run_inv 12 (rounds 10) 0 init init_inv) as (?&?&Hr&_). congruence.
Defined.
