(* ===== verification/MutexReport.v ===== *)
(** * What mutex-perf/mutexperf.c measures and prints

    [measure] and [main] over the transition system of MutexPerf: ten runs of
    [contention], one after the other, and the two numbers that are printed.  The
    values of [now_usecs] are those of the schedule. *)
From S2P Require Import Prelude MutexPerf.
From stdpp Require Import list sorting.
#[local] Open Scope Z_scope.

(** ** The program *)

Definition SETS : nat := 10.

Definition cmp_int64 (a b : Z) : Z := if a <? b then -1 else if b <? a then 1 else 0.

(** [qsort] puts the elements in an order that [cmp_int64] allows. *)
Definition not_after (a b : Z) : Prop := cmp_int64 a b ≤ 0.
#[export] Instance not_after_dec : RelDecision not_after.
Proof. intros a b. unfold not_after. apply _. Defined.
Definition qsort (times : list Z) : list Z := merge_sort not_after times.

(** Where [measure] is: in a call of [test], behind the loop, or at its end. *)
Inductive measure_pc := Test (s : state) | Report | Returned.
Record program := mk_program { at_ : measure_pc; times : list Z; output : option (Z * Z) }.

Definition ended (s : state) : bool := match main s with Ended => true | _ => false end.

Section measure.
Context (reps : Z).

(** [(int) (t * 1000 / reps)] *)
Definition nanos (t : Z) : result Z :=
  rbind (int64 (t * 1000)) (λ x, if reps =? 0 then Err Undefined else rbind (int64 (Z.quot x reps)) (λ y, Ok (i32 y))).

Definition report (times : list Z) : result (Z * Z) :=
  let times := qsort times in
  match times !! 0%nat, times !! (SETS / 2)%nat with
  | Some best, Some median => rbind (nanos best) (λ a, rbind (nanos median) (λ b, Ok (a, b)))
  | _, _ => Err Undefined
  end.

(** [contention] returns when its main thread has ended. *)
Definition measure_step (a : actor) (now : Z) (p : program) : result program :=
  match at_ p with
  | Test s =>
      if ended s then
        match a with
        | AMain =>
            rbind (int64 (res_stop s - res_start s)) (λ t,
              let times := times p ++ [t] in
              Ok (mk_program (if (length times <? SETS)%nat then Test init else Report) times None))
        | _ => Err Blocked
        end
      else rbind (step reps a now s) (λ s, Ok (mk_program (Test s) (times p) None))
  | Report =>
      match a with
      | AMain => rbind (report (times p)) (λ o, Ok (mk_program Returned (times p) (Some o)))
      | _ => Err Blocked
      end
  | Returned => Err Blocked
  end.

Fixpoint measure_run (sched : list (actor * Z)) (n : nat) (p : program) : result (nat * program) :=
  match sched with
  | [] => Ok (n, p)
  | (a, now) :: sched =>
      match measure_step a now p with
      | Ok p => measure_run sched (S n) p
      | Err Blocked => measure_run sched n p
      | Err e => Err e
      end
  end.

Definition measure : list (actor * Z) → result (nat * program) := λ sched, measure_run sched 0 (mk_program (Test init) [] None).
End measure.

Definition main_reps : Z := 100000.
Definition main : list (actor * Z) → result (nat * program) := measure main_reps.

(** ** The clock *)

(** The clock does not go back. *)
Fixpoint ticking (c : Z) (sched : list (actor * Z)) : Prop :=
  match sched with [] => True | (_, now) :: sched => c ≤ now ∧ ticking now sched end.

(** The times that the threads have read, between [lo] and now. *)
Definition timed (lo c : Z) (w : worker) : Prop :=
  (8 ≤ place (pc w) → lo ≤ start w ≤ c) ∧ (10 ≤ place (pc w) → start w ≤ stop w ≤ c).
Definition all_timed (lo c : Z) (s : state) : Prop := ∀ t, timed lo c (workers s t).

Lemma timed_later lo c c' w : c ≤ c' → timed lo c w → timed lo c' w.
Proof. intros Hc [H1 H2]. split; intros H; [specialize (H1 H)|specialize (H2 H)]; lia. Qed.

Lemma all_timed_update lo c s ow n m a b t w : all_timed lo c s → timed lo c w → all_timed lo c (mk_state ow n (update t w (workers s)) m a b).
Proof. intros Hs Hw u. cbn [workers]. unfold update. by case_decide. Qed.

Lemma timed_early lo c w : place (pc w) < 8 → timed lo c w.
Proof. intros H. split; lia. Qed.

Lemma worker_step_timed reps t now lo s s' : lo ≤ now → all_timed lo now s → worker_step reps t now s = Ok s' → all_timed lo now s'.
Proof.
  intros Hlo Hs. pose proof (Hs t) as [H1 H2]. unfold worker_step.
  assert (∀ s1 w, workers s1 = workers s → timed lo now w → all_timed lo now (set_worker t w s1)) as Hup.
  { intros s1 w Hw Ht. unfold set_worker. rewrite Hw. by apply (all_timed_update lo now s). }
  destruct (pc (workers s t)) eqn:Hp; try done; cbn [place] in *;
    try (intros (s1&_&[= <-]&Hw&_)%rbind_lock_inv; apply Hup; [done|split; cbn; intros; first [apply H1; lia|apply H2; lia|lia]]);
    try (intros (s1&_&[= <-]&Hw&_)%rbind_unlock_inv; apply Hup; [done|split; cbn; intros; first [apply H1; lia|apply H2; lia|lia]]);
    intros [= <-]; apply Hup.
  - destruct (_ =? _); [|done]. by rewrite signal_eq.
  - by apply timed_early.
  - done.
  - split; cbn; lia.
  - done.
  - split; cbn; intros; [apply H1; lia|]. destruct (_ <? _); cbn in *; lia.
  - done.
  - split; cbn; intros; [apply H1|specialize (H1 ltac:(lia))]; lia.
Qed.

Lemma main_step_timed lo c s s' : all_timed lo c s → main_step s = Ok s' → all_timed lo c s'.
Proof.
  intros Hs. unfold main_step.
  assert (∀ s1 p, workers s1 = workers s → all_timed lo c (set_main p s1)) as Hsame by (intros s1 p Hw t; cbn; rewrite Hw; apply Hs).
  destruct (MutexPerf.main s) as [k| | | | | |k|k| | |]; try done; repeat case_decide; try case_match; try done;
    try (by intros [= <-]; apply Hsame); try (by intros (s1&_&[= <-]&Hw&_)%rbind_lock_inv; apply Hsame);
    try (by intros (s1&_&[= <-]&Hw&_)%rbind_unlock_inv; apply Hsame); try (by intros [= <-]%rbind_destroy_inv; apply Hsame).
  - intros (s1&_&[= <-]&Hw&_)%rbind_lock_inv. apply (all_timed_update lo c s1); [intros t; rewrite Hw; apply Hs|by apply timed_early].
  - destruct (destroy_all s) as [s1|] eqn:Hd; [|done]. apply destroy_all_inv in Hd as ->. intros [= <-]. by apply Hsame.
Qed.

Lemma step_timed reps a now lo s s' : lo ≤ now → all_timed lo now s → step reps a now s = Ok s' → all_timed lo now s'.
Proof.
  intros Hlo Hs. destruct a as [|t|]; cbn [step].
  - by apply main_step_timed.
  - case_decide; [|done]. by apply worker_step_timed.
  - destruct (MutexPerf.main s); try done. by intros [= <-].
Qed.

(** What [contention] reports lies between two readings of the clock. *)
Lemma reported_time lo c s : inv s → ended_ok s → all_timed lo c s → ended s = true → 0 ≤ res_stop s - res_start s ≤ c - lo.
Proof.
  unfold ended. intros HI He Ht Hm. destruct (MutexPerf.main s) eqn:Hend; try done. destruct (He Hend) as (Hall&(t&Hbt&H1)&(u&Hbu&H2)).
  assert (∀ t, below t → lo ≤ start (workers s t) ≤ c ∧ start (workers s t) ≤ stop (workers s t) ≤ c) as Hb.
  { intros v Hv. pose proof (ok_joined _ _ (inv_workers _ HI v Hv)) as Hj. rewrite Hend in Hj. destruct (Ht v) as [T1 T2].
    rewrite Hj in T1, T2 by done. cbn in T1, T2. split; [apply T1; lia|apply T2; lia]. }
  destruct (Hb t Hbt), (Hb u Hbu), (Hall u Hbu), (Hall t Hbt). lia.
Qed.

(** ** What is printed *)

Lemma not_after_le a b : not_after a b ↔ a ≤ b.
Proof. unfold not_after, cmp_int64. destruct (Z.ltb_spec a b); [lia|]. destruct (Z.ltb_spec b a); lia. Qed.
#[local] Instance not_after_total : Total not_after.
Proof. intros a b. rewrite !not_after_le. lia. Qed.
#[local] Instance not_after_trans : Transitive not_after.
Proof. intros a b c. rewrite !not_after_le. lia. Qed.

Lemma sorted_lookup l i j a b : StronglySorted not_after l → l !! i = Some a → l !! j = Some b → (i ≤ j)%nat → a ≤ b.
Proof.
  intros Hs. revert i j. induction Hs as [|x l Hs IH Hall]; intros i j Hi Hj Hij; [done|]. destruct i as [|i], j as [|j]; cbn in *; simplify_eq; [done| |lia|].
  - apply not_after_le. rewrite Forall_forall in Hall. apply Hall. by eapply list_elem_of_lookup_2.
  - apply (IH i j); [done|done|lia].
Qed.

(** [b] is the least of the times, and [m] is one that at least six of ten do not
    exceed and at least five of ten reach. *)
Definition least (b : Z) (times : list Z) : Prop := b ∈ times ∧ ∀ t, t ∈ times → b ≤ t.
Definition middle (m : Z) (times : list Z) : Prop :=
  m ∈ times ∧ (6 ≤ length (filter (λ t, t ≤ m)%Z times))%nat ∧ (5 ≤ length (filter (λ t, m ≤ t)%Z times))%nat.

Lemma filter_all {A} (P : A → Prop) `{∀ x, Decision (P x)} (l k : list A) : (∀ x, x ∈ k → P x) → (length k ≤ length (filter P (k ++ l)))%nat.
Proof.
  intros Hk. rewrite filter_app, length_app. enough (filter P k = k) as -> by lia.
  induction k as [|x k IH]; [done|]. rewrite filter_cons_True by (apply Hk; left). f_equal. apply IH. intros y Hy. apply Hk. by right.
Qed.

Lemma qsort_spec l : length l = SETS → ∃ b m, qsort l !! 0%nat = Some b ∧ qsort l !! (SETS / 2)%nat = Some m ∧ least b l ∧ middle m l.
Proof.
  intros Hlen. pose proof (merge_sort_Permutation not_after l) as Hp. fold (qsort l) in Hp.
  pose proof (StronglySorted_merge_sort not_after l) as Hs. fold (qsort l) in Hs. set (k := qsort l) in *. clearbody k.
  assert (length k = SETS) as Hk by (by rewrite Hp). change (SETS / 2)%nat with 5%nat. unfold SETS in *.
  destruct (lookup_lt_is_Some_2 k 0 ltac:(lia)) as [b Hb]. destruct (lookup_lt_is_Some_2 k 5 ltac:(lia)) as [m Hm].
  exists b, m. split; [done|]. split; [done|]. split; [|split; [|split]].
  - split; [rewrite <- Hp; by eapply list_elem_of_lookup_2|]. intros t. rewrite <- Hp. intros (i&Hi)%list_elem_of_lookup_1.
    apply (sorted_lookup k 0 i); [done..|lia].
  - rewrite <- Hp. by eapply list_elem_of_lookup_2.
  - rewrite <- Hp. rewrite <- (take_drop 6 k). etrans; [|apply filter_all].
    + rewrite length_take. lia.
    + intros x (i&Hi&Hlt)%elem_of_take. by apply (sorted_lookup k i 5 x m Hs Hi Hm ltac:(lia)).
  - rewrite <- Hp, <- (take_drop 5 k), Permutation_app_comm. etrans; [|apply filter_all].
    + rewrite length_drop. lia.
    + intros x (i&Hi)%list_elem_of_lookup_1. rewrite lookup_drop in Hi. by apply (sorted_lookup k 5 (5 + i) m x Hs Hm Hi ltac:(lia)).
Qed.

Lemma nanos_ok t : 0 ≤ t < 2 ^ 31 * 100 → nanos main_reps t = Ok (t / 100).
Proof.
  intros Ht. unfold nanos, main_reps. rewrite int64_ok by lia. cbn [rbind].
  replace (100000 =? 0) with false by done. rewrite Z.quot_div_nonneg by lia. replace (t * 1000 / 100000) with (t / 100).
  2: { change 100000 with (100 * 1000). by rewrite Z.div_mul_cancel_r. }
  assert (0 ≤ t / 100 < 2 ^ 31) by (split; [apply Z.div_pos; lia|apply Z.div_lt_upper_bound; lia]).
  rewrite int64_ok by lia. cbn [rbind]. rewrite wraps_small by lia. done.
Qed.

(** [o] are the numbers for the ten [times], in nanoseconds for one of the repetitions. *)
Definition printed (times : list Z) (o : option (Z * Z)) : Prop :=
  ∃ b m, least b times ∧ middle m times ∧ o = Some (b / 100, m / 100).

Lemma report_ok d l : length l = SETS → Forall (λ t, 0 ≤ t ≤ d) l → d < 2 ^ 31 * 100 → ∃ o, report main_reps l = Ok o ∧ printed l (Some o).
Proof.
  intros Hlen Hl Hd. destruct (qsort_spec l Hlen) as (b&m&Hb&Hm&Hlb&Hmm). unfold report. rewrite Hb, Hm. rewrite Forall_forall in Hl.
  pose proof (Hl b (proj1 Hlb)). pose proof (Hl m (proj1 Hmm)).
  rewrite !nanos_ok by lia. cbn [rbind]. eexists. split; [done|]. by exists b, m.
Qed.

(** ** Every run *)

(** [p] at time [c], when the clock has started at [lo]. *)
Definition sound (lo c : Z) (p : program) : Prop :=
  Forall (λ t, 0 ≤ t ≤ c - lo) (times p) ∧
  match at_ p with
  | Test s => inv s ∧ ended_ok s ∧ all_timed lo c s ∧ (length (times p) < SETS)%nat
  | Report => length (times p) = SETS
  | Returned => length (times p) = SETS ∧ printed (times p) (output p)
  end.

(** The steps that are left, spurious wake-ups apart. *)
Definition round : nat := S (MutexPerf.measure main_reps init).
Definition left_over (p : program) : nat :=
  match at_ p with
  | Test s => (SETS - S (length (times p))) * round + MutexPerf.measure main_reps s + 2
  | Report => 1
  | Returned => 0
  end.

Lemma sound_later lo c c' p : c ≤ c' → sound lo c p → sound lo c' p.
Proof.
  intros Hc [Hl Hp]. split; [eapply Forall_impl; [exact Hl|cbn; lia]|]. destruct (at_ p); [|done|done].
  destruct Hp as (H1&H2&H3&H4). split_and!; [done|done| |done]. intros t. by apply (timed_later lo c).
Qed.

Lemma init_timed lo c : all_timed lo c init.
Proof. intros t. by apply timed_early. Qed.
Lemma init_ended : ended_ok init.
Proof. done. Qed.

Definition sound_step (lo now : Z) (a : actor) (p : program) (r : result program) : Prop :=
  match r with Ok p' => sound lo now p' ∧ (left_over p' < left_over p + cost a)%nat | Err e => e = Blocked end.

Lemma next_test lo now a p s : sound lo now p → now - lo < 2 ^ 31 * 100 → at_ p = Test s → ended s = true →
  sound_step lo now a p (measure_step main_reps a now p).
Proof.
  intros [Hl Hp] Hd Hat He. rewrite Hat in Hp. destruct Hp as (HI&Hok&Ht&Hlen). unfold measure_step. rewrite Hat, He.
  destruct a; [|done|done]. pose proof (reported_time lo now s HI Hok Ht He) as Hr. rewrite int64_ok by lia. cbn [rbind sound_step].
  assert (Forall (λ t, 0 ≤ t ≤ now - lo) (times p ++ [res_stop s - res_start s])) as Hl' by (apply Forall_app; by rewrite Forall_singleton).
  unfold sound, left_over. rewrite Hat. cbn [times at_ output cost]. rewrite length_app. cbn [length].
  destruct (Nat.ltb_spec (length (times p) + 1) SETS) as [Hlt|Hge].
  - split; [split; [done|]; split_and!; [exact init_inv|exact init_ended|apply init_timed|lia]|].
    replace (SETS - S (length (times p)))%nat with (S (SETS - S (length (times p) + 1))) by lia. unfold round. lia.
  - split; [split; [done|]; lia|lia].
Qed.

Lemma measure_step_sound lo c a now p : lo ≤ c → c ≤ now → now - lo < 2 ^ 31 * 100 → sound lo c p → sound_step lo now a p (measure_step main_reps a now p).
Proof.
  intros Hlo Hc Hd Hp%(sound_later lo c now); [|done]. destruct (at_ p) as [s| |] eqn:Hat.
  - destruct (ended s) eqn:He; [by apply (next_test lo now a p s)|]. destruct Hp as [Hl Hp]. rewrite Hat in Hp. destruct Hp as (HI&Hok&Ht&Hlen).
    unfold measure_step. rewrite Hat, He. pose proof (step_fine main_reps a now s HI) as Hf. destruct (step main_reps a now s) as [s'|e] eqn:Hs; [|done].
    cbn [rbind sound_step]. split.
    + split; [done|]. split_and!; [done|by apply (step_ended main_reps a now s)|by apply (step_timed main_reps a now lo s); [lia|..]|done].
    + pose proof (step_measure main_reps a now s s' HI Hs). unfold left_over. rewrite Hat. cbn [at_ times]. lia.
  - destruct Hp as [Hl Hp]. rewrite Hat in Hp. unfold measure_step. rewrite Hat. destruct a; [|done|done].
    destruct (report_ok (now - lo) (times p) Hp Hl Hd) as (o&Ho&Hpr). rewrite Ho. cbn [rbind sound_step]. unfold left_over. rewrite Hat. split; [by split|cbn; lia].
  - unfold measure_step. by rewrite Hat.
Qed.

Lemma measure_run_sound lo hi sched : hi - lo < 2 ^ 31 * 100 → ∀ c n p, lo ≤ c ≤ hi → ticking c sched → Forall (λ x, x.2 ≤ hi) sched → sound lo c p →
  ∃ n' p' c', measure_run main_reps sched n p = Ok (n', p') ∧ lo ≤ c' ≤ hi ∧ sound lo c' p' ∧ (n' + left_over p' ≤ n + left_over p + costs sched)%nat.
Proof.
  intros Hd. induction sched as [|[a now] sched IH]; intros c n p Hlo Ht Hhi Hp; [exists n, p, c; split_and!; [done|lia..|done|cbn; lia]|].
  destruct Ht as [Hnow Ht]. apply Forall_cons in Hhi as [Hle Hhi]. cbn [snd] in Hle. cbn [measure_run].
  pose proof (measure_step_sound lo c a now p ltac:(lia) Hnow ltac:(lia) Hp) as Hs. unfold costs. cbn [sum_list_with fst]. change (sum_list_with _ sched) with (costs sched).
  destruct (measure_step main_reps a now p) as [p1|e]; cbn in Hs.
  - destruct Hs as [Hs Hm]. destruct (IH now (S n) p1 ltac:(lia) Ht Hhi Hs) as (n'&p'&c'&Hr&Hc'&Hs'&Hle'). exists n', p', c'. split_and!; [done|lia..|done|lia].
  - subst e. apply (sound_later lo c now) in Hp; [|done]. destruct (IH now n p ltac:(lia) Ht Hhi Hp) as (n'&p'&c'&Hr&Hc'&Hs'&Hle'). exists n', p', c'. split_and!; [done|lia..|done|lia].
Qed.

(** Some thread can take a step that is not a spurious wake-up. *)
Definition goes_on (p : program) : Prop := ∃ a, a ≠ Spurious ∧ ∀ now, ∃ p', measure_step main_reps a now p = Ok p'.

Lemma sound_goes_on lo c p : lo ≤ c → c - lo < 2 ^ 31 * 100 → sound lo c p → at_ p = Returned ∨ goes_on p.
Proof.
  intros Hlo Hd Hs. pose proof (measure_step_sound lo c AMain c p Hlo ltac:(lia) Hd Hs) as Hstep. unfold goes_on, measure_step in *.
  destruct (at_ p) as [s| |] eqn:Hat; [| |by left]; right; [destruct (ended s) eqn:He|].
  - exists AMain. split; [done|]. intros _. pose proof (next_test lo c AMain p s Hs Hd Hat He) as Hn. unfold measure_step in Hn. rewrite Hat, He in Hn.
    destruct (int64 _) as [t|e] eqn:Ht; [by eexists|]. unfold int64 in Ht. cbn in Hn. subst e. by case_match.
  - destruct Hs as [_ Hs]. rewrite Hat in Hs. destruct Hs as (HI&_). destruct (progress main_reps s HI) as (a&Ha&Hc).
    { unfold ended in He. by destruct (MutexPerf.main s). }
    exists a. split; [done|]. intros now. destruct (Hc now) as (s'&Hs'). rewrite Hs'. by eexists.
  - exists AMain. split; [done|]. intros _. destruct Hs as [Hl Hs]. rewrite Hat in Hs. destruct (report_ok (c - lo) (times p) Hs Hl Hd) as (o&Ho&_).
    rewrite Ho. by eexists.
Qed.

(** C37: (the benchmark reports) whatever the scheduler does, while the clock does not go
    back and passes less than 2^31 times 100 microseconds: the ten runs of
    [contention] one after the other meet no undefined behaviour and no overflow, some
    thread can always go on until [main] returns, which it does within a fixed number
    of steps, three for each spurious wake-up apart; and then it has printed, in
    nanoseconds for a repetition, the least of the ten times and one in their middle. *)
Theorem benchmark_reports lo hi sched : lo ≤ hi → hi - lo < 2 ^ 31 * 100 → ticking lo sched → Forall (λ x, x.2 ≤ hi) sched →
  ∃ n p, main sched = Ok (n, p) ∧ (at_ p = Returned ∨ goes_on p) ∧ (n ≤ 10 * (125 + 12 * rest main_reps 1) + 1 + costs sched)%nat ∧
    (at_ p = Returned → length (times p) = SETS ∧ printed (times p) (output p)).
Proof.
  intros Hlo Hd Ht Hhi. destruct (measure_run_sound lo hi sched Hd lo 0 (mk_program (Test init) [] None) ltac:(lia) Ht Hhi) as (n&p&c&Hr&Hc&Hs&Hle).
  { split; [constructor|]. split_and!; [exact init_inv|exact init_ended|apply init_timed|unfold SETS; cbn; lia]. }
  exists n, p. split; [done|]. split; [by apply (sound_goes_on lo c); [lia..|]|]. split.
  - unfold left_over in Hle at 2. cbn [at_ times length] in Hle. unfold round in Hle.
    assert (MutexPerf.measure main_reps init = 124 + 12 * rest main_reps 1)%nat as Hm by (unfold MutexPerf.measure, MutexPerf.total, worker_measure; cbn [init MutexPerf.main workers pc main_measure]; lia).
    rewrite Hm in Hle. unfold SETS in Hle. lia.
  - intros Hat. destruct Hs as [_ Hs]. by rewrite Hat in Hs.
Qed.

(** ** Examples *)

Lemma benchmark_reports_witness : ∃ n p, main (rounds 10) = Ok (n, p) ∧ (at_ p = Returned ∨ goes_on p) ∧
  (n ≤ 10 * (125 + 12 * rest main_reps 1) + 1 + costs (rounds 10))%nat ∧
  (at_ p = Returned → length (times p) = SETS ∧ printed (times p) (output p)).
Proof.
  apply (benchmark_reports 0 9 (rounds 10)); [done|done|repeat split; done|]. repeat (constructor; [done|]). constructor.
Defined.

(** With twelve repetitions, ten runs are over after 700 rounds. *)
Example measure_returns : match measure 12 (rounds 700) with Ok (_, p) => (length (times p), at_ p) | Err _ => (0%nat, Report) end = (SETS, Returned).
Proof. by vm_compute. Qed.
