(* ===== verification/Utime.v ===== *)
(** * The elapsed time of utime.c

    The two functions of xvector/utime.c, of which xstring and xor-linkedlist have
    copies: the difference of two readings of a clock, and its nanoseconds, which are
    computed in [double]. *)
From Stdlib Require Import ZArith Lia SpecFloat.
From S2P Require Import Prelude.
From stdpp Require Import numbers.
#[local] Open Scope Z_scope.

(** [struct timespec] *)
Record timespec := mk_timespec { tv_sec : Z; tv_nsec : Z }.

Definition timespec_diff (start stop : timespec) : result timespec :=
  rbind (int64 (tv_nsec stop - tv_nsec start)) (λ nsec,
    if nsec <? 0 then
      rbind (int64 (tv_sec stop - tv_sec start)) (λ sec, rbind (int64 (sec - 1)) (λ sec,
        rbind (int64 (nsec + 1000000000)) (λ nsec, Ok (mk_timespec sec nsec))))
    else rbind (int64 (tv_sec stop - tv_sec start)) (λ sec, Ok (mk_timespec sec nsec))).

(** The [double] that is nearest to an integer below [2^1023], the even one of two: it
    has 53 bits.  All values here are integers. *)
Definition double (z : Z) : Z :=
  if Z.abs z <? 2 ^ 53 then z
  else
    let e := Z.log2 (Z.abs z) - 52 in
    let q := Z.abs z / 2 ^ e in
    let r := Z.abs z mod 2 ^ e in
    let q := if (2 * r <? 2 ^ e) || (2 * r =? 2 ^ e) && Z.even q then q else q + 1 in
    Z.sgn z * (q * 2 ^ e).

(** The sum is converted to [unsigned long long], which must have its value. *)
Definition timespec_to_ns (t : timespec) : result Z :=
  let x := double (double (double (tv_sec t) * 1000000000) + double (tv_nsec t)) in
  if bool_decide (0 ≤ x < 2 ^ 64) then Ok x else Err Undefined.

(** ** Rounding *)

Lemma double_exact z : Z.abs z < 2 ^ 53 → double z = z.
Proof. intros H. unfold double. by rewrite (proj2 (Z.ltb_lt _ _)). Qed.

Lemma double_error z : 2 ^ 53 * Z.abs (double z - z) ≤ Z.abs z.
Proof.
  unfold double. destruct (Z.ltb_spec (Z.abs z) (2 ^ 53)) as [|Hz]; [rewrite Z.sub_diag; lia|]. cbn zeta.
  set (a := Z.abs z) in *. set (e := Z.log2 a - 52).
  assert (53 ≤ Z.log2 a) by (by apply Z.log2_le_pow2; lia).
  assert (2 ^ 52 * 2 ^ e ≤ a) as Hle.
  { rewrite <- Z.pow_add_r by lia. replace (52 + e) with (Z.log2 a) by lia. apply Z.log2_spec. lia. }
  assert (0 < 2 ^ e) as He by (apply Z.pow_pos_nonneg; lia).
  pose proof (Z.div_mod a (2 ^ e) ltac:(lia)) as Hdiv. pose proof (Z.mod_pos_bound a (2 ^ e) He) as Hr.
  set (q := a / 2 ^ e) in *. set (r := a mod 2 ^ e) in *.
  set (q' := if (2 * r <? 2 ^ e) || (2 * r =? 2 ^ e) && Z.even q then q else q + 1).
  assert (2 * Z.abs (q' * 2 ^ e - a) ≤ 2 ^ e) as Herr.
  { unfold q'. destruct (Z.ltb_spec (2 * r) (2 ^ e)); [cbn [orb]; nia|]. cbn [orb]. destruct (Z.eqb_spec (2 * r) (2 ^ e)); cbn [andb]; [destruct (Z.even q)|]; nia. }
  clearbody q'. destruct (Z.sgn_spec z) as [[? ->]|[[? ->]|[? ->]]]; subst a; nia.
Qed.

Lemma double_neg z : z < 0 → double z < 0.
Proof. intros H. pose proof (double_error z). lia. Qed.
Lemma double_nonneg z : 0 ≤ z → 0 ≤ double z.
Proof. intros H. pose proof (double_error z). lia. Qed.

(** The definition gives what the formal model of IEEE 754 computes. *)
Definition binary64 (z : Z) : spec_float := binary_normalize 53 1024 z 0 false.
Definition integer (x : spec_float) : option Z :=
  match x with
  | S754_zero _ => Some 0
  | S754_finite s m e => Some ((if s then -1 else 1) * (if 0 <=? e then Z.pos m * 2 ^ e else Z.pos m / 2 ^ (- e)))
  | _ => None
  end.
Definition ieee_to_ns (t : timespec) : option Z :=
  integer (SFadd 53 1024 (SFmul 53 1024 (binary64 (tv_sec t)) (binary64 1000000000)) (binary64 (tv_nsec t))).

Example rounds_as_ieee :
  forallb (λ z, bool_decide (integer (binary64 z) = Some (double z)))
    [0; 1; -1; 2 ^ 53 - 1; 2 ^ 53; 2 ^ 53 + 1; 2 ^ 53 + 2; 2 ^ 53 + 3; - (2 ^ 53 + 1); - (2 ^ 53 + 3); 2 ^ 54 - 1; 2 ^ 54 + 2; 2 ^ 54 + 6; 2 ^ 62 + 2 ^ 9; 2 ^ 62 + 2 ^ 9 + 1;
     2 ^ 62 + 3 * 2 ^ 9; 2 ^ 63 - 1; - 2 ^ 63; 1234567890123456789 * 1000000000; 1700000000 * 1000000000 + 123456789] = true.
Proof. by vm_compute. Qed.

Example elapsed_as_ieee :
  forallb (λ t, bool_decide (ieee_to_ns t = Some (double (double (double (tv_sec t) * 1000000000) + double (tv_nsec t)))))
    [mk_timespec 0 0; mk_timespec 3 999999999; mk_timespec 9007199 254740991; mk_timespec 9007199 254740993; mk_timespec 1700000000 123456789;
     mk_timespec (-1) 999999999; mk_timespec (-9007200) 1; mk_timespec (2 ^ 33 + 1) 17; mk_timespec 9223372036 854775807] = true.
Proof. by vm_compute. Qed.

(** ** Differences *)

Definition nanoseconds (t : timespec) : Z := tv_sec t * 1000000000 + tv_nsec t.
(** What a clock gives. *)
Definition reading (t : timespec) : Prop := 0 ≤ tv_sec t < 2 ^ 63 ∧ 0 ≤ tv_nsec t < 1000000000.

Lemma timespec_diff_ok start stop : reading start → reading stop →
  ∃ d, timespec_diff start stop = Ok d ∧ 0 ≤ tv_nsec d < 1000000000 ∧ nanoseconds d = nanoseconds stop - nanoseconds start.
Proof.
  intros [Hs1 Hn1] [Hs2 Hn2]. unfold timespec_diff, nanoseconds. rewrite int64_ok by lia. cbn [rbind].
  destruct (Z.ltb_spec (tv_nsec stop - tv_nsec start) 0); repeat (rewrite int64_ok by lia; cbn [rbind]);
    (eexists; split; [done|]; cbn [tv_sec tv_nsec]; lia).
Qed.

Lemma to_ns_error t : 0 ≤ tv_nsec t < 1000000000 → 0 ≤ tv_sec t →
  let x := double (double (double (tv_sec t) * 1000000000) + double (tv_nsec t)) in 2 ^ 51 * Z.abs (x - nanoseconds t) ≤ nanoseconds t.
Proof.
  intros Hn Hs. cbn zeta. unfold nanoseconds. rewrite (double_exact (tv_nsec t)) by lia.
  pose proof (double_error (tv_sec t)) as H1. set (s := double (tv_sec t)) in *.
  pose proof (double_error (s * 1000000000)) as H2. set (p := double (s * 1000000000)) in *.
  pose proof (double_error (p + tv_nsec t)) as H3. lia.
Qed.

Lemma to_ns_negative t : 0 ≤ tv_nsec t < 1000000000 → nanoseconds t < 0 → timespec_to_ns t = Err Undefined.
Proof.
  unfold nanoseconds. intros Hn Hneg. unfold timespec_to_ns. rewrite (double_exact (tv_nsec t)) by lia. rewrite bool_decide_false; [done|].
  intros [H _]. revert H. apply Z.lt_nge, double_neg. destruct (decide (- 9007199 ≤ tv_sec t)).
  - rewrite (double_exact (tv_sec t)), double_exact; lia.
  - pose proof (double_error (tv_sec t)) as H1. set (s := double (tv_sec t)) in *. pose proof (double_error (s * 1000000000)). lia.
Qed.

(** C40: (elapsed time) of two readings of a clock, [timespec_diff] has the difference in
    its normal form, without overflow; [timespec_to_ns] has its nanoseconds exactly
    below 2^53, about 104 days, and below 2^63 up to the two roundings; when the second
    reading is the earlier one, the conversion to an unsigned integer is undefined. *)
Theorem elapsed_nanoseconds start stop : reading start → reading stop →
  ∃ d, timespec_diff start stop = Ok d ∧ 0 ≤ tv_nsec d < 1000000000 ∧
    let n := nanoseconds stop - nanoseconds start in
    (0 ≤ n < 2 ^ 53 → timespec_to_ns d = Ok n) ∧
    (0 ≤ n < 2 ^ 63 → ∃ x, timespec_to_ns d = Ok x ∧ 2 ^ 51 * Z.abs (x - n) ≤ n) ∧
    (n < 0 → timespec_to_ns d = Err Undefined).
Proof.
  intros H1 H2. destruct (timespec_diff_ok start stop H1 H2) as (d&Hd&Hn&<-). exists d. split; [done|]. split; [done|]. cbn zeta. split_and!.
  - unfold nanoseconds. intros H. unfold timespec_to_ns. rewrite (double_exact (tv_sec d)), (double_exact (tv_nsec d)), (double_exact (_ * _)), double_exact by lia.
    by rewrite bool_decide_true by lia.
  - intros H. pose proof (to_ns_error d Hn) as He. unfold timespec_to_ns. cbn zeta in He. unfold nanoseconds in *.
    rewrite bool_decide_true by lia. eexists. split; [done|]. apply He. lia.
  - by apply to_ns_negative.
Qed.

Lemma elapsed_nanoseconds_witness :
  ∃ d, timespec_diff (mk_timespec 1 900000000) (mk_timespec 3 100000000) = Ok d ∧ 0 ≤ tv_nsec d < 1000000000 ∧
    let n := 1200000000 in
    (0 ≤ n < 2 ^ 53 → timespec_to_ns d = Ok n) ∧
    (0 ≤ n < 2 ^ 63 → ∃ x, timespec_to_ns d = Ok x ∧ 2 ^ 51 * Z.abs (x - n) ≤ n) ∧
    (n < 0 → timespec_to_ns d = Err Undefined).
Proof. apply (elapsed_nanoseconds (mk_timespec 1 900000000) (mk_timespec 3 100000000)); by repeat split. Defined.
