(* ===== verification/Logfs.v ===== *)
(** * The log device of simple-logfs/logfs.c

    A kernel module: a buffer of 32 pages that programs map, one line in each page,
    and a file of sysfs that shows the lines.  The model has the memory and the
    registrations that the module holds; what the kernel answers to its requests are
    arguments. *)
From S2P Require Import Prelude.
From stdpp Require Import gmap list.
#[local] Open Scope Z_scope.
#[local] Open Scope c_scope.

(** ** State *)

Definition LOG_LINE_BUF_SIZE : Z := 32.
Definition PAGE_SHIFT : Z := 12.
Definition LOG_BUF_OUTPUT_BUF_SIZE : Z := Z.shiftl LOG_LINE_BUF_SIZE PAGE_SHIFT.

(** What kzalloc has given out: a [struct mylog], or the buffer. *)
Inductive object := Mylog (buff : Z) | Buffer.

Record state := mk_state {
  objects : gmap Z object;
  GLOG : Z;
  reserved : gset Z;
  misc_registered : bool;
  mylog_kobj : Z;
  kobjects : gset Z;
}.

Definition with_objects x s := mk_state x (GLOG s) (reserved s) (misc_registered s) (mylog_kobj s) (kobjects s).
Definition with_GLOG x s := mk_state (objects s) x (reserved s) (misc_registered s) (mylog_kobj s) (kobjects s).
Definition with_reserved x s := mk_state (objects s) (GLOG s) x (misc_registered s) (mylog_kobj s) (kobjects s).
Definition with_misc x s := mk_state (objects s) (GLOG s) (reserved s) x (mylog_kobj s) (kobjects s).
Definition with_mylog_kobj x s := mk_state (objects s) (GLOG s) (reserved s) (misc_registered s) x (kobjects s).
Definition with_kobjects x s := mk_state (objects s) (GLOG s) (reserved s) (misc_registered s) (mylog_kobj s) x.

(** The state in which the module is loaded. *)
Definition unloaded : state := mk_state ∅ 0 ∅ false 0 ∅.

(** ** The kernel *)

(** [p] is the address that the allocator has found, or 0. *)
Definition kzalloc (p : Z) (o : object) : M state Z :=
  (if truthy p then modify (λ s, with_objects (<[p := o]> (objects s)) s) else ret tt) ;;
  ret p.
Definition kfree (p : Z) : M state unit :=
  gets_some (λ s, objects s !! p) ;;
  modify (λ s, with_objects (delete p (objects s)) s).
Definition SetPageReserved (p : Z) : M state unit := modify (λ s, with_reserved ({[p]} ∪ reserved s) s).
Definition ClearPageReserved (p : Z) : M state unit := modify (λ s, with_reserved (reserved s ∖ {[p]}) s).
Definition misc_register (r : Z) : M state Z :=
  (if r =? 0 then modify (with_misc true) else ret tt) ;; ret r.
Definition misc_deregister : M state unit := modify (with_misc false).
Definition kobject_create_and_add (p : Z) : M state Z :=
  (if truthy p then modify (λ s, with_kobjects ({[p]} ∪ kobjects s) s) else ret tt) ;; ret p.
Definition kobject_put (p : Z) : M state unit := modify (λ s, with_kobjects (kobjects s ∖ {[p]}) s).

(** ** The module *)

(** [mylog->buff] *)
Definition get_buff (mylog : Z) : M state Z :=
  o ← gets_some (λ s, objects s !! mylog);
  match o with Mylog b => ret b | Buffer => fail Undefined end.
Definition set_buff (mylog b : Z) : M state unit :=
  get_buff mylog ;;
  modify (λ s, with_objects (<[mylog := Mylog b]> (objects s)) s).

Definition ENOMEM : Z := 12.
Definition EINVAL : Z := 22.

Section init.
(** The answers to the requests of [mylog_init]. *)
Context (alloc_mylog alloc_buff register_ret create_kobj sysfs_ret : Z).

Definition err_mylog (r : Z) : M state Z := ret r.
Definition err_buff (r : Z) : M state Z :=
  g ← gets GLOG;
  kfree g ;;
  modify (with_GLOG 0) ;;
  err_mylog r.
Definition err_register (r : Z) : M state Z :=
  g ← gets GLOG;
  b ← get_buff g;
  ClearPageReserved b ;;
  kfree b ;;
  set_buff g 0 ;;
  err_buff r.
Definition err_create_kobj (r : Z) : M state Z :=
  k ← gets mylog_kobj;
  kobject_put k ;;
  err_register r.

Definition mylog_init : M state Z :=
  g ← kzalloc alloc_mylog (Mylog 0);
  modify (with_GLOG g) ;;
  if negb (truthy g) then err_mylog (- ENOMEM)
  else
    b ← kzalloc alloc_buff Buffer;
    set_buff g b ;;
    if negb (truthy b) then err_buff (- ENOMEM)
    else
      SetPageReserved b ;;
      r ← misc_register register_ret;
      if truthy r then err_register r
      else
        k ← kobject_create_and_add create_kobj;
        modify (with_mylog_kobj k) ;;
        if negb (truthy k) then err_create_kobj r
        else if truthy sysfs_ret then err_create_kobj r
        else ret 0.
End init.

Definition mylog_exit : M state unit :=
  k ← gets mylog_kobj;
  kobject_put k ;;
  g ← gets GLOG;
  b ← get_buff g;
  ClearPageReserved b ;;
  kfree b ;;
  set_buff g 0 ;;
  kfree g ;;
  modify (with_GLOG 0) ;;
  misc_deregister.

(** [mylog_open]: the private data of the file. *)
Definition mylog_open : M state Z := gets GLOG.

(** [mylog_mmap]: -EINVAL, or the first page frame and the size that are mapped. *)
Section mmap.
Context (virt_to_phys : Z → Z).

Inductive mapping := Refused (e : Z) | Mapped (pfn size : Z).

Definition mylog_mmap (private_data vm_pgoff vm_start vm_end : Z) : M state mapping :=
  b ← get_buff private_data;
  let pfn_start := u64 (Z.shiftr (virt_to_phys b) PAGE_SHIFT + vm_pgoff) in
  let size := u64 (vm_end - vm_start) in
  if LOG_BUF_OUTPUT_BUF_SIZE <? u64 (u64 (Z.shiftl vm_pgoff PAGE_SHIFT) + size) then ret (Refused (- EINVAL))
  else ret (Mapped pfn_start size).
End mmap.

(** [mylog_show]: [line i] is the string in page [i]; the text in [buf], and the
    result. *)
Definition decimal (i : Z) : list Z := if i <? 10 then [48 + i] else [48 + i / 10; 48 + i mod 10].
Definition format (i : Z) (s : list Z) : list Z := [91] ++ decimal i ++ [93; 58; 32] ++ s ++ [10].

Section show.
Context (line : Z → list Z).

Fixpoint show_loop (n : nat) (i len : Z) (buf : list Z) : list Z * Z :=
  match n with
  | O => (buf, len)
  | S n =>
      let full := format i (line i) in
      let tmp := take 31 full in
      show_loop n (i + 1) (len + Z.of_nat (length full)) (buf ++ take 32 tmp)
  end.

Definition mylog_show (buf : list Z) : list Z * Z := show_loop (Z.to_nat LOG_LINE_BUF_SIZE) 0 0 buf.
End show.

(** ** Lemmas *)

(** The module is loaded, with its two blocks, and registered. *)
Definition loaded (g b k : Z) (s : state) : Prop :=
  objects s = {[g := Mylog b; b := Buffer]} ∧ GLOG s = g ∧ reserved s = {[b]} ∧ misc_registered s = true ∧ mylog_kobj s = k ∧ kobjects s = {[k]}.

(** Nothing is held, but possibly the registration of the device. *)
Definition released (misc : bool) (s : state) : Prop :=
  objects s = ∅ ∧ GLOG s = 0 ∧ reserved s = ∅ ∧ misc_registered s = misc ∧ kobjects s = ∅.

Lemma truthy_true p : p ≠ 0 → truthy p = true.
Proof. intros H. unfold truthy. by rewrite (proj2 (Z.eqb_neq _ _)). Qed.

(** A step of a sequence of kernel calls. *)
Lemma get_buff_run {B} (f : Z → M state B) s g b : objects s !! g = Some (Mylog b) → bind (get_buff g) f s = f b s.
Proof. intros H. apply bind_ok. unfold get_buff. by rewrite (bind_ok _ _ _ _ _ (gets_some_ok (λ s, objects s !! g) s _ H)). Qed.

Lemma kfree_run {B} (f : unit → M state B) s p o : objects s !! p = Some o → bind (kfree p) f s = f tt (with_objects (delete p (objects s)) s).
Proof. intros H. unfold kfree. by rewrite bind_assoc, (bind_ok _ _ _ _ _ (gets_some_ok (λ s, objects s !! p) s _ H)). Qed.
Lemma set_buff_run {B} (f : unit → M state B) s g b b' : objects s !! g = Some (Mylog b) →
  bind (set_buff g b') f s = f tt (with_objects (<[g := Mylog b']> (objects s)) s).
Proof. intros H. unfold set_buff. rewrite bind_assoc. by erewrite get_buff_run by exact H. Qed.

(** Freeing the buffer. *)
Lemma release_run {B} (f : unit → M state B) s g b : g ≠ b → objects s = {[g := Mylog b; b := Buffer]} →
  (ClearPageReserved b ;; kfree b ;; x ← set_buff g 0; f x) s =
  f tt (mk_state {[g := Mylog 0]} (GLOG s) (reserved s ∖ {[b]}) (misc_registered s) (mylog_kobj s) (kobjects s)).
Proof.
  intros Hgb Ho. destruct s as [ob gl re mi ko kos]. cbn in Ho. subst ob.
  unfold ClearPageReserved. rewrite (bind_ok _ _ _ _ _ (modify_run _ _)). cbn [reserved].
  rewrite (kfree_run _ _ b Buffer) by (cbn [objects with_reserved]; by rewrite lookup_insert_ne, lookup_singleton_eq).
  rewrite (set_buff_run _ _ g b) by (cbn [objects with_reserved with_objects]; by rewrite lookup_delete_ne, lookup_insert_eq).
  f_equal. unfold with_objects, with_reserved. cbn [objects GLOG reserved misc_registered mylog_kobj kobjects]. f_equal.
  apply map_eq. intros x. destruct (decide (x = g)) as [->|Hx]; [by rewrite lookup_insert_eq, lookup_singleton_eq|].
  rewrite lookup_insert_ne, (lookup_singleton_ne g) by done. destruct (decide (x = b)) as [->|Hb]; [by rewrite lookup_delete_eq|].
  by rewrite lookup_delete_ne, lookup_insert_ne, lookup_singleton_ne.
Qed.

Section runs.
(** Addresses of different blocks. *)
Context (g b : Z) (g_valid : g ≠ 0) (b_valid : b ≠ 0) (apart : g ≠ b).

(** The error path that frees both blocks. *)
Lemma err_register_run s r : objects s = {[g := Mylog b; b := Buffer]} → GLOG s = g →
  err_register r s = Ok (r, mk_state ∅ 0 (reserved s ∖ {[b]}) (misc_registered s) (mylog_kobj s) (kobjects s)).
Proof.
  intros Ho Hg. unfold err_register. rewrite (bind_ok _ _ _ _ _ (gets_run _ _)), Hg.
  erewrite get_buff_run by (rewrite Ho; apply lookup_insert_eq). rewrite release_run by done.
  unfold err_buff, err_mylog. rewrite (bind_ok _ _ _ _ _ (gets_run _ _)). cbn [GLOG]. rewrite Hg.
  rewrite (kfree_run _ _ g (Mylog 0)) by apply lookup_singleton_eq. rewrite (bind_ok _ _ _ _ _ (modify_run _ _)).
  unfold with_GLOG, with_objects, ret. cbn. by rewrite delete_singleton_eq.
Qed.

(** [mylog_init] up to the registration of the device. *)
Lemma mylog_init_run register_ret create_kobj sysfs_ret : mylog_init g b register_ret create_kobj sysfs_ret unloaded =
  let s := mk_state {[g := Mylog b; b := Buffer]} g {[b]} (register_ret =? 0) 0 ∅ in
  (if truthy register_ret then err_register register_ret
   else
     k ← kobject_create_and_add create_kobj;
     modify (with_mylog_kobj k) ;;
     if negb (truthy k) then err_create_kobj register_ret
     else if truthy sysfs_ret then err_create_kobj register_ret
     else ret 0) s.
Proof.
  cbn zeta. unfold mylog_init, kzalloc. rewrite !truthy_true by done. cbn match. rewrite bind_assoc, (bind_ok _ _ _ _ _ (modify_run _ _)), (bind_ok _ _ _ _ _ (ret_run _ _)).
  rewrite (bind_ok _ _ _ _ _ (modify_run _ _)). rewrite (truthy_true g) by done. cbn [negb].
  rewrite bind_assoc, (bind_ok _ _ _ _ _ (modify_run _ _)), (bind_ok _ _ _ _ _ (ret_run _ _)).
  cbn [objects with_objects with_GLOG unloaded].
  rewrite (set_buff_run _ _ g 0) by (cbn [objects with_objects]; by rewrite lookup_insert_ne, lookup_insert_eq).
  rewrite (truthy_true b) by done. cbn [negb]. unfold SetPageReserved. rewrite (bind_ok _ _ _ _ _ (modify_run _ _)).
  unfold misc_register. rewrite bind_assoc.
  match goal with |- context [bind (if register_ret =? 0 then _ else _) _ ?s0] => set (s1 := s0) end.
  assert (s1 = mk_state {[g := Mylog b; b := Buffer]} g {[b]} false 0 ∅) as ->.
  { unfold s1, with_reserved, with_objects, with_GLOG, unloaded. cbn. f_equal.
    - rewrite (insert_insert_ne _ b g) by done. rewrite insert_insert_eq. done.
    - set_solver. }
  destruct (Z.eqb_spec register_ret 0) as [->|Hr].
  - rewrite (bind_ok _ _ _ _ _ (modify_run _ _)), (bind_ok _ _ _ _ _ (ret_run _ _)). done.
  - rewrite (bind_ok _ _ _ _ _ (ret_run _ _)), (bind_ok _ _ _ _ _ (ret_run _ _)). done.
Qed.

Lemma mylog_init_loaded k : k ≠ 0 → ∃ s, mylog_init g b 0 k 0 unloaded = Ok (0, s) ∧ loaded g b k s.
Proof.
  intros Hk. rewrite mylog_init_run. cbn zeta. change (truthy 0) with false. cbn match. unfold kobject_create_and_add.
  rewrite (truthy_true k) by done. rewrite bind_assoc, (bind_ok _ _ _ _ _ (modify_run _ _)), (bind_ok _ _ _ _ _ (ret_run _ _)).
  rewrite (bind_ok _ _ _ _ _ (modify_run _ _)). rewrite (truthy_true k) by done. cbn [negb]. eexists. split; [done|].
  unfold loaded. cbn. split_and!; try done. set_solver.
Qed.

Lemma mylog_exit_run k s : loaded g b k s → ∃ s', mylog_exit s = Ok (tt, s') ∧ released false s'.
Proof.
  intros (Ho&Hg&Hr&Hm&Hk&Hks). unfold mylog_exit, kobject_put. rewrite (bind_ok _ _ _ _ _ (gets_run _ _)), Hk.
  rewrite (bind_ok _ _ _ _ _ (modify_run _ _)), (bind_ok _ _ _ _ _ (gets_run _ _)). cbn [GLOG with_kobjects]. rewrite Hg.
  erewrite get_buff_run by (cbn [objects with_kobjects]; rewrite Ho; apply lookup_insert_eq). rewrite release_run by done.
  rewrite (kfree_run _ _ g (Mylog 0)) by apply lookup_singleton_eq. rewrite (bind_ok _ _ _ _ _ (modify_run _ _)).
  unfold misc_deregister. rewrite modify_run. eexists. split; [done|]. unfold released. cbn. rewrite Hr, Hks, delete_singleton_eq.
  split_and!; try done; set_solver.
Qed.

Lemma mylog_init_register r k f : r ≠ 0 → ∃ s, mylog_init g b r k f unloaded = Ok (r, s) ∧ released false s.
Proof.
  intros Hr. rewrite mylog_init_run. cbn zeta. rewrite truthy_true by done. rewrite (proj2 (Z.eqb_neq r 0) Hr).
  rewrite err_register_run by done. eexists. split; [done|]. unfold released. cbn. split_and!; try done. set_solver.
Qed.

(** When it is sysfs that refuses. *)
Lemma mylog_init_kobj k f : k = 0 ∨ f ≠ 0 → ∃ s, mylog_init g b 0 k f unloaded = Ok (0, s) ∧ released true s.
Proof.
  intros Hkf. rewrite mylog_init_run. cbn zeta. change (truthy 0) with false. cbn match. unfold kobject_create_and_add, err_create_kobj, kobject_put.
  rewrite bind_assoc. destruct (decide (k = 0)) as [->|Hk].
  - change (truthy 0) with false. cbn match. rewrite (bind_ok _ _ _ _ _ (ret_run _ _)), (bind_ok _ _ _ _ _ (ret_run _ _)).
    rewrite (bind_ok _ _ _ _ _ (modify_run _ _)). change (truthy 0) with false. cbn [negb]. rewrite (bind_ok _ _ _ _ _ (gets_run _ _)), (bind_ok _ _ _ _ _ (modify_run _ _)).
    rewrite err_register_run by done. eexists. split; [done|]. unfold released. cbn. split_and!; try done; set_solver.
  - rewrite (truthy_true k) by done. cbn match. rewrite (bind_ok _ _ _ _ _ (modify_run _ _)), (bind_ok _ _ _ _ _ (ret_run _ _)).
    rewrite (bind_ok _ _ _ _ _ (modify_run _ _)). rewrite (truthy_true k) by done. cbn [negb]. rewrite (truthy_true f) by naive_solver.
    cbn match. rewrite (bind_ok _ _ _ _ _ (gets_run _ _)), (bind_ok _ _ _ _ _ (modify_run _ _)).
    rewrite err_register_run by done. eexists. split; [done|]. unfold released. cbn. split_and!; try done; set_solver.
Qed.
End runs.

(** ** Properties *)

(** C38: loading and unloading the module: when the kernel grants everything, the module
    is loaded with its two blocks and registered, and [mylog_exit] gives all of it
    back; when memory or the device is refused, the error is returned and nothing is
    kept.  When it is the object in sysfs that is refused, everything is freed but
    the device stays registered and the result is 0, so that the module counts as
    loaded: mapping the device or unloading the module then uses the NULL pointer. *)
Theorem logfs_init g b k f r : g ≠ 0 → b ≠ 0 → g ≠ b → k ≠ 0 → r ≠ 0 →
  (∃ s s', mylog_init g b 0 k 0 unloaded = Ok (0, s) ∧ loaded g b k s ∧ mylog_exit s = Ok (tt, s') ∧ released false s') ∧
  mylog_init 0 b r k f unloaded = Ok (- ENOMEM, unloaded) ∧
  (∃ s, mylog_init g 0 r k f unloaded = Ok (- ENOMEM, s) ∧ released false s) ∧
  (∃ s, mylog_init g b r k f unloaded = Ok (r, s) ∧ released false s) ∧
  ∀ k' f', k' = 0 ∨ f' ≠ 0 → ∃ s, mylog_init g b 0 k' f' unloaded = Ok (0, s) ∧ released true s ∧ mylog_exit s = Err Undefined ∧
    ∀ virt_to_phys pgoff start end_, (p ← mylog_open; mylog_mmap virt_to_phys p pgoff start end_) s = Err Undefined.
Proof.
  intros Hg Hb Hgb Hk Hr. split_and!.
  - destruct (mylog_init_loaded g b Hg Hb Hgb k Hk) as (s&Hs&Hl). destruct (mylog_exit_run g b Hg Hb Hgb k s Hl) as (s'&Hs'&Hrel). by exists s, s'.
  - done.
  - unfold mylog_init, kzalloc. rewrite (truthy_true g) by done. cbn match. rewrite bind_assoc, (bind_ok _ _ _ _ _ (modify_run _ _)), (bind_ok _ _ _ _ _ (ret_run _ _)).
    rewrite (bind_ok _ _ _ _ _ (modify_run _ _)). change (truthy 0) with false. rewrite (truthy_true g) by done. cbn [negb].
    rewrite bind_assoc, (bind_ok _ _ _ _ _ (ret_run _ _)), (bind_ok _ _ _ _ _ (ret_run _ _)).
    rewrite (set_buff_run _ _ g 0) by apply lookup_insert_eq. change (truthy 0) with false. cbn [negb]. unfold err_buff. rewrite (bind_ok _ _ _ _ _ (gets_run _ _)).
    rewrite (kfree_run _ _ _ (Mylog 0)) by apply lookup_insert_eq. rewrite (bind_ok _ _ _ _ _ (modify_run _ _)).
    eexists. split; [done|]. unfold released. cbn. split_and!; try done. by rewrite insert_insert_eq, delete_insert_id.
  - by apply mylog_init_register.
  - intros k' f' Hkf. destruct (mylog_init_kobj g b Hg Hb Hgb k' f' Hkf) as (s&Hs&Hrel). exists s. split; [done|]. split; [done|].
    destruct Hrel as (Ho&HG&_). split.
    + unfold mylog_exit, kobject_put. rewrite (bind_ok _ _ _ _ _ (gets_run _ _)), (bind_ok _ _ _ _ _ (modify_run _ _)), (bind_ok _ _ _ _ _ (gets_run _ _)).
      apply bind_err, bind_err. unfold gets_some. cbn. by rewrite Ho, lookup_empty.
    + intros *. unfold mylog_open. rewrite (bind_ok _ _ _ _ _ (gets_run _ _)). apply bind_err, bind_err. unfold gets_some. cbn. by rewrite Ho, lookup_empty.
Qed.

(** [mylog_mmap] maps pages of the buffer only, exactly when they are asked for, as
    long as the end of the range fits in 64 bits; at the last page offset the end
    wraps around to zero, and what is mapped is the page in front of the buffer. *)
Theorem logfs_mmap virt_to_phys g b k s pgoff start_ n P : loaded g b k s → g ≠ b → virt_to_phys b = P * 4096 → 0 < P → P + 32 ≤ 2 ^ 52 →
  0 ≤ pgoff < 2 ^ 52 → 0 < n → 0 ≤ start_ → start_ + n * 4096 < 2 ^ 64 →
  (pgoff * 4096 + n * 4096 < 2 ^ 64 → mylog_mmap virt_to_phys g pgoff start_ (start_ + n * 4096) s =
     Ok (if pgoff + n <=? 32 then Mapped (P + pgoff) (n * 4096) else Refused (- EINVAL), s)) ∧
  (pgoff = 2 ^ 52 - 1 → n = 1 → mylog_mmap virt_to_phys g pgoff start_ (start_ + n * 4096) s = Ok (Mapped (P + pgoff) 4096, s) ∧
     u64 ((P + pgoff) * 4096) = (P - 1) * 4096).
Proof.
  intros (Ho&_) Hgb HP HP0 HP1 Hpg Hn Hs He. unfold mylog_mmap. erewrite get_buff_run by (rewrite Ho; apply lookup_insert_eq). cbn zeta.
  unfold PAGE_SHIFT. rewrite HP, Z.shiftl_mul_pow2, Z.shiftr_div_pow2 by lia. change (2 ^ 12) with 4096. rewrite Z.div_mul by lia.
  replace (start_ + n * 4096 - start_) with (n * 4096) by lia.
  rewrite (wrapu_small 64 (n * 4096)), (wrapu_small 64 (P + pgoff)), (wrapu_small 64 (pgoff * 4096)) by lia.
  change LOG_BUF_OUTPUT_BUF_SIZE with (32 * 4096). split.
  - intros Hlt. rewrite wrapu_small by lia. destruct (Z.leb_spec (pgoff + n) 32), (Z.ltb_spec (32 * 4096) (pgoff * 4096 + n * 4096)); (done || lia).
  - intros -> ->. change (u64 ((2 ^ 52 - 1) * 4096 + 1 * 4096)) with 0. cbn match. split; [done|].
    symmetry. apply (Z.mod_unique _ _ 1); lia.
Qed.

(** [mylog_show] writes at most 31 bytes for a line, but counts all bytes of the line:
    its result is the length of the text exactly when no line was cut. *)
Lemma show_loop_spec line n i len buf : let '(text, r) := show_loop line n i len buf in
  (length text ≤ length buf + 31 * n)%nat ∧ Z.of_nat (length text) - Z.of_nat (length buf) ≤ r - len ∧
  (r - len = Z.of_nat (length text) - Z.of_nat (length buf) ↔ ∀ x, i ≤ x < i + Z.of_nat n → (length (format x (line x)) ≤ 31)%nat).
Proof.
  revert i len buf. induction n as [|n IH]; intros i len buf; cbn [show_loop]; [split_and!; [lia|lia|split; intros; lia]|].
  specialize (IH (i + 1) (len + Z.of_nat (length (format i (line i)))) (buf ++ take 32 (take 31 (format i (line i))))).
  destruct (show_loop line n (i + 1) _ _) as [text r]. rewrite length_app, !length_take in IH. destruct IH as (H1&H2&H3). split_and!; [lia|lia|].
  split.
  - intros Hr. assert (length (format i (line i)) ≤ 31)%nat as Hi by lia. intros x Hx. destruct (decide (x = i)) as [->|]; [done|].
    apply H3; [lia|lia].
  - intros Hx. assert (length (format i (line i)) ≤ 31)%nat as Hi by (apply Hx; lia).
    assert (∀ x, i + 1 ≤ x < i + 1 + Z.of_nat n → (length (format x (line x)) ≤ 31)%nat) as Hx' by (intros; apply Hx; lia). apply H3 in Hx'. lia.
Qed.

Theorem logfs_show line text r : mylog_show line [] = (text, r) →
  (length text ≤ 992)%nat ∧ Z.of_nat (length text) ≤ r ∧
  (r = Z.of_nat (length text) ↔ ∀ i, 0 ≤ i < 32 → (length (format i (line i)) ≤ 31)%nat).
Proof.
  intros H. pose proof (show_loop_spec line 32 0 0 []) as Hs. unfold mylog_show in H. change (Z.to_nat LOG_LINE_BUF_SIZE) with 32%nat in H.
  rewrite H in Hs. cbn [length] in Hs. destruct Hs as (H1&H2&H3). split; [lia|]. split; [lia|]. rewrite !Z.sub_0_r in H3. exact H3.
Qed.

Lemma logfs_init_witness :
  (∃ s s', mylog_init 1 2 0 3 0 unloaded = Ok (0, s) ∧ loaded 1 2 3 s ∧ mylog_exit s = Ok (tt, s') ∧ released false s') ∧
  mylog_init 0 2 (-16) 3 0 unloaded = Ok (- ENOMEM, unloaded) ∧
  (∃ s, mylog_init 1 0 (-16) 3 0 unloaded = Ok (- ENOMEM, s) ∧ released false s) ∧
  (∃ s, mylog_init 1 2 (-16) 3 0 unloaded = Ok (-16, s) ∧ released false s) ∧
  ∀ k' f', k' = 0 ∨ f' ≠ 0 → ∃ s, mylog_init 1 2 0 k' f' unloaded = Ok (0, s) ∧ released true s ∧ mylog_exit s = Err Undefined ∧
    ∀ virt_to_phys pgoff start end_, (p ← mylog_open; mylog_mmap virt_to_phys p pgoff start end_) s = Err Undefined.
Proof. apply (logfs_init 1 2 3 0 (-16)); done. Defined.

Lemma logfs_mmap_witness : ∃ s, mylog_init 1 2 0 3 0 unloaded = Ok (0, s) ∧
  mylog_mmap (λ _, 4096 * 1000) 1 5 0 8192 s = Ok (Mapped 1005 8192, s) ∧
  mylog_mmap (λ _, 4096 * 1000) 1 (2 ^ 52 - 1) 0 4096 s = Ok (Mapped (1000 + (2 ^ 52 - 1)) 4096, s).
Proof.
  assert (loaded 1 2 3 (mk_state {[1 := Mylog 2; 2 := Buffer]} 1 {[2]} true 3 {[3]})) as Hl by done.
  eexists. split; [vm_compute; reflexivity|]. split.
  - by apply (logfs_mmap (λ _, 4096 * 1000) 1 2 3 _ 5 0 2 1000 Hl).
  - by apply (logfs_mmap (λ _, 4096 * 1000) 1 2 3 _ (2 ^ 52 - 1) 0 1 1000 Hl).
Defined.
