(* ===== verification/LogfsUser.v ===== *)
(** * The program of simple-logfs/user.c and the device

    user.c maps one page of the device and prints a string into it; the file in sysfs
    then shows it.  The model puts the program and [mylog_show] on the module of Logfs
    and the bytes of the memory. *)
From S2P Require Import Prelude Logfs.
From stdpp Require Import gmap list.
#[local] Open Scope Z_scope.
#[local] Open Scope c_scope.

(** The module, and the bytes of the physical memory. *)
Record system := mk_system { module : state; phys : Z → Z }.

Definition on_module {A} (m : M state A) : M system A := λ s,
  match m (module s) with Ok (a, x) => Ok (a, mk_system x (phys s)) | Err e => Err e end.

(** ** The program *)

(** [atoi]: white space, a sign and decimal digits; what [int] cannot represent is
    undefined. *)
Definition isspace (c : Z) : bool := (c =? 32) || (9 <=? c) && (c <=? 13).
Fixpoint skip_space (s : list Z) : list Z := match s with c :: s' => if isspace c then skip_space s' else s | [] => [] end.
Fixpoint digits (n : Z) (s : list Z) : Z :=
  match s with c :: s => if (48 <=? c) && (c <=? 57) then digits (10 * n + (c - 48)) s else n | [] => n end.
Definition number (s : list Z) : Z :=
  match skip_space s with
  | [] => 0
  | c :: s => if c =? 45 then - digits 0 s else if c =? 43 then digits 0 s else digits 0 (c :: s)
  end.
Definition atoi (s : list Z) : result Z := if bool_decide (- 2 ^ 31 ≤ number s < 2 ^ 31) then Ok (number s) else Err Undefined.

(** [idx << PAGE_SHIFT] of an [int]. *)
Definition shift_int (idx : Z) : result Z :=
  if bool_decide (0 ≤ idx ∧ Z.shiftl idx PAGE_SHIFT < 2 ^ 31) then Ok (Z.shiftl idx PAGE_SHIFT) else Err Undefined.

Definition lift {A} (r : result A) : M system A := λ s, match r with Ok a => Ok (a, s) | Err e => Err e end.

(** The bytes [s] and a NUL from [a] on. *)
Fixpoint put_string (a : Z) (s : list Z) (m : Z → Z) : Z → Z :=
  match s with
  | [] => λ x, if x =? a then 0 else m x
  | c :: s => put_string (a + 1) s (λ x, if x =? a then c else m x)
  end.

(** [sprintf(map_memory, "%s", s)] into pages of [size] bytes. *)
Definition sprintf (pfn size : Z) (s : list Z) : M system unit :=
  if Z.of_nat (length s) + 1 <=? size then modify (λ t, mk_system (module t) (put_string (Z.shiftl pfn PAGE_SHIFT) s (phys t)))
  else fail Undefined.

Section user.
Context (virt_to_phys : Z → Z).
(** Whether /dev/mylog can be opened, and where the kernel puts the mapping. *)
Context (opened : bool) (address : Z).

Definition main (argv : list (list Z)) : M system Z :=
  match argv with
  | _ :: index :: context :: _ =>
      idx ← lift (atoi index);
      if negb opened then ret 1
      else
        private_data ← on_module mylog_open;
        offset ← lift (shift_int idx);
        m ← on_module (mylog_mmap virt_to_phys private_data (Z.shiftr offset PAGE_SHIFT) address (address + 4096));
        match m with
        | Refused _ => ret 1
        | Mapped pfn size => sprintf pfn size context ;; ret 0
        end
  | _ => ret 1
  end.

(** ** The file *)

(** The string at [a], which ends within [n] bytes. *)
Fixpoint string_at (n : nat) (a : Z) (m : Z → Z) : option (list Z) :=
  match n with
  | O => None
  | S n => if m a =? 0 then Some [] else s ← string_at n (a + 1) m; Some (m a :: s)
  end%stdpp.

(** The string that [mylog_show] prints for page [i] of the buffer at [base]. *)
Definition line_of (base : Z) (m : Z → Z) (i : Z) : option (list Z) :=
  string_at (Z.to_nat (LOG_BUF_OUTPUT_BUF_SIZE - Z.shiftl i PAGE_SHIFT)) (base + Z.shiftl i PAGE_SHIFT) m.

Definition show : M system (list Z * Z) :=
  b ← on_module (g ← gets GLOG; get_buff g);
  m ← gets phys;
  let line := line_of (virt_to_phys b) m in
  if forallb (λ i, bool_decide (is_Some (line i))) (seqZ 0 LOG_LINE_BUF_SIZE) then ret (mylog_show (λ i, default [] (line i)) [])
  else fail Undefined.
End user.

(** ** Strings in memory *)

Fixpoint holds_string (a : Z) (l : list Z) (m : Z → Z) : Prop :=
  match l with [] => m a = 0 | c :: l => c ≠ 0 ∧ m a = c ∧ holds_string (a + 1) l m end.

Lemma string_at_holds n a l m : holds_string a l m → (length l < n)%nat → string_at n a m = Some l.
Proof.
  revert n a. induction l as [|c l IH]; intros [|n] a Hl Hn; cbn in *; try lia; [by rewrite Hl|].
  destruct Hl as (Hc&Ha&Hl). rewrite Ha, (proj2 (Z.eqb_neq _ _) Hc). by rewrite IH by (done || lia).
Qed.

Lemma put_outside a s m x : x < a ∨ a + Z.of_nat (length s) < x → put_string a s m x = m x.
Proof.
  revert a m. induction s as [|c s IH]; intros a m Hx; cbn [put_string length] in *; [destruct (Z.eqb_spec x a); [lia|done]|].
  rewrite IH by lia. destruct (Z.eqb_spec x a); [lia|done].
Qed.

Lemma put_holds a s m : Forall (λ c, c ≠ 0) s → holds_string a s (put_string a s m).
Proof.
  intros Hs. revert a m. induction Hs as [|c s Hc Hs IH]; intros a m; cbn [holds_string put_string]; [by rewrite Z.eqb_refl|].
  split; [done|]. split; [rewrite put_outside by lia; by rewrite Z.eqb_refl|apply IH].
Qed.

Lemma holds_ext a l m m' : (∀ x, a ≤ x ≤ a + Z.of_nat (length l) → m' x = m x) → holds_string a l m → holds_string a l m'.
Proof.
  revert a. induction l as [|c l IH]; intros a Hm; cbn [holds_string length] in *; [intros; rewrite Hm; [done|lia]|].
  intros (Hc&Ha&Hl). split; [done|]. split; [rewrite Hm; [done|lia]|]. apply IH; [|done]. intros x Hx. apply Hm. lia.
Qed.

Lemma show_loop_ext f f' n i len buf : (∀ x, i ≤ x < i + Z.of_nat n → f x = f' x) → show_loop f n i len buf = show_loop f' n i len buf.
Proof.
  revert i len buf. induction n as [|n IH]; intros i len buf Hf; cbn [show_loop]; [done|]. rewrite (Hf i) by lia. apply IH. intros x Hx. apply Hf. lia.
Qed.

(** The pages of the buffer, from page [P] of the memory on, hold the lines. *)
Definition pages (P : Z) (line : Z → list Z) (m : Z → Z) : Prop :=
  ∀ i, 0 ≤ i < 32 → (length (line i) ≤ 4095)%nat ∧ holds_string ((P + i) * 4096) (line i) m.

Definition write_line (idx : Z) (s : list Z) (line : Z → list Z) : Z → list Z := λ i, if i =? idx then s else line i.

Lemma put_pages P idx s line m : 0 ≤ idx < 32 → Forall (λ c, c ≠ 0) s → (length s ≤ 4095)%nat → pages P line m →
  pages P (write_line idx s line) (put_string ((P + idx) * 4096) s m).
Proof.
  intros Hi Hs Hlen Hp i Hi'. unfold write_line. destruct (Z.eqb_spec i idx) as [->|Hne]; [split; [done|by apply put_holds]|].
  destruct (Hp i Hi') as [Hl Hh]. split; [done|]. eapply holds_ext; [|exact Hh]. intros x Hx. apply put_outside. lia.
Qed.

(** ** The program and the device *)

Lemma lift_run {A B} (r : result A) a (f : A → M system B) s : r = Ok a → bind (lift r) f s = f a s.
Proof. intros ->. apply bind_ok. done. Qed.

Lemma on_module_run {A B} (m : M state A) a (f : A → M system B) s : m (module s) = Ok (a, module s) → bind (on_module m) f s = f a s.
Proof. intros H. apply bind_ok. unfold on_module. rewrite H. by destruct s. Qed.

Section device.
Context (virt_to_phys : Z → Z) (g b k P : Z) (apart : g ≠ b).
Context (translated : virt_to_phys b = P * 4096) (P_positive : 0 < P) (P_bounded : P + 32 ≤ 2 ^ 52).
Context (address : Z) (address_fits : 0 ≤ address ∧ address + 4096 < 2 ^ 64).

Lemma show_run s line : loaded g b k (module s) → pages P line (phys s) → show virt_to_phys s = Ok (mylog_show line [], s).
Proof.
  intros (Ho&Hg&_) Hp. unfold show. rewrite (on_module_run _ b).
  2: { rewrite (bind_ok _ _ _ _ _ (gets_run _ _)), Hg. unfold get_buff. rewrite (bind_ok _ _ _ _ _ (gets_some_ok (λ s, objects s !! g) (module s) (Mylog b) ltac:(cbn; by rewrite Ho, lookup_insert_eq))). done. }
  rewrite (bind_ok _ _ _ _ _ (gets_run _ _)), translated. cbn zeta.
  set (f := line_of _ _). assert (∀ i, 0 ≤ i < 32 → f i = Some (line i)) as Hf.
  { intros i Hi. destruct (Hp i Hi) as [Hl Hh]. unfold f, line_of. apply string_at_holds; unfold PAGE_SHIFT; rewrite Z.shiftl_mul_pow2 by lia.
    - by replace (P * 4096 + i * 2 ^ 12) with ((P + i) * 4096) by lia.
    - change LOG_BUF_OUTPUT_BUF_SIZE with (32 * 4096). lia. }
  rewrite (proj2 (forallb_forall _ _)).
  - unfold ret, mylog_show. rewrite (show_loop_ext _ line); [done|]. intros x Hx. rewrite (Hf x); [done|]. by unfold LOG_LINE_BUF_SIZE in *.
  - intros i Hi%list_elem_of_In%elem_of_seqZ. unfold LOG_LINE_BUF_SIZE in *. rewrite Hf by lia. by rewrite bool_decide_true by (by eexists).
Qed.

(** The program up to the string, for a page offset that fits. *)
Lemma user_run name index context rest s idx : loaded g b k (module s) → atoi index = Ok idx → 0 ≤ idx < 2 ^ 19 →
  main virt_to_phys true address (name :: index :: context :: rest) s =
    if idx <=? 31 then (sprintf (P + idx) 4096 context ;; ret 0) s else Ok (1, s).
Proof.
  intros Hl Ha Hi. unfold main. rewrite (lift_run _ idx) by done. cbn [negb].
  rewrite (on_module_run _ g) by (unfold mylog_open; by rewrite gets_run, (proj1 (proj2 Hl))).
  unfold shift_int, PAGE_SHIFT. rewrite Z.shiftl_mul_pow2, bool_decide_true by lia. rewrite (lift_run _ (idx * 2 ^ 12)) by done.
  rewrite Z.shiftr_div_pow2, Z.div_mul by lia.
  destruct (logfs_mmap virt_to_phys g b k (module s) idx address 1 P Hl apart translated P_positive P_bounded ltac:(lia) ltac:(lia) ltac:(lia) ltac:(lia)) as [Hm _].
  rewrite Z.mul_1_l in Hm. erewrite on_module_run by (apply Hm; lia).
  destruct (Z.leb_spec (idx + 1) 32), (Z.leb_spec idx 31); (done || lia).
Qed.

(** C39: (writing a line) user.c on the loaded module: an index of a page and a string
    that fits it put the string into that page, and the file in sysfs then shows it in
    its line and the other lines as before; an index behind the pages is refused with
    1 and nothing is written; a negative index, or one of 2^19 or more, overflows the
    shift, and a longer string is written past the mapping. *)
Theorem user_writes_line name index context rest s idx line : loaded g b k (module s) → pages P line (phys s) →
  atoi index = Ok idx → Forall (λ c, c ≠ 0) context →
  let r := main virt_to_phys true address (name :: index :: context :: rest) s in
  (0 ≤ idx < 32 → (length context ≤ 4095)%nat →
     ∃ s', r = Ok (0, s') ∧ module s' = module s ∧ pages P (write_line idx context line) (phys s') ∧
       show virt_to_phys s' = Ok (mylog_show (write_line idx context line) [], s')) ∧
  (32 ≤ idx < 2 ^ 19 → r = Ok (1, s)) ∧
  (idx < 0 ∨ 2 ^ 19 ≤ idx → r = Err Undefined) ∧
  (0 ≤ idx < 32 → (4096 ≤ length context)%nat → r = Err Undefined).
Proof using apart translated P_positive P_bounded address_fits.
  intros Hl Hp Ha Hc. cbn zeta. split_and!.
  - intros Hi Hlen. rewrite (user_run _ _ _ _ _ idx) by (done || lia). rewrite (proj2 (Z.leb_le _ _)) by lia.
    unfold sprintf. rewrite (proj2 (Z.leb_le _ _)) by lia. rewrite (bind_ok _ _ _ _ _ (modify_run _ _)). unfold PAGE_SHIFT.
    rewrite Z.shiftl_mul_pow2 by lia. pose proof (put_pages P idx context line (phys s) Hi Hc Hlen Hp) as Hp'.
    eexists. split; [done|]. split; [done|]. split; [done|]. by apply show_run.
  - intros Hi. rewrite (user_run _ _ _ _ _ idx) by (done || lia). by rewrite (proj2 (Z.leb_gt _ _)) by lia.
  - intros Hi. unfold main. rewrite (lift_run _ idx) by done. cbn [negb].
    rewrite (on_module_run _ g) by (unfold mylog_open; by rewrite gets_run, (proj1 (proj2 Hl))).
    apply bind_err. unfold shift_int, PAGE_SHIFT, lift. rewrite Z.shiftl_mul_pow2, bool_decide_false by lia. done.
  - intros Hi Hlen. rewrite (user_run _ _ _ _ _ idx) by (done || lia). rewrite (proj2 (Z.leb_le _ _)) by lia.
    unfold sprintf. by rewrite (proj2 (Z.leb_gt _ _)) by lia.
Qed.
End device.

(** Page 7 and "hello". *)
Lemma user_writes_line_witness : ∃ s s',
  main (λ _, 4096 * 1000) true 8192 [[117]; [55]; [104; 101; 108; 108; 111]] s = Ok (0, s') ∧
  show (λ _, 4096 * 1000) s' = Ok (mylog_show (write_line 7 [104; 101; 108; 108; 111] (λ _, [])) [], s').
Proof.
  exists (mk_system (mk_state {[1 := Mylog 2; 2 := Buffer]} 1 {[2]} true 3 {[3]}) (λ _, 0)).
  destruct (user_writes_line (λ _, 4096 * 1000) 1 2 3 1000 ltac:(lia) ltac:(lia) ltac:(lia) ltac:(lia) 8192 ltac:(lia) [117] [55] [104; 101; 108; 108; 111] []
    (mk_system (mk_state {[1 := Mylog 2; 2 := Buffer]} 1 {[2]} true 3 {[3]}) (λ _, 0)) 7 (λ _, [])) as [H _].
  - done.
  - intros i Hi. by split; [cbn; lia|].
  - by vm_compute.
  - repeat (constructor; [done|]). constructor.
  - destruct H as (s'&Hr&_&_&Hs); [lia|cbn; lia|]. by exists s'.
Defined.
