(* ===== verification/Loader.v ===== *)
(** * The loader of embedded-payload/loader.c

    The program reads its own executable into memory, looks for the ELF file that
    was appended to it, writes that into a memory file and executes it.  The block
    at [entirefile] is the list of its bytes, a pointer into it an offset; [base]
    is the address of the block, which one expression of the source uses as a
    number.  What the system calls return is a record. *)
From S2P Require Import Prelude.
From stdpp Require Import list.
#[local] Open Scope Z_scope.

(** Reading [entirefile[o]]. *)
Definition load_char (file : list Z) (o : Z) : result Z :=
  match file !! Z.to_nat o with
  | Some b => if 0 <=? o then Ok b else Err Undefined
  | None => Err Undefined
  end.

#[local] Notation "x <- y ; z" := (rbind y (λ x, z)) (at level 20, y at level 100, z at level 200, only parsing) : c_scope.
#[local] Open Scope c_scope.

(** [valid_elf] of the bytes from [p] on; [&&] and [||] read as far as needed. *)
Definition valid_elf (file : list Z) (p : Z) : result bool :=
  a <- load_char file (p + 4);
  if (a =? 1) || (a =? 2) then
    b <- load_char file (p + 5);
    if (b =? 1) || (b =? 2) then
      c <- load_char file (p + 6);
      Ok (c =? 1)
    else Ok false
  else Ok false.

Definition elf_magic : list Z := [0x7F; 69; 76; 70].

(** The first position of [elf_magic] in the bytes [bs], the first of which is at
    offset [o]. *)
Fixpoint find_magic (bs : list Z) (o : Z) : option Z :=
  match bs with
  | a :: ((b :: c :: d :: _) as bs') =>
      if bool_decide ([a; b; c; d] = elf_magic) then Some o else find_magic bs' (o + 1)
  | _ => None
  end.

(** [memmem] for [elf_magic] in the [n] bytes at offset [o], of which [bs] is what
    the block has.  A length beyond the end of the block has no defined result,
    wherever the bytes occur. *)
Definition memmem (bs : list Z) (n o : Z) : result (option Z) :=
  if Z.of_nat (length bs) <? n then Err Undefined else Ok (find_magic (take (Z.to_nat n) bs) o).

(** What the calls return: whether the executable can be opened, its size and
    contents, the block of [malloc], the descriptor of the memory file. *)
Record env := mk_env {
  filedesc : Z;
  st_size : Z;
  entirefile : option (list Z);
  base : Z;
  memfd : Z
}.

(** The value [main] returns in the parent, and the bytes written for the child
    to execute: a negative [newsize] is too large a size for [write]. *)
Definition main (e : env) : result (Z * option (list Z)) :=
  if filedesc e <? 0 then Ok (-1, None)
  else match entirefile e with
  | None => Ok (-2, None)
  | Some file =>
      let size := st_size e in
      newelf <- memmem (drop 52 file) (u64 (size - 52)) 52;
      newelf <-
        (match newelf with
         | None => Ok None
         | Some p =>
             v <- valid_elf file p;
             if v : bool then Ok (Some p)
             else memmem (drop (Z.to_nat (p + 6)) file) (u64 (size - (base e + p) - 6)) (p + 6)
         end);
      match newelf with
      | None => Ok (-3, None)
      | Some p =>
          v <- valid_elf file p;
          if negb v then Ok (-3, None)
          else
            let newsize := i32 (size - p) in
            if memfd e <? 0 then Ok (-4, None)
            else Ok (0, if newsize <? 0 then None else Some (take (Z.to_nat newsize) (drop (Z.to_nat p) file)))
      end
  end.

(** ** The search *)

Definition magic_at (file : list Z) (i : nat) : Prop := take 4 (drop i file) = elf_magic.
#[export] Instance magic_at_dec file i : Decision (magic_at file i).
Proof. unfold magic_at. apply _. Defined.

(** The first position from [i] on where the magic bytes are. *)
Definition first_from (file : list Z) (i p : nat) : Prop :=
  (i ≤ p)%nat ∧ magic_at file p ∧ ∀ j, (i ≤ j < p)%nat → ¬ magic_at file j.

Section search.
Implicit Types (file : list Z) (i p : nat) (n : Z).

Lemma magic_length file i : magic_at file i → (i + 4 ≤ length file)%nat.
Proof.
  unfold magic_at. intros H. apply (f_equal length) in H. rewrite length_take, length_drop in H.
  change (length elf_magic) with 4%nat in H. lia.
Qed.

(** The search in what is left of the file from [i] on. *)
Lemma find_magic_unfold file i :
  find_magic (drop i file) (Z.of_nat i) =
    if bool_decide (i + 4 ≤ length file)%nat then
      if bool_decide (magic_at file i) then Some (Z.of_nat i) else find_magic (drop (S i) file) (Z.of_nat (S i))
    else None.
Proof.
  destruct (drop i file) as [|a [|b [|c [|d bs]]]] eqn:Hd;
    pose proof (f_equal length Hd) as Hl; rewrite length_drop in Hl; simpl in Hl.
  1-4: by rewrite bool_decide_eq_false_2 by lia.
  rewrite bool_decide_eq_true_2 by lia.
  assert (bool_decide (magic_at file i) = bool_decide ([a; b; c; d] = elf_magic)) as ->
    by (apply bool_decide_ext; unfold magic_at; by rewrite Hd).
  change (find_magic (a :: b :: c :: d :: bs) (Z.of_nat i)) with
    (if bool_decide ([a; b; c; d] = elf_magic) then Some (Z.of_nat i) else find_magic (b :: c :: d :: bs) (Z.of_nat i + 1)).
  replace (drop (S i) file) with (b :: c :: d :: bs) by (rewrite <- (Nat.add_1_r i), <- drop_drop, Hd; reflexivity).
  by replace (Z.of_nat i + 1) with (Z.of_nat (S i)) by lia.
Qed.

Lemma find_magic_finds file i p :
  first_from file i p → find_magic (drop i file) (Z.of_nat i) = Some (Z.of_nat p).
Proof.
  intros (Hip&Hp&Hno). remember (p - i)%nat as k eqn:Hk. revert i Hip Hno Hk.
  induction k as [|k IH]; intros i Hip Hno Hk; rewrite find_magic_unfold;
    pose proof (magic_length _ _ Hp); rewrite bool_decide_eq_true_2 by lia.
  - assert (i = p) as -> by lia. by rewrite bool_decide_eq_true_2.
  - rewrite bool_decide_eq_false_2 by (apply Hno; lia). apply IH; [lia| |lia]. intros j Hj. apply Hno. lia.
Qed.

Lemma find_magic_misses file i :
  (∀ j, (i ≤ j)%nat → ¬ magic_at file j) → find_magic (drop i file) (Z.of_nat i) = None.
Proof.
  remember (length file - i)%nat as k eqn:Hk. revert i Hk.
  induction k as [|k IH]; intros i Hk Hno; rewrite find_magic_unfold.
  - by rewrite bool_decide_eq_false_2 by lia.
  - rewrite (bool_decide_eq_false_2 (magic_at file i)) by (by apply Hno).
    case_bool_decide; [|done]. apply IH; [lia|]. intros j Hj. apply Hno. lia.
Qed.

(** Searching all that is left of the block, and more than that. *)
Lemma memmem_all file i :
  (i ≤ length file)%nat →
  memmem (drop i file) (Z.of_nat (length file) - Z.of_nat i) (Z.of_nat i) = Ok (find_magic (drop i file) (Z.of_nat i)).
Proof.
  intros Hi. unfold memmem. rewrite length_drop, (proj2 (Z.ltb_ge _ _)) by lia. by rewrite take_ge by (rewrite length_drop; lia).
Qed.

Lemma memmem_beyond file i n o : Z.of_nat (length file) < n → memmem (drop i file) n o = Err Undefined.
Proof. intros Hn. unfold memmem. by rewrite length_drop, (proj2 (Z.ltb_lt _ _)) by lia. Qed.
End search.

(** ** What the program extracts *)

Section extraction.
Implicit Types (file loader payload : list Z) (e : env).

(** A process whose calls succeed, with [file] as its executable: the block of
    [malloc] is at a user-space address above the length of the file. *)
Record started (e : env) (file : list Z) : Prop := {
  s_open : 0 ≤ filedesc e;
  s_size : st_size e = Z.of_nat (length file);
  s_block : entirefile e = Some file;
  s_base : Z.of_nat (length file) < base e < 2 ^ 47;
  s_memfd : 0 ≤ memfd e
}.

Definition elf_header (payload : list Z) : Prop := magic_at payload 0 ∧ valid_elf payload 0 = Ok true.

Lemma magic_app loader payload j :
  magic_at (loader ++ payload) (length loader + j) ↔ magic_at payload j.
Proof. unfold magic_at. by rewrite drop_app_add. Qed.

Lemma load_char_app loader payload o :
  0 ≤ o → load_char (loader ++ payload) (Z.of_nat (length loader) + o) = load_char payload o.
Proof.
  intros Ho. unfold load_char. replace (Z.to_nat (Z.of_nat (length loader) + o)) with (length loader + Z.to_nat o)%nat by lia.
  rewrite lookup_app_r by lia. replace (length loader + Z.to_nat o - length loader)%nat with (Z.to_nat o) by lia.
  destruct (payload !! _); [|done]. by rewrite !(proj2 (Z.leb_le 0 _)) by lia.
Qed.

Lemma valid_app loader payload :
  valid_elf (loader ++ payload) (Z.of_nat (length loader)) = valid_elf payload 0.
Proof. unfold valid_elf. by rewrite !load_char_app by lia. Qed.

Lemma valid_elf_fault file o f : valid_elf file o = Err f → f = Undefined.
Proof.
  unfold valid_elf, load_char, rbind. intros H.
  repeat (case_match; simplify_eq); done.
Qed.

(** The length of the second search is far beyond the block. *)
Lemma search_length n p b :
  n < b < 2 ^ 47 → 0 ≤ p ≤ n → u64 (n - (b + p) - 6) = 2 ^ 64 + (n - (b + p) - 6).
Proof. intros Hb Hp. symmetry. apply (Z.mod_unique_pos _ _ (-1)); lia. Qed.

(** [main] after the first search. *)
Lemma main_none e file :
  started e file → (52 ≤ length file)%nat → (∀ j, (52 ≤ j)%nat → ¬ magic_at file j) → main e = Ok (-3, None).
Proof.
  intros [Ho Hs Hb Hbase Hm] H52 Hno. unfold main. rewrite (proj2 (Z.ltb_ge _ _)) by done. rewrite Hb, Hs.
  rewrite (wrapu_small 64 (_ - 52)) by lia. change (memmem (drop 52 file) (Z.of_nat (length file) - 52) 52) with
    (memmem (drop 52%nat file) (Z.of_nat (length file) - Z.of_nat 52) (Z.of_nat 52)).
  by rewrite memmem_all, find_magic_misses.
Qed.

(** An occurrence that is no header is followed by a search of some [2 ^ 64] bytes. *)
Lemma main_first e file p :
  started e file → Z.of_nat (length file) < 2 ^ 31 → (52 ≤ length file)%nat → first_from file 52 p →
  main e = match valid_elf file (Z.of_nat p) with Ok true => Ok (0, Some (drop p file)) | _ => Err Undefined end.
Proof.
  intros [Ho Hs Hb Hbase Hm] Hlen H52 Hp. unfold main. rewrite (proj2 (Z.ltb_ge _ _)) by done. rewrite Hb, Hs.
  pose proof (magic_length _ _ (proj1 (proj2 Hp))) as Hpl.
  rewrite (wrapu_small 64 (_ - 52)) by lia. change (memmem (drop 52 file) (Z.of_nat (length file) - 52) 52) with
    (memmem (drop 52%nat file) (Z.of_nat (length file) - Z.of_nat 52) (Z.of_nat 52)).
  rewrite memmem_all, (find_magic_finds file 52 p) by done. cbn [rbind].
  destruct (valid_elf file (Z.of_nat p)) as [[|]|f] eqn:Hv; cbn [rbind].
  - rewrite Hv. cbn [rbind negb]. rewrite (proj2 (Z.ltb_ge (memfd e) 0)) by done.
    rewrite wraps_small by lia. rewrite (proj2 (Z.ltb_ge _ _)) by lia. rewrite Nat2Z.id.
    rewrite take_ge; [done|]. rewrite length_drop. lia.
  - rewrite search_length, memmem_beyond by lia. done.
  - by destruct (valid_elf_fault file (Z.of_nat p) f Hv).
Qed.

(** C11: (what was appended comes out, and when) for a loader of at least 52 bytes
    with an ELF file appended, whose header is valid, the program executes exactly
    the bytes that were appended when the loader does not contain the magic bytes
    behind its own header.  When it does, everything depends on the first place:
    with a valid header there, the program executes the file from there on;
    without one, it is undefined behaviour, because the length of the second
    search is computed from an address and exceeds the block by far. *)
Theorem payload_roundtrip (loader payload : list Z) (e : env) :
  started e (loader ++ payload) → Z.of_nat (length (loader ++ payload)) < 2 ^ 31 →
  (52 ≤ length loader)%nat → elf_header payload →
  ((∀ j, (52 ≤ j < length loader)%nat → ¬ magic_at (loader ++ payload) j) → main e = Ok (0, Some payload)) ∧
  (∀ p, first_from (loader ++ payload) 52 p → (p < length loader)%nat →
     main e = match valid_elf (loader ++ payload) (Z.of_nat p) with
       | Ok true => Ok (0, Some (drop p (loader ++ payload)))
       | _ => Err Undefined
       end).
Proof.
  intros Hst Hlen H52 [Hm Hv].
  assert (52 ≤ length (loader ++ payload))%nat by (rewrite length_app; lia). split.
  - intros Hno. assert (magic_at (loader ++ payload) (length loader)) as Hma
      by (rewrite <- (Nat.add_0_r (length loader)); by apply magic_app).
    rewrite (main_first _ _ (length loader)) by (done || by split_and!).
    by rewrite valid_app, Hv, drop_app_length.
  - intros p Hp _. by apply main_first.
Qed.

(** Without a payload: nothing found is reported; an occurrence that is no header,
    like the search constant of the loader itself, is followed by a search past
    the end of the block; and the header of an occurrence at the end of the file
    is read past it. *)
Theorem loader_without_payload (file : list Z) (e : env) :
  started e file → Z.of_nat (length file) < 2 ^ 31 → (52 ≤ length file)%nat →
  ((∀ j, (52 ≤ j)%nat → ¬ magic_at file j) → main e = Ok (-3, None)) ∧
  (∀ p, first_from file 52 p → valid_elf file (Z.of_nat p) = Ok false → main e = Err Undefined) ∧
  (∀ p, first_from file 52 p → length file = (p + 4)%nat → main e = Err Undefined).
Proof.
  intros Hst Hlen H52. split_and!; [by apply main_none| |]; intros p Hp H; rewrite (main_first e file p) by done.
  - by rewrite H.
  - assert (valid_elf file (Z.of_nat p) = Err Undefined) as ->; [|done].
    unfold valid_elf, load_char. rewrite lookup_ge_None_2 by lia. done.
Qed.
End extraction.

Definition sample_payload : list Z := [0x7F; 69; 76; 70; 2; 1; 1; 0].
Definition plain_loader : list Z := replicate 60 0.
(** A loader with the constant of its own search. *)
Definition sample_loader : list Z := replicate 52 0 ++ elf_magic ++ [0; 0; 0; 0; 0; 0].
Definition sample_env (file : list Z) : env := mk_env 3 (Z.of_nat (length file)) (Some file) 4096 4.

Lemma sample_started file :
  bool_decide (length file < 4096)%nat = true → started (sample_env file) file.
Proof. intros H%bool_decide_eq_true. split; cbn; lia || done. Qed.

Lemma payload_roundtrip_witness :
  main (sample_env (plain_loader ++ sample_payload)) = Ok (0, Some sample_payload) ∧
  main (sample_env (sample_loader ++ sample_payload)) = Err Undefined.
Proof.
  split.
  - refine (proj1 (payload_roundtrip plain_loader sample_payload (sample_env (plain_loader ++ sample_payload)) _ _ _ _) _).
    + by apply sample_started.
    + reflexivity.
    + apply (bool_decide_unpack _). reflexivity.
    + split; reflexivity.
    + change (length plain_loader) with 60%nat. intros j Hj. do 52 (destruct j as [|j]; [lia|]).
      do 8 (destruct j as [|j]; [by vm_compute|]). lia.
  - refine (proj2 (payload_roundtrip sample_loader sample_payload (sample_env (sample_loader ++ sample_payload)) _ _ _ _) 52%nat _ _).
    + by apply sample_started.
    + reflexivity.
    + apply (bool_decide_unpack _). reflexivity.
    + split; reflexivity.
    + split_and!; [done|reflexivity|]. intros j Hj. lia.
    + apply (bool_decide_unpack _). reflexivity.
Defined.

Lemma loader_without_payload_witness :
  main (sample_env sample_loader) = Err Undefined.
Proof.
  refine (proj1 (proj2 (loader_without_payload sample_loader (sample_env sample_loader) _ _ _)) 52%nat _ _).
  - by apply sample_started.
  - reflexivity.
  - apply (bool_decide_unpack _). reflexivity.
  - split_and!; [done|reflexivity|]. intros j Hj. lia.
  - reflexivity.
Defined.
