(* ===== verification/Timer.v ===== *)
(** * The timer of timerfd/timer.c

    A child process waits with epoll for a timer descriptor, reads it and arms it
    again.  The state is the [posix_timer], the kernel's setting of the descriptor
    and the bytes of the variable [buf]; the calls that may fail have their results
    in [rounds] and in arguments. *)
From S2P Require Import Prelude.
From stdpp Require Import list.
#[local] Open Scope Z_scope.
#[local] Open Scope c_scope.

Record itimerspec := mk_spec { it_value : Z * Z; it_interval : Z * Z }.

(** [setting] is what the kernel holds for the descriptor, [expired] how often the
    timer has expired since it was read. *)
Record timer := mk_timer {
  tfd : Z;
  ts : itimerspec;
  setting : itimerspec;
  expired : Z;
  buf : list Z
}.

Definition timerfd_settime : M timer unit :=
  modify (λ t, mk_timer (tfd t) (ts t) (ts t) 0 (buf t)).

Definition set_ts (s : itimerspec) : M timer unit :=
  modify (λ t, mk_timer (tfd t) s (setting t) (expired t) (buf t)).

Definition do_handle : M timer unit :=
  set_ts (mk_spec (1, 0) (0, 0)) ;;
  timerfd_settime.

(** [read] of a timer descriptor into an object: it fails for fewer than 8 bytes,
    and otherwise stores the number of expirations, 8 bytes. *)
Definition read (n : Z) : M timer Z :=
  t ← gets id;
  if n <? 8 then ret (-1)
  else if expired t =? 0 then fail Blocked
  else if Z.of_nat (length (buf t)) <? 8 then fail Undefined
  else modify (λ t, mk_timer (tfd t) (ts t) (setting t) 0 (le_encode 8 (expired t) ++ drop 8 (buf t))) ;; ret 8.

Definition sizeof_int : nat := 4.
Definition sizeof_uint64_t : Z := 8.

(** The loop of [start_epoll]: every round is a failure of [epoll_wait], or the
    number of expirations with which it returns. *)
Fixpoint epoll_rounds (rounds : list (option Z)) : M timer unit :=
  match rounds with
  | [] => fail Blocked
  | None :: _ => fail AssertFailed
  | Some n :: rounds =>
      modify (λ t, mk_timer (tfd t) (ts t) (setting t) n (replicate sizeof_int 0)) ;;
      read sizeof_uint64_t ;;
      do_handle ;;
      epoll_rounds rounds
  end.

Definition start_epoll (epoll_ctl : Z) (rounds : list (option Z)) : M timer unit :=
  if epoll_ctl =? -1 then fail AssertFailed else epoll_rounds rounds.

(** [main] up to the fork, and the child. *)
Definition main (timerfd settime epoll_ctl : Z) (rounds : list (option Z)) : result (unit * timer) :=
  if timerfd <? 0 then Err AssertFailed
  else if truthy settime then Err AssertFailed
  else
    (set_ts (mk_spec (5, 0) (0, 0)) ;; timerfd_settime ;; start_epoll epoll_ctl rounds)
      (mk_timer timerfd (mk_spec (0, 0) (0, 0)) (mk_spec (0, 0) (0, 0)) 0 []).

(** The first expiration is stored into a variable that is half as large: a child
    whose calls succeed never completes a round of its loop. *)
Theorem first_expiration_overflows (timerfd n : Z) (epoll_ctl : Z) (rounds : list (option Z)) :
  0 ≤ timerfd → epoll_ctl ≠ -1 → 0 < n →
  main timerfd 0 epoll_ctl (Some n :: rounds) = Err Undefined.
Proof.
  intros Hfd Hctl Hn. unfold main. rewrite (proj2 (Z.ltb_ge _ _)) by done. change (truthy 0) with false. cbn iota.
  unfold start_epoll. rewrite (proj2 (Z.eqb_neq epoll_ctl (-1))) by done.
  cbn [epoll_rounds]. unfold read, set_ts, timerfd_settime, bind, modify, gets, id. cbn [expired buf tfd ts setting].
  by rewrite (proj2 (Z.eqb_neq n 0)) by lia.
Qed.

Lemma first_expiration_overflows_witness : main 3 0 0 [Some 1] = Err Undefined.
Proof. refine (first_expiration_overflows 3 1 0 [] _ _ _); lia. Defined.
